(* ===== verification/_CoqProject ===== *)
-Q . S2P
Prelude.v
Ioctl.v
Mmio.v
PwmGpio.v
PwmCommon.v
PwmSpec.v
SoftPwm.v
SoftPwmTasks.v
PwmRefine.v
XenoPwm.v
XenoSim.v
XenoRefine.v
PwmUser.v
BoardHw.v
BcmGpio.v
ArmCtrl.v
VcSupport.v
Bcm2709.v
KString.v
KMath.v
Kstrtox.v
KDecimal.v
KFormat.v
KPrintf.v
KHex.v
KSort.v
KCrc.v
KBits.v
KBitOps.v
KBitmap.v
KBitmapArea.v
KBitmapMap.v
KGlob.v
KList.v
KListSort.v
KHeap.v
KRbtree.v
KRbInsert.v
KRbErase.v
KRbWalk.v
KTimerqueue.v
KFifo.v
KCmdline.v
