(* ===== verification/Prelude.v ===== *)
(** * KsoftPWM: verification library

    KsoftPWM generates PWM signals on the GPIO pins of a Raspberry Pi from inside the
    kernel.  softPWM is a character device whose PWM tasks are kernel threads; xenoPWM
    is the same driver on Xenomai's RTDM with real-time tasks; each comes with a user
    program.  The repository also carries the kernel tree they are built for.  This
    library models the drivers, the user programs, the board code of that kernel
    (mach-bcm2709) and a part of its library (lib/), and proves what they do.

    ** How the parts interact

    A user program opens the device and sends four commands (PIN_SET, GPIO_SET,
    PWM_INIT, PWM_SET) whose argument is an [int] array in user memory.  The driver's
    ioctl handler decodes the command word, checks the pointer and either writes GPIO
    registers or changes a table of at most five channels.  PWM_INIT also starts a task
    per channel that loops: set the pin, sleep, clear the pin, sleep, with times
    computed from the table, which PWM_SET may change meanwhile.  Module exit stops the
    tasks.  The board code maps the same registers for the kernel: it describes the
    devices, masks interrupts, demultiplexes GPIO interrupts, starts the cores and talks
    to the VideoCore.  The library routines are called throughout the kernel.

    ** The files (paths under src/; K is xenoPWM/kernel_source)

    - Prelude: machine integers with their wrap-around ([wrapu], [wraps], [u32], [i32]),
      faults and the error monad [res], the state monad [M], C arrays, bit lemmas.
    - Ioctl: K/include/uapi/asm-generic/ioctl.h, err.h, access_ok.
    - Mmio: registers as an interface, the classes [RegBus] and [PlainRegs], and
      [LogBus], which implements them.
    - PwmGpio: softPWM/gpio.c (xenoPWM/gpio.c is the same file).
    - PwmCommon: the table entry and what both drivers use of the kernel.
    - SoftPwm: softPWM/main.c and softpwm.h.  [state] holds the file's globals, the
      registered devices, the threads, the registers and the log; [pwm_init],
      [pwm_exit] and [pwm_ioctl] with its branches [do_PIN_SET] ... [do_PWM_SET].
    - SoftPwmTasks: [task_step], one statement of [pwm_task] in one thread;
      [good_step], all threads beside complete ioctl calls; [init_step], one statement
      of PWM_INIT, for two callers at once.
    - XenoPwm, XenoSim: xenoPWM/main.c, and its simulation by softPWM.
    - PwmSpec: the abstract controller both drivers promise, a table of channels, the
      pins and the messages; PwmRefine and XenoRefine: each driver refines it.
    - PwmUser: softPWM/uapi and xenoPWM/uapi, against the class [PwmDevice] that both
      drivers implement.
    - BoardHw, BcmGpio, ArmCtrl, VcSupport, Bcm2709: K/arch/arm/mach-bcm2709 (the
      constants of its headers, bcm2708_gpio.c, armctrl.c, vc_support.c, bcm2709.c).
    - KString: K/lib/string.c and ctype.c.  KMath: K/lib/div64.c, gcd.c, lcm.c,
      int_sqrt.c, bcd.c, reciprocal_div.c.  Kstrtox: K/lib/kstrtox.c.  KSort:
      K/lib/sort.c and bsearch.c.  KCrc: K/lib/crc7.c, crc8.c, crc16.c, crc-ccitt.c,
      crc-itu-t.c, bitrev.c.  KGlob: K/lib/glob.c.  KList: K/include/linux/list.h.
      KListSort: K/lib/list_sort.c.  KCmdline: K/lib/cmdline.c and the simple_strto
      functions of K/lib/vsprintf.c.
    - KDecimal, KFormat, KPrintf: the formatting half of K/lib/vsprintf.c: the decimal
      conversion, [vsnprintf] with its variants, and what they print.  KHex:
      K/lib/hexdump.c.
    - KBits: K/lib/hweight.c, find_bit.c.  KBitOps: K/include/linux/bitops.h and
      asm-generic/bitops.  KBitmap, KBitmapArea, KBitmapMap: K/lib/bitmap.c, its set
      operations, its areas and regions, its maps between bitmaps.
    - KHeap: the store of code on linked nodes, and a separation logic for it in Iris with
      its soundness lemma.  KRbtree, KRbInsert, KRbErase, KRbWalk: K/lib/rbtree.c,
      K/include/linux/rbtree.h and rbtree_augmented.h; a state is the map from an address
      and a field to the field's word, [tree] the tree it holds.  KTimerqueue:
      K/lib/timerqueue.c on those trees.
    - KFifo: K/lib/kfifo.c and K/include/linux/kfifo.h for plain fifos; a state is the
      structure and its buffer, [contents] the queue it holds.

    A definition has the name of the C function it translates; a loop or a branch that
    is a definition of its own is named after the function.  An operation with no
    defined result in C, or that the kernel would not survive, is a [Fault].

    ** What the theorems show

    - The drivers.  An invariant holds after init and after every sequence of commands
      that return, whatever their arguments ([driver_invariant]); what each command does and
      which arguments it refuses ([PWM_INIT_appends], [PWM_SET_first_match],
      [PIN_SET_direction], [GPIO_SET_bit], [pwm_ioctl_filters]); that no task faults
      beside one caller whose channels have positive ranges ([tasks_never_fault]), that a task's pin follows the
      waveform of its table entry ([task_waveform]) and that it stops with the pin low
      ([task_stops_low]); the sleep times and where their arithmetic overflows
      ([sleep_times_sum]).  xenoPWM returns and leaves the same as softPWM on the
      common commands ([xeno_soft_commands]); the user programs leave the promised
      channel on either driver ([user_main]).  Both drivers refine one abstract
      controller: every ioctl on pins below 32 and positive ranges, in every order and
      with every failure of the services it calls, returns what the controller's command returns and changes what it changes
      ([soft_refines_controller], [xeno_refines_controller]).
    - What goes wrong in them: a sixth channel, an empty range, two PWM_INITs at once in
      every interleaving up to their updates of the count, what exit leaves behind ([PWM_INIT_sixth_channel], [empty_range_faults],
      [PWM_INIT_race], [module_lifecycle], [xeno_lifecycle]).
    - The board.  The chip's operations agree with the drivers' register writes,
      triggers and masks keep the registers in step, the demultiplexer runs the handler
      of each pending pin once, memory requests to the VideoCore undo each other, the
      secondary core's mailbox is polled up to the first 0, at most 19 times.
    - The library.  Strings against declarative specifications; conversions exact, with
      every error case, and inverse to printing; division, reciprocals and checksums
      equal to their mathematical definitions; sorts sort, the list sort stably and in
      place on linked nodes; list operations keep rings well formed; shell patterns
      without complemented classes match what they mean; option lists are read exactly.  Bitmap operations are the
      set operations ([bitmap_refines_sets]), searches and areas find the first that
      fits.  snprintf prints what the grammar of its format denotes, cut to the buffer
      ([snprintf_prints_format], with the points where that is not C99), and what it prints of an integer kstrto reads back
      ([print_parse_roundtrip]); hex dumps and hexadecimal text are exact.  Insertion into
      and removal from a red-black tree keep the order and the red-black rules and touch
      nothing else ([rb_insert_exact], [rb_erase_exact]), iteration follows the order
      ([rb_iteration]), and timer queues refine sorted lists ([timerqueue_refines]) with a
      logarithmic search ([timerqueue_search]); ring buffers refine bounded queues
      ([kfifo_refines_queue]).  With them
      the places where the code is wrong: div64_u64 for some divisors beyond 32 bits,
      glob_match, get_range, hex_dump_to_buffer and kfifo_init beyond the end of their
      objects.

    ** Bounds and fuel

    A loop that is not structural carries fuel, and running out is the fault [NoFuel];
    the theorems about it conclude an [Ok] or another named outcome for the fuel the
    definition passes, so enough fuel is part of what is proved.  The fuel is: the
    number of elements plus one for heap sort and binary search (each step goes down
    the heap, or halves the range); [b] for [gcd] (the remainder decreases); 17 for
    [int_sqrt] (the bit moves down by two from 30) and 65 for division (one bit per
    round); 9 and 129 for filling the tables of [crc8] (bits of a byte, powers of two
    below 256); (length of text + 1) times (length of pattern + 1) for [glob_match]
    (the saved position only moves on, the pattern is consumed between); the number of
    nodes in the store plus one for every loop over a list, and 22 levels of
    [list_sort]; the length of the text plus one for option lists; the number of words
    plus one for a bit search, of bits plus one for loops over the bits, areas and
    regions of a bitmap; the width plus two for padding and twice the length of the
    format plus two for [format_loop] (an item consumes a character, or is a field of
    the one before); the number of cells in the store plus one for the loops over trees,
    which visit each node once.  [poll_mbox] counts the code's own timeout.

    ** Parameters

    Code that is not in the repository is a parameter: what kernel services return
    (allocation, device registration, thread creation, the interrupt core), Xenomai's
    RTDM services and the value of RTDM_CLASS_EXPERIMENTAL, the hardware behind the
    registers, the VideoCore's firmware, user memory.  What the code relies on in them
    is the class [PlainRegs], the class [VcFirmware], the class [Comparator] for a
    caller's comparison function, or a named hypothesis; each has an instance on which
    the witnesses run.

    ** Not modelled

    - Interrupt triggers do not change while the GPIO demultiplexer runs.
    - The halves of bcm2709.c and armctrl.c behind SYSTEM_TIMER and CONFIG_PM, which
      the board's configuration does not compile; functions that only print.
    - ARM's own versions of some string routines and of do_div are assembly outside the
      copied tree; the portable versions are modelled.  bitrev.c is the version without
      CONFIG_HAVE_ARCH_BITREVERSE, list.h the one without CONFIG_DEBUG_LIST.
    - crc32.c, whose table a build step generates, and crc-t10dif.c, which calls the
      crypto API; hlists and the iteration macros.
    - Of vsprintf.c: the extensions of %p (a plain pointer is modelled), vsscanf, the
      binary printf, and an output buffer that wraps around the address space.  Of
      hexdump.c: print_hex_dump, which only logs lines.
    - Of the bit routines: the assembly versions of ARM and the shortcuts of the inline
      functions for constant sizes; printing and parsing of bitmaps.
    - Of kfifo.c: fifos of records, scatter lists for DMA, the spin-locked wrappers.
    - [pwm_exit]'s iounmap changes nothing that is modelled, and kthread_stop ends the
      thread at once; how a task reacts to being stopped is [task_stops_low].
    - Of rbtree_augmented.h: the macro that generates callbacks; the callbacks are
      parameters of the definitions, and the theorems are about the plain trees.
    - Everything else of the kernel tree: headers and sources that are vendored to build
      the modules, and scripts.  src/tests holds access experiments that are not part
      of the drivers.

    ** Plan

    What could come next: augmented trees (interval_tree.c), parser.c, checksum.c,
    rational.c, the records of kfifo.c and hlists. *)

From stdpp Require Export base option list gmap strings.
From Stdlib Require Export ZArith Lia.


Declare Scope cint_scope.
Delimit Scope cint_scope with cint.
#[global] Open Scope Z_scope.

(** ** Machine integers *)

(** Value of [z] in a [w]-bit unsigned object. *)
Definition wrapu (w z : Z) : Z := z mod 2 ^ w.

(** Value of [z] in a [w]-bit two's complement object. *)
Definition wraps (w z : Z) : Z := (z + 2 ^ (w - 1)) mod 2 ^ w - 2 ^ (w - 1).

Abbreviation u8 := (wrapu 8).
Abbreviation u16 := (wrapu 16).
Abbreviation u32 := (wrapu 32).
Abbreviation u64 := (wrapu 64).
Abbreviation i32 := (wraps 32).
Abbreviation i64 := (wraps 64).

(** Being representable. *)
Definition is_u (w z : Z) : Prop := 0 <= z < 2 ^ w.
Definition is_s (w z : Z) : Prop := - 2 ^ (w - 1) <= z < 2 ^ (w - 1).

#[global] Instance is_u_dec w z : Decision (is_u w z).
Proof. unfold is_u. apply _. Defined.
#[global] Instance is_s_dec w z : Decision (is_s w z).
Proof. unfold is_s. apply _. Defined.

(** The kernel is compiled with [-fno-strict-overflow] (kernel_source/Makefile),
    so [int] arithmetic wraps. *)
Notation "a '+i' b" := (i32 (a + b)) (at level 50, left associativity) : cint_scope.
Notation "a '-i' b" := (i32 (a - b)) (at level 50, left associativity) : cint_scope.
Notation "a '*i' b" := (i32 (a * b)) (at level 40, left associativity) : cint_scope.
Notation "a '+u' b" := (u32 (a + b)) (at level 50, left associativity) : cint_scope.
Notation "a '-u' b" := (u32 (a - b)) (at level 50, left associativity) : cint_scope.
Notation "a '*u' b" := (u32 (a * b)) (at level 40, left associativity) : cint_scope.

Create HintDb cint.
Create HintDb res.
Create Rewrite HintDb cint.
Create Rewrite HintDb res.
Create Rewrite HintDb zbits.

Lemma pow2_pos w : 0 <= w -> 0 < 2 ^ w.
Proof. intros. apply Z.pow_pos_nonneg; lia. Qed.

Lemma wrapu_range w z : 0 <= w -> is_u w (wrapu w z).
Proof. intros. apply Z.mod_pos_bound, pow2_pos. lia. Qed.

Lemma wraps_range w z : 0 < w -> is_s w (wraps w z).
Proof.
  intros Hw. unfold is_s, wraps.
  assert (2 ^ w = 2 * 2 ^ (w - 1)) as E
    by (rewrite <- Z.pow_succ_r by lia; f_equal; lia).
  pose proof (Z.mod_pos_bound (z + 2 ^ (w - 1)) (2 ^ w) (pow2_pos w ltac:(lia))). lia.
Qed.

Lemma wrapu_small w z : is_u w z -> wrapu w z = z.
Proof. intros. apply Z.mod_small. done. Qed.

Lemma wraps_small w z : 0 < w -> is_s w z -> wraps w z = z.
Proof.
  intros Hw Hz. unfold is_s, wraps in *.
  assert (2 ^ w = 2 * 2 ^ (w - 1)) as E
    by (rewrite <- Z.pow_succ_r by lia; f_equal; lia).
  rewrite Z.mod_small; lia.
Qed.

Lemma wrapu_wraps w z : 0 < w -> wrapu w (wraps w z) = wrapu w z.
Proof.
  intros Hw. unfold wrapu, wraps.
  rewrite Zminus_mod_idemp_l. f_equal. lia.
Qed.

Lemma wraps_wrapu w z : 0 < w -> wraps w (wrapu w z) = wraps w z.
Proof.
  intros Hw. unfold wrapu, wraps. by rewrite Zplus_mod_idemp_l.
Qed.

Lemma wrapu_idemp w z : wrapu w (wrapu w z) = wrapu w z.
Proof. apply Zmod_mod. Qed.

(** Facts at the widths the code uses, in a form [lia] reads. *)
Lemma u32_range z : 0 <= u32 z < 4294967296.
Proof. exact (wrapu_range 32 z ltac:(lia)). Qed.
Lemma i32_range z : -2147483648 <= i32 z < 2147483648.
Proof. exact (wraps_range 32 z ltac:(lia)). Qed.
Lemma u8_range z : 0 <= u8 z < 256.
Proof. exact (wrapu_range 8 z ltac:(lia)). Qed.
Lemma u32_small z : 0 <= z < 4294967296 -> u32 z = z.
Proof. intros. by apply (wrapu_small 32). Qed.
Lemma i32_small z : -2147483648 <= z < 2147483648 -> i32 z = z.
Proof. intros. apply (wraps_small 32); [lia|]. done. Qed.
Lemma u32_neg z : -4294967296 <= z < 0 -> u32 z = z + 4294967296.
Proof.
  intros. unfold wrapu. replace z with (z + 4294967296 + -1 * 2 ^ 32) at 1 by lia.
  rewrite Z.mod_add by lia. apply Z.mod_small. lia.
Qed.

#[export] Hint Resolve u32_range i32_range u8_range : cint.
#[export] Hint Rewrite wrapu_idemp : cint.

(** Normalise every wrapped term whose argument [lia] can bound. *)
Ltac wrap_small :=
  repeat match goal with
    | |- context [wrapu 32 ?z] => rewrite (u32_small z) by lia
    | |- context [wraps 32 ?z] => rewrite (i32_small z) by lia
    | H : context [wrapu 32 ?z] |- _ => rewrite (u32_small z) in H by lia
    | H : context [wraps 32 ?z] |- _ => rewrite (i32_small z) in H by lia
    end.

(** Linear arithmetic over division and remainder by constants. *)
Ltac dlia := Z.to_euclidean_division_equations; lia.

(** ** Faults and the error monad *)

(** What the kernel does not survive: the C operations with no defined result. *)
Inductive fault :=
  | DivByZero        (* integer division by zero *)
  | DivOverflow      (* INT_MIN / -1 *)
  | ShiftRange       (* shift count outside the width *)
  | OutOfBounds      (* access outside an object or a mapping *)
  | NullDeref        (* access through NULL *)
  | BadUser          (* kernel access to an unmapped user address *)
  | UseAfterFree     (* access to a freed object *)
  | KernelBug        (* BUG() *)
  | BadArgument      (* va_arg on an argument of another type *)
  | NotModelled      (* code the development leaves out *)
  | NoFuel.          (* a loop did not end within the iterations it was given *)

#[global] Instance fault_eq_dec : EqDecision fault.
Proof. solve_decision. Defined.

Inductive res (A : Type) :=
  | Ok (a : A)
  | Fault (f : fault).
Arguments Ok {A} a.
Arguments Fault {A} f.

#[global] Instance res_eq_dec {A} `{EqDecision A} : EqDecision (res A).
Proof. solve_decision. Defined.

#[global] Instance res_ret : MRet res := fun A a => Ok a.
#[global] Instance res_bind : MBind res := fun A B f r =>
  match r with Ok a => f a | Fault e => Fault e end.
#[global] Instance res_fmap : FMap res := fun A B f r =>
  match r with Ok a => Ok (f a) | Fault e => Fault e end.

Definition is_ok {A} (r : res A) : bool :=
  match r with Ok _ => true | Fault _ => false end.

(** Fault [f] unless [b]. *)
Definition require (b : bool) (f : fault) : res unit :=
  if b then Ok tt else Fault f.

(** Read an optional object, faulting with [f] when it is absent. *)
Definition need {A} (o : option A) (f : fault) : res A :=
  match o with Some a => Ok a | None => Fault f end.

Lemma bind_ok {A B} (r : res A) (k : A -> res B) b :
  r ≫= k = Ok b <-> exists a, r = Ok a /\ k a = Ok b.
Proof.
  destruct r as [a|e]; cbn.
  - split; [intros H; by exists a | intros (a' & [= ->] & H); done].
  - split; [done | intros (a' & ? & ?); done].
Qed.

Lemma require_ok b f x : require b f = Ok x <-> b = true.
Proof. destruct b, x; cbn; split; done. Qed.

Lemma need_ok {A} (o : option A) f a : need o f = Ok a <-> o = Some a.
Proof. destruct o; cbn; split; congruence. Qed.

(** ** State and error monad *)

Definition M (S A : Type) : Type := S -> res (A * S).

#[global] Instance M_ret S : MRet (M S) := fun A a s => Ok (a, s).
#[global] Instance M_bind S : MBind (M S) := fun A B k m s =>
  match m s with Ok (a, s') => k a s' | Fault e => Fault e end.
#[global] Instance M_fmap S : FMap (M S) := fun A B f m s =>
  match m s with Ok (a, s') => Ok (f a, s') | Fault e => Fault e end.

Definition get {S} : M S S := fun s => Ok (s, s).
Definition gets {S A} (f : S -> A) : M S A := fun s => Ok (f s, s).
Definition modify {S} (f : S -> S) : M S unit := fun s => Ok (tt, f s).
Definition lift {S A} (r : res A) : M S A := fun s =>
  match r with Ok a => Ok (a, s) | Fault e => Fault e end.
Definition die {S A} (f : fault) : M S A := fun _ => Fault f.

Lemma Mbind_unfold {S A B} (m : M S A) (k : A -> M S B) s :
  (m ≫= k) s = match m s with Ok (a, s') => k a s' | Fault e => Fault e end.
Proof. done. Qed.

Lemma Mbind_ok {S A B} (m : M S A) (k : A -> M S B) s b s'' :
  (m ≫= k) s = Ok (b, s'') <-> exists a s', m s = Ok (a, s') /\ k a s' = Ok (b, s'').
Proof.
  rewrite Mbind_unfold. destruct (m s) as [[a s']|e].
  - split; [intros H; by exists a, s' | intros (? & ? & [= -> ->] & H); done].
  - split; [done | intros (? & ? & ? & ?); done].
Qed.

(** Unfold the monads' plumbing without touching the definitions it carries. *)
Ltac msimpl :=
  cbv [mbind mret fmap M_bind M_ret M_fmap res_bind res_ret res_fmap
       get gets modify lift die require need] in *; cbn beta iota in *.



(** ** C operators with a partial domain *)

(** [a << n] on a [w]-bit unsigned operand. *)
Definition shlu (w a n : Z) : res Z :=
  if (0 <=? n) && (n <? w) then Ok (wrapu w (Z.shiftl a n)) else Fault ShiftRange.
(** [a << n] on an [int]; gcc gives the two's complement value. *)
Definition shl32 (a n : Z) : res Z :=
  if (0 <=? n) && (n <? 32) then Ok (i32 (Z.shiftl a n)) else Fault ShiftRange.
(** [a / b] and [a % b] on [int]: truncation toward zero. *)
Definition div32 (a b : Z) : res Z :=
  if b =? 0 then Fault DivByZero
  else if (a =? -2147483648) && (b =? -1) then Fault DivOverflow
  else Ok (Z.quot a b).

Lemma shl32_ok a n : 0 <= n < 32 -> shl32 a n = Ok (i32 (Z.shiftl a n)).
Proof.
  intros. unfold shl32.
  rewrite (proj2 (Z.leb_le 0 n)), (proj2 (Z.ltb_lt n 32)) by lia. done.
Qed.

Lemma shl32_bad a n : ~ 0 <= n < 32 -> shl32 a n = Fault ShiftRange.
Proof.
  intros. unfold shl32. destruct (0 <=? n) eqn:?, (n <? 32) eqn:?; cbn; try done.
  apply Z.leb_le in Heqb. apply Z.ltb_lt in Heqb0. lia.
Qed.

Lemma div32_ok a b : b <> 0 -> a <> -2147483648 \/ b <> -1 -> div32 a b = Ok (Z.quot a b).
Proof.
  intros Hb Hab. unfold div32. apply Z.eqb_neq in Hb. rewrite Hb.
  destruct (a =? -2147483648) eqn:?, (b =? -1) eqn:?; cbn; try done.
  apply Z.eqb_eq in Heqb0, Heqb1. lia.
Qed.

#[export] Hint Rewrite @shl32_ok using lia : res.

(** ** Bits *)

#[export] Hint Rewrite Z.land_spec Z.lor_spec Z.lxor_spec Z.ldiff_spec Z.lnot_spec
  Z.shiftr_spec Z.shiftl_spec Z.testbit_0_l using lia : zbits.

Lemma testbit_high w n i : 0 <= w -> is_u w n -> w <= i -> Z.testbit n i = false.
Proof.
  intros Hw Hn Hi. rewrite <- (wrapu_small w n Hn). apply Z.mod_pow2_bits_high. lia.
Qed.

Lemma wrapu_testbit w n i :
  0 <= w -> Z.testbit (wrapu w n) i = (bool_decide (i < w) && Z.testbit n i).
Proof.
  intros Hw. case_bool_decide.
  - destruct (decide (0 <= i)).
    + unfold wrapu. by rewrite Z.mod_pow2_bits_low by lia.
    + rewrite !Z.testbit_neg_r by lia. done.
  - unfold wrapu. by rewrite Z.mod_pow2_bits_high by lia.
Qed.

Lemma testbit_pow2 n i : 0 <= n -> Z.testbit (2 ^ n) i = bool_decide (n = i).
Proof.
  intros. rewrite Z.pow2_bits_eqb by lia.
  case_bool_decide; [by apply Z.eqb_eq | by apply Z.eqb_neq].
Qed.

(** A single-bit mask tests the bit. *)
Lemma land_pow2 a k : 0 <= k -> Z.land a (2 ^ k) = if Z.testbit a k then 2 ^ k else 0.
Proof.
  intros Hk. apply Z.bits_inj'. intros i Hi. rewrite Z.land_spec, testbit_pow2 by done.
  case_bool_decide as E.
  - subst i. destruct (Z.testbit a k); cbn; [by rewrite testbit_pow2, bool_decide_eq_true_2 | by rewrite Z.testbit_0_l].
  - rewrite andb_false_r. destruct (Z.testbit a k); [by rewrite testbit_pow2, bool_decide_eq_false_2 | by rewrite Z.testbit_0_l].
Qed.

Lemma land_pow2_nz a k : 0 <= k -> Z.land a (2 ^ k) <> 0 <-> Z.testbit a k = true.
Proof.
  intros Hk. rewrite land_pow2 by done. pose proof (pow2_pos k Hk). destruct (Z.testbit a k); split; done || lia.
Qed.

Lemma is_u_land_l w a b : 0 <= w -> is_u w a -> 0 <= b -> is_u w (Z.land a b).
Proof.
  intros Hw Ha Hb. unfold is_u in *.
  assert (0 <= Z.land a b) as H0 by (apply Z.land_nonneg; lia).
  split; [done|]. destruct (decide (Z.land a b = 0)) as [->|Hnz]; [by apply pow2_pos|].
  apply Z.log2_lt_pow2; [lia|].
  destruct (Z.ltb_spec (Z.log2 (Z.land a b)) w) as [|Hge]; [done|].
  pose proof (Z.bit_log2 (Z.land a b) ltac:(lia)) as Hb2.
  rewrite Z.land_spec, (testbit_high w a) in Hb2 by done. done.
Qed.

Lemma is_u_bits w n : 0 <= w -> 0 <= n -> (forall i, w <= i -> Z.testbit n i = false) -> is_u w n.
Proof.
  intros Hw Hn Hb. split; [done|]. destruct (decide (n = 0)) as [->|]; [by apply pow2_pos|].
  apply Z.log2_lt_pow2; [lia|].
  destruct (Z.ltb_spec (Z.log2 n) w) as [|Hge]; [done|].
  pose proof (Z.bit_log2 n ltac:(lia)). rewrite Hb in H by done. done.
Qed.

Lemma is_u_lor w a b : 0 <= w -> is_u w a -> is_u w b -> is_u w (Z.lor a b).
Proof.
  intros Hw Ha Hb. apply is_u_bits; [done| |].
  - apply Z.lor_nonneg. unfold is_u in *. lia.
  - intros i Hi. by rewrite Z.lor_spec, !(testbit_high w).
Qed.

Lemma is_u_lxor w a b : 0 <= w -> is_u w a -> is_u w b -> is_u w (Z.lxor a b).
Proof.
  intros Hw Ha Hb. apply is_u_bits; [done| |].
  - apply Z.lxor_nonneg. unfold is_u in *. lia.
  - intros i Hi. by rewrite Z.lxor_spec, !(testbit_high w).
Qed.

(** ** C arrays *)

(** [a[i]] as a value and as the target of an assignment; an index outside the
    object faults. *)
Definition aread {A} (l : list A) (i : Z) : res A :=
  if 0 <=? i then need (l !! Z.to_nat i) OutOfBounds else Fault OutOfBounds.
Definition awrite {A} (l : list A) (i : Z) (x : A) : res (list A) :=
  if (0 <=? i) && (i <? Z.of_nat (length l)) then Ok (<[Z.to_nat i := x]> l)
  else Fault OutOfBounds.

Lemma aread_ok {A} (l : list A) i x :
  aread l i = Ok x <-> 0 <= i /\ l !! Z.to_nat i = Some x.
Proof.
  unfold aread. destruct (Z.leb_spec 0 i).
  - rewrite need_ok. tauto.
  - split; [done | lia].
Qed.

Lemma aread_lookup {A} (l : list A) i x :
  0 <= i -> l !! Z.to_nat i = Some x -> aread l i = Ok x.
Proof. intros. by apply aread_ok. Qed.

Lemma aread_oob {A} (l : list A) i :
  ~ 0 <= i < Z.of_nat (length l) -> aread l i = Fault OutOfBounds.
Proof.
  intros Hi. unfold aread. destruct (Z.leb_spec 0 i); [|done].
  rewrite (proj2 (lookup_ge_None l (Z.to_nat i))); [done | lia].
Qed.

Lemma awrite_in {A} (l : list A) i x :
  0 <= i < Z.of_nat (length l) -> awrite l i x = Ok (<[Z.to_nat i := x]> l).
Proof.
  intros Hi. unfold awrite.
  by rewrite (proj2 (Z.leb_le 0 i)), (proj2 (Z.ltb_lt i _)) by lia.
Qed.

Lemma awrite_oob {A} (l : list A) i x :
  ~ 0 <= i < Z.of_nat (length l) -> awrite l i x = Fault OutOfBounds.
Proof.
  intros Hi. unfold awrite. destruct (Z.leb_spec 0 i), (Z.ltb_spec i (Z.of_nat (length l)));
    cbn; done || lia.
Qed.

Lemma awrite_ok {A} (l l' : list A) i x :
  awrite l i x = Ok l' <-> 0 <= i < Z.of_nat (length l) /\ l' = <[Z.to_nat i := x]> l.
Proof.
  split.
  - unfold awrite. destruct (Z.leb_spec 0 i), (Z.ltb_spec i (Z.of_nat (length l)));
      cbn; intros [= <-]; done.
  - intros [Hi ->]. by apply awrite_in.
Qed.

Lemma lookup_Z {A} (l : list A) i :
  0 <= i < Z.of_nat (length l) -> exists x, l !! Z.to_nat i = Some x.
Proof. intros. apply lookup_lt_is_Some. lia. Qed.

#[export] Hint Rewrite @awrite_in using (rewrite ?length_insert; lia) : res.

(** ** Running monadic programs *)

Lemma Mbind_run {S A B} (m : M S A) (k : A -> M S B) s a s' :
  m s = Ok (a, s') -> (m ≫= k) s = k a s'.
Proof. intros E. by rewrite Mbind_unfold, E. Qed.

Lemma Mbind_fault {S A B} (m : M S A) (k : A -> M S B) s f :
  m s = Fault f -> (m ≫= k) s = Fault f.
Proof. intros E. by rewrite Mbind_unfold, E. Qed.

Lemma Mbind_gets {S A B} (f : S -> A) (k : A -> M S B) s : (gets f ≫= k) s = k (f s) s.
Proof. done. Qed.
Lemma Mbind_get {S B} (k : S -> M S B) s : (get ≫= k) s = k s s.
Proof. done. Qed.
Lemma Mbind_modify {S B} (f : S -> S) (k : unit -> M S B) s : (modify f ≫= k) s = k tt (f s).
Proof. done. Qed.
Lemma Mbind_lift {S A B} (a : A) (k : A -> M S B) s : (lift (Ok a) ≫= k) s = k a s.
Proof. done. Qed.
Lemma Mbind_ret {S A B} (a : A) (k : A -> M S B) s : (mret a ≫= k) s = k a s.
Proof. done. Qed.
Lemma Mbind_assoc {S A B C} (m : M S A) (k : A -> M S B) (l : B -> M S C) s :
  ((m ≫= k) ≫= l) s = (m ≫= (fun a => k a ≫= l)) s.
Proof. rewrite !Mbind_unfold. by destruct (m s) as [[]|]. Qed.
Lemma Mif {S A} (b : bool) (m m' : M S A) s : (if b then m else m') s = if b then m s else m' s.
Proof. by destruct b. Qed.

Lemma Mbind_ext {S A B} (m : M S A) (k k' : A -> M S B) s :
  (forall a s', m s = Ok (a, s') -> k a s' = k' a s') -> (m ≫= k) s = (m ≫= k') s.
Proof. intros Hk. rewrite !Mbind_unfold. destruct (m s) as [[a s']|]; [by apply Hk | done]. Qed.

#[export] Hint Rewrite @Mbind_assoc @Mbind_gets @Mbind_get @Mbind_modify @Mbind_lift @Mbind_ret : res.

(** Invert a successful run of a monadic program, one bind at a time. *)
Ltac minv_step :=
  match goal with
  | H : Ok _ = Ok _ |- _ => injection H; clear H; intros; subst
  | H : Fault _ = Ok _ |- _ => discriminate H
  | H : Ok _ = Fault _ |- _ => discriminate H
  | H : (_ ≫= _) _ = Ok (_, _) |- _ =>
      apply Mbind_ok in H; destruct H as (? & ? & ? & H)
  | H : _ ≫= _ = Ok _ |- _ => apply bind_ok in H; destruct H as (? & ? & H)
  | H : require _ _ = Ok _ |- _ => apply require_ok in H
  | H : need _ _ = Ok _ |- _ => apply need_ok in H
  | H : aread _ _ = Ok _ |- _ => apply aread_ok in H; destruct H as [? H]
  | H : awrite _ _ _ = Ok _ |- _ => apply awrite_ok in H; destruct H as [? H]; subst
  | H : lift ?r _ = Ok _ |- _ =>
      unfold lift in H; let E := fresh "E" in destruct r eqn:E; [|discriminate H]
  | H : gets _ _ = Ok _ |- _ => unfold gets in H
  | H : get _ = Ok _ |- _ => unfold get in H
  | H : modify _ _ = Ok _ |- _ => unfold modify in H
  | H : mret _ _ = Ok _ |- _ => unfold mret, M_ret in H
  | H : mret _ = Ok _ |- _ => unfold mret, res_ret in H
  end.
Ltac minv := repeat minv_step.

(** ** Truncated division *)

Lemma quot_div a b : 0 <= a -> 0 < b -> Z.quot a b = a / b.
Proof. intros. by apply Z.quot_div_nonneg. Qed.

(** [floor(a/b)] and [floor((b*k - a)/b)] add up to [k], or one less. *)
Lemma split_period k a r :
  0 < r -> a / r + (k * r - a) / r = k - (if decide (a mod r = 0) then 0 else 1).
Proof.
  intros Hr. pose proof (Z.mod_pos_bound a r Hr). pose proof (Z.div_mod a r ltac:(lia)) as E.
  case_decide as Hm.
  - replace (k * r - a) with ((k - a / r) * r) by lia. rewrite Z.div_mul by lia. lia.
  - assert ((k * r - a) / r = k - a / r - 1) as ->; [|lia].
    symmetry. apply (Zdiv_unique _ _ _ (r - a mod r)); lia.
Qed.

(** ** Lists *)

Lemma concat_bind {X Y} (f : X -> list Y) l : concat (f <$> l) = l ≫= f.
Proof. induction l as [|x l IH]; [done|]. cbn. by f_equal. Qed.

Lemma list_filter_strong {X} (P Q : X -> Prop) `{forall x, Decision (P x), forall x, Decision (Q x)} (l : list X) :
  (forall x, x ∈ l -> P x <-> Q x) -> filter P l = filter Q l.
Proof.
  induction l as [|x l IH]; intros He; [done|]. rewrite !filter_cons, IH by set_solver.
  pose proof (He x ltac:(left)). repeat case_decide; tauto || done.
Qed.
Lemma list_filter_fmap {X Y} (f : X -> Y) (P : Y -> Prop) `{forall y, Decision (P y)} (l : list X) :
  filter P (f <$> l) = f <$> filter (fun x => P (f x)) l.
Proof.
  induction l as [|x l IH]; [done|]. rewrite fmap_cons, !filter_cons, IH. by case_decide.
Qed.

(** A property of all numbers below [n], by computation. *)
Lemma forallb_below n (P : Z -> bool) x :
  forallb P (seqZ 0 n) = true -> 0 <= x < n -> P x = true.
Proof.
  intros Hf Hx. rewrite forallb_forall in Hf. apply Hf. apply list_elem_of_In, elem_of_seqZ. lia.
Qed.

Lemma bool_decide_eq_iff P Q `{Decision P, Decision Q} : bool_decide P = bool_decide Q -> P <-> Q.
Proof. repeat case_bool_decide; done. Qed.
