(* ===== verification/Ioctl.v ===== *)
(** * Command words and user-pointer checks

    The [_IOC] encoding of include/uapi/asm-generic/ioctl.h, the error numbers
    the drivers return, the [ERR_PTR] convention of include/linux/err.h and
    [access_ok] of arch/arm/include/asm/uaccess.h. *)

From S2P Require Import Prelude.
Open Scope Z_scope.

(** ** ioctl.h *)

Definition _IOC_NRBITS : Z := 8.
Definition _IOC_TYPEBITS : Z := 8.
Definition _IOC_SIZEBITS : Z := 14.
Definition _IOC_DIRBITS : Z := 2.

Definition _IOC_NRMASK : Z := Z.shiftl 1 _IOC_NRBITS - 1.
Definition _IOC_TYPEMASK : Z := Z.shiftl 1 _IOC_TYPEBITS - 1.
Definition _IOC_SIZEMASK : Z := Z.shiftl 1 _IOC_SIZEBITS - 1.
Definition _IOC_DIRMASK : Z := Z.shiftl 1 _IOC_DIRBITS - 1.

Definition _IOC_NRSHIFT : Z := 0.
Definition _IOC_TYPESHIFT : Z := _IOC_NRSHIFT + _IOC_NRBITS.
Definition _IOC_SIZESHIFT : Z := _IOC_TYPESHIFT + _IOC_TYPEBITS.
Definition _IOC_DIRSHIFT : Z := _IOC_SIZESHIFT + _IOC_SIZEBITS.

Definition _IOC_NONE : Z := 0.
Definition _IOC_WRITE : Z := 1.
Definition _IOC_READ : Z := 2.

(** The direction constants are [unsigned], so the word is computed at 32 bits. *)
Definition _IOC (dir type nr size : Z) : Z :=
  u32 (Z.lor (Z.lor (Z.lor (Z.shiftl dir _IOC_DIRSHIFT) (Z.shiftl type _IOC_TYPESHIFT))
                    (Z.shiftl nr _IOC_NRSHIFT))
             (Z.shiftl size _IOC_SIZESHIFT)).
Definition _IOW (type nr size : Z) : Z := _IOC _IOC_WRITE type nr size.

Definition _IOC_DIR (nr : Z) : Z := Z.land (Z.shiftr nr _IOC_DIRSHIFT) _IOC_DIRMASK.
Definition _IOC_TYPE (nr : Z) : Z := Z.land (Z.shiftr nr _IOC_TYPESHIFT) _IOC_TYPEMASK.
Definition _IOC_NR (nr : Z) : Z := Z.land (Z.shiftr nr _IOC_NRSHIFT) _IOC_NRMASK.
Definition _IOC_SIZE (nr : Z) : Z := Z.land (Z.shiftr nr _IOC_SIZESHIFT) _IOC_SIZEMASK.

(** ** Errors *)

Definition EINVAL : Z := 22.
Definition ENOMEM : Z := 12.
Definition EFAULT : Z := 14.
Definition ENOTTY : Z := 25.
Definition ENXIO : Z := 6.

Definition MAX_ERRNO : Z := 4095.
(** [ptr >= (unsigned long)-MAX_ERRNO] *)
Definition IS_ERR (ptr : Z) : bool := u32 (- MAX_ERRNO) <=? u32 ptr.
Definition PTR_ERR (ptr : Z) : Z := i32 ptr.
Definition ERR_PTR (err : Z) : Z := u32 err.

(** ** access_ok

    [adds; sbcccs; movcc flag, #0]: zero (allowed) when [addr + size] does not
    carry out of 32 bits and does not exceed the limit. *)
Definition __range_ok (addr_limit addr size : Z) : Z :=
  let roksum := addr + size in
  if bool_decide (roksum < 2 ^ 32) && bool_decide (u32 roksum <= addr_limit)
  then 0 else addr_limit.
Definition access_ok (addr_limit addr size : Z) : bool :=
  bool_decide (__range_ok addr_limit addr size = 0).

(** ** Lemmas *)

Section ioc_fields.
Variables dir type nr size : Z.
Hypothesis Hdir : is_u 2 dir.
Hypothesis Htype : is_u 8 type.
Hypothesis Hnr : is_u 8 nr.
Hypothesis Hsize : is_u 14 size.

(** Bit [i] of the command word. *)
Lemma _IOC_testbit i :
  0 <= i -> Z.testbit (_IOC dir type nr size) i =
    (bool_decide (i < 32) &&
     (Z.testbit dir (i - 30) || Z.testbit type (i - 8) || Z.testbit nr i
      || Z.testbit size (i - 16))).
Proof.
  intros Hi. unfold _IOC. rewrite wrapu_testbit by lia.
  rewrite !Z.lor_spec, !Z.shiftl_spec by lia.
  replace (i - _IOC_NRSHIFT) with i by (unfold _IOC_NRSHIFT; lia). done.
Qed.

(** A field of the command word, given by the bits of its position. *)
Lemma _IOC_field sh w v :
  0 <= sh -> 0 <= w -> sh + w <= 32 -> is_u w v ->
  (forall i, 0 <= i < w -> Z.testbit (_IOC dir type nr size) (i + sh) = Z.testbit v i) ->
  Z.land (Z.shiftr (_IOC dir type nr size) sh) (Z.ones w) = v.
Proof.
  intros Hsh Hw Hle Hv Hbits. apply Z.bits_inj'. intros i Hi.
  rewrite Z.land_spec, Z.shiftr_spec by lia.
  destruct (decide (i < w)).
  - rewrite Z.ones_spec_low, andb_true_r by lia. apply Hbits. lia.
  - rewrite Z.ones_spec_high, andb_false_r by lia. symmetry. apply (testbit_high w); done || lia.
Qed.

Ltac ioc_bits :=
  intros i Hi; rewrite _IOC_testbit by lia; rewrite bool_decide_eq_true_2 by lia; cbn [andb];
  repeat match goal with
    | |- context [Z.testbit ?v ?j] =>
        first [ rewrite (Z.testbit_neg_r v j) by lia
              | rewrite (testbit_high 2 v j) by (done || lia)
              | rewrite (testbit_high 8 v j) by (done || lia)
              | rewrite (testbit_high 14 v j) by (done || lia) ]
    end;
  rewrite ?orb_false_r; cbn [orb]; f_equal; lia.

Lemma _IOC_TYPE_IOC : _IOC_TYPE (_IOC dir type nr size) = type.
Proof. apply (_IOC_field 8 8); try done. ioc_bits. Qed.
Lemma _IOC_NR_IOC : _IOC_NR (_IOC dir type nr size) = nr.
Proof. apply (_IOC_field 0 8); try done. ioc_bits. Qed.
Lemma _IOC_DIR_IOC : _IOC_DIR (_IOC dir type nr size) = dir.
Proof. apply (_IOC_field 30 2); try done. ioc_bits. Qed.
Lemma _IOC_SIZE_IOC : _IOC_SIZE (_IOC dir type nr size) = size.
Proof. apply (_IOC_field 16 14); try done. ioc_bits. Qed.
End ioc_fields.

Lemma access_ok_iff lim addr size :
  0 < lim < 2 ^ 32 -> 0 <= addr -> 0 <= size ->
  access_ok lim addr size = true <-> addr + size <= lim.
Proof.
  intros Hl Ha Hs. unfold access_ok, __range_ok. rewrite bool_decide_eq_true.
  destruct (decide (addr + size < 2 ^ 32)).
  - rewrite bool_decide_eq_true_2 by done. rewrite u32_small by lia. cbn [andb].
    case_bool_decide; lia.
  - rewrite bool_decide_eq_false_2 by done. cbn [andb]. lia.
Qed.

Lemma IS_ERR_ERR_PTR e : - MAX_ERRNO <= e < 0 -> IS_ERR (ERR_PTR e) = true.
Proof.
  unfold IS_ERR, ERR_PTR, MAX_ERRNO. intros. rewrite wrapu_idemp, !u32_neg by lia.
  apply Z.leb_le. lia.
Qed.

Lemma PTR_ERR_ERR_PTR e : is_s 32 e -> PTR_ERR (ERR_PTR e) = e.
Proof. intros. unfold PTR_ERR, ERR_PTR. rewrite wraps_wrapu by lia. apply (wraps_small 32); done. Qed.

(** * Properties *)

(** The command word is a faithful encoding: every field of a direction (2
    bits), type (8), number (8) and argument size (14) is read back by its decoder,
    so two commands are equal only when their four fields are, and the word is a
    32-bit value. *)
Theorem ioctl_codec dir type nr size :
  is_u 2 dir -> is_u 8 type -> is_u 8 nr -> is_u 14 size ->
  _IOC_DIR (_IOC dir type nr size) = dir /\ _IOC_TYPE (_IOC dir type nr size) = type /\
  _IOC_NR (_IOC dir type nr size) = nr /\ _IOC_SIZE (_IOC dir type nr size) = size /\
  is_u 32 (_IOC dir type nr size).
Proof.
  intros. rewrite _IOC_DIR_IOC, _IOC_TYPE_IOC, _IOC_NR_IOC, _IOC_SIZE_IOC by done.
  split_and!; try done; apply (wrapu_range 32); lia.
Qed.

Lemma ioctl_codec_witness :
  _IOC_DIR (_IOC 1 0xF1 3 4) = 1 /\ _IOC_TYPE (_IOC 1 0xF1 3 4) = 0xF1 /\
  _IOC_NR (_IOC 1 0xF1 3 4) = 3 /\ _IOC_SIZE (_IOC 1 0xF1 3 4) = 4 /\ is_u 32 (_IOC 1 0xF1 3 4).
Proof. apply (ioctl_codec 1 0xF1 3 4); unfold is_u; lia. Defined.
