(* ===== verification/Mmio.v ===== *)
(** * Memory-mapped registers

    The hardware behind [readl], [writel] and the drivers' [volatile]
    accesses is not part of the repository.  It is an interface here: a bus
    state with a read that may change it and a write.  What the code relies on
    is the class [PlainRegs]: the registers it reads back (the function-select
    and enable registers) return what was last written to them and are changed
    by no other access, as the BCM2835 peripherals manual documents.  [LogBus]
    is a bus that stores every register and records every write; it discharges
    the class and gives the witnesses a concrete bus to run on. *)

From S2P Require Import Prelude.
Open Scope Z_scope.

(** [bus_read a b] is the value read at address [a] and the bus afterwards. *)
Class RegBus (B : Type) := {
  bus_read : Z -> B -> Z * B;
  bus_write : Z -> Z -> B -> B;
}.

Section bus.
Context {B : Type} `{RegBus B}.

Definition readl (a : Z) : M B Z := fun b => Ok (bus_read a b).
(** [writel(v, a)]: the operand is converted to 32 bits. *)
Definition writel (v a : Z) : M B unit := fun b => Ok (tt, bus_write a (u32 v) b).

(** The value a read at [a] would return. *)
Definition peek (a : Z) (b : B) : Z := fst (bus_read a b).

(** A sequence of writes, in order. *)
Definition writes (l : list (Z * Z)) (b : B) : B :=
  foldl (fun b '(a, v) => bus_write a v b) b l.

Lemma writes_app l1 l2 (b : B) : writes (l1 ++ l2) b = writes l2 (writes l1 b).
Proof. unfold writes. by rewrite foldl_app. Qed.

(** A read followed by a write of the same register. *)
Definition update (a : Z) (f : Z -> Z) : M B unit :=
  v ← readl a; writel (f v) a.
End bus.

Class PlainRegs (B : Type) `{RegBus B} (plain : Z -> Prop) : Prop := {
  peek_write_same a v b : plain a -> is_u 32 v -> peek a (bus_write a v b) = v;
  peek_write_other a a' v b : plain a -> a <> a' -> peek a (bus_write a' v b) = peek a b;
  peek_read a a' b : plain a -> peek a (snd (bus_read a' b)) = peek a b;
  peek_u32 a b : plain a -> is_u 32 (peek a b);
}.

Section plain.
Context {B : Type} `{PlainRegs B plain}.

Lemma readl_peek a b : readl a b = Ok (peek a b, snd (bus_read a b)).
Proof. unfold readl, peek. by destruct (bus_read a b). Qed.

(** A read-modify-write of a plain register puts [f] of its value there. *)
Lemma update_peek a f b b' :
  plain a -> update a f b = Ok (tt, b') -> peek a b' = u32 (f (peek a b)).
Proof.
  intros Ha Hu. unfold update in Hu. rewrite Mbind_unfold, readl_peek in Hu.
  injection Hu as <-. rewrite peek_write_same; [done|done|].
  apply (wrapu_range 32). lia.
Qed.

Lemma update_peek_other a a' f b b' :
  plain a' -> a' <> a -> update a f b = Ok (tt, b') -> peek a' b' = peek a' b.
Proof.
  intros Ha Hne Hu. unfold update in Hu. rewrite Mbind_unfold, readl_peek in Hu.
  injection Hu as <-. by rewrite peek_write_other, peek_read.
Qed.

Lemma peek_writes_out a l b :
  plain a -> a ∉ l.*1 -> peek a (writes l b) = peek a b.
Proof.
  intros Ha. revert b. induction l as [|[a' v] l IH]; intros b Hn; [done|].
  cbn in Hn. apply not_elem_of_cons in Hn as [Hne Hn].
  change (writes ((a', v) :: l) b) with (writes l (bus_write a' v b)).
  rewrite IH by done. by apply peek_write_other.
Qed.

Lemma peek_writes_in a v l b :
  plain a -> is_u 32 v -> NoDup l.*1 -> (a, v) ∈ l -> peek a (writes l b) = v.
Proof.
  intros Ha Hv. revert b. induction l as [|[a' w] l IH]; intros b Hnd Hin; [set_solver|].
  cbn in Hnd. apply NoDup_cons in Hnd as [Hnin Hnd].
  change (writes ((a', w) :: l) b) with (writes l (bus_write a' w b)).
  apply elem_of_cons in Hin as [[= <- <-]|Hin]; [|by apply IH].
  rewrite peek_writes_out by done. by apply peek_write_same.
Qed.

Lemma update_total a f b : exists b', update a f b = Ok (tt, b').
Proof. unfold update. rewrite Mbind_unfold, readl_peek. by eexists. Qed.
End plain.

(** ** A bus that stores and records *)

Record LogBus := mkLogBus {
  regs : gmap Z Z;
  wlog : list (Z * Z);   (* the writes so far, oldest first *)
}.

#[global] Instance LogBus_bus : RegBus LogBus := {
  bus_read a b := (u32 (default 0 (regs b !! a)), b);
  bus_write a v b := mkLogBus (<[a := v]> (regs b)) (wlog b ++ [(a, v)]);
}.

Definition LogBus0 : LogBus := mkLogBus ∅ [].

#[global] Instance LogBus_plain plain : PlainRegs LogBus plain.
Proof.
  split; unfold peek; cbn.
  - intros a v b _ Hv. rewrite lookup_insert_eq. cbn. by apply (wrapu_small 32).
  - intros a a' v b _ Hne. by rewrite lookup_insert_ne.
  - done.
  - intros a b _. apply (wrapu_range 32). lia.
Qed.

Lemma wlog_writes l (b : LogBus) : wlog (writes l b) = wlog b ++ l.
Proof.
  revert b. induction l as [|[a v] l IH]; intros b; unfold writes in *; cbn.
  - by rewrite app_nil_r.
  - rewrite IH. cbn. by rewrite <- app_assoc.
Qed.
