(* ===== verification/PwmGpio.v ===== *)
(** * softPWM/gpio.c and xenoPWM/gpio.c

    The two files are the same four functions on the [volatile unsigned *gpio]
    the drivers map at [GP_BASE].  The pointer is a parameter (NULL when
    [ioremap] failed); an access outside the mapped page faults, as does a shift
    by a count outside 0..31. *)

From S2P Require Import Prelude Mmio.
Open Scope Z_scope.

Definition BCM2837_PERI_BASE : Z := 0x3F000000.
Definition GP_BASE : Z := BCM2837_PERI_BASE + 0x200000.
Definition MAP_SIZE : Z := 4 * 1024.

Section gpio.
Context {B : Type} `{RegBus B}.
(** [extern volatile unsigned *gpio] *)
Variable gpio : option Z.

(** The address of [*(gpio + k)]. *)
Definition gpio_word (k : Z) : res Z :=
  p ← need gpio NullDeref;
  require ((0 <=? 4 * k) && (4 * k + 4 <=? MAP_SIZE)) OutOfBounds;;
  mret (p + 4 * k).

(** [*(gpio + (pin / 10)) &= ~(7 << ((pin % 10) * 3))] *)
Definition gpio_input (pin : Z) : M B unit :=
  m ← lift (shl32 7 (Z.rem pin 10 * 3));
  a ← lift (gpio_word (Z.quot pin 10));
  v ← readl a;
  writel (Z.land v (u32 (Z.lnot m))) a.

(** [*(gpio + (pin / 10)) |= (1 << ((pin % 10) * 3))] *)
Definition gpio_output (pin : Z) : M B unit :=
  m ← lift (shl32 1 (Z.rem pin 10 * 3));
  a ← lift (gpio_word (Z.quot pin 10));
  v ← readl a;
  writel (Z.lor v (u32 m)) a.

(** [*(gpio + 7) = 1 << pin] *)
Definition gpio_set (pin : Z) : M B unit :=
  m ← lift (shl32 1 pin);
  a ← lift (gpio_word 7);
  writel m a.

(** [*(gpio + 10) = 1 << pin] *)
Definition gpio_clr (pin : Z) : M B unit :=
  m ← lift (shl32 1 pin);
  a ← lift (gpio_word 10);
  writel m a.
End gpio.

(** The three-bit function code of [pin] in the function-select registers. *)
Definition fsel_addr (p pin : Z) : Z := p + 4 * (pin / 10).
Definition fsel_of (v pin : Z) : Z := Z.land (Z.shiftr v (pin mod 10 * 3)) 7.

(** ** Lemmas *)

Lemma gpio_word_ok p k : 0 <= k < 1024 -> gpio_word (Some p) k = Ok (p + 4 * k).
Proof.
  intros Hk. unfold gpio_word, MAP_SIZE. cbn [need mbind res_bind].
  rewrite (proj2 (Z.leb_le 0 _)), (proj2 (Z.leb_le _ (4 * 1024))) by lia. done.
Qed.

Lemma gpio_word_oob p k : ~ 0 <= k < 1024 -> gpio_word (Some p) k = Fault OutOfBounds.
Proof.
  intros Hk. unfold gpio_word, MAP_SIZE. cbn [need mbind res_bind].
  destruct (0 <=? 4 * k) eqn:E1, (4 * k + 4 <=? 4 * 1024) eqn:E2; cbn; try done.
  apply Z.leb_le in E1, E2. lia.
Qed.

Lemma pin_split pin : 0 <= pin -> Z.quot pin 10 = pin / 10 /\ Z.rem pin 10 = pin mod 10 /\
  0 <= pin mod 10 <= 9.
Proof.
  intros. rewrite Z.quot_div_nonneg, Z.rem_mod_nonneg by lia.
  pose proof (Z.mod_pos_bound pin 10 ltac:(lia)). lia.
Qed.

(** [1 << n] stored to a register is the single bit [n], also at [n = 31]. *)
Lemma shl1_u32 n : 0 <= n < 32 -> exists m, shl32 1 n = Ok m /\ u32 m = 2 ^ n.
Proof.
  intros Hn. rewrite shl32_ok by done. eexists. split; [done|].
  rewrite wrapu_wraps, Z.shiftl_1_l by lia. apply (wrapu_small 32).
  split; [apply Z.lt_le_incl, pow2_pos; lia | apply Z.pow_lt_mono_r; lia].
Qed.

Section regs.
Context {B : Type} `{PlainRegs B plain}.
Variable p : Z.

(** [gpio_input] and [gpio_output] as read-modify-writes of the pin's register. *)
Lemma gpio_input_update pin b :
  0 <= pin < 10240 ->
  gpio_input (Some p) pin b =
    update (fsel_addr p pin) (fun v => Z.land v (u32 (Z.lnot (Z.shiftl 7 (pin mod 10 * 3))))) b.
Proof.
  intros Hp. destruct (pin_split pin) as (Eq & Er & Hr); [lia|].
  assert (0 <= pin / 10 < 1024) by (split; [apply Z.div_pos; lia | apply Z.div_lt_upper_bound; lia]).
  unfold gpio_input, update. rewrite Eq, Er, shl32_ok, gpio_word_ok by lia.
  unfold fsel_addr. rewrite !Mbind_unfold. cbn [lift]. rewrite Mbind_unfold. cbn [lift].
  assert (i32 (Z.shiftl 7 (pin mod 10 * 3)) = Z.shiftl 7 (pin mod 10 * 3)) as ->; [|done].
  apply i32_small. rewrite Z.shiftl_mul_pow2 by lia.
  pose proof (Z.pow_le_mono_r 2 (pin mod 10 * 3) 27 ltac:(lia) ltac:(lia)).
  pose proof (pow2_pos (pin mod 10 * 3) ltac:(lia)). lia.
Qed.

Lemma gpio_output_update pin b :
  0 <= pin < 10240 ->
  gpio_output (Some p) pin b =
    update (fsel_addr p pin) (fun v => Z.lor v (Z.shiftl 1 (pin mod 10 * 3))) b.
Proof.
  intros Hp. destruct (pin_split pin) as (Eq & Er & Hr); [lia|].
  assert (0 <= pin / 10 < 1024) by (split; [apply Z.div_pos; lia | apply Z.div_lt_upper_bound; lia]).
  unfold gpio_output, update. rewrite Eq, Er, gpio_word_ok by lia.
  destruct (shl1_u32 (pin mod 10 * 3) ltac:(lia)) as (m & -> & Hm).
  unfold fsel_addr. rewrite !Mbind_unfold. cbn [lift]. rewrite Mbind_unfold. cbn [lift].
  rewrite Hm, Z.shiftl_1_l by lia. done.
Qed.

Lemma gpio_set_run pin b :
  0 <= pin < 32 -> gpio_set (Some p) pin b = Ok (tt, bus_write (p + 28) (2 ^ pin) b).
Proof.
  intros Hp. unfold gpio_set. destruct (shl1_u32 pin Hp) as (m & -> & Hm).
  rewrite gpio_word_ok by lia. rewrite Mbind_unfold. cbn [lift]. rewrite Mbind_unfold. cbn [lift].
  unfold writel. by rewrite Hm.
Qed.

Lemma gpio_clr_run pin b :
  0 <= pin < 32 -> gpio_clr (Some p) pin b = Ok (tt, bus_write (p + 40) (2 ^ pin) b).
Proof.
  intros Hp. unfold gpio_clr. destruct (shl1_u32 pin Hp) as (m & -> & Hm).
  rewrite gpio_word_ok by lia. rewrite Mbind_unfold. cbn [lift]. rewrite Mbind_unfold. cbn [lift].
  unfold writel. by rewrite Hm.
Qed.

Lemma gpio_set_fault pin b : ~ 0 <= pin < 32 -> gpio_set (Some p) pin b = Fault ShiftRange.
Proof. intros. unfold gpio_set. by rewrite shl32_bad. Qed.

Lemma gpio_clr_fault pin b : ~ 0 <= pin < 32 -> gpio_clr (Some p) pin b = Fault ShiftRange.
Proof. intros. unfold gpio_clr. by rewrite shl32_bad. Qed.
End regs.

(** ** Function-select codes *)

Lemma fsel_testbit v pin i :
  0 <= i -> Z.testbit (fsel_of v pin) i =
    (bool_decide (i < 3) && Z.testbit v (i + pin mod 10 * 3)).
Proof.
  intros Hi. unfold fsel_of. change 7 with (Z.ones 3).
  rewrite Z.land_spec, Z.shiftr_spec by lia. case_bool_decide.
  - by rewrite Z.ones_spec_low, andb_true_r by lia.
  - by rewrite Z.ones_spec_high, andb_false_r by lia.
Qed.

Lemma fsel_range v pin : 0 <= fsel_of v pin < 8.
Proof.
  unfold fsel_of. change 7 with (Z.ones 3). rewrite Z.land_ones by lia.
  apply Z.mod_pos_bound. lia.
Qed.

Lemma seven_testbit i : 0 <= i -> Z.testbit 7 i = bool_decide (i < 3).
Proof.
  intros. change 7 with (Z.ones 3). case_bool_decide.
  - apply Z.ones_spec_low. lia.
  - apply Z.ones_spec_high. lia.
Qed.

(** Clearing the field of [pin] zeroes its code and no other pin's. *)
Lemma fsel_clear v pin q :
  fsel_of (u32 (Z.land v (u32 (Z.lnot (Z.shiftl 7 (pin mod 10 * 3)))))) q =
    if decide (q mod 10 = pin mod 10) then 0 else fsel_of v q.
Proof.
  pose proof (Z.mod_pos_bound pin 10 ltac:(lia)). pose proof (Z.mod_pos_bound q 10 ltac:(lia)).
  apply Z.bits_inj'. intros i Hi.
  assert (Z.testbit (if decide (q mod 10 = pin mod 10) then 0 else fsel_of v q) i =
    if decide (q mod 10 = pin mod 10) then false else Z.testbit (fsel_of v q) i) as ->
    by (case_decide; [apply Z.testbit_0_l | done]).
  rewrite !fsel_testbit by lia. case_bool_decide; cbn [andb]; [|by case_decide].
  rewrite !wrapu_testbit, Z.land_spec, wrapu_testbit, Z.lnot_spec, Z.shiftl_spec by lia.
  rewrite bool_decide_eq_true_2 by lia. cbn [andb]. case_decide as Hq.
  - rewrite Hq, seven_testbit by lia. rewrite bool_decide_eq_true_2 by lia.
    by rewrite andb_false_r.
  - destruct (decide (0 <= i + q mod 10 * 3 - pin mod 10 * 3)).
    + rewrite seven_testbit by lia. rewrite bool_decide_eq_false_2 by lia. by rewrite andb_true_r.
    + rewrite (Z.testbit_neg_r 7) by lia. by rewrite andb_true_r.
Qed.

(** Setting the low bit of the field of [pin] ors 1 into its code only. *)
Lemma fsel_or1 v pin q :
  fsel_of (u32 (Z.lor v (Z.shiftl 1 (pin mod 10 * 3)))) q =
    if decide (q mod 10 = pin mod 10) then Z.lor (fsel_of v q) 1 else fsel_of v q.
Proof.
  pose proof (Z.mod_pos_bound pin 10 ltac:(lia)). pose proof (Z.mod_pos_bound q 10 ltac:(lia)).
  apply Z.bits_inj'. intros i Hi.
  assert (Z.testbit (if decide (q mod 10 = pin mod 10) then Z.lor (fsel_of v q) 1 else fsel_of v q) i =
    (Z.testbit (fsel_of v q) i || bool_decide (q mod 10 = pin mod 10 /\ i = 0))) as ->.
  { case_decide as Hq.
    - rewrite Z.lor_spec. f_equal. change 1 with (2 ^ 0).
      rewrite testbit_pow2 by lia. apply bool_decide_ext. lia.
    - rewrite bool_decide_eq_false_2 by tauto. by rewrite orb_false_r. }
  rewrite !fsel_testbit by lia. case_bool_decide as Hi3; cbn [andb].
  - rewrite wrapu_testbit, Z.lor_spec, Z.shiftl_1_l, testbit_pow2 by lia.
    rewrite bool_decide_eq_true_2 by lia. cbn [andb]. f_equal. apply bool_decide_ext. lia.
  - rewrite bool_decide_eq_false_2 by lia. done.
Qed.

Section direction.
Context {B : Type} `{PlainRegs B plain}.
Variable p : Z.
Hypothesis Hplain : forall k, 0 <= k < 6 -> plain (p + 4 * k).

(** The function code of pin [q]: 0 is input, 1 is output, 2..7 are the
    alternate functions. *)
Definition pin_fsel (b : B) (q : Z) : Z := fsel_of (peek (fsel_addr p q) b) q.

Lemma fsel_addr_plain q : 0 <= q < 60 -> plain (fsel_addr p q).
Proof.
  intros. apply Hplain. split; [apply Z.div_pos; lia | apply Z.div_lt_upper_bound; lia].
Qed.

(** A read-modify-write of the register of [pin] seen at every pin. *)
Lemma pin_fsel_update pin f b b' q :
  0 <= pin < 60 -> 0 <= q < 60 -> update (fsel_addr p pin) f b = Ok (tt, b') ->
  pin_fsel b' q = if decide (q / 10 = pin / 10)
                  then fsel_of (u32 (f (peek (fsel_addr p q) b))) q else pin_fsel b q.
Proof.
  intros Hp Hq Hu. unfold pin_fsel. case_decide as E.
  - replace (fsel_addr p q) with (fsel_addr p pin) by (unfold fsel_addr; lia).
    by rewrite (update_peek _ _ _ _ (fsel_addr_plain pin Hp) Hu).
  - assert (fsel_addr p q <> fsel_addr p pin) as Hne by (unfold fsel_addr; lia).
    by rewrite (update_peek_other _ _ _ _ _ (fsel_addr_plain q Hq) Hne Hu).
Qed.

Lemma same_pin pin q : q / 10 = pin / 10 /\ q mod 10 = pin mod 10 <-> q = pin.
Proof. split; [intros [E1 E2] | intros ->; done].
  rewrite (Z.div_mod q 10), (Z.div_mod pin 10) by lia. lia.
Qed.

Lemma gpio_input_total pin b :
  0 <= pin < 10240 -> exists b', gpio_input (Some p) pin b = Ok (tt, b').
Proof. intros. rewrite gpio_input_update by done. apply update_total. Qed.

Lemma gpio_output_total pin b :
  0 <= pin < 10240 -> exists b', gpio_output (Some p) pin b = Ok (tt, b').
Proof. intros. rewrite gpio_output_update by done. apply update_total. Qed.

Lemma gpio_input_fsel pin b b' q :
  0 <= pin < 60 -> 0 <= q < 60 -> gpio_input (Some p) pin b = Ok (tt, b') ->
  pin_fsel b' q = if decide (q = pin) then 0 else pin_fsel b q.
Proof.
  intros Hp Hq Hr. rewrite gpio_input_update in Hr by lia.
  rewrite (pin_fsel_update _ _ _ _ q Hp Hq Hr). pose proof (same_pin pin q).
  destruct (decide (q / 10 = pin / 10)); [rewrite fsel_clear|]; repeat case_decide; tauto || done.
Qed.

Lemma gpio_output_fsel pin b b' q :
  0 <= pin < 60 -> 0 <= q < 60 -> gpio_output (Some p) pin b = Ok (tt, b') ->
  pin_fsel b' q = if decide (q = pin) then Z.lor (pin_fsel b q) 1 else pin_fsel b q.
Proof.
  intros Hp Hq Hr. rewrite gpio_output_update in Hr by lia.
  rewrite (pin_fsel_update _ _ _ _ q Hp Hq Hr). pose proof (same_pin pin q).
  destruct (decide (q / 10 = pin / 10)); [rewrite fsel_or1|]; repeat case_decide; tauto || done.
Qed.
End direction.
