(* ===== verification/PwmCommon.v ===== *)
(** * What the two PWM drivers share

    The [Dutycycle] table entry, the kernel threads the tasks run in and the
    kernel log. *)

From S2P Require Import Prelude Mmio PwmGpio.
Open Scope Z_scope.

(** [typedef struct duty_cycle { int pin; int duty_cycle; int min; int max; }] *)
Record Dutycycle := mkDutycycle {
  pin : Z;
  duty_cycle : Z;
  dmin : Z;
  dmax : Z;
}.

#[global] Instance Dutycycle_eq_dec : EqDecision Dutycycle.
Proof. solve_decision. Defined.

Definition set_pin v (d : Dutycycle) := mkDutycycle v (duty_cycle d) (dmin d) (dmax d).
Definition set_duty_cycle v (d : Dutycycle) := mkDutycycle (pin d) v (dmin d) (dmax d).
Definition set_dmin v (d : Dutycycle) := mkDutycycle (pin d) (duty_cycle d) v (dmax d).
Definition set_dmax v (d : Dutycycle) := mkDutycycle (pin d) (duty_cycle d) (dmin d) v.

(** What [kzalloc] leaves in an entry. *)
Definition Dutycycle0 : Dutycycle := mkDutycycle 0 0 0 0.

Definition MAX_PWM_NUM : Z := 5.
Definition PWM_FREQ : Z := 100.

(** [char *name[5]] (softPWM) and [char *task_name[5]] (xenoPWM) *)
Definition name : list string :=
  ["pwmtask_1"; "pwmtask_2"; "pwmtask_3"; "pwmtask_4"; "pwmtask_5"]%string.

(** A message handed to [printk]: its format, its integer arguments and, for the
    one message that has it, a string argument. *)
Inductive msg :=
  | Printk (fmt : string) (args : list Z)
  | PrintkS (fmt : string) (args : list Z) (str : string).

(** ** Periods

    [PWM_RANGE] is [duty_array[pos].max - duty_array[pos].min]; the sleep times
    are computed from the entry with [int] arithmetic. *)
Definition PWM_RANGE (d : Dutycycle) : Z := (dmax d -i dmin d)%cint.

Lemma PWM_RANGE_small d :
  is_s 32 (dmax d - dmin d) -> PWM_RANGE d = dmax d - dmin d.
Proof. intros. apply (wraps_small 32); [lia|done]. Qed.

(** ** Programs of the tasks *)

(** Where a task stands in its loop.  The two evaluations of a sleep time that
    the argument list of [usleep_range] makes are separate steps, and carry the
    first value. *)
Inductive task_pc :=
  | AtTest                  (* while (!should_stop) *)
  | AtSet                   (* gpio_set(duty_array[pos].pin) *)
  | AtHigh                  (* first HIGH_TIME *)
  | AtHigh2 (lo : Z)        (* second HIGH_TIME, then sleep *)
  | AtClr                   (* gpio_clr(duty_array[pos].pin) *)
  | AtLow                   (* first LOW_TIME *)
  | AtLow2 (lo : Z)         (* second LOW_TIME, then sleep *)
  | Exited.

Record kthread := mkKthread {
  th_pos : Z;               (* the [void *] argument: the table index *)
  th_name : string;
  th_woken : bool;
  th_stop : bool;           (* kthread_should_stop() *)
  th_pc : task_pc;
}.

Definition set_pc pc (t : kthread) :=
  mkKthread (th_pos t) (th_name t) (th_woken t) (th_stop t) pc.
Definition set_woken (t : kthread) :=
  mkKthread (th_pos t) (th_name t) true (th_stop t) (th_pc t).
Definition set_stop (t : kthread) :=
  mkKthread (th_pos t) (th_name t) (th_woken t) true (th_pc t).

(** The register writes of one period: the pin's bit to the set register, then to
    the clear register. *)
Definition cycle_writes (g q : Z) : list (Z * Z) := [(g + 28, 2 ^ q); (g + 40, 2 ^ q)].

(** ** The user's argument array *)

(** [tmp[i]], a direct access to the user's array; [um] gives the [int] at a user
    address. *)
Definition tmp {S} (um : Z -> option Z) (arg i : Z) : M S Z :=
  lift (need (um (u32 (arg + 4 * i))) BadUser).

(** The user array at [arg] holds [l]. *)
Definition user_args (um : Z -> option Z) (arg : Z) (l : list Z) : Prop :=
  forall i v, l !! i = Some v -> um (u32 (arg + 4 * Z.of_nat i)) = Some v.

Section tmp.
Context {S : Type} (um : Z -> option Z) (arg : Z).
Implicit Type s : S.

Lemma tmp_run s i v : um (u32 (arg + 4 * i)) = Some v -> tmp um arg i s = Ok (v, s).
Proof. intros E. unfold tmp, lift. by rewrite E. Qed.

Lemma tmp_fault s i : um (u32 (arg + 4 * i)) = None -> tmp um arg i s = Fault BadUser.
Proof. intros E. unfold tmp, lift. by rewrite E. Qed.

Lemma tmp_inv i s v s' :
  tmp um arg i s = Ok (v, s') -> um (u32 (arg + 4 * i)) = Some v /\ s' = s.
Proof. unfold tmp. intros Hr. by minv. Qed.

Lemma user_args_tmp l i v s :
  user_args um arg l -> l !! i = Some v -> tmp um arg (Z.of_nat i) s = Ok (v, s).
Proof. intros Hu Hl. by apply tmp_run, Hu. Qed.
End tmp.

(** ** A user array, for concrete runs *)

Definition array_at (base : Z) (l : list Z) (a : Z) : option Z :=
  if (base <=? a) && ((a - base) mod 4 =? 0) then l !! Z.to_nat ((a - base) / 4) else None.

Lemma array_at_args base l :
  0 <= base -> base + 4 * Z.of_nat (length l) <= 2 ^ 32 -> user_args (array_at base l) base l.
Proof.
  intros Hb Hl i v Hi. pose proof (lookup_lt_Some _ _ _ Hi). unfold array_at.
  rewrite u32_small by lia.
  replace (base + 4 * Z.of_nat i - base) with (Z.of_nat i * 4) by lia.
  rewrite Z.mod_mul, Z.div_mul, Nat2Z.id by lia.
  by rewrite (proj2 (Z.leb_le _ _)) by lia.
Qed.

Lemma array_at_ints base l a v : Forall (is_s 32) l -> array_at base l a = Some v -> is_s 32 v.
Proof.
  intros Hl. unfold array_at. destruct (_ && _); [|done].
  intros Hv. exact (Forall_lookup_1 _ _ _ _ Hl Hv).
Qed.

Ltac ex_ints := repeat (apply Forall_cons_2; [unfold is_s; lia|]); apply Forall_nil_2.
Ltac ex_eval := vm_compute; reflexivity.
Ltac ex_args := apply array_at_args; cbn; lia.
