(* ===== verification/PwmSpec.v ===== *)
(** * What a PWM driver promises

    An abstract controller, without registers, threads or tables: a list of
    channels, each in one of four phases, and the function code of every pin.
    It answers commands and its channels raise, wait and lower on their own.
    What it does is seen as a trace of actions.  The two drivers are shown to
    refine it in [PwmRefine]; here are the controller, what its traces look
    like, and the simulation argument in general. *)

From S2P Require Import Prelude Mmio PwmGpio PwmCommon.
Open Scope Z_scope.

(** ** Runs of a labelled transition system *)

Section runs.
Context {St E : Type}.
Variable step : St -> list E -> St -> Prop.

Inductive run : St -> list E -> St -> Prop :=
  | run_nil s : run s [] s
  | run_cons s tr s' tr' s'' : step s tr s' -> run s' tr' s'' -> run s (tr ++ tr') s''.

Lemma run_one s tr s' : step s tr s' -> run s tr s'.
Proof. intros Hs. rewrite <- (app_nil_r tr). eapply run_cons; [done|apply run_nil]. Qed.

Lemma run_app s tr s' tr' s'' : run s tr s' -> run s' tr' s'' -> run s (tr ++ tr') s''.
Proof.
  induction 1 as [s|s tr1 s1 tr2 s2 Hs _ IH]; [done|]. intros Hr.
  rewrite <- app_assoc. eapply run_cons; [done|by apply IH].
Qed.
End runs.

(** If every step of the detailed system is a run of the abstract one with the
    same actions, so is every run. *)
Section simulation.
Context {St Ab E : Type}.
Variables (step : St -> list E -> St -> Prop) (astep : Ab -> list E -> Ab -> Prop).
Variable R : Ab -> St -> Prop.
Hypothesis step_simulated : forall c s tr s',
  R c s -> step s tr s' -> exists c', run astep c tr c' /\ R c' s'.

Lemma run_simulated c s tr s' : R c s -> run step s tr s' -> exists c', run astep c tr c' /\ R c' s'.
Proof.
  intros HR Hr. revert c HR. induction Hr as [s|s tr1 s1 tr2 s2 Hs _ IH]; intros c HR.
  - exists c. split; [apply run_nil|done].
  - destruct (step_simulated c s tr1 s1 HR Hs) as (c1 & Hr1 & HR1).
    destruct (IH c1 HR1) as (c2 & Hr2 & HR2). exists c2. split; [by eapply run_app|done].
Qed.
End simulation.

(** ** The controller *)

(** A channel is low and about to be raised, has been raised, has waited its
    high time, or has been lowered and not yet waited its low time. *)
Inductive phase := Ready | High | HighDone | Low.
#[global] Instance phase_eq_dec : EqDecision phase.
Proof. solve_decision. Defined.

(** A channel: its pin, range and duty cycle, its phase, and the duty cycles it
    has been given since its level last changed, the present one first. *)
Record channel := mkChannel {
  ch_entry : Dutycycle;
  ch_phase : phase;
  ch_past : list Z;
}.

Record ctrl := mkCtrl {
  chans : list channel;
  funcs : Z -> Z;             (* the function code of each pin *)
}.

Inductive command :=
  | Open (q mn mx : Z)        (* a new channel *)
  | Duty (q v : Z)            (* a duty cycle *)
  | Direction (q : Z) (out : bool)
  | Put (q : Z) (up : bool).  (* a level, directly *)

(** What is seen of the system: what a client asked ([None] for a call that is
    no command), the reply, levels put on pins, and waits with the shortest and
    longest time they allow. *)
Inductive action :=
  | Ask (o : option command)
  | Reply (r : Z)
  | Level (q : Z) (up : bool)
  | Wait (lo hi : Z).
Inductive actor := Client | Task (i : nat).
#[global] Instance actor_eq_dec : EqDecision actor.
Proof. solve_decision. Defined.
Definition event : Type := actor * action.
Definition tag (a : actor) (l : list action) : list event := pair a <$> l.

(** What a driver chooses: the duty cycle of a new channel, and how long it
    waits for an entry while the pin is high or low. *)
Record pwm_params := mkParams {
  first_duty : Z;
  wait_time : bool -> Dutycycle -> res Z;
}.

Definition MAX_CHANNELS : nat := 5.

(** What the controller can be asked to do: pins the chip has, a positive range,
    and a channel only while there is room for one. *)
Definition in_range (o : command) : Prop :=
  match o with
  | Open q mn mx => 0 <= q < 32 /\ 0 < (mx -i mn)%cint
  | Duty q v => True
  | Direction q out => 0 <= q < 54
  | Put q up => 0 <= q < 32
  end.
Definition room (c : ctrl) (o : command) : Prop :=
  match o with Open _ _ _ => (length (chans c) < MAX_CHANNELS)%nat | _ => True end.
Definition allowed (c : ctrl) (o : command) : Prop := in_range o /\ room c o.

Definition set_func (q v : Z) (f : Z -> Z) : Z -> Z := fun x => if decide (x = q) then v else f x.

(** A new duty cycle, and a new phase. *)
Definition give_duty (v : Z) (ch : channel) : channel :=
  mkChannel (set_duty_cycle v (ch_entry ch)) (ch_phase ch) (v :: ch_past ch).
Definition move (ph : phase) (ch : channel) : channel :=
  mkChannel (ch_entry ch) ph [duty_cycle (ch_entry ch)].

Section controller.
Variable P : pwm_params.

Definition open_channel (q mn mx : Z) : channel :=
  mkChannel (mkDutycycle q (first_duty P) mn mx) Ready [first_duty P].

(** A command and the levels it puts. *)
Definition exec (o : command) (c : ctrl) : ctrl * list action :=
  match o with
  | Open q mn mx => (mkCtrl (chans c ++ [open_channel q mn mx]) (funcs c), [])
  | Duty q v =>
      (match list_find (fun ch => pin (ch_entry ch) = q) (chans c) with
       | Some (i, _) => mkCtrl (alter (give_duty v) i (chans c)) (funcs c)
       | None => c
       end, [])
  | Direction q out =>
      (mkCtrl (chans c) (set_func q (if out then Z.lor (funcs c q) 1 else 0) (funcs c)), [])
  | Put q up => (c, [Level q up])
  end.

(** One channel on its own. *)
Inductive channel_step : channel -> action -> channel -> Prop :=
  | ch_raise ch : ch_phase ch = Ready ->
      channel_step ch (Level (pin (ch_entry ch)) true) (move High ch)
  | ch_wait_high ch v lo hi : ch_phase ch = High -> v ∈ ch_past ch ->
      wait_time P true (set_duty_cycle v (ch_entry ch)) = Ok lo ->
      wait_time P true (ch_entry ch) = Ok hi ->
      channel_step ch (Wait lo hi) (move HighDone ch)
  | ch_lower ch : ch_phase ch = HighDone ->
      channel_step ch (Level (pin (ch_entry ch)) false) (move Low ch)
  | ch_wait_low ch v lo hi : ch_phase ch = Low -> v ∈ ch_past ch ->
      wait_time P false (set_duty_cycle v (ch_entry ch)) = Ok lo ->
      wait_time P false (ch_entry ch) = Ok hi ->
      channel_step ch (Wait lo hi) (move Ready ch).

(** A command is carried out and answered with 0; opening a channel may also
    fail, and a call that is no command is answered, both without effect.  A
    channel moves. *)
Inductive ctrl_step : ctrl -> list event -> ctrl -> Prop :=
  | ctrl_exec c o : allowed c o ->
      ctrl_step c (tag Client (Ask (Some o) :: (exec o c).2 ++ [Reply 0])) (exec o c).1
  | ctrl_failed c q mn mx r : r <> 0 ->
      ctrl_step c (tag Client [Ask (Some (Open q mn mx)); Reply r]) c
  | ctrl_no_command c r : ctrl_step c (tag Client [Ask None; Reply r]) c
  | ctrl_channel c i ch a ch' : chans c !! i = Some ch -> channel_step ch a ch' ->
      ctrl_step c [(Task i, a)] (mkCtrl (<[i := ch']> (chans c)) (funcs c)).
End controller.

(** ** The waveform of a channel

    [wave q ph l] reads the actions of a channel on pin [q] from phase [ph]:
    raise, wait, lower, wait, and so on. *)
Fixpoint wave (q : Z) (ph : phase) (l : list action) : option phase :=
  match l with
  | [] => Some ph
  | a :: l' =>
      match ph, a with
      | Ready, Level q' true => if decide (q' = q) then wave q High l' else None
      | High, Wait _ _ => wave q HighDone l'
      | HighDone, Level q' false => if decide (q' = q) then wave q Low l' else None
      | Low, Wait _ _ => wave q Ready l'
      | _, _ => None
      end
  end.

(** What one actor did. *)
Definition acts (a : actor) (tr : list event) : list action :=
  omap (fun '(a', x) => if decide (a' = a) then Some x else None) tr.

Lemma acts_app a tr1 tr2 : acts a (tr1 ++ tr2) = acts a tr1 ++ acts a tr2.
Proof. apply omap_app. Qed.
Lemma acts_other a a' l : a' <> a -> acts a (tag a' l) = [].
Proof. intros Hne. induction l as [|x l IH]; [done|]. cbn. by rewrite decide_False. Qed.
Lemma acts_one a x : acts a [(a, x)] = [x].
Proof. cbn. by rewrite decide_True. Qed.

Lemma wave_app q ph l1 l2 ph' :
  wave q ph l1 = Some ph' -> wave q ph (l1 ++ l2) = wave q ph' l2.
Proof.
  revert ph. induction l1 as [|x l1 IH]; intros ph; [by intros [= ->]|]. cbn.
  destruct ph, x as [| |q' []|]; try done; try case_decide; try done; apply IH.
Qed.

Section waveform.
Variable P : pwm_params.

Lemma channel_step_wave ch a ch' :
  channel_step P ch a ch' ->
  ch_entry ch' = ch_entry ch /\ wave (pin (ch_entry ch)) (ch_phase ch) [a] = Some (ch_phase ch').
Proof. destruct 1 as [? E|? ? ? ? E|? E|? ? ? ? E]; rewrite E; cbn; rewrite ?decide_True by done; done. Qed.

(** The channels of a run's end: those of its start, moved on, then new ones. *)
Definition extends (tr : list event) (c c' : ctrl) : Prop :=
  forall i ch', chans c' !! i = Some ch' ->
    match chans c !! i with
    | Some ch => pin (ch_entry ch') = pin (ch_entry ch) /\
        wave (pin (ch_entry ch)) (ch_phase ch) (acts (Task i) tr) = Some (ch_phase ch')
    | None => wave (pin (ch_entry ch')) Ready (acts (Task i) tr) = Some (ch_phase ch')
    end.

Lemma extends_same tr c c' :
  (forall i, acts (Task i) tr = []) ->
  (forall i ch', chans c' !! i = Some ch' -> exists ch, chans c !! i = Some ch /\
     pin (ch_entry ch') = pin (ch_entry ch) /\ ch_phase ch' = ch_phase ch) -> extends tr c c'.
Proof.
  intros Ht Hc i ch' Hi. destruct (Hc i ch' Hi) as (ch & -> & -> & ->). rewrite Ht. done.
Qed.

Lemma ctrl_step_extends c tr c' : ctrl_step P c tr c' -> extends tr c c'.
Proof.
  assert (forall l i, acts (Task i) (tag Client l) = []) as Hcl by (intros; by apply acts_other).
  destruct 1 as [c o Hal|c q mn mx r Hr|c r|c i ch a ch' Hi Hs].
  - destruct o as [q mn mx|q v|q out|q up]; cbn [exec fst snd].
    + intros i ch' Hi. cbn [chans] in Hi. rewrite Hcl.
      apply lookup_app_Some in Hi as [Hi|[Hge Hi]]; [by rewrite Hi|].
      rewrite (lookup_ge_None_2 _ _ Hge). by apply list_lookup_singleton_Some in Hi as [_ <-].
    + apply extends_same; [done|]. intros i ch' Hi.
      destruct (list_find _ _) as [[j ch]|] eqn:E; [|by exists ch'].
      cbn [chans] in Hi. destruct (decide (i = j)) as [->|Hne].
      * rewrite list_lookup_alter_eq in Hi. destruct (chans c !! j) as [ch0|]; [|done].
        injection Hi as <-. by exists ch0.
      * rewrite list_lookup_alter_ne in Hi by done. by exists ch'.
    + apply extends_same; [done|]. intros i ch' Hi. by exists ch'.
    + apply extends_same; [done|]. intros i ch' Hi. by exists ch'.
  - apply extends_same; [done|]. intros i ch' Hi. by exists ch'.
  - apply extends_same; [done|]. intros i ch' Hi. by exists ch'.
  - destruct (channel_step_wave _ _ _ Hs) as [He Hw]. intros j ch1 Hj. cbn [chans] in Hj.
    destruct (decide (i = j)) as [->|Hne].
    + rewrite list_lookup_insert_eq in Hj by (by eapply lookup_lt_Some). injection Hj as <-.
      rewrite Hi, acts_one, He. by split.
    + rewrite list_lookup_insert_ne in Hj by done. rewrite Hj. cbn.
      by rewrite decide_False by congruence.
Qed.

(** A controller keeps the channels it has. *)
Lemma ctrl_step_keeps c tr c' : ctrl_step P c tr c' -> (length (chans c) <= length (chans c'))%nat.
Proof.
  destruct 1 as [c o Hal| | |c i ch a ch' Hi Hs]; try done.
  - destruct o; cbn; try case_match; try case_match; cbn; rewrite ?length_app, ?length_alter; lia.
  - cbn. by rewrite length_insert.
Qed.
Lemma ctrl_run_keeps c tr c' : run (ctrl_step P) c tr c' -> (length (chans c) <= length (chans c'))%nat.
Proof. induction 1 as [|? ? ? ? ? Hs _ IH]; [done|]. apply ctrl_step_keeps in Hs. lia. Qed.

Lemma ctrl_run_extends c tr c' : run (ctrl_step P) c tr c' -> extends tr c c'.
Proof.
  induction 1 as [c|c tr1 c1 tr2 c2 Hs Hr IH].
  { apply extends_same; [done|]. intros i ch Hi. by exists ch. }
  apply ctrl_step_extends in Hs as Hs'. intros i ch2 Hi. specialize (IH i ch2 Hi).
  rewrite acts_app. destruct (chans c1 !! i) as [ch1|] eqn:E1.
  - specialize (Hs' i ch1 E1). destruct IH as [IHp IHw].
    destruct (chans c !! i) as [ch|]; [destruct Hs' as [Hp Hw]|].
    + split; [congruence|]. by rewrite (wave_app _ _ _ _ _ Hw), <- Hp.
    + rewrite IHp. by rewrite (wave_app _ _ _ _ _ Hs').
  - apply ctrl_step_keeps in Hs as Hk. apply lookup_ge_None in E1.
    rewrite (lookup_ge_None_2 (chans c)) by lia.
    assert (acts (Task i) tr1 = []) as ->; [|done].
    destruct Hs as [c o Hal| | |c j ch a ch' Hj _]; try by apply acts_other.
    cbn in E1 |- *. rewrite length_insert in E1. apply lookup_lt_Some in Hj.
    by rewrite decide_False by (intros [= ->]; lia).
Qed.
End waveform.

(** A controller with no channel yet. *)
Definition ctrl0 (f : Z -> Z) : ctrl := mkCtrl [] f.

(** Each channel of a reachable controller has produced its waveform. *)
Lemma ctrl_waveform P f tr c i ch :
  run (ctrl_step P) (ctrl0 f) tr c -> chans c !! i = Some ch ->
  wave (pin (ch_entry ch)) Ready (acts (Task i) tr) = Some (ch_phase ch).
Proof. intros Hr Hi. exact (ctrl_run_extends P _ _ _ Hr i ch Hi). Qed.
