(* ===== verification/SoftPwm.v ===== *)
(** * softPWM/main.c: the soft PWM character device

    Driver state, module init and exit, the ioctl handler and the sleep times
    of the PWM task.  The handler is sequential here; [SoftPwmTasks] runs it
    beside the tasks and beside itself. *)

From S2P Require Import Prelude Ioctl Mmio PwmGpio PwmCommon.
Open Scope Z_scope.

(** ** softpwm.h *)

Definition PWM_MAGIC_NUM : Z := 0xF1.
(** [sizeof(int * )] on the 32-bit target. *)
Definition sizeof_ptr : Z := 4.
Definition PIN_SET : Z := _IOW PWM_MAGIC_NUM 0 sizeof_ptr.
Definition GPIO_SET : Z := _IOW PWM_MAGIC_NUM 1 sizeof_ptr.
Definition PWM_INIT : Z := _IOW PWM_MAGIC_NUM 2 sizeof_ptr.
Definition PWM_SET : Z := _IOW PWM_MAGIC_NUM 3 sizeof_ptr.

(** ** Sleep times *)

Definition PERIOD_US : Z := Z.quot 1000000 PWM_FREQ.
Definition HIGH_TIME (d : Dutycycle) : res Z :=
  div32 (PERIOD_US *i duty_cycle d)%cint (PWM_RANGE d).
Definition LOW_TIME (d : Dutycycle) : res Z :=
  div32 (PERIOD_US *i (PWM_RANGE d -i duty_cycle d))%cint (PWM_RANGE d).

(** ** Driver state *)

Record cdev := mkCdev { cdev_ops : bool; cdev_owner : bool }.

(** Objects obtained from [kzalloc]. *)
Inductive kobj := ODuty | OTsk | OCdev.
#[global] Instance kobj_eq_dec : EqDecision kobj.
Proof. solve_decision. Defined.

Record state (B : Type) := mkState {
  (* the globals of main.c *)
  cdevp : option cdev;
  pwm_tsk : option (list Z);
  pwm_pin_count : Z;
  duty_array : option (list Dutycycle);
  gpio : option Z;
  dev_major : Z;
  dev_minor : Z;
  (* the machine and the kernel around them *)
  bus : B;
  threads : gmap Z kthread;
  klog : list msg;
  live : list kobj;       (* allocated and not freed *)
  k_regions : list Z;     (* device numbers held *)
  k_cdevs : list Z;       (* device numbers whose cdev is in the kernel's map *)
}.
Arguments mkState {B}.
Arguments cdevp {B}. Arguments pwm_tsk {B}. Arguments pwm_pin_count {B}.
Arguments duty_array {B}. Arguments gpio {B}. Arguments dev_major {B}.
Arguments dev_minor {B}. Arguments bus {B}. Arguments threads {B}.
Arguments klog {B}. Arguments live {B}. Arguments k_regions {B}. Arguments k_cdevs {B}.

Section setters.
Context {B : Type}.
Implicit Type s : state B.
Definition set_cdevp v s := mkState v (pwm_tsk s) (pwm_pin_count s) (duty_array s) (gpio s)
  (dev_major s) (dev_minor s) (bus s) (threads s) (klog s) (live s) (k_regions s) (k_cdevs s).
Definition set_tsk v s := mkState (cdevp s) v (pwm_pin_count s) (duty_array s) (gpio s)
  (dev_major s) (dev_minor s) (bus s) (threads s) (klog s) (live s) (k_regions s) (k_cdevs s).
Definition set_count v s := mkState (cdevp s) (pwm_tsk s) v (duty_array s) (gpio s)
  (dev_major s) (dev_minor s) (bus s) (threads s) (klog s) (live s) (k_regions s) (k_cdevs s).
Definition set_duty v s := mkState (cdevp s) (pwm_tsk s) (pwm_pin_count s) v (gpio s)
  (dev_major s) (dev_minor s) (bus s) (threads s) (klog s) (live s) (k_regions s) (k_cdevs s).
Definition set_gpio v s := mkState (cdevp s) (pwm_tsk s) (pwm_pin_count s) (duty_array s) v
  (dev_major s) (dev_minor s) (bus s) (threads s) (klog s) (live s) (k_regions s) (k_cdevs s).
Definition set_major v s := mkState (cdevp s) (pwm_tsk s) (pwm_pin_count s) (duty_array s) (gpio s)
  v (dev_minor s) (bus s) (threads s) (klog s) (live s) (k_regions s) (k_cdevs s).
Definition set_bus (v : B) s : state B := mkState (cdevp s) (pwm_tsk s) (pwm_pin_count s) (duty_array s) (gpio s)
  (dev_major s) (dev_minor s) v (threads s) (klog s) (live s) (k_regions s) (k_cdevs s).
Definition set_threads v s := mkState (cdevp s) (pwm_tsk s) (pwm_pin_count s) (duty_array s) (gpio s)
  (dev_major s) (dev_minor s) (bus s) v (klog s) (live s) (k_regions s) (k_cdevs s).
Definition set_klog v s := mkState (cdevp s) (pwm_tsk s) (pwm_pin_count s) (duty_array s) (gpio s)
  (dev_major s) (dev_minor s) (bus s) (threads s) v (live s) (k_regions s) (k_cdevs s).
Definition set_live v s := mkState (cdevp s) (pwm_tsk s) (pwm_pin_count s) (duty_array s) (gpio s)
  (dev_major s) (dev_minor s) (bus s) (threads s) (klog s) v (k_regions s) (k_cdevs s).
Definition set_regions v s := mkState (cdevp s) (pwm_tsk s) (pwm_pin_count s) (duty_array s) (gpio s)
  (dev_major s) (dev_minor s) (bus s) (threads s) (klog s) (live s) v (k_cdevs s).
Definition set_cdevs v s := mkState (cdevp s) (pwm_tsk s) (pwm_pin_count s) (duty_array s) (gpio s)
  (dev_major s) (dev_minor s) (bus s) (threads s) (klog s) (live s) (k_regions s) v.
End setters.

Arguments set_cdevp {B} v s /.
Arguments set_tsk {B} v s /.
Arguments set_count {B} v s /.
Arguments set_duty {B} v s /.
Arguments set_gpio {B} v s /.
Arguments set_major {B} v s /.
Arguments set_bus {B} v s /.
Arguments set_threads {B} v s /.
Arguments set_klog {B} v s /.
Arguments set_live {B} v s /.
Arguments set_regions {B} v s /.
Arguments set_cdevs {B} v s /.

(** The globals before [pwm_init]. *)
Definition state0 {B} (b : B) : state B :=
  mkState None None 0 None None 0 0 b ∅ [] [] [] [].

Section driver.
Context {B : Type} `{RegBus B}.
Local Abbreviation D := (M (state B)).

Definition printk (fmt : string) (args : list Z) : D unit :=
  modify (fun s => set_klog (klog s ++ [Printk fmt args]) s).

(** Run a function of gpio.c on the driver's mapping. *)
Definition with_gpio (f : option Z -> M B unit) : D unit := fun s =>
  match f (gpio s) (bus s) with
  | Ok (_, b) => Ok (tt, set_bus b s)
  | Fault e => Fault e
  end.

Definition duty_get (i : Z) : D Dutycycle :=
  s ← get; lift (a ← need (duty_array s) NullDeref; aread a i).
Definition duty_put (i : Z) (f : Dutycycle -> Dutycycle) : D unit :=
  s ← get;
  a ← lift (need (duty_array s) NullDeref);
  d ← lift (aread a i);
  a' ← lift (awrite a i (f d));
  modify (set_duty (Some a')).
Definition tsk_get (i : Z) : D Z :=
  s ← get; lift (a ← need (pwm_tsk s) NullDeref; aread a i).
Definition tsk_put (i p : Z) : D unit :=
  s ← get;
  a ← lift (need (pwm_tsk s) NullDeref);
  a' ← lift (awrite a i p);
  modify (set_tsk (Some a')).

(** ** Kernel services

    [kthread_create] returns [p]: an [ERR_PTR], or a thread that does not run
    before [wake_up_process].  [kthread_stop] asks the thread to stop, wakes
    it and returns once it has exited. *)
Definition kthread_create (p pos : Z) (nm : string) : D Z :=
  if IS_ERR p then mret p
  else modify (fun s => set_threads
         (<[p := mkKthread pos nm false false AtTest]> (threads s)) s);; mret p.
Definition wake_up_process (p : Z) : D unit :=
  s ← get;
  t ← lift (need (threads s !! p) (if p =? 0 then NullDeref else UseAfterFree));
  modify (set_threads (<[p := set_woken t]> (threads s))).
Definition kthread_stop (p : Z) : D unit :=
  s ← get;
  _ ← lift (need (threads s !! p) (if p =? 0 then NullDeref else UseAfterFree));
  modify (set_threads (delete p (threads s))).

(** ** pwm_ioctl *)

Section ioctl.
Variable addr_limit : Z.            (* current_thread_info()->addr_limit *)
Variable um : Z -> option Z.        (* the [int] at a user address *)
Variable kc : Z.                    (* what kthread_create returns *)

Definition do_PIN_SET (arg : Z) : D Z :=
  t1 ← tmp um arg 1;
  if negb (t1 =? 0) && negb (t1 =? 1) then
    printk "wrong pin type input for PIN_SET!" [];; mret 0
  else
    t0 ← tmp um arg 0;
    (if t1 =? 0 then with_gpio (fun g => gpio_input g t0)
     else with_gpio (fun g => gpio_output g t0));;
    mret 0.

Definition do_GPIO_SET (arg : Z) : D Z :=
  t1 ← tmp um arg 1;
  if negb (t1 =? 0) && negb (t1 =? 1) then
    printk "wrong pin type input for GPIO_SET!" [];; mret 0
  else
    t0 ← tmp um arg 0;
    (if t1 =? 0 then with_gpio (fun g => gpio_clr g t0)
     else with_gpio (fun g => gpio_set g t0));;
    mret 0.

Definition do_PWM_INIT (arg : Z) : D Z :=
  n ← gets pwm_pin_count;
  nm ← lift (aread name n);
  p ← kthread_create kc n nm;
  n ← gets pwm_pin_count; tsk_put n p;;
  n ← gets pwm_pin_count; q ← tsk_get n;
  if IS_ERR q then
    n ← gets pwm_pin_count; printk "failed to create kthread %d" [n];;
    n ← gets pwm_pin_count; q ← tsk_get n;
    n ← gets pwm_pin_count; tsk_put n 0;;
    mret (PTR_ERR q)
  else
    t0 ← tmp um arg 0; n ← gets pwm_pin_count; duty_put n (set_pin t0);;
    t1 ← tmp um arg 1; n ← gets pwm_pin_count; duty_put n (set_dmin t1);;
    t2 ← tmp um arg 2; n ← gets pwm_pin_count; duty_put n (set_dmax t2);;
    n ← gets pwm_pin_count; duty_put n (set_duty_cycle 0);;
    n ← gets pwm_pin_count; d ← duty_get n;
    printk "%d, %d, %d, %d" [pin d; dmin d; dmax d; duty_cycle d];;
    n ← gets pwm_pin_count; q ← tsk_get n; wake_up_process q;;
    n ← gets pwm_pin_count; modify (set_count (n +i 1)%cint);;
    mret 0.

(** [for (i = 0; i < pwm_pin_count; i++) if (duty_array[i].pin == tmp[0]) ...];
    [k] counts the iterations left, [i + k = pwm_pin_count]. *)
Fixpoint find_pin (arg : Z) (k : nat) (i : Z) : D (option Z) :=
  match k with
  | O => mret None
  | S k' =>
      d ← duty_get i;
      t0 ← tmp um arg 0;
      if pin d =? t0 then mret (Some i) else find_pin arg k' (i + 1)
  end.

Definition do_PWM_SET (arg : Z) : D Z :=
  n ← gets pwm_pin_count;
  r ← find_pin arg (Z.to_nat n) 0;
  match r with
  | None => printk "wrong pin input for PWM_SET!" [];; mret 0
  | Some pos => t1 ← tmp um arg 1; duty_put pos (set_duty_cycle t1);; mret 0
  end.

Definition pwm_ioctl (cmd arg : Z) : D Z :=
  if negb (_IOC_TYPE cmd =? PWM_MAGIC_NUM) then mret (- ENOTTY)
  else if 4 <? _IOC_NR cmd then mret (- ENOTTY)
  else
    let err :=
      if negb (Z.land (_IOC_DIR cmd) _IOC_READ =? 0)
      then negb (access_ok addr_limit arg (_IOC_SIZE cmd))
      else if negb (Z.land (_IOC_DIR cmd) _IOC_WRITE =? 0)
      then negb (access_ok addr_limit arg (_IOC_SIZE cmd))
      else false in
    if err then mret (- EFAULT)
    else if cmd =? PIN_SET then do_PIN_SET arg
    else if cmd =? GPIO_SET then do_GPIO_SET arg
    else if cmd =? PWM_INIT then do_PWM_INIT arg
    else if cmd =? PWM_SET then do_PWM_SET arg
    else mret 0.
End ioctl.

(** ** pwm_init and pwm_exit *)

(** What the kernel answers during [pwm_init]. *)
Record init_env := mkInitEnv {
  ioremap_ret : option Z;
  kzalloc_duty : bool;
  kzalloc_tsk : bool;
  chrdev_ret : Z;        (* alloc_chrdev_region *)
  chrdev_dev : Z;        (* the device number it stores on success *)
  kzalloc_cdev : bool;
  cdev_add_ret : Z;
}.

(** [MAJOR(dev)] and [MKDEV(ma, mi)] of include/linux/kdev_t.h *)
Definition MINORBITS : Z := 20.
Definition MAJOR (dev : Z) : Z := Z.shiftr dev MINORBITS.
Definition MKDEV (ma mi : Z) : Z := Z.lor (Z.shiftl ma MINORBITS) mi.

Definition alloc (o : kobj) (s : state B) : state B := set_live (live s ++ [o]) s.
(** [kfree] of an object, by its first occurrence. *)
Fixpoint free1 (o : kobj) (l : list kobj) : list kobj :=
  match l with
  | [] => []
  | x :: l' => if decide (x = o) then l' else x :: free1 o l'
  end.

(** The [failed:] label. *)
Definition init_failed : D Z :=
  c ← gets cdevp;
  (match c with
   | Some _ => modify (fun s => set_live (free1 OCdev (live s)) s);; modify (set_cdevp None)
   | None => mret tt
   end);;
  mret 0.

Definition pwm_init (e : init_env) : D Z :=
  printk "SoftPWM module load." [];;
  modify (set_gpio (ioremap_ret e));;
  (if kzalloc_duty e
   then modify (fun s => alloc ODuty (set_duty (Some (replicate 5 Dutycycle0)) s))
   else modify (set_duty None);;
        printk "failed to allocate duty_array memory by kzalloc" []);;
  (if kzalloc_tsk e
   then modify (fun s => alloc OTsk (set_tsk (Some (replicate 5 0)) s))
   else modify (set_tsk None);;
        printk "failed to allocate pwm_tsk array memory by kzalloc" []);;
  if chrdev_ret e <? 0 then
    printk "failed to allocate char device for softPWM" [];; mret (chrdev_ret e)
  else
    modify (fun s => set_regions (k_regions s ++ [chrdev_dev e]) s);;
    modify (set_major (MAJOR (chrdev_dev e)));;
    mn ← gets dev_minor; mj ← gets dev_major;
    printk "register char device softPWM with %d : %d" [mj; mn];;
    if kzalloc_cdev e then
      modify (fun s => alloc OCdev (set_cdevp (Some (mkCdev false false)) s));;
      (* cdev_init; cdevp->owner = THIS_MODULE *)
      modify (set_cdevp (Some (mkCdev true false)));;
      modify (set_cdevp (Some (mkCdev true true)));;
      if cdev_add_ret e <? 0 then
        printk "failed to add char device softPWM" [];; init_failed
      else
        modify (fun s => set_cdevs (k_cdevs s ++ [chrdev_dev e]) s);; mret 0
    else
      modify (set_cdevp None);;
      printk "failed to allocate device memory by kzalloc" [];; init_failed.

(** [for (i = 0; i < pwm_pin_count; i++) kthread_stop(pwm_tsk[i])] *)
Fixpoint stop_tasks (k : nat) (i : Z) : D unit :=
  match k with
  | O => mret tt
  | S k' => p ← tsk_get i; kthread_stop p;; stop_tasks k' (i + 1)
  end.

Definition pwm_exit : D unit :=
  printk "SoftPWM module unload." [];;
  n ← gets pwm_pin_count; stop_tasks (Z.to_nat n) 0;;
  (* iounmap: the address stays in the pointer *)
  mj ← gets dev_major; mn ← gets dev_minor;
  modify (fun s => set_regions (filter (fun d => d <> MKDEV mj mn) (k_regions s)) s);;
  c ← gets cdevp;
  match c with
  | Some _ => modify (fun s => set_live (free1 OCdev (live s)) s)
  | None => mret tt
  end.
End driver.

(** ** Running the accessors *)

Section run.
Context {B : Type} `{RegBus B}.
Implicit Type s : state B.

Lemma duty_get_run s a i d :
  duty_array s = Some a -> 0 <= i -> a !! Z.to_nat i = Some d -> duty_get i s = Ok (d, s).
Proof.
  intros Ha Hi Hd. unfold duty_get. rewrite Mbind_get, Ha. cbn [need mbind res_bind].
  by rewrite (aread_lookup a i d).
Qed.

Lemma duty_put_run s a i d f :
  duty_array s = Some a -> 0 <= i -> a !! Z.to_nat i = Some d ->
  duty_put i f s = Ok (tt, set_duty (Some (<[Z.to_nat i := f d]> a)) s).
Proof.
  intros Ha Hi Hd. pose proof (lookup_lt_Some _ _ _ Hd).
  unfold duty_put. rewrite Mbind_get, Ha. cbn [need]. rewrite Mbind_lift.
  rewrite (aread_lookup a i d), Mbind_lift by done. by rewrite awrite_in, Mbind_lift by lia.
Qed.

Lemma tsk_get_run s a i p :
  pwm_tsk s = Some a -> 0 <= i -> a !! Z.to_nat i = Some p -> tsk_get i s = Ok (p, s).
Proof.
  intros Ha Hi Hd. unfold tsk_get. rewrite Mbind_get, Ha. cbn [need mbind res_bind].
  by rewrite (aread_lookup a i p).
Qed.

Lemma tsk_put_run s a i p :
  pwm_tsk s = Some a -> 0 <= i < Z.of_nat (length a) ->
  tsk_put i p s = Ok (tt, set_tsk (Some (<[Z.to_nat i := p]> a)) s).
Proof.
  intros Ha Hi. unfold tsk_put. rewrite Mbind_get, Ha. cbn [need]. rewrite Mbind_lift.
  by rewrite awrite_in, Mbind_lift by lia.
Qed.

Lemma wake_run s p t :
  threads s !! p = Some t ->
  wake_up_process p s = Ok (tt, set_threads (<[p := set_woken t]> (threads s)) s).
Proof. intros E. unfold wake_up_process. by rewrite Mbind_get, E. Qed.

Lemma kthread_create_run s p pos nm :
  IS_ERR p = false ->
  kthread_create p pos nm s =
    Ok (p, set_threads (<[p := mkKthread pos nm false false AtTest]> (threads s)) s).
Proof. intros E. unfold kthread_create. by rewrite E. Qed.

Lemma kthread_create_err s p pos nm :
  IS_ERR p = true -> kthread_create p pos nm s = Ok (p, s).
Proof. intros E. unfold kthread_create. by rewrite E. Qed.

(** ** What the handler keeps true *)

(** The driver is set up and its table describes its tasks: the first
    [pwm_pin_count] entries have a task each, running on its own index, and
    every task was woken and is the one recorded for its entry. *)
Record wf s : Prop := {
  wf_count : 0 <= pwm_pin_count s <= MAX_PWM_NUM;
  wf_duty : exists a, duty_array s = Some a /\ length a = 5%nat /\
              Forall (fun d => is_s 32 (pin d) /\ is_s 32 (duty_cycle d) /\
                               is_s 32 (dmin d) /\ is_s 32 (dmax d)) a;
  wf_tsk : exists l, pwm_tsk s = Some l /\ length l = 5%nat /\
             (forall i, 0 <= i < pwm_pin_count s -> exists p t,
                l !! Z.to_nat i = Some p /\ threads s !! p = Some t /\ th_pos t = i) /\
             (forall p t, threads s !! p = Some t -> th_woken t = true /\
                0 <= th_pos t < pwm_pin_count s /\ l !! Z.to_nat (th_pos t) = Some p);
}.
Lemma Mbind_printk {A} fmt args (k : unit -> M (state B) A) s :
  (printk fmt args ≫= k) s = k tt (set_klog (klog s ++ [Printk fmt args]) s).
Proof. done. Qed.

End run.

(** ** Symbolic execution of the handler *)

Ltac sred := cbn [cdevp pwm_tsk pwm_pin_count duty_array gpio dev_major dev_minor bus threads
  klog live k_regions k_cdevs set_cdevp set_tsk set_count set_duty set_gpio set_major set_bus
  set_threads set_klog set_live set_regions set_cdevs].

Ltac lookup_solve :=
  sred; rewrite ?list_lookup_insert_eq by (rewrite ?length_insert; lia);
  rewrite ?lookup_insert_eq; first [reflexivity | eassumption].

(** One statement of a driver program whose outcome the accessor lemmas give. *)
Ltac mrun_solve :=
  first
    [ eapply duty_get_run; [reflexivity | lia | lookup_solve]
    | eapply duty_put_run; [reflexivity | lia | lookup_solve]
    | eapply tsk_get_run; [reflexivity | lia | lookup_solve]
    | eapply tsk_put_run; [reflexivity | rewrite ?length_insert; lia]
    | eapply wake_run; lookup_solve
    | eapply kthread_create_run; eassumption
    | eapply kthread_create_err; eassumption
    | match goal with
      | Hu : user_args _ ?arg _ |- tmp _ ?arg ?i _ = _ =>
          eapply (user_args_tmp _ arg _ (Z.to_nat i)); [exact Hu | reflexivity]
      end
    | match goal with |- lift (aread _ _) _ = _ =>
        erewrite aread_lookup; [reflexivity | lia | eassumption] end ].

Ltac mstep :=
  first
    [ rewrite Mbind_assoc | rewrite Mbind_gets | rewrite Mbind_get | rewrite Mbind_modify
    | rewrite Mbind_ret | rewrite Mbind_lift | rewrite Mbind_printk
    | erewrite Mbind_run; [|solve [mrun_solve]] ]; sred.

(** ** The handler, branch by branch *)

Section branches.
Context {B : Type} `{RegBus B}.
Variable addr_limit : Z.
Variable um : Z -> option Z.
Variable kc : Z.
Implicit Type s : state B.

(** The driver state after a successful [PWM_INIT] of [pin], [min], [max]. *)
Definition after_init (a : list Dutycycle) (l : list Z) (nm : string) (t0 t1 t2 : Z) s :=
  let n := pwm_pin_count s in
  mkState (cdevp s) (Some (<[Z.to_nat n := kc]> l)) (n + 1)
    (Some (<[Z.to_nat n := mkDutycycle t0 0 t1 t2]> a)) (gpio s)
    (dev_major s) (dev_minor s) (bus s)
    (<[kc := mkKthread n nm true false AtTest]> (threads s))
    (klog s ++ [Printk "%d, %d, %d, %d" [t0; t1; t2; 0]]) (live s) (k_regions s) (k_cdevs s).

Lemma do_PWM_INIT_run s a l nm arg t0 t1 t2 :
  duty_array s = Some a -> pwm_tsk s = Some l -> name !! Z.to_nat (pwm_pin_count s) = Some nm ->
  0 <= pwm_pin_count s -> length a = 5%nat -> length l = 5%nat -> IS_ERR kc = false ->
  user_args um arg [t0; t1; t2] ->
  do_PWM_INIT um kc arg s = Ok (0, after_init a l nm t0 t1 t2 s).
Proof.
  intros Ha Hl Hn Hc La Ll Hk Hu. unfold do_PWM_INIT.
  assert (pwm_pin_count s < 5) by (apply lookup_lt_Some in Hn; cbn in Hn; lia).
  destruct (lookup_Z a (pwm_pin_count s)) as [d Hd]; [lia|].
  destruct s as [c0 tk n du g mj mn b th lg lv rg cd]; cbn in *. subst du tk.
  repeat mstep. rewrite Hk. repeat mstep.
  unfold modify, after_init. sred. rewrite !list_insert_insert_eq, i32_small by lia.
  rewrite insert_insert_eq. done.
Qed.

(** ... and after one whose thread could not be created. *)
Definition after_init_err (l : list Z) s :=
  set_klog (klog s ++ [Printk "failed to create kthread %d" [pwm_pin_count s]])
    (set_tsk (Some (<[Z.to_nat (pwm_pin_count s) := 0]> l)) s).

Lemma do_PWM_INIT_run_err s l nm arg :
  pwm_tsk s = Some l -> name !! Z.to_nat (pwm_pin_count s) = Some nm ->
  0 <= pwm_pin_count s -> length l = 5%nat -> IS_ERR kc = true ->
  do_PWM_INIT um kc arg s = Ok (PTR_ERR kc, after_init_err l s).
Proof.
  intros Hl Hn Hc Ll Hk. unfold do_PWM_INIT.
  assert (pwm_pin_count s < 5) by (apply lookup_lt_Some in Hn; cbn in Hn; lia).
  destruct s as [c0 tk n du g mj mn b th lg lv rg cd]; cbn in *. subst tk.
  repeat mstep. rewrite Hk. repeat mstep. unfold mret, M_ret, after_init_err. sred.
  by rewrite list_insert_insert_eq.
Qed.

(** A sixth channel reads [name[5]]: the handler has no bound check. *)
Lemma do_PWM_INIT_full s arg :
  5 <= pwm_pin_count s -> do_PWM_INIT um kc arg s = Fault OutOfBounds.
Proof.
  intros Hc. unfold do_PWM_INIT. rewrite Mbind_gets. apply Mbind_fault.
  rewrite aread_oob by (cbn; lia). done.
Qed.

(** Every way [PWM_INIT] returns. *)
Lemma do_PWM_INIT_inv s s' arg r :
  wf s -> do_PWM_INIT um kc arg s = Ok (r, s') ->
  exists a l nm, duty_array s = Some a /\ pwm_tsk s = Some l /\
    name !! Z.to_nat (pwm_pin_count s) = Some nm /\ 0 <= pwm_pin_count s < 5 /\
    ((IS_ERR kc = true /\ r = PTR_ERR kc /\ s' = after_init_err l s) \/
     (IS_ERR kc = false /\ r = 0 /\ exists t0 t1 t2, user_args um arg [t0; t1; t2] /\
        s' = after_init a l nm t0 t1 t2 s)).
Proof.
  intros [Hc (a & Ha & La & _) (l & Hl & Ll & _)] Hr.
  destruct (decide (5 <= pwm_pin_count s)) as [Hf|Hf].
  { by rewrite do_PWM_INIT_full in Hr. }
  destruct (lookup_Z name (pwm_pin_count s)) as [nm Hn]; [cbn; lia|].
  exists a, l, nm. split_and!; [done..|lia|lia|].
  destruct (IS_ERR kc) eqn:Hk; [left | right].
  { rewrite (do_PWM_INIT_run_err s l nm arg) in Hr by (done || lia).
    by injection Hr as <- <-. }
  destruct (um (u32 (arg + 4 * 0))) as [t0|] eqn:E0.
  destruct (um (u32 (arg + 4 * 1))) as [t1|] eqn:E1.
  destruct (um (u32 (arg + 4 * 2))) as [t2|] eqn:E2.
  { assert (user_args um arg [t0; t1; t2]) as Hu.
    { intros [|[|[|i]]] v; cbn; intros [= <-]; done. }
    rewrite (do_PWM_INIT_run s a l nm arg t0 t1 t2) in Hr by (done || lia).
    injection Hr as <- <-. by eauto 8. }
  all: exfalso; revert Hr; unfold do_PWM_INIT;
    destruct (lookup_Z a (pwm_pin_count s)) as [d Hd]; [lia|];
    destruct s as [c0 tk n du g mj mn b th lg lv rg cd]; cbn in *; subst du tk;
    repeat mstep; rewrite Hk; repeat mstep;
    repeat first
      [ rewrite (Mbind_run _ _ _ _ _ (tmp_run _ _ _ _ _ E0)); repeat mstep
      | rewrite (Mbind_run _ _ _ _ _ (tmp_run _ _ _ _ _ E1)); repeat mstep
      | rewrite (Mbind_fault _ _ _ _ (tmp_fault _ _ _ _ E0))
      | rewrite (Mbind_fault _ _ _ _ (tmp_fault _ _ _ _ E1))
      | rewrite (Mbind_fault _ _ _ _ (tmp_fault _ _ _ _ E2)) ]; done.
Qed.

(** ** PWM_SET *)

(** The entry [PWM_SET] updates: the first of the [n] initialised ones. *)
Definition first_entry (t0 n : Z) (a : list Dutycycle) : option (nat * Dutycycle) :=
  list_find (fun d => pin d = t0) (take (Z.to_nat n) a).

Lemma find_pin_run s a arg t0 l k i :
  duty_array s = Some a -> user_args um arg (t0 :: l) -> (i + k <= length a)%nat ->
  find_pin um arg k (Z.of_nat i) s =
    Ok ((fun jd => Z.of_nat (i + fst jd)) <$>
          list_find (fun d => pin d = t0) (take k (drop i a)), s).
Proof.
  intros Ha Hu. revert i. induction k as [|k IH]; intros i Hi; [done|]. cbn [find_pin].
  destruct (lookup_lt_is_Some_2 a i) as [d Hd]; [lia|].
  rewrite (Mbind_run _ _ _ _ _ (duty_get_run s a (Z.of_nat i) d Ha ltac:(lia) ltac:(by rewrite Nat2Z.id))).
  rewrite (Mbind_run _ _ _ _ _ (user_args_tmp um arg _ 0 t0 s Hu eq_refl)).
  rewrite (drop_S a d i Hd). cbn [take list_find].
  destruct (pin d =? t0) eqn:E.
  - apply Z.eqb_eq in E. rewrite decide_True by done. cbn.
    by rewrite Nat.add_0_r.
  - apply Z.eqb_neq in E. rewrite decide_False by done.
    replace (Z.of_nat i + 1) with (Z.of_nat (S i)) by lia. rewrite IH by lia.
    destruct (list_find _ (take k (drop (S i) a))) as [[j d']|]; cbn; [|done].
    repeat f_equal. lia.
Qed.

Lemma do_PWM_SET_run s a arg t0 t1 :
  duty_array s = Some a -> 0 <= pwm_pin_count s <= Z.of_nat (length a) ->
  user_args um arg [t0; t1] ->
  do_PWM_SET um arg s = Ok (0,
    match first_entry t0 (pwm_pin_count s) a with
    | Some (j, d) => set_duty (Some (<[j := set_duty_cycle t1 d]> a)) s
    | None => set_klog (klog s ++ [Printk "wrong pin input for PWM_SET!" []]) s
    end).
Proof.
  intros Ha Hc Hu. unfold do_PWM_SET, first_entry. rewrite Mbind_gets.
  rewrite (Mbind_run _ _ _ _ _ (find_pin_run s a arg t0 [t1] (Z.to_nat (pwm_pin_count s)) 0 Ha Hu ltac:(lia))).
  rewrite drop_0. destruct (list_find _ _) as [[j d]|] eqn:E; cbn [fmap option_fmap option_map].
  - apply list_find_Some in E as (E & _). apply lookup_take_Some in E as [Hd Hj].
    rewrite (Mbind_run _ _ _ _ _ (user_args_tmp um arg _ 1 t1 s Hu eq_refl)).
    rewrite (Mbind_run _ _ _ _ _ (duty_put_run s a (Z.of_nat (0 + j)) d _ Ha ltac:(lia)
               ltac:(by rewrite Nat2Z.id))). by rewrite Nat2Z.id.
  - done.
Qed.
End branches.

(** ** Preservation *)

Section preservation.
Context {B : Type} `{RegBus B}.
Implicit Type s : state B.

(** [s'] differs from [s] in the registers and the log only. *)
Definition same_tables s s' : Prop := exists b m, s' = set_klog m (set_bus b s).

Lemma wf_same_tables s s' : same_tables s s' -> wf s -> wf s'.
Proof. intros (b & m & ->) [H1 H2 H3]. by split. Qed.

Lemma same_tables_refl s : same_tables s s.
Proof. exists (bus s), (klog s). by destruct s. Qed.
Lemma same_tables_bus b s : same_tables s (set_bus b s).
Proof. by exists b, (klog s). Qed.
Lemma same_tables_klog m s : same_tables s (set_klog m s).
Proof. exists (bus s), m. by destruct s. Qed.

Lemma with_gpio_inv f s x s' : with_gpio f s = Ok (x, s') -> same_tables s s'.
Proof.
  unfold with_gpio. destruct (f (gpio s) (bus s)) as [[[] b]|]; [|done].
  intros [= <- <-]. apply same_tables_bus.
Qed.

Lemma duty_put_inv i f s x s' :
  duty_put i f s = Ok (x, s') -> exists a d, duty_array s = Some a /\ 0 <= i /\
    a !! Z.to_nat i = Some d /\ s' = set_duty (Some (<[Z.to_nat i := f d]> a)) s.
Proof.
  unfold duty_put. rewrite Mbind_get. intros Hr. minv.
  eauto 8.
Qed.

Lemma do_PIN_SET_inv um arg s r s' : do_PIN_SET um arg s = Ok (r, s') -> r = 0 /\ same_tables s s'.
Proof.
  unfold do_PIN_SET. intros Hr. apply Mbind_ok in Hr as (t1 & s1 & H1 & Hr).
  apply tmp_inv in H1 as [_ ->]. destruct (negb (t1 =? 0) && negb (t1 =? 1)).
  - rewrite Mbind_printk in Hr. minv. split; [done | apply same_tables_klog].
  - minv. apply tmp_inv in H0 as [_ ->]. rewrite Mif in H1.
    destruct (t1 =? 0); by apply with_gpio_inv in H1.
Qed.

Lemma do_GPIO_SET_inv um arg s r s' : do_GPIO_SET um arg s = Ok (r, s') -> r = 0 /\ same_tables s s'.
Proof.
  unfold do_GPIO_SET. intros Hr. apply Mbind_ok in Hr as (t1 & s1 & H1 & Hr).
  apply tmp_inv in H1 as [_ ->]. destruct (negb (t1 =? 0) && negb (t1 =? 1)).
  - rewrite Mbind_printk in Hr. minv. split; [done | apply same_tables_klog].
  - minv. apply tmp_inv in H0 as [_ ->]. rewrite Mif in H1.
    destruct (t1 =? 0); by apply with_gpio_inv in H1.
Qed.

Lemma find_pin_state um arg k i s o s' : find_pin um arg k i s = Ok (o, s') -> s' = s.
Proof.
  revert i. induction k as [|k IH]; intros i; cbn [find_pin].
  - intros Hr. by minv.
  - unfold duty_get. rewrite Mbind_assoc, Mbind_get. intros Hr. minv.
    apply tmp_inv in H1 as [_ ->]. rewrite Mif in Hr. destruct (_ =? _); [by minv | eauto].
Qed.

Lemma do_PWM_SET_inv um arg s r s' :
  do_PWM_SET um arg s = Ok (r, s') -> r = 0 /\
    (same_tables s s' \/
     exists a i d t1, duty_array s = Some a /\ a !! Z.to_nat i = Some d /\
       um (u32 (arg + 4 * 1)) = Some t1 /\
       s' = set_duty (Some (<[Z.to_nat i := set_duty_cycle t1 d]> a)) s).
Proof.
  unfold do_PWM_SET. rewrite Mbind_gets. intros Hr.
  apply Mbind_ok in Hr as (o & s1 & H1 & Hr). apply find_pin_state in H1 as ->.
  destruct o as [pos|].
  - minv. apply tmp_inv in H0 as [Ht ->]. apply duty_put_inv in H1 as (a & d & Ha & _ & Hd & ->).
    split; [done|]. right. by exists a, pos, d, x.
  - rewrite Mbind_printk in Hr. minv. split; [done|]. left. apply same_tables_klog.
Qed.

Lemma wf_set_duty s a i d t1 :
  wf s -> duty_array s = Some a -> a !! i = Some d -> is_s 32 t1 ->
  wf (set_duty (Some (<[i := set_duty_cycle t1 d]> a)) s).
Proof.
  intros [Hc (a' & Ha' & La & Hall) Ht] Ha Hd Hi. rewrite Ha in Ha'. injection Ha' as <-.
  split; sred; try done.
  eexists. split; [done|]. rewrite length_insert. split; [done|].
  apply Forall_insert; [done|]. pose proof (Forall_lookup_1 _ _ _ _ Hall Hd) as (?&?&?&?).
  by split_and!.
Qed.

Lemma wf_after_init_err s l :
  wf s -> pwm_tsk s = Some l -> pwm_pin_count s < 5 -> wf (after_init_err l s).
Proof.
  intros [Hc Hd (l' & Hl' & Ll & Ht & Hth)] Hl Hlt. rewrite Hl in Hl'. injection Hl' as <-.
  split; unfold after_init_err; sred; try done.
  eexists. split; [done|]. rewrite length_insert. split; [done|]. split.
  - intros i Hi. destruct (Ht i Hi) as (p & t & Hp & Hrest).
    exists p, t. rewrite list_lookup_insert_ne by lia. done.
  - intros p t Hp. destruct (Hth p t Hp) as (? & ? & ?).
    by rewrite list_lookup_insert_ne by lia.
Qed.

Lemma wf_after_init kc s a l nm t0 t1 t2 :
  wf s -> duty_array s = Some a -> pwm_tsk s = Some l -> pwm_pin_count s < 5 ->
  threads s !! kc = None -> Forall (is_s 32) [t0; t1; t2] ->
  wf (after_init kc a l nm t0 t1 t2 s).
Proof.
  intros [Hc (a' & Ha' & La & Hall) (l' & Hl' & Ll & Ht & Hth)] Ha Hl Hlt Hk Hi.
  rewrite Ha in Ha'. injection Ha' as <-. rewrite Hl in Hl'. injection Hl' as <-.
  split; unfold after_init; sred.
  - unfold MAX_PWM_NUM in *. lia.
  - eexists. split; [done|]. rewrite length_insert. split; [done|].
    rewrite !Forall_cons in Hi. destruct Hi as (? & ? & ? & _).
    apply Forall_insert; [done|]. by split_and!.
  - eexists. split; [done|]. rewrite length_insert. split; [done|]. split.
    + intros i Hi'. destruct (decide (i = pwm_pin_count s)) as [->|Hne].
      * eexists kc, _. rewrite list_lookup_insert_eq by lia. by rewrite lookup_insert_eq.
      * destruct (Ht i) as (p & t & Hp & Htp & ?); [lia|]. exists p, t.
        rewrite list_lookup_insert_ne by lia. rewrite lookup_insert_ne by congruence. done.
    + intros p t. destruct (decide (p = kc)) as [->|Hne].
      * rewrite lookup_insert_eq. intros [= <-]. cbn.
        rewrite list_lookup_insert_eq by lia. split_and!; done || lia.
      * rewrite lookup_insert_ne by done. intros Hp. destruct (Hth p t Hp) as (? & ? & ?).
        rewrite list_lookup_insert_ne by lia. split_and!; done || lia.
Qed.

(** ** Dispatch *)

Section dispatch.
Variables (addr_limit : Z) (um : Z -> option Z) (kc : Z).

(** How the command word selects the branch. *)
Lemma pwm_ioctl_dispatch cmd arg s r s' :
  pwm_ioctl addr_limit um kc cmd arg s = Ok (r, s') ->
  (s' = s /\ (r = - ENOTTY \/ r = - EFAULT \/ r = 0)) \/
  (cmd = PIN_SET /\ do_PIN_SET um arg s = Ok (r, s')) \/
  (cmd = GPIO_SET /\ do_GPIO_SET um arg s = Ok (r, s')) \/
  (cmd = PWM_INIT /\ do_PWM_INIT um kc arg s = Ok (r, s')) \/
  (cmd = PWM_SET /\ do_PWM_SET um arg s = Ok (r, s')).
Proof.
  unfold pwm_ioctl. rewrite !Mif.
  repeat (let E := fresh "E" in case_match eqn:E); intros Hr; rewrite ?Z.eqb_eq in *;
    tauto || (minv; tauto).
Qed.

Lemma pwm_ioctl_preserves cmd arg s r s' :
  (forall a v, um a = Some v -> is_s 32 v) ->
  (IS_ERR kc = false -> threads s !! kc = None) ->
  wf s -> pwm_ioctl addr_limit um kc cmd arg s = Ok (r, s') -> wf s'.
Proof.
  intros Hum Hk Hwf Hr.
  apply pwm_ioctl_dispatch in Hr as [[-> _]|[[_ Hr]|[[_ Hr]|[[_ Hr]|[_ Hr]]]]]; [done|..].
  - apply do_PIN_SET_inv in Hr as [_ Hs]. by eapply wf_same_tables.
  - apply do_GPIO_SET_inv in Hr as [_ Hs]. by eapply wf_same_tables.
  - apply do_PWM_INIT_inv in Hr as (a & l & nm & Ha & Hl & Hn & Hc & Hr); [|done].
    destruct Hr as [(_ & _ & ->)|(Hk' & _ & t0 & t1 & t2 & Hu & ->)].
    + apply wf_after_init_err; done || lia.
    + apply wf_after_init; try (done || lia); [by apply Hk|].
      rewrite !Forall_cons. split_and!; [| | |done]; eapply Hum.
      * by apply (Hu 0%nat t0).
      * by apply (Hu 1%nat t1).
      * by apply (Hu 2%nat t2).
  - apply do_PWM_SET_inv in Hr as (_ & [Hs|(a & i & d & t1 & Ha & Hd & Ht & ->)]).
    + by eapply wf_same_tables.
    + apply wf_set_duty; try done. by eapply Hum.
Qed.
End dispatch.
End preservation.

(** ** The four commands through the dispatcher *)

Section commands.
Context {B : Type} `{RegBus B}.
Variables (addr_limit : Z) (um : Z -> option Z) (kc : Z).
Implicit Type s : state B.

Ltac dispatch C :=
  unfold pwm_ioctl; rewrite !Mif;
  change (_IOC_TYPE C) with 0xF1; change (_IOC_SIZE C) with 4; change (_IOC_DIR C) with 1;
  match goal with |- context [_IOC_NR C] =>
    let v := eval vm_compute in (_IOC_NR C) in change (_IOC_NR C) with v end;
  cbn -[access_ok do_PIN_SET do_GPIO_SET do_PWM_INIT do_PWM_SET];
  destruct (access_ok _ _ _); cbn [negb]; reflexivity.

Lemma pwm_ioctl_PIN_SET arg s :
  pwm_ioctl addr_limit um kc PIN_SET arg s =
    if access_ok addr_limit arg 4 then do_PIN_SET um arg s else Ok (- EFAULT, s).
Proof. dispatch PIN_SET. Qed.
Lemma pwm_ioctl_GPIO_SET arg s :
  pwm_ioctl addr_limit um kc GPIO_SET arg s =
    if access_ok addr_limit arg 4 then do_GPIO_SET um arg s else Ok (- EFAULT, s).
Proof. dispatch GPIO_SET. Qed.
Lemma pwm_ioctl_PWM_INIT arg s :
  pwm_ioctl addr_limit um kc PWM_INIT arg s =
    if access_ok addr_limit arg 4 then do_PWM_INIT um kc arg s else Ok (- EFAULT, s).
Proof. dispatch PWM_INIT. Qed.
Lemma pwm_ioctl_PWM_SET arg s :
  pwm_ioctl addr_limit um kc PWM_SET arg s =
    if access_ok addr_limit arg 4 then do_PWM_SET um arg s else Ok (- EFAULT, s).
Proof. dispatch PWM_SET. Qed.
End commands.

(** ** Sleep times *)

Lemma PERIOD_US_val : PERIOD_US = 10000.
Proof. done. Qed.

Lemma HIGH_TIME_run d :
  let r := dmax d - dmin d in
  0 < r < 2 ^ 31 -> 0 <= duty_cycle d -> 10000 * duty_cycle d < 2 ^ 31 ->
  HIGH_TIME d = Ok (10000 * duty_cycle d / r).
Proof.
  cbn zeta. intros Hr Hd Hb. unfold HIGH_TIME. rewrite PWM_RANGE_small by (unfold is_s; lia).
  rewrite PERIOD_US_val, i32_small by lia.
  rewrite div32_ok by lia. by rewrite quot_div by lia.
Qed.

Lemma LOW_TIME_run d :
  let r := dmax d - dmin d in
  0 < r < 2 ^ 31 -> - 2 ^ 31 <= r - duty_cycle d < 2 ^ 31 ->
  - 2 ^ 31 <= 10000 * (r - duty_cycle d) < 2 ^ 31 ->
  LOW_TIME d = Ok (Z.quot (10000 * (r - duty_cycle d)) r).
Proof.
  cbn zeta. intros Hr Hd Hb. unfold LOW_TIME. rewrite PWM_RANGE_small by (unfold is_s; lia).
  rewrite PERIOD_US_val, (i32_small (_ - _)), i32_small by lia. by rewrite div32_ok by lia.
Qed.

(** ** Module load and unload *)

Section lifecycle.
Context {B : Type} `{RegBus B}.
Implicit Type s : state B.

(** The part of the state that only init and exit touch. *)
Definition same_device s s' : Prop :=
  cdevp s' = cdevp s /\ gpio s' = gpio s /\ dev_major s' = dev_major s /\
  dev_minor s' = dev_minor s /\ live s' = live s /\ k_regions s' = k_regions s /\
  k_cdevs s' = k_cdevs s.

Lemma same_device_trans s1 s2 s3 : same_device s1 s2 -> same_device s2 s3 -> same_device s1 s3.
Proof. unfold same_device. intuition congruence. Qed.

Lemma pwm_ioctl_device lim um kc cmd arg s r s' :
  wf s -> pwm_ioctl lim um kc cmd arg s = Ok (r, s') -> same_device s s'.
Proof.
  intros Hwf Hr.
  assert (same_tables s s' -> same_device s s') as Hsame by (intros (b & m & ->); done).
  apply pwm_ioctl_dispatch in Hr as [[-> _]|[[_ Hr]|[[_ Hr]|[[_ Hr]|[_ Hr]]]]]; [done|..].
  - by apply Hsame, (do_PIN_SET_inv um arg s r s').
  - by apply Hsame, (do_GPIO_SET_inv um arg s r s').
  - apply do_PWM_INIT_inv in Hr as (a & l & nm & _ & _ & _ & _ & Hr); [|done].
    by destruct Hr as [(_ & _ & ->)|(_ & _ & t0 & t1 & t2 & _ & ->)].
  - apply do_PWM_SET_inv in Hr as (_ & [Hs|(a & i & d & t1 & _ & _ & _ & ->)]);
      [by apply Hsame | done].
Qed.

(** One ioctl call of a client: the user's [int]s are 32-bit values and a
    created thread is a new one. *)
Inductive ioctl_step : state B -> state B -> Prop :=
  | ioctl_call s lim um kc cmd arg r s' :
      (forall a v, um a = Some v -> is_s 32 v) ->
      (IS_ERR kc = false -> threads s !! kc = None) ->
      pwm_ioctl lim um kc cmd arg s = Ok (r, s') -> ioctl_step s s'.

Lemma ioctl_steps_wf s s' : rtc ioctl_step s s' -> wf s -> wf s' /\ same_device s s'.
Proof.
  induction 1 as [s|s1 s2 s3 Hstep _ IH]; intros Hwf; [done|].
  destruct Hstep as [s lim um kc cmd arg r s' Hum Hk Hr].
  destruct IH as [Hwf' Hdev]; [by eapply pwm_ioctl_preserves|].
  split; [done|]. eapply same_device_trans; [by eapply pwm_ioctl_device | done].
Qed.

(** The state [pwm_init] leaves when every kernel service succeeds. *)
Definition loaded_log (dev : Z) : list msg :=
  [Printk "SoftPWM module load." []; Printk "register char device softPWM with %d : %d" [MAJOR dev; 0]].
Definition loaded (e : init_env) (b : B) : state B :=
  mkState (Some (mkCdev true true)) (Some (replicate 5 0)) 0 (Some (replicate 5 Dutycycle0))
    (ioremap_ret e) (MAJOR (chrdev_dev e)) 0 b ∅ (loaded_log (chrdev_dev e))
    [ODuty; OTsk; OCdev] [chrdev_dev e] [chrdev_dev e].

Lemma pwm_init_loaded e b :
  kzalloc_duty e = true -> kzalloc_tsk e = true -> 0 <= chrdev_ret e ->
  kzalloc_cdev e = true -> 0 <= cdev_add_ret e ->
  pwm_init e (state0 b) = Ok (0, loaded e b).
Proof.
  intros E1 E2 E3 E4 E5. unfold pwm_init.
  rewrite E1, E2, E4, (proj2 (Z.ltb_ge _ _) E3), (proj2 (Z.ltb_ge _ _) E5). done.
Qed.

Lemma wf_loaded e b : wf (loaded e b).
Proof.
  split; sred.
  - unfold MAX_PWM_NUM. cbn. lia.
  - eexists. split_and!; [done|done|]. by repeat constructor.
  - eexists. split_and!; [done|done| |].
    + cbn. intros i Hi. lia.
    + cbn. intros p t Hp. by rewrite lookup_empty in Hp.
Qed.

Lemma kthread_stop_run s p t :
  threads s !! p = Some t -> kthread_stop p s = Ok (tt, set_threads (delete p (threads s)) s).
Proof. intros E. unfold kthread_stop. by rewrite Mbind_get, E. Qed.

Lemma stop_tasks_run k i s l :
  pwm_tsk s = Some l -> (i + k <= length l)%nat -> NoDup (take k (drop i l)) ->
  (forall p, p ∈ take k (drop i l) -> is_Some (threads s !! p)) ->
  exists th, stop_tasks k (Z.of_nat i) s = Ok (tt, set_threads th s) /\
    forall p, th !! p = if decide (p ∈ take k (drop i l)) then None else threads s !! p.
Proof.
  revert i s. induction k as [|k IH]; intros i s Hl Hk Hnd Hth.
  { exists (threads s). split; [by destruct s|]. done. }
  destruct (lookup_lt_is_Some_2 l i) as [p Hp]; [lia|].
  rewrite (drop_S l p i Hp) in Hnd, Hth |- *. cbn [take] in Hnd, Hth |- *.
  destruct (Hth p) as [t Ht]; [set_solver|]. apply NoDup_cons in Hnd as [Hnin Hnd].
  cbn [stop_tasks].
  rewrite (Mbind_run _ _ _ _ _ (tsk_get_run s l (Z.of_nat i) p Hl ltac:(lia) ltac:(by rewrite Nat2Z.id))).
  rewrite (Mbind_run _ _ _ _ _ (kthread_stop_run s p t Ht)).
  replace (Z.of_nat i + 1) with (Z.of_nat (S i)) by lia.
  destruct (IH (S i) (set_threads (delete p (threads s)) s)) as (th & -> & Hlook);
    [done|lia|done| |].
  { intros q Hq. sred. rewrite lookup_delete_ne by set_solver. apply Hth. set_solver. }
  eexists. split; [done|]. intros q. rewrite Hlook. sred.
  destruct (decide (q = p)) as [->|Hne].
  - rewrite lookup_delete_eq. rewrite (decide_True (P := p ∈ p :: _)) by set_solver.
    by case_decide.
  - rewrite lookup_delete_ne by done. repeat case_decide; set_solver.
Qed.

(** In a well-formed driver the tasks in use are distinct threads. *)
Lemma wf_tasks s : wf s -> exists l, pwm_tsk s = Some l /\ length l = 5%nat /\
  NoDup (take (Z.to_nat (pwm_pin_count s)) l) /\
  forall p, is_Some (threads s !! p) <-> p ∈ take (Z.to_nat (pwm_pin_count s)) l.
Proof.
  intros [Hc _ (l & Hl & Ll & Ht & Hth)]. exists l. split_and!; [done..| |].
  - apply NoDup_alt. intros i j p [Hi Hi']%lookup_take_Some [Hj Hj']%lookup_take_Some.
    destruct (Ht (Z.of_nat i)) as (p1 & t1 & E1 & T1 & P1); [lia|].
    destruct (Ht (Z.of_nat j)) as (p2 & t2 & E2 & T2 & P2); [lia|].
    rewrite Nat2Z.id in E1, E2. simplify_eq. lia.
  - intros p. split.
    + intros [t Hp]. destruct (Hth p t Hp) as (_ & Hpos & Hlp).
      apply list_elem_of_lookup. exists (Z.to_nat (th_pos t)).
      apply lookup_take_Some. split; [done|lia].
    + intros [i [Hi Hi']%lookup_take_Some]%list_elem_of_lookup.
      destruct (Ht (Z.of_nat i)) as (p1 & t1 & E1 & T1 & _); [lia|].
      rewrite Nat2Z.id in E1. simplify_eq. by eexists.
Qed.

(** [pwm_exit] of a well-formed driver stops every task. *)
Lemma pwm_exit_run s :
  wf s -> exists s', pwm_exit s = Ok (tt, s') /\ threads s' = ∅ /\
    k_regions s' = filter (fun d => d <> MKDEV (dev_major s) (dev_minor s)) (k_regions s) /\
    live s' = match cdevp s with Some _ => free1 OCdev (live s) | None => live s end /\
    k_cdevs s' = k_cdevs s /\ cdevp s' = cdevp s /\ duty_array s' = duty_array s.
Proof.
  intros Hwf. destruct (wf_tasks s Hwf) as (l & Hl & Ll & Hnd & Hth).
  pose proof (wf_count s Hwf) as Hc. unfold MAX_PWM_NUM in Hc.
  unfold pwm_exit. rewrite Mbind_printk, Mbind_gets. sred.
  destruct (stop_tasks_run (Z.to_nat (pwm_pin_count s)) 0
    (set_klog (klog s ++ [Printk "SoftPWM module unload." []]) s) l) as (th & Hst & Hlook);
    [done|lia|by rewrite drop_0|intros p; rewrite drop_0; apply Hth|].
  rewrite (Mbind_run _ _ _ _ _ Hst). clear Hst. sred.
  assert (th = ∅) as ->.
  { apply map_eq. intros p. rewrite Hlook, lookup_empty, drop_0. case_decide as Hin; [done|].
    sred. apply eq_None_not_Some. by rewrite Hth. }
  unfold gets, modify, mbind, M_bind, mret, M_ret. cbn. destruct (cdevp s) eqn:E;
    eexists; split_and!; try done.
Qed.
End lifecycle.

Definition ex_env : init_env := mkInitEnv (Some 0xF3200000) true true 0 (MKDEV 240 0) true 0.
Definition ex_limit : Z := 0xBF000000.

(** * Properties *)

Section properties.
Context {B : Type} `{RegBus B}.
Implicit Type s : state B.

(** C3: After [pwm_init] with every kernel service succeeding, any sequence of
    [pwm_ioctl] calls that return, whatever their command words, arguments and
    thread-creation outcomes, leaves the driver well formed: the channel count is
    at most five, each of the first [pwm_pin_count] entries has its own woken
    thread recorded in [pwm_tsk] with that entry's index, no other thread
    exists, and the table holds 32-bit values. *)
Theorem driver_invariant e (b : B) s0 s :
  kzalloc_duty e = true -> kzalloc_tsk e = true -> 0 <= chrdev_ret e ->
  kzalloc_cdev e = true -> 0 <= cdev_add_ret e ->
  pwm_init e (state0 b) = Ok (0, s0) -> rtc ioctl_step s0 s -> wf s.
Proof.
  intros E1 E2 E3 E4 E5 Hinit Hsteps.
  rewrite (pwm_init_loaded e b E1 E2 E3 E4 E5) in Hinit. injection Hinit as <-.
  apply (ioctl_steps_wf _ _ Hsteps), wf_loaded.
Qed.

(** C8: Module life cycle, with one caller at a time.  After a [pwm_init] all of
    whose services succeed and any sequence of [pwm_ioctl] calls, one after the other,
    that return, [pwm_exit] returns with every task stopped and the device number
    released.  It frees the [cdev] object while the kernel's character-device map still
    holds it (there is no [cdev_del]), and it never frees the duty table nor the task
    table.  (After calls that ran concurrently [pwm_exit] can fault: the property on
    two concurrent [PWM_INIT]s.) *)
Theorem module_lifecycle e (b : B) s0 s ma :
  kzalloc_duty e = true -> kzalloc_tsk e = true -> 0 <= chrdev_ret e ->
  kzalloc_cdev e = true -> 0 <= cdev_add_ret e -> chrdev_dev e = MKDEV ma 0 ->
  pwm_init e (state0 b) = Ok (0, s0) -> rtc ioctl_step s0 s ->
  exists s', pwm_exit s = Ok (tt, s') /\ threads s' = ∅ /\ k_regions s' = [] /\
    live s' = [ODuty; OTsk] /\ k_cdevs s' = [chrdev_dev e].
Proof.
  intros E1 E2 E3 E4 E5 Hdev Hinit Hsteps.
  rewrite (pwm_init_loaded e b E1 E2 E3 E4 E5) in Hinit. injection Hinit as <-.
  destruct (ioctl_steps_wf _ _ Hsteps (wf_loaded e b)) as
    [Hwf (Hc & _ & Hmj & Hmn & Hlv & Hrg & Hcd)].
  destruct (pwm_exit_run s Hwf) as (s' & Hx & Hth & Hr & Hl & Hk & _).
  exists s'. rewrite Hr, Hl, Hk, Hc, Hmj, Hmn, Hlv, Hrg, Hcd. cbn.
  assert (MKDEV (MAJOR (chrdev_dev e)) 0 = chrdev_dev e) as ->.
  { rewrite Hdev. unfold MKDEV, MAJOR, MINORBITS. rewrite !Z.lor_0_r.
    by rewrite Z.shiftr_shiftl_l, Z.shiftl_0_r by lia. }
  rewrite decide_False by tauto. split_and!; done.
Qed.

(** Outcomes of [pwm_init].  It reports only a failing
    [alloc_chrdev_region]; in every other case it returns 0, and when the [cdev]
    could not be allocated or added it returns 0 with no device behind the
    registered number: [cdevp] NULL, the number still held, nothing in the
    kernel's map.  Failed table allocations leave a NULL table. *)
Theorem pwm_init_outcomes e (b : B) :
  exists r s, pwm_init e (state0 b) = Ok (r, s) /\
    r = (if chrdev_ret e <? 0 then chrdev_ret e else 0) /\
    duty_array s = (if kzalloc_duty e then Some (replicate 5 Dutycycle0) else None) /\
    pwm_tsk s = (if kzalloc_tsk e then Some (replicate 5 0) else None) /\
    gpio s = ioremap_ret e /\ pwm_pin_count s = 0 /\
    k_regions s = (if chrdev_ret e <? 0 then [] else [chrdev_dev e]) /\
    let ok := negb (chrdev_ret e <? 0) && kzalloc_cdev e && negb (cdev_add_ret e <? 0) in
    k_cdevs s = (if ok then [chrdev_dev e] else []) /\
    cdevp s = (if ok then Some (mkCdev true true) else None) /\
    live s = (if kzalloc_duty e then [ODuty] else []) ++ (if kzalloc_tsk e then [OTsk] else []) ++
             (if ok then [OCdev] else []).
Proof.
  unfold pwm_init. destruct e as [im kd kt cr cd kc ca].
  cbn [ioremap_ret kzalloc_duty kzalloc_tsk chrdev_ret chrdev_dev kzalloc_cdev cdev_add_ret].
  destruct (cr <? 0), (ca <? 0), kd, kt, kc; eexists _, _; (split; [reflexivity|]);
    cbv zeta; split_and!; reflexivity.
Qed.

(** [PWM_INIT] on a driver with a free channel whose thread is created
    returns 0, appends one entry with the caller's pin, minimum and maximum and a
    duty cycle of 0, records and wakes a thread running on that entry, and changes
    no earlier entry, task or register. *)
Theorem PWM_INIT_appends lim um kc arg s t0 t1 t2 :
  wf s -> pwm_pin_count s < MAX_PWM_NUM -> access_ok lim arg 4 = true ->
  IS_ERR kc = false -> user_args um arg [t0; t1; t2] ->
  let n := Z.to_nat (pwm_pin_count s) in
  exists s' a a' l l' nm, pwm_ioctl lim um kc PWM_INIT arg s = Ok (0, s') /\
    pwm_pin_count s' = pwm_pin_count s + 1 /\
    duty_array s = Some a /\ duty_array s' = Some a' /\
    pwm_tsk s = Some l /\ pwm_tsk s' = Some l' /\
    a' !! n = Some (mkDutycycle t0 0 t1 t2) /\ l' !! n = Some kc /\
    (forall i, i <> n -> a' !! i = a !! i /\ l' !! i = l !! i) /\
    name !! n = Some nm /\
    threads s' = <[kc := mkKthread (pwm_pin_count s) nm true false AtTest]> (threads s) /\
    bus s' = bus s.
Proof.
  intros Hwf Hc Hacc Hk Hu n. destruct (wf_duty s Hwf) as (a & Ha & La & _).
  destruct (wf_tsk s Hwf) as (l & Hl & Ll & _). pose proof (wf_count s Hwf) as Hc'.
  unfold MAX_PWM_NUM in *.
  destruct (lookup_Z name (pwm_pin_count s)) as [nm Hn]; [cbn; lia|].
  rewrite pwm_ioctl_PWM_INIT, Hacc, (do_PWM_INIT_run um kc s a l nm arg t0 t1 t2) by (done || lia).
  exists (after_init kc a l nm t0 t1 t2 s), a, (<[n := mkDutycycle t0 0 t1 t2]> a), l,
    (<[n := kc]> l), nm.
  unfold after_init; sred. rewrite !list_lookup_insert_eq by (unfold n; lia).
  split_and!; try done. intros i Hi. by rewrite !list_lookup_insert_ne.
Qed.

(** When the thread cannot be created, [PWM_INIT] returns the error code of
    [kthread_create], leaves the count, the duty table and the threads as they
    were, clears the slot it had used in [pwm_tsk] and logs the failure. *)
Theorem PWM_INIT_thread_error lim um kc arg s err :
  wf s -> pwm_pin_count s < MAX_PWM_NUM -> access_ok lim arg 4 = true ->
  - MAX_ERRNO <= err < 0 -> kc = ERR_PTR err ->
  exists s' l, pwm_ioctl lim um kc PWM_INIT arg s = Ok (err, s') /\ pwm_tsk s = Some l /\
    pwm_tsk s' = Some (<[Z.to_nat (pwm_pin_count s) := 0]> l) /\
    pwm_pin_count s' = pwm_pin_count s /\ duty_array s' = duty_array s /\
    threads s' = threads s /\ bus s' = bus s /\
    klog s' = klog s ++ [Printk "failed to create kthread %d" [pwm_pin_count s]].
Proof.
  intros Hwf Hc Hacc Herr ->. destruct (wf_tsk s Hwf) as (l & Hl & Ll & _).
  pose proof (wf_count s Hwf) as Hc'. unfold MAX_PWM_NUM in *.
  destruct (lookup_Z name (pwm_pin_count s)) as [nm Hn]; [cbn; lia|].
  rewrite pwm_ioctl_PWM_INIT, Hacc, (do_PWM_INIT_run_err um _ s l nm arg)
    by (done || lia || by apply IS_ERR_ERR_PTR).
  rewrite PTR_ERR_ERR_PTR by (unfold is_s, MAX_ERRNO in *; lia).
  eexists _, l. unfold after_init_err; sred. split_and!; done.
Qed.

(** A sixth [PWM_INIT] is not refused: with five channels in use the handler
    indexes [name], [pwm_tsk] and [duty_array] past their ends. *)
Theorem PWM_INIT_sixth_channel lim um kc arg s :
  pwm_pin_count s = MAX_PWM_NUM -> access_ok lim arg 4 = true ->
  pwm_ioctl lim um kc PWM_INIT arg s = Fault OutOfBounds.
Proof.
  intros Hc Hacc. rewrite pwm_ioctl_PWM_INIT, Hacc. apply do_PWM_INIT_full.
  rewrite Hc. done.
Qed.

(** [PWM_SET] returns 0 in every case.  When some channel in use has the
    given pin, it changes the duty cycle of the first such channel and nothing
    else; when none has, it changes nothing but the log. *)
Theorem PWM_SET_first_match lim um kc arg s a t0 t1 :
  wf s -> duty_array s = Some a -> access_ok lim arg 4 = true -> user_args um arg [t0; t1] ->
  exists s', pwm_ioctl lim um kc PWM_SET arg s = Ok (0, s') /\
    ((exists i d, 0 <= i < pwm_pin_count s /\ a !! Z.to_nat i = Some d /\ pin d = t0 /\
        (forall j d', 0 <= j < i -> a !! Z.to_nat j = Some d' -> pin d' <> t0) /\
        s' = set_duty (Some (<[Z.to_nat i := set_duty_cycle t1 d]> a)) s) \/
     ((forall j d', 0 <= j < pwm_pin_count s -> a !! Z.to_nat j = Some d' -> pin d' <> t0) /\
        s' = set_klog (klog s ++ [Printk "wrong pin input for PWM_SET!" []]) s)).
Proof.
  intros Hwf Ha Hacc Hu. pose proof (wf_count s Hwf) as Hc. unfold MAX_PWM_NUM in Hc.
  destruct (wf_duty s Hwf) as (a0 & Ha0 & La & _). rewrite Ha in Ha0. injection Ha0 as <-.
  rewrite pwm_ioctl_PWM_SET, Hacc, (do_PWM_SET_run um s a arg t0 t1) by (done || lia).
  eexists. split; [done|]. unfold first_entry.
  destruct (list_find _ _) as [[j d]|] eqn:E.
  - left. apply list_find_Some in E as ([Hd Hj]%lookup_take_Some & Hp & Hmin).
    exists (Z.of_nat j), d. rewrite Nat2Z.id. split_and!; try done; try lia.
    intros j' d' Hj' Hd'. apply (Hmin (Z.to_nat j')); [|lia].
    apply lookup_take_Some. split; [done|lia].
  - right. split; [|done]. intros j d' Hj Hd'. apply list_find_None in E.
    rewrite Forall_forall in E. apply E, list_elem_of_lookup. exists (Z.to_nat j).
    apply lookup_take_Some. split; [done|lia].
Qed.

(** C11: Command filtering.  A word of another type or a number above 4 is
    refused with [-ENOTTY], a pointer that fails [access_ok] for the encoded size
    with [-EFAULT]; an accepted word that is none of the four commands does
    nothing and returns 0.  In all these cases the state is unchanged. *)
Theorem pwm_ioctl_filters lim um kc cmd arg s :
  (_IOC_TYPE cmd <> PWM_MAGIC_NUM \/ 4 < _IOC_NR cmd ->
    pwm_ioctl lim um kc cmd arg s = Ok (- ENOTTY, s)) /\
  (_IOC_TYPE cmd = PWM_MAGIC_NUM -> _IOC_NR cmd <= 4 -> _IOC_DIR cmd <> 0 ->
    access_ok lim arg (_IOC_SIZE cmd) = false ->
    pwm_ioctl lim um kc cmd arg s = Ok (- EFAULT, s)) /\
  (_IOC_TYPE cmd = PWM_MAGIC_NUM -> _IOC_NR cmd <= 4 ->
    _IOC_DIR cmd = 0 \/ access_ok lim arg (_IOC_SIZE cmd) = true ->
    cmd <> PIN_SET -> cmd <> GPIO_SET -> cmd <> PWM_INIT -> cmd <> PWM_SET ->
    pwm_ioctl lim um kc cmd arg s = Ok (0, s)).
Proof.
  assert (0 <= _IOC_DIR cmd < 4) as Hdir.
  { unfold _IOC_DIR. change _IOC_DIRMASK with (Z.ones 2). rewrite Z.land_ones by lia.
    by apply Z.mod_pos_bound. }
  assert (_IOC_DIR cmd = 0 \/ _IOC_DIR cmd = 1 \/ _IOC_DIR cmd = 2 \/ _IOC_DIR cmd = 3) as Hd by lia.
  unfold pwm_ioctl. split_and!.
  - intros [Ht|Hn].
    + by rewrite (proj2 (Z.eqb_neq _ _) Ht).
    + rewrite (proj2 (Z.ltb_lt _ _) Hn). by destruct (_ =? _).
  - intros Ht Hn Hd0 Ha. rewrite Ht, Z.eqb_refl, (proj2 (Z.ltb_ge _ _) Hn), Ha.
    by destruct Hd as [E|[E|[E|E]]]; rewrite E.
  - intros Ht Hn Ha E1 E2 E3 E4. rewrite Ht, Z.eqb_refl, (proj2 (Z.ltb_ge _ _) Hn).
    apply Z.eqb_neq in E1, E2, E3, E4. rewrite E1, E2, E3, E4.
    destruct Hd as [E|[E|[E|E]]], Ha as [Ha|Ha]; try (rewrite E in Ha; discriminate Ha);
      rewrite E, ?Ha; done.
Qed.
End properties.

Section gpio_properties.
Context {B : Type} `{PlainRegs B plain}.
Implicit Type s : state B.

(** [PIN_SET] on one of the 54 pins.  Type 0 makes the function code of
    that pin 0 (input).  Type 1 ors 1 into it: the pin becomes an output (code 1)
    only when it was an input or an output; from an alternate function it ends
    in another one.  Any other type changes nothing but the log.  No other pin's
    code, and nothing else in the driver, changes. *)
Theorem PIN_SET_direction lim um kc arg s g q ty :
  gpio s = Some g -> (forall k, 0 <= k < 6 -> plain (g + 4 * k)) ->
  access_ok lim arg 4 = true -> user_args um arg [q; ty] -> 0 <= q < 54 ->
  exists s', pwm_ioctl lim um kc PIN_SET arg s = Ok (0, s') /\
    if decide (ty = 0 \/ ty = 1) then
      exists b', s' = set_bus b' s /\ forall r, 0 <= r < 54 ->
        pin_fsel g b' r = if decide (r = q)
                          then (if ty =? 0 then 0 else Z.lor (pin_fsel g (bus s) q) 1)
                          else pin_fsel g (bus s) r
    else s' = set_klog (klog s ++ [Printk "wrong pin type input for PIN_SET!" []]) s.
Proof.
  intros Hg Hplain Hacc Hu Hq. rewrite pwm_ioctl_PIN_SET, Hacc. unfold do_PIN_SET.
  rewrite (Mbind_run _ _ _ _ _ (user_args_tmp um arg _ 1 ty s Hu eq_refl)).
  case_decide as Hty.
  - replace (negb (ty =? 0) && negb (ty =? 1)) with false by (by destruct Hty as [->| ->]).
    rewrite (Mbind_run _ _ _ _ _ (user_args_tmp um arg _ 0 q s Hu eq_refl)).
    destruct Hty as [->| ->]; cbn [Z.eqb Pos.eqb]; rewrite Mbind_unfold; unfold with_gpio; rewrite Hg.
    + destruct (gpio_input_total g q (bus s)) as [b' Hb]; [lia|]. rewrite Hb.
      eexists. split; [done|]. exists b'. split; [done|]. intros r Hr.
      by rewrite (gpio_input_fsel g Hplain q (bus s) b' r) by (done || lia).
    + destruct (gpio_output_total g q (bus s)) as [b' Hb]; [lia|]. rewrite Hb.
      eexists. split; [done|]. exists b'. split; [done|]. intros r Hr.
      rewrite (gpio_output_fsel g Hplain q (bus s) b' r) by (done || lia).
      by case_decide; subst.
  - replace (negb (ty =? 0) && negb (ty =? 1)) with true; [by eexists|].
    symmetry. rewrite andb_true_iff, !negb_true_iff, !Z.eqb_neq. lia.
Qed.

(** [GPIO_SET] of a pin 0..31 writes exactly that pin's bit, to the set
    register (word 7) for status 1 and to the clear register (word 10) for status
    0, and changes nothing else.  Pins 32 and up, though the chip has 54, shift by
    more than the word holds. *)
Theorem GPIO_SET_bit lim um kc arg s g q st :
  gpio s = Some g -> access_ok lim arg 4 = true -> user_args um arg [q; st] ->
  st = 0 \/ st = 1 ->
  pwm_ioctl lim um kc GPIO_SET arg s =
    if decide (0 <= q < 32)
    then Ok (0, set_bus (bus_write (g + (if st =? 0 then 40 else 28)) (2 ^ q) (bus s)) s)
    else Fault ShiftRange.
Proof.
  intros Hg Hacc Hu Hst. rewrite pwm_ioctl_GPIO_SET, Hacc. unfold do_GPIO_SET.
  rewrite (Mbind_run _ _ _ _ _ (user_args_tmp um arg _ 1 st s Hu eq_refl)).
  replace (negb (st =? 0) && negb (st =? 1)) with false by (by destruct Hst as [->| ->]).
  rewrite (Mbind_run _ _ _ _ _ (user_args_tmp um arg _ 0 q s Hu eq_refl)).
  destruct Hst as [->| ->]; cbn [Z.eqb Pos.eqb]; rewrite Mbind_unfold; unfold with_gpio; rewrite Hg;
    (case_decide; [rewrite ?gpio_clr_run, ?gpio_set_run by done; done
                  | rewrite ?gpio_clr_fault, ?gpio_set_fault by done; done]).
Qed.
End gpio_properties.

(** C9: Sleep times of a period.  For a range of 1 to 214748 and a duty cycle
    within it, both times are computed without overflow, the high time is
    [floor(10000 * duty / range)] microseconds, and the two add up to the 10000
    microseconds of a 100 Hz period, or to one less when [range] does not divide
    [10000 * duty].  With the next larger range and full duty the product
    overflows and the high time is negative. *)
Theorem sleep_times_sum d :
  let r := dmax d - dmin d in
  0 < r <= 214748 -> 0 <= duty_cycle d <= r ->
  exists h l, HIGH_TIME d = Ok h /\ LOW_TIME d = Ok l /\
    h = 10000 * duty_cycle d / r /\ 0 <= h <= 10000 /\ 0 <= l <= 10000 /\
    h + l = 10000 - (if decide ((10000 * duty_cycle d) mod r = 0) then 0 else 1) /\
    HIGH_TIME (mkDutycycle (pin d) 214749 0 214749) = Ok (-9999).
Proof.
  cbn zeta. intros Hr Hd.
  rewrite HIGH_TIME_run, LOW_TIME_run by lia.
  eexists _, _. rewrite quot_div by lia.
  pose proof (split_period 10000 (10000 * duty_cycle d) (dmax d - dmin d) ltac:(lia)) as Hs.
  replace (10000 * (dmax d - dmin d) - 10000 * duty_cycle d)
    with (10000 * (dmax d - dmin d - duty_cycle d)) in Hs by lia.
  assert (forall x, 0 <= x <= dmax d - dmin d -> 0 <= 10000 * x / (dmax d - dmin d) <= 10000) as Hq.
  { intros x Hx. split; [apply Z.div_pos; lia | apply Z.div_le_upper_bound; lia]. }
  split_and!; try done; try apply Hq; lia || reflexivity.
Qed.

(** A duty cycle above the range is accepted by [PWM_SET], and makes the
    task sleep at least 2^31 microseconds (35 minutes) in the low phase: the
    negative time is passed to [usleep_range] as an unsigned number. *)
Theorem duty_above_range lim um kc arg t0 t1 {B : Type} `{RegBus B} (s : state B) a d :
  wf s -> duty_array s = Some a -> 0 < pwm_pin_count s -> a !! 0%nat = Some d -> pin d = t0 ->
  access_ok lim arg 4 = true -> user_args um arg [t0; t1] ->
  0 < dmax d - dmin d <= 10000 -> dmax d - dmin d < t1 -> t1 <= 200000 ->
  exists s' d' l, pwm_ioctl lim um kc PWM_SET arg s = Ok (0, s') /\
    duty_get 0 s' = Ok (d', s') /\ LOW_TIME d' = Ok l /\ l < 0 /\ 2 ^ 31 <= u32 l.
Proof.
  intros Hwf Ha Hc Hd Hp Hacc Hu Hr Ht Hb. pose proof (wf_count s Hwf) as Hc'.
  unfold MAX_PWM_NUM in Hc'. destruct (wf_duty s Hwf) as (a0 & Ha0 & La & _).
  rewrite Ha in Ha0. injection Ha0 as <-.
  rewrite pwm_ioctl_PWM_SET, Hacc, (do_PWM_SET_run um s a arg t0 t1) by (done || lia).
  assert (first_entry t0 (pwm_pin_count s) a = Some (0%nat, d)) as ->.
  { unfold first_entry. apply list_find_Some. split_and!.
    - apply lookup_take_Some. split; [done|lia].
    - done.
    - intros j y _ Hj. lia. }
  assert (Z.quot (10000 * (dmax d - dmin d - t1)) (dmax d - dmin d) < 0 /\
          - 2 ^ 31 <= Z.quot (10000 * (dmax d - dmin d - t1)) (dmax d - dmin d)) as [Hneg Hlow].
  { set (r := dmax d - dmin d) in *.
    replace (10000 * (r - t1)) with (- (10000 * (t1 - r))) by lia.
    rewrite Z.quot_opp_l, quot_div by lia.
    assert (1 <= 10000 * (t1 - r) / r) by (apply Z.div_le_lower_bound; lia).
    assert (10000 * (t1 - r) / r <= 10000 * (t1 - r))
      by (apply Z.div_le_upper_bound; nia). lia. }
  eexists _, (set_duty_cycle t1 d), _. split; [done|].
  rewrite (duty_get_run _ (<[0%nat := set_duty_cycle t1 d]> a) 0 (set_duty_cycle t1 d));
    [|done|lia|apply list_lookup_insert_eq; lia].
  split; [done|]. rewrite LOW_TIME_run by (cbn [dmax dmin duty_cycle set_duty_cycle]; lia).
  cbn [dmax dmin duty_cycle set_duty_cycle]. split; [done|]. split; [done|].
  rewrite u32_neg by lia. lia.
Qed.

(** * Concrete runs *)

Definition ex_loaded : state LogBus := loaded ex_env LogBus0.
Abbreviation ex_call kc cmd l := (pwm_ioctl ex_limit (array_at 4096 l) kc cmd 4096).
Definition ex_run {A} (m : M (state LogBus) A) (s : state LogBus) : state LogBus :=
  match m s with Ok (_, s') => s' | Fault _ => s end.
(** One channel, on pin 16; and all five. *)
Definition ex_one : state LogBus := ex_run (ex_call 0x80001000 PWM_INIT [16; 0; 100]) ex_loaded.
Definition ex_five : state LogBus :=
  ex_run (ex_call 0x80005000 PWM_INIT [20; 0; 100]) (ex_run (ex_call 0x80004000 PWM_INIT [19; 0; 100])
    (ex_run (ex_call 0x80003000 PWM_INIT [18; 0; 100])
      (ex_run (ex_call 0x80002000 PWM_INIT [17; 0; 100]) ex_one))).

Ltac ex_side := lazymatch goal with
  | |- @eq _ _ _ => ex_eval
  | |- Z.le _ _ => first [lia | vm_compute; discriminate]
  | |- Z.lt _ _ => first [lia | ex_eval]
  | |- _ /\ _ => cbn [dmax dmin duty_cycle]; lia
  | |- _ \/ _ => lia
  | |- user_args _ _ _ => ex_args
  | |- _ => idtac end.

Lemma ex_step_one : ioctl_step ex_loaded ex_one.
Proof.
  apply (ioctl_call _ ex_limit (array_at 4096 [16; 0; 100]) 0x80001000 PWM_INIT 4096 0).
  - intros a v. apply array_at_ints. ex_ints.
  - reflexivity.
  - vm_compute. reflexivity.
Qed.

Lemma ex_one_wf : wf ex_one.
Proof. apply (ioctl_steps_wf ex_loaded); [apply rtc_once, ex_step_one | apply wf_loaded]. Qed.

Lemma driver_invariant_witness : wf ex_one.
Proof.
  apply (driver_invariant ex_env LogBus0 ex_loaded ex_one); ex_side.
  apply rtc_once, ex_step_one.
Defined.

Lemma module_lifecycle_witness :
  exists s', pwm_exit ex_one = Ok (tt, s') /\ threads s' = ∅ /\ k_regions s' = [] /\
    live s' = [ODuty; OTsk] /\ k_cdevs s' = [MKDEV 240 0].
Proof.
  apply (module_lifecycle ex_env LogBus0 ex_loaded ex_one 240); ex_side.
  apply rtc_once, ex_step_one.
Defined.

Lemma PWM_INIT_appends_witness :
  let n := Z.to_nat (pwm_pin_count ex_one) in
  exists s' a a' l l' nm,
    pwm_ioctl ex_limit (array_at 4096 [21; 0; 10000]) 0x80002000 PWM_INIT 4096 ex_one = Ok (0, s') /\
    pwm_pin_count s' = pwm_pin_count ex_one + 1 /\
    duty_array ex_one = Some a /\ duty_array s' = Some a' /\
    pwm_tsk ex_one = Some l /\ pwm_tsk s' = Some l' /\
    a' !! n = Some (mkDutycycle 21 0 0 10000) /\ l' !! n = Some 0x80002000 /\
    (forall i, i <> n -> a' !! i = a !! i /\ l' !! i = l !! i) /\
    name !! n = Some nm /\
    threads s' = <[0x80002000 := mkKthread (pwm_pin_count ex_one) nm true false AtTest]> (threads ex_one) /\
    bus s' = bus ex_one.
Proof.
  apply (PWM_INIT_appends ex_limit (array_at 4096 [21; 0; 10000]) 0x80002000 4096 ex_one 21 0 10000);
    [apply ex_one_wf | ex_eval.. | ex_args].
Defined.

Lemma PWM_INIT_thread_error_witness :
  exists s' l, pwm_ioctl ex_limit (array_at 4096 [21; 0; 10000]) (ERR_PTR (- ENOMEM)) PWM_INIT 4096 ex_one
      = Ok (- ENOMEM, s') /\ pwm_tsk ex_one = Some l /\
    pwm_tsk s' = Some (<[Z.to_nat (pwm_pin_count ex_one) := 0]> l) /\
    pwm_pin_count s' = pwm_pin_count ex_one /\ duty_array s' = duty_array ex_one /\
    threads s' = threads ex_one /\ bus s' = bus ex_one /\
    klog s' = klog ex_one ++ [Printk "failed to create kthread %d" [pwm_pin_count ex_one]].
Proof.
  apply PWM_INIT_thread_error; [apply ex_one_wf | ex_eval | ex_eval | | ex_eval].
  unfold MAX_ERRNO, ENOMEM. lia.
Defined.

Lemma PWM_INIT_sixth_channel_witness :
  pwm_pin_count ex_five = 5 /\ ex_call 0x80006000 PWM_INIT [22; 0; 100] ex_five = Fault OutOfBounds.
Proof.
  split; [ex_eval|].
  apply (PWM_INIT_sixth_channel ex_limit (array_at 4096 [22; 0; 100]) 0x80006000 4096 ex_five);
    ex_eval.
Defined.

Definition ex_table : list Dutycycle := mkDutycycle 16 0 0 100 :: replicate 4 Dutycycle0.

Lemma PWM_SET_first_match_witness :
  exists s', ex_call 0 PWM_SET [16; 50] ex_one = Ok (0, s') /\
    ((exists i d, 0 <= i < pwm_pin_count ex_one /\ ex_table !! Z.to_nat i = Some d /\ pin d = 16 /\
        (forall j d', 0 <= j < i -> ex_table !! Z.to_nat j = Some d' -> pin d' <> 16) /\
        s' = set_duty (Some (<[Z.to_nat i := set_duty_cycle 50 d]> ex_table)) ex_one) \/
     ((forall j d', 0 <= j < pwm_pin_count ex_one -> ex_table !! Z.to_nat j = Some d' -> pin d' <> 16) /\
        s' = set_klog (klog ex_one ++ [Printk "wrong pin input for PWM_SET!" []]) ex_one)).
Proof.
  apply (PWM_SET_first_match ex_limit (array_at 4096 [16; 50]) 0 4096 ex_one ex_table 16 50);
    [apply ex_one_wf | ex_eval | ex_eval | ex_args].
Defined.

Lemma PIN_SET_direction_witness :
  exists s', ex_call 0 PIN_SET [21; 1] ex_one = Ok (0, s') /\
    exists b', s' = set_bus b' ex_one /\ forall r, 0 <= r < 54 ->
      pin_fsel 0xF3200000 b' r = if decide (r = 21)
                        then (if 1 =? 0 then 0 else Z.lor (pin_fsel 0xF3200000 (bus ex_one) 21) 1)
                        else pin_fsel 0xF3200000 (bus ex_one) r.
Proof.
  destruct (PIN_SET_direction (plain := fun _ => True) ex_limit (array_at 4096 [21; 1]) 0 4096 ex_one
    0xF3200000 21 1) as (s' & Hr & Hs);
    [ex_eval | done | ex_eval | ex_args | lia |].
  rewrite decide_True in Hs by lia. exists s'. split; [exact Hr | exact Hs].
Defined.

Lemma GPIO_SET_bit_witness :
  ex_call 0 GPIO_SET [21; 1] ex_one =
    Ok (0, set_bus (bus_write (0xF3200000 + 28) (2 ^ 21) (bus ex_one)) ex_one) /\
  ex_call 0 GPIO_SET [40; 1] ex_one = Fault ShiftRange.
Proof.
  assert (gpio ex_one = Some 0xF3200000) as Hg by (ex_eval).
  split.
  - rewrite (GPIO_SET_bit ex_limit (array_at 4096 [21; 1]) 0 4096 ex_one 0xF3200000 21 1 Hg)
      by ex_side.
    rewrite decide_True by lia. reflexivity.
  - rewrite (GPIO_SET_bit ex_limit (array_at 4096 [40; 1]) 0 4096 ex_one 0xF3200000 40 1 Hg)
      by ex_side.
    rewrite decide_False by lia. reflexivity.
Defined.

Lemma sleep_times_sum_witness :
  exists h l, HIGH_TIME (mkDutycycle 16 1 0 3) = Ok h /\ LOW_TIME (mkDutycycle 16 1 0 3) = Ok l /\
    h = 10000 * 1 / (3 - 0) /\ 0 <= h <= 10000 /\ 0 <= l <= 10000 /\
    h + l = 10000 - (if decide ((10000 * 1) mod (3 - 0) = 0) then 0 else 1) /\
    HIGH_TIME (mkDutycycle 16 214749 0 214749) = Ok (-9999).
Proof. apply (sleep_times_sum (mkDutycycle 16 1 0 3)); cbn [dmax dmin duty_cycle]; lia. Defined.

Lemma duty_above_range_witness :
  exists s' d' l, ex_call 0 PWM_SET [16; 150] ex_one = Ok (0, s') /\
    duty_get 0 s' = Ok (d', s') /\ LOW_TIME d' = Ok l /\ l < 0 /\ 2 ^ 31 <= u32 l.
Proof.
  apply (duty_above_range ex_limit (array_at 4096 [16; 150]) 0 4096 16 150 ex_one ex_table
           (mkDutycycle 16 0 0 100)); ex_side.
  apply ex_one_wf.
Defined.
