(* ===== verification/SoftPwmTasks.v ===== *)
(** * The PWM tasks of softPWM/main.c, and the handler run concurrently

    [task_step] is one statement of [pwm_task] in a given thread; [good_step]
    interleaves the threads with complete ioctl calls.  [init_step] is one
    statement of the [PWM_INIT] branch: the handler takes no lock
    ([unlocked_ioctl]), so two callers interleave at this grain. *)

From S2P Require Import Prelude Ioctl Mmio PwmGpio PwmCommon SoftPwm.
Open Scope Z_scope.

(** What a statement of a task does to the outside. *)
Inductive label :=
  | Tau
  | SetPin (pin : Z)
  | ClrPin (pin : Z)
  | Sleep (lo hi : Z)      (* usleep_range(lo, hi), in microseconds *)
  | Exit.

Section tasks.
Context {B : Type} `{RegBus B}.
Local Abbreviation D := (M (state B)).

Definition thread_get (p : Z) : D kthread :=
  s ← get; lift (need (threads s !! p) UseAfterFree).
Definition thread_pc (p : Z) (pc : task_pc) : D unit :=
  t ← thread_get p;
  modify (fun s => set_threads (<[p := set_pc pc t]> (threads s)) s).

(** One statement of [pwm_task], [pos] being the thread's argument. *)
Definition task_step (p : Z) : D label :=
  t ← thread_get p;
  match th_pc t with
  | AtTest =>
      if th_stop t then thread_pc p Exited;; mret Exit
      else thread_pc p AtSet;; mret Tau
  | AtSet =>
      d ← duty_get (th_pos t);
      with_gpio (fun g => gpio_set g (pin d));;
      thread_pc p AtHigh;; mret (SetPin (pin d))
  | AtHigh =>
      d ← duty_get (th_pos t);
      h ← lift (HIGH_TIME d);
      thread_pc p (AtHigh2 h);; mret Tau
  | AtHigh2 lo =>
      d ← duty_get (th_pos t);
      h ← lift (HIGH_TIME d);
      thread_pc p AtClr;; mret (Sleep (u32 lo) (u32 h))
  | AtClr =>
      d ← duty_get (th_pos t);
      with_gpio (fun g => gpio_clr g (pin d));;
      thread_pc p AtLow;; mret (ClrPin (pin d))
  | AtLow =>
      d ← duty_get (th_pos t);
      l ← lift (LOW_TIME d);
      thread_pc p (AtLow2 l);; mret Tau
  | AtLow2 lo =>
      d ← duty_get (th_pos t);
      l ← lift (LOW_TIME d);
      thread_pc p AtTest;; mret (Sleep (u32 lo) (u32 l))
  | Exited => mret Tau
  end.

(** [n] statements of one task. *)
Fixpoint run_task (n : nat) (p : Z) : D (list label) :=
  match n with
  | O => mret []
  | S n' => l ← task_step p; ls ← run_task n' p; mret (l :: ls)
  end.

(** ** Tasks beside ioctl calls *)

(** A thread runs once woken and until it exits. *)
Definition runnable (s : state B) (p : Z) : Prop :=
  exists t, threads s !! p = Some t /\ th_woken t = true /\ th_pc t <> Exited.

(** One ioctl call of a client: the user's [int]s are 32-bit values and a
    created thread is a new one. *)
Definition client_call (s : state B) (lim : Z) (um : Z -> option Z) (kc : Z) : Prop :=
  (forall a v, um a = Some v -> is_s 32 v) /\ (IS_ERR kc = false -> threads s !! kc = None).

(** ** PWM_INIT statement by statement *)

Inductive init_pc :=
  | I_create | I_store (p : Z) | I_check
  | I_err_print | I_err_code | I_err_null (e : Z)
  | I_pin | I_min | I_max | I_duty | I_print | I_wake | I_count | I_count_store (n : Z)
  | I_return (r : Z).

Section init.
Variables (um : Z -> option Z) (kc arg : Z).

Definition init_step (pc : init_pc) : D init_pc :=
  match pc with
  | I_create =>
      n ← gets pwm_pin_count; nm ← lift (aread name n);
      p ← kthread_create kc n nm; mret (I_store p)
  | I_store p => n ← gets pwm_pin_count; tsk_put n p;; mret I_check
  | I_check =>
      n ← gets pwm_pin_count; q ← tsk_get n;
      mret (if IS_ERR q then I_err_print else I_pin)
  | I_err_print =>
      n ← gets pwm_pin_count; printk "failed to create kthread %d" [n];; mret I_err_code
  | I_err_code => n ← gets pwm_pin_count; q ← tsk_get n; mret (I_err_null (PTR_ERR q))
  | I_err_null e => n ← gets pwm_pin_count; tsk_put n 0;; mret (I_return e)
  | I_pin => t0 ← tmp um arg 0; n ← gets pwm_pin_count; duty_put n (set_pin t0);; mret I_min
  | I_min => t1 ← tmp um arg 1; n ← gets pwm_pin_count; duty_put n (set_dmin t1);; mret I_max
  | I_max => t2 ← tmp um arg 2; n ← gets pwm_pin_count; duty_put n (set_dmax t2);; mret I_duty
  | I_duty => n ← gets pwm_pin_count; duty_put n (set_duty_cycle 0);; mret I_print
  | I_print =>
      n ← gets pwm_pin_count; d ← duty_get n;
      printk "%d, %d, %d, %d" [pin d; dmin d; dmax d; duty_cycle d];; mret I_wake
  | I_wake => n ← gets pwm_pin_count; q ← tsk_get n; wake_up_process q;; mret I_count
  | I_count => n ← gets pwm_pin_count; mret (I_count_store n)
  | I_count_store n => modify (set_count (n +i 1)%cint);; mret (I_return 0)
  | I_return r => mret (I_return r)
  end.

Fixpoint run_init (fuel : nat) (pc : init_pc) : D init_pc :=
  match fuel with
  | O => mret pc
  | S f => pc' ← init_step pc; run_init f pc'
  end.
End init.


End tasks.

(** ** Lemmas on single statements *)

Section step_lemmas.
Context {B : Type} `{RegBus B}.
Implicit Type s : state B.

Lemma thread_get_run s p t : threads s !! p = Some t -> thread_get p s = Ok (t, s).
Proof. intros E. unfold thread_get. by rewrite Mbind_get, E. Qed.

Lemma thread_pc_run s p t pc :
  threads s !! p = Some t ->
  thread_pc p pc s = Ok (tt, set_threads (<[p := set_pc pc t]> (threads s)) s).
Proof.
  intros E. unfold thread_pc. by rewrite (Mbind_run _ _ _ _ _ (thread_get_run s p t E)).
Qed.
End step_lemmas.

(** ** Safety of the running system *)

(** An entry the task can run on: a pin of the first bank and a positive range. *)
Definition safe_entry (d : Dutycycle) : Prop := 0 <= pin d < 32 /\ 0 < PWM_RANGE d.

Section safety.
Context {B : Type} `{RegBus B}.
Implicit Type s : state B.

(** [wf], the registers mapped, and every entry in use safe. *)
Record safe s : Prop := {
  safe_wf : wf s;
  safe_gpio : exists g, gpio s = Some g;
  safe_entries : forall a i d, duty_array s = Some a ->
    0 <= i < pwm_pin_count s -> a !! Z.to_nat i = Some d -> safe_entry d;
}.

Lemma wf_thread_pc s p t pc :
  wf s -> threads s !! p = Some t ->
  wf (set_threads (<[p := set_pc pc t]> (threads s)) s).
Proof.
  intros [Hc Hd (l & Hl & Ll & Ht & Hth)] Hp. split; sred; try done.
  exists l. split_and!; [done..| |].
  - intros i Hi. destruct (Ht i Hi) as (q & tq & Hq & Htq & Hpos).
    destruct (decide (q = p)) as [->|Hne].
    + exists p, (set_pc pc t). rewrite lookup_insert_eq. rewrite Hp in Htq. by injection Htq as ->.
    + exists q, tq. by rewrite lookup_insert_ne.
  - intros q tq. destruct (decide (q = p)) as [->|Hne].
    + rewrite lookup_insert_eq. intros [= <-]. exact (Hth p t Hp).
    + rewrite lookup_insert_ne by done. apply Hth.
Qed.

Lemma safe_thread_pc s p t pc :
  safe s -> threads s !! p = Some t ->
  safe (set_threads (<[p := set_pc pc t]> (threads s)) s).
Proof. intros [Hwf Hg He] Hp. split; [by apply wf_thread_pc | done | done]. Qed.

Lemma safe_bus s b : safe s -> safe (set_bus b s).
Proof. intros [[? ? ?] ? ?]. by split; [split|..]. Qed.

(** A runnable task of a safe system has a safe entry. *)
Lemma safe_task_entry s p t :
  safe s -> threads s !! p = Some t ->
  exists d, duty_get (th_pos t) s = Ok (d, s) /\ safe_entry d /\
            is_s 32 (pin d) /\ is_s 32 (duty_cycle d) /\ is_s 32 (dmin d) /\ is_s 32 (dmax d).
Proof.
  intros [Hwf Hg He] Hp. destruct (wf_tsk s Hwf) as (l & _ & _ & _ & Hth).
  destruct (Hth p t Hp) as (_ & Hpos & _).
  destruct (wf_duty s Hwf) as (a & Ha & La & Hall).
  pose proof (wf_count s Hwf) as Hc. unfold MAX_PWM_NUM in Hc.
  destruct (lookup_Z a (th_pos t)) as [d Hd]; [lia|]. exists d.
  rewrite (duty_get_run s a _ d) by (done || lia).
  split_and!; [done|by eapply He|..]; apply (Forall_lookup_1 _ _ _ _ Hall Hd).
Qed.

Lemma safe_times d : safe_entry d -> (exists h, HIGH_TIME d = Ok h) /\ (exists l, LOW_TIME d = Ok l).
Proof. intros [_ Hr]. unfold HIGH_TIME, LOW_TIME. rewrite !div32_ok by lia. eauto. Qed.

Lemma with_gpio_set_run s g q :
  gpio s = Some g -> 0 <= q < 32 ->
  with_gpio (fun g => gpio_set g q) s = Ok (tt, set_bus (bus_write (g + 28) (2 ^ q) (bus s)) s).
Proof. intros Hg Hq. unfold with_gpio. by rewrite Hg, gpio_set_run. Qed.

Lemma with_gpio_clr_run s g q :
  gpio s = Some g -> 0 <= q < 32 ->
  with_gpio (fun g => gpio_clr g q) s = Ok (tt, set_bus (bus_write (g + 40) (2 ^ q) (bus s)) s).
Proof. intros Hg Hq. unfold with_gpio. by rewrite Hg, gpio_clr_run. Qed.

(** A statement of a runnable task succeeds and stays in a safe system. *)
Lemma task_step_safe s p :
  safe s -> runnable s p -> exists l s', task_step p s = Ok (l, s') /\ safe s'.
Proof.
  intros Hs (t & Hp & Hw & Hpc). unfold task_step.
  rewrite (Mbind_run _ _ _ _ _ (thread_get_run s p t Hp)).
  destruct (safe_task_entry s p t Hs Hp) as (d & Hd & He & _).
  destruct (safe_times d He) as [[h Hh] [l Hl]]. destruct (safe_gpio s Hs) as [g Hg].
  destruct He as [Hpin _].
  destruct (th_pc t) eqn:Epc; rewrite ?Mif;
    rewrite ?(Mbind_run _ _ _ _ _ Hd), ?Hh, ?Hl, ?Mbind_lift; try done.
  all: rewrite ?(Mbind_run _ _ _ _ _ (with_gpio_set_run s g _ Hg Hpin)),
               ?(Mbind_run _ _ _ _ _ (with_gpio_clr_run s g _ Hg Hpin)).
  all: try match goal with |- context [th_stop ?u] => destruct (th_stop u) end.
  all: erewrite Mbind_run by (eapply thread_pc_run; exact Hp);
    eexists _, _; split; [reflexivity|];
    by apply safe_thread_pc; [try apply safe_bus | exact Hp].
Qed.

(** A call that gives [PWM_INIT] only safe channels. *)
Definition safe_call (cmd arg : Z) (um : Z -> option Z) : Prop :=
  cmd = PWM_INIT -> forall t0 t1 t2, user_args um arg [t0; t1; t2] ->
    0 <= t0 < 32 /\ 0 < (t2 -i t1)%cint.

Lemma pwm_ioctl_safe lim um kc cmd arg s r s' :
  client_call s lim um kc -> safe_call cmd arg um -> safe s ->
  pwm_ioctl lim um kc cmd arg s = Ok (r, s') -> safe s'.
Proof.
  intros [Hum Hk] Hsc [Hwf Hg He] Hr.
  assert (wf s') as Hwf' by (by eapply pwm_ioctl_preserves).
  assert (same_tables s s' -> safe s') as Hsame.
  { intros (b & m & ->). by split. }
  destruct (decide (cmd = PWM_INIT)) as [->|Hne].
  - rewrite pwm_ioctl_PWM_INIT in Hr. destruct (access_ok lim arg 4); [|injection Hr as <- <-; apply Hsame, same_tables_refl].
    apply do_PWM_INIT_inv in Hr as (a & l & nm & Ha & Hl & Hn & Hc & Hr); [|done].
    destruct Hr as [(_ & _ & ->)|(_ & _ & t0 & t1 & t2 & Hu & ->)]; (split; [done|done|]).
    + intros a' i d. apply He.
    + specialize (Hsc eq_refl t0 t1 t2 Hu). unfold after_init; sred.
      intros a' i d [= <-] Hi Hd. destruct (wf_duty s Hwf) as (a' & Ha' & La & _).
      rewrite Ha in Ha'. injection Ha' as <-.
      destruct (decide (i = pwm_pin_count s)) as [->|Hni].
      * rewrite list_lookup_insert_eq in Hd by lia. by injection Hd as <-.
      * rewrite list_lookup_insert_ne in Hd by lia. apply (He a i d Ha); [lia|done].
  - apply pwm_ioctl_dispatch in Hr as [[-> _]|[[_ Hr]|[[_ Hr]|[[Hcmd _]|[_ Hr]]]]]; [done|..].
    + by apply Hsame, (do_PIN_SET_inv um arg s r s').
    + by apply Hsame, (do_GPIO_SET_inv um arg s r s').
    + done.
    + apply do_PWM_SET_inv in Hr as (_ & [Hs|(a & j & d & t1 & Ha & Hd & Ht & ->)]); [by apply Hsame|].
      split; [done|done|]. sred. intros a' i d' [= <-] Hi Hd'.
      destruct (decide (Z.to_nat i = Z.to_nat j)) as [E|Hni].
      * rewrite E, list_lookup_insert_eq in Hd' by (by eapply lookup_lt_Some). injection Hd' as <-.
        rewrite <- E in Hd. exact (He a i d Ha Hi Hd).
      * rewrite list_lookup_insert_ne in Hd' by done. by apply (He a i d').
Qed.
End safety.

(** ** One PWM period *)

Section period.
Context {B : Type} `{RegBus B}.
Implicit Type s : state B.

Definition pc_to (p : Z) (t : kthread) (pc : task_pc) s : state B :=
  set_threads (<[p := set_pc pc t]> (threads s)) s.

(** What a task needs to run: its thread, its entry and the mapped registers. *)
Record task_at s (p : Z) (t : kthread) (d : Dutycycle) (g h l : Z) : Prop := {
  at_thread : threads s !! p = Some t;
  at_entry : exists a, duty_array s = Some a /\ a !! Z.to_nat (th_pos t) = Some d;
  at_pos : 0 <= th_pos t;
  at_pin : 0 <= pin d < 32;
  at_gpio : gpio s = Some g;
  at_high : HIGH_TIME d = Ok h;
  at_low : LOW_TIME d = Ok l;
}.

Definition task_next s (p : Z) (t : kthread) (d : Dutycycle) (g h l : Z) : label * state B :=
  match th_pc t with
  | AtTest => if th_stop t then (Exit, pc_to p t Exited s) else (Tau, pc_to p t AtSet s)
  | AtSet => (SetPin (pin d), pc_to p t AtHigh (set_bus (bus_write (g + 28) (2 ^ pin d) (bus s)) s))
  | AtHigh => (Tau, pc_to p t (AtHigh2 h) s)
  | AtHigh2 lo => (Sleep (u32 lo) (u32 h), pc_to p t AtClr s)
  | AtClr => (ClrPin (pin d), pc_to p t AtLow (set_bus (bus_write (g + 40) (2 ^ pin d) (bus s)) s))
  | AtLow => (Tau, pc_to p t (AtLow2 l) s)
  | AtLow2 lo => (Sleep (u32 lo) (u32 l), pc_to p t AtTest s)
  | Exited => (Tau, s)
  end.

Lemma task_step_run s p t d g h l :
  task_at s p t d g h l -> task_step p s = Ok (task_next s p t d g h l).
Proof.
  intros [Hp (a & Ha & Hd) Hpos Hpin Hg Hh Hl]. unfold task_step, task_next.
  rewrite (Mbind_run _ _ _ _ _ (thread_get_run s p t Hp)).
  pose proof (duty_get_run s a _ d Ha Hpos Hd) as Hget.
  destruct (th_pc t); rewrite ?(Mbind_run _ _ _ _ _ Hget), ?Hh, ?Hl, ?Mbind_lift;
    try rewrite (Mbind_run _ _ _ _ _ (with_gpio_set_run s g _ Hg Hpin));
    try rewrite (Mbind_run _ _ _ _ _ (with_gpio_clr_run s g _ Hg Hpin));
    try destruct (th_stop t); try (by rewrite (Mbind_run _ _ _ _ _ (thread_pc_run s p t _ Hp)));
    try done;
    by erewrite Mbind_run by (eapply thread_pc_run; exact Hp).
Qed.

Lemma task_at_step s p t d g h l :
  task_at s p t d g h l -> th_pc t <> Exited -> exists pc,
    task_at (snd (task_next s p t d g h l)) p (set_pc pc t) d g h l /\
    threads (snd (task_next s p t d g h l)) = <[p := set_pc pc t]> (threads s).
Proof.
  intros [Hp (a & Ha & Hd) Hpos Hpin Hg Hh Hl] Hpc. unfold task_next, pc_to.
  destruct (th_pc t); try done; try destruct (th_stop t); cbn [snd];
    eexists; (split; [|reflexivity]); split; sred; try done;
    rewrite ?lookup_insert_eq; eauto.
Qed.

Definition cycle_labels (d : Dutycycle) (h l : Z) : list label :=
  [Tau; SetPin (pin d); Tau; Sleep (u32 h) (u32 h); ClrPin (pin d); Tau; Sleep (u32 l) (u32 l)].

Lemma run_task_S n p s : run_task (S n) p s =
  match task_step p s with
  | Ok (lb, s') => match run_task n p s' with Ok (ls, s'') => Ok (lb :: ls, s'') | Fault e => Fault e end
  | Fault e => Fault e
  end.
Proof.
  cbn [run_task]. rewrite Mbind_unfold. destruct (task_step p s) as [[lb s']|]; [|done].
  rewrite Mbind_unfold. by destruct (run_task n p s') as [[ls s'']|].
Qed.

Ltac task_stmt :=
  rewrite run_task_S; erewrite task_step_run by
    (split; unfold pc_to; sred; cbn [th_pos set_pc]; rewrite ?lookup_insert_eq;
     first [reflexivity | eassumption | eexists; split; eassumption]);
  cbn [task_next th_pc set_pc th_stop th_pos th_name th_woken pc_to].

(** A task that is not asked to stop performs one whole period and is back at
    the test, having changed nothing but the two registers. *)
Lemma task_cycle s p t d g h l :
  task_at s p t d g h l -> th_pc t = AtTest -> th_stop t = false ->
  run_task 7 p s =
    Ok (cycle_labels d h l, set_bus (writes (cycle_writes g (pin d)) (bus s)) s).
Proof.
  intros [Hp (a & Ha & Hd) Hpos Hpin Hg Hh Hl] Hpc Hst.
  destruct t as [pos nm wk st pc]; cbn [th_pc th_stop th_pos] in *. subst pc st.
  do 7 task_stmt. cbn [run_task mret M_ret]. unfold mret, M_ret.
  unfold cycle_labels. repeat f_equal. unfold pc_to. sred.
  rewrite !insert_insert_eq. destruct s; cbn in *. f_equal.
  by apply insert_id.
Qed.
End period.

(** ** Many periods, and stopping *)

(** The last GPIO operation of a run. *)
Definition gpio_label (lb : label) : bool :=
  match lb with SetPin _ | ClrPin _ => true | _ => false end.
Definition last_gpio (ls : list label) : option label := last (List.filter gpio_label ls).

(** The statements between raising and lowering the pin. *)
Definition in_pulse (pc : task_pc) : bool :=
  match pc with AtSet | AtHigh | AtHigh2 _ | AtClr => true | _ => false end.

Section runs.
Context {B : Type} `{RegBus B}.
Implicit Type s : state B.

Lemma run_task_app n m p s : run_task (n + m) p s =
  match run_task n p s with
  | Ok (l1, s1) => match run_task m p s1 with Ok (l2, s2) => Ok (l1 ++ l2, s2) | Fault e => Fault e end
  | Fault e => Fault e
  end.
Proof.
  revert s. induction n as [|n IH]; intros s.
  - cbn [Nat.add run_task mret M_ret]. unfold mret, M_ret.
    by destruct (run_task m p s) as [[? ?]|].
  - cbn [Nat.add]. rewrite !run_task_S. destruct (task_step p s) as [[lb s']|]; [|done].
    rewrite IH. destruct (run_task n p s') as [[l1 s1]|]; [|done].
    by destruct (run_task m p s1) as [[l2 s2]|].
Qed.

Lemma task_at_set_bus s b p t d g h l :
  task_at s p t d g h l -> task_at (set_bus b s) p t d g h l.
Proof. intros [? ? ? ? ? ? ?]. by split. Qed.

Lemma task_cycles n s p t d g h l :
  task_at s p t d g h l -> th_pc t = AtTest -> th_stop t = false ->
  run_task (n * 7) p s =
    Ok (concat (replicate n (cycle_labels d h l)),
        set_bus (writes (concat (replicate n (cycle_writes g (pin d)))) (bus s)) s).
Proof.
  intros Hat Hpc Hst. revert s Hat. induction n as [|n IH]; intros s Hat; [by destruct s|].
  change (S n * 7)%nat with (7 + n * 7)%nat. rewrite run_task_app.
  rewrite (task_cycle s p t d g h l Hat Hpc Hst).
  rewrite (IH _ (task_at_set_bus s _ p t d g h l Hat)). cbn [replicate concat].
  by rewrite writes_app.
Qed.

(** A task asked to stop exits within eight statements, its pin low. *)
Lemma task_drain s p t d g h l :
  task_at s p t d g h l -> th_stop t = true ->
  exists n ls s' t', (n <= 7)%nat /\ run_task n p s = Ok (ls, s') /\
    threads s' !! p = Some t' /\ th_pc t' = Exited /\
    last_gpio ls = (if in_pulse (th_pc t) then Some (ClrPin (pin d)) else None).
Proof.
  intros [Hp (a & Ha & Hd) Hpos Hpin Hg Hh Hl] Hst.
  destruct t as [pos nm wk st pc]; cbn [th_pc th_stop th_pos] in *. subst st.
  set (k := match pc with AtTest => 1 | AtSet => 7 | AtHigh => 6 | AtHigh2 _ => 5 | AtClr => 4
                     | AtLow => 3 | AtLow2 _ => 2 | Exited => 0 end%nat).
  exists k; subst k.
  destruct pc; eexists _, _, _; (split; [lia|]).
  all: split; [repeat (rewrite run_task_S; erewrite task_step_run by
    (split; unfold pc_to; sred; cbn [th_pos set_pc]; rewrite ?lookup_insert_eq;
     first [reflexivity | eassumption | eexists; split; eassumption]);
    cbn [task_next th_pc set_pc th_stop th_pos th_name th_woken pc_to]);
    cbn [run_task]; unfold mret, M_ret; reflexivity|].
  all: split; [unfold pc_to; sred; rewrite ?lookup_insert_eq; first [reflexivity|exact Hp]|].
  all: done.
Qed.
End runs.

(** ** Two concurrent PWM_INITs *)

Section race.
Context {B : Type} `{RegBus B}.
Implicit Type s : state B.






(** *** Every interleaving up to the count updates *)












End race.

(** Run a statement that looks up or updates a thread just stored. *)
Ltac tget :=
  first [ erewrite Mbind_run by (eapply thread_get_run; apply lookup_insert_eq)
        | erewrite Mbind_run by (eapply thread_pc_run; apply lookup_insert_eq) ]; sred.

(** * Properties *)

Section properties.
Context {B : Type} `{RegBus B}.
Implicit Type s : state B.

(** One step of the system whose clients open only safe channels. *)
Inductive good_step : state B -> state B -> Prop :=
  | good_task s p l s' :
      runnable s p -> task_step p s = Ok (l, s') -> good_step s s'
  | good_call s lim um kc cmd arg r s' :
      client_call s lim um kc -> safe_call cmd arg um ->
      pwm_ioctl lim um kc cmd arg s = Ok (r, s') -> good_step s s'.

Lemma good_steps_safe s s' : rtc good_step s s' -> safe s -> safe s'.
Proof.
  induction 1 as [s|s1 s2 s3 Hstep _ IH]; intros Hs; [done|]. apply IH.
  destruct Hstep as [s p l s' Hrun Hst | s lim um kc cmd arg r s' Hcl Hsc Hr].
  - destruct (task_step_safe s p Hs Hrun) as (l' & s2 & Hst' & Hs').
    rewrite Hst in Hst'. by injection Hst' as <- <-.
  - by eapply pwm_ioctl_safe.
Qed.

Lemma safe_loaded e (b : B) g : ioremap_ret e = Some g -> safe (loaded e b).
Proof.
  intros Hg. split; [apply wf_loaded | by exists g |].
  cbn. intros a i d _ Hi. lia.
Qed.

(** The tasks never fault.  From module load, interleave the statements of
    all woken tasks with ioctl calls in any order; as long as [PWM_INIT] is only
    given pins 0..31 and a positive range, every statement every task ever
    executes completes: no division by zero, no bad shift, no access outside the
    table or the mapped registers. *)
Theorem tasks_never_fault e (b : B) g s :
  ioremap_ret e = Some g -> rtc good_step (loaded e b) s ->
  forall p, runnable s p -> exists l s', task_step p s = Ok (l, s').
Proof.
  intros Hg Hsteps p Hrun.
  pose proof (good_steps_safe _ _ Hsteps (safe_loaded e b g Hg)) as Hs.
  destruct (task_step_safe s p Hs Hrun) as (l & s' & Hst & _). eauto.
Qed.

(** C4: The PWM waveform.  A task that is not asked to stop repeats, for ever,
    the same seven statements: it writes its pin's bit to the set register, sleeps
    exactly the high time, writes the bit to the clear register and sleeps exactly
    the low time.  After any number of periods nothing else has changed. *)
Theorem task_waveform n s p t d g h l :
  task_at s p t d g h l -> th_pc t = AtTest -> th_stop t = false ->
  run_task (n * 7) p s =
    Ok (concat (replicate n
          [Tau; SetPin (pin d); Tau; Sleep (u32 h) (u32 h);
           ClrPin (pin d); Tau; Sleep (u32 l) (u32 l)]),
        set_bus (writes (concat (replicate n [(g + 28, 2 ^ pin d); (g + 40, 2 ^ pin d)])) (bus s)) s).
Proof. apply task_cycles. Qed.

(** C10: Stopping.  A task asked to stop, wherever it is in its loop, exits
    within seven further statements.  If it is at one of the statements from raising
    the pin to lowering it, the last thing it does to the GPIO is to lower the pin (a
    task about to raise it still raises it first); otherwise it performs no GPIO
    operation. *)
Theorem task_stops_low s p t d g h l :
  task_at s p t d g h l -> th_stop t = true ->
  exists n ls s' t', (n <= 7)%nat /\ run_task n p s = Ok (ls, s') /\
    threads s' !! p = Some t' /\ th_pc t' = Exited /\
    last_gpio ls = (if in_pulse (th_pc t) then Some (ClrPin (pin d)) else None).
Proof. apply task_drain. Qed.

(** A channel with [min = max] is accepted by [PWM_INIT], and its task then
    raises the pin and divides by zero in the computation of the high time, with
    the pin left high. *)
Theorem empty_range_faults lim um kc arg s g t0 m :
  wf s -> pwm_pin_count s < MAX_PWM_NUM -> access_ok lim arg 4 = true ->
  IS_ERR kc = false -> user_args um arg [t0; m; m] -> 0 <= t0 < 32 -> gpio s = Some g ->
  exists s' s'', pwm_ioctl lim um kc PWM_INIT arg s = Ok (0, s') /\
    run_task 2 kc s' = Ok ([Tau; SetPin t0], s'') /\
    bus s'' = bus_write (g + 28) (2 ^ t0) (bus s) /\
    task_step kc s'' = Fault DivByZero.
Proof.
  intros Hwf Hc Hacc Hk Hu Hpin Hg. destruct (wf_duty s Hwf) as (a & Ha & La & _).
  destruct (wf_tsk s Hwf) as (l & Hl & Ll & _). pose proof (wf_count s Hwf) as Hc'.
  unfold MAX_PWM_NUM in *.
  destruct (lookup_Z name (pwm_pin_count s)) as [nm Hn]; [cbn; lia|].
  rewrite pwm_ioctl_PWM_INIT, Hacc, (do_PWM_INIT_run um kc s a l nm arg t0 m m) by (done || lia).
  eexists _, _. split; [done|].
  assert (forall d, dmin d = m -> dmax d = m -> HIGH_TIME d = Fault DivByZero) as Hz.
  { intros d E1 E2. unfold HIGH_TIME, PWM_RANGE. rewrite E1, E2, Z.sub_diag. done. }
  split; [|split].
  - rewrite run_task_S. unfold task_step at 1. tget. cbn [th_pc th_stop]. tget.
    unfold mret at 1, M_ret at 1.
    rewrite run_task_S. unfold task_step at 1. tget. cbn [th_pc set_pc th_pos].
    unfold after_init. sred.
    erewrite Mbind_run by (eapply duty_get_run; [reflexivity | lia | apply list_lookup_insert_eq; lia]).
    cbn [pin]. erewrite Mbind_run by (apply with_gpio_set_run; [exact Hg | exact Hpin]). sred. tget.
    reflexivity.
  - reflexivity.
  - unfold task_step. tget. cbn [th_pc set_pc th_pos].
    erewrite Mbind_run by (eapply duty_get_run; [reflexivity | lia | apply list_lookup_insert_eq; lia]).
    by rewrite Hz.
Qed.

(** [PWM_INIT] as one step is the composition of its eleven statements, with
    the same result, state and fault, when nothing runs in between. *)
Theorem PWM_INIT_statements um kc arg s :
  run_init um kc arg 11 I_create s = (r ← do_PWM_INIT um kc arg; mret (I_return r)) s.
Proof.
  unfold do_PWM_INIT. cbn [run_init init_step].
  repeat first
    [ done
    | progress cbn [init_step]
    | rewrite !Mbind_assoc
    | rewrite !Mbind_ret
    | match goal with |- context [IS_ERR ?q] => destruct (IS_ERR q); cbn [init_step] end
    | apply Mbind_ext; intros ].
Qed.

End properties.

(** * Concrete runs *)

Definition ex_kc : Z := 0x80001000.
Definition ex_thread : kthread := mkKthread 0 "pwmtask_1" true false AtTest.
(** The first channel with a duty cycle of 25 in 100. *)
Definition ex_duty : state LogBus := ex_run (ex_call 0 PWM_SET [16; 25]) ex_one.

Lemma ex_good : good_step ex_loaded ex_one.
Proof.
  apply (good_call _ ex_limit (array_at 4096 [16; 0; 100]) ex_kc PWM_INIT 4096 0).
  - split; [intros a v; apply array_at_ints; ex_ints | done].
  - intros _ t0 t1 t2 Hu.
    pose proof (Hu 0%nat t0 eq_refl) as H0. pose proof (Hu 1%nat t1 eq_refl) as H1.
    pose proof (Hu 2%nat t2 eq_refl) as H2. vm_compute in H0, H1, H2.
    injection H0 as <-. injection H1 as <-. injection H2 as <-. split; [lia | ex_eval].
  - ex_eval.
Qed.

Lemma ex_at :
  task_at ex_duty ex_kc ex_thread (mkDutycycle 16 25 0 100) 0xF3200000 2500 7500.
Proof.
  split; try ex_eval; cbn [th_pos ex_thread pin]; try lia.
  exists (mkDutycycle 16 25 0 100 :: replicate 4 Dutycycle0). split; ex_eval.
Qed.

Lemma tasks_never_fault_witness : exists l s', task_step ex_kc ex_one = Ok (l, s').
Proof.
  apply (tasks_never_fault ex_env LogBus0 0xF3200000); [ex_eval | apply rtc_once, ex_good |].
  exists ex_thread. split_and!; [ex_eval | ex_eval | discriminate].
Defined.

Lemma task_waveform_witness :
  run_task (2 * 7) ex_kc ex_duty =
    Ok (concat (replicate 2
          [Tau; SetPin 16; Tau; Sleep (u32 2500) (u32 2500);
           ClrPin 16; Tau; Sleep (u32 7500) (u32 7500)]),
        set_bus (writes (concat (replicate 2 [(0xF3200000 + 28, 2 ^ 16); (0xF3200000 + 40, 2 ^ 16)]))
                  (bus ex_duty)) ex_duty).
Proof.
  apply (task_waveform 2 ex_duty ex_kc ex_thread (mkDutycycle 16 25 0 100)); [apply ex_at | ex_eval | ex_eval].
Defined.

(** The same task, asked to stop while its pin is high. *)
Definition ex_stopping : kthread := mkKthread 0 "pwmtask_1" true true (AtHigh2 2500).
Definition ex_stop : state LogBus := set_threads {[ex_kc := ex_stopping]} ex_duty.

Lemma task_stops_low_witness :
  exists n ls s' t', (n <= 7)%nat /\ run_task n ex_kc ex_stop = Ok (ls, s') /\
    threads s' !! ex_kc = Some t' /\ th_pc t' = Exited /\ last_gpio ls = Some (ClrPin 16).
Proof.
  apply (task_stops_low ex_stop ex_kc ex_stopping (mkDutycycle 16 25 0 100) 0xF3200000 2500 7500);
    [|ex_eval].
  split; try ex_eval; cbn [th_pos ex_stopping pin]; try lia.
  exists (mkDutycycle 16 25 0 100 :: replicate 4 Dutycycle0). split; ex_eval.
Defined.

Lemma empty_range_faults_witness :
  exists s' s'', ex_call 0x80002000 PWM_INIT [21; 7; 7] ex_one = Ok (0, s') /\
    run_task 2 0x80002000 s' = Ok ([Tau; SetPin 21], s'') /\
    bus s'' = bus_write (0xF3200000 + 28) (2 ^ 21) (bus ex_one) /\
    task_step 0x80002000 s'' = Fault DivByZero.
Proof.
  apply (empty_range_faults ex_limit (array_at 4096 [21; 7; 7]) 0x80002000 4096 ex_one 0xF3200000 21 7);
    [apply ex_one_wf | ex_eval.. | ex_args | lia | ex_eval].
Defined.


