(* ===== verification/PwmRefine.v ===== *)
(** * softPWM refines the controller

    How a call's command word and argument array name a command of the
    controller of [PwmSpec], how register writes are seen as pin levels, and
    how a driver's table represents the controller's channels.  On these, the
    softPWM driver with all its tasks, run in any order beside its callers,
    does only what the controller does. *)

From S2P Require Import Prelude Ioctl Mmio PwmGpio PwmCommon PwmSpec SoftPwm SoftPwmTasks.
Open Scope Z_scope.

(** ** Calls as commands *)

Inductive request := KPin | KGpio | KInit | KSet.

(** The command a request's argument array holds, if it holds one. *)
Definition decode (k : option request) (um : Z -> option Z) (arg : Z) : option command :=
  k ← k;
  match k with
  | KPin =>
      t1 ← um (u32 (arg + 4 * 1));
      if negb (t1 =? 0) && negb (t1 =? 1) then None
      else t0 ← um (u32 (arg + 4 * 0)); Some (Direction t0 (negb (t1 =? 0)))
  | KGpio =>
      t1 ← um (u32 (arg + 4 * 1));
      if negb (t1 =? 0) && negb (t1 =? 1) then None
      else t0 ← um (u32 (arg + 4 * 0)); Some (Put t0 (negb (t1 =? 0)))
  | KInit =>
      t0 ← um (u32 (arg + 4 * 0)); t1 ← um (u32 (arg + 4 * 1)); t2 ← um (u32 (arg + 4 * 2));
      Some (Open t0 t1 t2)
  | KSet => t0 ← um (u32 (arg + 4 * 0)); t1 ← um (u32 (arg + 4 * 1)); Some (Duty t0 t1)
  end.

(** The array behind a command. *)
Lemma decode_args k um arg x :
  decode (Some k) um arg = Some x ->
  match x with
  | Open q mn mx => k = KInit /\ user_args um arg [q; mn; mx]
  | Duty q v => k = KSet /\ user_args um arg [q; v]
  | Direction q out => k = KPin /\ user_args um arg [q; Z.b2z out]
  | Put q up => k = KGpio /\ user_args um arg [q; Z.b2z up]
  end.
Proof.
  assert (forall t, negb (t =? 0) && negb (t =? 1) = false -> t = Z.b2z (negb (t =? 0))) as Hb.
  { intros t. destruct (Z.eqb_spec t 0) as [->|]; [done|]. by destruct (Z.eqb_spec t 1) as [->|]. }
  unfold decode. cbn [mbind option_bind].
  destruct (um (u32 (arg + 4 * 0))) as [t0|] eqn:E0, (um (u32 (arg + 4 * 1))) as [t1|] eqn:E1,
    (um (u32 (arg + 4 * 2))) as [t2|] eqn:E2; destruct k; cbn [mbind option_bind]; try done;
    try destruct (negb _ && negb _) eqn:Et; try done; intros [= <-]; (split; [done|]);
    try (apply Hb in Et; rewrite <- Et);
    intros [|[|[|i]]] v; cbn; intros [= <-]; done.
Qed.
Lemma decode_open um arg t0 t1 t2 :
  user_args um arg [t0; t1; t2] -> decode (Some KInit) um arg = Some (Open t0 t1 t2).
Proof.
  intros Hu. unfold decode. cbn [mbind option_bind].
  rewrite (Hu 0%nat t0 eq_refl : um (u32 (arg + 4 * 0)) = _). cbn [mbind option_bind].
  rewrite (Hu 1%nat t1 eq_refl : um (u32 (arg + 4 * 1)) = _). cbn [mbind option_bind].
  by rewrite (Hu 2%nat t2 eq_refl : um (u32 (arg + 4 * 2)) = _).
Qed.

(** softPWM looks at the pointer first. *)
Definition soft_request (lim cmd arg : Z) : option request :=
  if access_ok lim arg 4 then
    if cmd =? PIN_SET then Some KPin else if cmd =? GPIO_SET then Some KGpio
    else if cmd =? PWM_INIT then Some KInit else if cmd =? PWM_SET then Some KSet else None
  else None.

(** ** Register writes as pin levels *)

Definition new_writes (b b' : LogBus) : list (Z * Z) := drop (length (wlog b)) (wlog b').

(** [g] is the address the GPIO block is mapped at: word 7 sets, word 10 clears. *)
Definition pin_write (g : Z) (w : Z * Z) : option action :=
  if w.1 =? g + 28 then Some (Level (Z.log2 w.2) true)
  else if w.1 =? g + 40 then Some (Level (Z.log2 w.2) false)
  else None.
Definition levels (g : Z) (b b' : LogBus) : list action := omap (pin_write g) (new_writes b b').

Lemma levels_same g b : levels g b b = [].
Proof. unfold levels, new_writes. by rewrite drop_all. Qed.
Lemma levels_write g b a v :
  levels g b (bus_write a v b) = match pin_write g (a, v) with Some x => [x] | None => [] end.
Proof. unfold levels, new_writes. cbn. rewrite drop_app_length. cbn. by case_match. Qed.
Lemma levels_set g b q : 0 <= q -> levels g b (bus_write (g + 28) (2 ^ q) b) = [Level q true].
Proof. intros. rewrite levels_write. unfold pin_write. cbn [fst snd]. by rewrite Z.eqb_refl, Z.log2_pow2. Qed.
Lemma levels_clr g b q : 0 <= q -> levels g b (bus_write (g + 40) (2 ^ q) b) = [Level q false].
Proof.
  intros. rewrite levels_write. unfold pin_write. cbn [fst snd].
  by rewrite (proj2 (Z.eqb_neq _ _)), Z.eqb_refl, Z.log2_pow2 by lia.
Qed.

(** A read-modify-write of a function-select register puts no level. *)
Lemma levels_update g q f b b' :
  0 <= q < 54 -> update (fsel_addr g q) f b = Ok (tt, b') -> levels g b b' = [].
Proof.
  intros Hq. unfold update. rewrite Mbind_unfold. cbn. intros [= <-].
  change (mkLogBus _ _) with (bus_write (fsel_addr g q) (u32 (f (u32 (default 0 (regs b !! fsel_addr g q))))) b).
  rewrite levels_write. unfold pin_write, fsel_addr. cbn [fst snd].
  assert (0 <= q / 10 <= 5) by dlia. by rewrite !(proj2 (Z.eqb_neq _ _)) by lia.
Qed.

(** ** The table represents the channels *)

Definition good_channel (ch : channel) : Prop :=
  safe_entry (ch_entry ch) /\ duty_cycle (ch_entry ch) ∈ ch_past ch.

Record table (g : Z) (c : ctrl) (n : Z) (da : option (list Dutycycle)) (gp : option Z)
    (b : LogBus) : Prop := {
  tab_count : n = Z.of_nat (length (chans c));
  tab_duty : exists a, da = Some a /\ length a = 5%nat /\
    take (length (chans c)) a = ch_entry <$> chans c;
  tab_good : Forall good_channel (chans c);
  tab_gpio : gp = Some g;
  tab_funcs : forall q, 0 <= q < 54 -> pin_fsel g b q = funcs c q;
}.

Section tables.
Variable g : Z.
Variable P : pwm_params.
Implicit Types (c : ctrl) (b : LogBus).

Lemma table_le c n da gp b : table g c n da gp b -> (length (chans c) <= 5)%nat.
Proof.
  intros [_ (a & _ & La & Ht) _ _ _]. apply (f_equal length) in Ht.
  rewrite length_take, length_fmap in Ht. lia.
Qed.

Lemma table_entry c n a gp b i ch :
  table g c n (Some a) gp b -> chans c !! i = Some ch -> a !! i = Some (ch_entry ch).
Proof.
  intros [_ (a' & [= <-] & La & Ht) _ _ _] Hi. pose proof (lookup_lt_Some _ _ _ Hi).
  rewrite <- (lookup_take_lt a (length (chans c)) i), Ht by done. by rewrite list_lookup_fmap, Hi.
Qed.

(** Other registers may change. *)
Lemma table_bus c n da gp b a v :
  table g c n da gp b -> g + 24 <= a -> table g c n da gp (bus_write a v b).
Proof.
  intros [Hn Hd Hg Hgp Hf] Ha. split; try done. intros q Hq. rewrite <- Hf by done.
  unfold pin_fsel. f_equal. apply (peek_write_other (plain := fun _ => True)); [done|].
  unfold fsel_addr. assert (0 <= q / 10 <= 5) by dlia. lia.
Qed.

Lemma table_direction c n da gp b q (out : bool) b' :
  table g c n da gp b -> 0 <= q < 54 ->
  (if out then gpio_output gp q b else gpio_input gp q b) = Ok (tt, b') ->
  levels g b b' = [] /\ table g (exec P (Direction q out) c).1 n da gp b'.
Proof.
  intros [Hn Hd Hg Hgp Hf] Hq Hr. subst gp.
  assert (forall k, 0 <= k < 6 -> (fun _ => True) (g + 4 * k)) as Hpl by done.
  split.
  - destruct out; [rewrite gpio_output_update in Hr by lia
                  |rewrite gpio_input_update in Hr by lia];
      by eapply levels_update.
  - split; try done. intros q' Hq'. cbn [exec fst funcs]. unfold set_func. destruct out.
    + rewrite (gpio_output_fsel g Hpl q b b' q') by (done || lia). rewrite <- !Hf by done.
      by case_decide; [subst|].
    + rewrite (gpio_input_fsel g Hpl q b b' q') by (done || lia). rewrite <- Hf by done. done.
Qed.

Lemma table_put c n da gp b q (up : bool) b' :
  table g c n da gp b -> 0 <= q < 32 ->
  (if up then gpio_set gp q b else gpio_clr gp q b) = Ok (tt, b') ->
  levels g b b' = [Level q up] /\ table g c n da gp b'.
Proof.
  intros Ht Hq Hr. rewrite (tab_gpio _ _ _ _ _ _ Ht) in Hr.
  destruct up; [rewrite gpio_set_run in Hr by done | rewrite gpio_clr_run in Hr by done];
    injection Hr as <-; (split; [|apply table_bus; [done|lia]]);
    [apply levels_set | apply levels_clr]; lia.
Qed.

Lemma find_channel (q : Z) (l : list channel) :
  list_find (fun d => pin d = q) (ch_entry <$> l) =
  prod_map id ch_entry <$> list_find (fun ch => pin (ch_entry ch) = q) l.
Proof. apply list_find_fmap. Qed.

Lemma good_give_duty v ch : good_channel ch -> good_channel (give_duty v ch).
Proof. intros [Hs _]. split; [exact Hs|]. cbn. left. Qed.

Lemma table_duty c n a gp b q v :
  table g c n (Some a) gp b ->
  match first_entry q n a with
  | Some (j, d) => table g (exec P (Duty q v) c).1 n (Some (<[j := set_duty_cycle v d]> a)) gp b
  | None => (exec P (Duty q v) c).1 = c
  end.
Proof.
  intros [Hn (a' & [= <-] & La & Ht) Hg Hgp Hf]. unfold first_entry. cbn [exec fst].
  rewrite Hn, Nat2Z.id, Ht, find_channel. destruct (list_find _ (chans c)) as [[j ch]|] eqn:E; [|done].
  cbn. apply list_find_Some in E as (Hj & _). split; cbn [chans funcs]; try done.
  - by rewrite length_alter.
  - eexists. split; [done|]. rewrite length_insert. split; [done|]. rewrite length_alter.
    rewrite take_insert_lt by (by eapply lookup_lt_Some). rewrite Ht.
    apply list_eq. intros i. rewrite list_lookup_fmap. destruct (decide (i = j)) as [->|Hne].
    + rewrite list_lookup_insert_eq by (rewrite length_fmap; by eapply lookup_lt_Some).
      by rewrite list_lookup_alter_eq, Hj.
    + by rewrite list_lookup_insert_ne, list_lookup_alter_ne, list_lookup_fmap by done.
  - apply Forall_lookup_2. intros i ch'. rewrite list_lookup_alter.
    destruct (decide (i = j)) as [->|Hne].
    + rewrite decide_True by done. rewrite Hj. intros [= <-].
      apply good_give_duty. by eapply Forall_lookup_1.
    + rewrite decide_False by done. by apply Forall_lookup_1.
Qed.

Lemma table_open c n a gp b q mn mx :
  table g c n (Some a) gp b -> allowed c (Open q mn mx) ->
  table g (exec P (Open q mn mx) c).1 (n + 1)
    (Some (<[Z.to_nat n := mkDutycycle q (first_duty P) mn mx]> a)) gp b.
Proof.
  intros [Hn (a' & [= <-] & La & Ht) Hg Hgp Hf] [[Hq Hr] Hroom]. cbn [room] in Hroom.
  unfold MAX_CHANNELS in Hroom. split; cbn [exec fst chans funcs]; try done.
  - rewrite length_app. cbn. lia.
  - eexists. split; [done|]. rewrite length_insert. split; [done|].
    rewrite length_app, Hn, Nat2Z.id. cbn [length].
    rewrite Nat.add_1_r, take_S_r with (x := mkDutycycle q (first_duty P) mn mx)
      by (apply list_lookup_insert_eq; lia).
    by rewrite take_insert_ge, Ht, fmap_app by lia.
  - apply Forall_app. split; [done|]. apply Forall_singleton. split; [by split|]. cbn. left.
Qed.

Lemma run_moves c i ch a ph :
  chans c !! i = Some ch -> channel_step P ch a (move ph ch) ->
  run (ctrl_step P) c (tag (Task i) [a]) (mkCtrl (<[i := move ph ch]> (chans c)) (funcs c)).
Proof. intros Hi Hs. apply run_one. by eapply ctrl_channel. Qed.

(** A channel moves without its entry changing. *)
Lemma table_move c n da gp b i ch ph :
  table g c n da gp b -> chans c !! i = Some ch ->
  table g (mkCtrl (<[i := move ph ch]> (chans c)) (funcs c)) n da gp b.
Proof.
  intros [Hn (a & -> & La & Ht) Hg Hgp Hf] Hi. split; cbn [chans funcs]; try done.
  - by rewrite length_insert.
  - exists a. rewrite length_insert, list_fmap_insert. split_and!; [done..|]. rewrite Ht.
    symmetry. apply list_insert_id. by rewrite list_lookup_fmap, Hi.
  - apply Forall_insert; [done|]. split; [|cbn; left].
    exact (proj1 (Forall_lookup_1 _ _ _ _ Hg Hi)).
Qed.
End tables.

(** ** The three table commands of softPWM *)

Section soft_commands.
Implicit Types (s : state LogBus).
Variable um : Z -> option Z.
Variable arg : Z.

Lemma with_gpio_run f s x s' :
  with_gpio f s = Ok (x, s') -> f (gpio s) (bus s) = Ok (tt, bus s') /\ s' = set_bus (bus s') s.
Proof.
  unfold with_gpio. destruct (f (gpio s) (bus s)) as [[[] b]|]; [|done]. by intros [= <- <-].
Qed.

Lemma bit_arg t : negb (t =? 0) && negb (t =? 1) = false -> t = 0 \/ t = 1.
Proof. destruct (Z.eqb_spec t 0), (Z.eqb_spec t 1); cbn; tauto || done. Qed.

Lemma PIN_SET_command s r s' :
  do_PIN_SET um arg s = Ok (r, s') -> r = 0 /\
  match decode (Some KPin) um arg with
  | Some (Direction q out) =>
      (if out then gpio_output (gpio s) q (bus s) else gpio_input (gpio s) q (bus s)) = Ok (tt, bus s') /\
      s' = set_bus (bus s') s
  | Some _ => False
  | None => exists m, s' = set_klog m s
  end.
Proof.
  unfold do_PIN_SET, decode. intros Hr. apply Mbind_ok in Hr as (t1 & s1 & H1 & Hr).
  apply tmp_inv in H1 as [E1 ->]. cbn [mbind option_bind]. rewrite E1. cbn [mbind option_bind].
  rewrite Mif in Hr. destruct (negb _ && negb _) eqn:Et.
  - rewrite Mbind_printk in Hr. minv. split; [done|]. by eexists.
  - apply Mbind_ok in Hr as (t0 & s2 & H0 & Hr). apply tmp_inv in H0 as [E0 ->].
    rewrite E0. cbn [mbind option_bind]. apply Mbind_ok in Hr as ([] & s3 & H1 & Hr).
    injection Hr as <- <-. split; [done|].
    apply bit_arg in Et as [->| ->]; cbn in H1 |- *; by apply with_gpio_run in H1.
Qed.

Lemma GPIO_SET_command s r s' :
  do_GPIO_SET um arg s = Ok (r, s') -> r = 0 /\
  match decode (Some KGpio) um arg with
  | Some (Put q up) =>
      (if up then gpio_set (gpio s) q (bus s) else gpio_clr (gpio s) q (bus s)) = Ok (tt, bus s') /\
      s' = set_bus (bus s') s
  | Some _ => False
  | None => exists m, s' = set_klog m s
  end.
Proof.
  unfold do_GPIO_SET, decode. intros Hr. apply Mbind_ok in Hr as (t1 & s1 & H1 & Hr).
  apply tmp_inv in H1 as [E1 ->]. cbn [mbind option_bind]. rewrite E1. cbn [mbind option_bind].
  rewrite Mif in Hr. destruct (negb _ && negb _) eqn:Et.
  - rewrite Mbind_printk in Hr. minv. split; [done|]. by eexists.
  - apply Mbind_ok in Hr as (t0 & s2 & H0 & Hr). apply tmp_inv in H0 as [E0 ->].
    rewrite E0. cbn [mbind option_bind]. apply Mbind_ok in Hr as ([] & s3 & H1 & Hr).
    injection Hr as <- <-. split; [done|].
    apply bit_arg in Et as [->| ->]; cbn in H1 |- *; by apply with_gpio_run in H1.
Qed.

(** Both return for a pin the chip has. *)
Lemma PIN_SET_returns s g q (out : bool) :
  gpio s = Some g -> 0 <= q < 54 -> user_args um arg [q; Z.b2z out] ->
  exists r s', do_PIN_SET um arg s = Ok (r, s').
Proof.
  intros Hgp Hq Hu. unfold do_PIN_SET.
  rewrite (Mbind_run _ _ _ _ _ (user_args_tmp um arg _ 1 _ s Hu eq_refl)).
  assert (exists b, (if out then gpio_output (Some g) q (bus s) else gpio_input (Some g) q (bus s)) = Ok (tt, b))
    as [b Hb] by (destruct out; [apply gpio_output_total|apply gpio_input_total]; lia).
  destruct out; cbn [Z.b2z Z.eqb Pos.eqb negb andb];
    rewrite (Mbind_run _ _ _ _ _ (user_args_tmp um arg _ 0 _ s Hu eq_refl));
    rewrite Mbind_unfold; unfold with_gpio; rewrite Hgp, Hb; eexists _, _; reflexivity.
Qed.

Lemma GPIO_SET_returns s g q (up : bool) :
  gpio s = Some g -> 0 <= q < 32 -> user_args um arg [q; Z.b2z up] ->
  exists r s', do_GPIO_SET um arg s = Ok (r, s').
Proof.
  intros Hgp Hq Hu. unfold do_GPIO_SET.
  rewrite (Mbind_run _ _ _ _ _ (user_args_tmp um arg _ 1 _ s Hu eq_refl)).
  destruct up; cbn [Z.b2z Z.eqb Pos.eqb negb andb];
    rewrite (Mbind_run _ _ _ _ _ (user_args_tmp um arg _ 0 _ s Hu eq_refl));
    rewrite Mbind_unfold; unfold with_gpio; rewrite Hgp, ?gpio_set_run, ?gpio_clr_run by done;
    eexists _, _; reflexivity.
Qed.

(** [PWM_SET] reads the duty cycle only when it has found the pin. *)
Lemma find_pin_none k i s o s' :
  um (u32 (arg + 4 * 0)) = None -> find_pin um arg k i s = Ok (o, s') -> o = None.
Proof.
  intros E. destruct k; cbn [find_pin]; intros Hr; [by minv|]. exfalso.
  apply Mbind_ok in Hr as (d & s1 & _ & Hr). apply Mbind_ok in Hr as (t & s2 & Ht & _).
  apply tmp_inv in Ht as [Ht _]. congruence.
Qed.

Lemma PWM_SET_no_pin s r s' :
  um (u32 (arg + 4 * 0)) = None \/ um (u32 (arg + 4 * 1)) = None ->
  do_PWM_SET um arg s = Ok (r, s') -> r = 0 /\ exists m, s' = set_klog m s.
Proof.
  unfold do_PWM_SET. rewrite Mbind_gets. intros Hn Hr. apply Mbind_ok in Hr as (o & s1 & Ho & Hr).
  pose proof (find_pin_state _ _ _ _ _ _ _ Ho) as ->. destruct o as [pos|].
  - exfalso. apply Mbind_ok in Hr as (t1 & s2 & Ht & _). apply tmp_inv in Ht as [Ht _].
    destruct Hn as [Hn|Hn]; [|congruence]. by apply find_pin_none in Ho.
  - rewrite Mbind_printk in Hr. minv. split; [done|]. by eexists.
Qed.

Lemma PWM_SET_command s a r s' :
  duty_array s = Some a -> 0 <= pwm_pin_count s <= Z.of_nat (length a) ->
  do_PWM_SET um arg s = Ok (r, s') -> r = 0 /\
  match decode (Some KSet) um arg with
  | Some (Duty q v) =>
      match first_entry q (pwm_pin_count s) a with
      | Some (j, d) => s' = set_duty (Some (<[j := set_duty_cycle v d]> a)) s
      | None => exists m, s' = set_klog m s
      end
  | Some _ => False
  | None => exists m, s' = set_klog m s
  end.
Proof.
  intros Ha Hc Hr. unfold decode. cbn [mbind option_bind].
  destruct (um (u32 (arg + 4 * 0))) as [t0|] eqn:E0; cbn [mbind option_bind];
    [|apply PWM_SET_no_pin in Hr; tauto].
  destruct (um (u32 (arg + 4 * 1))) as [t1|] eqn:E1; cbn [mbind option_bind];
    [|apply PWM_SET_no_pin in Hr; tauto].
  rewrite (do_PWM_SET_run um s a arg t0 t1) in Hr; [|done..|].
  2: { intros [|[|i]] v; cbn; intros [= <-]; done. }
  injection Hr as <- <-. split; [done|].
  destruct (first_entry t0 _ a) as [[j d]|]; [done|by eexists].
Qed.
End soft_commands.

(** ** softPWM and its tasks *)

Definition soft_params : pwm_params :=
  mkParams 0 (fun up d => u32 <$> (if up then HIGH_TIME d else LOW_TIME d)).

(** Where the task of a channel stands; a first sleep time it carries belongs to
    a duty cycle of the present phase. *)
Definition soft_phase (ch : channel) (pc : task_pc) : Prop :=
  match pc with
  | AtTest | AtSet => ch_phase ch = Ready
  | AtHigh => ch_phase ch = High
  | AtHigh2 lo => ch_phase ch = High /\
      exists v, v ∈ ch_past ch /\ HIGH_TIME (set_duty_cycle v (ch_entry ch)) = Ok lo
  | AtClr => ch_phase ch = HighDone
  | AtLow => ch_phase ch = Low
  | AtLow2 lo => ch_phase ch = Low /\
      exists v, v ∈ ch_past ch /\ LOW_TIME (set_duty_cycle v (ch_entry ch)) = Ok lo
  | Exited => False
  end.

Record soft_rep (g : Z) (c : ctrl) (s : state LogBus) : Prop := {
  sr_wf : wf s;
  sr_table : table g c (pwm_pin_count s) (duty_array s) (gpio s) (bus s);
  sr_tasks : forall p t, threads s !! p = Some t -> th_stop t = false /\
    exists ch, chans c !! Z.to_nat (th_pos t) = Some ch /\ soft_phase ch (th_pc t);
}.

(** What a statement of a task shows besides register writes. *)
Definition seen (l : label) : list action :=
  match l with Sleep lo hi => [Wait lo hi] | _ => [] end.

(** A step of the system: a statement of a woken task, or a whole call, whose
    arguments, when they are a command, name pins the chip has and a positive
    range. *)
Inductive soft_step (g : Z) : state LogBus -> list event -> state LogBus -> Prop :=
  | soft_task s p t l s' :
      threads s !! p = Some t -> runnable s p -> task_step p s = Ok (l, s') ->
      soft_step g s (tag (Task (Z.to_nat (th_pos t))) (levels g (bus s) (bus s') ++ seen l)) s'
  | soft_call s lim um kc cmd arg r s' :
      let o := decode (soft_request lim cmd arg) um arg in
      client_call s lim um kc -> (forall x, o = Some x -> in_range x) ->
      pwm_ioctl lim um kc cmd arg s = Ok (r, s') ->
      soft_step g s (tag Client (Ask o :: levels g (bus s) (bus s') ++ [Reply r])) s'.

Section soft.
Variable g : Z.
Implicit Types (s : state LogBus) (c : ctrl).

(** Two threads never share a channel. *)
Lemma thread_pos_inj s p p' t t' :
  wf s -> threads s !! p = Some t -> threads s !! p' = Some t' -> p <> p' ->
  Z.to_nat (th_pos t) <> Z.to_nat (th_pos t').
Proof.
  intros Hwf Hp Hp' Hne E. destruct (wf_tsk s Hwf) as (l & _ & _ & _ & Hth).
  destruct (Hth p t Hp) as (_ & H1 & L1). destruct (Hth p' t' Hp') as (_ & H2 & L2).
  rewrite E in L1. congruence.
Qed.

Lemma soft_task_at c s p t :
  soft_rep g c s -> threads s !! p = Some t -> exists ch h l,
    chans c !! Z.to_nat (th_pos t) = Some ch /\ soft_phase ch (th_pc t) /\ good_channel ch /\
    task_at s p t (ch_entry ch) g h l.
Proof.
  intros [Hwf Ht Htk] Hp. destruct (Htk p t Hp) as (Hst & ch & Hch & Hph).
  pose proof (Forall_lookup_1 _ _ _ _ (tab_good _ _ _ _ _ _ Ht) Hch) as Hg.
  destruct (safe_times _ (proj1 Hg)) as [[h Hh] [l Hl]]. exists ch, h, l.
  destruct (tab_duty _ _ _ _ _ _ Ht) as (a & Ha & _). rewrite Ha in Ht.
  destruct (wf_tsk s Hwf) as (tk & _ & _ & _ & Hth). destruct (Hth p t Hp) as (_ & Hpos & _).
  split_and!; try done. split; try done; [|lia|apply Hg|apply Ht].
  exists a. split; [done|]. by eapply table_entry.
Qed.

(** A statement that leaves the channel [ch'] at position [pc] on bus [b]. *)
Lemma soft_rep_pc c s p t pc b ch ph :
  soft_rep g c s -> threads s !! p = Some t -> chans c !! Z.to_nat (th_pos t) = Some ch ->
  table g (mkCtrl (<[Z.to_nat (th_pos t) := ph]> (chans c)) (funcs c)) (pwm_pin_count s)
    (duty_array s) (gpio s) b ->
  soft_phase ph pc ->
  soft_rep g (mkCtrl (<[Z.to_nat (th_pos t) := ph]> (chans c)) (funcs c)) (pc_to p t pc (set_bus b s)).
Proof.
  intros [Hwf Ht Htk] Hp Hch Htab Hph. split.
  - unfold pc_to. apply wf_thread_pc; [|done]. by destruct Hwf; split.
  - exact Htab.
  - intros p' t'. unfold pc_to. sred. destruct (decide (p' = p)) as [->|Hne].
    + rewrite lookup_insert_eq. intros [= <-]. cbn [th_stop th_pos th_pc set_pc chans].
      split; [by eapply Htk|]. exists ph. split; [|done].
      apply list_lookup_insert_eq. by eapply lookup_lt_Some.
    + rewrite lookup_insert_ne by done. intros Hp'. destruct (Htk p' t' Hp') as (Hst & ch' & Hch' & Hph').
      split; [done|]. exists ch'. split; [|done]. cbn [chans].
      rewrite list_lookup_insert_ne; [done|]. by eapply thread_pos_inj.
Qed.

Lemma soft_rep_move c s p t pc ch ph :
  soft_rep g c s -> threads s !! p = Some t -> chans c !! Z.to_nat (th_pos t) = Some ch ->
  soft_phase (move ph ch) pc ->
  forall b, table g c (pwm_pin_count s) (duty_array s) (gpio s) b ->
  soft_rep g (mkCtrl (<[Z.to_nat (th_pos t) := move ph ch]> (chans c)) (funcs c))
    (pc_to p t pc (set_bus b s)).
Proof. intros Hr Hp Hch Hph b Hb. eapply soft_rep_pc; try done. by apply table_move. Qed.

Lemma soft_rep_stay c s p t pc ch :
  soft_rep g c s -> threads s !! p = Some t -> chans c !! Z.to_nat (th_pos t) = Some ch ->
  soft_phase ch pc -> soft_rep g c (pc_to p t pc s).
Proof.
  intros Hr Hp Hch Hph. pose proof (soft_rep_pc c s p t pc (bus s) ch ch Hr Hp Hch) as Hs.
  rewrite list_insert_id in Hs by done. destruct c as [l f]. cbn [chans funcs] in *.
  destruct s. apply Hs; [by apply Hr|done].
Qed.

Lemma bus_pc_to p t pc s : bus (pc_to p t pc s) = bus s.
Proof. done. Qed.
Lemma bus_set_bus b s : bus (set_bus b s) = b.
Proof. done. Qed.

Lemma set_own_duty d : set_duty_cycle (duty_cycle d) d = d.
Proof. by destruct d. Qed.

Lemma soft_task_simulated c s p t l s' :
  soft_rep g c s -> threads s !! p = Some t -> task_step p s = Ok (l, s') ->
  exists c', run (ctrl_step soft_params) c
      (tag (Task (Z.to_nat (th_pos t))) (levels g (bus s) (bus s') ++ seen l)) c' /\ soft_rep g c' s'.
Proof.
  intros Hr Hp Hstep. destruct (soft_task_at c s p t Hr Hp) as (ch & h & lw & Hch & Hph & Hg & Hat).
  destruct Hg as [[Hpin Hrange] Hpast].
  rewrite (task_step_run _ _ _ _ _ _ _ Hat) in Hstep. injection Hstep as Hstep.
  unfold task_next in Hstep. destruct (sr_tasks _ _ _ Hr p t Hp) as (Hst & _).
  destruct Hat as [_ _ _ _ Hgp Hh Hl]. pose proof (sr_table _ _ _ Hr) as Ht.
  destruct (th_pc t) eqn:Epc; cbn [soft_phase] in Hph; rewrite ?Hst in Hstep;
    apply pair_equal_spec in Hstep as [<- <-]; cbn [seen];
    rewrite ?bus_pc_to, ?bus_set_bus, ?levels_same, ?levels_set, ?levels_clr by lia; cbn [app].
  - exists c. split; [apply run_nil|]. by eapply soft_rep_stay.
  - eexists. split; [eapply run_moves; [done|by apply ch_raise]|].
    eapply soft_rep_move; try done. apply table_bus; [done|lia].
  - exists c. split; [apply run_nil|]. eapply soft_rep_stay; try done.
    split; [done|]. exists (duty_cycle (ch_entry ch)). by rewrite set_own_duty.
  - destruct Hph as (Hph & v & Hv & Hlo).
    eexists. split; [eapply run_moves; [done|]|].
    + apply (ch_wait_high _ _ v); cbn; rewrite ?Hlo, ?Hh; done.
    + apply (soft_rep_move c s p t AtClr ch HighDone Hr Hp Hch eq_refl (bus s) Ht).
  - eexists. split; [eapply run_moves; [done|by apply ch_lower]|].
    eapply soft_rep_move; try done. apply table_bus; [done|lia].
  - exists c. split; [apply run_nil|]. eapply soft_rep_stay; try done.
    split; [done|]. exists (duty_cycle (ch_entry ch)). by rewrite set_own_duty.
  - destruct Hph as (Hph & v & Hv & Hlo).
    eexists. split; [eapply run_moves; [done|]|].
    + apply (ch_wait_low _ _ v); cbn; rewrite ?Hlo, ?Hl; done.
    + apply (soft_rep_move c s p t AtTest ch Ready Hr Hp Hch eq_refl (bus s) Ht).
  - done.
Qed.

(** *** Calls *)

Lemma soft_request_inv lim um kc cmd arg s :
  match soft_request lim cmd arg with
  | Some KPin => pwm_ioctl lim um kc cmd arg s = do_PIN_SET um arg s
  | Some KGpio => pwm_ioctl lim um kc cmd arg s = do_GPIO_SET um arg s
  | Some KInit => cmd = PWM_INIT /\ pwm_ioctl lim um kc cmd arg s = do_PWM_INIT um kc arg s
  | Some KSet => pwm_ioctl lim um kc cmd arg s = do_PWM_SET um arg s
  | None => forall r s', pwm_ioctl lim um kc cmd arg s = Ok (r, s') -> s' = s
  end.
Proof.
  unfold soft_request.
  destruct (Z.eqb_spec cmd PIN_SET) as [->|N1];
    [rewrite pwm_ioctl_PIN_SET; destruct (access_ok _ _ _); [done|by intros r s' [= _ <-]]|].
  destruct (Z.eqb_spec cmd GPIO_SET) as [->|N2];
    [rewrite pwm_ioctl_GPIO_SET; destruct (access_ok _ _ _); [done|by intros r s' [= _ <-]]|].
  destruct (Z.eqb_spec cmd PWM_INIT) as [->|N3];
    [rewrite pwm_ioctl_PWM_INIT; destruct (access_ok _ _ _); [done|by intros r s' [= _ <-]]|].
  destruct (Z.eqb_spec cmd PWM_SET) as [->|N4];
    [rewrite pwm_ioctl_PWM_SET; destruct (access_ok _ _ _); [done|by intros r s' [= _ <-]]|].
  destruct (access_ok _ _ _); intros r s' Hr; apply pwm_ioctl_dispatch in Hr; naive_solver.
Qed.

Lemma soft_rep_klog c s m : soft_rep g c s -> soft_rep g c (set_klog m s).
Proof. intros [[] ? ?]. by split; [split|..]. Qed.

(** A call that leaves the channels and tasks alone. *)
Lemma soft_rep_bus c c' s b :
  soft_rep g c s -> chans c' = chans c ->
  table g c' (pwm_pin_count s) (duty_array s) (gpio s) b -> soft_rep g c' (set_bus b s).
Proof. intros [[] ? Htk] Hc Ht. split; [by split|done|]. rewrite Hc. exact Htk. Qed.

Lemma soft_phase_duty v ch pc : soft_phase ch pc -> soft_phase (give_duty v ch) pc.
Proof.
  assert (forall w, set_duty_cycle w (set_duty_cycle v (ch_entry ch)) = set_duty_cycle w (ch_entry ch)) as E by done.
  destruct pc; cbn; try done; intros (Hp & w & Hw & Ht); (split; [done|]); exists w; rewrite E;
    (split; [by right|done]).
Qed.

Lemma soft_rep_duty c s a q v :
  soft_rep g c s -> duty_array s = Some a -> is_s 32 v ->
  match first_entry q (pwm_pin_count s) a with
  | Some (j, d) => soft_rep g (exec soft_params (Duty q v) c).1 (set_duty (Some (<[j := set_duty_cycle v d]> a)) s)
  | None => (exec soft_params (Duty q v) c).1 = c
  end.
Proof.
  intros [Hwf Ht Htk] Ha Hv. rewrite Ha in Ht. pose proof (table_duty g soft_params c _ a _ _ q v Ht) as Hd.
  destruct (first_entry q _ a) as [[j d]|] eqn:E; [|done]. split.
  - apply list_find_Some in E as (E & _). apply lookup_take_Some in E as [E _].
    by apply wf_set_duty.
  - exact Hd.
  - intros p t Hp. destruct (Htk p t Hp) as (Hst & ch & Hch & Hph). split; [done|].
    cbn [exec fst]. destruct (list_find _ _) as [[i ch']|]; [|by exists ch]. cbn [chans].
    rewrite list_lookup_alter. case_decide; [subst i; rewrite Hch; cbn|by exists ch].
    eexists. split; [done|]. by apply soft_phase_duty.
Qed.

Lemma soft_rep_open c s a l nm kc q mn mx :
  soft_rep g c s -> duty_array s = Some a -> pwm_tsk s = Some l ->
  allowed c (Open q mn mx) -> wf (after_init kc a l nm q mn mx s) ->
  soft_rep g (exec soft_params (Open q mn mx) c).1 (after_init kc a l nm q mn mx s).
Proof.
  intros [Hwf Ht Htk] Ha Hl Hal Hwf'. rewrite Ha in Ht. split; [done| |].
  - exact (table_open g soft_params c _ a _ _ q mn mx Ht Hal).
  - intros p t. unfold after_init. sred. cbn [exec fst chans].
    pose proof (tab_count _ _ _ _ _ _ Ht) as Hn.
    destruct (decide (p = kc)) as [->|Hne].
    + rewrite lookup_insert_eq. intros [= <-]. cbn [th_stop th_pos th_pc]. split; [done|].
      rewrite Hn, Nat2Z.id. exists (open_channel soft_params q mn mx).
      split; [|done]. by apply list_lookup_middle.
    + rewrite lookup_insert_ne by done. intros Hp. destruct (Htk p t Hp) as (Hst & ch & Hch & Hph).
      split; [done|]. exists ch. split; [|done]. by apply lookup_app_l_Some.
Qed.

Lemma PTR_ERR_nz p : IS_ERR p = true -> PTR_ERR p <> 0.
Proof.
  unfold IS_ERR, PTR_ERR, MAX_ERRNO. rewrite Z.leb_le. intros Hp E.
  rewrite u32_neg in Hp by lia. rewrite <- (wrapu_wraps 32) in Hp by lia. rewrite E in Hp.
  change (u32 0) with 0 in Hp. lia.
Qed.

Lemma soft_unchanged c s s' r :
  soft_rep g c s -> (exists m, s' = set_klog m s) ->
  exists c', run (ctrl_step soft_params) c
    (tag Client (Ask None :: levels g (bus s) (bus s') ++ [Reply r])) c' /\ soft_rep g c' s'.
Proof.
  intros Hr [m ->]. exists c. rewrite levels_same.
  split; [apply run_one, ctrl_no_command|by apply soft_rep_klog].
Qed.

Lemma soft_rep_init_err c s l :
  soft_rep g c s -> wf (after_init_err l s) -> soft_rep g c (after_init_err l s).
Proof. by intros [? ? ?] ?. Qed.

Lemma soft_call_simulated c s lim um kc cmd arg r s' :
  let o := decode (soft_request lim cmd arg) um arg in
  soft_rep g c s -> client_call s lim um kc -> (forall x, o = Some x -> in_range x) ->
  pwm_ioctl lim um kc cmd arg s = Ok (r, s') ->
  exists c', run (ctrl_step soft_params) c
    (tag Client (Ask o :: levels g (bus s) (bus s') ++ [Reply r])) c' /\ soft_rep g c' s'.
Proof.
  intros o Hr [Hum Hk] Hin Hrun. subst o.
  pose proof (sr_wf _ _ _ Hr) as Hwf. pose proof (sr_table _ _ _ Hr) as Ht.
  pose proof (pwm_ioctl_preserves _ _ _ _ _ _ _ _ Hum Hk Hwf Hrun) as Hwf'.
  pose proof (soft_request_inv lim um kc cmd arg s) as Hq.
  destruct (soft_request lim cmd arg) as [[]|].
  - rewrite Hq in Hrun. apply PIN_SET_command in Hrun as [-> Hc].
    destruct (decode _ um arg) as [[| |q out|]|]; try done; [|by eapply soft_unchanged].
    destruct Hc as [Hg Hs'].
    destruct (table_direction g soft_params c _ _ _ _ q out _ Ht (Hin _ eq_refl) Hg) as [-> Ht'].
    exists (exec soft_params (Direction q out) c).1. split.
    + apply run_one. apply (ctrl_exec _ _ (Direction q out)). split; [by apply Hin|done].
    + rewrite Hs'. by eapply soft_rep_bus.
  - rewrite Hq in Hrun. apply GPIO_SET_command in Hrun as [-> Hc].
    destruct (decode _ um arg) as [[| | |q up]|]; try done; [|by eapply soft_unchanged].
    destruct Hc as [Hg Hs'].
    destruct (table_put g c _ _ _ _ q up _ Ht (Hin _ eq_refl) Hg) as [-> Ht'].
    exists c. split.
    + apply run_one. apply (ctrl_exec _ _ (Put q up)). split; [by apply Hin|done].
    + rewrite Hs'. by eapply soft_rep_bus.
  - destruct Hq as [_ Hq]. rewrite Hq in Hrun.
    apply do_PWM_INIT_inv in Hrun as (a & l & nm & Ha & Hl & Hn & Hc & Hrun); [|done].
    destruct Hrun as [(Hkc & -> & ->)|(Hkc & -> & t0 & t1 & t2 & Hu & ->)].
    + exists c. rewrite levels_same. split; [|by apply soft_rep_init_err].
      destruct (decode _ um arg) as [x|] eqn:Ex; [|apply run_one, ctrl_no_command].
      apply decode_args in Ex. destruct x as [t0 t1 t2| | |]; try (by destruct Ex).
      apply run_one, ctrl_failed, PTR_ERR_nz. done.
    + rewrite (decode_open um arg t0 t1 t2 Hu) in Hin |- *. rewrite levels_same.
      assert (allowed c (Open t0 t1 t2)) as Hal.
      { split; [by apply Hin|]. pose proof (tab_count _ _ _ _ _ _ Ht). unfold room, MAX_CHANNELS. lia. }
      eexists. split; [apply run_one, (ctrl_exec _ _ (Open t0 t1 t2)); done|]. by apply soft_rep_open.
  - rewrite Hq in Hrun. destruct (tab_duty _ _ _ _ _ _ Ht) as (a & Ha & La & _).
    pose proof (wf_count s Hwf) as Hcnt. unfold MAX_PWM_NUM in Hcnt.
    apply (PWM_SET_command um arg s a) in Hrun as [-> Hc]; [|done|lia].
    destruct (decode _ um arg) as [[|q v| |]|] eqn:Ex; try done; [|by eapply soft_unchanged].
    assert (is_s 32 v) as Hv by (apply decode_args in Ex as [_ Ex]; eapply Hum, (Ex 1%nat); done).
    pose proof (soft_rep_duty c s a q v Hr Ha Hv) as Hd.
    assert (levels g (bus s) (bus s') = []) as ->.
    { destruct (first_entry q _ a) as [[j d]|]; [subst s'|destruct Hc as [m ->]]; apply levels_same. }
    exists (exec soft_params (Duty q v) c).1.
    split; [apply run_one, (ctrl_exec _ _ (Duty q v)); by split; [apply Hin|]|].
    destruct (first_entry q _ a) as [[j d]|]; [by subst s'|].
    destruct Hc as [m ->]. rewrite Hd. by apply soft_rep_klog.
  - apply Hq in Hrun as ->. exists c. rewrite levels_same. cbn. split; [apply run_one, ctrl_no_command|done].
Qed.

Lemma soft_step_simulated c s tr s' :
  soft_rep g c s -> soft_step g s tr s' ->
  exists c', run (ctrl_step soft_params) c tr c' /\ soft_rep g c' s'.
Proof.
  intros Hr Hs. destruct Hs as [s p t l s' Hp _ Hs | s lim um kc cmd arg r s' o Hcl Hin Hs].
  - by eapply soft_task_simulated.
  - by eapply soft_call_simulated.
Qed.

(** *** Progress *)

Lemma soft_rep_safe c s : soft_rep g c s -> safe s.
Proof.
  intros [Hwf Ht _]. split; [done|by exists g; apply Ht|]. intros a i d Ha Hi Hd.
  destruct (tab_duty _ _ _ _ _ _ Ht) as (a' & Ha' & _ & Htk). rewrite Ha in Ha'. injection Ha' as <-.
  pose proof (tab_count _ _ _ _ _ _ Ht) as Hn.
  assert ((ch_entry <$> chans c) !! Z.to_nat i = Some d) as Hl.
  { rewrite <- Htk. apply lookup_take_Some. split; [done|lia]. }
  apply list_lookup_fmap_Some in Hl as (ch & -> & Hch).
  apply (Forall_lookup_1 _ _ _ _ (tab_good _ _ _ _ _ _ Ht) Hch).
Qed.

(** A call asking for something allowed returns. *)
Lemma soft_call_returns c s lim um kc cmd arg x :
  soft_rep g c s -> decode (soft_request lim cmd arg) um arg = Some x -> allowed c x ->
  exists r s', pwm_ioctl lim um kc cmd arg s = Ok (r, s').
Proof.
  intros Hr Hd [Hin Hroom]. pose proof (soft_request_inv lim um kc cmd arg s) as Hq.
  destruct (soft_request lim cmd arg) as [k|]; [|done]. apply decode_args in Hd.
  pose proof (sr_table _ _ _ Hr) as Ht. pose proof (tab_gpio _ _ _ _ _ _ Ht) as Hgp.
  pose proof (tab_count _ _ _ _ _ _ Ht) as Hn. destruct (tab_duty _ _ _ _ _ _ Ht) as (a & Ha & La & _).
  pose proof (table_le _ _ _ _ _ _ Ht) as Hle.
  destruct x as [q mn mx|q v|q out|q up]; destruct Hd as [-> Hu]; cbn [in_range room] in Hin, Hroom.
  - destruct Hq as [_ ->]. destruct (wf_tsk s (sr_wf _ _ _ Hr)) as (l & Hl & Ll & _).
    unfold MAX_CHANNELS in Hroom.
    destruct (lookup_Z name (pwm_pin_count s)) as [nm Hnm]; [cbn; lia|].
    destruct (IS_ERR kc) eqn:Hk; eexists _, _.
    + apply (do_PWM_INIT_run_err um kc s l nm arg); done || lia.
    + apply (do_PWM_INIT_run um kc s a l nm arg q mn mx); done || lia.
  - rewrite Hq, (do_PWM_SET_run um s a arg q v) by (done || lia). eauto.
  - rewrite Hq. by apply (PIN_SET_returns um arg s g q out).
  - rewrite Hq. by apply (GPIO_SET_returns um arg s g q up).
Qed.

Lemma soft_rep_loaded e (b : LogBus) :
  ioremap_ret e = Some g -> soft_rep g (ctrl0 (pin_fsel g b)) (loaded e b).
Proof.
  intros Hg. split; [apply wf_loaded| |].
  - split; try done. by eexists.
  - intros p t Hp. cbn in Hp. by rewrite lookup_empty in Hp.
Qed.
End soft.

(** * Properties *)

(** C1: softPWM refines the abstract controller.  From a [pwm_init] all of whose
    services succeed, interleave the statements of all tasks with ioctl calls in any
    order, the calls being any at all as long as those that are commands name pins 0 to
    31 (0 to 53 for a direction) and a positive range.  Then the actions seen (what was
    asked, the replies, the levels written to the registers, the sleeps) are actions of
    a run of the controller, which the driver's tables, threads and function-select
    registers represent at the end; each task has produced exactly the waveform of its
    channel; and the system is not stuck: every woken task can move, and a call
    asking for something the controller allows returns. *)
Theorem soft_refines_controller e (b : LogBus) g s0 tr s :
  kzalloc_duty e = true -> kzalloc_tsk e = true -> 0 <= chrdev_ret e ->
  kzalloc_cdev e = true -> 0 <= cdev_add_ret e -> ioremap_ret e = Some g ->
  pwm_init e (state0 b) = Ok (0, s0) -> run (soft_step g) s0 tr s ->
  exists c, run (ctrl_step soft_params) (ctrl0 (pin_fsel g b)) tr c /\ soft_rep g c s /\
    (forall i ch, chans c !! i = Some ch ->
       wave (pin (ch_entry ch)) Ready (acts (Task i) tr) = Some (ch_phase ch)) /\
    (forall p, runnable s p -> exists l s', task_step p s = Ok (l, s')) /\
    (forall lim um kc cmd arg x, decode (soft_request lim cmd arg) um arg = Some x -> allowed c x ->
       exists r s', pwm_ioctl lim um kc cmd arg s = Ok (r, s')).
Proof.
  intros E1 E2 E3 E4 E5 Hg Hinit Hrun.
  rewrite (pwm_init_loaded e b E1 E2 E3 E4 E5) in Hinit. injection Hinit as <-.
  destruct (run_simulated _ _ _ (soft_step_simulated g) _ _ _ _ (soft_rep_loaded g e b Hg) Hrun)
    as (c & Hc & Hr).
  exists c. split_and!; [done|done| | |].
  - intros i ch. by apply (ctrl_waveform soft_params (pin_fsel g b)).
  - intros p Hp. destruct (task_step_safe s p (soft_rep_safe g c s Hr) Hp) as (l & s' & Hs & _). eauto.
  - intros lim um kc cmd arg x. by apply (soft_call_returns g).
Qed.

(** * Concrete runs *)

(** A client opens a channel on pin 16 and its task raises the pin. *)
Definition ex_open : state LogBus -> res (Z * state LogBus) :=
  pwm_ioctl ex_limit (array_at 4096 [16; 0; 100]) 0x80001000 PWM_INIT 4096.
Definition ex_s1 : state LogBus :=
  match ex_open (loaded ex_env LogBus0) with Ok (_, s) => s | Fault _ => loaded ex_env LogBus0 end.
Definition ex_s2 : state LogBus :=
  match task_step 0x80001000 ex_s1 with Ok (_, s) => s | Fault _ => ex_s1 end.
Definition ex_s3 : state LogBus :=
  match task_step 0x80001000 ex_s2 with Ok (_, s) => s | Fault _ => ex_s2 end.

Definition ex_trace : list event :=
  tag Client [Ask (Some (Open 16 0 100)); Reply 0] ++ [] ++ tag (Task 0) [Level 16 true] ++ [].

Lemma ex_run : run (soft_step 0xF3200000) (loaded ex_env LogBus0) ex_trace ex_s3.
Proof.
  unfold ex_trace. eapply run_cons; [|eapply run_cons; [|eapply run_cons; [|apply run_nil]]].
  - apply (soft_call 0xF3200000 (loaded ex_env LogBus0) ex_limit (array_at 4096 [16; 0; 100])
      0x80001000 PWM_INIT 4096 0 ex_s1).
    + split; [|done]. intros a v. apply array_at_ints. ex_ints.
    + intros x Hx. vm_compute in Hx. injection Hx as <-. vm_compute. done.
    + vm_compute. reflexivity.
  - apply (soft_task 0xF3200000 ex_s1 0x80001000 (mkKthread 0 "pwmtask_1" true false AtTest) Tau ex_s2);
      [vm_compute; reflexivity | | vm_compute; reflexivity].
    exists (mkKthread 0 "pwmtask_1" true false AtTest). split_and!; [vm_compute; reflexivity|done|done].
  - apply (soft_task 0xF3200000 ex_s2 0x80001000 (mkKthread 0 "pwmtask_1" true false AtSet) (SetPin 16) ex_s3);
      [vm_compute; reflexivity | | vm_compute; reflexivity].
    exists (mkKthread 0 "pwmtask_1" true false AtSet). split_and!; [vm_compute; reflexivity|done|done].
Qed.

Lemma soft_refines_controller_witness :
  exists c, run (ctrl_step soft_params) (ctrl0 (pin_fsel 0xF3200000 LogBus0)) ex_trace c /\
    soft_rep 0xF3200000 c ex_s3 /\
    (forall i ch, chans c !! i = Some ch ->
       wave (pin (ch_entry ch)) Ready (acts (Task i) ex_trace) = Some (ch_phase ch)) /\
    (forall p, runnable ex_s3 p -> exists l s', task_step p ex_s3 = Ok (l, s')) /\
    (forall lim um kc cmd arg x, decode (soft_request lim cmd arg) um arg = Some x -> allowed c x ->
       exists r s', pwm_ioctl lim um kc cmd arg ex_s3 = Ok (r, s')).
Proof.
  apply (soft_refines_controller ex_env LogBus0 0xF3200000 (loaded ex_env LogBus0) ex_trace ex_s3);
    [reflexivity | reflexivity | vm_compute; discriminate | reflexivity | vm_compute; discriminate
    | reflexivity | vm_compute; reflexivity | exact ex_run].
Defined.
