(* ===== verification/XenoPwm.v ===== *)
(** * xenoPWM/main.c: the RTDM PWM driver

    The same four commands on a table of real-time tasks.  [rtdm_task_init],
    [rtdm_dev_register] and the value of [RTDM_CLASS_EXPERIMENTAL] belong to
    Xenomai, whose headers are not in the repository: what they return is a
    parameter.  A task that was created runs [pwm_task], one statement per
    [task_step]. *)

From S2P Require Import Prelude Ioctl Mmio PwmGpio PwmCommon.
Open Scope Z_scope.

(** ** xenopwm.h *)

Section commands.
Variable RTDM_CLASS_EXPERIMENTAL : Z.
Definition PIN_SET : Z := _IOW RTDM_CLASS_EXPERIMENTAL 0 4.
Definition GPIO_SET : Z := _IOW RTDM_CLASS_EXPERIMENTAL 1 4.
Definition PWM_INIT : Z := _IOW RTDM_CLASS_EXPERIMENTAL 2 4.
Definition PWM_SET : Z := _IOW RTDM_CLASS_EXPERIMENTAL 3 4.
End commands.

Definition PERIOD_NS : Z := Z.quot 1000000000 PWM_FREQ.
Definition TASK_PRIO : Z := 20.

(** [(PERIOD_NS / PWM_RANGE * duty_array[pos].duty_cycle)] *)
Definition HIGH_TIME (d : Dutycycle) : res Z :=
  q ← div32 PERIOD_NS (PWM_RANGE d); mret (q *i duty_cycle d)%cint.
Definition LOW_TIME (d : Dutycycle) : res Z :=
  q ← div32 PERIOD_NS (PWM_RANGE d); mret (q *i (PWM_RANGE d -i duty_cycle d))%cint.

(** ** State *)

(** Where a task stands in [pwm_task]. *)
Inductive xpc := XStart | XTest | XSet | XHigh | XClr | XLow | XExited.

Record rtask := mkRtask {
  rt_pos : Z;               (* the [void *] argument *)
  rt_name : string;
  rt_prio : Z;
  rt_stop : bool;           (* rtdm_task_should_stop() *)
  rt_pc : xpc;
}.
Definition set_rpc pc (t : rtask) := mkRtask (rt_pos t) (rt_name t) (rt_prio t) (rt_stop t) pc.

(** Calls to the RTDM device layer, in order. *)
Inductive devcall := DevRegister (ret : Z) | DevUnregister.

Record state (B : Type) := mkState {
  task_array : list (option rtask);   (* None: not initialised *)
  pwm_pin_count : Z;
  duty_array : option (list Dutycycle);
  gpio : option Z;
  bus : B;
  klog : list msg;
  dev_calls : list devcall;
}.
Arguments mkState {B}. Arguments task_array {B}. Arguments pwm_pin_count {B}.
Arguments duty_array {B}. Arguments gpio {B}. Arguments bus {B}. Arguments klog {B}.
Arguments dev_calls {B}.

Section setters.
Context {B : Type}.
Implicit Type s : state B.
Definition set_tasks v s := mkState v (pwm_pin_count s) (duty_array s) (gpio s) (bus s) (klog s) (dev_calls s).
Definition set_count v s := mkState (task_array s) v (duty_array s) (gpio s) (bus s) (klog s) (dev_calls s).
Definition set_duty v s := mkState (task_array s) (pwm_pin_count s) v (gpio s) (bus s) (klog s) (dev_calls s).
Definition set_gpio v s := mkState (task_array s) (pwm_pin_count s) (duty_array s) v (bus s) (klog s) (dev_calls s).
Definition set_bus v s : state B := mkState (task_array s) (pwm_pin_count s) (duty_array s) (gpio s) v (klog s) (dev_calls s).
Definition set_klog v s := mkState (task_array s) (pwm_pin_count s) (duty_array s) (gpio s) (bus s) v (dev_calls s).
Definition set_calls v s := mkState (task_array s) (pwm_pin_count s) (duty_array s) (gpio s) (bus s) (klog s) v.
End setters.

Arguments set_tasks {B} v s /. Arguments set_count {B} v s /. Arguments set_duty {B} v s /.
Arguments set_gpio {B} v s /. Arguments set_bus {B} v s /. Arguments set_klog {B} v s /.
Arguments set_calls {B} v s /.

(** The zeroed globals before [xeno_pwm_init]. *)
Definition state0 {B} (b : B) : state B := mkState (replicate 5 None) 0 None None b [] [].

(** What a statement of a task does to the outside. *)
Inductive label :=
  | Tau
  | SetPin (pin : Z)
  | ClrPin (pin : Z)
  | Sleep (ns : Z)
  | Exit.

Section driver.
Context {B : Type} `{RegBus B}.
Local Abbreviation D := (M (state B)).

Definition printk (fmt : string) (args : list Z) : D unit :=
  modify (fun s => set_klog (klog s ++ [Printk fmt args]) s).
Definition printks (fmt : string) (args : list Z) (str : string) : D unit :=
  modify (fun s => set_klog (klog s ++ [PrintkS fmt args str]) s).

Definition with_gpio (f : option Z -> M B unit) : D unit := fun s =>
  match f (gpio s) (bus s) with
  | Ok (_, b) => Ok (tt, set_bus b s)
  | Fault e => Fault e
  end.

Definition duty_get (i : Z) : D Dutycycle :=
  s ← get; lift (a ← need (duty_array s) NullDeref; aread a i).
Definition duty_put (i : Z) (f : Dutycycle -> Dutycycle) : D unit :=
  s ← get;
  a ← lift (need (duty_array s) NullDeref);
  d ← lift (aread a i);
  a' ← lift (awrite a i (f d));
  modify (set_duty (Some a')).
Definition task_put (i : Z) (t : option rtask) : D unit :=
  s ← get;
  l ← lift (awrite (task_array s) i t);
  modify (set_tasks l).

(** [rtdm_task_init(&task_array[i], name, pwm_task, pos, prio, 0)] answering
    [ret]: on 0 the task exists and starts. *)
Definition rtdm_task_init (ret i : Z) (nm : string) (pos prio : Z) : D Z :=
  if ret =? 0 then task_put i (Some (mkRtask pos nm prio false XStart));; mret 0
  else mret ret.

(** ** xeno_pwm_ioctl *)

Section ioctl.
Variable cls : Z.                   (* RTDM_CLASS_EXPERIMENTAL *)
Variable um : Z -> option Z.        (* the [int] at a user address *)
Variable ti : Z.                    (* what rtdm_task_init returns *)

Definition do_PIN_SET (arg : Z) : D Z :=
  t1 ← tmp um arg 1;
  if negb (t1 =? 0) && negb (t1 =? 1) then
    printk "wrong pin type input for PIN_SET!" [];; mret 0
  else
    t0 ← tmp um arg 0;
    (if t1 =? 0 then with_gpio (fun g => gpio_input g t0)
     else with_gpio (fun g => gpio_output g t0));;
    mret 0.

Definition do_GPIO_SET (arg : Z) : D Z :=
  t1 ← tmp um arg 1;
  if negb (t1 =? 0) && negb (t1 =? 1) then
    printk "wrong pin type input for GPIO_SET!" [];; mret 0
  else
    t0 ← tmp um arg 0;
    (if t1 =? 0 then with_gpio (fun g => gpio_clr g t0)
     else with_gpio (fun g => gpio_set g t0));;
    mret 0.

Definition do_PWM_INIT (arg : Z) : D Z :=
  t0 ← tmp um arg 0; n ← gets pwm_pin_count; duty_put n (set_pin t0);;
  t1 ← tmp um arg 1; n ← gets pwm_pin_count; duty_put n (set_dmin t1);;
  t2 ← tmp um arg 2; n ← gets pwm_pin_count; duty_put n (set_dmax t2);;
  n ← gets pwm_pin_count; duty_put n (set_duty_cycle 10);;
  n ← gets pwm_pin_count; d ← duty_get n; nm ← lift (aread name n);
  printks "%d, %d, %d, %d, %s" [pin d; dmin d; dmax d; duty_cycle d] nm;;
  n ← gets pwm_pin_count; nm ← lift (aread name n);
  err ← rtdm_task_init ti n nm n TASK_PRIO;
  if negb (err =? 0) then
    n ← gets pwm_pin_count;
    printk "failed to create pwm task on rtdm_task_init %d" [n];; mret err
  else
    n ← gets pwm_pin_count; modify (set_count (n +i 1)%cint);;
    mret err.

(** [for (i = 0; i < pwm_pin_count; i++) if (duty_array[i].pin == tmp[0]) ...] *)
Fixpoint find_pin (arg : Z) (k : nat) (i : Z) : D (option Z) :=
  match k with
  | O => mret None
  | S k' =>
      d ← duty_get i;
      t0 ← tmp um arg 0;
      if pin d =? t0 then mret (Some i) else find_pin arg k' (i + 1)
  end.

Definition do_PWM_SET (arg : Z) : D Z :=
  n ← gets pwm_pin_count;
  r ← find_pin arg (Z.to_nat n) 0;
  match r with
  | None => printk "wrong pin input for PWM_SET!" [];; mret 0
  | Some pos => t1 ← tmp um arg 1; duty_put pos (set_duty_cycle t1);; mret 0
  end.

Definition xeno_pwm_ioctl (cmd arg : Z) : D Z :=
  if cmd =? PIN_SET cls then do_PIN_SET arg
  else if cmd =? GPIO_SET cls then do_GPIO_SET arg
  else if cmd =? PWM_INIT cls then do_PWM_INIT arg
  else if cmd =? PWM_SET cls then do_PWM_SET arg
  else mret 0.
End ioctl.

(** ** Init and exit *)

Record init_env := mkInitEnv {
  ioremap_ret : option Z;
  kzalloc_duty : bool;
  dev_register_ret : Z;
}.

Definition xeno_pwm_init (e : init_env) : D Z :=
  printk "XenoPWM module load." [];;
  modify (set_gpio (ioremap_ret e));;
  (if kzalloc_duty e
   then modify (set_duty (Some (replicate 5 Dutycycle0)))
   else modify (set_duty None);;
        printk "failed to allocate duty_array memory by kzalloc" []);;
  modify (fun s => set_calls (dev_calls s ++ [DevRegister (dev_register_ret e)]) s);;
  (if negb (dev_register_ret e =? 0)
   then printk "failed to register RTDM device for xenopwm" [] else mret tt);;
  mret 0.

(** [rtdm_task_destroy(&task_array[i])]: stops the task and waits for it. *)
Definition rtdm_task_destroy (i : Z) : D unit :=
  s ← get;
  t ← lift (aread (task_array s) i);
  _ ← lift (need t UseAfterFree);
  task_put i None.

(** [for (i = 0; i < pwm_pin_count; i++) rtdm_task_destroy(&task_array[i])] *)
Fixpoint destroy_tasks (k : nat) (i : Z) : D unit :=
  match k with
  | O => mret tt
  | S k' => rtdm_task_destroy i;; destroy_tasks k' (i + 1)
  end.

Definition xeno_pwm_exit : D unit :=
  printk "XenoPWM module unload." [];;
  n ← gets pwm_pin_count; destroy_tasks (Z.to_nat n) 0;;
  modify (fun s => set_calls (dev_calls s ++ [DevUnregister]) s).

(** ** pwm_task *)

(** The task in slot [i], and its new position. *)
Definition task_get (i : Z) : D rtask :=
  s ← get; lift (t ← aread (task_array s) i; need t UseAfterFree).
Definition task_pc (i : Z) (pc : xpc) : D unit :=
  t ← task_get i; task_put i (Some (set_rpc pc t)).

Definition task_step (i : Z) : D label :=
  t ← task_get i;
  match rt_pc t with
  | XStart =>
      d ← duty_get (rt_pos t);
      printk "pwm_task for pin %d start" [pin d];;
      task_pc i XTest;; mret Tau
  | XTest =>
      if rt_stop t then task_pc i XExited;; mret Exit
      else task_pc i XSet;; mret Tau
  | XSet =>
      d ← duty_get (rt_pos t);
      with_gpio (fun g => gpio_set g (pin d));;
      task_pc i XHigh;; mret (SetPin (pin d))
  | XHigh =>
      d ← duty_get (rt_pos t);
      h ← lift (HIGH_TIME d);
      task_pc i XClr;; mret (Sleep h)
  | XClr =>
      d ← duty_get (rt_pos t);
      with_gpio (fun g => gpio_clr g (pin d));;
      task_pc i XLow;; mret (ClrPin (pin d))
  | XLow =>
      d ← duty_get (rt_pos t);
      l ← lift (LOW_TIME d);
      task_pc i XTest;; mret (Sleep l)
  | XExited => mret Tau
  end.

Fixpoint run_task (n : nat) (i : Z) : D (list label) :=
  match n with
  | O => mret []
  | S n' => l ← task_step i; ls ← run_task n' i; mret (l :: ls)
  end.
End driver.

(** ** Running the accessors *)

Ltac xred := cbn [task_array pwm_pin_count duty_array gpio bus klog dev_calls set_tasks set_count
  set_duty set_gpio set_bus set_klog set_calls].

Section run.
Context {B : Type} `{RegBus B}.
Implicit Type s : state B.

Lemma xduty_get_run s a i d :
  duty_array s = Some a -> 0 <= i -> a !! Z.to_nat i = Some d -> duty_get i s = Ok (d, s).
Proof.
  intros Ha Hi Hd. unfold duty_get. rewrite Mbind_get, Ha. cbn [need mbind res_bind].
  by rewrite (aread_lookup a i d).
Qed.

Lemma xduty_put_run s a i d f :
  duty_array s = Some a -> 0 <= i -> a !! Z.to_nat i = Some d ->
  duty_put i f s = Ok (tt, set_duty (Some (<[Z.to_nat i := f d]> a)) s).
Proof.
  intros Ha Hi Hd. pose proof (lookup_lt_Some _ _ _ Hd).
  unfold duty_put. rewrite Mbind_get, Ha. cbn [need]. rewrite Mbind_lift.
  rewrite (aread_lookup a i d), Mbind_lift by done. by rewrite awrite_in, Mbind_lift by lia.
Qed.

Lemma xduty_put_oob s a i f :
  duty_array s = Some a -> ~ 0 <= i < Z.of_nat (length a) ->
  duty_put i f s = Fault OutOfBounds.
Proof.
  intros Ha Hi. unfold duty_put. rewrite Mbind_get, Ha. cbn [need]. rewrite Mbind_lift.
  apply Mbind_fault. by rewrite aread_oob.
Qed.

Lemma task_put_run s i t :
  0 <= i < Z.of_nat (length (task_array s)) ->
  task_put i t s = Ok (tt, set_tasks (<[Z.to_nat i := t]> (task_array s)) s).
Proof. intros Hi. unfold task_put. by rewrite Mbind_get, awrite_in, Mbind_lift by lia. Qed.

Lemma task_get_run s i t :
  0 <= i -> task_array s !! Z.to_nat i = Some (Some t) -> task_get i s = Ok (t, s).
Proof.
  intros Hi Ht. unfold task_get. rewrite Mbind_get, (aread_lookup _ _ _ Hi Ht). done.
Qed.

Lemma task_pc_run s i t pc :
  0 <= i -> task_array s !! Z.to_nat i = Some (Some t) ->
  task_pc i pc s = Ok (tt, set_tasks (<[Z.to_nat i := Some (set_rpc pc t)]> (task_array s)) s).
Proof.
  intros Hi Ht. pose proof (lookup_lt_Some _ _ _ Ht). unfold task_pc.
  rewrite (Mbind_run _ _ _ _ _ (task_get_run s i t Hi Ht)). apply task_put_run. lia.
Qed.

Lemma Mbind_xprintk {A} fmt args (k : unit -> M (state B) A) s :
  (printk fmt args ≫= k) s = k tt (set_klog (klog s ++ [Printk fmt args]) s).
Proof. done. Qed.
Lemma Mbind_xprintks {A} fmt args str (k : unit -> M (state B) A) s :
  (printks fmt args str ≫= k) s = k tt (set_klog (klog s ++ [PrintkS fmt args str]) s).
Proof. done. Qed.
End run.

Ltac xlookup :=
  xred; rewrite ?list_lookup_insert_eq by (rewrite ?length_insert; lia);
  first [reflexivity | eassumption].
Ltac xrun_solve :=
  first
    [ eapply xduty_get_run; [reflexivity | lia | xlookup]
    | eapply xduty_put_run; [reflexivity | lia | xlookup]
    | eapply task_put_run; xred; rewrite ?length_insert; lia
    | match goal with
      | Hu : user_args _ ?arg _ |- tmp _ ?arg ?i _ = _ =>
          eapply (user_args_tmp _ arg _ (Z.to_nat i)); [exact Hu | reflexivity]
      end
    | match goal with |- lift (aread _ _) _ = _ =>
        erewrite aread_lookup; [reflexivity | lia | eassumption] end ].
Ltac xstep :=
  first
    [ rewrite Mbind_assoc | rewrite Mbind_gets | rewrite Mbind_get | rewrite Mbind_modify
    | rewrite Mbind_ret | rewrite Mbind_lift | rewrite Mbind_xprintk | rewrite Mbind_xprintks
    | erewrite Mbind_run; [|solve [xrun_solve]] ]; xred.

(** ** The invariant and the commands *)

Section invariant.
Context {B : Type} `{RegBus B}.
Implicit Type s : state B.

(** The table is allocated, and exactly the slots in use hold a task, which
    runs on its own entry. *)
Record wf s : Prop := {
  wf_count : 0 <= pwm_pin_count s <= MAX_PWM_NUM;
  wf_duty : exists a, duty_array s = Some a /\ length a = 5%nat /\
              Forall (fun d => is_s 32 (pin d) /\ is_s 32 (duty_cycle d) /\
                               is_s 32 (dmin d) /\ is_s 32 (dmax d)) a;
  wf_len : length (task_array s) = 5%nat;
  wf_used : forall i, 0 <= i < pwm_pin_count s -> exists t,
              task_array s !! Z.to_nat i = Some (Some t) /\ rt_pos t = i;
  wf_unused : forall i, pwm_pin_count s <= i < 5 -> task_array s !! Z.to_nat i = Some None;
}.

(** The driver after [PWM_INIT]: the entry is filled in before the task is
    created, and stays filled in when that fails. *)
Definition after_fill (a : list Dutycycle) (nm : string) (t0 t1 t2 : Z) s : state B :=
  set_klog (klog s ++ [PrintkS "%d, %d, %d, %d, %s" [t0; t1; t2; 10] nm])
    (set_duty (Some (<[Z.to_nat (pwm_pin_count s) := mkDutycycle t0 10 t1 t2]> a)) s).
Definition after_init (ti : Z) (a : list Dutycycle) (nm : string) (t0 t1 t2 : Z) s : state B :=
  let s' := after_fill a nm t0 t1 t2 s in
  let n := pwm_pin_count s in
  if ti =? 0
  then set_count (n + 1)
         (set_tasks (<[Z.to_nat n := Some (mkRtask n nm TASK_PRIO false XStart)]> (task_array s)) s')
  else set_klog (klog s' ++ [Printk "failed to create pwm task on rtdm_task_init %d" [n]]) s'.

Lemma xdo_PWM_INIT_run um ti s a nm arg t0 t1 t2 :
  duty_array s = Some a -> name !! Z.to_nat (pwm_pin_count s) = Some nm ->
  0 <= pwm_pin_count s -> length a = 5%nat -> length (task_array s) = 5%nat ->
  user_args um arg [t0; t1; t2] ->
  do_PWM_INIT um ti arg s = Ok (ti, after_init ti a nm t0 t1 t2 s).
Proof.
  intros Ha Hn Hc La Ll Hu. unfold do_PWM_INIT.
  assert (pwm_pin_count s < 5) by (apply lookup_lt_Some in Hn; cbn in Hn; lia).
  destruct (lookup_Z a (pwm_pin_count s)) as [d Hd]; [lia|].
  destruct s as [ta n du g b lg dc]; cbn in *. subst du.
  repeat xstep. unfold rtdm_task_init, after_init, after_fill.
  destruct (ti =? 0) eqn:Eti.
  - apply Z.eqb_eq in Eti. subst ti. repeat xstep. cbn [Z.eqb negb]. repeat xstep.
    unfold mret, M_ret. by rewrite !list_insert_insert_eq, i32_small by lia.
  - rewrite Mbind_ret. rewrite Eti. cbn [negb]. repeat xstep. unfold mret, M_ret.
    by rewrite !list_insert_insert_eq.
Qed.

Lemma xdo_PWM_INIT_full um ti s a arg t0 l :
  duty_array s = Some a -> length a = 5%nat -> 5 <= pwm_pin_count s ->
  user_args um arg (t0 :: l) -> do_PWM_INIT um ti arg s = Fault OutOfBounds.
Proof.
  intros Ha La Hc Hu. unfold do_PWM_INIT.
  rewrite (Mbind_run _ _ _ _ _ (user_args_tmp um arg _ 0 t0 s Hu eq_refl)).
  rewrite Mbind_gets. apply Mbind_fault. by rewrite (xduty_put_oob s a) by (done || lia).
Qed.

(** Every way [PWM_INIT] returns. *)
Lemma xdo_PWM_INIT_inv um ti s s' arg r :
  wf s -> do_PWM_INIT um ti arg s = Ok (r, s') ->
  exists a nm t0 t1 t2, duty_array s = Some a /\ name !! Z.to_nat (pwm_pin_count s) = Some nm /\
    pwm_pin_count s < 5 /\ user_args um arg [t0; t1; t2] /\ r = ti /\
    s' = after_init ti a nm t0 t1 t2 s.
Proof.
  intros [Hc (a & Ha & La & _) Ll _ _] Hr. unfold MAX_PWM_NUM in Hc.
  destruct (um (u32 (arg + 4 * 0))) as [t0|] eqn:E0; [|exfalso; revert Hr].
  2: { unfold do_PWM_INIT. by rewrite (Mbind_fault _ _ _ _ (tmp_fault _ _ _ _ E0)). }
  destruct (decide (5 <= pwm_pin_count s)) as [Hf|Hf].
  { assert (user_args um arg [t0]) as Hu by (by intros [|i] v [= <-]).
    by rewrite (xdo_PWM_INIT_full um ti s a arg t0 []) in Hr. }
  destruct (lookup_Z name (pwm_pin_count s)) as [nm Hn]; [cbn; lia|].
  destruct (um (u32 (arg + 4 * 1))) as [t1|] eqn:E1.
  destruct (um (u32 (arg + 4 * 2))) as [t2|] eqn:E2.
  { assert (user_args um arg [t0; t1; t2]) as Hu.
    { intros [|[|[|i]]] v; cbn; intros [= <-]; done. }
    rewrite (xdo_PWM_INIT_run um ti s a nm arg t0 t1 t2) in Hr by (done || lia).
    injection Hr as <- <-. exists a, nm, t0, t1, t2. split_and!; done || lia. }
  all: exfalso; revert Hr; unfold do_PWM_INIT;
    destruct (lookup_Z a (pwm_pin_count s)) as [d Hd]; [lia|];
    destruct s as [ta n du g b lg dc]; cbn in *; subst du;
    rewrite (Mbind_run _ _ _ _ _ (tmp_run _ _ _ _ _ E0)); repeat xstep;
    repeat first
      [ rewrite (Mbind_run _ _ _ _ _ (tmp_run _ _ _ _ _ E1)); repeat xstep
      | rewrite (Mbind_fault _ _ _ _ (tmp_fault _ _ _ _ E1))
      | rewrite (Mbind_fault _ _ _ _ (tmp_fault _ _ _ _ E2)) ]; done.
Qed.
End invariant.

(** ** Dispatch and load *)

Section dispatch.
Context {B : Type} `{RegBus B}.
Implicit Type s : state B.

(** The four command words differ, whatever the device class. *)
Lemma cmd_eqb cls m n : 0 <= cls < 256 -> 0 <= m < 256 -> 0 <= n < 256 ->
  (_IOW cls m 4 =? _IOW cls n 4) = (m =? n).
Proof.
  intros Hc Hm Hn. apply eq_true_iff_eq. rewrite !Z.eqb_eq. split; [|by intros ->].
  intros E. apply (f_equal _IOC_NR) in E. unfold _IOW in E.
  by rewrite !_IOC_NR_IOC in E by (unfold _IOC_WRITE, is_u; lia).
Qed.

Lemma xeno_dispatch cls um ti s arg :
  0 <= cls < 256 ->
  xeno_pwm_ioctl cls um ti (PIN_SET cls) arg s = do_PIN_SET um arg s /\
  xeno_pwm_ioctl cls um ti (GPIO_SET cls) arg s = do_GPIO_SET um arg s /\
  xeno_pwm_ioctl cls um ti (PWM_INIT cls) arg s = do_PWM_INIT um ti arg s /\
  xeno_pwm_ioctl cls um ti (PWM_SET cls) arg s = do_PWM_SET um arg s.
Proof.
  intros Hc. unfold xeno_pwm_ioctl, PIN_SET, GPIO_SET, PWM_INIT, PWM_SET.
  rewrite !(cmd_eqb cls _ _ Hc) by lia. done.
Qed.

Definition xeno_loaded (e : init_env) (b : B) : state B :=
  mkState (replicate 5 None) 0 (Some (replicate 5 Dutycycle0)) (ioremap_ret e) b
    ([Printk "XenoPWM module load." []] ++
     if dev_register_ret e =? 0 then [] else [Printk "failed to register RTDM device for xenopwm" []])
    [DevRegister (dev_register_ret e)].

Lemma xeno_init_loaded e (b : B) :
  kzalloc_duty e = true -> xeno_pwm_init e (state0 b) = Ok (0, xeno_loaded e b).
Proof.
  intros E. unfold xeno_pwm_init, xeno_loaded. rewrite E.
  by destruct (dev_register_ret e =? 0).
Qed.

Lemma wf_xeno_loaded e (b : B) : wf (xeno_loaded e b).
Proof.
  split; unfold xeno_loaded; xred.
  - unfold MAX_PWM_NUM. lia.
  - eexists. split_and!; [done|done|]. by repeat constructor.
  - done.
  - intros i Hi. lia.
  - intros i Hi. rewrite lookup_replicate_2; [done|lia].
Qed.

End dispatch.

(** ** Sleep times *)

Lemma xeno_times d :
  let r := dmax d - dmin d in
  0 < r < 2 ^ 31 -> 0 <= duty_cycle d <= r ->
  HIGH_TIME d = Ok (10000000 / r * duty_cycle d) /\
  LOW_TIME d = Ok (10000000 / r * (r - duty_cycle d)).
Proof.
  cbn zeta. intros Hr Hd. unfold HIGH_TIME, LOW_TIME.
  rewrite PWM_RANGE_small by (unfold is_s; lia). change PERIOD_NS with 10000000.
  rewrite div32_ok, quot_div by lia. unfold mbind, res_bind, mret, res_ret.
  set (r := dmax d - dmin d) in *.
  assert (0 <= 10000000 / r) by (apply Z.div_pos; lia).
  assert (10000000 / r * r <= 10000000) by (rewrite Z.mul_comm; apply Z.mul_div_le; lia).
  rewrite (i32_small (r - _)) by lia. by rewrite !i32_small by nia.
Qed.

(** * Properties *)

Section properties.
Context {B : Type} `{RegBus B}.
Implicit Type sx : state B.

(** xenoPWM's [PWM_INIT] fills the next entry (duty cycle 10) and returns
    what [rtdm_task_init] returns.  On 0 the channel is counted and its task
    starts at priority 20; on an error the count and the tasks are as before, but
    the entry stays filled in.  With five channels in use it writes past the
    table. *)
Theorem xeno_PWM_INIT cls um ti arg sx a t0 t1 t2 :
  0 <= cls < 256 -> wf sx -> duty_array sx = Some a ->
  user_args um arg [t0; t1; t2] ->
  let n := Z.to_nat (pwm_pin_count sx) in
  if decide (pwm_pin_count sx = MAX_PWM_NUM)
  then xeno_pwm_ioctl cls um ti (PWM_INIT cls) arg sx = Fault OutOfBounds
  else exists sx' nm, xeno_pwm_ioctl cls um ti (PWM_INIT cls) arg sx = Ok (ti, sx') /\
    name !! n = Some nm /\
    duty_array sx' = Some (<[n := mkDutycycle t0 10 t1 t2]> a) /\
    bus sx' = bus sx /\
    pwm_pin_count sx' = pwm_pin_count sx + (if decide (ti = 0) then 1 else 0) /\
    task_array sx' = (if decide (ti = 0)
      then <[n := Some (mkRtask (pwm_pin_count sx) nm 20 false XStart)]> (task_array sx)
      else task_array sx).
Proof.
  intros Hcls [Hc (a' & Ha' & La & _) Ll _ _] Ha Hu n. rewrite Ha in Ha'. injection Ha' as <-.
  destruct (xeno_dispatch cls um ti sx arg Hcls) as (_ & _ & -> & _). unfold MAX_PWM_NUM in *.
  case_decide as Hd.
  - apply (xdo_PWM_INIT_full um ti sx a arg t0 [t1; t2]); done || lia.
  - destruct (lookup_Z name (pwm_pin_count sx)) as [nm Hn]; [cbn; lia|].
    rewrite (xdo_PWM_INIT_run um ti sx a nm arg t0 t1 t2) by (done || lia).
    eexists _, nm. split; [done|]. unfold after_init, after_fill.
    destruct (Z.eqb_spec ti 0); case_decide; try done; xred; split_and!; try done; lia.
Qed.

(** Sleep times of a xenoPWM period.  For a positive range and a duty cycle
    within it both times are computed without overflow and the period is
    [10^7 / range * range] nanoseconds: less than [range] nanoseconds short of a
    100 Hz period, and zero, the task never sleeping, for a range above ten
    million. *)
Theorem xeno_sleep_times d :
  let r := dmax d - dmin d in
  0 < r < 2 ^ 31 -> 0 <= duty_cycle d <= r ->
  exists h l, HIGH_TIME d = Ok h /\ LOW_TIME d = Ok l /\ 0 <= h /\ 0 <= l /\
    h + l = 10000000 / r * r /\ 10000000 - r < h + l <= 10000000 /\
    (10000000 < r -> h = 0 /\ l = 0).
Proof.
  cbn zeta. intros Hr Hd. destruct (xeno_times d Hr Hd) as [-> ->].
  set (r := dmax d - dmin d) in *. eexists _, _.
  assert (0 <= 10000000 / r) by (apply Z.div_pos; lia).
  pose proof (Z.div_mod 10000000 r ltac:(lia)). pose proof (Z.mod_pos_bound 10000000 r ltac:(lia)).
  split_and!; try done; try nia.
Qed.

End properties.

(** * Concrete runs *)

Definition ex_xenv : init_env := mkInitEnv (Some 0xF3200000) true 0.
Definition ex_xloaded : state LogBus := xeno_loaded ex_xenv LogBus0.
Definition ex_cls : Z := 224.

Lemma xeno_PWM_INIT_witness :
  exists sx' nm, xeno_pwm_ioctl ex_cls (array_at 4096 [16; 0; 100]) (- ENOMEM) (PWM_INIT ex_cls) 4096
      ex_xloaded = Ok (- ENOMEM, sx') /\
    name !! 0%nat = Some nm /\
    duty_array sx' = Some (<[0%nat := mkDutycycle 16 10 0 100]> (replicate 5 Dutycycle0)) /\
    bus sx' = bus ex_xloaded /\
    pwm_pin_count sx' = pwm_pin_count ex_xloaded + (if decide (- ENOMEM = 0) then 1 else 0) /\
    task_array sx' = (if decide (- ENOMEM = 0)
      then <[0%nat := Some (mkRtask (pwm_pin_count ex_xloaded) nm 20 false XStart)]> (task_array ex_xloaded)
      else task_array ex_xloaded).
Proof.
  pose proof (xeno_PWM_INIT ex_cls (array_at 4096 [16; 0; 100]) (- ENOMEM) 4096 ex_xloaded
    (replicate 5 Dutycycle0) 16 0 100 ltac:(unfold ex_cls; lia) (wf_xeno_loaded ex_xenv LogBus0)
    ltac:(reflexivity) ltac:(apply array_at_args; cbn; lia)) as Hw.
  cbv zeta in Hw. rewrite decide_False in Hw by (vm_compute; discriminate). exact Hw.
Defined.

Lemma xeno_sleep_times_witness :
  exists h l, HIGH_TIME (mkDutycycle 16 1 0 3) = Ok h /\ LOW_TIME (mkDutycycle 16 1 0 3) = Ok l /\
    0 <= h /\ 0 <= l /\ h + l = 10000000 / (3 - 0) * (3 - 0) /\
    10000000 - (3 - 0) < h + l <= 10000000 /\ (10000000 < 3 - 0 -> h = 0 /\ l = 0).
Proof. apply (xeno_sleep_times (mkDutycycle 16 1 0 3)); cbn [dmax dmin duty_cycle]; lia. Defined.
