(* ===== verification/XenoSim.v ===== *)
(** * xenoPWM against softPWM

    The commands [PIN_SET], [GPIO_SET] and [PWM_SET] of the two drivers are
    related by a simulation: on drivers with the same table, registers and log
    they return the same value, fault in the same cases and leave the drivers
    with the same table, registers and log.  The xenoPWM invariant and the
    functional behaviour of its commands follow. *)

From S2P Require Import Prelude Ioctl Mmio PwmGpio PwmCommon.
From S2P Require Import SoftPwm.
From S2P Require Import XenoPwm.
Open Scope Z_scope.

Section simulation.
Context {B : Type} `{RegBus B}.
Implicit Types (sx : XenoPwm.state B) (ss : SoftPwm.state B).

(** The part the drivers share. *)
Record related sx ss : Prop := {
  rel_count : XenoPwm.pwm_pin_count sx = SoftPwm.pwm_pin_count ss;
  rel_duty : XenoPwm.duty_array sx = SoftPwm.duty_array ss;
  rel_gpio : XenoPwm.gpio sx = SoftPwm.gpio ss;
  rel_bus : XenoPwm.bus sx = SoftPwm.bus ss;
  rel_klog : XenoPwm.klog sx = SoftPwm.klog ss;
}.

(** What the three commands leave alone. *)
Definition frame sx sx' : Prop :=
  task_array sx' = task_array sx /\ dev_calls sx' = dev_calls sx /\
  XenoPwm.pwm_pin_count sx' = XenoPwm.pwm_pin_count sx /\ XenoPwm.gpio sx' = XenoPwm.gpio sx.

Definition sim_res {A} sx (rx : res (A * XenoPwm.state B)) (rs : res (A * SoftPwm.state B)) : Prop :=
  match rx, rs with
  | Ok (x, sx'), Ok (y, ss') => x = y /\ related sx' ss' /\ frame sx sx'
  | Fault e, Fault e' => e = e'
  | _, _ => False
  end.

Definition sim {A} (mx : M (XenoPwm.state B) A) (ms : M (SoftPwm.state B) A) : Prop :=
  forall sx ss, related sx ss -> sim_res sx (mx sx) (ms ss).

Lemma frame_refl sx : frame sx sx.
Proof. done. Qed.
Lemma frame_trans s1 s2 s3 : frame s1 s2 -> frame s2 s3 -> frame s1 s3.
Proof. unfold frame. intuition congruence. Qed.

Lemma sim_bind {A C} mx ms (kx : A -> M (XenoPwm.state B) C) ks :
  sim mx ms -> (forall x, sim (kx x) (ks x)) -> sim (mx ≫= kx) (ms ≫= ks).
Proof.
  intros Hm Hk sx ss Hr. rewrite !Mbind_unfold. specialize (Hm sx ss Hr). unfold sim_res in Hm.
  destruct (mx sx) as [[x sx']|], (ms ss) as [[y ss']|]; try done.
  destruct Hm as (<- & Hr' & Hf). specialize (Hk x sx' ss' Hr'). unfold sim_res in *.
  destruct (kx x sx') as [[]|], (ks x ss') as [[]|]; try done.
  destruct Hk as (? & ? & ?). split_and!; [done..|]. by eapply frame_trans.
Qed.

Lemma sim_ret {A} (x : A) : sim (mret x) (mret x).
Proof. intros sx ss Hr. split_and!; [done..|apply frame_refl]. Qed.

Lemma sim_if {A} (b : bool) (m1 m2 : M (XenoPwm.state B) A) m1' m2' :
  sim m1 m1' -> sim m2 m2' -> sim (if b then m1 else m2) (if b then m1' else m2').
Proof. by destruct b. Qed.

Lemma sim_count : sim (gets XenoPwm.pwm_pin_count) (gets SoftPwm.pwm_pin_count).
Proof. intros sx ss Hr. split_and!; [apply Hr|done|apply frame_refl]. Qed.

Lemma sim_tmp um arg i : sim (tmp um arg i) (tmp um arg i).
Proof.
  intros sx ss Hr. unfold tmp, lift. destruct (um _); cbn; [|done].
  split_and!; [done..|apply frame_refl].
Qed.

Lemma sim_printk fmt l : sim (XenoPwm.printk fmt l) (SoftPwm.printk fmt l).
Proof. intros sx ss [? ? ? ? E]. split; [done|]. split; [|done]. split; cbn; congruence. Qed.

Lemma sim_with_gpio f : sim (XenoPwm.with_gpio f) (SoftPwm.with_gpio f).
Proof.
  intros sx ss [? ? Eg Eb ?]. unfold sim_res, XenoPwm.with_gpio, SoftPwm.with_gpio. rewrite Eg, Eb.
  destruct (f _ _) as [[[] b]|]; [|done]. split; [done|]. by split.
Qed.

Lemma sim_duty_get i : sim (XenoPwm.duty_get i) (SoftPwm.duty_get i).
Proof.
  intros sx ss Hr. unfold XenoPwm.duty_get, SoftPwm.duty_get. rewrite !Mbind_get, (rel_duty _ _ Hr).
  unfold lift, sim_res. destruct (_ ≫= _) as [d|]; [|done]. split_and!; [done..|apply frame_refl].
Qed.

Lemma sim_duty_put i f : sim (XenoPwm.duty_put i f) (SoftPwm.duty_put i f).
Proof.
  intros sx ss [? Ed ? ? ?]. unfold XenoPwm.duty_put, SoftPwm.duty_put. rewrite !Mbind_get, Ed.
  destruct (SoftPwm.duty_array ss) as [a|]; cbn [need]; [rewrite !Mbind_lift | done].
  destruct (aread a i) as [d|]; [rewrite !Mbind_lift | done].
  destruct (awrite a i (f d)); [|done]. split; [done|]. by split.
Qed.

Lemma sim_find_pin um arg k i : sim (XenoPwm.find_pin um arg k i) (SoftPwm.find_pin um arg k i).
Proof.
  revert i. induction k as [|k IH]; intros i; [apply sim_ret|].
  apply sim_bind; [apply sim_duty_get|intros d]. apply sim_bind; [apply sim_tmp|intros t0].
  apply sim_if; [apply sim_ret|apply IH].
Qed.
End simulation.

Create HintDb sim.
#[export] Hint Resolve sim_bind sim_ret sim_if sim_count sim_tmp sim_printk sim_with_gpio
  sim_duty_get sim_duty_put sim_find_pin : sim.

Ltac sim_solve :=
  repeat first
    [ apply sim_ret | apply sim_if | apply sim_count | apply sim_tmp | apply sim_printk
    | apply sim_with_gpio | apply sim_duty_get | apply sim_duty_put | apply sim_find_pin
    | apply sim_bind; [|intros ?] | case_match ].

(** ** The commands *)

Section commands.
Context {B : Type} `{RegBus B}.
Implicit Types (sx : XenoPwm.state B) (ss : SoftPwm.state B).

Lemma sim_PIN_SET um arg : sim (B := B) (XenoPwm.do_PIN_SET um arg) (SoftPwm.do_PIN_SET um arg).
Proof. unfold XenoPwm.do_PIN_SET, SoftPwm.do_PIN_SET. sim_solve. Qed.
Lemma sim_GPIO_SET um arg : sim (B := B) (XenoPwm.do_GPIO_SET um arg) (SoftPwm.do_GPIO_SET um arg).
Proof. unfold XenoPwm.do_GPIO_SET, SoftPwm.do_GPIO_SET. sim_solve. Qed.
Lemma sim_PWM_SET um arg : sim (B := B) (XenoPwm.do_PWM_SET um arg) (SoftPwm.do_PWM_SET um arg).
Proof. unfold XenoPwm.do_PWM_SET, SoftPwm.do_PWM_SET. sim_solve. Qed.

(** Which branch a returning call took. *)
Lemma xeno_ioctl_inv cls um ti sx cmd arg r sx' :
  xeno_pwm_ioctl cls um ti cmd arg sx = Ok (r, sx') ->
  (r = 0 /\ sx' = sx) \/ XenoPwm.do_PIN_SET um arg sx = Ok (r, sx') \/
  XenoPwm.do_GPIO_SET um arg sx = Ok (r, sx') \/
  XenoPwm.do_PWM_INIT um ti arg sx = Ok (r, sx') \/ XenoPwm.do_PWM_SET um arg sx = Ok (r, sx').
Proof.
  unfold xeno_pwm_ioctl. repeat case_match; intros Hr; try tauto. minv. by left.
Qed.

(** Any driver has a softPWM driver related to it. *)
Definition soft_of sx : SoftPwm.state B :=
  SoftPwm.mkState None None (XenoPwm.pwm_pin_count sx) (XenoPwm.duty_array sx) (XenoPwm.gpio sx)
    0 0 (XenoPwm.bus sx) ∅ (XenoPwm.klog sx) [] [] [].
Lemma soft_of_related sx : related sx (soft_of sx).
Proof. by split. Qed.

Lemma sim_run {A} (mx : M (XenoPwm.state B) A) ms sx x sx' :
  sim mx ms -> mx sx = Ok (x, sx') ->
  exists ss', ms (soft_of sx) = Ok (x, ss') /\ related sx' ss' /\ frame sx sx'.
Proof.
  intros Hs Hr. specialize (Hs sx (soft_of sx) (soft_of_related sx)). rewrite Hr in Hs.
  unfold sim_res in Hs. destruct (ms (soft_of sx)) as [[y ss']|]; [|done].
  destruct Hs as (<- & ? & ?). by exists ss'.
Qed.

(** ** The invariant is preserved *)

Lemma wf_frame sx sx' a :
  XenoPwm.wf sx -> frame sx sx' -> XenoPwm.duty_array sx' = Some a -> length a = 5%nat ->
  Forall (fun d => is_s 32 (pin d) /\ is_s 32 (duty_cycle d) /\
                   is_s 32 (dmin d) /\ is_s 32 (dmax d)) a -> XenoPwm.wf sx'.
Proof.
  intros [Hc _ Hl Hu Hn] (Et & Ec & En & _) Ha La Hall.
  split; rewrite ?Et, ?En; try done. by exists a.
Qed.

Lemma xwf_after_init ti sx a nm t0 t1 t2 :
  XenoPwm.wf sx -> XenoPwm.duty_array sx = Some a -> XenoPwm.pwm_pin_count sx < 5 ->
  Forall (is_s 32) [t0; t1; t2] -> XenoPwm.wf (XenoPwm.after_init ti a nm t0 t1 t2 sx).
Proof.
  intros [Hc (a' & Ha' & La & Hall) Hl Hu Hn] Ha Hlt Hi. rewrite Ha in Ha'. injection Ha' as <-.
  assert (Forall (fun d => is_s 32 (pin d) /\ is_s 32 (duty_cycle d) /\
            is_s 32 (dmin d) /\ is_s 32 (dmax d))
            (<[Z.to_nat (XenoPwm.pwm_pin_count sx) := mkDutycycle t0 10 t1 t2]> a)) as Hall'.
  { rewrite !Forall_cons in Hi. destruct Hi as (? & ? & ? & _).
    apply Forall_insert; [done|]. by split_and!. }
  unfold XenoPwm.after_init, after_fill, MAX_PWM_NUM in *. destruct (ti =? 0); split; xred; try done.
  all: try (eexists; split_and!; [done|by rewrite length_insert|done]).
  - unfold MAX_PWM_NUM. lia.
  - by rewrite length_insert.
  - intros i Hi'. destruct (decide (i = XenoPwm.pwm_pin_count sx)) as [->|Hne].
    + rewrite list_lookup_insert_eq by lia. by eexists.
    + rewrite list_lookup_insert_ne by lia. apply Hu. lia.
  - intros i Hi'. rewrite list_lookup_insert_ne by lia. apply Hn. lia.
Qed.

Lemma xeno_preserves cls um ti sx cmd arg r sx' :
  (forall a v, um a = Some v -> is_s 32 v) -> XenoPwm.wf sx ->
  xeno_pwm_ioctl cls um ti cmd arg sx = Ok (r, sx') ->
  XenoPwm.wf sx' /\ XenoPwm.gpio sx' = XenoPwm.gpio sx /\ dev_calls sx' = dev_calls sx.
Proof.
  intros Hum Hwf Hr. destruct (XenoPwm.wf_duty sx Hwf) as (a & Ha & La & Hall).
  assert (forall ss', frame sx sx' -> related sx' ss' -> same_tables (soft_of sx) ss' ->
    XenoPwm.wf sx' /\ XenoPwm.gpio sx' = XenoPwm.gpio sx /\ dev_calls sx' = dev_calls sx) as Hsame.
  { intros ss' Hf Hrel (b & m & ->). split; [|split; apply Hf].
    eapply (wf_frame sx sx' a); try done. by rewrite (rel_duty _ _ Hrel). }
  apply xeno_ioctl_inv in Hr as [[_ ->]|[Hr|[Hr|[Hr|Hr]]]]; [done|..].
  - apply (sim_run _ _ _ _ _ (sim_PIN_SET um arg)) in Hr as (ss' & Hr & Hrel & Hf).
    apply do_PIN_SET_inv in Hr as [_ Hs]. by eapply Hsame.
  - apply (sim_run _ _ _ _ _ (sim_GPIO_SET um arg)) in Hr as (ss' & Hr & Hrel & Hf).
    apply do_GPIO_SET_inv in Hr as [_ Hs]. by eapply Hsame.
  - apply xdo_PWM_INIT_inv in Hr as (a' & nm & t0 & t1 & t2 & Ha' & Hn & Hlt & Hu & -> & ->); [|done].
    split; [|by unfold XenoPwm.after_init; destruct (ti =? 0)].
    apply xwf_after_init; try done.
    rewrite !Forall_cons. split_and!; [| | |done]; eapply Hum;
      [by apply (Hu 0%nat) | by apply (Hu 1%nat) | by apply (Hu 2%nat)].
  - apply (sim_run _ _ _ _ _ (sim_PWM_SET um arg)) in Hr as (ss' & Hr & Hrel & Hf).
    apply do_PWM_SET_inv in Hr as (_ & [Hs|(a' & i & d & t1 & Ha' & Hd & Ht & ->)]); [by eapply Hsame|].
    cbn in Ha'. rewrite Ha in Ha'. injection Ha' as <-.
    split; [|split; apply Hf].
    apply (wf_frame sx sx' (<[Z.to_nat i := set_duty_cycle t1 d]> a)); [done|done|by rewrite (rel_duty _ _ Hrel)|by rewrite length_insert|].
    apply Forall_insert; [done|]. pose proof (Forall_lookup_1 _ _ _ _ Hall Hd) as (?&?&?&?).
    specialize (Hum _ _ Ht). by split_and!.
Qed.

(** One ioctl call of a client. *)
Inductive xeno_step (cls : Z) : XenoPwm.state B -> XenoPwm.state B -> Prop :=
  | xeno_call sx um ti cmd arg r sx' :
      (forall a v, um a = Some v -> is_s 32 v) ->
      xeno_pwm_ioctl cls um ti cmd arg sx = Ok (r, sx') -> xeno_step cls sx sx'.

Lemma xeno_steps_wf cls sx sx' :
  rtc (xeno_step cls) sx sx' -> XenoPwm.wf sx ->
  XenoPwm.wf sx' /\ XenoPwm.gpio sx' = XenoPwm.gpio sx /\ dev_calls sx' = dev_calls sx.
Proof.
  induction 1 as [s|s1 s2 s3 Hstep _ IH]; intros Hwf; [done|].
  destruct Hstep as [s um ti cmd arg r s' Hum Hr].
  destruct (xeno_preserves _ _ _ _ _ _ _ _ Hum Hwf Hr) as (Hwf' & Eg & Ec).
  destruct IH as (? & -> & ->); done.
Qed.

(** ** Load and unload *)

Lemma destroy_tasks_run k i sx :
  length (task_array sx) = 5%nat -> (i + k <= 5)%nat ->
  (forall j, (i <= j < i + k)%nat -> exists t, task_array sx !! j = Some (Some t)) ->
  exists l, destroy_tasks k (Z.of_nat i) sx = Ok (tt, set_tasks l sx) /\ length l = 5%nat /\
    forall j, (j < 5)%nat -> l !! j = if decide (i <= j < i + k)%nat then Some None else task_array sx !! j.
Proof.
  revert i sx. induction k as [|k IH]; intros i sx Hl Hk Ht.
  { exists (task_array sx). split; [by destruct sx|]. split; [done|]. intros j _.
    by rewrite decide_False by lia. }
  destruct (Ht i) as [t Hi]; [lia|]. cbn [destroy_tasks].
  assert (rtdm_task_destroy (Z.of_nat i) sx = Ok (tt, set_tasks (<[i := None]> (task_array sx)) sx)) as E.
  { unfold rtdm_task_destroy. rewrite Mbind_get.
    rewrite (aread_lookup _ _ (Some t)), Mbind_lift by (rewrite ?Nat2Z.id; done || lia).
    cbn [need]. rewrite Mbind_lift, task_put_run by lia. by rewrite Nat2Z.id. }
  rewrite (Mbind_run _ _ _ _ _ E). replace (Z.of_nat i + 1) with (Z.of_nat (S i)) by lia.
  destruct (IH (S i) (set_tasks (<[i := None]> (task_array sx)) sx)) as (l & -> & Ll & Hlook); xred.
  - by rewrite length_insert.
  - lia.
  - intros j Hj. rewrite list_lookup_insert_ne by lia. apply Ht. lia.
  - exists l. split; [done|]. split; [done|]. intros j Hj. rewrite Hlook by done. xred.
    destruct (decide (j = i)) as [->|Hne].
    + rewrite list_lookup_insert_eq by lia. by repeat case_decide; try lia.
    + rewrite list_lookup_insert_ne by done. repeat case_decide; done || lia.
Qed.

Lemma xeno_exit_run sx :
  XenoPwm.wf sx -> exists sx', xeno_pwm_exit sx = Ok (tt, sx') /\
    task_array sx' = replicate 5 None /\ dev_calls sx' = dev_calls sx ++ [DevUnregister].
Proof.
  intros [Hc _ Ll Hu Hn]. unfold MAX_PWM_NUM in Hc. unfold xeno_pwm_exit.
  rewrite Mbind_xprintk, Mbind_gets. xred.
  destruct (destroy_tasks_run (Z.to_nat (XenoPwm.pwm_pin_count sx)) 0
    (XenoPwm.set_klog (XenoPwm.klog sx ++ [Printk "XenoPWM module unload." []]) sx))
    as (l & Hd & Ll' & Hlook); xred; [done|lia| |].
  { intros j Hj. destruct (Hu (Z.of_nat j)) as (t & Ht & _); [lia|]. rewrite Nat2Z.id in Ht. by exists t. }
  rewrite (Mbind_run _ _ _ _ _ Hd). eexists. split; [done|]. xred. split; [|done].
  apply list_eq. intros j. destruct (decide (j < 5)%nat) as [Hj|Hj].
  - rewrite Hlook, lookup_replicate_2 by done. case_decide as Hd'; [done|]. xred.
    specialize (Hn (Z.of_nat j)). rewrite Nat2Z.id in Hn. apply Hn. lia.
  - rewrite (lookup_ge_None_2 l), (lookup_ge_None_2 (replicate 5 None)); [done|cbn;lia|lia].
Qed.
End commands.

(** ** The task's loop *)

Section task.
Context {B : Type} `{RegBus B}.
Implicit Type s : XenoPwm.state B.

(** What a task needs to run: its slot, its entry and the mapped registers. *)
Record xtask_at s (i : Z) (t : rtask) (d : Dutycycle) (g h l : Z) : Prop := {
  xat_slot : 0 <= i /\ task_array s !! Z.to_nat i = Some (Some t);
  xat_entry : exists a, XenoPwm.duty_array s = Some a /\ a !! Z.to_nat (rt_pos t) = Some d;
  xat_pos : 0 <= rt_pos t;
  xat_pin : 0 <= pin d < 32;
  xat_gpio : XenoPwm.gpio s = Some g;
  xat_high : XenoPwm.HIGH_TIME d = Ok h;
  xat_low : XenoPwm.LOW_TIME d = Ok l;
}.

Definition xpc_to (i : Z) (t : rtask) (pc : xpc) s : XenoPwm.state B :=
  set_tasks (<[Z.to_nat i := Some (set_rpc pc t)]> (task_array s)) s.

Definition xtask_next s (i : Z) (t : rtask) (d : Dutycycle) (g h l : Z) :
    XenoPwm.label * XenoPwm.state B :=
  match rt_pc t with
  | XStart => (XenoPwm.Tau, xpc_to i t XTest
      (XenoPwm.set_klog (XenoPwm.klog s ++ [Printk "pwm_task for pin %d start" [pin d]]) s))
  | XTest => if rt_stop t then (XenoPwm.Exit, xpc_to i t XExited s) else (XenoPwm.Tau, xpc_to i t XSet s)
  | XSet => (XenoPwm.SetPin (pin d), xpc_to i t XHigh
      (XenoPwm.set_bus (bus_write (g + 28) (2 ^ pin d) (XenoPwm.bus s)) s))
  | XHigh => (XenoPwm.Sleep h, xpc_to i t XClr s)
  | XClr => (XenoPwm.ClrPin (pin d), xpc_to i t XLow
      (XenoPwm.set_bus (bus_write (g + 40) (2 ^ pin d) (XenoPwm.bus s)) s))
  | XLow => (XenoPwm.Sleep l, xpc_to i t XTest s)
  | XExited => (XenoPwm.Tau, s)
  end.

Lemma xtask_step_run s i t d g h l :
  xtask_at s i t d g h l -> XenoPwm.task_step i s = Ok (xtask_next s i t d g h l).
Proof.
  intros [[Hi Ht] (a & Ha & Hd) Hpos Hpin Hg Hh Hl]. unfold XenoPwm.task_step, xtask_next.
  rewrite (Mbind_run _ _ _ _ _ (task_get_run s i t Hi Ht)).
  pose proof (xduty_get_run s a _ d Ha Hpos Hd) as Hget.
  destruct (rt_pc t); try (destruct (rt_stop t)); try done;
    rewrite ?(Mbind_run _ _ _ _ _ Hget), ?Hh, ?Hl, ?Mbind_lift, ?Mbind_xprintk;
    try (rewrite Mbind_unfold; unfold XenoPwm.with_gpio; rewrite Hg, ?gpio_set_run, ?gpio_clr_run by done);
    (erewrite Mbind_run by (apply XenoPwm.task_pc_run; eassumption)); done.
Qed.

(** Its slot survives its own steps. *)
Lemma xtask_at_pc s i t pc pc' d g h l :
  xtask_at s i (set_rpc pc t) d g h l ->
  xtask_at (xpc_to i (set_rpc pc t) pc' s) i (set_rpc pc' t) d g h l.
Proof.
  intros [[Hi Ht] He Hpos Hpin Hg Hh Hl]. split; try done. split; [done|].
  unfold xpc_to. xred. rewrite list_lookup_insert_eq; [done|]. by eapply lookup_lt_Some.
Qed.
Lemma xtask_at_bus s b i t d g h l :
  xtask_at s i t d g h l -> xtask_at (XenoPwm.set_bus b s) i t d g h l.
Proof. intros [? ? ? ? ? ? ?]. by split. Qed.

Lemma xrun_task_S n i s : XenoPwm.run_task (S n) i s =
  match XenoPwm.task_step i s with
  | Ok (lb, s') => match XenoPwm.run_task n i s' with Ok (ls, s'') => Ok (lb :: ls, s'') | Fault e => Fault e end
  | Fault e => Fault e
  end.
Proof.
  cbn [XenoPwm.run_task]. rewrite Mbind_unfold. destruct (XenoPwm.task_step i s) as [[lb s']|]; [|done].
  rewrite Mbind_unfold. by destruct (XenoPwm.run_task n i s') as [[ls s'']|].
Qed.

Lemma xrun_task_app n m i s : XenoPwm.run_task (n + m) i s =
  match XenoPwm.run_task n i s with
  | Ok (l1, s1) => match XenoPwm.run_task m i s1 with
                   | Ok (l2, s2) => Ok (l1 ++ l2, s2) | Fault e => Fault e end
  | Fault e => Fault e
  end.
Proof.
  revert s. induction n as [|n IH]; intros s.
  - cbn [Nat.add XenoPwm.run_task]. unfold mret, M_ret.
    by destruct (XenoPwm.run_task m i s) as [[? ?]|].
  - cbn [Nat.add]. rewrite !xrun_task_S. destruct (XenoPwm.task_step i s) as [[lb s']|]; [|done].
    rewrite IH. destruct (XenoPwm.run_task n i s') as [[l1 s1]|]; [|done].
    by destruct (XenoPwm.run_task m i s1) as [[l2 s2]|].
Qed.

Definition xcycle_labels (d : Dutycycle) (h l : Z) : list XenoPwm.label :=
  [XenoPwm.Tau; XenoPwm.SetPin (pin d); XenoPwm.Sleep h; XenoPwm.ClrPin (pin d); XenoPwm.Sleep l].

Lemma xtask_cycle s i t d g h l :
  xtask_at s i t d g h l -> rt_pc t = XTest -> rt_stop t = false ->
  XenoPwm.run_task 5 i s =
    Ok (xcycle_labels d h l, XenoPwm.set_bus (writes (cycle_writes g (pin d)) (XenoPwm.bus s)) s).
Proof.
  intros [[Hi Ht] (a & Ha & Hd) Hpos Hpin Hg Hh Hl] Hpc Hst. pose proof (lookup_lt_Some _ _ _ Ht).
  destruct t as [pos nm pr st pc]; cbn [rt_pc rt_stop rt_pos] in *. subst pc st.
  do 5 (rewrite xrun_task_S; erewrite xtask_step_run by
    (split; unfold xpc_to; xred; cbn [rt_pos set_rpc]; rewrite ?list_lookup_insert_eq by
       (rewrite ?length_insert; lia);
     first [reflexivity | eassumption | split; [exact Hi|first [reflexivity|exact Ht]]
           | eexists; split; eassumption]);
    cbn [xtask_next rt_pc set_rpc rt_stop rt_pos rt_name rt_prio xpc_to]).
  cbn [XenoPwm.run_task]. unfold mret, M_ret, xcycle_labels. repeat f_equal.
  unfold xpc_to. xred. rewrite !list_insert_insert_eq. destruct s; cbn in *. f_equal.
  by apply list_insert_id.
Qed.

(** [n] periods, entered at the loop test. *)
Lemma xtask_cycles n s i t d g h l :
  xtask_at s i t d g h l -> rt_pc t = XTest -> rt_stop t = false ->
  XenoPwm.run_task (n * 5) i s =
    Ok (concat (replicate n (xcycle_labels d h l)),
        XenoPwm.set_bus (writes (concat (replicate n (cycle_writes g (pin d)))) (XenoPwm.bus s)) s).
Proof.
  intros Hat Hpc Hst. revert s Hat. induction n as [|n IH]; intros s Hat; [by destruct s|].
  change (S n * 5)%nat with (5 + n * 5)%nat. rewrite xrun_task_app.
  rewrite (xtask_cycle s i t d g h l Hat Hpc Hst).
  rewrite (IH _ (xtask_at_bus s _ i t d g h l Hat)). cbn [replicate concat]. xred.
  by rewrite writes_app.
Qed.
End task.

(** * Properties *)

Section properties.
Context {B : Type} `{RegBus B}.
Implicit Types (sx : XenoPwm.state B) (ss : SoftPwm.state B).

(** C6: The two drivers do the same for [PIN_SET], [GPIO_SET] and [PWM_SET]:
    started with the same table, count, registers and log, with the same user
    memory (and a pointer softPWM accepts), they return the same value, fault in
    the same cases, and leave the same table, count, registers and log, xenoPWM
    leaving its task array alone. *)
Theorem xeno_soft_commands cls lim um kc ti arg sx ss :
  0 <= cls < 256 -> access_ok lim arg 4 = true -> related sx ss ->
  sim_res sx (xeno_pwm_ioctl cls um ti (XenoPwm.PIN_SET cls) arg sx)
    (pwm_ioctl lim um kc SoftPwm.PIN_SET arg ss) /\
  sim_res sx (xeno_pwm_ioctl cls um ti (XenoPwm.GPIO_SET cls) arg sx)
    (pwm_ioctl lim um kc SoftPwm.GPIO_SET arg ss) /\
  sim_res sx (xeno_pwm_ioctl cls um ti (XenoPwm.PWM_SET cls) arg sx)
    (pwm_ioctl lim um kc SoftPwm.PWM_SET arg ss).
Proof.
  intros Hc Ha Hr. destruct (xeno_dispatch cls um ti sx arg Hc) as (-> & -> & _ & ->).
  rewrite pwm_ioctl_PIN_SET, pwm_ioctl_GPIO_SET, pwm_ioctl_PWM_SET, Ha.
  split_and!; [by apply sim_PIN_SET | by apply sim_GPIO_SET | by apply sim_PWM_SET].
Qed.

(** C12: xenoPWM life cycle, with one caller at a time.  When the duty table can be
    allocated, [xeno_pwm_init] returns 0, even when the device could not be registered.
    After any sequence of ioctl calls that return, one after the other, the count is at
    most five and exactly the slots in use hold a task, each on its own entry;
    [xeno_pwm_exit] then destroys every task and unregisters the device, also one whose
    registration had failed.  (A sixth [PWM_INIT] is not such a call: nothing checks the
    count, it writes past the tables, which is a fault here.) *)
Theorem xeno_lifecycle cls e (b : B) :
  XenoPwm.kzalloc_duty e = true ->
  exists s0, xeno_pwm_init e (XenoPwm.state0 b) = Ok (0, s0) /\
    forall s, rtc (xeno_step cls) s0 s ->
      XenoPwm.wf s /\
      exists s', xeno_pwm_exit s = Ok (tt, s') /\ task_array s' = replicate 5 None /\
        dev_calls s' = [DevRegister (dev_register_ret e); DevUnregister].
Proof.
  intros He. exists (xeno_loaded e b). split; [by apply xeno_init_loaded|]. intros s Hs.
  destruct (xeno_steps_wf _ _ _ Hs (wf_xeno_loaded e b)) as (Hwf & _ & Hc).
  split; [done|]. destruct (xeno_exit_run s Hwf) as (s' & Hx & Ht & Hd).
  exists s'. by rewrite Hd, Hc.
Qed.

(** The xenoPWM waveform.  A task that is not asked to stop repeats, for
    ever: set the pin's bit, sleep the high time, clear the bit, sleep the low
    time; after any number of periods nothing but the two registers was
    touched. *)
Theorem xeno_waveform n sx i t d g h l :
  xtask_at sx i t d g h l -> rt_pc t = XTest -> rt_stop t = false ->
  XenoPwm.run_task (n * 5) i sx =
    Ok (concat (replicate n [XenoPwm.Tau; XenoPwm.SetPin (pin d); XenoPwm.Sleep h;
                             XenoPwm.ClrPin (pin d); XenoPwm.Sleep l]),
        XenoPwm.set_bus (writes (concat (replicate n [(g + 28, 2 ^ pin d); (g + 40, 2 ^ pin d)]))
                           (XenoPwm.bus sx)) sx).
Proof. apply xtask_cycles. Qed.
End properties.

(** * Concrete runs *)

Definition ex_xrun {A} (m : M (XenoPwm.state LogBus) A) (s : XenoPwm.state LogBus) : XenoPwm.state LogBus :=
  match m s with Ok (_, s') => s' | Fault _ => s end.
(** One channel on pin 16, its task past the start message. *)
Definition ex_xone : XenoPwm.state LogBus :=
  ex_xrun (xeno_pwm_ioctl ex_cls (array_at 4096 [16; 0; 100]) 0 (XenoPwm.PWM_INIT ex_cls) 4096) ex_xloaded.
Definition ex_xstarted : XenoPwm.state LogBus := ex_xrun (XenoPwm.task_step 0) ex_xone.

Lemma xeno_soft_commands_witness :
  sim_res ex_xloaded
    (xeno_pwm_ioctl ex_cls (array_at 4096 [21; 1]) 0 (XenoPwm.PIN_SET ex_cls) 4096 ex_xloaded)
    (pwm_ioctl ex_limit (array_at 4096 [21; 1]) 0 SoftPwm.PIN_SET 4096 (soft_of ex_xloaded)) /\
  sim_res ex_xloaded
    (xeno_pwm_ioctl ex_cls (array_at 4096 [21; 1]) 0 (XenoPwm.GPIO_SET ex_cls) 4096 ex_xloaded)
    (pwm_ioctl ex_limit (array_at 4096 [21; 1]) 0 SoftPwm.GPIO_SET 4096 (soft_of ex_xloaded)) /\
  sim_res ex_xloaded
    (xeno_pwm_ioctl ex_cls (array_at 4096 [21; 1]) 0 (XenoPwm.PWM_SET ex_cls) 4096 ex_xloaded)
    (pwm_ioctl ex_limit (array_at 4096 [21; 1]) 0 SoftPwm.PWM_SET 4096 (soft_of ex_xloaded)).
Proof.
  apply xeno_soft_commands; [unfold ex_cls; lia | vm_compute; reflexivity | apply soft_of_related].
Defined.

Lemma xeno_lifecycle_witness :
  exists s0, xeno_pwm_init ex_xenv (XenoPwm.state0 LogBus0) = Ok (0, s0) /\
    forall s, rtc (xeno_step ex_cls) s0 s ->
      XenoPwm.wf s /\
      exists s', xeno_pwm_exit s = Ok (tt, s') /\ task_array s' = replicate 5 None /\
        dev_calls s' = [DevRegister (dev_register_ret ex_xenv); DevUnregister].
Proof. apply (xeno_lifecycle ex_cls ex_xenv LogBus0). vm_compute. reflexivity. Defined.

Lemma xeno_waveform_witness :
  XenoPwm.run_task (2 * 5) 0 ex_xstarted =
    Ok (concat (replicate 2 [XenoPwm.Tau; XenoPwm.SetPin 16; XenoPwm.Sleep 1000000;
                             XenoPwm.ClrPin 16; XenoPwm.Sleep 9000000]),
        XenoPwm.set_bus (writes (concat (replicate 2 [(0xF3200000 + 28, 2 ^ 16); (0xF3200000 + 40, 2 ^ 16)]))
                           (XenoPwm.bus ex_xstarted)) ex_xstarted).
Proof.
  apply (xeno_waveform 2 ex_xstarted 0 (mkRtask 0 "pwmtask_1" 20 false XTest) (mkDutycycle 16 10 0 100)
           0xF3200000 1000000 9000000); [|reflexivity..].
  split; try (vm_compute; reflexivity); cbn [rt_pos pin]; try lia.
  - split; [lia | vm_compute; reflexivity].
  - exists (mkDutycycle 16 10 0 100 :: replicate 4 Dutycycle0). split; vm_compute; reflexivity.
Defined.
