(* ===== verification/XenoRefine.v ===== *)
(** * xenoPWM refines the controller

    The same controller as softPWM's ([PwmSpec], [PwmRefine]), with its own
    first duty cycle and sleep times.  The three commands the drivers share are
    carried over from softPWM along the simulation of [XenoSim]. *)

From S2P Require Import Prelude Ioctl Mmio PwmGpio PwmCommon PwmSpec.
From S2P Require Import SoftPwm.
From S2P Require Import SoftPwmTasks.
From S2P Require Import PwmRefine.
From S2P Require Import XenoPwm.
From S2P Require Import XenoSim.
Open Scope Z_scope.

Definition xeno_params : pwm_params :=
  mkParams 10 (fun up d => if up then XenoPwm.HIGH_TIME d else XenoPwm.LOW_TIME d).

Definition xeno_request (cls cmd : Z) : option request :=
  if cmd =? XenoPwm.PIN_SET cls then Some KPin else if cmd =? XenoPwm.GPIO_SET cls then Some KGpio
  else if cmd =? XenoPwm.PWM_INIT cls then Some KInit
  else if cmd =? XenoPwm.PWM_SET cls then Some KSet else None.

(** Where the task of a channel stands. *)
Definition xeno_phase (ch : channel) (pc : xpc) : Prop :=
  match pc with
  | XStart | XTest | XSet => ch_phase ch = Ready
  | XHigh => ch_phase ch = High
  | XClr => ch_phase ch = HighDone
  | XLow => ch_phase ch = Low
  | XExited => False
  end.

Record xeno_rep (g : Z) (c : ctrl) (s : XenoPwm.state LogBus) : Prop := {
  xr_wf : XenoPwm.wf s;
  xr_table : table g c (XenoPwm.pwm_pin_count s) (XenoPwm.duty_array s) (XenoPwm.gpio s) (XenoPwm.bus s);
  xr_tasks : forall i t, task_array s !! i = Some (Some t) ->
    rt_stop t = false /\ rt_pos t = Z.of_nat i /\
    exists ch, chans c !! i = Some ch /\ xeno_phase ch (rt_pc t);
}.

Definition xseen (l : XenoPwm.label) : list action :=
  match l with XenoPwm.Sleep h => [Wait h h] | _ => [] end.

(** A step of the system: a statement of a task, or a whole call. *)
Inductive xeno_sys_step (cls g : Z) : XenoPwm.state LogBus -> list event -> XenoPwm.state LogBus -> Prop :=
  | xeno_task s i t l s' :
      task_array s !! i = Some (Some t) -> XenoPwm.task_step (Z.of_nat i) s = Ok (l, s') ->
      xeno_sys_step cls g s
        (tag (Task i) (levels g (XenoPwm.bus s) (XenoPwm.bus s') ++ xseen l)) s'
  | xeno_client s um ti cmd arg r s' :
      let o := decode (xeno_request cls cmd) um arg in
      (forall a v, um a = Some v -> is_s 32 v) -> (forall x, o = Some x -> in_range x) ->
      xeno_pwm_ioctl cls um ti cmd arg s = Ok (r, s') ->
      xeno_sys_step cls g s
        (tag Client (Ask o :: levels g (XenoPwm.bus s) (XenoPwm.bus s') ++ [Reply r])) s'.

Section xeno.
Variables (cls g : Z).
Implicit Types (s : XenoPwm.state LogBus) (c : ctrl).

(** ** Tasks *)

Lemma xsafe_times d : safe_entry d ->
  (exists h, XenoPwm.HIGH_TIME d = Ok h) /\ (exists l, XenoPwm.LOW_TIME d = Ok l).
Proof.
  intros [_ Hr]. unfold XenoPwm.HIGH_TIME, XenoPwm.LOW_TIME. rewrite !div32_ok by (lia || by left).
  split; eexists; reflexivity.
Qed.

Lemma xeno_task_at c s i t :
  xeno_rep g c s -> task_array s !! i = Some (Some t) -> exists ch h l,
    chans c !! i = Some ch /\ xeno_phase ch (rt_pc t) /\ good_channel ch /\ rt_stop t = false /\
    xtask_at s (Z.of_nat i) t (ch_entry ch) g h l.
Proof.
  intros [Hwf Ht Htk] Hi. destruct (Htk i t Hi) as (Hst & Hpos & ch & Hch & Hph).
  pose proof (Forall_lookup_1 _ _ _ _ (tab_good _ _ _ _ _ _ Ht) Hch) as Hg.
  destruct (xsafe_times _ (proj1 Hg)) as [[h Hh] [l Hl]]. exists ch, h, l.
  destruct (tab_duty _ _ _ _ _ _ Ht) as (a & Ha & _). rewrite Ha in Ht.
  split_and!; try done. split; try done; [|..|lia|apply Hg|apply Ht].
  - rewrite Nat2Z.id. split; [lia|done].
  - exists a. split; [done|]. rewrite Hpos, Nat2Z.id. by eapply table_entry.
Qed.

(** A task's statement keeps the driver's invariant. *)
Lemma wf_xpc_to s i t pc b m :
  XenoPwm.wf s -> task_array s !! i = Some (Some t) ->
  XenoPwm.wf (xpc_to (Z.of_nat i) t pc (XenoPwm.set_klog m (XenoPwm.set_bus b s))).
Proof.
  intros [Hc Hd Hl Hu Hn] Hi. unfold xpc_to. rewrite Nat2Z.id. pose proof (lookup_lt_Some _ _ _ Hi).
  split; xred; try done; [by rewrite length_insert|..].
  - intros j Hj. destruct (Hu j Hj) as (t' & Ht' & Hp). destruct (decide (Z.to_nat j = i)) as [<-|Hne].
    + rewrite list_lookup_insert_eq by done. eexists. split; [done|]. cbn. congruence.
    + rewrite list_lookup_insert_ne by done. by exists t'.
  - intros j Hj. destruct (decide (Z.to_nat j = i)) as [<-|Hne].
    + rewrite Hn in Hi by done. done.
    + rewrite list_lookup_insert_ne by done. by apply Hn.
Qed.

Lemma xeno_rep_pc c s i t pc b m ch ch' :
  xeno_rep g c s -> task_array s !! i = Some (Some t) -> chans c !! i = Some ch ->
  table g (mkCtrl (<[i := ch']> (chans c)) (funcs c)) (XenoPwm.pwm_pin_count s)
    (XenoPwm.duty_array s) (XenoPwm.gpio s) b ->
  xeno_phase ch' pc ->
  xeno_rep g (mkCtrl (<[i := ch']> (chans c)) (funcs c))
    (xpc_to (Z.of_nat i) t pc (XenoPwm.set_klog m (XenoPwm.set_bus b s))).
Proof.
  intros [Hwf Ht Htk] Hi Hch Htab Hph. split; [by apply wf_xpc_to|exact Htab|].
  intros j t'. unfold xpc_to. xred. rewrite Nat2Z.id. destruct (decide (i = j)) as [->|Hne].
  - rewrite list_lookup_insert_eq by (by eapply lookup_lt_Some). intros [= <-].
    destruct (Htk j t Hi) as (Hst & Hp & _). split_and!; [done..|]. exists ch'.
    split; [|done]. apply list_lookup_insert_eq. by eapply lookup_lt_Some.
  - rewrite list_lookup_insert_ne by done. intros Hj.
    destruct (Htk j t' Hj) as (? & ? & ch1 & Hch1 & ?). split_and!; [done..|]. exists ch1.
    split; [|done]. cbn [chans]. by rewrite list_lookup_insert_ne.
Qed.

Lemma xeno_rep_move c s i t pc m ch ph b :
  xeno_rep g c s -> task_array s !! i = Some (Some t) -> chans c !! i = Some ch ->
  xeno_phase (move ph ch) pc ->
  table g c (XenoPwm.pwm_pin_count s) (XenoPwm.duty_array s) (XenoPwm.gpio s) b ->
  xeno_rep g (mkCtrl (<[i := move ph ch]> (chans c)) (funcs c))
    (xpc_to (Z.of_nat i) t pc (XenoPwm.set_klog m (XenoPwm.set_bus b s))).
Proof. intros Hr Hi Hch Hph Hb. eapply xeno_rep_pc; try done. by apply table_move. Qed.

Lemma xeno_rep_stay c s i t pc m ch :
  xeno_rep g c s -> task_array s !! i = Some (Some t) -> chans c !! i = Some ch ->
  xeno_phase ch pc -> xeno_rep g c (xpc_to (Z.of_nat i) t pc (XenoPwm.set_klog m s)).
Proof.
  intros Hr Hi Hch Hph. pose proof (xeno_rep_pc c s i t pc (XenoPwm.bus s) m ch ch Hr Hi Hch) as Hs.
  rewrite list_insert_id in Hs by done. destruct c as [l f]. cbn [chans funcs] in *.
  destruct s. apply Hs; [by apply Hr|done].
Qed.

Lemma set_same_klog s : XenoPwm.set_klog (XenoPwm.klog s) s = s.
Proof. by destruct s. Qed.
Lemma bus_xpc_to i t pc s : XenoPwm.bus (xpc_to i t pc s) = XenoPwm.bus s.
Proof. done. Qed.
Lemma bus_xset_bus b s : XenoPwm.bus (XenoPwm.set_bus b s) = b.
Proof. done. Qed.
Lemma bus_xset_klog m s : XenoPwm.bus (XenoPwm.set_klog m s) = XenoPwm.bus s.
Proof. done. Qed.

Lemma xeno_task_simulated c s i t l s' :
  xeno_rep g c s -> task_array s !! i = Some (Some t) ->
  XenoPwm.task_step (Z.of_nat i) s = Ok (l, s') ->
  exists c', run (ctrl_step xeno_params) c
      (tag (Task i) (levels g (XenoPwm.bus s) (XenoPwm.bus s') ++ xseen l)) c' /\ xeno_rep g c' s'.
Proof.
  intros Hr Hi Hstep. destruct (xeno_task_at c s i t Hr Hi) as (ch & h & lw & Hch & Hph & Hg & Hst & Hat).
  destruct Hg as [[Hpin Hrange] Hpast].
  rewrite (xtask_step_run _ _ _ _ _ _ _ Hat) in Hstep. injection Hstep as Hstep.
  unfold xtask_next in Hstep. destruct Hat as [_ _ _ _ Hgp Hh Hl]. pose proof (xr_table _ _ _ Hr) as Ht.
  destruct (rt_pc t) eqn:Epc; cbn [xeno_phase] in Hph; rewrite ?Hst in Hstep;
    apply pair_equal_spec in Hstep as [<- <-]; cbn [xseen];
    rewrite ?bus_xpc_to, ?bus_xset_klog, ?bus_xset_bus, ?levels_same, ?levels_set, ?levels_clr by lia;
    cbn [app].
  - exists c. split; [apply run_nil|]. by eapply xeno_rep_stay.
  - exists c. split; [apply run_nil|]. rewrite <- (set_same_klog s). by eapply xeno_rep_stay.
  - eexists. split; [eapply run_moves; [done|by apply ch_raise]|].
    rewrite <- (set_same_klog (XenoPwm.set_bus _ s)).
    eapply xeno_rep_move; try done. apply table_bus; [done|lia].
  - eexists. split; [eapply run_moves; [done|]|].
    + apply (ch_wait_high _ _ (duty_cycle (ch_entry ch))); cbn; rewrite ?set_own_duty; done.
    + pose proof (xeno_rep_move c s i t XClr (XenoPwm.klog s) ch HighDone (XenoPwm.bus s) Hr Hi Hch eq_refl Ht) as Hm.
      by destruct s.
  - eexists. split; [eapply run_moves; [done|by apply ch_lower]|].
    rewrite <- (set_same_klog (XenoPwm.set_bus _ s)).
    eapply xeno_rep_move; try done. apply table_bus; [done|lia].
  - eexists. split; [eapply run_moves; [done|]|].
    + apply (ch_wait_low _ _ (duty_cycle (ch_entry ch))); cbn; rewrite ?set_own_duty; done.
    + pose proof (xeno_rep_move c s i t XTest (XenoPwm.klog s) ch Ready (XenoPwm.bus s) Hr Hi Hch eq_refl Ht) as Hm.
      by destruct s.
  - done.
Qed.

(** ** Calls *)

Lemma xeno_request_inv um ti cmd arg s :
  match xeno_request cls cmd with
  | Some KPin => xeno_pwm_ioctl cls um ti cmd arg s = XenoPwm.do_PIN_SET um arg s
  | Some KGpio => xeno_pwm_ioctl cls um ti cmd arg s = XenoPwm.do_GPIO_SET um arg s
  | Some KInit => xeno_pwm_ioctl cls um ti cmd arg s = XenoPwm.do_PWM_INIT um ti arg s
  | Some KSet => xeno_pwm_ioctl cls um ti cmd arg s = XenoPwm.do_PWM_SET um arg s
  | None => xeno_pwm_ioctl cls um ti cmd arg s = Ok (0, s)
  end.
Proof.
  unfold xeno_request, xeno_pwm_ioctl. rewrite !Mif.
  by repeat destruct (_ =? _).
Qed.

(** A shared command, seen through the related softPWM driver. *)
Lemma xeno_rep_via c c' s s' ss' :
  xeno_rep g c s -> XenoPwm.wf s' -> related s' ss' -> frame s s' ->
  table g c' (XenoPwm.pwm_pin_count s) (SoftPwm.duty_array ss') (XenoPwm.gpio s) (SoftPwm.bus ss') ->
  (forall i ch, chans c !! i = Some ch -> exists ch', chans c' !! i = Some ch' /\ ch_phase ch' = ch_phase ch) ->
  xeno_rep g c' s'.
Proof.
  intros [Hwf Ht Htk] Hwf' Hrel (Ft & _ & Fn & Fg) Ht' Hph. split; [done| |].
  - by rewrite Fn, Fg, (rel_duty _ _ Hrel), (rel_bus _ _ Hrel).
  - intros i t. rewrite Ft. intros Hi. destruct (Htk i t Hi) as (? & ? & ch & Hch & Hp).
    split_and!; [done..|]. destruct (Hph i ch Hch) as (ch' & Hch' & E). exists ch'. split; [done|].
    revert Hp. unfold xeno_phase. by rewrite E.
Qed.

Lemma same_phases c c' : chans c' = chans c ->
  forall i ch, chans c !! i = Some ch -> exists ch', chans c' !! i = Some ch' /\ ch_phase ch' = ch_phase ch.
Proof. intros -> i ch Hi. by exists ch. Qed.

Lemma duty_phases c q v i ch : chans c !! i = Some ch ->
  exists ch', chans (exec xeno_params (Duty q v) c).1 !! i = Some ch' /\ ch_phase ch' = ch_phase ch.
Proof.
  intros Hi. cbn [exec fst]. destruct (list_find _ _) as [[j ch0]|]; [|by exists ch]. cbn [chans].
  rewrite list_lookup_alter. case_decide; [subst j; rewrite Hi; cbn|by exists ch]. by eexists.
Qed.

(** [PWM_INIT] opens a channel, or leaves its slot filled in and unused. *)
Lemma table_fill c n a gp b d :
  table g c n (Some a) gp b -> table g c n (Some (<[Z.to_nat n := d]> a)) gp b.
Proof.
  intros [Hn (a' & [= <-] & La & Ht) Hg Hgp Hf]. split; try done.
  eexists. split; [done|]. rewrite length_insert. split; [done|]. by rewrite take_insert_ge by lia.
Qed.

Lemma xeno_open_simulated c s ti a nm t0 t1 t2 :
  xeno_rep g c s -> XenoPwm.duty_array s = Some a -> XenoPwm.pwm_pin_count s < 5 ->
  (forall x, Some (Open t0 t1 t2) = Some x -> in_range x) ->
  let s' := XenoPwm.after_init ti a nm t0 t1 t2 s in XenoPwm.wf s' ->
  exists c', run (ctrl_step xeno_params) c
    (tag Client (Ask (Some (Open t0 t1 t2)) :: levels g (XenoPwm.bus s) (XenoPwm.bus s') ++ [Reply ti])) c' /\
    xeno_rep g c' s'.
Proof.
  intros [Hwf Ht Htk] Ha Hc Hin s' Hwf'. pose proof (tab_count _ _ _ _ _ _ Ht) as Hn. rewrite Ha in Ht.
  assert (XenoPwm.bus s' = XenoPwm.bus s) as Eb.
  { subst s'. unfold XenoPwm.after_init, after_fill. by destruct (ti =? 0). }
  rewrite Eb, levels_same. cbn [app].
  assert (allowed c (Open t0 t1 t2)) as Hal.
  { split; [by apply Hin|]. unfold room, MAX_CHANNELS. lia. }
  destruct (Z.eqb_spec ti 0) as [->|Hne].
  - exists (exec xeno_params (Open t0 t1 t2) c).1.
    split; [apply run_one, (ctrl_exec _ _ (Open t0 t1 t2)); done|]. split; [done| |].
    + exact (table_open g xeno_params c _ a _ _ t0 t1 t2 Ht Hal).
    + intros i t. subst s'. unfold XenoPwm.after_init, after_fill. cbn [Z.eqb]. xred. cbn [exec fst chans].
      destruct (decide (Z.to_nat (XenoPwm.pwm_pin_count s) = i)) as [Ei|Hne].
      * rewrite Ei, list_lookup_insert_eq by (rewrite (XenoPwm.wf_len s Hwf); lia). intros [= <-].
        cbn [rt_stop rt_pos rt_pc]. split_and!; [done|lia|]. exists (open_channel xeno_params t0 t1 t2).
        split; [|done]. apply list_lookup_middle. lia.
      * rewrite list_lookup_insert_ne by done. intros Hi. destruct (Htk i t Hi) as (? & ? & ch & Hch & ?).
        split_and!; [done..|]. exists ch. split; [|done]. by apply lookup_app_l_Some.
  - exists c. split; [apply run_one, ctrl_failed; done|]. subst s'. unfold XenoPwm.after_init, after_fill in *.
    rewrite (proj2 (Z.eqb_neq _ _) Hne) in Hwf' |- *.
    split; [done|apply (table_fill _ _ _ _ _ _ Ht)|exact Htk].
Qed.

Lemma xeno_client_simulated c s um ti cmd arg r s' :
  let o := decode (xeno_request cls cmd) um arg in
  xeno_rep g c s -> (forall a v, um a = Some v -> is_s 32 v) -> (forall x, o = Some x -> in_range x) ->
  xeno_pwm_ioctl cls um ti cmd arg s = Ok (r, s') ->
  exists c', run (ctrl_step xeno_params) c
    (tag Client (Ask o :: levels g (XenoPwm.bus s) (XenoPwm.bus s') ++ [Reply r])) c' /\ xeno_rep g c' s'.
Proof.
  intros o Hr Hum Hin Hrun. subst o. pose proof (xr_wf _ _ _ Hr) as Hwf. pose proof (xr_table _ _ _ Hr) as Ht.
  destruct (xeno_preserves _ _ _ _ _ _ _ _ Hum Hwf Hrun) as (Hwf' & _ & _).
  pose proof (xeno_request_inv um ti cmd arg s) as Hq. rewrite Hrun in Hq.
  destruct (xeno_request cls cmd) as [[]|].
  - symmetry in Hq. apply (sim_run _ _ _ _ _ (sim_PIN_SET um arg)) in Hq as (ss' & Hs & Hrel & Hf).
    rewrite (rel_bus _ _ Hrel). apply PIN_SET_command in Hs as [-> Hc].
    destruct (decode _ um arg) as [[| |q out|]|]; try done.
    + destruct Hc as [Hg Hs']. cbn [soft_of SoftPwm.gpio SoftPwm.bus] in Hg.
      destruct (table_direction g xeno_params c _ _ _ _ q out _ Ht (Hin _ eq_refl) Hg) as [-> Ht'].
      exists (exec xeno_params (Direction q out) c).1. split.
      * apply run_one. apply (ctrl_exec _ _ (Direction q out)). split; [by apply Hin|done].
      * eapply xeno_rep_via; try done; [by rewrite Hs'|by apply same_phases].
    + destruct Hc as [m ->]. exists c. cbn [SoftPwm.set_klog soft_of SoftPwm.bus]. rewrite levels_same.
      split; [apply run_one, ctrl_no_command|]. eapply xeno_rep_via; try done. by apply same_phases.
  - symmetry in Hq. apply (sim_run _ _ _ _ _ (sim_GPIO_SET um arg)) in Hq as (ss' & Hs & Hrel & Hf).
    rewrite (rel_bus _ _ Hrel). apply GPIO_SET_command in Hs as [-> Hc].
    destruct (decode _ um arg) as [[| | |q up]|]; try done.
    + destruct Hc as [Hg Hs']. cbn [soft_of SoftPwm.gpio SoftPwm.bus] in Hg.
      destruct (table_put g c _ _ _ _ q up _ Ht (Hin _ eq_refl) Hg) as [-> Ht'].
      exists c. split.
      * apply run_one. apply (ctrl_exec _ _ (Put q up)). split; [by apply Hin|done].
      * eapply xeno_rep_via; try done; [by rewrite Hs'|by apply same_phases].
    + destruct Hc as [m ->]. exists c. cbn [SoftPwm.set_klog soft_of SoftPwm.bus]. rewrite levels_same.
      split; [apply run_one, ctrl_no_command|]. eapply xeno_rep_via; try done. by apply same_phases.
  - symmetry in Hq. apply xdo_PWM_INIT_inv in Hq as (a & nm & t0 & t1 & t2 & Ha & Hn & Hc & Hu & -> & ->); [|done].
    rewrite (decode_open um arg t0 t1 t2 Hu) in Hin |- *. by apply xeno_open_simulated.
  - symmetry in Hq. apply (sim_run _ _ _ _ _ (sim_PWM_SET um arg)) in Hq as (ss' & Hs & Hrel & Hf).
    destruct (tab_duty _ _ _ _ _ _ Ht) as (a & Ha & La & _). rewrite Ha in Ht.
    pose proof (XenoPwm.wf_count s Hwf) as Hcnt. unfold MAX_PWM_NUM in Hcnt.
    rewrite (rel_bus _ _ Hrel).
    apply (PWM_SET_command um arg (soft_of s) a) in Hs as [-> Hc]; [|exact Ha|cbn; lia].
    cbn [soft_of SoftPwm.pwm_pin_count] in Hc.
    destruct (decode _ um arg) as [[|q v| |]|] eqn:Ex; try done.
    + pose proof (table_duty g xeno_params c _ a _ _ q v Ht) as Hd.
      assert (levels g (XenoPwm.bus s) (SoftPwm.bus ss') = []) as ->.
      { destruct (first_entry q _ a) as [[j d]|]; [subst ss'|destruct Hc as [m ->]]; apply levels_same. }
      exists (exec xeno_params (Duty q v) c).1.
      split; [apply run_one, (ctrl_exec _ _ (Duty q v)); by split; [apply Hin|]|].
      eapply xeno_rep_via; try done; [|apply duty_phases].
      destruct (first_entry q _ a) as [[j d]|]; [by subst ss'|].
      destruct Hc as [m ->]. rewrite Hd. cbn [SoftPwm.set_klog soft_of SoftPwm.duty_array SoftPwm.bus]. by rewrite Ha.
    + destruct Hc as [m ->]. exists c. cbn [SoftPwm.set_klog soft_of SoftPwm.bus]. rewrite levels_same.
      split; [apply run_one, ctrl_no_command|]. eapply xeno_rep_via; try done; [|by apply same_phases].
      cbn. by rewrite Ha.
  - injection Hq as -> ->. exists c. rewrite levels_same. split; [apply run_one, ctrl_no_command|done].
Qed.

Lemma xeno_sys_step_simulated c s tr s' :
  xeno_rep g c s -> xeno_sys_step cls g s tr s' ->
  exists c', run (ctrl_step xeno_params) c tr c' /\ xeno_rep g c' s'.
Proof.
  intros Hr Hs. destruct Hs as [s i t l s' Hi Hs | s um ti cmd arg r s' o Hum Hin Hs].
  - by eapply xeno_task_simulated.
  - by eapply xeno_client_simulated.
Qed.

(** ** Progress *)

Lemma xeno_task_moves c s i t :
  xeno_rep g c s -> task_array s !! i = Some (Some t) ->
  exists l s', XenoPwm.task_step (Z.of_nat i) s = Ok (l, s').
Proof.
  intros Hr Hi. destruct (xeno_task_at c s i t Hr Hi) as (ch & h & lw & _ & _ & _ & _ & Hat).
  rewrite (xtask_step_run _ _ _ _ _ _ _ Hat). destruct (xtask_next _ _ _ _ _ _ _) as [l s']. eauto.
Qed.

(** The shared commands return on xenoPWM when they do on softPWM. *)
Lemma sim_returns {A} (mx : M (XenoPwm.state LogBus) A) ms s y ss' :
  sim mx ms -> ms (soft_of s) = Ok (y, ss') -> exists x s', mx s = Ok (x, s').
Proof.
  intros Hs Hr. specialize (Hs s (soft_of s) (soft_of_related s)). rewrite Hr in Hs.
  destruct (mx s) as [[x s']|]; [eauto|done].
Qed.

Lemma xeno_client_returns c s um ti cmd arg x :
  xeno_rep g c s -> decode (xeno_request cls cmd) um arg = Some x -> allowed c x ->
  exists r s', xeno_pwm_ioctl cls um ti cmd arg s = Ok (r, s').
Proof.
  intros Hr Hd [Hin Hroom]. pose proof (xeno_request_inv um ti cmd arg s) as Hq.
  destruct (xeno_request cls cmd) as [k|]; [|done]. apply decode_args in Hd.
  pose proof (xr_table _ _ _ Hr) as Ht. pose proof (xr_wf _ _ _ Hr) as Hwf.
  destruct (tab_duty _ _ _ _ _ _ Ht) as (a & Ha & La & _). pose proof (tab_gpio _ _ _ _ _ _ Ht) as Hgp.
  pose proof (tab_count _ _ _ _ _ _ Ht) as Hn. pose proof (table_le _ _ _ _ _ _ Ht) as Hle.
  destruct x as [q mn mx|q v|q out|q up]; destruct Hd as [-> Hu]; cbn [in_range room] in Hin, Hroom;
    rewrite Hq.
  - unfold MAX_CHANNELS in Hroom.
    destruct (lookup_Z name (XenoPwm.pwm_pin_count s)) as [nm Hnm]; [cbn; lia|]. eexists _, _.
    apply (xdo_PWM_INIT_run um ti s a nm arg q mn mx); try done; try lia. apply Hwf.
  - eapply (sim_returns _ _ s); [apply sim_PWM_SET|].
    apply (do_PWM_SET_run um (soft_of s) a arg q v); [done|cbn; lia|done].
  - destruct (PIN_SET_returns um arg (soft_of s) g q out Hgp Hin Hu) as (y & ss' & Hs).
    eapply (sim_returns _ _ s); [apply sim_PIN_SET|exact Hs].
  - destruct (GPIO_SET_returns um arg (soft_of s) g q up Hgp Hin Hu) as (y & ss' & Hs).
    eapply (sim_returns _ _ s); [apply sim_GPIO_SET|exact Hs].
Qed.

Lemma xeno_rep_loaded e (b : LogBus) :
  XenoPwm.ioremap_ret e = Some g -> xeno_rep g (ctrl0 (pin_fsel g b)) (xeno_loaded e b).
Proof.
  intros Hg. split; [apply wf_xeno_loaded| |].
  - split; try done. by eexists.
  - intros i t Hi. cbn in Hi. by apply (lookup_replicate_1 5) in Hi as [? _].
Qed.
End xeno.

(** * Properties *)

(** C2: xenoPWM refines the same controller, with a first duty cycle of 10 and
    sleeps in nanoseconds.  From an [xeno_pwm_init] that could allocate the duty table
    and map the registers (whatever the device registration answered), interleave the
    tasks' statements with ioctl calls in any order, the calls being any at all as long
    as those that are commands name pins 0 to 31 (0 to 53 for a direction) and a
    positive range.  Then the actions seen are actions of a run of the controller,
    which the driver represents at the end; each task has produced the waveform of its
    channel; no task is stuck; and a call asking for something the controller allows
    returns.  (Outside these conditions tasks do get stuck: with an empty range the
    task divides by zero.) *)
Theorem xeno_refines_controller cls e (b : LogBus) g s0 tr s :
  XenoPwm.kzalloc_duty e = true -> XenoPwm.ioremap_ret e = Some g ->
  xeno_pwm_init e (XenoPwm.state0 b) = Ok (0, s0) -> run (xeno_sys_step cls g) s0 tr s ->
  exists c, run (ctrl_step xeno_params) (ctrl0 (pin_fsel g b)) tr c /\ xeno_rep g c s /\
    (forall i ch, chans c !! i = Some ch ->
       wave (pin (ch_entry ch)) Ready (acts (Task i) tr) = Some (ch_phase ch)) /\
    (forall i t, task_array s !! i = Some (Some t) ->
       exists l s', XenoPwm.task_step (Z.of_nat i) s = Ok (l, s')) /\
    (forall um ti cmd arg x, decode (xeno_request cls cmd) um arg = Some x -> allowed c x ->
       exists r s', xeno_pwm_ioctl cls um ti cmd arg s = Ok (r, s')).
Proof.
  intros He Hg Hinit Hrun. rewrite (xeno_init_loaded e b He) in Hinit. injection Hinit as <-.
  destruct (run_simulated _ _ _ (xeno_sys_step_simulated cls g) _ _ _ _ (xeno_rep_loaded g e b Hg) Hrun)
    as (c & Hc & Hr).
  exists c. split_and!; [done|done| | |].
  - intros i ch. by apply (ctrl_waveform xeno_params (pin_fsel g b)).
  - intros i t. by apply (xeno_task_moves g c).
  - intros um ti cmd arg x. by apply (xeno_client_returns cls g c).
Qed.

(** * Concrete runs *)

Definition ex_xopen : res (Z * XenoPwm.state LogBus) :=
  xeno_pwm_ioctl ex_cls (array_at 4096 [16; 0; 100]) 0 (XenoPwm.PWM_INIT ex_cls) 4096 ex_xloaded.
Definition ex_xs1 : XenoPwm.state LogBus :=
  match ex_xopen with Ok (_, s) => s | Fault _ => ex_xloaded end.
Definition ex_xtrace : list event := tag Client [Ask (Some (Open 16 0 100)); Reply 0] ++ [].

Lemma ex_xopen_run : run (xeno_sys_step ex_cls 0xF3200000) ex_xloaded ex_xtrace ex_xs1.
Proof.
  unfold ex_xtrace. eapply run_cons; [|apply run_nil].
  apply (xeno_client ex_cls 0xF3200000 ex_xloaded (array_at 4096 [16; 0; 100]) 0
    (XenoPwm.PWM_INIT ex_cls) 4096 0 ex_xs1).
  - intros a v. apply array_at_ints. ex_ints.
  - intros x Hx. vm_compute in Hx. injection Hx as <-. vm_compute. done.
  - vm_compute. reflexivity.
Qed.

Lemma xeno_refines_controller_witness :
  exists c, run (ctrl_step xeno_params) (ctrl0 (pin_fsel 0xF3200000 LogBus0)) ex_xtrace c /\
    xeno_rep 0xF3200000 c ex_xs1 /\
    (forall i ch, chans c !! i = Some ch ->
       wave (pin (ch_entry ch)) Ready (acts (Task i) ex_xtrace) = Some (ch_phase ch)) /\
    (forall i t, task_array ex_xs1 !! i = Some (Some t) ->
       exists l s', XenoPwm.task_step (Z.of_nat i) ex_xs1 = Ok (l, s')) /\
    (forall um ti cmd arg x, decode (xeno_request ex_cls cmd) um arg = Some x -> allowed c x ->
       exists r s', xeno_pwm_ioctl ex_cls um ti cmd arg ex_xs1 = Ok (r, s')).
Proof.
  apply (xeno_refines_controller ex_cls ex_xenv LogBus0 0xF3200000 ex_xloaded ex_xtrace ex_xs1);
    [reflexivity | reflexivity | vm_compute; reflexivity | exact ex_xopen_run].
Defined.
