(* ===== verification/PwmUser.v ===== *)
(** * The user-space programs of softPWM/uapi and xenoPWM/uapi

    [pinMode], [digitalWrite], [softPwmCreate] and [softPwmWrite] and the two
    [main] programs, written against an interface, [PwmDevice], that states what
    the programs rely on in a driver.  Both drivers implement it. *)

From S2P Require Import Prelude Ioctl Mmio PwmGpio PwmCommon.
From S2P Require Import SoftPwm.
From S2P Require Import XenoPwm XenoSim.
Open Scope Z_scope.

(** ** What the programs need of a driver *)

Inductive op := OpPinSet | OpGpioSet | OpPwmInit | OpPwmSet.

(** [dev_call o l] is the driver's ioctl for command [o] with a pointer to the
    [int] array [l]. *)
Class PwmDevice (S : Type) := {
  dev_call : op -> list Z -> M S Z;
  dev_ok : S -> Prop;                 (* set up, registers mapped *)
  dev_table : S -> list Dutycycle;    (* the channels in use *)
  dev_fsel : S -> Z -> Z;             (* the function code of a pin *)
  dev_duty0 : Z;                      (* duty cycle of a new channel *)
}.

Class PwmDeviceLaws (S : Type) `{PwmDevice S} : Prop := {
  law_output s q : dev_ok s -> 0 <= q < 54 ->
    exists s', dev_call OpPinSet [q; 1] s = Ok (0, s') /\ dev_ok s' /\ dev_table s' = dev_table s /\
      forall r, 0 <= r < 54 ->
        dev_fsel s' r = if decide (r = q) then Z.lor (dev_fsel s q) 1 else dev_fsel s r;
  law_init s p mn mx : dev_ok s -> (length (dev_table s) < 5)%nat ->
    exists s', dev_call OpPwmInit [p; mn; mx] s = Ok (0, s') /\ dev_ok s' /\
      dev_table s' = dev_table s ++ [mkDutycycle p dev_duty0 mn mx] /\
      forall r, dev_fsel s' r = dev_fsel s r;
  law_set s p v j d : dev_ok s -> list_find (fun d => pin d = p) (dev_table s) = Some (j, d) ->
    exists s', dev_call OpPwmSet [p; v] s = Ok (0, s') /\ dev_ok s' /\
      dev_table s' = <[j := set_duty_cycle v d]> (dev_table s) /\
      forall r, dev_fsel s' r = dev_fsel s r;
}.

(** ** The programs *)

Definition INPUT : Z := 0.
Definition OUTPUT : Z := 1.
Definition LOW : Z := 0.
Definition HIGH : Z := 1.
Definition PIN1 : Z := 16.
Definition PIN2 : Z := 21.
Definition EBADF : Z := 9.

(** A line printed by a program: its format and its integer arguments (for
    [strerror] the error number). *)
Inductive line := Line (fmt : string) (args : list Z).

Record ustate (S : Type) := mkUstate { drv : S; out : list line; errno : Z }.
Arguments mkUstate {S}. Arguments drv {S}. Arguments out {S}. Arguments errno {S}.

Section pwm_user.
Context {S : Type} `{PwmDevice S}.
Local Abbreviation U := (M (ustate S)).

Definition printf (fmt : string) (args : list Z) : U unit :=
  modify (fun u => mkUstate (drv u) (out u ++ [Line fmt args]) (errno u)).

(** The C library's [ioctl]: a negative result of the driver becomes -1 and
    [errno]; a bad descriptor does not reach it. *)
Definition ioctl (fd : Z) (o : op) (l : list Z) : U Z := fun u =>
  if fd <? 0 then Ok (-1, mkUstate (drv u) (out u) EBADF)
  else match dev_call o l (drv u) with
       | Ok (r, s) => if r <? 0 then Ok (-1, mkUstate s (out u) (- r))
                      else Ok (r, mkUstate s (out u) (errno u))
       | Fault e => Fault e
       end.

Definition report (fmt : string) (ret : Z) : U unit :=
  if ret <? 0 then e ← gets errno; printf fmt [ret; e] else mret tt.

(** softPWM's [pinMode] prints the pin; xenoPWM's does not. *)
Definition soft_pinMode (fd p ty : Z) : U unit :=
  printf "%d" [p];;
  ret ← ioctl fd OpPinSet [p; ty]; report "ioctl for PIN_SET failed: %d %s" ret.
Definition xeno_pinMode (fd p ty : Z) : U unit :=
  ret ← ioctl fd OpPinSet [p; ty]; report "ioctl for PIN_SET failed: %d %s" ret.
Definition digitalWrite (fd p status : Z) : U unit :=
  ret ← ioctl fd OpGpioSet [p; status]; report "ioctl for GPIO_SET failed: %d %s" ret.
Definition softPwmCreate (fd p mn mx : Z) : U unit :=
  ret ← ioctl fd OpPwmInit [p; mn; mx]; report "ioctl for PWM_INIT failed: %d %s" ret.
Definition softPwmWrite (fd p duty : Z) : U unit :=
  ret ← ioctl fd OpPwmSet [p; duty]; report "ioctl for PWM_SET failed: %d %s" ret.

(** The two [main]s; [fd] is what [open] returned. *)
Definition soft_main (fd : Z) : U Z :=
  (if fd <? 0 then printf "failed to open device softpwm" [] else mret tt);;
  soft_pinMode fd PIN1 OUTPUT;;
  soft_pinMode fd PIN2 OUTPUT;;
  softPwmCreate fd PIN1 0 100;;
  softPwmCreate fd PIN2 0 10000;;
  softPwmWrite fd PIN1 50;;
  softPwmWrite fd PIN2 1000;;
  mret 0.
Definition xeno_main (fd : Z) : U Z :=
  (if fd <? 0 then e ← gets errno; printf "failed to open device xenoPWM : %s" [e] else mret tt);;
  xeno_pinMode fd PIN1 OUTPUT;;
  xeno_pinMode fd PIN2 OUTPUT;;
  softPwmCreate fd PIN1 0 100;;
  softPwmCreate fd PIN2 0 10000;;
  softPwmWrite fd PIN1 50;;
  softPwmWrite fd PIN2 1000;;
  mret 0.

Lemma ioctl_run fd o l u r s' :
  0 <= fd -> 0 <= r -> dev_call o l (drv u) = Ok (r, s') ->
  ioctl fd o l u = Ok (r, mkUstate s' (out u) (errno u)).
Proof.
  intros Hfd Hr Hc. unfold ioctl.
  by rewrite (proj2 (Z.ltb_ge fd 0) Hfd), Hc, (proj2 (Z.ltb_ge r 0) Hr).
Qed.

Lemma call_run fd o l fmt u s' :
  0 <= fd -> dev_call o l (drv u) = Ok (0, s') ->
  (ret ← ioctl fd o l; report fmt ret) u = Ok (tt, mkUstate s' (out u) (errno u)).
Proof.
  intros Hfd Hc. by rewrite (Mbind_run _ _ _ _ _ (ioctl_run fd o l u 0 s' Hfd ltac:(lia) Hc)).
Qed.

Lemma call_bad fd o l fmt u :
  fd < 0 -> (ret ← ioctl fd o l; report fmt ret) u =
    Ok (tt, mkUstate (drv u) (out u ++ [Line fmt [-1; EBADF]]) EBADF).
Proof. intros Hfd. rewrite Mbind_unfold. unfold ioctl. by rewrite (proj2 (Z.ltb_lt fd 0) Hfd). Qed.

Lemma soft_pinMode_bad fd p ty u :
  fd < 0 -> soft_pinMode fd p ty u =
    Ok (tt, mkUstate (drv u) ((out u ++ [Line "%d" [p]]) ++
              [Line "ioctl for PIN_SET failed: %d %s" [-1; EBADF]]) EBADF).
Proof. intros Hfd. unfold soft_pinMode, printf. rewrite Mbind_modify. by rewrite call_bad. Qed.
End pwm_user.

(** ** softPWM implements the interface *)

Section soft_device.
Context {B : Type} `{PlainRegs B plain}.
Variables (lim sp g : Z).
(** Which [task_struct] [kthread_create] returns, given the threads there are. *)
Variable new_thread : gmap Z kthread -> Z.
Hypothesis Hnew : forall th, IS_ERR (new_thread th) = false.
Hypothesis Hsp : 0 <= sp /\ sp + 12 <= 2 ^ 32 /\ access_ok lim sp 4 = true.
Hypothesis Hplain : forall k, 0 <= k < 6 -> plain (g + 4 * k).

Definition soft_cmd (o : op) : Z :=
  match o with OpPinSet => SoftPwm.PIN_SET | OpGpioSet => SoftPwm.GPIO_SET
             | OpPwmInit => SoftPwm.PWM_INIT | OpPwmSet => SoftPwm.PWM_SET end.

Record soft_usable (s : SoftPwm.state B) : Prop := {
  su_count : 0 <= SoftPwm.pwm_pin_count s <= 5;
  su_duty : exists a, SoftPwm.duty_array s = Some a /\ length a = 5%nat;
  su_tsk : exists l, pwm_tsk s = Some l /\ length l = 5%nat;
  su_gpio : SoftPwm.gpio s = Some g;
}.

Definition soft_table (s : SoftPwm.state B) : list Dutycycle :=
  take (Z.to_nat (SoftPwm.pwm_pin_count s)) (default [] (SoftPwm.duty_array s)).

Definition soft_device : PwmDevice (SoftPwm.state B) := {|
  dev_call o l s := pwm_ioctl lim (array_at sp l) (new_thread (SoftPwm.threads s)) (soft_cmd o) sp s;
  dev_ok := soft_usable;
  dev_table := soft_table;
  dev_fsel s q := pin_fsel g (SoftPwm.bus s) q;
  dev_duty0 := 0;
|}.

Lemma sp_args l : (length l <= 3)%nat -> user_args (array_at sp l) sp l.
Proof. intros. apply array_at_args; lia. Qed.

(** [take] past an appended entry, and an update inside the prefix. *)
Lemma take_insert_end {A} (l : list A) n x :
  (n < length l)%nat -> take (S n) (<[n := x]> l) = take n l ++ [x].
Proof.
  intros Hn. rewrite (take_S_r _ n x) by (by apply list_lookup_insert_eq).
  by rewrite take_insert_ge by lia.
Qed.

Lemma soft_laws : @PwmDeviceLaws _ soft_device.
Proof.
  destruct Hsp as (Hsp0 & Hsp1 & Hacc). constructor; cbn [dev_call dev_ok dev_table dev_fsel dev_duty0 soft_device soft_cmd].
  - intros s q [Hc Hd Ht Hg] Hq. rewrite pwm_ioctl_PIN_SET, Hacc. unfold SoftPwm.do_PIN_SET.
    rewrite (Mbind_run _ _ _ _ _ (user_args_tmp _ sp [q; 1] 1 1 s (sp_args [q; 1] ltac:(cbn; lia)) eq_refl)).
    cbn [Z.eqb Pos.eqb negb andb].
    rewrite (Mbind_run _ _ _ _ _ (user_args_tmp _ sp [q; 1] 0 q s (sp_args [q; 1] ltac:(cbn; lia)) eq_refl)).
    rewrite Mbind_unfold. unfold SoftPwm.with_gpio. rewrite Hg.
    destruct (gpio_output_total g q (SoftPwm.bus s)) as [b' Hb]; [lia|]. rewrite Hb.
    eexists. split; [done|]. split; [by split|]. split; [done|]. intros r Hr. sred.
    rewrite (gpio_output_fsel g Hplain q (SoftPwm.bus s) b' r) by (done || lia).
    by case_decide; subst.
  - intros s p mn mx [Hc (a & Ha & La) (l & Hl & Ll) Hg] Hlen.
    unfold soft_table in Hlen. rewrite Ha in Hlen. cbn [default] in Hlen. rewrite length_take in Hlen.
    unfold id in Hlen.
    destruct (lookup_Z name (SoftPwm.pwm_pin_count s)) as [nm Hn]; [cbn; lia|].
    rewrite pwm_ioctl_PWM_INIT, Hacc.
    rewrite (SoftPwm.do_PWM_INIT_run _ _ s a l nm sp p mn mx)
      by (done || lia || apply sp_args; cbn; lia).
    eexists. split; [done|]. unfold SoftPwm.after_init, soft_table. split; [|split]; sred.
    + split; sred; [lia| | |done]; eexists; (split; [done|]); by rewrite length_insert.
    + rewrite Ha. cbn [default]. unfold id.
      replace (Z.to_nat (SoftPwm.pwm_pin_count s + 1)) with (S (Z.to_nat (SoftPwm.pwm_pin_count s))) by lia.
      apply take_insert_end. lia.
    + done.
  - intros s p v j d [Hc (a & Ha & La) Ht Hg] Hf. unfold soft_table in Hf. rewrite Ha in Hf.
    cbn [default] in Hf. unfold id in Hf.
    rewrite pwm_ioctl_PWM_SET, Hacc.
    rewrite (SoftPwm.do_PWM_SET_run _ s a sp p v) by (done || lia || apply sp_args; cbn; lia).
    unfold first_entry. rewrite Hf. eexists. split; [done|]. split; [|split].
    + split; sred; try done. eexists. split; [done|]. by rewrite length_insert.
    + unfold soft_table. sred. rewrite Ha. cbn [default]. unfold id.
      apply list_find_Some in Hf as ([Hd Hj]%lookup_take_Some & _).
      by rewrite take_insert_lt by lia.
    + done.
Qed.
End soft_device.

(** ** xenoPWM implements the interface *)

Section xeno_device.
Context {B : Type} `{PlainRegs B plain}.
Variables (cls sp g : Z).
Hypothesis Hcls : 0 <= cls < 256.
Hypothesis Hsp : 0 <= sp /\ sp + 12 <= 2 ^ 32.
Hypothesis Hplain : forall k, 0 <= k < 6 -> plain (g + 4 * k).

Definition xeno_cmd (o : op) : Z :=
  match o with OpPinSet => XenoPwm.PIN_SET cls | OpGpioSet => XenoPwm.GPIO_SET cls
             | OpPwmInit => XenoPwm.PWM_INIT cls | OpPwmSet => XenoPwm.PWM_SET cls end.

Record xeno_usable (s : XenoPwm.state B) : Prop := {
  xu_count : 0 <= XenoPwm.pwm_pin_count s <= 5;
  xu_duty : exists a, XenoPwm.duty_array s = Some a /\ length a = 5%nat;
  xu_tasks : length (task_array s) = 5%nat;
  xu_gpio : XenoPwm.gpio s = Some g;
}.

Definition xeno_table (s : XenoPwm.state B) : list Dutycycle :=
  take (Z.to_nat (XenoPwm.pwm_pin_count s)) (default [] (XenoPwm.duty_array s)).

(** [rtdm_task_init] answers 0. *)
Definition xeno_device : PwmDevice (XenoPwm.state B) := {|
  dev_call o l := xeno_pwm_ioctl cls (array_at sp l) 0 (xeno_cmd o) sp;
  dev_ok := xeno_usable;
  dev_table := xeno_table;
  dev_fsel s q := pin_fsel g (XenoPwm.bus s) q;
  dev_duty0 := 10;
|}.

(** A softPWM run seen in xenoPWM. *)
Lemma sim_back {A} mx ms (s : XenoPwm.state B) (x : A) ss' :
  sim mx ms -> ms (soft_of s) = Ok (x, ss') ->
  exists s', mx s = Ok (x, s') /\ related s' ss' /\ frame s s'.
Proof.
  intros Hs Hr. specialize (Hs s (soft_of s) (soft_of_related s)). rewrite Hr in Hs.
  unfold sim_res in Hs. destruct (mx s) as [[y s']|]; [|done].
  destruct Hs as (-> & ? & ?). by exists s'.
Qed.

Lemma xeno_usable_frame s s' a :
  xeno_usable s -> frame s s' -> XenoPwm.duty_array s' = Some a -> length a = 5%nat -> xeno_usable s'.
Proof. intros [? ? ? ?] (Et & _ & En & Eg) Ha La. split; rewrite ?Et, ?En, ?Eg; eauto. Qed.

Lemma xeno_laws : @PwmDeviceLaws _ xeno_device.
Proof.
  destruct Hsp as (Hsp0 & Hsp1).
  assert (forall l : list Z, (length l <= 3)%nat -> user_args (array_at sp l) sp l) as Hargs.
  { intros. apply array_at_args; lia. }
  constructor; cbn [dev_call dev_ok dev_table dev_fsel dev_duty0 xeno_device xeno_cmd].
  - intros s q Hok Hq. pose proof (xu_duty s Hok) as (a & Ha & La).
    destruct (xeno_dispatch cls (array_at sp [q; 1]) 0 s sp Hcls) as (-> & _).
    unfold XenoPwm.do_PIN_SET.
    rewrite (Mbind_run _ _ _ _ _ (user_args_tmp _ sp [q; 1] 1 1 s (Hargs [q; 1] ltac:(cbn; lia)) eq_refl)).
    cbn [Z.eqb Pos.eqb negb andb].
    rewrite (Mbind_run _ _ _ _ _ (user_args_tmp _ sp [q; 1] 0 q s (Hargs [q; 1] ltac:(cbn; lia)) eq_refl)).
    rewrite Mbind_unfold. unfold XenoPwm.with_gpio. rewrite (xu_gpio s Hok).
    destruct (gpio_output_total g q (XenoPwm.bus s)) as [b' Hb]; [lia|]. rewrite Hb.
    eexists. split; [done|]. split; [by apply (xeno_usable_frame s _ a)|]. split; [done|].
    intros r Hr. xred. rewrite (gpio_output_fsel g Hplain q (XenoPwm.bus s) b' r) by (done || lia).
    by case_decide; subst.
  - intros s p mn mx [Hc (a & Ha & La) Ll Hg] Hlen.
    unfold xeno_table in Hlen. rewrite Ha in Hlen. cbn [default] in Hlen. rewrite length_take in Hlen.
    unfold id in Hlen.
    destruct (lookup_Z name (XenoPwm.pwm_pin_count s)) as [nm Hn]; [cbn; lia|].
    destruct (xeno_dispatch cls (array_at sp [p; mn; mx]) 0 s sp Hcls) as (_ & _ & -> & _).
    rewrite (xdo_PWM_INIT_run _ _ s a nm sp p mn mx) by (done || lia || apply Hargs; cbn; lia).
    eexists. split; [done|]. unfold XenoPwm.after_init, after_fill, xeno_table. cbn [Z.eqb].
    split; [|split]; xred.
    + split; xred; [lia| |by rewrite length_insert|done].
      eexists. split; [done|]. by rewrite length_insert.
    + rewrite Ha. cbn [default]. unfold id.
      replace (Z.to_nat (XenoPwm.pwm_pin_count s + 1)) with (S (Z.to_nat (XenoPwm.pwm_pin_count s))) by lia.
      apply take_insert_end. lia.
    + done.
  - intros s p v j d Hok Hf. pose proof (xu_duty s Hok) as (a & Ha & La).
    pose proof (xu_count s Hok) as Hc. unfold xeno_table in Hf.
    rewrite Ha in Hf. cbn [default] in Hf. unfold id in Hf.
    destruct (xeno_dispatch cls (array_at sp [p; v]) 0 s sp Hcls) as (_ & _ & _ & ->).
    pose proof (SoftPwm.do_PWM_SET_run (array_at sp [p; v]) (soft_of s) a sp p v Ha
                  ltac:(cbn [SoftPwm.pwm_pin_count soft_of]; lia) (Hargs [p; v] ltac:(cbn; lia))) as Hrun.
    unfold first_entry in Hrun. cbn [SoftPwm.pwm_pin_count soft_of] in Hrun. rewrite Hf in Hrun.
    destruct (sim_back _ _ s 0 _ (sim_PWM_SET _ _) Hrun) as (s' & Hx & Hrel & Hfr).
    exists s'. split; [done|].
    assert (XenoPwm.duty_array s' = Some (<[j := set_duty_cycle v d]> a)) as Ha'
      by (by rewrite (rel_duty _ _ Hrel)).
    split; [|split].
    + eapply (xeno_usable_frame s s'); try done. by rewrite length_insert.
    + unfold xeno_table. rewrite Ha', Ha. cbn [default]. unfold id.
      destruct Hfr as (_ & _ & -> & _).
      apply list_find_Some in Hf as ([Hd Hj]%lookup_take_Some & _).
      by rewrite take_insert_lt by lia.
    + intros r. by rewrite (rel_bus _ _ Hrel).
Qed.
End xeno_device.

(** ** What the programs do *)

Section programs.
Context {S : Type} `{PwmDeviceLaws S}.
Implicit Type u : ustate S.

Definition mode_ok (u : ustate S) (fd p : Z) (printed : list line) (call : M (ustate S) unit) : Prop :=
  exists s', call u = Ok (tt, mkUstate s' (out u ++ printed) (errno u)) /\ dev_ok s' /\
    dev_table s' = dev_table (drv u) /\
    forall r, 0 <= r < 54 ->
      dev_fsel s' r = if decide (r = p) then Z.lor (dev_fsel (drv u) p) 1 else dev_fsel (drv u) r.

Lemma soft_pinMode_run fd p u :
  0 <= fd -> dev_ok (drv u) -> 0 <= p < 54 ->
  mode_ok u fd p [Line "%d" [p]] (soft_pinMode fd p OUTPUT).
Proof.
  intros Hfd Hok Hp. destruct (law_output (drv u) p Hok Hp) as (s' & Hc & ? & ? & ?).
  exists s'. split; [|done]. unfold soft_pinMode, printf. rewrite Mbind_modify.
  by rewrite (call_run fd _ _ _ _ s' Hfd).
Qed.

Lemma xeno_pinMode_run fd p u :
  0 <= fd -> dev_ok (drv u) -> 0 <= p < 54 ->
  mode_ok u fd p [] (xeno_pinMode fd p OUTPUT).
Proof.
  intros Hfd Hok Hp. destruct (law_output (drv u) p Hok Hp) as (s' & Hc & ? & ? & ?).
  exists s'. split; [|done]. unfold xeno_pinMode. rewrite (call_run fd _ _ _ _ s' Hfd) by done.
  by rewrite app_nil_r.
Qed.

Definition run_ok (u : ustate S) (tbl : list Dutycycle) (call : M (ustate S) unit) : Prop :=
  exists s', call u = Ok (tt, mkUstate s' (out u) (errno u)) /\ dev_ok s' /\ dev_table s' = tbl /\
    forall r, dev_fsel s' r = dev_fsel (drv u) r.

Lemma softPwmCreate_run fd p mn mx u :
  0 <= fd -> dev_ok (drv u) -> (length (dev_table (drv u)) < 5)%nat ->
  run_ok u (dev_table (drv u) ++ [mkDutycycle p dev_duty0 mn mx]) (softPwmCreate fd p mn mx).
Proof.
  intros Hfd Hok Hl. destruct (law_init (drv u) p mn mx Hok Hl) as (s' & Hc & ? & ? & ?).
  exists s'. split; [|done]. by apply call_run.
Qed.

Lemma softPwmWrite_run fd p v j d u :
  0 <= fd -> dev_ok (drv u) -> list_find (fun d => pin d = p) (dev_table (drv u)) = Some (j, d) ->
  run_ok u (<[j := set_duty_cycle v d]> (dev_table (drv u))) (softPwmWrite fd p v).
Proof.
  intros Hfd Hok Hf. destruct (law_set (drv u) p v j d Hok Hf) as (s' & Hc & ? & ? & ?).
  exists s'. split; [|done]. by apply call_run.
Qed.

(** The part of [main] after the two [pinMode]s. *)
Definition channels (fd : Z) : M (ustate S) Z :=
  softPwmCreate fd PIN1 0 100;; softPwmCreate fd PIN2 0 10000;;
  softPwmWrite fd PIN1 50;; softPwmWrite fd PIN2 1000;; mret 0.

Lemma channels_run fd u :
  0 <= fd -> dev_ok (drv u) -> dev_table (drv u) = [] ->
  exists s', channels fd u = Ok (0, mkUstate s' (out u) (errno u)) /\
    dev_table s' = [mkDutycycle 16 50 0 100; mkDutycycle 21 1000 0 10000] /\
    forall r, dev_fsel s' r = dev_fsel (drv u) r.
Proof.
  intros Hfd Hok Ht. unfold channels.
  destruct (softPwmCreate_run fd PIN1 0 100 u Hfd Hok) as (s1 & E1 & O1 & T1 & F1);
    [rewrite Ht; cbn; lia|]. rewrite (Mbind_run _ _ _ _ _ E1).
  destruct (softPwmCreate_run fd PIN2 0 10000 (mkUstate s1 (out u) (errno u)) Hfd O1) as (s2 & E2 & O2 & T2 & F2);
    [cbn [drv]; rewrite T1, Ht; cbn; lia|]. rewrite (Mbind_run _ _ _ _ _ E2).
  cbn [drv] in T2, F2. rewrite T1, Ht in T2. cbn [app] in T2.
  destruct (softPwmWrite_run fd PIN1 50 0 (mkDutycycle PIN1 dev_duty0 0 100)
    (mkUstate s2 (out u) (errno u)) Hfd O2) as (s3 & E3 & O3 & T3 & F3);
    [cbn [drv]; by rewrite T2|]. rewrite (Mbind_run _ _ _ _ _ E3).
  cbn [drv] in T3, F3. rewrite T2 in T3.
  destruct (softPwmWrite_run fd PIN2 1000 1 (mkDutycycle PIN2 dev_duty0 0 10000)
    (mkUstate s3 (out u) (errno u)) Hfd O3) as (s4 & E4 & O4 & T4 & F4);
    [cbn [drv]; by rewrite T3|]. rewrite (Mbind_run _ _ _ _ _ E4).
  cbn [drv] in T4, F4. rewrite T3 in T4.
  exists s4. split; [done|]. split; [done|]. intros r. by rewrite F4, F3, F2, F1.
Qed.

(** Both pins made outputs. *)
Lemma two_modes (c1 c2 : M (ustate S) unit) l1 l2 fd u :
  (forall u', dev_ok (drv u') -> mode_ok u' fd PIN1 l1 c1) ->
  (forall u', dev_ok (drv u') -> mode_ok u' fd PIN2 l2 c2) ->
  0 <= fd -> dev_ok (drv u) -> dev_table (drv u) = [] ->
  exists s', (c1;; c2;; channels fd) u = Ok (0, mkUstate s' (out u ++ l1 ++ l2) (errno u)) /\
    dev_table s' = [mkDutycycle 16 50 0 100; mkDutycycle 21 1000 0 10000] /\
    forall r, 0 <= r < 54 -> dev_fsel s' r =
      if decide (r = 16 \/ r = 21) then Z.lor (dev_fsel (drv u) r) 1 else dev_fsel (drv u) r.
Proof.
  intros H1 H2 Hfd Hok Ht.
  destruct (H1 u Hok) as (s1 & E1 & O1 & T1 & F1). rewrite (Mbind_run _ _ _ _ _ E1).
  destruct (H2 (mkUstate s1 (out u ++ l1) (errno u)) O1) as (s2 & E2 & O2 & T2 & F2). rewrite (Mbind_run _ _ _ _ _ E2).
  cbn [drv out errno] in *.
  destruct (channels_run fd (mkUstate s2 ((out u ++ l1) ++ l2) (errno u)) Hfd O2) as (s3 & E3 & T3 & F3);
    [cbn [drv]; congruence|].
  cbn [out errno drv] in *. rewrite <- app_assoc in E3 |- *.
  exists s3. split; [done|]. split; [done|]. intros r Hr. unfold PIN1, PIN2 in *.
  rewrite F3, F2, !F1 by lia.
  repeat case_decide; subst; done || lia.
Qed.

Lemma printf_run fmt l u :
  printf fmt l u = Ok (tt, mkUstate (drv u) (out u ++ [Line fmt l]) (errno u)).
Proof. done. Qed.
End programs.

(** * Properties *)

(** C5: The two user programs.  When the device could be opened, on a driver without
    channels that keeps the laws of [PwmDeviceLaws] (both drivers do, when the threads
    or tasks can be created), [main] of softPWM and of xenoPWM return 0 and leave exactly
    two channels in use: pin 16 at 50 of 0..100 and pin 21 at 1000 of 0..10000; pins 16
    and 21 have had the output bit set in their function code and no other pin's code
    has changed; the softPWM program has printed the two pin numbers and the other
    nothing. *)
Theorem user_main {S : Type} `{PwmDeviceLaws S} fd s en :
  0 <= fd -> dev_ok s -> dev_table s = [] ->
  (exists s', soft_main fd (mkUstate s [] en) =
      Ok (0, mkUstate s' [Line "%d" [16]; Line "%d" [21]] en) /\
    dev_table s' = [mkDutycycle 16 50 0 100; mkDutycycle 21 1000 0 10000] /\
    forall r, 0 <= r < 54 -> dev_fsel s' r =
      if decide (r = 16 \/ r = 21) then Z.lor (dev_fsel s r) 1 else dev_fsel s r) /\
  (exists s', xeno_main fd (mkUstate s [] en) = Ok (0, mkUstate s' [] en) /\
    dev_table s' = [mkDutycycle 16 50 0 100; mkDutycycle 21 1000 0 10000] /\
    forall r, 0 <= r < 54 -> dev_fsel s' r =
      if decide (r = 16 \/ r = 21) then Z.lor (dev_fsel s r) 1 else dev_fsel s r).
Proof.
  intros Hfd Hok Ht. unfold soft_main, xeno_main. rewrite (proj2 (Z.ltb_ge fd 0) Hfd), !Mbind_ret.
  split.
  - apply (two_modes (soft_pinMode fd PIN1 OUTPUT) (soft_pinMode fd PIN2 OUTPUT)
             [Line "%d" [16]] [Line "%d" [21]] fd (mkUstate s [] en)); try done;
      intros u' Hu'; apply soft_pinMode_run; done || (unfold PIN1, PIN2; lia).
  - apply (two_modes (xeno_pinMode fd PIN1 OUTPUT) (xeno_pinMode fd PIN2 OUTPUT) [] [] fd (mkUstate s [] en));
      try done; intros u' Hu'; apply xeno_pinMode_run; done || (unfold PIN1, PIN2; lia).
Qed.

(** A device that cannot be opened does not stop [main]: with a negative
    descriptor it reports the failure, then makes all six calls with that
    descriptor, reports each of them failing with [EBADF], never reaches the
    driver, and still returns 0. *)
Theorem user_main_no_device {S : Type} `{PwmDevice S} fd s en :
  fd < 0 ->
  soft_main fd (mkUstate s [] en) = Ok (0, mkUstate s
    ([Line "failed to open device softpwm" []] ++
     [Line "%d" [16]; Line "ioctl for PIN_SET failed: %d %s" [-1; 9];
      Line "%d" [21]; Line "ioctl for PIN_SET failed: %d %s" [-1; 9]] ++
     [Line "ioctl for PWM_INIT failed: %d %s" [-1; 9]; Line "ioctl for PWM_INIT failed: %d %s" [-1; 9];
      Line "ioctl for PWM_SET failed: %d %s" [-1; 9]; Line "ioctl for PWM_SET failed: %d %s" [-1; 9]]) 9).
Proof.
  intros Hfd. unfold soft_main. rewrite (proj2 (Z.ltb_lt fd 0) Hfd).
  rewrite (Mbind_run _ _ _ _ _ (printf_run _ _ _)).
  rewrite !(Mbind_run _ _ _ _ _ (soft_pinMode_bad fd _ _ _ Hfd)).
  unfold softPwmCreate, softPwmWrite.
  do 4 rewrite (Mbind_run _ _ _ _ _ (call_bad fd _ _ _ _ Hfd)).
  reflexivity.
Qed.

(** * Concrete runs *)

Definition ex_new_thread (th : gmap Z kthread) : Z := 0x80001000.
#[local] Instance ex_soft_device : PwmDevice (SoftPwm.state LogBus) :=
  soft_device (B := LogBus) ex_limit 4096 0xF3200000 ex_new_thread.
#[local] Instance ex_soft_laws : PwmDeviceLaws (SoftPwm.state LogBus).
Proof.
  apply (soft_laws (plain := fun _ => True)); [done | | done].
  split; [lia|]. split; [lia|]. vm_compute. reflexivity.
Qed.
#[local] Instance ex_xeno_device : PwmDevice (XenoPwm.state LogBus) :=
  xeno_device (B := LogBus) 224 4096 0xF3200000.
#[local] Instance ex_xeno_laws : PwmDeviceLaws (XenoPwm.state LogBus).
Proof. apply (xeno_laws (plain := fun _ => True)); [lia | lia | done]. Qed.

Lemma ex_loaded_ok : dev_ok (S := SoftPwm.state LogBus) ex_loaded.
Proof. split; [cbn; lia | by eexists | by eexists | done]. Qed.
Lemma ex_xloaded_ok : dev_ok (S := XenoPwm.state LogBus) ex_xloaded.
Proof. split; [cbn; lia | by eexists | done | done]. Qed.

(** The softPWM program on softPWM, and the xenoPWM program on xenoPWM. *)
Lemma user_main_witness :
  (exists s', soft_main 3 (mkUstate ex_loaded [] 0) =
      Ok (0, mkUstate s' [Line "%d" [16]; Line "%d" [21]] 0) /\
    dev_table s' = [mkDutycycle 16 50 0 100; mkDutycycle 21 1000 0 10000] /\
    forall r, 0 <= r < 54 -> dev_fsel s' r =
      if decide (r = 16 \/ r = 21) then Z.lor (dev_fsel ex_loaded r) 1 else dev_fsel ex_loaded r) /\
  (exists s', xeno_main 3 (mkUstate ex_xloaded [] 0) = Ok (0, mkUstate s' [] 0) /\
    dev_table s' = [mkDutycycle 16 50 0 100; mkDutycycle 21 1000 0 10000] /\
    forall r, 0 <= r < 54 -> dev_fsel s' r =
      if decide (r = 16 \/ r = 21) then Z.lor (dev_fsel ex_xloaded r) 1 else dev_fsel ex_xloaded r).
Proof.
  split.
  - exact (proj1 (user_main 3 ex_loaded 0 (proj1 (Z.leb_le 0 3) eq_refl) ex_loaded_ok eq_refl)).
  - exact (proj2 (user_main 3 ex_xloaded 0 (proj1 (Z.leb_le 0 3) eq_refl) ex_xloaded_ok eq_refl)).
Defined.

Lemma user_main_no_device_witness :
  soft_main (-1) (mkUstate ex_loaded [] 0) = Ok (0, mkUstate ex_loaded
    ([Line "failed to open device softpwm" []] ++
     [Line "%d" [16]; Line "ioctl for PIN_SET failed: %d %s" [-1; 9];
      Line "%d" [21]; Line "ioctl for PIN_SET failed: %d %s" [-1; 9]] ++
     [Line "ioctl for PWM_INIT failed: %d %s" [-1; 9]; Line "ioctl for PWM_INIT failed: %d %s" [-1; 9];
      Line "ioctl for PWM_SET failed: %d %s" [-1; 9]; Line "ioctl for PWM_SET failed: %d %s" [-1; 9]]) 9).
Proof. apply (user_main_no_device (-1) ex_loaded 0). lia. Defined.
