(* ===== verification/BoardHw.v ===== *)
(** * mach-bcm2709 headers: addresses, interrupt numbers and registers

    The constants of mach/platform.h, mach/irqs.h, mach/gpio.h and the part of
    mach/arm_control.h that the board code uses, and the fixed mapping of
    peripheral addresses to kernel virtual addresses.  [ARM_BASE] is the
    definition of platform.h, which undefines the bus address that arm_control.h
    gives. *)

From S2P Require Import Prelude Mmio.
Open Scope Z_scope.

(** ** mach/platform.h: peripheral addresses, interrupt numbers, watchdog *)

Definition BCM2708_SDRAM_BASE : Z := 0.
Definition BCM2708_PERI_BASE : Z := 0x3F000000.
Definition IC0_BASE : Z := (BCM2708_PERI_BASE + 0x2000).
Definition ST_BASE : Z := (BCM2708_PERI_BASE + 0x3000).
Definition MPHI_BASE : Z := (BCM2708_PERI_BASE + 0x6000).
Definition DMA_BASE : Z := (BCM2708_PERI_BASE + 0x7000).
Definition ARM_BASE : Z := (BCM2708_PERI_BASE + 0xB000).
Definition PM_BASE : Z := (BCM2708_PERI_BASE + 0x100000).
Definition PCM_CLOCK_BASE : Z := (BCM2708_PERI_BASE + 0x101098).
Definition RNG_BASE : Z := (BCM2708_PERI_BASE + 0x104000).
Definition GPIO_BASE : Z := (BCM2708_PERI_BASE + 0x200000).
Definition UART0_BASE : Z := (BCM2708_PERI_BASE + 0x201000).
Definition MMCI0_BASE : Z := (BCM2708_PERI_BASE + 0x202000).
Definition I2S_BASE : Z := (BCM2708_PERI_BASE + 0x203000).
Definition SPI0_BASE : Z := (BCM2708_PERI_BASE + 0x204000).
Definition BSC0_BASE : Z := (BCM2708_PERI_BASE + 0x205000).
Definition UART1_BASE : Z := (BCM2708_PERI_BASE + 0x215000).
Definition EMMC_BASE : Z := (BCM2708_PERI_BASE + 0x300000).
Definition SMI_BASE : Z := (BCM2708_PERI_BASE + 0x600000).
Definition BSC1_BASE : Z := (BCM2708_PERI_BASE + 0x804000).
Definition USB_BASE : Z := (BCM2708_PERI_BASE + 0x980000).
Definition MCORE_BASE : Z := (BCM2708_PERI_BASE + 0x0000).
Definition ARMCTRL_BASE : Z := (ARM_BASE + 0x000).
Definition ARMCTRL_IC_BASE : Z := (ARM_BASE + 0x200).
Definition ARMCTRL_TIMER0_1_BASE : Z := (ARM_BASE + 0x400).
Definition ARMCTRL_0_SBM_BASE : Z := (ARM_BASE + 0x800).
Definition ARMCTRL_0_BELL_BASE : Z := (ARMCTRL_0_SBM_BASE + 0x40).
Definition ARMCTRL_0_MAIL0_BASE : Z := (ARMCTRL_0_SBM_BASE + 0x80).
Definition ARM_IRQ1_BASE : Z := 0.
Definition INTERRUPT_TIMER0 : Z := (ARM_IRQ1_BASE + 0).
Definition INTERRUPT_TIMER1 : Z := (ARM_IRQ1_BASE + 1).
Definition INTERRUPT_TIMER2 : Z := (ARM_IRQ1_BASE + 2).
Definition INTERRUPT_TIMER3 : Z := (ARM_IRQ1_BASE + 3).
Definition INTERRUPT_CODEC0 : Z := (ARM_IRQ1_BASE + 4).
Definition INTERRUPT_CODEC1 : Z := (ARM_IRQ1_BASE + 5).
Definition INTERRUPT_CODEC2 : Z := (ARM_IRQ1_BASE + 6).
Definition INTERRUPT_VC_JPEG : Z := (ARM_IRQ1_BASE + 7).
Definition INTERRUPT_ISP : Z := (ARM_IRQ1_BASE + 8).
Definition INTERRUPT_VC_USB : Z := (ARM_IRQ1_BASE + 9).
Definition INTERRUPT_VC_3D : Z := (ARM_IRQ1_BASE + 10).
Definition INTERRUPT_TRANSPOSER : Z := (ARM_IRQ1_BASE + 11).
Definition INTERRUPT_MULTICORESYNC0 : Z := (ARM_IRQ1_BASE + 12).
Definition INTERRUPT_MULTICORESYNC1 : Z := (ARM_IRQ1_BASE + 13).
Definition INTERRUPT_MULTICORESYNC2 : Z := (ARM_IRQ1_BASE + 14).
Definition INTERRUPT_MULTICORESYNC3 : Z := (ARM_IRQ1_BASE + 15).
Definition INTERRUPT_DMA0 : Z := (ARM_IRQ1_BASE + 16).
Definition INTERRUPT_DMA1 : Z := (ARM_IRQ1_BASE + 17).
Definition INTERRUPT_VC_DMA2 : Z := (ARM_IRQ1_BASE + 18).
Definition INTERRUPT_VC_DMA3 : Z := (ARM_IRQ1_BASE + 19).
Definition INTERRUPT_DMA4 : Z := (ARM_IRQ1_BASE + 20).
Definition INTERRUPT_DMA5 : Z := (ARM_IRQ1_BASE + 21).
Definition INTERRUPT_DMA6 : Z := (ARM_IRQ1_BASE + 22).
Definition INTERRUPT_DMA7 : Z := (ARM_IRQ1_BASE + 23).
Definition INTERRUPT_DMA8 : Z := (ARM_IRQ1_BASE + 24).
Definition INTERRUPT_DMA9 : Z := (ARM_IRQ1_BASE + 25).
Definition INTERRUPT_DMA10 : Z := (ARM_IRQ1_BASE + 26).
Definition INTERRUPT_DMA11 : Z := (ARM_IRQ1_BASE + 27).
Definition INTERRUPT_DMA12 : Z := (ARM_IRQ1_BASE + 28).
Definition INTERRUPT_AUX : Z := (ARM_IRQ1_BASE + 29).
Definition INTERRUPT_ARM : Z := (ARM_IRQ1_BASE + 30).
Definition INTERRUPT_VPUDMA : Z := (ARM_IRQ1_BASE + 31).
Definition ARM_IRQ2_BASE : Z := 32.
Definition INTERRUPT_HOSTPORT : Z := (ARM_IRQ2_BASE + 0).
Definition INTERRUPT_VIDEOSCALER : Z := (ARM_IRQ2_BASE + 1).
Definition INTERRUPT_CCP2TX : Z := (ARM_IRQ2_BASE + 2).
Definition INTERRUPT_SDC : Z := (ARM_IRQ2_BASE + 3).
Definition INTERRUPT_DSI0 : Z := (ARM_IRQ2_BASE + 4).
Definition INTERRUPT_AVE : Z := (ARM_IRQ2_BASE + 5).
Definition INTERRUPT_CAM0 : Z := (ARM_IRQ2_BASE + 6).
Definition INTERRUPT_CAM1 : Z := (ARM_IRQ2_BASE + 7).
Definition INTERRUPT_HDMI0 : Z := (ARM_IRQ2_BASE + 8).
Definition INTERRUPT_HDMI1 : Z := (ARM_IRQ2_BASE + 9).
Definition INTERRUPT_PIXELVALVE1 : Z := (ARM_IRQ2_BASE + 10).
Definition INTERRUPT_I2CSPISLV : Z := (ARM_IRQ2_BASE + 11).
Definition INTERRUPT_DSI1 : Z := (ARM_IRQ2_BASE + 12).
Definition INTERRUPT_PWA0 : Z := (ARM_IRQ2_BASE + 13).
Definition INTERRUPT_PWA1 : Z := (ARM_IRQ2_BASE + 14).
Definition INTERRUPT_CPR : Z := (ARM_IRQ2_BASE + 15).
Definition INTERRUPT_SMI : Z := (ARM_IRQ2_BASE + 16).
Definition INTERRUPT_GPIO0 : Z := (ARM_IRQ2_BASE + 17).
Definition INTERRUPT_GPIO1 : Z := (ARM_IRQ2_BASE + 18).
Definition INTERRUPT_GPIO2 : Z := (ARM_IRQ2_BASE + 19).
Definition INTERRUPT_GPIO3 : Z := (ARM_IRQ2_BASE + 20).
Definition INTERRUPT_VC_I2C : Z := (ARM_IRQ2_BASE + 21).
Definition INTERRUPT_VC_SPI : Z := (ARM_IRQ2_BASE + 22).
Definition INTERRUPT_VC_I2SPCM : Z := (ARM_IRQ2_BASE + 23).
Definition INTERRUPT_VC_SDIO : Z := (ARM_IRQ2_BASE + 24).
Definition INTERRUPT_VC_UART : Z := (ARM_IRQ2_BASE + 25).
Definition INTERRUPT_SLIMBUS : Z := (ARM_IRQ2_BASE + 26).
Definition INTERRUPT_VEC : Z := (ARM_IRQ2_BASE + 27).
Definition INTERRUPT_CPG : Z := (ARM_IRQ2_BASE + 28).
Definition INTERRUPT_RNG : Z := (ARM_IRQ2_BASE + 29).
Definition INTERRUPT_VC_ARASANSDIO : Z := (ARM_IRQ2_BASE + 30).
Definition INTERRUPT_AVSPMON : Z := (ARM_IRQ2_BASE + 31).
Definition ARM_IRQ0_BASE : Z := 64.
Definition INTERRUPT_ARM_TIMER : Z := (ARM_IRQ0_BASE + 0).
Definition INTERRUPT_ARM_MAILBOX : Z := (ARM_IRQ0_BASE + 1).
Definition INTERRUPT_ARM_DOORBELL_0 : Z := (ARM_IRQ0_BASE + 2).
Definition INTERRUPT_ARM_DOORBELL_1 : Z := (ARM_IRQ0_BASE + 3).
Definition INTERRUPT_VPU0_HALTED : Z := (ARM_IRQ0_BASE + 4).
Definition INTERRUPT_VPU1_HALTED : Z := (ARM_IRQ0_BASE + 5).
Definition INTERRUPT_ILLEGAL_TYPE0 : Z := (ARM_IRQ0_BASE + 6).
Definition INTERRUPT_ILLEGAL_TYPE1 : Z := (ARM_IRQ0_BASE + 7).
Definition INTERRUPT_PENDING1 : Z := (ARM_IRQ0_BASE + 8).
Definition INTERRUPT_PENDING2 : Z := (ARM_IRQ0_BASE + 9).
Definition INTERRUPT_JPEG : Z := (ARM_IRQ0_BASE + 10).
Definition INTERRUPT_USB : Z := (ARM_IRQ0_BASE + 11).
Definition INTERRUPT_3D : Z := (ARM_IRQ0_BASE + 12).
Definition INTERRUPT_DMA2 : Z := (ARM_IRQ0_BASE + 13).
Definition INTERRUPT_DMA3 : Z := (ARM_IRQ0_BASE + 14).
Definition INTERRUPT_I2C : Z := (ARM_IRQ0_BASE + 15).
Definition INTERRUPT_SPI : Z := (ARM_IRQ0_BASE + 16).
Definition INTERRUPT_I2SPCM : Z := (ARM_IRQ0_BASE + 17).
Definition INTERRUPT_SDIO : Z := (ARM_IRQ0_BASE + 18).
Definition INTERRUPT_UART : Z := (ARM_IRQ0_BASE + 19).
Definition INTERRUPT_ARASANSDIO : Z := (ARM_IRQ0_BASE + 20).
Definition ARM_IRQ_LOCAL_BASE : Z := 96.
Definition INTERRUPT_ARM_LOCAL_CNTPSIRQ : Z := (ARM_IRQ_LOCAL_BASE + 0).
Definition INTERRUPT_ARM_LOCAL_CNTPNSIRQ : Z := (ARM_IRQ_LOCAL_BASE + 1).
Definition INTERRUPT_ARM_LOCAL_CNTHPIRQ : Z := (ARM_IRQ_LOCAL_BASE + 2).
Definition INTERRUPT_ARM_LOCAL_CNTVIRQ : Z := (ARM_IRQ_LOCAL_BASE + 3).
Definition INTERRUPT_ARM_LOCAL_MAILBOX0 : Z := (ARM_IRQ_LOCAL_BASE + 4).
Definition INTERRUPT_ARM_LOCAL_MAILBOX1 : Z := (ARM_IRQ_LOCAL_BASE + 5).
Definition INTERRUPT_ARM_LOCAL_MAILBOX2 : Z := (ARM_IRQ_LOCAL_BASE + 6).
Definition INTERRUPT_ARM_LOCAL_MAILBOX3 : Z := (ARM_IRQ_LOCAL_BASE + 7).
Definition INTERRUPT_ARM_LOCAL_GPU_FAST : Z := (ARM_IRQ_LOCAL_BASE + 8).
Definition INTERRUPT_ARM_LOCAL_PMU_FAST : Z := (ARM_IRQ_LOCAL_BASE + 9).
Definition INTERRUPT_ARM_LOCAL_ZERO : Z := (ARM_IRQ_LOCAL_BASE + 10).
Definition INTERRUPT_ARM_LOCAL_TIMER : Z := (ARM_IRQ_LOCAL_BASE + 11).
Definition PM_RSTC : Z := (PM_BASE+0x1c).
Definition PM_RSTS : Z := (PM_BASE+0x20).
Definition PM_WDOG : Z := (PM_BASE+0x24).
Definition PM_WDOG_RESET : Z := 0.
Definition PM_PASSWORD : Z := 0x5a000000.
Definition PM_WDOG_TIME_SET : Z := 0x000fffff.
Definition PM_RSTC_WRCFG_CLR : Z := 0xffffffcf.
Definition PM_RSTC_WRCFG_SET : Z := 0x00000030.
Definition PM_RSTC_WRCFG_FULL_RESET : Z := 0x00000020.
Definition PM_RSTC_RESET : Z := 0x00000102.
Definition PM_RSTS_HADPOR_SET : Z := 0x00001000.
Definition PM_RSTS_HADSRH_SET : Z := 0x00000400.
Definition PM_RSTS_HADSRF_SET : Z := 0x00000200.
Definition PM_RSTS_HADSRQ_SET : Z := 0x00000100.
Definition PM_RSTS_HADWRH_SET : Z := 0x00000040.
Definition PM_RSTS_HADWRF_SET : Z := 0x00000020.
Definition PM_RSTS_HADWRQ_SET : Z := 0x00000010.
Definition PM_RSTS_HADDRH_SET : Z := 0x00000004.
Definition PM_RSTS_HADDRF_SET : Z := 0x00000002.
Definition PM_RSTS_HADDRQ_SET : Z := 0x00000001.
Definition UART0_CLOCK : Z := 3000000.

(** ** mach/arm_control.h: interrupt controller and core-local registers *)

Definition ARM_IRQ_FAST : Z := ARM_BASE+0x20C.
Definition ARM_IRQ_ENBL1 : Z := ARM_BASE+0x210.
Definition ARM_IRQ_ENBL2 : Z := ARM_BASE+0x214.
Definition ARM_IRQ_ENBL3 : Z := ARM_BASE+0x218.
Definition ARM_IRQ_DIBL1 : Z := ARM_BASE+0x21C.
Definition ARM_IRQ_DIBL2 : Z := ARM_BASE+0x220.
Definition ARM_IRQ_DIBL3 : Z := ARM_BASE+0x224.
Definition ARM_LOCAL_BASE : Z := 0x40000000.
Definition ARM_LOCAL_CONTROL : Z := ARM_LOCAL_BASE+0x000.
Definition ARM_LOCAL_PRESCALER : Z := ARM_LOCAL_BASE+0x008.
Definition ARM_LOCAL_GPU_INT_ROUTING : Z := ARM_LOCAL_BASE+0x00C.
Definition ARM_LOCAL_PM_ROUTING_SET : Z := ARM_LOCAL_BASE+0x010.
Definition ARM_LOCAL_PM_ROUTING_CLR : Z := ARM_LOCAL_BASE+0x014.
Definition ARM_LOCAL_TIMER_INT_CONTROL0 : Z := ARM_LOCAL_BASE+0x040.
Definition ARM_LOCAL_MAILBOX_INT_CONTROL0 : Z := ARM_LOCAL_BASE+0x050.
Definition ARM_LOCAL_MAILBOX0_SET0 : Z := ARM_LOCAL_BASE+0x080.
Definition ARM_LOCAL_MAILBOX3_SET0 : Z := ARM_LOCAL_BASE+0x08C.
Definition ARM_LOCAL_MAILBOX0_CLR0 : Z := ARM_LOCAL_BASE+0x0C0.
Definition ARM_LOCAL_MAILBOX3_CLR0 : Z := ARM_LOCAL_BASE+0x0CC.

(** ** mach/irqs.h: ranges *)

Definition HARD_IRQS : Z := (128).
Definition FIQ_IRQS : Z := (128).
Definition GPIO_IRQ_START : Z := (HARD_IRQS + FIQ_IRQS).
Definition GPIO_IRQS : Z := (32*5).
Definition SPARE_ALLOC_IRQS : Z := 64.
Definition BCM2708_ALLOC_IRQS : Z := (HARD_IRQS+FIQ_IRQS+GPIO_IRQS+SPARE_ALLOC_IRQS).
Definition FREE_IRQS : Z := 128.
Definition NR_IRQS : Z := (BCM2708_ALLOC_IRQS+FREE_IRQS).

(** ** mach/irqs.h: the interrupts the board code names *)

Definition IRQ_ARMCTRL_START : Z := 0.
Definition IRQ_TIMER3 : Z := (IRQ_ARMCTRL_START + INTERRUPT_TIMER3).
Definition IRQ_USB : Z := (IRQ_ARMCTRL_START + INTERRUPT_USB).
Definition IRQ_DMA0 : Z := (IRQ_ARMCTRL_START + INTERRUPT_DMA0).
Definition IRQ_DMA1 : Z := (IRQ_ARMCTRL_START + INTERRUPT_DMA1).
Definition IRQ_DMA2 : Z := (IRQ_ARMCTRL_START + INTERRUPT_DMA2).
Definition IRQ_DMA3 : Z := (IRQ_ARMCTRL_START + INTERRUPT_DMA3).
Definition IRQ_DMA4 : Z := (IRQ_ARMCTRL_START + INTERRUPT_DMA4).
Definition IRQ_DMA5 : Z := (IRQ_ARMCTRL_START + INTERRUPT_DMA5).
Definition IRQ_DMA6 : Z := (IRQ_ARMCTRL_START + INTERRUPT_DMA6).
Definition IRQ_DMA7 : Z := (IRQ_ARMCTRL_START + INTERRUPT_DMA7).
Definition IRQ_DMA8 : Z := (IRQ_ARMCTRL_START + INTERRUPT_DMA8).
Definition IRQ_DMA9 : Z := (IRQ_ARMCTRL_START + INTERRUPT_DMA9).
Definition IRQ_DMA10 : Z := (IRQ_ARMCTRL_START + INTERRUPT_DMA10).
Definition IRQ_DMA11 : Z := (IRQ_ARMCTRL_START + INTERRUPT_DMA11).
Definition IRQ_DMA12 : Z := (IRQ_ARMCTRL_START + INTERRUPT_DMA12).
Definition IRQ_HOSTPORT : Z := (IRQ_ARMCTRL_START + INTERRUPT_HOSTPORT).
Definition IRQ_GPIO3 : Z := (IRQ_ARMCTRL_START + INTERRUPT_GPIO3).
Definition IRQ_SPI : Z := (IRQ_ARMCTRL_START + INTERRUPT_SPI).
Definition IRQ_UART : Z := (IRQ_ARMCTRL_START + INTERRUPT_UART).
Definition IRQ_ARASANSDIO : Z := (IRQ_ARMCTRL_START + INTERRUPT_ARASANSDIO).
Definition IRQ_ARM_MAILBOX : Z := (IRQ_ARMCTRL_START + INTERRUPT_ARM_MAILBOX).
Definition IRQ_ARM_DOORBELL_0 : Z := (IRQ_ARMCTRL_START + INTERRUPT_ARM_DOORBELL_0).
Definition IRQ_ARM_LOCAL_CNTPSIRQ : Z := (IRQ_ARMCTRL_START + INTERRUPT_ARM_LOCAL_CNTPSIRQ).
Definition IRQ_ARM_LOCAL_MAILBOX0 : Z := (IRQ_ARMCTRL_START + INTERRUPT_ARM_LOCAL_MAILBOX0).
Definition IRQ_ARM_LOCAL_MAILBOX1 : Z := (IRQ_ARMCTRL_START + INTERRUPT_ARM_LOCAL_MAILBOX1).
Definition IRQ_ARM_LOCAL_TIMER : Z := (IRQ_ARMCTRL_START + INTERRUPT_ARM_LOCAL_TIMER).
Definition FIQ_START : Z := HARD_IRQS.

(** ** mach/gpio.h *)

Definition BCM2708_NR_GPIOS : Z := 54.
Definition gpio_to_irq (x : Z) : Z := (x +u GPIO_IRQ_START)%cint.
Definition irq_to_gpio (x : Z) : Z := (x -u GPIO_IRQ_START)%cint.

(** ** The I/O window *)

(** [((x) & 0x00ffffff) + (((x) >> 4) & 0x0f000000) + 0xf0000000] *)
Definition IO_ADDRESS (x : Z) : Z :=
  u32 (Z.land x 0x00ffffff + Z.land (Z.shiftr x 4) 0x0f000000 + 0xf0000000).
Definition __io_address (n : Z) : Z := IO_ADDRESS n.

(** Bits 24 to 27 of the physical address are dropped; the rest is kept. *)
Lemma IO_ADDRESS_val x :
  0 <= x < 2 ^ 32 ->
  IO_ADDRESS x = 0xf0000000 + (x / 2 ^ 28) * 2 ^ 24 + x mod 2 ^ 24.
Proof.
  intros Hx. unfold IO_ADDRESS.
  change 0x00ffffff with (Z.ones 24). rewrite Z.land_ones by lia.
  assert (Z.land (Z.shiftr x 4) 0x0f000000 = (x / 2 ^ 28) * 2 ^ 24) as ->.
  { change 0x0f000000 with (Z.shiftl (Z.ones 4) 24).
    replace (Z.shiftr x 4) with (Z.shiftr x 4) by done.
    rewrite <- Z.shiftl_mul_pow2, <- Z.shiftr_div_pow2 by lia.
    apply Z.bits_inj'. intros i Hi.
    rewrite Z.land_spec, Z.shiftr_spec, !Z.shiftl_spec by lia.
    destruct (decide (24 <= i)).
    - rewrite Z.shiftr_spec by lia. destruct (decide (i < 28)).
      + rewrite Z.ones_spec_low, andb_true_r by lia. f_equal. lia.
      + rewrite Z.ones_spec_high, andb_false_r by lia. symmetry.
        apply (testbit_high 32); unfold is_u; lia.
    - rewrite (Z.testbit_neg_r (Z.ones 4)), (Z.testbit_neg_r (Z.shiftr x 28)) by lia. apply andb_false_r. }
  assert (0 <= x / 2 ^ 28 < 16) by (split; [apply Z.div_pos; lia | apply Z.div_lt_upper_bound; lia]).
  pose proof (Z.mod_pos_bound x (2 ^ 24) ltac:(lia)).
  rewrite u32_small by lia. lia.
Qed.

(** Inside a window that does not cross a 16 MB boundary, offsets are kept. *)
Lemma IO_ADDRESS_offset b o :
  0 <= b -> 0 <= o -> b mod 2 ^ 24 + o < 2 ^ 24 -> b + o < 2 ^ 32 ->
  IO_ADDRESS (b + o) = IO_ADDRESS b + o.
Proof.
  intros Hb Ho Hm Hlt. rewrite !IO_ADDRESS_val by lia.
  pose proof (Z.div_mod b (2 ^ 24) ltac:(lia)) as E.
  assert ((b + o) / 2 ^ 24 = b / 2 ^ 24) as Ed.
  { symmetry. apply (Zdiv_unique _ _ _ (b mod 2 ^ 24 + o)).
    - pose proof (Z.mod_pos_bound b (2 ^ 24) ltac:(lia)). lia.
    - lia. }
  assert ((b + o) mod 2 ^ 24 = b mod 2 ^ 24 + o) as Em.
  { rewrite (Z.mod_eq (b + o)), Ed, Z.mod_eq by lia. lia. }
  assert ((b + o) / 2 ^ 28 = b / 2 ^ 28) as ->.
  { change (2 ^ 28) with (2 ^ 24 * 2 ^ 4). rewrite <- !Z.div_div, Ed by lia. done. }
  lia.
Qed.
