(* ===== verification/BcmGpio.v ===== *)
(** * mach-bcm2709/bcm2708_gpio.c: the board's GPIO chip

    The gpio_chip operations and the interrupt demultiplexer on the register
    bus.  [base] is [gpio->base], the address [__io_address(GPIO_BASE)] of the
    registers.  Calls into the kernel's irq and GPIO cores are recorded in a
    trace; the handlers that the demultiplexer runs are a parameter. *)

From S2P Require Import Prelude Ioctl Mmio PwmGpio BoardHw.
Open Scope Z_scope.

Definition GPIOFSEL (x : Z) : Z := 0x00 + x * 4.
Definition GPIOSET (x : Z) : Z := 0x1c + x * 4.
Definition GPIOCLR (x : Z) : Z := 0x28 + x * 4.
Definition GPIOLEV (x : Z) : Z := 0x34 + x * 4.
Definition GPIOEDS (x : Z) : Z := 0x40 + x * 4.
Definition GPIOREN (x : Z) : Z := 0x4c + x * 4.
Definition GPIOFEN (x : Z) : Z := 0x58 + x * 4.
Definition GPIOHEN (x : Z) : Z := 0x64 + x * 4.
Definition GPIOLEN (x : Z) : Z := 0x70 + x * 4.
Definition GPIOAREN (x : Z) : Z := 0x7c + x * 4.
Definition GPIOAFEN (x : Z) : Z := 0x88 + x * 4.
Definition GPIOUD (x : Z) : Z := 0x94 + x * 4.
Definition GPIOUDCLK (x : Z) : Z := 0x98 + x * 4.

Definition GPIO_BANKS : Z := 2.

Definition GPIO_FSEL_INPUT : Z := 0.
Definition GPIO_FSEL_OUTPUT : Z := 1.

Inductive bcm2708_gpio_pull_t := BCM2708_PULL_OFF | BCM2708_PULL_UP | BCM2708_PULL_DOWN.

Definition IRQ_TYPE_EDGE_RISING : Z := 1.
Definition IRQ_TYPE_EDGE_FALLING : Z := 2.
Definition IRQ_TYPE_LEVEL_HIGH : Z := 4.
Definition IRQ_TYPE_LEVEL_LOW : Z := 8.

(** [(1 << n)] and [~(1 << n)] as 32-bit words; every use has [n] below 32. *)
Definition BIT (n : Z) : Z := u32 (Z.shiftl 1 n).
Definition NBIT (n : Z) : Z := u32 (Z.lnot (Z.shiftl 1 n)).

(** [struct bcm2708_gpio]: the trigger configuration, one word per 32 pins. *)
Record bcm2708_gpio := mkGpio {
  base : Z;
  rising : list Z;
  falling : list Z;
  high : list Z;
  low : list Z;
}.

Definition set_rising v (g : bcm2708_gpio) := mkGpio (base g) v (falling g) (high g) (low g).
Definition set_falling v (g : bcm2708_gpio) := mkGpio (base g) (rising g) v (high g) (low g).
Definition set_high v (g : bcm2708_gpio) := mkGpio (base g) (rising g) (falling g) v (low g).
Definition set_low v (g : bcm2708_gpio) := mkGpio (base g) (rising g) (falling g) (high g) v.

(** What [kzalloc] leaves, with the base address filled in. *)
Definition gpio0 : bcm2708_gpio :=
  mkGpio (__io_address GPIO_BASE) [0; 0] [0; 0] [0; 0] [0; 0].

(** ** Pins *)

Section pins.
Context {B : Type} `{RegBus B}.
Variable base : Z.

Definition bcm2708_set_function (offset function : Z) : M B Z :=
  let gpio_bank := offset / 10 in
  let gpio_field_offset := (offset -u 10 * gpio_bank)%cint * 3 in
  if BCM2708_NR_GPIOS <=? offset then mret (- EINVAL)
  else
    gpiodir ← readl (base + GPIOFSEL gpio_bank);
    m ← lift (shl32 7 gpio_field_offset);
    f ← lift (shl32 function gpio_field_offset);
    let gpiodir := Z.land gpiodir (u32 (Z.lnot m)) in
    let gpiodir := Z.lor gpiodir (u32 f) in
    writel gpiodir (base + GPIOFSEL gpio_bank);;
    _ ← readl (base + GPIOFSEL gpio_bank);
    mret 0.

Definition bcm2708_gpio_dir_in (offset : Z) : M B Z :=
  bcm2708_set_function offset GPIO_FSEL_INPUT.

Definition bcm2708_gpio_get (offset : Z) : M B Z :=
  let gpio_bank := offset / 32 in
  let gpio_field_offset := (offset -u 32 * gpio_bank)%cint in
  if BCM2708_NR_GPIOS <=? offset then mret 0
  else
    lev ← readl (base + GPIOLEV gpio_bank);
    mret (Z.land 1 (Z.shiftr lev gpio_field_offset)).

Definition bcm2708_gpio_set (offset value : Z) : M B unit :=
  let gpio_bank := offset / 32 in
  let gpio_field_offset := (offset -u 32 * gpio_bank)%cint in
  if BCM2708_NR_GPIOS <=? offset then mret tt
  else if negb (value =? 0)
  then writel (BIT gpio_field_offset) (base + GPIOSET gpio_bank)
  else writel (BIT gpio_field_offset) (base + GPIOCLR gpio_bank).

Definition bcm2708_gpio_dir_out (offset value : Z) : M B Z :=
  ret ← bcm2708_set_function offset GPIO_FSEL_OUTPUT;
  (if 0 <=? ret then bcm2708_gpio_set offset value else mret tt);;
  mret ret.

(** The two [udelay(5)] have no effect on the registers. *)
Definition bcm2708_gpio_setpull (offset : Z) (value : bcm2708_gpio_pull_t) : M B Z :=
  let gpio_bank := offset / 32 in
  let gpio_field_offset := (offset -u 32 * gpio_bank)%cint in
  if BCM2708_NR_GPIOS <=? offset then mret (- EINVAL)
  else
    (match value with
     | BCM2708_PULL_UP => writel 2 (base + GPIOUD 0)
     | BCM2708_PULL_DOWN => writel 1 (base + GPIOUD 0)
     | BCM2708_PULL_OFF => writel 0 (base + GPIOUD 0)
     end);;
    writel (BIT gpio_field_offset) (base + GPIOUDCLK gpio_bank);;
    writel 0 (base + GPIOUD 0);;
    writel 0 (base + GPIOUDCLK gpio_bank);;
    mret 0.
End pins.

(** ** Interrupt triggers *)

(** [a[gb] &= m] and [a[gb] |= m] on one of the four arrays. *)
Definition word_and (l : list Z) (gb m : Z) : res (list Z) :=
  v ← aread l gb; awrite l gb (Z.land v m).
Definition word_or (l : list Z) (gb m : Z) : res (list Z) :=
  v ← aread l gb; awrite l gb (Z.lor v m).

Definition bcm2708_gpio_irq_set_type (irq type : Z) : M bcm2708_gpio Z :=
  let gn := irq_to_gpio irq in
  let gb := gn / 32 in
  let go := gn mod 32 in
  g ← get; l ← lift (word_and (rising g) gb (NBIT go)); modify (set_rising l);;
  g ← get; l ← lift (word_and (falling g) gb (NBIT go)); modify (set_falling l);;
  g ← get; l ← lift (word_and (high g) gb (NBIT go)); modify (set_high l);;
  g ← get; l ← lift (word_and (low g) gb (NBIT go)); modify (set_low l);;
  if negb (Z.land type (u32 (Z.lnot (Z.lor (Z.lor (Z.lor IRQ_TYPE_EDGE_FALLING IRQ_TYPE_EDGE_RISING)
             IRQ_TYPE_LEVEL_LOW) IRQ_TYPE_LEVEL_HIGH))) =? 0)
  then mret (- EINVAL)
  else
    (if negb (Z.land type IRQ_TYPE_EDGE_RISING =? 0)
     then g ← get; l ← lift (word_or (rising g) gb (BIT go)); modify (set_rising l) else mret tt);;
    (if negb (Z.land type IRQ_TYPE_EDGE_FALLING =? 0)
     then g ← get; l ← lift (word_or (falling g) gb (BIT go)); modify (set_falling l) else mret tt);;
    (if negb (Z.land type IRQ_TYPE_LEVEL_HIGH =? 0)
     then g ← get; l ← lift (word_or (high g) gb (BIT go)); modify (set_high l) else mret tt);;
    (if negb (Z.land type IRQ_TYPE_LEVEL_LOW =? 0)
     then g ← get; l ← lift (word_or (low g) gb (BIT go)); modify (set_low l) else mret tt);;
    mret 0.

Section irq.
Context {B : Type} `{RegBus B}.
Variable gpio : bcm2708_gpio.

Definition bcm2708_gpio_irq_mask (irq : Z) : M B unit :=
  let gn := irq_to_gpio irq in
  let gb := gn / 32 in
  r ← readl (base gpio + GPIOREN gb);
  f ← readl (base gpio + GPIOFEN gb);
  h ← readl (base gpio + GPIOHEN gb);
  l ← readl (base gpio + GPIOLEN gb);
  let gn := gn mod 32 in
  writel (Z.land r (NBIT gn)) (base gpio + GPIOREN gb);;
  writel (Z.land f (NBIT gn)) (base gpio + GPIOFEN gb);;
  writel (Z.land h (NBIT gn)) (base gpio + GPIOHEN gb);;
  writel (Z.land l (NBIT gn)) (base gpio + GPIOLEN gb).

(** [v | (1 << go)] when the pin is configured in [cfg[gb]], else [v & ~(1 << go)]. *)
Definition enable_value (cfg : list Z) (gb go v : Z) : res Z :=
  c ← aread cfg gb;
  mret (if negb (Z.land c (BIT go) =? 0) then Z.lor v (BIT go) else Z.land v (NBIT go)).

Definition bcm2708_gpio_irq_unmask (irq : Z) : M B unit :=
  let gn := irq_to_gpio irq in
  let gb := gn / 32 in
  let go := gn mod 32 in
  r ← readl (base gpio + GPIOREN gb);
  f ← readl (base gpio + GPIOFEN gb);
  h ← readl (base gpio + GPIOHEN gb);
  l ← readl (base gpio + GPIOLEN gb);
  v ← lift (enable_value (rising gpio) gb go r); writel v (base gpio + GPIOREN gb);;
  v ← lift (enable_value (falling gpio) gb go f); writel v (base gpio + GPIOFEN gb);;
  v ← lift (enable_value (high gpio) gb go h); writel v (base gpio + GPIOHEN gb);;
  v ← lift (enable_value (low gpio) gb go l); writel v (base gpio + GPIOLEN gb).

(** ** The demultiplexer *)

(** What it does to the outside: acknowledge a bit of a bank's event register, run
    the handlers of an interrupt. *)
Inductive gevent := Ack (bank i : Z) | Handled (irq : Z).

(** The effect of the handlers of an interrupt on the registers. *)
Variable ipipe_handle_demuxed_irq : Z -> B -> B.

Definition ack (bank i : Z) : M (B * list gevent) unit := fun '(b, tr) =>
  Ok (tt, (bus_write (__io_address GPIO_BASE + GPIOEDS bank) (BIT i) b, tr ++ [Ack bank i])).
Definition handle (irq : Z) : M (B * list gevent) unit := fun '(b, tr) =>
  Ok (tt, (ipipe_handle_demuxed_irq irq b, tr ++ [Handled irq])).
Definition read_eds (bank : Z) : M (B * list gevent) Z := fun '(b, tr) =>
  let '(v, b') := bus_read (__io_address GPIO_BASE + GPIOEDS bank) b in Ok (v, (b', tr)).

(** The body of [for_each_set_bit(i, &edsr, 32)]. *)
Definition demux_bit (level_bits bank i : Z) : M (B * list gevent) unit :=
  (if Z.land level_bits (BIT i) =? 0 then ack bank i else mret tt);;
  handle (gpio_to_irq (i + bank * 32));;
  (if negb (Z.land level_bits (BIT i) =? 0) then ack bank i else mret tt).

Fixpoint for_each_set_bit (edsr : Z) (idx : list Z) (body : Z -> M (B * list gevent) unit) :
    M (B * list gevent) unit :=
  match idx with
  | [] => mret tt
  | i :: idx' => (if Z.testbit edsr i then body i else mret tt);; for_each_set_bit edsr idx' body
  end.

Definition demux_bank (bank : Z) : M (B * list gevent) unit :=
  edsr ← read_eds bank;
  hi ← lift (aread (high gpio) bank);
  lo ← lift (aread (low gpio) bank);
  for_each_set_bit edsr (seqZ 0 32) (demux_bit (Z.lor hi lo) bank).

Definition IRQ_HANDLED : Z := 1.
Definition bcm2708_gpio_interrupt : M (B * list gevent) Z :=
  demux_bank 0;; demux_bank 1;; mret IRQ_HANDLED.
End irq.

(** ** Probe and remove *)

(** Calls into the kernel, in order. *)
Inductive kcall :=
  | SetDrvdata (present : bool)
  | IrqSetChipData (irq : Z)
  | IrqSetChipAndHandler (irq : Z)
  | SetIrqFlags (irq flags : Z)
  | SetupIrq (irq : Z)
  | GpiochipAdd (ngpio : Z)
  | GpiochipRemove
  | Kfree.

Definition IRQF_VALID : Z := 1.

Section probe.
Context {B : Type} `{RegBus B}.
Local Abbreviation P := (M (B * list kcall)).

Definition kcall1 (c : kcall) : P unit := modify (fun '(b, tr) => (b, tr ++ [c])).
Definition pwritel (v a : Z) : P unit := modify (fun '(b, tr) => (bus_write a (u32 v) b, tr)).

(** [for (irq = GPIO_IRQ_START; irq < GPIO_IRQ_START + GPIO_IRQS; irq++)] *)
Fixpoint irq_init_loop (n : nat) (irq : Z) : P unit :=
  match n with
  | O => mret tt
  | S n' =>
      kcall1 (IrqSetChipData irq);; kcall1 (IrqSetChipAndHandler irq);;
      kcall1 (SetIrqFlags irq IRQF_VALID);; irq_init_loop n' (irq + 1)
  end.
Definition bcm2708_gpio_irq_init : P unit :=
  irq_init_loop (Z.to_nat GPIO_IRQS) GPIO_IRQ_START;; kcall1 (SetupIrq IRQ_GPIO3).

Definition probe_bank (base bank : Z) : P unit :=
  pwritel 0 (base + GPIOREN bank);;
  pwritel 0 (base + GPIOFEN bank);;
  pwritel 0 (base + GPIOHEN bank);;
  pwritel 0 (base + GPIOLEN bank);;
  pwritel 0 (base + GPIOAREN bank);;
  pwritel 0 (base + GPIOAFEN bank);;
  pwritel (Z.lnot 0) (base + GPIOEDS bank).

(** [kz]: whether [kzalloc] succeeds; [add]: what [gpiochip_add] returns. *)
Definition bcm2708_gpio_probe (kz : bool) (add : Z) : P Z :=
  if negb kz then mret (- ENOMEM)
  else
    kcall1 (SetDrvdata true);;
    let base := __io_address GPIO_BASE in
    probe_bank base 0;; probe_bank base 1;;
    bcm2708_gpio_irq_init;;
    kcall1 (GpiochipAdd BCM2708_NR_GPIOS);;
    mret add.

Definition bcm2708_gpio_remove : P Z :=
  kcall1 GpiochipRemove;; kcall1 (SetDrvdata false);; kcall1 Kfree;; mret 0.
End probe.

(** * Lemmas *)

Lemma BIT_pow n : 0 <= n < 32 -> BIT n = 2 ^ n.
Proof.
  intros Hn. unfold BIT. rewrite Z.shiftl_1_l. apply (wrapu_small 32).
  split; [apply Z.lt_le_incl, pow2_pos; lia | apply Z.pow_lt_mono_r; lia].
Qed.

Lemma NBIT_testbit n i : 0 <= n < 32 -> 0 <= i < 32 -> Z.testbit (NBIT n) i = negb (bool_decide (i = n)).
Proof.
  intros Hn Hi. unfold NBIT. rewrite wrapu_testbit, Z.lnot_spec, Z.shiftl_1_l, testbit_pow2 by lia.
  rewrite bool_decide_eq_true_2 by lia. cbn [andb]. f_equal. apply bool_decide_ext. lia.
Qed.

Lemma BIT_testbit n i : 0 <= n < 32 -> Z.testbit (BIT n) i = bool_decide (i = n).
Proof.
  intros Hn. rewrite BIT_pow, testbit_pow2 by lia. apply bool_decide_ext. lia.
Qed.

(** [x & (1 << n)] tests bit [n]. *)
Lemma land_BIT x n : 0 <= n < 32 -> (Z.land x (BIT n) =? 0) = negb (Z.testbit x n).
Proof.
  intros Hn. rewrite BIT_pow by lia.
  destruct (Z.testbit x n) eqn:E; cbn [negb].
  - apply Z.eqb_neq. intros Hz. apply (f_equal (fun v => Z.testbit v n)) in Hz.
    by rewrite Z.land_spec, E, testbit_pow2, bool_decide_eq_true_2, Z.testbit_0_l in Hz by lia.
  - apply Z.eqb_eq, Z.bits_inj'. intros i Hi. rewrite Z.land_spec, testbit_pow2, Z.testbit_0_l by lia.
    case_bool_decide; [subst; by rewrite E | apply andb_false_r].
Qed.

(** ** The demultiplexer *)

Section demux.
Context {B : Type} `{RegBus B}.
Variable gpio : bcm2708_gpio.
Variable hdl : Z -> B -> B.

(** What the demultiplexer does for a bank whose event register reads [edsr]. *)
Definition bit_events (level bank i : Z) : list gevent :=
  if Z.testbit level i then [Handled (gpio_to_irq (i + bank * 32)); Ack bank i]
  else [Ack bank i; Handled (gpio_to_irq (i + bank * 32))].
Definition bank_events (level edsr bank : Z) : list gevent :=
  concat (bit_events level bank <$> List.filter (Z.testbit edsr) (seqZ 0 32)).

(** The registers after a sequence of events. *)
Definition event_bus (b : B) (e : gevent) : B :=
  match e with
  | Ack bank i => bus_write (__io_address GPIO_BASE + GPIOEDS bank) (BIT i) b
  | Handled irq => hdl irq b
  end.
Definition replay (es : list gevent) (b : B) : B := foldl event_bus b es.

Lemma demux_bit_run level bank i b tr :
  0 <= i < 32 ->
  demux_bit hdl level bank i (b, tr) =
    Ok (tt, (replay (bit_events level bank i) b, tr ++ bit_events level bank i)).
Proof.
  intros Hi. unfold demux_bit, bit_events. rewrite land_BIT by done.
  destruct (Z.testbit level i); cbn [negb];
    unfold ack, handle, mbind, M_bind, mret, M_ret; cbn; by rewrite <- ?app_assoc.
Qed.

Lemma for_each_run level bank edsr l b tr :
  Forall (fun i => 0 <= i < 32) l ->
  for_each_set_bit edsr l (demux_bit hdl level bank) (b, tr) =
    let es := concat (bit_events level bank <$> List.filter (Z.testbit edsr) l) in
    Ok (tt, (replay es b, tr ++ es)).
Proof.
  intros Hl. revert b tr. induction Hl as [|i l Hi _ IH]; intros b tr.
  - cbn. by rewrite app_nil_r.
  - cbn [for_each_set_bit List.filter]. destruct (Z.testbit edsr i).
    + rewrite (Mbind_run _ _ _ _ _ (demux_bit_run level bank i b tr Hi)), IH.
      cbn [fmap list_fmap concat]. unfold replay. by rewrite foldl_app, <- app_assoc.
    + rewrite Mbind_ret. apply IH.
Qed.

Lemma demux_bank_run bank hi lo b tr :
  aread (high gpio) bank = Ok hi -> aread (low gpio) bank = Ok lo ->
  let a := __io_address GPIO_BASE + GPIOEDS bank in
  let es := bank_events (Z.lor hi lo) (peek a b) bank in
  demux_bank gpio hdl bank (b, tr) = Ok (tt, (replay es (snd (bus_read a b)), tr ++ es)).
Proof.
  intros Hh Hl. cbn zeta. unfold demux_bank, read_eds, peek.
  rewrite Mbind_unfold. destruct (bus_read _ b) as [v b'] eqn:E. rewrite Hh, Hl, !Mbind_lift.
  cbn [fst snd]. apply for_each_run.
  apply Forall_forall. intros i Hi. apply elem_of_seqZ in Hi. lia.
Qed.
End demux.

Lemma bank_events_elem level edsr bank e :
  e ∈ bank_events level edsr bank <->
  exists i, 0 <= i < 32 /\ Z.testbit edsr i = true /\
    (e = Ack bank i \/ e = Handled (gpio_to_irq (i + bank * 32))).
Proof.
  unfold bank_events. rewrite concat_bind, list_elem_of_bind.
  setoid_rewrite list_elem_of_In. setoid_rewrite filter_In. setoid_rewrite <- list_elem_of_In.
  setoid_rewrite elem_of_seqZ. unfold bit_events. split.
  - intros (i & He & Hi & Ht). exists i. split_and!; [lia | lia | done|].
    destruct (Z.testbit level i); rewrite !elem_of_cons, elem_of_nil in He; tauto.
  - intros (i & Hi & Ht & He). exists i. split; [|split; [lia | done]].
    destruct (Z.testbit level i); rewrite !elem_of_cons, elem_of_nil; tauto.
Qed.

Lemma gpio_to_irq_small pin : 0 <= pin < 64 -> gpio_to_irq pin = pin + 256.
Proof. intros. unfold gpio_to_irq. change GPIO_IRQ_START with 256. apply u32_small. lia. Qed.

Lemma bank_events_nodup level edsr bank : 0 <= bank < 2 -> NoDup (bank_events level edsr bank).
Proof.
  intros Hb. unfold bank_events. rewrite concat_bind. apply NoDup_bind.
  - intros i j e. rewrite !list_elem_of_In, !filter_In, <- !list_elem_of_In, !elem_of_seqZ.
    unfold bit_events. intros [Hi _] [Hj _]. rewrite !gpio_to_irq_small by lia.
    destruct (Z.testbit level i), (Z.testbit level j); rewrite !elem_of_cons, !elem_of_nil;
      intros Ei Ej; destruct Ei as [?|[?|?]], Ej as [?|[?|?]]; simplify_eq; lia || done.
  - intros i _. unfold bit_events. destruct (Z.testbit level i);
      repeat constructor; rewrite ?elem_of_cons, ?elem_of_nil; intuition discriminate.
  - apply NoDup_ListNoDup, List.NoDup_filter, NoDup_ListNoDup, NoDup_seqZ.
Qed.

(** ** Trigger configuration *)

(** The bit of a pin in one of the four arrays. *)
Definition cfg_bit (l : list Z) (pin : Z) : bool :=
  Z.testbit (default 0 (l !! Z.to_nat (pin / 32))) (pin mod 32).

Definition put_bit (l : list Z) (pin : Z) (x : bool) : list Z :=
  let v := Z.land (default 0 (l !! Z.to_nat (pin / 32))) (NBIT (pin mod 32)) in
  <[Z.to_nat (pin / 32) := if x then Z.lor v (BIT (pin mod 32)) else v]> l.

Lemma bank_of pin : 0 <= pin < 64 -> 0 <= pin / 32 < 2 /\ 0 <= pin mod 32 < 32 /\
  pin = 32 * (pin / 32) + pin mod 32.
Proof.
  intros. pose proof (Z.mod_pos_bound pin 32 ltac:(lia)). pose proof (Z.div_mod pin 32 ltac:(lia)).
  split_and!; lia.
Qed.

Lemma put_bit_length l pin x : length (put_bit l pin x) = length l.
Proof. apply length_insert. Qed.

Lemma set_bit_testbit v n x i :
  0 <= n < 32 -> 0 <= i < 32 ->
  Z.testbit (if x : bool then Z.lor (Z.land v (NBIT n)) (BIT n) else Z.land v (NBIT n)) i =
    if decide (i = n) then x else Z.testbit v i.
Proof.
  intros Hn Hi. destruct x; rewrite ?Z.lor_spec, Z.land_spec, NBIT_testbit, ?BIT_testbit by done;
    repeat case_decide; repeat case_bool_decide; try done; cbn [negb];
    by rewrite ?andb_true_r, ?andb_false_r, ?orb_false_r, ?orb_true_r.
Qed.

Lemma put_bit_spec l pin x p :
  length l = 2%nat -> 0 <= pin < 64 -> 0 <= p < 64 ->
  cfg_bit (put_bit l pin x) p = if decide (p = pin) then x else cfg_bit l p.
Proof.
  intros Hl Hpin Hp. destruct (bank_of pin Hpin) as (B1 & O1 & E1), (bank_of p Hp) as (B2 & O2 & E2).
  unfold cfg_bit, put_bit. destruct (decide (p / 32 = pin / 32)) as [Eb|Nb].
  - rewrite Eb, list_lookup_insert_eq by lia. cbn [default].
    unfold id. rewrite set_bit_testbit by done. repeat case_decide; try done; lia.
  - rewrite list_lookup_insert_ne by lia. rewrite decide_False by (intros ->; done). done.
Qed.

Lemma word_and_run l gb m :
  length l = 2%nat -> 0 <= gb < 2 ->
  word_and l gb m = Ok (<[Z.to_nat gb := Z.land (default 0 (l !! Z.to_nat gb)) m]> l).
Proof.
  intros Hl Hg. destruct (lookup_Z l gb) as [v Hv]; [lia|]. unfold word_and.
  rewrite (aread_lookup l gb v) by (done || lia). rewrite Hv. cbn. by rewrite awrite_in by lia.
Qed.

Lemma word_or_run l gb m :
  length l = 2%nat -> 0 <= gb < 2 ->
  word_or l gb m = Ok (<[Z.to_nat gb := Z.lor (default 0 (l !! Z.to_nat gb)) m]> l).
Proof.
  intros Hl Hg. destruct (lookup_Z l gb) as [v Hv]; [lia|]. unfold word_or.
  rewrite (aread_lookup l gb v) by (done || lia). rewrite Hv. cbn. by rewrite awrite_in by lia.
Qed.

Lemma type_mask type :
  0 <= type < 2 ^ 32 ->
  (Z.land type (u32 (Z.lnot (Z.lor (Z.lor (Z.lor IRQ_TYPE_EDGE_FALLING IRQ_TYPE_EDGE_RISING)
     IRQ_TYPE_LEVEL_LOW) IRQ_TYPE_LEVEL_HIGH))) =? 0) = (type <? 16).
Proof.
  intros Ht. assert (Z.land type (u32 (Z.lnot 15)) = 16 * (type / 16)) as E.
  { rewrite (Z.mul_comm 16), <- Z.shiftl_mul_pow2 with (n := 4), <- Z.shiftr_div_pow2 with (n := 4) by lia.
    apply Z.bits_inj'. intros i Hi.
    rewrite Z.land_spec, wrapu_testbit, Z.lnot_spec, Z.shiftl_spec by lia.
    change 15 with (Z.ones 4). destruct (decide (4 <= i)).
    - rewrite Z.ones_spec_high, Z.shiftr_spec by lia. replace (i - 4 + 4) with i by lia.
      case_bool_decide; [apply andb_true_r|]. rewrite andb_false_r. symmetry.
      apply (testbit_high 32); unfold is_u; lia.
    - rewrite Z.ones_spec_low, (Z.testbit_neg_r (Z.shiftr type 4)) by lia. by rewrite !andb_false_r. }
  cbn [Z.lor] in E |- *. change (Z.lor (Z.lor (Z.lor IRQ_TYPE_EDGE_FALLING IRQ_TYPE_EDGE_RISING)
     IRQ_TYPE_LEVEL_LOW) IRQ_TYPE_LEVEL_HIGH) with 15. rewrite E.
  pose proof (Z.div_mod type 16 ltac:(lia)). pose proof (Z.mod_pos_bound type 16 ltac:(lia)).
  destruct (Z.ltb_spec type 16), (Z.eqb_spec (16 * (type / 16)) 0); lia || done.
Qed.

Lemma type_bit type n k : 0 <= n < 32 -> k = 2 ^ n -> (Z.land type k =? 0) = negb (Z.testbit type n).
Proof. intros Hn ->. rewrite <- (land_BIT type n Hn), BIT_pow by done. done. Qed.

(** [irq_set_type] on a pin with a descriptor in the arrays. *)
Lemma set_type_run g pin type :
  length (rising g) = 2%nat -> length (falling g) = 2%nat ->
  length (high g) = 2%nat -> length (low g) = 2%nat ->
  0 <= pin < 64 -> 0 <= type < 2 ^ 32 ->
  bcm2708_gpio_irq_set_type (gpio_to_irq pin) type g =
    let put b := if type <? 16 then b else false in
    Ok (if type <? 16 then 0 else - EINVAL,
        mkGpio (base g) (put_bit (rising g) pin (put (Z.testbit type 0)))
          (put_bit (falling g) pin (put (Z.testbit type 1)))
          (put_bit (high g) pin (put (Z.testbit type 2)))
          (put_bit (low g) pin (put (Z.testbit type 3)))).
Proof.
  intros Lr Lf Lh Ll Hpin Ht. destruct (bank_of pin Hpin) as (Hb & Ho & _).
  destruct g as [ba r f h l]. cbn [rising falling high low base] in *. unfold bcm2708_gpio_irq_set_type.
  assert (irq_to_gpio (gpio_to_irq pin) = pin) as ->.
  { unfold irq_to_gpio, gpio_to_irq, GPIO_IRQ_START, HARD_IRQS, FIQ_IRQS. by wrap_small; lia. }
  rewrite !Mbind_get. cbn [rising falling high low].
  rewrite word_and_run, Mbind_lift, Mbind_modify by (done || lia). unfold set_rising.
  rewrite !Mbind_get. cbn [rising falling high low base].
  rewrite word_and_run, Mbind_lift, Mbind_modify by (done || lia). unfold set_falling.
  rewrite !Mbind_get. cbn [rising falling high low base].
  rewrite word_and_run, Mbind_lift, Mbind_modify by (done || lia). unfold set_high.
  rewrite !Mbind_get. cbn [rising falling high low base].
  rewrite word_and_run, Mbind_lift, Mbind_modify by (done || lia). unfold set_low.
  cbn [rising falling high low base]. rewrite type_mask by done.
  destruct (type <? 16); cbn [negb]; [|done].
  rewrite (type_bit type 0 IRQ_TYPE_EDGE_RISING), (type_bit type 1 IRQ_TYPE_EDGE_FALLING),
    (type_bit type 2 IRQ_TYPE_LEVEL_HIGH), (type_bit type 3 IRQ_TYPE_LEVEL_LOW) by (done || lia).
  rewrite !negb_involutive. unfold put_bit.
  destruct (Z.testbit type 0), (Z.testbit type 1), (Z.testbit type 2), (Z.testbit type 3);
    repeat (progress rewrite ?Mbind_assoc, ?Mbind_get, ?Mbind_ret, ?Mbind_lift, ?Mbind_modify;
      cbn [rising falling high low base set_rising set_falling set_high set_low];
      rewrite ?word_or_run by (rewrite ?length_insert; done || lia));
    unfold mret, M_ret; rewrite ?list_lookup_insert_eq, ?list_insert_insert_eq by lia; reflexivity.
Qed.

(** ** Enable registers *)

Section enables.
Context {B : Type} `{PlainRegs B plain}.
Variable g : bcm2708_gpio.
(** The enable registers REN, FEN, HEN, LEN of both banks. *)
Hypothesis Hplain : forall k, 19 <= k < 30 -> plain (base g + 4 * k).

(** The bit of a pin in the register [reg] of its bank. *)
Definition reg_bit (reg : Z -> Z) (b : B) (pin : Z) : bool :=
  Z.testbit (peek (base g + reg (pin / 32)) b) (pin mod 32).

(** Read the four registers of a bank, then write them with [fr], [ff], [fh], [fl] of
    their values. *)
Definition four (gb : Z) (fr ff fh fl : Z -> Z) : M B unit :=
  r ← readl (base g + GPIOREN gb);
  f ← readl (base g + GPIOFEN gb);
  h ← readl (base g + GPIOHEN gb);
  l ← readl (base g + GPIOLEN gb);
  writel (fr r) (base g + GPIOREN gb);;
  writel (ff f) (base g + GPIOFEN gb);;
  writel (fh h) (base g + GPIOHEN gb);;
  writel (fl l) (base g + GPIOLEN gb).

Lemma four_run gb fr ff fh fl b :
  0 <= gb < 2 ->
  exists b', four gb fr ff fh fl b = Ok (tt, b') /\
    peek (base g + GPIOREN gb) b' = u32 (fr (peek (base g + GPIOREN gb) b)) /\
    peek (base g + GPIOFEN gb) b' = u32 (ff (peek (base g + GPIOFEN gb) b)) /\
    peek (base g + GPIOHEN gb) b' = u32 (fh (peek (base g + GPIOHEN gb) b)) /\
    peek (base g + GPIOLEN gb) b' = u32 (fl (peek (base g + GPIOLEN gb) b)) /\
    forall gb', 0 <= gb' < 2 -> gb' <> gb ->
      peek (base g + GPIOREN gb') b' = peek (base g + GPIOREN gb') b /\
      peek (base g + GPIOFEN gb') b' = peek (base g + GPIOFEN gb') b /\
      peek (base g + GPIOHEN gb') b' = peek (base g + GPIOHEN gb') b /\
      peek (base g + GPIOLEN gb') b' = peek (base g + GPIOLEN gb') b.
Proof.
  intros Hgb.
  assert (forall k, 0 <= k < 2 -> plain (base g + GPIOREN k) /\ plain (base g + GPIOFEN k) /\
            plain (base g + GPIOHEN k) /\ plain (base g + GPIOLEN k)) as Hp.
  { intros k Hk. unfold GPIOREN, GPIOFEN, GPIOHEN, GPIOLEN.
    replace (0x4c + k * 4) with (4 * (19 + k)) by lia. replace (0x58 + k * 4) with (4 * (22 + k)) by lia.
    replace (0x64 + k * 4) with (4 * (25 + k)) by lia. replace (0x70 + k * 4) with (4 * (28 + k)) by lia.
    split_and!; apply Hplain; lia. }
  unfold four. do 4 (rewrite Mbind_unfold, readl_peek). cbv beta.
  destruct (Hp gb Hgb) as (P1 & P2 & P3 & P4). rewrite !peek_read by done.
  set (b4 := snd (bus_read _ (snd (bus_read _ (snd (bus_read _ _)))))).
  assert (forall a, plain a -> peek a b4 = peek a b) as E4.
  { intros a Ha. unfold b4. by rewrite !peek_read. }
  set (ws := [(base g + GPIOREN gb, u32 (fr (peek (base g + GPIOREN gb) b)));
              (base g + GPIOFEN gb, u32 (ff (peek (base g + GPIOFEN gb) b)));
              (base g + GPIOHEN gb, u32 (fh (peek (base g + GPIOHEN gb) b)));
              (base g + GPIOLEN gb, u32 (fl (peek (base g + GPIOLEN gb) b)))]).
  exists (writes ws b4). split; [done|].
  assert (NoDup ws.*1) as Hnd.
  { unfold ws, GPIOREN, GPIOFEN, GPIOHEN, GPIOLEN. cbn [fmap list_fmap fst].
    repeat (apply NoDup_cons; split; [rewrite ?elem_of_cons, elem_of_nil; lia|]). apply NoDup_nil_2. }
  do 4 (split; [apply peek_writes_in;
    [done | apply (wrapu_range 32); lia | done | unfold ws; rewrite !elem_of_cons; tauto]|]).
  intros gb' Hgb' Hne. destruct (Hp gb' Hgb') as (Q1 & Q2 & Q3 & Q4).
  assert (forall a, plain a -> a ∉ ws.*1 -> peek a (writes ws b4) = peek a b) as Hout.
  { intros a Ha Hn. rewrite peek_writes_out by done. by apply E4. }
  split_and!; apply Hout; try done; unfold ws, GPIOREN, GPIOFEN, GPIOHEN, GPIOLEN;
    cbn [fmap list_fmap fst]; rewrite !elem_of_cons, elem_of_nil; lia.
Qed.

Lemma reg_bit_set v n x i :
  0 <= n < 32 -> 0 <= i < 32 ->
  Z.testbit (u32 (if x : bool then Z.lor v (BIT n) else Z.land v (NBIT n))) i =
    if decide (i = n) then x else Z.testbit v i.
Proof.
  intros Hn Hi. rewrite wrapu_testbit by lia. rewrite bool_decide_eq_true_2 by lia. cbn [andb].
  destruct x; rewrite ?Z.lor_spec, ?Z.land_spec, ?NBIT_testbit, ?BIT_testbit by done;
    repeat case_decide; repeat case_bool_decide; try done; cbn [negb];
    by rewrite ?andb_true_r, ?andb_false_r, ?orb_false_r, ?orb_true_r.
Qed.

(** What [four] does to one register, pin by pin. *)
Lemma four_pins pin (xr xf xh xl : bool) b :
  0 <= pin < 64 ->
  let upd (x : bool) v := if x then Z.lor v (BIT (pin mod 32)) else Z.land v (NBIT (pin mod 32)) in
  exists b', four (pin / 32) (upd xr) (upd xf) (upd xh) (upd xl) b = Ok (tt, b') /\
    forall p, 0 <= p < 64 ->
      reg_bit GPIOREN b' p = (if decide (p = pin) then xr else reg_bit GPIOREN b p) /\
      reg_bit GPIOFEN b' p = (if decide (p = pin) then xf else reg_bit GPIOFEN b p) /\
      reg_bit GPIOHEN b' p = (if decide (p = pin) then xh else reg_bit GPIOHEN b p) /\
      reg_bit GPIOLEN b' p = (if decide (p = pin) then xl else reg_bit GPIOLEN b p).
Proof.
  intros Hpin upd. destruct (bank_of pin Hpin) as (Hb & Ho & Epin).
  destruct (four_run (pin / 32) (upd xr) (upd xf) (upd xh) (upd xl) b Hb)
    as (b' & Hr & E1 & E2 & E3 & E4 & Hoth).
  exists b'. split; [done|]. intros p Hp. destruct (bank_of p Hp) as (Hb2 & Ho2 & Ep).
  unfold reg_bit. destruct (decide (p / 32 = pin / 32)) as [Eb|Nb].
  - rewrite Eb, E1, E2, E3, E4. unfold upd. rewrite !reg_bit_set by done.
    destruct (decide (p = pin)) as [->|Hne]; [by rewrite !decide_True|].
    rewrite !(decide_False (P := p mod 32 = pin mod 32)) by lia. done.
  - destruct (Hoth (p / 32) Hb2 Nb) as (-> & -> & -> & ->).
    by rewrite !(decide_False (P := p = pin)) by (intros ->; done).
Qed.

Lemma irq_of_pin pin : 0 <= pin < 2 ^ 16 -> irq_to_gpio (gpio_to_irq pin) = pin.
Proof.
  intros. unfold irq_to_gpio, gpio_to_irq, GPIO_IRQ_START, HARD_IRQS, FIQ_IRQS. by wrap_small; lia.
Qed.

Lemma mask_four pin b :
  0 <= pin < 64 ->
  bcm2708_gpio_irq_mask g (gpio_to_irq pin) b =
    let upd v := Z.land v (NBIT (pin mod 32)) in four (pin / 32) upd upd upd upd b.
Proof. intros Hp. unfold bcm2708_gpio_irq_mask. by rewrite irq_of_pin by lia. Qed.

Lemma enable_value_run l pin v :
  length l = 2%nat -> 0 <= pin < 64 ->
  enable_value l (pin / 32) (pin mod 32) v =
    Ok (if cfg_bit l pin then Z.lor v (BIT (pin mod 32)) else Z.land v (NBIT (pin mod 32))).
Proof.
  intros Hl Hp. destruct (bank_of pin Hp) as (Hb & Ho & _). destruct (lookup_Z l (pin / 32)) as [w Hw]; [lia|].
  unfold enable_value. rewrite (aread_lookup l _ w) by (done || lia). unfold cfg_bit. rewrite Hw.
  cbn [mbind res_bind default]. unfold id. rewrite land_BIT by done. by rewrite negb_involutive.
Qed.

Lemma unmask_four pin b :
  length (rising g) = 2%nat -> length (falling g) = 2%nat ->
  length (high g) = 2%nat -> length (low g) = 2%nat -> 0 <= pin < 64 ->
  bcm2708_gpio_irq_unmask g (gpio_to_irq pin) b =
    let upd (x : bool) v := if x then Z.lor v (BIT (pin mod 32)) else Z.land v (NBIT (pin mod 32)) in
    four (pin / 32) (upd (cfg_bit (rising g) pin)) (upd (cfg_bit (falling g) pin))
      (upd (cfg_bit (high g) pin)) (upd (cfg_bit (low g) pin)) b.
Proof.
  intros Lr Lf Lh Ll Hp. unfold bcm2708_gpio_irq_unmask. rewrite irq_of_pin by lia. unfold four.
  do 4 (apply Mbind_ext; intros). rewrite !enable_value_run by done. rewrite !Mbind_lift.
  apply Mbind_ext; intros. rewrite Mbind_lift. apply Mbind_ext; intros. rewrite Mbind_lift.
  apply Mbind_ext; intros. by rewrite Mbind_lift.
Qed.
End enables.

(** ** Pins *)

Section pin_lemmas.
Context {B : Type} `{PlainRegs B plain}.
Variable base : Z.
Hypothesis Hplain : forall k, 0 <= k < 6 -> plain (base + 4 * k).

(** Writing function code [f] into the field of [pin]. *)
Lemma fsel_put v pin q f :
  0 <= f < 8 ->
  fsel_of (u32 (Z.lor (Z.land v (u32 (Z.lnot (Z.shiftl 7 (pin mod 10 * 3)))))
                  (u32 (Z.shiftl f (pin mod 10 * 3))))) q =
    if decide (q mod 10 = pin mod 10) then f else fsel_of v q.
Proof.
  intros Hf. pose proof (Z.mod_pos_bound pin 10 ltac:(lia)). pose proof (Z.mod_pos_bound q 10 ltac:(lia)).
  apply Z.bits_inj'. intros i Hi.
  pose proof (f_equal (fun w => Z.testbit w i) (fsel_clear v pin q)) as Hc. cbv beta in Hc.
  rewrite !fsel_testbit in Hc by lia.
  assert (Z.testbit (if decide (q mod 10 = pin mod 10) then f else fsel_of v q) i =
    if decide (q mod 10 = pin mod 10) then Z.testbit f i else Z.testbit (fsel_of v q) i) as ->
    by (by case_decide).
  assert (Z.testbit (if decide (q mod 10 = pin mod 10) then 0 else fsel_of v q) i =
    if decide (q mod 10 = pin mod 10) then false else Z.testbit (fsel_of v q) i) as Hz
    by (case_decide; [apply Z.testbit_0_l | done]).
  rewrite Hz in Hc. rewrite !fsel_testbit by lia.
  case_bool_decide as Hi3; cbn [andb] in *.
  2:{ case_decide; [|done]. symmetry. apply (testbit_high 3); [lia|done|lia]. }
  rewrite wrapu_testbit in Hc |- * by lia. rewrite bool_decide_eq_true_2 in Hc |- * by lia. cbn [andb] in *.
  rewrite Z.lor_spec, Hc, wrapu_testbit, Z.shiftl_spec, bool_decide_eq_true_2 by lia. cbn [andb].
  rewrite fsel_testbit by lia. rewrite bool_decide_eq_true_2 by lia. cbn [andb].
  case_decide as Hq.
  - cbn [orb]. f_equal. lia.
  - assert (Z.testbit f (i + q mod 10 * 3 - pin mod 10 * 3) = false) as ->; [|apply orb_false_r].
    destruct (decide (0 <= i + q mod 10 * 3 - pin mod 10 * 3)); [|apply Z.testbit_neg_r; lia].
    apply (testbit_high 3); [lia|done|lia].
Qed.

(** [bcm2708_set_function] leaves pin [pin] with function code [f]. *)
Lemma set_function_fsel pin f b :
  0 <= pin < 54 -> 0 <= f < 8 ->
  exists b', bcm2708_set_function base pin f b = Ok (0, b') /\
    forall q, 0 <= q < 54 -> pin_fsel base b' q = if decide (q = pin) then f else pin_fsel base b q.
Proof.
  intros Hp Hf. assert (0 <= pin / 10 < 6) as Hb by dlia.
  unfold bcm2708_set_function. unfold BCM2708_NR_GPIOS. rewrite (proj2 (Z.leb_gt 54 pin)) by lia.
  assert ((pin -u 10 * (pin / 10))%cint = pin mod 10) as ->.
  { rewrite u32_small by dlia. dlia. }
  rewrite !shl32_ok by dlia. rewrite Mbind_unfold, readl_peek, !Mbind_lift.
  assert (GPIOFSEL (pin / 10) = 4 * (pin / 10)) as -> by (unfold GPIOFSEL; lia).
  rewrite Mbind_unfold. unfold writel at 1. rewrite Mbind_unfold, readl_peek.
  eexists. split; [done|]. intros q Hq.
  assert (plain (base + 4 * (pin / 10))) as Hpl by (by apply Hplain).
  assert (plain (base + 4 * (q / 10))) as Hql by (apply Hplain; dlia).
  unfold pin_fsel, fsel_addr. rewrite !peek_read by done.
  assert (i32 (Z.shiftl 7 (pin mod 10 * 3)) = Z.shiftl 7 (pin mod 10 * 3)) as ->.
  { apply i32_small. rewrite Z.shiftl_mul_pow2 by dlia.
    pose proof (Z.pow_le_mono_r 2 (pin mod 10 * 3) 27 ltac:(lia) ltac:(dlia)).
    pose proof (pow2_pos (pin mod 10 * 3) ltac:(dlia)). lia. }
  rewrite wrapu_wraps by lia. destruct (decide (q / 10 = pin / 10)) as [Eb|Nb].
  - rewrite Eb, peek_write_same by (done || apply (wrapu_range 32); lia).
    rewrite fsel_put by done. unfold pin_fsel. pose proof (same_pin pin q).
    repeat case_decide; tauto || done.
  - rewrite peek_write_other by (done || lia). rewrite peek_read by done.
    rewrite decide_False by (intros ->; done). done.
Qed.

Lemma chip_set_run pin v b :
  0 <= pin < 54 ->
  bcm2708_gpio_set base pin v b =
    Ok (tt, bus_write (base + (if v =? 0 then GPIOCLR (pin / 32) else GPIOSET (pin / 32)))
              (2 ^ (pin mod 32)) b).
Proof.
  intros Hp. unfold bcm2708_gpio_set, BCM2708_NR_GPIOS. rewrite (proj2 (Z.leb_gt 54 pin)) by lia.
  assert ((pin -u 32 * (pin / 32))%cint = pin mod 32) as ->.
  { rewrite u32_small by dlia. dlia. }
  destruct (v =? 0); cbn [negb]; unfold writel; rewrite BIT_pow by dlia; rewrite u32_small; try done;
    split; try (apply Z.lt_le_incl, pow2_pos; dlia);
    (eapply Z.lt_le_trans; [apply (Z.pow_lt_mono_r 2 (pin mod 32) 32); dlia | done]).
Qed.
End pin_lemmas.

(** ** Probe *)

Section probe_lemmas.
Context {B : Type} `{RegBus B}.

Definition irq_init_calls (irq : Z) : list kcall :=
  [IrqSetChipData irq; IrqSetChipAndHandler irq; SetIrqFlags irq IRQF_VALID].

Lemma irq_init_loop_run n irq (b : B) tr :
  irq_init_loop n irq (b, tr) =
    Ok (tt, (b, tr ++ concat (irq_init_calls <$> seqZ irq (Z.of_nat n)))).
Proof.
  revert irq tr. induction n as [|n IH]; intros irq tr.
  - cbn. by rewrite app_nil_r.
  - cbn [irq_init_loop]. unfold kcall1. rewrite !Mbind_modify, IH.
    rewrite (seqZ_cons irq) by lia. replace (Z.pred (Z.of_nat (S n))) with (Z.of_nat n) by lia.
    cbn [fmap list_fmap concat]. rewrite <- !app_assoc. done.
Qed.

(** The register writes of [probe] for a bank. *)
Definition probe_writes (ba bank : Z) : list (Z * Z) :=
  [(ba + GPIOREN bank, 0); (ba + GPIOFEN bank, 0); (ba + GPIOHEN bank, 0); (ba + GPIOLEN bank, 0);
   (ba + GPIOAREN bank, 0); (ba + GPIOAFEN bank, 0); (ba + GPIOEDS bank, 0xffffffff)].

Lemma probe_bank_run ba bank (b : B) tr :
  probe_bank ba bank (b, tr) = Ok (tt, (writes (probe_writes ba bank) b, tr)).
Proof. done. Qed.

Lemma kcall1_bind {A} c (k : unit -> M (B * list kcall) A) (b : B) tr :
  (kcall1 c ≫= k) (b, tr) = k tt (b, tr ++ [c]).
Proof. done. Qed.

Lemma irq_init_run (b : B) tr :
  bcm2708_gpio_irq_init (b, tr) =
    Ok (tt, (b, tr ++ concat (irq_init_calls <$> seqZ 256 160) ++ [SetupIrq IRQ_GPIO3])).
Proof.
  unfold bcm2708_gpio_irq_init. rewrite (Mbind_run _ _ _ _ _ (irq_init_loop_run _ _ _ _)), app_assoc. done.
Qed.
End probe_lemmas.

(** * Properties *)

(** The GPIO chip operations on one of the 54 pins.  Making the pin an input
    or an output leaves it with function code 0 or 1 whatever it was, and no other
    pin's code changed; setting it to a value writes exactly its bit to the set or
    clear register of its bank.  On the pins both can reach this is what the PWM
    drivers' gpio_set, gpio_clr and gpio_input do to the registers; gpio_output
    gives the same code exactly when the pin was not in an alternate function. *)
Theorem chip_and_drivers {B : Type} `{PlainRegs B plain} ba pin v (b : B) :
  (forall k, 0 <= k < 6 -> plain (ba + 4 * k)) -> 0 <= pin < 54 ->
  (exists b', bcm2708_gpio_dir_in ba pin b = Ok (0, b') /\
     forall q, 0 <= q < 54 -> pin_fsel ba b' q = if decide (q = pin) then 0 else pin_fsel ba b q) /\
  (exists b1 b2, bcm2708_set_function ba pin GPIO_FSEL_OUTPUT b = Ok (0, b1) /\
     bcm2708_gpio_set ba pin v b1 = Ok (tt, b2) /\ bcm2708_gpio_dir_out ba pin v b = Ok (0, b2) /\
     forall q, 0 <= q < 54 -> pin_fsel ba b1 q = if decide (q = pin) then 1 else pin_fsel ba b q) /\
  (pin < 32 ->
     bcm2708_gpio_set ba pin v b =
       if v =? 0 then gpio_clr (Some ba) pin b else gpio_set (Some ba) pin b) /\
  (forall b1 b2, gpio_output (Some ba) pin b = Ok (tt, b1) ->
     bcm2708_set_function ba pin GPIO_FSEL_OUTPUT b = Ok (0, b2) ->
     pin_fsel ba b1 pin = pin_fsel ba b2 pin <-> pin_fsel ba b pin <= 1).
Proof.
  intros Hpl Hpin. split_and!.
  - by apply set_function_fsel.
  - destruct (set_function_fsel ba Hpl pin 1 b Hpin ltac:(lia)) as (b1 & E1 & F1).
    eexists b1, _. split; [done|]. split; [by apply chip_set_run|]. split; [|done].
    unfold bcm2708_gpio_dir_out. rewrite (Mbind_run _ _ _ _ _ E1). cbn [Z.leb Z.compare].
    by rewrite (Mbind_run _ _ _ _ _ (chip_set_run ba pin v b1 Hpin)).
  - intros Hlt. rewrite chip_set_run by done.
    rewrite gpio_set_run, gpio_clr_run by lia.
    replace (pin / 32) with 0 by dlia. replace (pin mod 32) with pin by dlia. by destruct (v =? 0).
  - intros b1 b2 E1 E2. rewrite (gpio_output_fsel ba Hpl pin b b1 pin) by (done || lia).
    destruct (set_function_fsel ba Hpl pin 1 b Hpin ltac:(lia)) as (b3 & E3 & F3).
    unfold GPIO_FSEL_OUTPUT in E2. rewrite E3 in E2. injection E2 as <-. rewrite F3 by lia.
    rewrite !decide_True by done.
    pose proof (fsel_range (peek (fsel_addr ba pin) b) pin) as Hr. unfold pin_fsel in *.
    set (c := fsel_of _ _) in *.
    assert (c = 0 \/ c = 1 \/ c = 2 \/ c = 3 \/ c = 4 \/ c = 5 \/ c = 6 \/ c = 7) as Hc by lia.
    clearbody c. clear -Hc. destruct Hc as [->|[->|[->|[->|[->|[->|[->| ->]]]]]]]; vm_compute; intuition congruence.
Qed.

(** A pin number of 54 or more reaches no register: the direction and pull
    operations return [-EINVAL], get returns 0 and set does nothing. *)
Theorem chip_rejects {B : Type} `{RegBus B} ba offset v p (b : B) :
  54 <= offset < 2 ^ 32 ->
  bcm2708_gpio_dir_in ba offset b = Ok (- EINVAL, b) /\
  bcm2708_gpio_dir_out ba offset v b = Ok (- EINVAL, b) /\
  bcm2708_gpio_setpull ba offset p b = Ok (- EINVAL, b) /\
  bcm2708_gpio_get ba offset b = Ok (0, b) /\
  bcm2708_gpio_set ba offset v b = Ok (tt, b).
Proof.
  intros Hoff. unfold bcm2708_gpio_dir_in, bcm2708_gpio_dir_out, bcm2708_gpio_setpull, bcm2708_gpio_get,
    bcm2708_gpio_set, bcm2708_set_function, BCM2708_NR_GPIOS.
  rewrite (proj2 (Z.leb_le 54 offset)) by lia. done.
Qed.

(** C13: Configuring a pin's interrupt.  For a valid trigger type, [set_type]
    followed by [unmask] leaves in the rising, falling, high and low enable
    registers exactly that type's bits for the pin, and a [mask] after it leaves
    none; no other pin's configuration or enable bit changes.  An invalid type is
    refused with [-EINVAL] but the pin's previous configuration is already gone.
    For the descriptors beyond the two banks (pins 64 to 159) [set_type] indexes
    past its arrays. *)
Theorem gpio_triggers {B : Type} `{PlainRegs B plain} g pin type (b : B) :
  (forall k, 19 <= k < 30 -> plain (base g + 4 * k)) ->
  length (rising g) = 2%nat -> length (falling g) = 2%nat ->
  length (high g) = 2%nat -> length (low g) = 2%nat -> 0 <= type < 2 ^ 32 -> 0 <= pin < 160 ->
  let irq := gpio_to_irq pin in
  let bits g' p := (cfg_bit (rising g') p, cfg_bit (falling g') p, cfg_bit (high g') p, cfg_bit (low g') p) in
  let enabled b' p := (reg_bit g GPIOREN b' p, reg_bit g GPIOFEN b' p,
                       reg_bit g GPIOHEN b' p, reg_bit g GPIOLEN b' p) in
  if decide (64 <= pin) then bcm2708_gpio_irq_set_type irq type g = Fault OutOfBounds
  else exists g', bcm2708_gpio_irq_set_type irq type g = Ok (if type <? 16 then 0 else - EINVAL, g') /\
    (forall p, 0 <= p < 64 -> bits g' p =
       if decide (p = pin)
       then if type <? 16 then (Z.testbit type 0, Z.testbit type 1, Z.testbit type 2, Z.testbit type 3)
            else (false, false, false, false)
       else bits g p) /\
    exists b1 b2, bcm2708_gpio_irq_unmask g' irq b = Ok (tt, b1) /\
      (forall p, 0 <= p < 64 -> enabled b1 p = if decide (p = pin) then bits g' pin else enabled b p) /\
      bcm2708_gpio_irq_mask g' irq b1 = Ok (tt, b2) /\
      (forall p, 0 <= p < 64 -> enabled b2 p =
         if decide (p = pin) then (false, false, false, false) else enabled b p).
Proof.
  intros Hpl Lr Lf Lh Ll Ht Hpin irq bits enabled. case_decide as Hbig.
  - unfold bcm2708_gpio_irq_set_type, irq. rewrite irq_of_pin by lia. rewrite Mbind_get.
    unfold word_and. rewrite aread_oob by (rewrite Lr; dlia). done.
  - assert (0 <= pin < 64) as Hp by lia. eexists. split; [by apply set_type_run|].
    set (g' := mkGpio _ _ _ _ _).
    assert (forall p, 0 <= p < 64 -> bits g' p =
       if decide (p = pin)
       then if type <? 16 then (Z.testbit type 0, Z.testbit type 1, Z.testbit type 2, Z.testbit type 3)
            else (false, false, false, false)
       else bits g p) as Hbits.
    { intros p Hp'. unfold bits, g'. cbn [rising falling high low]. rewrite !put_bit_spec by done.
      case_decide; [|done]. by destruct (type <? 16). }
    split; [done|].
    destruct (four_pins g' Hpl pin (cfg_bit (rising g') pin) (cfg_bit (falling g') pin)
      (cfg_bit (high g') pin) (cfg_bit (low g') pin) b Hp) as (b1 & E1 & F1).
    destruct (four_pins g' Hpl pin false false false false b1 Hp) as (b2 & E2 & F2).
    exists b1, b2. split_and!.
    + etransitivity; [apply unmask_four|exact E1]; try exact Hp; unfold g'; cbn; by rewrite put_bit_length.
    + intros p Hp'. destruct (F1 p Hp') as (R1 & R2 & R3 & R4). unfold enabled, reg_bit in *.
      change (base g') with (base g) in *. rewrite R1, R2, R3, R4. by case_decide.
    + etransitivity; [by apply mask_four|exact E2].
    + intros p Hp'. destruct (F1 p Hp') as (R1 & R2 & R3 & R4), (F2 p Hp') as (S1 & S2 & S3 & S4).
      unfold enabled, reg_bit in *. change (base g') with (base g) in *.
      rewrite S1, S2, S3, S4, R1, R2, R3, R4. by case_decide.
Qed.

(** C14: The interrupt demultiplexer handles, for each bank, exactly the pins set
    in the event register as it was read, from bit 0 up, each one once: a pin with
    an edge trigger is acknowledged before its handlers run and a pin with a level
    trigger after them, and nothing else is acknowledged.  Bank 1 is read after all
    of bank 0 was handled.  It faults on nothing whatever the hardware returns. *)
Theorem gpio_demux {B : Type} `{RegBus B} g hdl h0 h1 l0 l1 (b : B) tr :
  high g = [h0; h1] -> low g = [l0; l1] ->
  let eds bank := __io_address GPIO_BASE + GPIOEDS bank in
  let es0 := bank_events (Z.lor h0 l0) (peek (eds 0) b) 0 in
  let b1 := replay hdl es0 (snd (bus_read (eds 0) b)) in
  let es1 := bank_events (Z.lor h1 l1) (peek (eds 1) b1) 1 in
  let es := es0 ++ es1 in
  bcm2708_gpio_interrupt g hdl (b, tr) =
    Ok (IRQ_HANDLED, (replay hdl es1 (snd (bus_read (eds 1) b1)), tr ++ es)) /\
  (forall pin, 0 <= pin < 64 -> Handled (gpio_to_irq pin) ∈ es <->
     Z.testbit (if pin <? 32 then peek (eds 0) b else peek (eds 1) b1) (pin mod 32) = true) /\
  (forall bank i, Ack bank i ∈ es -> Handled (gpio_to_irq (i + bank * 32)) ∈ es) /\
  NoDup es.
Proof.
  intros Hh Hl eds es0 b1 es1 es. split_and!.
  - unfold bcm2708_gpio_interrupt.
    rewrite (Mbind_run _ _ _ _ _ (demux_bank_run g hdl 0 h0 l0 b tr ltac:(by rewrite Hh) ltac:(by rewrite Hl))).
    rewrite (Mbind_run _ _ _ _ _ (demux_bank_run g hdl 1 h1 l1 _ _ ltac:(by rewrite Hh) ltac:(by rewrite Hl))).
    unfold es. by rewrite app_assoc.
  - intros pin Hpin. unfold es, es0, es1. rewrite elem_of_app, !bank_events_elem, (gpio_to_irq_small pin) by lia. split.
    + intros [(i & Hi & Ht & [E|E])|(i & Hi & Ht & [E|E])]; try discriminate E; injection E as E;
        rewrite gpio_to_irq_small in E by lia.
      * replace (pin <? 32) with true by lia. by replace (pin mod 32) with i by dlia.
      * replace (pin <? 32) with false by lia. by replace (pin mod 32) with i by dlia.
    + intros Ht. destruct (Z.ltb_spec pin 32); [left | right];
        exists (pin mod 32); (split; [dlia|]); (split; [done|]); right; f_equal;
        rewrite gpio_to_irq_small by dlia; dlia.
  - intros bank i. unfold es, es0, es1. rewrite !elem_of_app, !bank_events_elem.
    intros [(j & Hj & Ht & [E|E])|(j & Hj & Ht & [E|E])]; try discriminate E; injection E as -> ->;
      [left | right]; eauto 6.
  - apply NoDup_app. split; [by apply bank_events_nodup|]. split; [|by apply bank_events_nodup].
    intros e. unfold es0, es1. rewrite !bank_events_elem.
    intros (i & Hi & _ & E1) (j & Hj & _ & E2). rewrite !gpio_to_irq_small in * by lia.
    destruct E1 as [-> | ->], E2 as [E2|E2]; simplify_eq; lia.
Qed.

(** Probing without memory returns [-ENOMEM] and touches nothing.  Otherwise it
    clears the six trigger enables and all pending events of both banks, installs
    the chip for the 160 interrupts from 256 on and the handler of the banks'
    interrupt, and returns what [gpiochip_add] returns.  Remove unregisters and
    frees the chip but never the interrupt action, which keeps the freed chip as
    its device. *)
Theorem gpio_probe_remove {B : Type} `{RegBus B} kz add (b : B) tr :
  let ba := __io_address GPIO_BASE in
  bcm2708_gpio_probe kz add (b, tr) =
    (if kz then
       Ok (add, (writes (probe_writes ba 0 ++ probe_writes ba 1) b,
                 tr ++ [SetDrvdata true] ++ concat (irq_init_calls <$> seqZ 256 160) ++
                   [SetupIrq IRQ_GPIO3; GpiochipAdd 54]))
     else Ok (- ENOMEM, (b, tr))) /\
  bcm2708_gpio_remove (b, tr) = Ok (0, (b, tr ++ [GpiochipRemove; SetDrvdata false; Kfree])).
Proof.
  intros ba. split; [|unfold bcm2708_gpio_remove; rewrite !kcall1_bind; by rewrite <- !app_assoc].
  unfold bcm2708_gpio_probe. destruct kz; cbn [negb]; [|done].
  rewrite kcall1_bind, !(Mbind_run _ _ _ _ _ (probe_bank_run _ _ _ _)).
  rewrite (Mbind_run _ _ _ _ _ (irq_init_run _ _)), kcall1_bind, <- writes_app, <- !app_assoc. done.
Qed.

(** ** Witnesses *)

Definition ex_base : Z := __io_address GPIO_BASE.

(** A pin in alternate function 5 (code 2): [gpio_output] leaves it there. *)
Definition ex_alt5 : LogBus := mkLogBus {[ex_base + 4 := Z.shiftl 2 24]} [].

Lemma chip_and_drivers_witness :
  pin_fsel ex_base ex_alt5 18 = 2 /\
  (exists b', bcm2708_gpio_dir_in ex_base 18 ex_alt5 = Ok (0, b') /\
    forall q, 0 <= q < 54 -> pin_fsel ex_base b' q = if decide (q = 18) then 0 else pin_fsel ex_base ex_alt5 q).
Proof.
  split; [vm_compute; reflexivity|].
  apply (chip_and_drivers (plain := fun _ => True) ex_base 18 1 ex_alt5); [intros; exact I | lia].
Defined.

Lemma chip_rejects_witness :
  bcm2708_gpio_dir_in ex_base 54 LogBus0 = Ok (-22, LogBus0).
Proof. apply (chip_rejects ex_base 54 0 BCM2708_PULL_OFF LogBus0). lia. Defined.

Definition ex_gpio : bcm2708_gpio := gpio0.

(** A rising-edge trigger on pin 18. *)
Lemma gpio_triggers_witness :
  exists g', bcm2708_gpio_irq_set_type (gpio_to_irq 18) 1 ex_gpio = Ok (0, g') /\
    cfg_bit (rising g') 18 = true /\ cfg_bit (falling g') 18 = false.
Proof.
  destruct (gpio_triggers (plain := fun _ => True) ex_gpio 18 1 LogBus0) as (g' & Hs & Hb & _);
    [intros; exact I | reflexivity | reflexivity | reflexivity | reflexivity | lia | lia |].
  exists g'. split; [exact Hs|]. specialize (Hb 18 ltac:(lia)). cbv beta in Hb.
  rewrite decide_True in Hb by reflexivity. change (1 <? 16) with true in Hb. cbv iota in Hb.
  injection Hb as H1 H2 _ _. split; assumption.
Defined.

(** Pin 18 (edge) and pin 33 (level) pending at once. *)
Definition ex_pending : LogBus :=
  mkLogBus {[ex_base + 0x40 := 2 ^ 18; ex_base + 0x44 := 2]} [].
Definition ex_level : bcm2708_gpio := mkGpio ex_base [0; 0] [0; 0] [0; 2] [0; 0].
Lemma gpio_demux_witness :
  bcm2708_gpio_interrupt ex_level (fun _ b => b) (ex_pending, []) =
    Ok (1, (writes [(ex_base + 0x40, 2 ^ 18); (ex_base + 0x44, 2)] ex_pending,
            [Ack 0 18; Handled 274; Handled 289; Ack 1 1])).
Proof.
  destruct (gpio_demux ex_level (fun _ b => b) 0 2 0 0 ex_pending [] eq_refl eq_refl) as [E _].
  etransitivity; [exact E|]. vm_compute. reflexivity.
Defined.
