(* ===== verification/ArmCtrl.v ===== *)
(** * mach-bcm2709/armctrl.c: the interrupt controller

    The mask and unmask operations of the ARMCTRL chip on the register bus, the
    translation of device-tree interrupt specifiers, and the set-up of the
    interrupt descriptors as a trace of calls into the kernel's irq core.  The
    configuration is the board's: CONFIG_OF and CONFIG_IPIPE set, CONFIG_PM not
    (so [armctrl_pm_register] is empty and there is no [irq_set_wake]). *)

From S2P Require Import Prelude Ioctl Mmio BoardHw.
Open Scope Z_scope.

(** [remap_irqs]: the source behind each basic-pending interrupt of ARM_IRQ0. *)
Definition remap_irqs : list Z :=
  [INTERRUPT_VC_JPEG; INTERRUPT_VC_USB; INTERRUPT_VC_3D; INTERRUPT_VC_DMA2; INTERRUPT_VC_DMA3;
   INTERRUPT_VC_I2C; INTERRUPT_VC_SPI; INTERRUPT_VC_I2SPCM; INTERRUPT_VC_SDIO; INTERRUPT_VC_UART;
   INTERRUPT_VC_ARASANSDIO].

Definition disables : list Z := [ARM_IRQ_DIBL1; ARM_IRQ_DIBL2; ARM_IRQ_DIBL3; 0].
Definition enables : list Z := [ARM_IRQ_ENBL1; ARM_IRQ_ENBL2; ARM_IRQ_ENBL3; 0].

Section chip.
Context {B : Type} `{RegBus B}.

(** [force_core] and [num_online_cpus()] are set outside; [irq_get_chip_data] is
    what [armctrl_init] left in the descriptor (see [chip_data_after]). *)
Variables (force_core num_online_cpus : Z) (irq_get_chip_data : Z -> Z).

(** [for (i = 0; i < 4; i++)] over the per-core control registers. *)
Fixpoint each_core (cs : list Z) (f : Z -> Z) : M B unit :=
  match cs with
  | [] => mret tt
  | i :: cs' =>
      val ← readl (__io_address (ARM_LOCAL_TIMER_INT_CONTROL0 + 4 * i));
      writel (f val) (__io_address (ARM_LOCAL_TIMER_INT_CONTROL0 + 4 * i));;
      each_core cs' f
  end.

Definition in4 (irq base : Z) : bool := (base <=? irq) && (irq <? base + 4).

Definition armctrl_mask_irq (irq : Z) : M B unit :=
  if FIQ_START <=? irq then writel 0 (__io_address ARM_IRQ_FAST)
  else if in4 irq IRQ_ARM_LOCAL_CNTPSIRQ then
    let data := (irq_get_chip_data irq -u IRQ_ARM_LOCAL_CNTPSIRQ)%cint in
    m ← lift (shl32 1 data);
    each_core [0; 1; 2; 3] (fun val => Z.land val (u32 (Z.lnot m)))
  else if in4 irq IRQ_ARM_LOCAL_MAILBOX0 then mret tt
  else if (ARM_IRQ1_BASE <=? irq) && (irq <? ARM_IRQ_LOCAL_BASE) then
    let data := irq_get_chip_data irq in
    m ← lift (shl32 1 (Z.land data 0x1f));
    r ← lift (aread disables (Z.land (Z.shiftr data 5) 0x3));
    writel m (__io_address r)
  else if irq =? INTERRUPT_ARM_LOCAL_PMU_FAST then writel 0xf (__io_address ARM_LOCAL_PM_ROUTING_CLR)
  else die KernelBug.

(** Route the GPU's FIQ (shift 2) or IRQ (shift 0) to core [core]. *)
Definition route (keep core shift : Z) : M B unit :=
  data ← readl (__io_address ARM_LOCAL_GPU_INT_ROUTING);
  let data := Z.land data (u32 (Z.lnot keep)) in
  let data := Z.lor data (u32 (Z.shiftl core shift)) in
  writel data (__io_address ARM_LOCAL_GPU_INT_ROUTING).

Definition armctrl_unmask_irq (irq : Z) : M B unit :=
  if FIQ_START <=? irq then
    (if negb (force_core =? 0) then route 0xc (force_core -u 1)%cint 2
     else if 1 <? num_online_cpus then route 0xc 1 2
     else mret tt);;
    let data := (irq_get_chip_data irq -u FIQ_START)%cint in
    writel (Z.lor 0x80 data) (__io_address ARM_IRQ_FAST)
  else if in4 irq IRQ_ARM_LOCAL_CNTPSIRQ then
    let data := (irq_get_chip_data irq -u IRQ_ARM_LOCAL_CNTPSIRQ)%cint in
    m ← lift (shl32 1 data);
    each_core [0; 1; 2; 3] (fun val => Z.lor val (u32 m))
  else if in4 irq IRQ_ARM_LOCAL_MAILBOX0 then mret tt
  else if (ARM_IRQ1_BASE <=? irq) && (irq <? ARM_IRQ_LOCAL_BASE) then
    (if negb (force_core =? 0) then route 0x3 (force_core -u 1)%cint 0 else mret tt);;
    let data := irq_get_chip_data irq in
    m ← lift (shl32 1 (Z.land data 0x1f));
    r ← lift (aread enables (Z.land (Z.shiftr data 5) 0x3));
    writel m (__io_address r)
  else if irq =? INTERRUPT_ARM_LOCAL_PMU_FAST then writel 0xf (__io_address ARM_LOCAL_PM_ROUTING_SET)
  else die KernelBug.
End chip.

(** ** Device-tree specifiers *)

Definition NR_IRQS_BANK0 : Z := 21.
Definition NR_BANKS : Z := 4.
Definition IRQS_PER_BANK : Z := 32.
Definition IRQ_TYPE_NONE : Z := 0.

(** The [switch] that reverses [remap_irqs]. *)
Definition unmap_irq (hwirq : Z) : Z :=
  if hwirq =? INTERRUPT_VC_JPEG then INTERRUPT_JPEG
  else if hwirq =? INTERRUPT_VC_USB then INTERRUPT_USB
  else if hwirq =? INTERRUPT_VC_3D then INTERRUPT_3D
  else if hwirq =? INTERRUPT_VC_DMA2 then INTERRUPT_DMA2
  else if hwirq =? INTERRUPT_VC_DMA3 then INTERRUPT_DMA3
  else if hwirq =? INTERRUPT_VC_I2C then INTERRUPT_I2C
  else if hwirq =? INTERRUPT_VC_SPI then INTERRUPT_SPI
  else if hwirq =? INTERRUPT_VC_I2SPCM then INTERRUPT_I2SPCM
  else if hwirq =? INTERRUPT_VC_SDIO then INTERRUPT_SDIO
  else if hwirq =? INTERRUPT_VC_UART then INTERRUPT_UART
  else if hwirq =? INTERRUPT_VC_ARASANSDIO then INTERRUPT_ARASANSDIO
  else hwirq.

(** The error code, or [*out_hwirq] and [*out_type]; [intspec] is read below
    [intsize] only. *)
Definition armctrl_xlate (intspec : list Z) (intsize : Z) : res (Z + Z * Z) :=
  if negb (intsize =? 2) then Ok (inl (- EINVAL))
  else
    s0 ← aread intspec 0;
    s1 ← aread intspec 1;
    if NR_BANKS <=? s0 then Ok (inl (- EINVAL))
    else if IRQS_PER_BANK <=? s1 then Ok (inl (- EINVAL))
    else if (s0 =? 0) && (NR_IRQS_BANK0 <=? s1) then Ok (inl (- EINVAL))
    else if (s0 =? 3) && (3 <? s1) && negb (s1 =? 5) && negb (s1 =? 9) then Ok (inl (- EINVAL))
    else
      let out_hwirq :=
        if s0 =? 0 then ARM_IRQ0_BASE + s1
        else if s0 =? 1 then ARM_IRQ1_BASE + s1
        else if s0 =? 2 then ARM_IRQ2_BASE + s1
        else ARM_IRQ_LOCAL_BASE + s1 in
      Ok (inr (unmap_irq out_hwirq, IRQ_TYPE_NONE)).

(** ** Initialisation *)

(** Calls into the irq core, in order. *)
Inductive acall :=
  | SetPercpuDevid (irq : Z)
  | SetPercpuHandler (irq : Z)          (* armctrl_chip, handle_percpu_devid_irq *)
  | SetLevelHandler (irq : Z)           (* armctrl_chip, handle_level_irq *)
  | SetFlags (irq flags : Z)
  | SetChipData (irq data : Z)
  | InitFIQ (start : Z)
  | DomainAddLegacy (size first_irq first_hwirq : Z)
  | RegisterSyscoreOps.

#[global] Instance acall_eq_dec : EqDecision acall.
Proof. solve_decision. Defined.

Definition IRQF_VALID : Z := 1.
Definition IRQF_PROBE : Z := 2.
Definition IRQF_NOAUTOEN : Z := 4.

Definition call (c : acall) : M (list acall) unit := modify (fun tr => tr ++ [c]).

(** The body of the loop over the descriptors. *)
Definition armctrl_init_irq (irq : Z) : M (list acall) unit :=
  data ← (if (INTERRUPT_JPEG <=? irq) && (irq <=? INTERRUPT_ARASANSDIO)
          then lift (aread remap_irqs (irq -u INTERRUPT_JPEG)%cint) else mret irq);
  (if (IRQ_ARM_LOCAL_CNTPSIRQ <=? irq) && (irq <=? IRQ_ARM_LOCAL_TIMER)
   then call (SetPercpuDevid irq);; call (SetPercpuHandler irq);;
        call (SetFlags irq (Z.lor IRQF_VALID IRQF_NOAUTOEN))
   else call (SetLevelHandler irq);; call (SetFlags irq (Z.lor IRQF_VALID IRQF_PROBE)));;
  call (SetChipData irq data).

Fixpoint armctrl_init_loop (irqs : list Z) : M (list acall) unit :=
  match irqs with
  | [] => mret tt
  | irq :: irqs' => armctrl_init_irq irq;; armctrl_init_loop irqs'
  end.

(** [node]: whether the device tree has a brcm,bcm2708-armctrl-ic node. *)
Definition armctrl_dt_init (node : bool) : M (list acall) unit :=
  if negb node then mret tt else call (DomainAddLegacy BCM2708_ALLOC_IRQS IRQ_ARMCTRL_START 0).

Definition armctrl_init (node : bool) : M (list acall) Z :=
  armctrl_init_loop (seqZ 0 BCM2708_ALLOC_IRQS);;
  call (InitFIQ FIQ_START);;
  armctrl_dt_init node;;
  mret 0.

Definition armctrl_syscore_init : M (list acall) Z := call RegisterSyscoreOps;; mret 0.

(** What [irq_get_chip_data] returns after a trace of calls: the last value set. *)
Definition chip_data_after (tr : list acall) (irq : Z) : Z :=
  foldl (fun d c => match c with SetChipData i v => if i =? irq then v else d | _ => d end) 0 tr.

(** * Lemmas *)

(** What [armctrl_init] stores for a descriptor. *)
Definition init_data (irq : Z) : Z :=
  if (INTERRUPT_JPEG <=? irq) && (irq <=? INTERRUPT_ARASANSDIO)
  then default 0 (remap_irqs !! Z.to_nat (irq - INTERRUPT_JPEG)) else irq.

(** Its calls for a descriptor. *)
Definition init_calls (irq : Z) : list acall :=
  (if (IRQ_ARM_LOCAL_CNTPSIRQ <=? irq) && (irq <=? IRQ_ARM_LOCAL_TIMER)
   then [SetPercpuDevid irq; SetPercpuHandler irq; SetFlags irq 5]
   else [SetLevelHandler irq; SetFlags irq 3]) ++ [SetChipData irq (init_data irq)].

Lemma call_bind {A} c (k : unit -> M (list acall) A) tr : (call c ≫= k) tr = k tt (tr ++ [c]).
Proof. done. Qed.

Lemma armctrl_init_irq_run irq tr :
  0 <= irq < 2 ^ 32 -> armctrl_init_irq irq tr = Ok (tt, tr ++ init_calls irq).
Proof.
  intros Hi. unfold armctrl_init_irq, init_calls, init_data.
  destruct ((INTERRUPT_JPEG <=? irq) && (irq <=? INTERRUPT_ARASANSDIO)) eqn:E.
  - apply andb_true_iff in E as [E1%Z.leb_le E2%Z.leb_le].
    unfold INTERRUPT_JPEG, INTERRUPT_ARASANSDIO, ARM_IRQ0_BASE in E1, E2.
    rewrite u32_small by (unfold INTERRUPT_JPEG, ARM_IRQ0_BASE; lia).
    destruct (lookup_Z remap_irqs (irq - INTERRUPT_JPEG)) as [v Hv];
      [unfold INTERRUPT_JPEG, ARM_IRQ0_BASE; cbn; lia|].
    rewrite (aread_lookup _ _ v) by (done || (unfold INTERRUPT_JPEG, ARM_IRQ0_BASE; lia)).
    rewrite Mbind_lift, Hv. destruct (_ && _); rewrite Mbind_assoc, !call_bind, ?Mbind_assoc, ?call_bind;
      unfold call, modify; by rewrite <- !app_assoc.
  - clear E. rewrite Mbind_ret. destruct (_ && _); rewrite Mbind_assoc, !call_bind, ?Mbind_assoc, ?call_bind;
      unfold call, modify; by rewrite <- !app_assoc.
Qed.

Lemma armctrl_init_loop_run irqs tr :
  Forall (fun irq => 0 <= irq < 2 ^ 32) irqs ->
  armctrl_init_loop irqs tr = Ok (tt, tr ++ concat (init_calls <$> irqs)).
Proof.
  intros Hl. revert tr. induction Hl as [|irq irqs Hi _ IH]; intros tr.
  - cbn. by rewrite app_nil_r.
  - cbn [armctrl_init_loop]. rewrite (Mbind_run _ _ _ _ _ (armctrl_init_irq_run irq tr Hi)), IH.
    by rewrite <- app_assoc.
Qed.

Definition init_trace (node : bool) : list acall :=
  concat (init_calls <$> seqZ 0 480) ++ [InitFIQ 128] ++ (if node then [DomainAddLegacy 480 0 0] else []).

Lemma armctrl_init_run node tr : armctrl_init node tr = Ok (0, tr ++ init_trace node).
Proof.
  unfold init_trace.
  assert (Forall (fun irq => 0 <= irq < 2 ^ 32) (seqZ 0 480)) as Hall
    by (apply Forall_forall; intros i Hi; apply elem_of_seqZ in Hi; lia).
  unfold armctrl_init. change BCM2708_ALLOC_IRQS with 480.
  rewrite (Mbind_run _ _ _ _ _ (armctrl_init_loop_run _ tr Hall)), call_bind. destruct node.
  - unfold armctrl_dt_init. cbn [negb]. rewrite call_bind. unfold mret, M_ret.
    by rewrite <- !app_assoc.
  - unfold armctrl_dt_init. cbn [negb]. rewrite Mbind_ret. unfold mret, M_ret.
    by rewrite app_nil_r, <- !app_assoc.
Qed.

(** A flow handler of [irq] is set where the loop reaches [irq]. *)
Lemma init_trace_of (node : bool) irq c :
  0 <= irq < 480 -> c = SetPercpuHandler irq \/ c = SetLevelHandler irq ->
  c ∈ init_trace node <-> c ∈ init_calls irq.
Proof.
  intros Hi Hc. unfold init_trace. rewrite concat_bind, !elem_of_app, list_elem_of_bind. split.
  - intros [(i & Hin & _)|[H|H]].
    + enough (i = irq) as -> by done. revert Hin. unfold init_calls. destruct (_ && _); set_solver.
    + destruct Hc as [-> | ->]; set_solver.
    + destruct node, Hc as [-> | ->]; set_solver.
  - intros H. left. exists irq. split; [done|]. apply elem_of_seqZ. lia.
Qed.

(** The descriptors' data after [armctrl_init], whatever went before. *)
Lemma chip_data_init (node : bool) irq tr :
  0 <= irq < 480 ->
  chip_data_after (tr ++ init_trace node) irq = init_data irq.
Proof.
  unfold init_trace.
  intros Hi. unfold chip_data_after. rewrite foldl_app.   set (f := fun (d : Z) (c : acall) => match c with SetChipData i v => if i =? irq then v else d | _ => d end).
  generalize (foldl f 0 tr). clear tr. intros d0.
  assert (forall l d, Forall (fun i => i <> irq) l -> foldl f d (concat (init_calls <$> l)) = d) as Hskip.
  { intros l d Hl. revert d. induction Hl as [|i l Hne _ IH]; intros d; [done|].
    cbn [fmap list_fmap concat]. rewrite foldl_app, IH. unfold init_calls.
    apply Z.eqb_neq in Hne. destruct (_ && _); cbn; by rewrite Hne. }
  replace 480 with (irq + (1 + (479 - irq))) by lia.
  rewrite foldl_app, !seqZ_app by lia. rewrite !fmap_app, !concat_app, !foldl_app.
  rewrite (Hskip (seqZ (0 + irq + 1) _))
    by (apply Forall_forall; intros i Hi'; apply elem_of_seqZ in Hi'; lia).
  change (seqZ (0 + irq) 1) with [0 + (0 + irq)]. replace (0 + (0 + irq)) with irq by lia.
  cbn [fmap list_fmap concat]. rewrite app_nil_r. unfold init_calls.
  destruct node, (_ && _); cbn; by rewrite Z.eqb_refl.
Qed.

(** ** Masking *)

(** The interrupts with a case in [mask] and [unmask]. *)
Definition armctrl_known (irq : Z) : bool :=
  (FIQ_START <=? irq) || (irq <? IRQ_ARM_LOCAL_MAILBOX0 + 4) || (irq =? INTERRUPT_ARM_LOCAL_PMU_FAST).

(** The data of the GPU interrupts stays below 96: index 3 of the tables is never used. *)
Lemma init_data_gpu irq : 0 <= irq < 96 -> 0 <= init_data irq < 96.
Proof.
  intros Hi. pose proof (forallb_below 96 (fun i => (0 <=? init_data i) && (init_data i <? 96)) irq eq_refl Hi) as E.
  apply andb_true_iff in E as [?%Z.leb_le ?%Z.ltb_lt]. lia.
Qed.
Lemma init_data_other irq : 96 <= irq -> init_data irq = irq.
Proof.
  intros Hi. unfold init_data. replace (irq <=? INTERRUPT_ARASANSDIO) with false.
  - by rewrite andb_false_r.
  - symmetry. apply Z.leb_gt. unfold INTERRUPT_ARASANSDIO, ARM_IRQ0_BASE. lia.
Qed.

Section masking.
Context {B : Type} `{RegBus B}.

Ltac irq_case := repeat match goal with
  | |- context [?a <=? ?b] => first [replace (a <=? b) with true by (symmetry; apply Z.leb_le; lia) | replace (a <=? b) with false by (symmetry; apply Z.leb_gt; lia)]
  | |- context [?a <? ?b] => first [replace (a <? b) with true by (symmetry; apply Z.ltb_lt; lia) | replace (a <? b) with false by (symmetry; apply Z.ltb_ge; lia)]
  end; cbn [andb negb orb].

(** Masking a GPU interrupt with source number [d] writes its bit to the disable
    register of its word. *)
Definition source_write (table : list Z) (d : Z) : Z * Z :=
  (__io_address (default 0 (table !! Z.to_nat (d / 32))), 2 ^ (d mod 32)).

Lemma source_run (table : list Z) d (b : B) :
  length table = 4%nat -> 0 <= d < 128 ->
  (m ← lift (shl32 1 (Z.land d 0x1f));
   r ← lift (aread table (Z.land (Z.shiftr d 5) 0x3));
   writel m (__io_address r)) b = Ok (tt, writes [source_write table d] b).
Proof.
  intros Hl Hd. change 0x1f with (Z.ones 5). change 0x3 with (Z.ones 2).
  rewrite !Z.land_ones, Z.shiftr_div_pow2 by lia. change (2 ^ 5) with 32. change (2 ^ 2) with 4.
  rewrite (Z.mod_small (d / 32)) by dlia. rewrite shl32_ok by dlia.
  destruct (lookup_Z table (d / 32)) as [r Hr]; [dlia|].
  rewrite Mbind_lift, (aread_lookup _ _ r) by (done || dlia). rewrite Mbind_lift.
  unfold source_write, writel, writes. rewrite Hr, Z.shiftl_1_l. cbn [foldl default].
  rewrite wrapu_wraps by lia. rewrite u32_small; [done|].
  split; [apply Z.lt_le_incl, pow2_pos; dlia|].
  eapply Z.lt_le_trans; [apply (Z.pow_lt_mono_r 2 (d mod 32) 32); dlia | done].
Qed.

Lemma mask_gpu data irq (b : B) :
  0 <= irq < 96 -> 0 <= data irq < 128 ->
  armctrl_mask_irq data irq b = Ok (tt, writes [source_write disables (data irq)] b).
Proof.
  intros Hi Hd. unfold armctrl_mask_irq, in4. change FIQ_START with 128. change IRQ_ARM_LOCAL_CNTPSIRQ with 96.
  change IRQ_ARM_LOCAL_MAILBOX0 with 100. change ARM_IRQ1_BASE with 0. change ARM_IRQ_LOCAL_BASE with 96.
  irq_case. by apply source_run.
Qed.

Lemma unmask_gpu fc cpus data irq (b : B) :
  0 <= irq < 96 -> 0 <= data irq < 128 ->
  armctrl_unmask_irq fc cpus data irq b =
    ((if negb (fc =? 0) then route 0x3 (fc -u 1)%cint 0 else mret tt) ≫= fun _ =>
       modify (writes [source_write enables (data irq)])) b.
Proof.
  intros Hi Hd. unfold armctrl_unmask_irq, in4. change FIQ_START with 128. change IRQ_ARM_LOCAL_CNTPSIRQ with 96.
  change IRQ_ARM_LOCAL_MAILBOX0 with 100. change ARM_IRQ1_BASE with 0. change ARM_IRQ_LOCAL_BASE with 96.
  irq_case. apply Mbind_ext. intros _ b' _. by apply source_run.
Qed.

Lemma each_core_ok cs f (b : B) : exists b', each_core cs f b = Ok (tt, b').
Proof.
  revert b. induction cs as [|i cs IH]; intros b; [by eexists|]. cbn [each_core].
  rewrite Mbind_unfold. unfold readl at 1. destruct (bus_read _ b) as [v b1]. apply IH.
Qed.

Lemma route_ok keep core shift (b : B) : exists b', route keep core shift b = Ok (tt, b').
Proof. unfold route. rewrite Mbind_unfold. unfold readl at 1. destruct (bus_read _ b) as [v b1]. by eexists. Qed.

(** The other cases of the two operations. *)
Lemma mask_cases data irq (b : B) :
  96 <= irq ->
  armctrl_mask_irq data irq b =
    if decide (128 <= irq) then Ok (tt, bus_write (__io_address ARM_IRQ_FAST) 0 b)
    else if decide (irq < 100) then
      (m ← lift (shl32 1 (data irq -u 96)%cint); each_core [0; 1; 2; 3] (fun v => Z.land v (u32 (Z.lnot m)))) b
    else if decide (irq < 104) then Ok (tt, b)
    else if decide (irq = 105) then Ok (tt, bus_write (__io_address ARM_LOCAL_PM_ROUTING_CLR) 0xf b)
    else Fault KernelBug.
Proof.
  intros Hi. unfold armctrl_mask_irq, in4. change FIQ_START with 128. change IRQ_ARM_LOCAL_CNTPSIRQ with 96.
  change IRQ_ARM_LOCAL_MAILBOX0 with 100. change ARM_IRQ1_BASE with 0. change ARM_IRQ_LOCAL_BASE with 96.
  change INTERRUPT_ARM_LOCAL_PMU_FAST with 105.
  repeat case_decide; irq_case; try done.
  - by replace (irq =? 105) with true by lia.
  - by replace (irq =? 105) with false by lia.
Qed.

Lemma unmask_cases fc cpus data irq (b : B) :
  96 <= irq ->
  armctrl_unmask_irq fc cpus data irq b =
    if decide (128 <= irq) then
      ((if negb (fc =? 0) then route 0xc (fc -u 1)%cint 2
        else if 1 <? cpus then route 0xc 1 2 else mret tt);;
       writel (Z.lor 0x80 (data irq -u 128)%cint) (__io_address ARM_IRQ_FAST)) b
    else if decide (irq < 100) then
      (m ← lift (shl32 1 (data irq -u 96)%cint); each_core [0; 1; 2; 3] (fun v => Z.lor v (u32 m))) b
    else if decide (irq < 104) then Ok (tt, b)
    else if decide (irq = 105) then Ok (tt, bus_write (__io_address ARM_LOCAL_PM_ROUTING_SET) 0xf b)
    else Fault KernelBug.
Proof.
  intros Hi. unfold armctrl_unmask_irq, in4. change FIQ_START with 128. change IRQ_ARM_LOCAL_CNTPSIRQ with 96.
  change IRQ_ARM_LOCAL_MAILBOX0 with 100. change ARM_IRQ1_BASE with 0. change ARM_IRQ_LOCAL_BASE with 96.
  change INTERRUPT_ARM_LOCAL_PMU_FAST with 105.
  repeat case_decide; irq_case; try done.
  - by replace (irq =? 105) with true by lia.
  - by replace (irq =? 105) with false by lia.
Qed.

Lemma fiq_route_ok fc cpus (b : B) :
  exists b', (if negb (fc =? 0) then route 0xc (fc -u 1)%cint 2
    else if 1 <? cpus then route 0xc 1 2 else mret tt) b = Ok (tt, b').
Proof. destruct (negb _); [apply route_ok|]. destruct (1 <? cpus); [apply route_ok | by eexists]. Qed.

Lemma local_timer_shift irq : 96 <= irq < 100 -> shl32 1 (init_data irq -u 96)%cint = Ok (2 ^ (irq - 96)).
Proof.
  intros Hi. rewrite init_data_other by lia.
  assert (irq = 96 \/ irq = 97 \/ irq = 98 \/ irq = 99) as [->|[->|[->| ->]]] by lia; done.
Qed.
End masking.

Section core_regs.
Context {B : Type} `{PlainRegs B plain}.

(** Every core's control register gets [f] of its value. *)
Lemma each_core_peek f (b : B) :
  (forall c, 0 <= c < 4 -> plain (__io_address (ARM_LOCAL_TIMER_INT_CONTROL0 + 4 * c))) ->
  exists b', each_core [0; 1; 2; 3] f b = Ok (tt, b') /\
    forall c, 0 <= c < 4 ->
      peek (__io_address (ARM_LOCAL_TIMER_INT_CONTROL0 + 4 * c)) b' =
        u32 (f (peek (__io_address (ARM_LOCAL_TIMER_INT_CONTROL0 + 4 * c)) b)).
Proof.
  intros Hpl.
  assert (forall c, 0 <= c < 4 -> __io_address (ARM_LOCAL_TIMER_INT_CONTROL0 + 4 * c) = 0xf4000040 + 4 * c) as Ea.
  { intros c Hc. assert (c = 0 \/ c = 1 \/ c = 2 \/ c = 3) as [->|[->|[->| ->]]] by lia; done. }
  cbn [each_core]. rewrite !Ea by lia.
  do 4 (rewrite Mbind_unfold, readl_peek; cbv beta iota; rewrite Mbind_unfold; unfold writel at 1; cbv beta iota).
  eexists. split; [done|]. intros c Hc. pose proof (Hpl c Hc) as Hp. rewrite Ea in * by done.
  assert (forall k, 0 <= k < 4 -> plain (0xf4000040 + 4 * k)) as Hpk by (intros k Hk; rewrite <- Ea; auto).
  pose proof (wrapu_range 32).
  assert (c = 0 \/ c = 1 \/ c = 2 \/ c = 3) as [->|[->|[->| ->]]] by lia;
    repeat first [rewrite peek_write_same by (auto with lia) | rewrite peek_write_other by (auto with lia)
                 | rewrite peek_read by (auto with lia)]; done.
Qed.

Lemma route_bits keep core shift (b : B) :
  plain (__io_address ARM_LOCAL_GPU_INT_ROUTING) -> 0 <= shift ->
  exists b', route keep core shift b = Ok (tt, b') /\
    forall i, 0 <= i < 32 ->
      Z.testbit (peek (__io_address ARM_LOCAL_GPU_INT_ROUTING) b') i =
        (Z.testbit (peek (__io_address ARM_LOCAL_GPU_INT_ROUTING) b) i && negb (Z.testbit keep i)) ||
          Z.testbit core (i - shift).
Proof.
  intros Hp Hs. unfold route. rewrite Mbind_unfold, readl_peek. eexists. split; [done|].
  intros i Hi. rewrite peek_write_same by (done || apply (wrapu_range 32); lia).
  rewrite wrapu_testbit, Z.lor_spec, Z.land_spec, !wrapu_testbit, Z.lnot_spec, Z.shiftl_spec by lia.
  by rewrite (bool_decide_eq_true_2 (i < 32)) by lia.
Qed.
End core_regs.

(** Putting a two-bit value [c] into bits 2 and 3. *)
Lemma field_bits (P : Prop) `{Decision P} v c i :
  0 <= c < 4 -> 0 <= i < 32 -> ~ P ->
  (Z.testbit v i && negb (Z.testbit 0xc i)) || Z.testbit c (i - 2) =
    if decide (P \/ ~ 2 <= i <= 3) then Z.testbit v i else Z.testbit c (i - 2).
Proof.
  intros Hc Hi HP. assert (Z.testbit 0xc i = bool_decide (2 <= i <= 3)) as ->.
  { pose proof (forallb_below 32 (fun i => Bool.eqb (Z.testbit 0xc i) (bool_decide (2 <= i <= 3))) i eq_refl Hi) as E.
    cbv beta in E. apply Bool.eqb_prop in E. exact E. }
  case_bool_decide; cbn [negb].
  - rewrite decide_False by tauto. by rewrite andb_false_r.
  - rewrite decide_True by tauto. rewrite andb_true_r.
    destruct (decide (i < 2)); [by rewrite (Z.testbit_neg_r c), orb_false_r by lia|].
    rewrite (testbit_high 2 c), orb_false_r by (done || unfold is_u; lia). done.
Qed.

(** ** Device-tree specifiers *)

Definition valid_spec (bank bit : Z) : bool :=
  (bank <? 4) && (bit <? 32) && ((bank =? 1) || (bank =? 2) ||
    ((bank =? 0) && (bit <? 21)) || ((bank =? 3) && ((bit <=? 3) || (bit =? 5) || (bit =? 9)))).

Lemma xlate_run bank bit :
  0 <= bank -> 0 <= bit ->
  armctrl_xlate [bank; bit] 2 = Ok (if valid_spec bank bit
    then inr (unmap_irq (nth (Z.to_nat bank) [64; 0; 32; 96] 0 + bit), 0) else inl (-22)).
Proof.
  intros Hb Hi. unfold armctrl_xlate. cbn [Z.eqb Pos.eqb negb]. change (aread [bank; bit] 0) with (Ok bank).
  change (aread [bank; bit] 1) with (Ok bit). unfold mbind, res_bind.
  unfold valid_spec, NR_BANKS, IRQS_PER_BANK, NR_IRQS_BANK0.
  destruct (Z.leb_spec 4 bank); [by rewrite (proj2 (Z.ltb_ge bank 4)) by lia|].
  rewrite (proj2 (Z.ltb_lt bank 4)) by lia. destruct (Z.leb_spec 32 bit);
    [by rewrite (proj2 (Z.ltb_ge bit 32)), andb_false_r by lia|].
  rewrite (proj2 (Z.ltb_lt bit 32)) by lia. cbn [andb].
  assert (bank = 0 \/ bank = 1 \/ bank = 2 \/ bank = 3) as [->|[->|[->| ->]]] by lia; cbn [Z.eqb Pos.eqb andb orb].
  - destruct (Z.leb_spec 21 bit), (Z.ltb_spec bit 21); done || lia.
  - done.
  - done.
  - destruct (Z.ltb_spec 3 bit), (Z.leb_spec bit 3); cbn [andb negb orb]; try lia; [|done].
    by destruct (bit =? 5), (bit =? 9).
Qed.

(** * Properties *)

(** Initialisation gives each of the 480 descriptors one flow handler, its
    flags and its source number: the per-cpu handler and no auto-enable exactly
    for the core-local interrupts 96 to 107, the level handler for the others, and
    as data the interrupt itself except for 74 to 84, which get the source they
    stand for.  The remap table is never indexed outside its 11 entries. *)
Theorem armctrl_init_table node tr :
  exists tr', armctrl_init node tr = Ok (0, tr ++ tr') /\
    forall irq, 0 <= irq < 480 ->
      chip_data_after (tr ++ tr') irq = init_data irq /\
      (SetPercpuHandler irq ∈ tr' <-> 96 <= irq <= 107) /\
      (SetLevelHandler irq ∈ tr' <-> ~ 96 <= irq <= 107) /\
      (init_data irq <> irq <-> 74 <= irq <= 84).
Proof.
  eexists. split; [apply armctrl_init_run|]. intros irq Hi. split; [by apply chip_data_init|].
  split; [|split].
  - rewrite init_trace_of by (done || by left). unfold init_calls.
    change IRQ_ARM_LOCAL_CNTPSIRQ with 96. change IRQ_ARM_LOCAL_TIMER with 107.
    destruct (Z.leb_spec 96 irq), (Z.leb_spec irq 107); cbn [andb]; set_solver by lia.
  - rewrite init_trace_of by (done || by right). unfold init_calls.
    change IRQ_ARM_LOCAL_CNTPSIRQ with 96. change IRQ_ARM_LOCAL_TIMER with 107.
    destruct (Z.leb_spec 96 irq), (Z.leb_spec irq 107); cbn [andb]; set_solver by lia.
  - pose proof (forallb_below 480 (fun i => Bool.eqb (bool_decide (init_data i <> i)) (bool_decide (74 <= i <= 84))) irq
      eq_refl Hi) as E. apply Bool.eqb_prop, bool_decide_eq_iff in E. done.
Qed.

(** C15: A device-tree specifier is refused with [-EINVAL] unless it names one of the
    91 sources the controller knows.  For the others, with the data that
    [armctrl_init] stored: a GPU source [bit] of bank 0, 1 or 2 is masked and
    unmasked by writing that bit to the disable and enable registers of its bank
    (numbers 3, 1 and 2) and nothing else; the basic sources 10 to 20 of bank 0,
    which the hardware only summarises, write the register of the source they
    stand for, and so do the specifiers of those sources themselves. *)
Theorem dt_interrupts {B : Type} `{RegBus B} cpus bank bit (b : B) :
  0 <= bank -> 0 <= bit ->
  match armctrl_xlate [bank; bit] 2 with
  | Ok (inl e) => valid_spec bank bit = false /\ e = - EINVAL
  | Ok (inr (hwirq, type)) =>
      valid_spec bank bit = true /\ type = IRQ_TYPE_NONE /\
      if bank =? 3 then hwirq = 96 + bit
      else
        let '(reg, n) := if (bank =? 0) && (10 <=? bit)
                         then let d := default 0 (remap_irqs !! Z.to_nat (bit - 10)) in (d / 32, d mod 32)
                         else (if bank =? 0 then 2 else bank - 1, bit) in
        armctrl_mask_irq init_data hwirq b =
          Ok (tt, bus_write (__io_address (ARM_IRQ_DIBL1 + 4 * reg)) (2 ^ n) b) /\
        armctrl_unmask_irq 0 cpus init_data hwirq b =
          Ok (tt, bus_write (__io_address (ARM_IRQ_ENBL1 + 4 * reg)) (2 ^ n) b)
  | Fault _ => False
  end.
Proof.
  intros Hb Hi. rewrite xlate_run by done. destruct (valid_spec bank bit) eqn:Ev; [|done].
  split; [done|]. split; [done|].
  assert (bank = 0 \/ bank = 1 \/ bank = 2 \/ bank = 3) as Hbank
    by (unfold valid_spec in Ev; destruct (Z.ltb_spec bank 4); [lia|done]).
  assert (bit < 32) by (unfold valid_spec in Ev; destruct (Z.ltb_spec bit 32); [lia|by rewrite andb_false_r in Ev]).
  destruct (decide (bank = 3)) as [->|Hn3].
  { cbn. unfold unmap_irq. repeat match goal with |- context [?x =? ?y] =>
      replace (x =? y) with false by (symmetry; apply Z.eqb_neq; cbv -[Z.add Z.eq]; lia) end. done. }
  rewrite (proj2 (Z.eqb_neq bank 3)) by done.
  (* the remaining cases are finite *)
  set (check := fun i => let bank := i / 32 in let bit := i mod 32 in
    let '(reg, n) := if (bank =? 0) && (10 <=? bit)
                     then let d := default 0 (remap_irqs !! Z.to_nat (bit - 10)) in (d / 32, d mod 32)
                     else (if bank =? 0 then 2 else bank - 1, bit) in
    let h := unmap_irq (nth (Z.to_nat bank) [64; 0; 32; 96] 0 + bit) in
    negb (valid_spec bank bit) || ((0 <=? h) && (h <? 96) &&
      bool_decide (source_write disables (init_data h) = (__io_address (ARM_IRQ_DIBL1 + 4 * reg), 2 ^ n)) &&
      bool_decide (source_write enables (init_data h) = (__io_address (ARM_IRQ_ENBL1 + 4 * reg), 2 ^ n)))).
  pose proof (forallb_below 96 check (bank * 32 + bit) ltac:(vm_compute; reflexivity) ltac:(lia)) as Hc.
  unfold check in Hc. replace ((bank * 32 + bit) / 32) with bank in Hc by dlia.
  replace ((bank * 32 + bit) mod 32) with bit in Hc by dlia. rewrite Ev in Hc. cbn [negb orb] in Hc.
  set (h := unmap_irq _) in *. destruct (if _ && _ then _ else _) as [reg n].
  rewrite !andb_true_iff, !bool_decide_eq_true, Z.leb_le, Z.ltb_lt in Hc. destruct Hc as [[[Hh0 Hh] Ed] Ee].
  pose proof (init_data_gpu h ltac:(lia)). rewrite mask_gpu, unmask_gpu, Ed, Ee by lia. done.
Qed.

(** [mask] and [unmask] have a case for every interrupt except the GPU fast
    interrupt's 104 and 106 to 127: on those, and only those, the kernel stops in
    [BUG()].  The descriptors of 106 and 107 are among the ones [armctrl_init]
    sets up with this chip. *)
Theorem armctrl_bug {B : Type} `{RegBus B} fc cpus irq (b : B) :
  0 <= irq < 480 ->
  (armctrl_mask_irq init_data irq b = Fault KernelBug <-> irq = 104 \/ 106 <= irq <= 127) /\
  (armctrl_unmask_irq fc cpus init_data irq b = Fault KernelBug <-> irq = 104 \/ 106 <= irq <= 127) /\
  (~ (irq = 104 \/ 106 <= irq <= 127) ->
     is_ok (armctrl_mask_irq init_data irq b) = true /\
     is_ok (armctrl_unmask_irq fc cpus init_data irq b) = true).
Proof.
  intros Hi. destruct (decide (irq < 96)).
  { pose proof (init_data_gpu irq ltac:(lia)). rewrite mask_gpu, unmask_gpu by lia.
    assert (exists b', (if negb (fc =? 0) then route 0x3 (fc -u 1)%cint 0 else mret tt) b = Ok (tt, b')) as [b' Er]
      by (destruct (negb _); [apply route_ok | by eexists]).
    rewrite (Mbind_run _ _ _ _ _ Er). split_and!; try (split; [done|lia]). done. }
  rewrite mask_cases, unmask_cases by lia. destruct (decide (128 <= irq)).
  { destruct (fiq_route_ok fc cpus b) as [b' Er]. rewrite (Mbind_run _ _ _ _ _ Er).
    split_and!; try (split; [done|lia]). done. }
  destruct (decide (irq < 100)).
  { rewrite local_timer_shift, !Mbind_lift by lia.
    destruct (each_core_ok [0; 1; 2; 3] (fun v => Z.land v (u32 (Z.lnot (2 ^ (irq - 96))))) b) as [b1 ->].
    destruct (each_core_ok [0; 1; 2; 3] (fun v => Z.lor v (u32 (2 ^ (irq - 96)))) b) as [b2 ->].
    split_and!; try (split; [done|lia]). done. }
  repeat case_decide; split_and!; try (split; intros; done || lia); intros; done || (exfalso; lia).
Qed.

(** The core-local timer interrupts 96 to 99 are masked and unmasked in the
    control registers of all four cores at once: bit [irq - 96] is cleared or set
    there and no other bit changes. *)
Theorem local_timer_bits {B : Type} `{PlainRegs B plain} fc cpus irq (b : B) :
  let reg c := __io_address (ARM_LOCAL_TIMER_INT_CONTROL0 + 4 * c) in
  (forall c, 0 <= c < 4 -> plain (reg c)) -> 96 <= irq < 100 ->
  exists b1 b2,
    armctrl_mask_irq init_data irq b = Ok (tt, b1) /\
    armctrl_unmask_irq fc cpus init_data irq b = Ok (tt, b2) /\
    forall c i, 0 <= c < 4 -> 0 <= i < 32 ->
      Z.testbit (peek (reg c) b1) i = (if decide (i = irq - 96) then false else Z.testbit (peek (reg c) b) i) /\
      Z.testbit (peek (reg c) b2) i = (if decide (i = irq - 96) then true else Z.testbit (peek (reg c) b) i).
Proof.
  intros reg Hpl Hi. destruct (each_core_peek (fun v => Z.land v (u32 (Z.lnot (2 ^ (irq - 96))))) b Hpl) as (b1 & E1 & F1).
  destruct (each_core_peek (fun v => Z.lor v (u32 (2 ^ (irq - 96)))) b Hpl) as (b2 & E2 & F2).
  exists b1, b2. rewrite mask_cases, unmask_cases by lia.
  rewrite !(decide_False (P := 128 <= irq)), !(decide_True (P := irq < 100)) by lia.
  rewrite local_timer_shift, !Mbind_lift by lia.
  split; [exact E1|]. split; [exact E2|]. intros c i Hc Hib. unfold reg. rewrite F1, F2 by done.
  rewrite !wrapu_testbit, Z.land_spec, Z.lor_spec, !wrapu_testbit, Z.lnot_spec, testbit_pow2 by lia.
  rewrite (bool_decide_eq_true_2 (i < 32)) by lia. cbn [andb].
  repeat case_decide; case_bool_decide; try lia; cbn [negb];
    by rewrite ?andb_true_r, ?andb_false_r, ?orb_false_r, ?orb_true_r.
Qed.

(** Unmasking a fast interrupt first routes it: to core [force_core - 1] when
    that is set, else to core 1 when more than one core is online, else nowhere;
    only bits 2 and 3 of the routing register change, and then the source number
    is written with the enable bit to the fast-interrupt register.  [force_core]
    is checked nowhere: a value above 4 sets bits beyond the field. *)
Theorem fiq_routing {B : Type} `{PlainRegs B plain} fc cpus irq (b : B) :
  let r := __io_address ARM_LOCAL_GPU_INT_ROUTING in
  plain r -> __io_address ARM_IRQ_FAST <> r -> 0 <= fc < 2 ^ 32 -> 128 <= irq < 256 ->
  exists b1, armctrl_unmask_irq fc cpus init_data irq b =
      Ok (tt, bus_write (__io_address ARM_IRQ_FAST) (Z.lor 0x80 (irq - 128)) b1) /\
    (fc <= 4 -> forall i, 0 <= i < 32 ->
      Z.testbit (peek r b1) i =
        if decide ((fc = 0 /\ cpus <= 1) \/ ~ 2 <= i <= 3) then Z.testbit (peek r b) i
        else Z.testbit (if decide (fc = 0) then 1 else fc - 1) (i - 2)) /\
    (fc = 5 -> Z.testbit (peek r b1) 4 = true).
Proof.
  intros r Hr Hne Hfc Hi. rewrite unmask_cases, decide_True by lia.
  rewrite init_data_other, u32_small by lia.
  assert (forall b1, writel (Z.lor 0x80 (irq - 128)) (__io_address ARM_IRQ_FAST) b1 =
    Ok (tt, bus_write (__io_address ARM_IRQ_FAST) (Z.lor 0x80 (irq - 128)) b1)) as Hw.
  { intros b1. unfold writel. rewrite (wrapu_small 32); [done|].
    apply (is_u_lor 32); unfold is_u; lia. }
  destruct (Z.eqb_spec fc 0) as [->|Hfc0]; cbn [negb].
  - destruct (Z.ltb_spec 1 cpus).
    + destruct (route_bits 0xc 1 2 b Hr ltac:(lia)) as (b1 & E1 & F1).
      rewrite (Mbind_run _ _ _ _ _ E1), Hw. eexists. split; [done|]. split; [|lia].
      intros _ i Hib. unfold r. rewrite (F1 i Hib), (decide_True (P := 0 = 0)) by done. apply field_bits; lia.
    + rewrite Mbind_ret, Hw. eexists. split; [done|]. split; [|lia].
      intros _ i Hib. by rewrite decide_True by lia.
  - destruct (route_bits 0xc (fc -u 1)%cint 2 b Hr ltac:(lia)) as (b1 & E1 & F1).
    rewrite (Mbind_run _ _ _ _ _ E1), Hw. eexists. rewrite u32_small in F1 by lia. split; [done|]. split.
    + intros Hfc4 i Hib. unfold r. rewrite (F1 i Hib), (decide_False (P := fc = 0)) by done. apply field_bits; lia.
    + intros ->. unfold r. by rewrite F1, orb_true_r by lia.
Qed.

(** ** Witnesses *)

(** Specifier <1 16> is DMA 0: bit 16 of the first registers. *)
Lemma dt_interrupts_witness :
  armctrl_xlate [1; 16] 2 = Ok (inr (16, 0)) /\
  armctrl_mask_irq init_data 16 LogBus0 = Ok (tt, bus_write 0xf300b21c (2 ^ 16) LogBus0).
Proof.
  pose proof (dt_interrupts 4 1 16 LogBus0 ltac:(lia) ltac:(lia)) as (_ & _ & E & _).
  split; [reflexivity | exact E].
Defined.

Lemma armctrl_bug_witness : armctrl_mask_irq init_data 107 LogBus0 = Fault KernelBug.
Proof. apply (armctrl_bug 0 4 107 LogBus0); [lia | right; lia]. Defined.

Lemma local_timer_bits_witness :
  exists b1, armctrl_mask_irq init_data 97 (mkLogBus {[0xf4000044 := 15]} []) = Ok (tt, b1) /\
    Z.testbit (peek 0xf4000044 b1) 1 = false /\ Z.testbit (peek 0xf4000044 b1) 2 = true.
Proof.
  destruct (local_timer_bits (plain := fun _ => True) 0 4 97 (mkLogBus {[0xf4000044 := 15]} []))
    as (b1 & b2 & E & _ & F); [intros; exact I | lia |].
  exists b1. split; [exact E|]. split; [apply (F 1 1); lia | apply (F 1 2); lia].
Defined.

Lemma fiq_routing_witness :
  exists b1, armctrl_unmask_irq 0 4 init_data 137 LogBus0 =
      Ok (tt, bus_write 0xf300b20c 0x89 b1) /\ Z.testbit (peek 0xf400000c b1) 2 = true.
Proof.
  destruct (fiq_routing (plain := fun _ => True) 0 4 137 LogBus0) as (b1 & E & F & _);
    [exact I | vm_compute; discriminate | lia | lia |].
  exists b1. split; [exact E|]. exact (F ltac:(lia) 2 ltac:(lia)).
Defined.
