(* ===== verification/VcSupport.v ===== *)
(** * mach-bcm2709/vc_support.c: memory and code on the VideoCore

    Five requests to the firmware, each a message of 32-bit words on the stack
    that [bcm_mailbox_property] sends and overwrites with the reply.  The
    property channel and the firmware behind it are parameters: [VcFirmware] is
    the interface the requests rely on.  The [printk]s of the error branches are
    left out. *)

From S2P Require Import Prelude Mmio BoardHw.
Open Scope Z_scope.

(** Word offsets in [struct vc_msg]; the arguments start at [m_args] and the end
    tag follows them. *)
Definition m_msgSize : Z := 0.
Definition m_response : Z := 1.
Definition m_tagId : Z := 2.
Definition m_sendBufferSize : Z := 3.
Definition m_sendDataSize : Z := 4.
Definition m_recvDataSize : Z := 4.     (* the same word *)
Definition m_args : Z := 5.

Section requests.
Context {V : Type}.

(** [bcm_mailbox_property(&msg, size)]: the return value and the words left in the
    message. *)
Variable bcm_mailbox_property : list Z -> M V (Z * list Z).
(** What the stack holds where a message of [n] words is put. *)
Variable uninit : nat -> list Z.

(** [words]: how many argument words; [sizeof(msg)] is [4 * (words + 6)]. *)
Definition m_endTag (words : Z) : Z := m_args + words.
Definition sizeof_msg (words : Z) : Z := 4 * (words + 6).

Definition AllocateVcMemory (size alignment flags : Z) : M V (Z * option Z) :=
  let msg := uninit 9 in
  msg ← lift (awrite msg m_msgSize (sizeof_msg 3));
  msg ← lift (awrite msg m_response 0);
  msg ← lift (awrite msg (m_endTag 3) 0);
  msg ← lift (awrite msg m_tagId 0x3000c);
  msg ← lift (awrite msg m_sendBufferSize 12);
  msg ← lift (awrite msg m_sendDataSize 12);
  msg ← lift (awrite msg (m_args + 0) size);
  msg ← lift (awrite msg (m_args + 1) alignment);
  msg ← lift (awrite msg (m_args + 2) flags);
  r ← bcm_mailbox_property msg;
  let '(s, msg) := r in
  response ← lift (aread msg m_response);
  recv ← lift (aread msg m_recvDataSize);
  handle ← lift (aread msg (m_args + 0));
  if (s =? 0) && (response =? 0x80000000) && (recv =? 0x80000004)
  then mret (0, Some handle) else mret (1, None).

(** [ReleaseVcMemory], [LockVcMemory] and [UnlockVcMemory] send one handle. *)
Definition ReleaseVcMemory (handle : Z) : M V Z :=
  let msg := uninit 7 in
  msg ← lift (awrite msg m_msgSize (sizeof_msg 1));
  msg ← lift (awrite msg m_response 0);
  msg ← lift (awrite msg (m_endTag 1) 0);
  msg ← lift (awrite msg m_tagId 0x3000f);
  msg ← lift (awrite msg m_sendBufferSize 4);
  msg ← lift (awrite msg m_sendDataSize 4);
  msg ← lift (awrite msg (m_args + 0) handle);
  r ← bcm_mailbox_property msg;
  let '(s, msg) := r in
  response ← lift (aread msg m_response);
  recv ← lift (aread msg m_recvDataSize);
  error ← lift (aread msg (m_args + 0));
  if (s =? 0) && (response =? 0x80000000) && (recv =? 0x80000004) && (error =? 0)
  then mret 0 else mret 1.

Definition LockVcMemory (handle : Z) : M V (Z * option Z) :=
  let msg := uninit 7 in
  msg ← lift (awrite msg m_msgSize (sizeof_msg 1));
  msg ← lift (awrite msg m_response 0);
  msg ← lift (awrite msg (m_endTag 1) 0);
  msg ← lift (awrite msg m_tagId 0x3000d);
  msg ← lift (awrite msg m_sendBufferSize 4);
  msg ← lift (awrite msg m_sendDataSize 4);
  msg ← lift (awrite msg (m_args + 0) handle);
  r ← bcm_mailbox_property msg;
  let '(s, msg) := r in
  response ← lift (aread msg m_response);
  recv ← lift (aread msg m_recvDataSize);
  busAddress ← lift (aread msg (m_args + 0));
  if (s =? 0) && (response =? 0x80000000) && (recv =? 0x80000004)
  then mret (0, Some busAddress) else mret (1, None).

Definition UnlockVcMemory (handle : Z) : M V Z :=
  let msg := uninit 7 in
  msg ← lift (awrite msg m_msgSize (sizeof_msg 1));
  msg ← lift (awrite msg m_response 0);
  msg ← lift (awrite msg (m_endTag 1) 0);
  msg ← lift (awrite msg m_tagId 0x3000e);
  msg ← lift (awrite msg m_sendBufferSize 4);
  msg ← lift (awrite msg m_sendDataSize 4);
  msg ← lift (awrite msg (m_args + 0) handle);
  r ← bcm_mailbox_property msg;
  let '(s, msg) := r in
  response ← lift (aread msg m_response);
  recv ← lift (aread msg m_recvDataSize);
  error ← lift (aread msg (m_args + 0));
  if (s =? 0) && (response =? 0x80000000) && (recv =? 0x80000004) && (error =? 0)
  then mret 0 else mret 1.

Definition ExecuteVcCode (code r0 r1 r2 r3 r4 r5 : Z) : M V Z :=
  let msg := uninit 13 in
  msg ← lift (awrite msg m_msgSize (sizeof_msg 7));
  msg ← lift (awrite msg m_response 0);
  msg ← lift (awrite msg (m_endTag 7) 0);
  msg ← lift (awrite msg m_tagId 0x30010);
  msg ← lift (awrite msg m_sendBufferSize 28);
  msg ← lift (awrite msg m_sendDataSize 28);
  msg ← lift (awrite msg (m_args + 0) code);
  msg ← lift (awrite msg (m_args + 1) r0);
  msg ← lift (awrite msg (m_args + 2) r1);
  msg ← lift (awrite msg (m_args + 3) r2);
  msg ← lift (awrite msg (m_args + 4) r3);
  msg ← lift (awrite msg (m_args + 5) r4);
  msg ← lift (awrite msg (m_args + 6) r5);
  r ← bcm_mailbox_property msg;
  let '(s, msg) := r in
  response ← lift (aread msg m_response);
  recv ← lift (aread msg m_recvDataSize);
  ret ← lift (aread msg (m_args + 0));
  if (s =? 0) && (response =? 0x80000000) && (recv =? 0x80000004) then mret ret else mret 1.
End requests.

(** * The property channel *)

(** The message of a request with one tag: total size, request code, the tag with
    its buffer and request sizes, the arguments and the end tag. *)
Definition property_message (tag : Z) (args : list Z) : list Z :=
  let n := Z.of_nat (length args) in
  [4 * (n + 6); 0; tag; 4 * n; 4 * n] ++ args ++ [0].

(** A reply: response code, response size of the tag, first result word. *)
Definition property_reply (msg : list Z) (response recv v : Z) : list Z :=
  <[1%nat := response]> (<[4%nat := recv]> (<[5%nat := v]> msg)).

(** What the requests rely on: the firmware takes a message apart into a tag and
    its arguments, [fw_call], and answers in place: 0x80000000 with a one-word
    result, or 0x80000001 when it cannot. *)
Class VcFirmware (V : Type) := {
  fw_property : list Z -> M V (Z * list Z);
  fw_call : Z -> list Z -> V -> option Z * V;
  fw_answers tag args v :
    fw_property (property_message tag args) v =
      let '(r, v') := fw_call tag args v in
      let msg := property_message tag args in
      Ok (0, match r with
             | Some x => property_reply msg 0x80000000 0x80000004 x
             | None => property_reply msg 0x80000001 0x80000000 0
             end, v');
}.

(** The firmware's memory service: the allocated handles, each locked or not, and
    the bus address a locked one has. *)
Class VcMemory (V : Type) `{VcFirmware V} := {
  fw_mem : V -> gmap Z bool;
  fw_bus : Z -> Z;
  fw_alloc size al fl v h v' :
    fw_call 0x3000c [size; al; fl] v = (Some h, v') ->
    fw_mem v !! h = None /\ fw_mem v' = <[h := false]> (fw_mem v);
  fw_lock h v :
    is_Some (fw_mem v !! h) ->
    exists v', fw_call 0x3000d [h] v = (Some (fw_bus h), v') /\ fw_mem v' = <[h := true]> (fw_mem v);
  fw_unlock h v :
    fw_mem v !! h = Some true ->
    exists v', fw_call 0x3000e [h] v = (Some 0, v') /\ fw_mem v' = <[h := false]> (fw_mem v);
  fw_release h v :
    is_Some (fw_mem v !! h) ->
    exists v', fw_call 0x3000f [h] v = (Some 0, v') /\ fw_mem v' = delete h (fw_mem v);
  fw_release_bad h v :
    fw_mem v !! h = None ->
    exists e v', fw_call 0x3000f [h] v = (Some e, v') /\ e <> 0 /\ fw_mem v' = fw_mem v;
}.

(** * Lemmas *)

Section calls.
Context {V : Type}.
Variable property : list Z -> M V (Z * list Z).
Variable uninit : nat -> list Z.
Hypothesis uninit_length : forall n, length (uninit n) = n.
(** The channel overwrites the message in place. *)
Hypothesis property_in_place : forall msg v s reply v',
  property msg v = Ok (s, reply, v') -> length reply = length msg.

Definition accepted (s : Z) (reply : list Z) : bool :=
  (s =? 0) && (default 0 (reply !! 1%nat) =? 0x80000000) && (default 0 (reply !! 4%nat) =? 0x80000004).
Definition result (reply : list Z) : Z := default 0 (reply !! 5%nat).

(** The five requests: one message, one decision. *)
Definition request {A} (tag : Z) (args : list Z) (k : bool -> Z -> A) : M V A := fun v =>
  match property (property_message tag args) v with
  | Ok (s, reply, v') => Ok (k (accepted s reply) (result reply), v')
  | Fault f => Fault f
  end.

Lemma read_reply {A} msg v (k : Z -> Z -> Z -> Z -> M V A) :
  (6 <= length msg)%nat ->
  (r ← property msg;
   let '(s, msg) := r in
   response ← lift (aread msg m_response);
   recv ← lift (aread msg m_recvDataSize);
   x ← lift (aread msg (m_args + 0));
   k s response recv x) v =
  match property msg v with
  | Ok (s, reply, v') =>
      k s (default 0 (reply !! 1%nat)) (default 0 (reply !! 4%nat)) (result reply) v'
  | Fault f => Fault f
  end.
Proof.
  intros Hn. rewrite Mbind_unfold. destruct (property msg v) as [[[s reply] v']|f] eqn:E; [|done].
  apply property_in_place in E.
  do 6 (destruct reply as [|? reply]; [cbn in E; lia|]). done.
Qed.

(** The stack's words by length. *)
Ltac stack n :=
  let L := fresh in pose proof (uninit_length n) as L;
  let l := fresh in set (l := uninit n) in *; clearbody l;
  repeat (destruct l as [|? l]; try discriminate L); clear L.

Ltac request_tac rd :=
  cbv zeta; etransitivity; [|etransitivity; [eapply rd|]];
  [reflexivity | rewrite ?length_insert; cbn; lia |
   match goal with |- match ?x with _ => _ end = match ?y with _ => _ end => change x with y end;
   cbv beta; destruct (property _ _) as [[[? ?] ?]|]; [|done]; unfold accepted;
   repeat (match goal with |- context [(?b =? ?c)] => destruct (b =? c) end; cbn [andb]); reflexivity].

Lemma Allocate_request size al fl v :
  AllocateVcMemory property uninit size al fl v =
    request 0x3000c [size; al; fl] (fun ok h => if ok then (0, Some h) else (1, None)) v.
Proof. unfold AllocateVcMemory, request. stack 9%nat. request_tac @read_reply. Qed.

Lemma Lock_request h v :
  LockVcMemory property uninit h v =
    request 0x3000d [h] (fun ok a => if ok then (0, Some a) else (1, None)) v.
Proof. unfold LockVcMemory, request. stack 7%nat. request_tac @read_reply. Qed.

Lemma Unlock_request h v :
  UnlockVcMemory property uninit h v =
    request 0x3000e [h] (fun ok e => if ok && (e =? 0) then 0 else 1) v.
Proof. unfold UnlockVcMemory, request. stack 7%nat. request_tac @read_reply. Qed.

Lemma Release_request h v :
  ReleaseVcMemory property uninit h v =
    request 0x3000f [h] (fun ok e => if ok && (e =? 0) then 0 else 1) v.
Proof. unfold ReleaseVcMemory, request. stack 7%nat. request_tac @read_reply. Qed.

Lemma Execute_request code r0 r1 r2 r3 r4 r5 v :
  ExecuteVcCode property uninit code r0 r1 r2 r3 r4 r5 v =
    request 0x30010 [code; r0; r1; r2; r3; r4; r5] (fun ok x => if ok then x else 1) v.
Proof. unfold ExecuteVcCode, request. stack 13%nat. request_tac @read_reply. Qed.
End calls.

(** ** Requests answered by a firmware *)

Section firmware.
Context {V : Type} `{VcFirmware V}.

Lemma fw_request {A} tag a args (k : bool -> Z -> A) v :
  request fw_property tag (a :: args) k v =
    let '(r, v') := fw_call tag (a :: args) v in
    Ok (match r with Some x => k true x | None => k false 0 end, v').
Proof.
  unfold request. rewrite fw_answers. destruct (fw_call tag (a :: args) v) as [[x|] v']; done.
Qed.
End firmware.

(** * Properties *)

(** Every request puts a complete property message on the channel, whatever the
    stack held before: its total size, one tag whose two sizes are the size of its
    arguments, and the end tag.  It succeeds exactly when the channel returns 0,
    the response code is 0x80000000 and the tag's response is one word (and, for
    release and unlock, that word is 0); the output pointer of allocate and lock
    is written only then, and every failure returns 1.  [ExecuteVcCode] returns
    the code's own result, so its 1 can be a success too. *)
Theorem vc_requests {V : Type} (property : list Z -> M V (Z * list Z)) uninit v :
  (forall n, length (uninit n) = n) ->
  (forall msg v s reply v', property msg v = Ok (s, reply, v') -> length reply = length msg) ->
  (forall size al fl, AllocateVcMemory property uninit size al fl v =
     request property 0x3000c [size; al; fl] (fun ok h => if ok then (0, Some h) else (1, None)) v) /\
  (forall h, ReleaseVcMemory property uninit h v =
     request property 0x3000f [h] (fun ok e => if ok && (e =? 0) then 0 else 1) v) /\
  (forall h, LockVcMemory property uninit h v =
     request property 0x3000d [h] (fun ok a => if ok then (0, Some a) else (1, None)) v) /\
  (forall h, UnlockVcMemory property uninit h v =
     request property 0x3000e [h] (fun ok e => if ok && (e =? 0) then 0 else 1) v) /\
  (forall code r0 r1 r2 r3 r4 r5, ExecuteVcCode property uninit code r0 r1 r2 r3 r4 r5 v =
     request property 0x30010 [code; r0; r1; r2; r3; r4; r5] (fun ok x => if ok then x else 1) v).
Proof.
  intros Hu Hp. split_and!; intros.
  - by apply Allocate_request.
  - by apply Release_request.
  - by apply Lock_request.
  - by apply Unlock_request.
  - by apply Execute_request.
Qed.

(** On a firmware that answers and keeps its memory service as documented, a
    successful allocation followed by lock, unlock and release succeeds at each
    step, hands out the firmware's bus address, and leaves the firmware's memory
    as it was; releasing the handle a second time fails and changes nothing. *)
Theorem vc_memory_cycle {V : Type} `{VcMemory V} uninit size al fl h v v1 :
  (forall n, length (uninit n) = n) ->
  (forall msg v s reply v', fw_property msg v = Ok (s, reply, v') -> length reply = length msg) ->
  AllocateVcMemory fw_property uninit size al fl v = Ok (0, Some h, v1) ->
  exists v2 v3 v4 v5,
    LockVcMemory fw_property uninit h v1 = Ok (0, Some (fw_bus h), v2) /\
    fw_mem v2 !! h = Some true /\
    UnlockVcMemory fw_property uninit h v2 = Ok (0, v3) /\
    ReleaseVcMemory fw_property uninit h v3 = Ok (0, v4) /\
    fw_mem v4 = fw_mem v /\
    ReleaseVcMemory fw_property uninit h v4 = Ok (1, v5) /\
    fw_mem v5 = fw_mem v.
Proof.
  intros Hu Hp Ha. rewrite Allocate_request, fw_request in Ha by done.
  destruct (fw_call 0x3000c [size; al; fl] v) as [[x|] v'] eqn:Ec; [|discriminate Ha].
  injection Ha as -> ->. apply fw_alloc in Ec as [Hn E1].
  destruct (fw_lock h v1) as (v2 & C2 & E2); [rewrite E1, lookup_insert_eq; by eexists|].
  destruct (fw_unlock h v2) as (v3 & C3 & E3); [by rewrite E2, lookup_insert_eq|].
  destruct (fw_release h v3) as (v4 & C4 & E4); [rewrite E3, lookup_insert_eq; by eexists|].
  assert (fw_mem v4 = fw_mem v) as Em.
  { rewrite E4, E3, E2, E1, !insert_insert_eq. by apply delete_insert_id. }
  destruct (fw_release_bad h v4) as (e & v5 & C5 & He & E5); [by rewrite Em|].
  exists v2, v3, v4, v5. rewrite Lock_request, Unlock_request, !Release_request, !fw_request by done.
  rewrite C2, C3, C4, C5. apply Z.eqb_neq in He. rewrite He.
  split_and!; try done; [by rewrite E2, lookup_insert_eq | by rewrite E5].
Qed.

(** ** A concrete firmware *)

Record fw := mkFw { fw_next : Z; fw_handles : gmap Z bool }.

Definition fw_step (tag : Z) (args : list Z) (v : fw) : option Z * fw :=
  match args with
  | [size; al; fl] =>
      if (tag =? 0x3000c) && bool_decide (fw_handles v !! fw_next v = None)
      then (Some (fw_next v), mkFw (fw_next v + 1) (<[fw_next v := false]> (fw_handles v))) else (None, v)
  | [h] =>
      let known := bool_decide (is_Some (fw_handles v !! h)) in
      if tag =? 0x3000d then (if known then (Some (0xC0000000 + h * 4096), mkFw (fw_next v) (<[h := true]> (fw_handles v))) else (None, v))
      else if tag =? 0x3000e then
        (if bool_decide (fw_handles v !! h = Some true) then (Some 0, mkFw (fw_next v) (<[h := false]> (fw_handles v))) else (Some 1, v))
      else if tag =? 0x3000f then (if known then (Some 0, mkFw (fw_next v) (delete h (fw_handles v))) else (Some 1, v))
      else (None, v)
  | _ => (None, v)
  end.

(** Takes the message apart by its own sizes and answers in place. *)
Definition fw_chan (msg : list Z) : M fw (Z * list Z) := fun v =>
  let n := Z.to_nat (default 0 (msg !! 3%nat) / 4) in
  let '(r, v') := fw_step (default 0 (msg !! 2%nat)) (take n (drop 5 msg)) v in
  Ok (0, match r with
         | Some x => property_reply msg 0x80000000 0x80000004 x
         | None => property_reply msg 0x80000001 0x80000000 0
         end, v').

#[global] Instance fw_firmware : VcFirmware fw.
Proof.
  refine {| fw_property := fw_chan; fw_call := fw_step |}.
  intros tag args v. unfold fw_chan.
  change (default 0 (property_message tag args !! 3%nat)) with (4 * Z.of_nat (length args)).
  change (default 0 (property_message tag args !! 2%nat)) with tag.
  replace (4 * Z.of_nat (length args) / 4) with (Z.of_nat (length args)) by dlia.
  rewrite Nat2Z.id. change (drop 5 (property_message tag args)) with (args ++ [0]).
  by rewrite take_app_length.
Defined.

#[global] Instance fw_memory : VcMemory fw.
Proof.
  refine {| fw_mem := fw_handles; fw_bus h := 0xC0000000 + h * 4096 |}.
  - intros size al fl v h v' Hc. cbn in Hc. case_bool_decide; [|discriminate Hc].
    by injection Hc as <- <-.
  - intros h v Hk. eexists. cbn. by rewrite bool_decide_eq_true_2.
  - intros h v Hk. eexists. cbn. by rewrite bool_decide_eq_true_2.
  - intros h v Hk. eexists. cbn. by rewrite bool_decide_eq_true_2.
  - intros h v Hk. eexists _, _. cbn. rewrite bool_decide_eq_false_2 by (rewrite Hk; by intros []). done.
Defined.

Lemma fw_in_place msg (v : fw) s reply v' : fw_chan msg v = Ok (s, reply, v') -> length reply = length msg.
Proof.
  unfold fw_chan. destruct (fw_step _ _ v) as [[x|] v1]; intros [= _ <- _]; unfold property_reply;
    by rewrite !length_insert.
Qed.

(** ** Witnesses *)

Definition ex_stack (n : nat) : list Z := replicate n 0xdeadbeef.

Lemma vc_requests_witness :
  ExecuteVcCode fw_chan ex_stack 0 1 2 3 4 5 6 (mkFw 7 ∅) = Ok (1, mkFw 7 ∅).
Proof.
  destruct (vc_requests fw_chan ex_stack (mkFw 7 ∅)) as (_ & _ & _ & _ & E);
    [intros; apply length_replicate | apply fw_in_place |].
  rewrite E. reflexivity.
Defined.

Lemma vc_memory_cycle_witness :
  exists v2, LockVcMemory fw_property ex_stack 7 (mkFw 8 {[7 := false]}) = Ok (0, Some 0xC0007000, v2).
Proof.
  destruct (vc_memory_cycle ex_stack 4096 4096 12 7 (mkFw 7 ∅) (mkFw 8 {[7 := false]})) as (v2 & ? & ? & ? & E & _);
    [intros; apply length_replicate | apply fw_in_place | vm_compute; reflexivity |].
  exists v2. exact E.
Defined.
