(* ===== verification/Bcm2709.v ===== *)
(** * mach-bcm2709/bcm2709.c: the board

    The I/O map, the static devices, start-up ([bcm2709_init] and what it calls),
    timer, restart and power-off, and the start of the other cores.  Kernel
    services are parameters (what they return) and a trace (that they were
    called, with what, and in which order with the register writes).  The
    configuration is the board's auto.conf: OF, IPIPE, SMP, the GPIO, W1, PPS,
    LED, eMMC, SPI and sound options set, BCM_VC_CMA and SYSTEM_TIMER not; so
    the system-timer half of the file (lines 168 to 214 and 1005 to 1100) is not
    compiled and not modelled.  pr_debug prints nothing and the informative
    printks are left out. *)

From S2P Require Import Prelude Ioctl Mmio BoardHw.
Open Scope Z_scope.

Definition SZ_64 : Z := 0x40.
Definition SZ_256 : Z := 0x100.
Definition SZ_4K : Z := 0x1000.
Definition SZ_128K : Z := 0x20000.
Definition SZ_4M : Z := 0x400000.

(** ** The I/O map *)

Record map_desc := mkMap { virtual : Z; pfn : Z; maplen : Z; maptype : Z }.

Definition PAGE_SHIFT : Z := 12.
Definition __phys_to_pfn (paddr : Z) : Z := Z.shiftr paddr PAGE_SHIFT.
Definition MT_DEVICE : Z := 0.

Definition io_entry (a len : Z) : map_desc := mkMap (IO_ADDRESS a) (__phys_to_pfn a) len MT_DEVICE.

Definition bcm2709_io_desc : list map_desc :=
  [io_entry ARMCTRL_BASE SZ_4K;
   io_entry UART0_BASE SZ_4K;
   io_entry UART1_BASE SZ_4K;
   io_entry DMA_BASE SZ_4K;
   io_entry MCORE_BASE SZ_4K;
   io_entry ST_BASE SZ_4K;
   io_entry USB_BASE SZ_128K;
   io_entry PM_BASE SZ_4K;
   io_entry GPIO_BASE SZ_4K;
   io_entry ARM_LOCAL_BASE SZ_4K].

(** ** Static devices *)

Definition IORESOURCE_MEM : Z := 0x200.
Definition IORESOURCE_IRQ : Z := 0x400.

Record resource := mkRes { rstart : Z; rend : Z; rflags : Z }.
#[global] Instance resource_eq_dec : EqDecision resource.
Proof. solve_decision. Defined.

Definition mem (start end_ : Z) : resource := mkRes start end_ IORESOURCE_MEM.
Definition irq (n : Z) : resource := mkRes n n IORESOURCE_IRQ.

Definition DMA_MASK_BITS_COMMON : Z := 32.
Definition DMA_BIT_MASK (n : Z) : Z := if n =? 64 then 2 ^ 64 - 1 else Z.shiftl 1 n - 1.

(** The fields the initialisers set: name, id, resources, coherent DMA mask. *)
Record platform_device := mkDev {
  name : string;
  id : Z;
  resources : list resource;
  dma_mask : option Z;
}.
#[global] Instance platform_device_eq_dec : EqDecision platform_device.
Proof. solve_decision. Defined.

Definition common_mask : option Z := Some (DMA_BIT_MASK DMA_MASK_BITS_COMMON).

Definition bcm2708_dmaengine_resources : list resource :=
  [mem DMA_BASE (DMA_BASE + SZ_4K - 1);
   irq IRQ_DMA0; irq IRQ_DMA1; irq IRQ_DMA2; irq IRQ_DMA3; irq IRQ_DMA4; irq IRQ_DMA5; irq IRQ_DMA6;
   irq IRQ_DMA7; irq IRQ_DMA8; irq IRQ_DMA9; irq IRQ_DMA10; irq IRQ_DMA11; irq IRQ_DMA12].
Definition bcm2708_dmaengine_device := mkDev "bcm2708-dmaengine" (-1) bcm2708_dmaengine_resources None.

Definition w1_device := mkDev "w1-gpio" (-1) [] None.
Definition pps_gpio_device (id : Z) := mkDev "pps-gpio" id [] None.
Definition bcm2708_fb_device := mkDev "bcm2708_fb" (-1) [] common_mask.

Definition bcm2708_usb_resources : list resource :=
  [mem USB_BASE (USB_BASE + SZ_128K - 1);
   mem MPHI_BASE (MPHI_BASE + SZ_4K - 1);
   irq IRQ_HOSTPORT;
   irq IRQ_USB;
   mem ARM_LOCAL_BASE (ARM_LOCAL_BASE + SZ_4K - 1);
   irq IRQ_ARM_LOCAL_MAILBOX1].
Definition bcm2708_usb_device := mkDev "bcm2708_usb" (-1) bcm2708_usb_resources common_mask.

Definition bcm2708_vcio_resources : list resource :=
  [mem ARMCTRL_0_MAIL0_BASE (ARMCTRL_0_MAIL0_BASE + SZ_64 - 1); irq IRQ_ARM_MAILBOX].
Definition bcm2708_vcio_device := mkDev "bcm2835-mbox" (-1) bcm2708_vcio_resources common_mask.
Definition bcm2708_rpifw_device := mkDev "raspberrypi-firmware" 0 [] common_mask.

Definition bcm2708_vchiq_resources : list resource :=
  [mem ARMCTRL_0_BELL_BASE (ARMCTRL_0_BELL_BASE + 16); irq IRQ_ARM_DOORBELL_0].
Definition bcm2708_vchiq_device := mkDev "bcm2835_vchiq" (-1) bcm2708_vchiq_resources common_mask.

Definition bcm2708_gpio_resources : list resource := [mem GPIO_BASE (GPIO_BASE + SZ_4K - 1)].
Definition bcm2708_gpio_device := mkDev "bcm2708_gpio" (-1) bcm2708_gpio_resources common_mask.

Definition bcm2835_emmc_resources : list resource :=
  [mem EMMC_BASE (EMMC_BASE + SZ_256 - 1); irq IRQ_ARASANSDIO].
Definition bcm2835_emmc_device := mkDev "mmc-bcm2835" 0 bcm2835_emmc_resources (Some 0xffffffff).

Definition bcm2708_alsa_devices : list platform_device :=
  [mkDev "bcm2835_AUD0" 0 [] None; mkDev "bcm2835_AUD1" 1 [] None; mkDev "bcm2835_AUD2" 2 [] None;
   mkDev "bcm2835_AUD3" 3 [] None; mkDev "bcm2835_AUD4" 4 [] None; mkDev "bcm2835_AUD5" 5 [] None;
   mkDev "bcm2835_AUD6" 6 [] None; mkDev "bcm2835_AUD7" 7 [] None].

Definition bcm2708_spi_resources : list resource :=
  [mem SPI0_BASE (SPI0_BASE + SZ_256 - 1); irq IRQ_SPI].
Definition bcm2708_spi_device := mkDev "bcm2708_spi" 0 bcm2708_spi_resources common_mask.

(** modalias, max_speed_hz, bus_num, chip_select, mode. *)
Definition bcm2708_spi_devices : list (string * Z * Z * Z * Z) :=
  [("spidev"%string, 500000, 0, 0, 0); ("spidev"%string, 500000, 0, 1, 0)].

Definition bcm2708_bsc0_resources : list resource :=
  [mem BSC0_BASE (BSC0_BASE + SZ_256 - 1); irq INTERRUPT_I2C].
Definition bcm2708_bsc0_device := mkDev "bcm2708_i2c" 0 bcm2708_bsc0_resources None.
Definition bcm2708_bsc1_resources : list resource :=
  [mem BSC1_BASE (BSC1_BASE + SZ_256 - 1); irq INTERRUPT_I2C].
Definition bcm2708_bsc1_device := mkDev "bcm2708_i2c" 1 bcm2708_bsc1_resources None.

Definition bcm2835_thermal_device := mkDev "bcm2835_thermal" 0 [] None.

Definition bcm2708_i2s_resources : list resource :=
  [mem I2S_BASE (I2S_BASE + 0x20); mem PCM_CLOCK_BASE (PCM_CLOCK_BASE + 0x02)].
Definition bcm2708_i2s_device := mkDev "bcm2708-i2s" 0 bcm2708_i2s_resources None.

Definition snd_hifiberry_dac_device := mkDev "snd-hifiberry-dac" 0 [] None.
Definition snd_pcm5102a_codec_device := mkDev "pcm5102a-codec" (-1) [] None.
Definition snd_rpi_hifiberry_dacplus_device := mkDev "snd-rpi-hifiberry-dacplus" 0 [] None.
Definition snd_pcm512x_hbdacplus_i2c_devices : list (string * Z) := [("pcm5122"%string, 0x4d)].
Definition snd_hifiberry_digi_device := mkDev "snd-hifiberry-digi" 0 [] None.
Definition snd_wm8804_i2c_devices : list (string * Z) := [("wm8804"%string, 0x3b)].
Definition snd_hifiberry_amp_device := mkDev "snd-hifiberry-amp" 0 [] None.
Definition snd_tas5713_i2c_devices : list (string * Z) := [("tas5713"%string, 0x1b)].
Definition snd_rpi_dac_device := mkDev "snd-rpi-dac" 0 [] None.
Definition snd_pcm1794a_codec_device := mkDev "pcm1794a-codec" (-1) [] None.
Definition snd_rpi_iqaudio_dac_device := mkDev "snd-rpi-iqaudio-dac" 0 [] None.
Definition snd_pcm512x_i2c_devices : list (string * Z) := [("pcm5122"%string, 0x4c)].

Definition bcm2709_led_device := mkDev "leds-gpio" (-1) [] None.

(** [AMBA_DEVICE(uart0, "dev:f1", UART0, NULL)]: bus id, memory, interrupts. *)
Record amba_device := mkAmba { busid : string; ares : resource; airq : list Z }.
Definition uart0_device : amba_device :=
  mkAmba "dev:f1" (mem UART0_BASE (UART0_BASE + SZ_4K - 1)) [IRQ_UART; 0].
Definition amba_devs : list amba_device := [uart0_device].

(** ** State *)

(** The module parameters that the board only reads. *)
Record params := mkParams {
  uart_clock : Z;
  disk_led_gpio : Z;
  disk_led_active_low : Z;
  w1_gpio_pin : Z;
  w1_gpio_pullup : Z;
  vc_i2c_override : bool;
  pps_gpio_pin : Z;
  boardrev : Z;
  serial : Z;
}.

(** The initial values of the source. *)
Definition params0 : params := mkParams UART0_CLOCK 16 1 4 (u32 (-1)) false (-1) 0 0.

(** What the kernel services answer. *)
Record kernel := mkKernel {
  clk_register_fixed_rate : string -> Z -> option Z;   (* the clock, or none for an error pointer *)
  clk_register_clkdev : option Z -> string -> Z;
  of_platform_populate : Z;
  aux_uart_available : bool;
  audio_available : bool;
}.

(** Calls and register writes, in order. *)
Inductive event :=
  | ClkRegister (name : string) (rate : Z)
  | ClkNotRegistered (name : string)
  | ClkdevRegister (clk : option Z) (name : string)
  | AliasNotRegistered (name : string)
  | OfClkInit
  | OfPlatformPopulate
  | PopulateFailed (ret : Z)
  | RegisterDevice (d : platform_device) (pdata : list Z)
  | I2cBoardInfo (bus : Z) (info : list (string * Z))
  | SpiBoardInfo (info : list (string * Z * Z * Z * Z))
  | AmbaRegister (d : amba_device)
  | ClocksourceOfInit
  | ArchTimerInit
  | SetCpuPossible (cpu : Z)
  | SetSmpCrossCall
  | DmaPoolSize (size : Z)
  | IotableInit (l : list map_desc)
  | SecondaryFailed (cpu t : Z)
  | SecondaryStarted (cpu t timeout : Z)
  | Write (v a : Z).

(** The variables the functions below assign. *)
Record board := mkBoard {
  use_dt : bool;
  reboot_part : Z;
  pm_power_off : bool;          (* set to bcm2709_power_off *)
  system_rev : Z;
  system_serial_low : Z;
}.
Definition board0 : board := mkBoard false 0 false 0 0.

Definition set_use_dt v b := mkBoard v (reboot_part b) (pm_power_off b) (system_rev b) (system_serial_low b).
Definition set_reboot_part v b := mkBoard (use_dt b) v (pm_power_off b) (system_rev b) (system_serial_low b).
Definition set_pm_power_off v b := mkBoard (use_dt b) (reboot_part b) v (system_rev b) (system_serial_low b).
Definition set_system v w b := mkBoard (use_dt b) (reboot_part b) (pm_power_off b) v w.

Section board.
Context {B : Type} `{RegBus B}.
Local Abbreviation P := (M (board * B * list event)).
Variables (K : kernel) (p : params).

Definition ev (e : event) : P unit := modify (fun '(s, b, tr) => (s, b, tr ++ [e])).
Definition var {A} (f : board -> A) : P A := fun '(s, b, tr) => Ok (f s, (s, b, tr)).
Definition setv (f : board -> board) : P unit := modify (fun '(s, b, tr) => (f s, b, tr)).
Definition bwritel (v a : Z) : P unit :=
  modify (fun '(s, b, tr) => (s, bus_write a (u32 v) b, tr ++ [Write (u32 v) a])).
Definition breadl (a : Z) : P Z := fun '(s, b, tr) =>
  let '(v, b') := bus_read a b in Ok (v, (s, b', tr)).

Definition bcm2709_map_io : P unit := ev (IotableInit bcm2709_io_desc).
Definition bcm2709_init_early : P unit := ev (DmaPoolSize SZ_4M).

Definition bcm2709_clk_register (name : string) (fixed_rate : Z) : P (option Z) :=
  ev (ClkRegister name fixed_rate);;
  let clk := clk_register_fixed_rate K name fixed_rate in
  (match clk with None => ev (ClkNotRegistered name) | Some _ => mret tt end);;
  mret clk.

Definition bcm2709_register_clkdev (clk : option Z) (name : string) : P unit :=
  ev (ClkdevRegister clk name);;
  if negb (clk_register_clkdev K clk name =? 0) then ev (AliasNotRegistered name) else mret tt.

Definition bcm2709_init_clocks : P unit :=
  clk ← bcm2709_clk_register "uart0_clk" (uart_clock p);
  bcm2709_register_clkdev clk "dev:f1";;
  clk ← bcm2709_clk_register "sdhost_clk" 250000000;
  bcm2709_register_clkdev clk "mmc-bcm2835.0";;
  bcm2709_register_clkdev clk "bcm2708_spi.0";;
  bcm2709_register_clkdev clk "bcm2708_i2c.0";;
  bcm2709_register_clkdev clk "bcm2708_i2c.1".

(** [platform_device_register]'s result is only printed. *)
Definition bcm_register_device (pdev : platform_device) (pdata : list Z) : P unit :=
  ev (RegisterDevice pdev pdata).
Definition bcm_register_device_dt (pdev : platform_device) (pdata : list Z) : P unit :=
  dt ← var use_dt; if negb dt then bcm_register_device pdev pdata else mret tt.
Definition i2c_register_board_info_dt (busnum : Z) (info : list (string * Z)) : P unit :=
  dt ← var use_dt; if negb dt then ev (I2cBoardInfo busnum info) else mret tt.

(** ** Restart and power-off *)

(** [int] arithmetic on small values. *)
Definition calc_rsts (partition : Z) : Z :=
  let bit i := Z.shiftl (Z.land partition (Z.shiftl 1 i)) i in
  Z.lor (Z.lor (Z.lor (Z.lor (Z.lor (Z.lor PM_PASSWORD (bit 0)) (bit 1)) (bit 2)) (bit 3)) (bit 4)) (bit 5).

(** [mode] and [cmd] are ignored: the branch is taken on the kernel's reboot mode
    character. *)
Definition bcm2709_restart (bcm2708_reboot_mode mode : Z) : P unit :=
  let timeout := 10 in
  pm_rsts ←
    (if bcm2708_reboot_mode =? 113 (* 'q' *) then
       v ← breadl (__io_address PM_RSTS); mret (Z.lor (Z.lor PM_PASSWORD v) PM_RSTS_HADWRQ_SET)
     else if bcm2708_reboot_mode =? 112 (* 'p' *) then
       v ← breadl (__io_address PM_RSTS); mret (Z.lor (Z.lor PM_PASSWORD v) PM_RSTS_HADWRH_SET)
     else
       rp ← var reboot_part; mret (u32 (calc_rsts (i32 rp))));
  bwritel pm_rsts (__io_address PM_RSTS);;
  pm_rstc ← breadl (__io_address PM_RSTC);
  let pm_wdog := Z.lor PM_PASSWORD (Z.land timeout PM_WDOG_TIME_SET) in
  let pm_rstc := Z.lor (Z.lor PM_PASSWORD (Z.land pm_rstc PM_RSTC_WRCFG_CLR)) PM_RSTC_WRCFG_FULL_RESET in
  bwritel pm_wdog (__io_address PM_WDOG);;
  bwritel pm_rstc (__io_address PM_RSTC).

Definition bcm2709_power_off (bcm2708_reboot_mode : Z) : P unit :=
  if bcm2708_reboot_mode =? 113 then bcm2709_restart bcm2708_reboot_mode 112
  else
    setv (set_reboot_part 63);;
    bcm2709_restart bcm2708_reboot_mode 0.

(** ** Start-up *)

Definition bcm2709_init_uart1 : P unit :=
  if aux_uart_available K then bwritel 1 (__io_address (UART1_BASE + 0x4)) else mret tt.

Definition bcm2709_dt_init : P unit :=
  ev OfClkInit;;
  ev OfPlatformPopulate;;
  let ret := of_platform_populate K in
  if negb (ret =? 0) then ev (PopulateFailed ret) else setv (set_use_dt true).

(** [active_low] is a one-bit field. *)
Definition bcm2709_init_led : P unit :=
  bcm_register_device_dt bcm2709_led_device [disk_led_gpio p; disk_led_active_low p mod 2].

Fixpoint register_all (l : list platform_device) : P unit :=
  match l with
  | [] => mret tt
  | d :: l' => bcm_register_device d [];; register_all l'
  end.

Fixpoint amba_register_all (l : list amba_device) : P unit :=
  match l with
  | [] => mret tt
  | d :: l' => ev (AmbaRegister d);; amba_register_all l'
  end.

Definition register_i2c : P unit :=
  if vc_i2c_override p then
    bcm_register_device_dt bcm2708_bsc0_device [];;
    bcm_register_device_dt bcm2708_bsc1_device []
  else if (Z.land (boardrev p) 0xffffff =? 0x2) || (Z.land (boardrev p) 0xffffff =? 0x3) then
    bcm_register_device_dt bcm2708_bsc0_device []
  else bcm_register_device_dt bcm2708_bsc1_device [].

Definition register_sound : P unit :=
  bcm_register_device_dt bcm2708_i2s_device [];;
  bcm_register_device_dt snd_hifiberry_dac_device [];;
  bcm_register_device_dt snd_pcm5102a_codec_device [];;
  bcm_register_device_dt snd_rpi_hifiberry_dacplus_device [];;
  i2c_register_board_info_dt 1 snd_pcm512x_hbdacplus_i2c_devices;;
  bcm_register_device_dt snd_hifiberry_digi_device [];;
  i2c_register_board_info_dt 1 snd_wm8804_i2c_devices;;
  bcm_register_device_dt snd_hifiberry_amp_device [];;
  i2c_register_board_info_dt 1 snd_tas5713_i2c_devices;;
  bcm_register_device_dt snd_rpi_dac_device [];;
  bcm_register_device_dt snd_pcm1794a_codec_device [];;
  bcm_register_device_dt snd_rpi_iqaudio_dac_device [];;
  i2c_register_board_info_dt 1 snd_pcm512x_i2c_devices.

Definition bcm2709_init : P unit :=
  setv (set_pm_power_off true);;
  bcm2709_init_clocks;;
  bcm2709_dt_init;;
  bcm_register_device_dt bcm2708_dmaengine_device [];;
  bcm_register_device_dt bcm2708_vcio_device [];;
  bcm_register_device_dt bcm2708_rpifw_device [];;
  bcm_register_device_dt bcm2708_vchiq_device [];;
  bcm_register_device_dt bcm2708_gpio_device [];;
  dt ← var use_dt;
  (if negb dt && (0 <=? pps_gpio_pin p)
   then bcm_register_device (pps_gpio_device (pps_gpio_pin p)) [pps_gpio_pin p] else mret tt);;
  bcm_register_device_dt w1_device [w1_gpio_pin p; w1_gpio_pullup p];;
  bcm_register_device_dt bcm2708_fb_device [];;
  bcm_register_device_dt bcm2708_usb_device [];;
  bcm_register_device_dt bcm2835_emmc_device [];;
  bcm2709_init_led;;
  bcm2709_init_uart1;;
  dt ← var use_dt;
  (if negb dt || negb (audio_available K) then register_all bcm2708_alsa_devices else mret tt);;
  bcm_register_device_dt bcm2708_spi_device [];;
  register_i2c;;
  bcm_register_device_dt bcm2835_thermal_device [];;
  register_sound;;
  dt ← var use_dt;
  (if negb dt then amba_register_all amba_devs else mret tt);;
  setv (set_system (boardrev p) (serial p));;
  if negb dt then ev (SpiBoardInfo bcm2708_spi_devices) else mret tt.

Definition bcm2709_timer_init : P unit :=
  dt ← var use_dt;
  (if (dt : bool) then ev OfClkInit;; ev ClocksourceOfInit else ev ArchTimerInit);;
  bwritel 0 (__io_address ARM_LOCAL_CONTROL);;
  bwritel 0x80000000 (__io_address ARM_LOCAL_PRESCALER).

(** ** The other cores *)

Definition MPIDR_LEVEL_BITS : Z := 8.
Definition MPIDR_LEVEL_MASK : Z := Z.shiftl 1 MPIDR_LEVEL_BITS - 1.
Definition MPIDR_AFFINITY_LEVEL (mpidr level : Z) : Z :=
  Z.land (Z.shiftr mpidr (MPIDR_LEVEL_BITS * level)) MPIDR_LEVEL_MASK.

(** [cpu_logical_map]: from the kernel's numbers of the cores to their MPIDR;
    [secondary_startup]: the physical address of the entry point. *)
Variables (cpu_logical_map : Z -> Z) (secondary_startup : Z).

(** [mask] lists the cpus that [for_each_cpu] visits. *)
Fixpoint bcm2835_send_doorbell (mask : list Z) (irq : Z) : P unit :=
  match mask with
  | [] => mret tt
  | cpu :: mask' =>
      m ← lift (shl32 1 irq);
      bwritel m (__io_address (ARM_LOCAL_MAILBOX0_SET0 +
        0x10 * MPIDR_AFFINITY_LEVEL (cpu_logical_map cpu) 0));;
      bcm2835_send_doorbell mask' irq
  end.

Fixpoint init_cpus_loop (cpus : list Z) : P unit :=
  match cpus with
  | [] => mret tt
  | i :: cpus' =>
      ev (SetCpuPossible i);;
      bwritel 0x1 (__io_address (ARM_LOCAL_MAILBOX_INT_CONTROL0 + 0x4 * i));;
      init_cpus_loop cpus'
  end.
Definition bcm2709_smp_init_cpus : P unit :=
  let ncores := 4 in
  init_cpus_loop (seqZ 0 ncores);;
  ev SetSmpCrossCall.

(** [while (--timeout > 0) { t = readl(mbox_clr); if (t == 0) break; }]: the
    values of [t] and [timeout] at the end. *)
Fixpoint poll_mbox (timeout : nat) (t mbox_clr : Z) : P (Z * Z) :=
  match timeout with
  | O => mret (t, -1)
  | S timeout' =>
      if Nat.ltb 0 timeout' then
        t ← breadl mbox_clr;
        if t =? 0 then mret (t, Z.of_nat timeout') else poll_mbox timeout' t mbox_clr
      else mret (t, Z.of_nat timeout')
  end.

Definition bcm2709_boot_secondary (cpu : Z) : P Z :=
  let mbox_set := __io_address (ARM_LOCAL_MAILBOX3_SET0 + 0x10 * MPIDR_AFFINITY_LEVEL (cpu_logical_map cpu) 0) in
  let mbox_clr := __io_address (ARM_LOCAL_MAILBOX3_CLR0 + 0x10 * MPIDR_AFFINITY_LEVEL (cpu_logical_map cpu) 0) in
  v ← breadl mbox_clr;
  (if negb (v =? 0) then die KernelBug else mret tt);;
  bwritel secondary_startup mbox_set;;
  r ← poll_mbox 20 (u32 (-1)) mbox_clr;
  let '(t, timeout) := r in
  (if timeout =? 0 then ev (SecondaryFailed cpu t) else ev (SecondaryStarted cpu t timeout));;
  mret 0.
End board.

(** * Lemmas *)

(** ** The I/O map *)

Definition in_window (a : Z) (m : map_desc) : Prop := virtual m <= a < virtual m + maplen m.
#[global] Instance in_window_dec a m : Decision (in_window a m).
Proof. unfold in_window. apply _. Defined.

Definition apart (l1 n1 l2 n2 : Z) : bool := (l1 + n1 <=? l2) || (l2 + n2 <=? l1).

(** All ordered pairs of a list, by position. *)
Fixpoint all_pairs {A} (P : A -> A -> bool) (l : list A) : bool :=
  match l with
  | [] => true
  | x :: l' => forallb (P x) l' && all_pairs P l'
  end.

Lemma all_pairs_spec {A} (P : A -> A -> bool) l i j x y :
  all_pairs P l = true -> (i < j)%nat -> l !! i = Some x -> l !! j = Some y -> P x y = true.
Proof.
  revert i j. induction l as [|z l IH]; intros i j Hp Hij Hx Hy; [done|].
  cbn in Hp. apply andb_true_iff in Hp as [Hz Hp]. destruct j as [|j]; [lia|]. destruct i as [|i].
  - injection Hx as ->. rewrite forallb_forall in Hz. apply Hz, list_elem_of_In, list_elem_of_lookup. eauto.
  - apply (IH i j); [done | lia | done | done].
Qed.

(** The registers that the board code and the drivers it starts use. *)
Definition board_registers : list Z :=
  [ARM_IRQ_FAST; ARM_IRQ_ENBL1; ARM_IRQ_ENBL2; ARM_IRQ_ENBL3; ARM_IRQ_DIBL1; ARM_IRQ_DIBL2; ARM_IRQ_DIBL3;
   ARM_LOCAL_CONTROL; ARM_LOCAL_PRESCALER; ARM_LOCAL_GPU_INT_ROUTING; ARM_LOCAL_PM_ROUTING_SET;
   ARM_LOCAL_PM_ROUTING_CLR; PM_RSTC; PM_RSTS; PM_WDOG; UART1_BASE + 0x4] ++
  ((fun i => ARM_LOCAL_TIMER_INT_CONTROL0 + 4 * i) <$> seqZ 0 4) ++
  ((fun i => ARM_LOCAL_MAILBOX_INT_CONTROL0 + 4 * i) <$> seqZ 0 4) ++
  ((fun i => ARM_LOCAL_MAILBOX0_SET0 + 0x10 * i) <$> seqZ 0 4) ++
  ((fun i => ARM_LOCAL_MAILBOX3_SET0 + 0x10 * i) <$> seqZ 0 4) ++
  ((fun i => ARM_LOCAL_MAILBOX3_CLR0 + 0x10 * i) <$> seqZ 0 4) ++
  ((fun i => GPIO_BASE + 4 * i) <$> seqZ 0 40).

(** ** Running the board code *)

Section run.
Context {B : Type} `{RegBus B}.
Variables (K : kernel) (p : params).
Local Abbreviation St := (board * B * list event)%type.

Lemma ev_bind {A} e (k : unit -> M St A) s b tr : (ev e ≫= k) (s, b, tr) = k tt (s, b, tr ++ [e]).
Proof. done. Qed.
Lemma var_bind {A C} (f : board -> A) (k : A -> M St C) s (b : B) tr :
  (var f ≫= k) (s, b, tr) = k (f s) (s, b, tr).
Proof. done. Qed.
Lemma setv_bind {A} f (k : unit -> M St A) s b tr : (setv f ≫= k) (s, b, tr) = k tt (f s, b, tr).
Proof. done. Qed.
Lemma write_bind {A} v a (k : unit -> M St A) s b tr :
  (bwritel v a ≫= k) (s, b, tr) = k tt (s, bus_write a (u32 v) b, tr ++ [Write (u32 v) a]).
Proof. done. Qed.
Lemma read_bind {A} a (k : Z -> M St A) s b tr :
  (breadl a ≫= k) (s, b, tr) = k (peek a b) (s, snd (bus_read a b), tr).
Proof. rewrite Mbind_unfold. unfold breadl, peek. by destruct (bus_read a b). Qed.

(** A step that only adds events. *)
Definition emits (m : M St unit) (s : board) (es : list event) : Prop :=
  forall b tr, m (s, b, tr) = Ok (tt, (s, b, tr ++ es)).

Lemma emits_bind {A} m (k : unit -> M St A) s es b tr :
  emits m s es -> (m ≫= k) (s, b, tr) = k tt (s, b, tr ++ es).
Proof. intros Hm. by rewrite Mbind_unfold, Hm. Qed.

Lemma emits_seq m1 m2 s es1 es2 : emits m1 s es1 -> emits m2 s es2 -> emits (m1;; m2) s (es1 ++ es2).
Proof. intros H1 H2 b tr. rewrite (emits_bind _ _ _ _ _ _ H1), H2. by rewrite app_assoc. Qed.

Lemma emits_ret s : emits (mret tt) s [].
Proof. intros b tr. unfold mret, M_ret. by rewrite app_nil_r. Qed.
Lemma emits_ev e s : emits (ev e) s [e].
Proof. done. Qed.

Lemma emits_if (c : bool) m1 m2 s es1 es2 :
  emits m1 s es1 -> emits m2 s es2 -> emits (if c then m1 else m2) s (if c then es1 else es2).
Proof. by destruct c. Qed.

Lemma emits_dt d pd s :
  emits (bcm_register_device_dt d pd) s (if use_dt s then [] else [RegisterDevice d pd]).
Proof.
  intros b tr. unfold bcm_register_device_dt. rewrite var_bind. destruct (use_dt s); [|done].
  apply emits_ret.
Qed.

Lemma reg_bind {A} d pd (k : unit -> M St A) s b tr :
  (bcm_register_device d pd ≫= k) (s, b, tr) = k tt (s, b, tr ++ [RegisterDevice d pd]).
Proof. done. Qed.

Lemma emits_i2c n l s :
  emits (i2c_register_board_info_dt n l) s (if use_dt s then [] else [I2cBoardInfo n l]).
Proof.
  intros b tr. unfold i2c_register_board_info_dt. rewrite var_bind. destruct (use_dt s); [|done].
  apply emits_ret.
Qed.

Lemma emits_all l s : emits (register_all l) s ((fun d => RegisterDevice d []) <$> l).
Proof.
  induction l as [|d l IH]; [apply emits_ret|]. exact (emits_seq _ _ _ _ _ (emits_ev _ _) IH).
Qed.

(** The events of the clock set-up. *)
Definition clk_events (n : string) (rate : Z) (aliases : list string) : list event :=
  let clk := clk_register_fixed_rate K n rate in
  ClkRegister n rate :: (if clk is Some _ then [] else [ClkNotRegistered n]) ++
  concat ((fun a => ClkdevRegister clk a ::
            (if clk_register_clkdev K clk a =? 0 then [] else [AliasNotRegistered a])) <$> aliases).

Lemma emits_clkdev clk a s :
  emits (bcm2709_register_clkdev K clk a) s
    (ClkdevRegister clk a :: (if clk_register_clkdev K clk a =? 0 then [] else [AliasNotRegistered a])).
Proof.
  refine (emits_seq _ _ _ [_] _ (emits_ev _ _) _).
  destruct (clk_register_clkdev K clk a =? 0); [apply emits_ret | apply emits_ev].
Qed.

Lemma clk_register_bind {A} n rate (k : option Z -> M St A) s b tr :
  (bcm2709_clk_register K n rate ≫= k) (s, b, tr) =
    k (clk_register_fixed_rate K n rate) (s, b, tr ++ ClkRegister n rate ::
       (if clk_register_fixed_rate K n rate is Some _ then [] else [ClkNotRegistered n])).
Proof.
  unfold bcm2709_clk_register. rewrite Mbind_assoc, ev_bind, Mbind_assoc.
  destruct (clk_register_fixed_rate K n rate).
  - by rewrite !Mbind_ret.
  - rewrite ev_bind, Mbind_ret. by rewrite <- app_assoc.
Qed.

Definition clock_trace : list event :=
  clk_events "uart0_clk" (uart_clock p) ["dev:f1"%string] ++
  clk_events "sdhost_clk" 250000000
    ["mmc-bcm2835.0"; "bcm2708_spi.0"; "bcm2708_i2c.0"; "bcm2708_i2c.1"]%string.

Lemma emits_clocks s :
  emits (bcm2709_init_clocks K p) s clock_trace.
Proof.
  intros b tr. unfold bcm2709_init_clocks. rewrite clk_register_bind.
  rewrite (emits_bind _ _ _ _ _ _ (emits_clkdev _ _ _)), clk_register_bind.
  rewrite !(emits_bind _ _ _ _ _ _ (emits_clkdev _ _ _)), emits_clkdev.
  unfold clock_trace, clk_events. cbn [fmap list_fmap concat]. rewrite !app_nil_r, <- !app_assoc. cbn [app].
  by rewrite <- !app_assoc.
Qed.

(** What [bcm2709_init] registers when there is no device tree: before and after
    the mini UART's enable bit is written. *)
Definition devices1 : list event :=
  [RegisterDevice bcm2708_dmaengine_device []; RegisterDevice bcm2708_vcio_device [];
   RegisterDevice bcm2708_rpifw_device []; RegisterDevice bcm2708_vchiq_device [];
   RegisterDevice bcm2708_gpio_device []] ++
  (if 0 <=? pps_gpio_pin p then [RegisterDevice (pps_gpio_device (pps_gpio_pin p)) [pps_gpio_pin p]] else []) ++
  [RegisterDevice w1_device [w1_gpio_pin p; w1_gpio_pullup p]; RegisterDevice bcm2708_fb_device [];
   RegisterDevice bcm2708_usb_device []; RegisterDevice bcm2835_emmc_device [];
   RegisterDevice bcm2709_led_device [disk_led_gpio p; disk_led_active_low p mod 2]].

Definition alsa_events : list event := (fun d => RegisterDevice d []) <$> bcm2708_alsa_devices.

(** The I2C controllers of a board revision. *)
Definition i2c_devices : list platform_device :=
  if vc_i2c_override p then [bcm2708_bsc0_device; bcm2708_bsc1_device]
  else if bool_decide (boardrev p mod 2 ^ 24 = 2 \/ boardrev p mod 2 ^ 24 = 3) then [bcm2708_bsc0_device]
  else [bcm2708_bsc1_device].

Definition sound_events : list event :=
  [RegisterDevice bcm2708_i2s_device []; RegisterDevice snd_hifiberry_dac_device [];
   RegisterDevice snd_pcm5102a_codec_device []; RegisterDevice snd_rpi_hifiberry_dacplus_device [];
   I2cBoardInfo 1 snd_pcm512x_hbdacplus_i2c_devices; RegisterDevice snd_hifiberry_digi_device [];
   I2cBoardInfo 1 snd_wm8804_i2c_devices; RegisterDevice snd_hifiberry_amp_device [];
   I2cBoardInfo 1 snd_tas5713_i2c_devices; RegisterDevice snd_rpi_dac_device [];
   RegisterDevice snd_pcm1794a_codec_device []; RegisterDevice snd_rpi_iqaudio_dac_device [];
   I2cBoardInfo 1 snd_pcm512x_i2c_devices].

Definition devices2 : list event :=
  alsa_events ++ [RegisterDevice bcm2708_spi_device []] ++ ((fun d => RegisterDevice d []) <$> i2c_devices) ++
  [RegisterDevice bcm2835_thermal_device []] ++ sound_events ++ [AmbaRegister uart0_device].

Lemma emits_register_i2c s :
  emits (register_i2c p) s (if use_dt s then [] else (fun d => RegisterDevice d []) <$> i2c_devices).
Proof.
  assert ((Z.land (boardrev p) 0xffffff =? 0x2) || (Z.land (boardrev p) 0xffffff =? 0x3) =
    bool_decide (boardrev p mod 2 ^ 24 = 2 \/ boardrev p mod 2 ^ 24 = 3)) as E.
  { change 0xffffff with (Z.ones 24). rewrite Z.land_ones by lia. apply eq_true_iff_eq.
    rewrite orb_true_iff, !Z.eqb_eq, bool_decide_eq_true. done. }
  unfold register_i2c, i2c_devices. rewrite E.
  pose proof (emits_dt bcm2708_bsc0_device [] s) as E0. pose proof (emits_dt bcm2708_bsc1_device [] s) as E1.
  destruct (vc_i2c_override p); [|destruct (bool_decide _)].
  - pose proof (emits_seq _ _ _ _ _ E0 E1) as E01. by destruct (use_dt s).
  - by destruct (use_dt s).
  - by destruct (use_dt s).
Qed.

Lemma emits_sound s : emits register_sound s (if use_dt s then [] else sound_events).
Proof.
  intros b tr. unfold register_sound.
  repeat first [rewrite (emits_bind _ _ _ _ _ _ (emits_dt _ _ _))
               | rewrite (emits_bind _ _ _ _ _ _ (emits_i2c _ _ _)) | rewrite emits_i2c].
  destruct (use_dt s); [by rewrite !app_nil_r|]. by rewrite <- !app_assoc.
Qed.

(** After the device tree was tried. *)
Definition populated : bool := of_platform_populate K =? 0.

Lemma dt_init_bind {A} (k : unit -> M St A) s b tr :
  (bcm2709_dt_init K ≫= k) (s, b, tr) =
    k tt (if populated then set_use_dt true s else s, b,
          tr ++ [OfClkInit; OfPlatformPopulate] ++
          (if populated then [] else [PopulateFailed (of_platform_populate K)])).
Proof.
  unfold bcm2709_dt_init, populated. rewrite Mbind_assoc, ev_bind, Mbind_assoc, ev_bind.
  destruct (_ =? 0); cbn [negb]; [rewrite setv_bind | rewrite ev_bind]; by rewrite <- !app_assoc.
Qed.

Lemma uart1_bind {A} (k : unit -> M St A) s b tr :
  (bcm2709_init_uart1 K ≫= k) (s, b, tr) =
    k tt (s, (if aux_uart_available K then bus_write (__io_address (UART1_BASE + 4)) 1 b else b),
          tr ++ (if aux_uart_available K then [Write 1 (__io_address (UART1_BASE + 4))] else [])).
Proof.
  unfold bcm2709_init_uart1. destruct (aux_uart_available K); [by rewrite write_bind|].
  by rewrite Mbind_ret, app_nil_r.
Qed.

Definition final (s : board) : board :=
  mkBoard (use_dt s || populated) (reboot_part s) true (boardrev p) (serial p).

Definition init_trace : list event :=
  let uart1 := if aux_uart_available K then [Write 1 (__io_address (UART1_BASE + 4))] else [] in
  clock_trace ++ [OfClkInit; OfPlatformPopulate] ++
  if populated then uart1 ++ (if audio_available K then [] else alsa_events)
  else [PopulateFailed (of_platform_populate K)] ++ devices1 ++ uart1 ++ devices2 ++
       [SpiBoardInfo bcm2708_spi_devices].

Ltac board_step :=
  first [rewrite (emits_bind _ _ _ _ _ _ (emits_dt _ _ _)) | rewrite var_bind | rewrite setv_bind
        | rewrite dt_init_bind | rewrite uart1_bind | rewrite (emits_bind _ _ _ _ _ _ (emits_all _ _))
        | rewrite (emits_bind _ _ _ _ _ _ (emits_clocks _)) | rewrite ev_bind | rewrite reg_bind | rewrite Mbind_ret | rewrite Mbind_assoc
        | rewrite (emits_bind _ _ _ _ _ _ (emits_register_i2c _)) | rewrite (emits_bind _ _ _ _ _ _ (emits_sound _))].

Ltac board_cbn := progress cbn [use_dt set_use_dt set_pm_power_off negb andb orb amba_register_all amba_devs].

Lemma bcm2709_init_run s b tr :
  use_dt s = false ->
  bcm2709_init K p (s, b, tr) =
    Ok (tt, (final s, (if aux_uart_available K then bus_write (__io_address (UART1_BASE + 4)) 1 b else b),
             tr ++ init_trace)).
Proof.
  intros Hs. unfold bcm2709_init, init_trace, final, bcm2709_init_led. destruct s as [dt rp po sr sl]. cbn in Hs. subst dt.
  do 3 board_step. generalize clock_trace. intros ct. destruct populated; cbn [set_use_dt set_pm_power_off use_dt reboot_part pm_power_off system_rev system_serial_low orb].
  - repeat (board_step || board_cbn). destruct (audio_available K); cbn [negb];
      repeat (board_step || board_cbn);
      unfold mret, M_ret, set_system; cbn; by rewrite ?app_nil_r, <- ?app_assoc.
  - repeat (board_step || board_cbn).
    destruct (0 <=? pps_gpio_pin p) eqn:Epps; repeat (board_step || board_cbn);
      unfold devices1, devices2; rewrite Epps; unfold ev, modify, set_system; cbn [reboot_part pm_power_off];
      do 3 f_equal; by rewrite <- !app_assoc.
Qed.
End run.

(** ** What a trace claims *)

Definition event_resources (e : event) : list resource :=
  match e with
  | RegisterDevice d _ => resources d
  | AmbaRegister d => ares d :: (irq <$> List.filter (fun n => negb (n =? 0)) (airq d))
  | _ => []
  end.
Definition claimed (flags : Z) (tr : list event) : list resource :=
  List.filter (fun r => rflags r =? flags) (concat (event_resources <$> tr)).

Lemma claimed_app f t1 t2 : claimed f (t1 ++ t2) = claimed f t1 ++ claimed f t2.
Proof. unfold claimed. by rewrite fmap_app, concat_app, List.filter_app. Qed.

Lemma claimed_clocks K p f : claimed f (clock_trace K p) = [].
Proof.
  unfold clock_trace, clk_events. rewrite claimed_app. cbn [fmap list_fmap concat app].
  repeat case_match; reflexivity.
Qed.

(** The devices that a board without device tree gets, by its I2C controllers. *)
Definition nodt_claims (f : Z) (i2c : list platform_device) : list resource :=
  claimed f [RegisterDevice bcm2708_dmaengine_device []; RegisterDevice bcm2708_vcio_device [];
    RegisterDevice bcm2708_rpifw_device []; RegisterDevice bcm2708_vchiq_device [];
    RegisterDevice bcm2708_gpio_device []; RegisterDevice bcm2708_usb_device [];
    RegisterDevice bcm2835_emmc_device []; RegisterDevice bcm2708_spi_device []] ++
  claimed f ((fun d => RegisterDevice d []) <$> i2c) ++
  claimed f [RegisterDevice bcm2708_i2s_device []; AmbaRegister uart0_device].

Lemma init_claims K p f :
  f = IORESOURCE_MEM \/ f = IORESOURCE_IRQ ->
  claimed f (init_trace K p) = if populated K then [] else nodt_claims f (i2c_devices p).
Proof.
  intros Hf. unfold init_trace, nodt_claims. rewrite !claimed_app, claimed_clocks. destruct (populated K).
  - rewrite claimed_app. by destruct Hf as [-> | ->], (aux_uart_available K), (audio_available K).
  - unfold devices1, devices2. rewrite !claimed_app.
    assert (claimed f (if aux_uart_available K then [Write 1 (__io_address (UART1_BASE + 4))] else []) = []) as ->
      by (by destruct (aux_uart_available K)).
    assert (claimed f (if 0 <=? pps_gpio_pin p
      then [RegisterDevice (pps_gpio_device (pps_gpio_pin p)) [pps_gpio_pin p]] else []) = []) as ->
      by (by destruct (0 <=? pps_gpio_pin p)).
    generalize (claimed f ((fun d => RegisterDevice d []) <$> i2c_devices p)). intros l.
    destruct Hf as [-> | ->]; cbv -[app]; by rewrite ?app_nil_r, <- ?app_assoc.
Qed.

(** ** Restart *)

Lemma calc_rsts_spec p i :
  0 <= i ->
  Z.testbit (calc_rsts p) i =
    if decide (i <= 10 /\ i mod 2 = 0) then Z.testbit p (i / 2) else Z.testbit PM_PASSWORD i.
Proof.
  intros Hi. unfold calc_rsts.
  assert (forall k, 0 <= k -> Z.testbit (Z.shiftl (Z.land p (Z.shiftl 1 k)) k) i =
    bool_decide (i = 2 * k) && Z.testbit p k) as Hb.
  { intros k Hk. rewrite Z.shiftl_spec, Z.land_spec, Z.shiftl_1_l, testbit_pow2 by lia.
    destruct (decide (i = 2 * k)) as [->|Hne].
    - replace (2 * k - k) with k by lia. rewrite !bool_decide_eq_true_2 by done. by rewrite andb_true_r.
    - rewrite !bool_decide_eq_false_2 by lia. by rewrite andb_false_r. }
  rewrite !Z.lor_spec, !Hb by lia. case_decide as Hc.
  - destruct Hc as [Hle Hm].
    assert (i = 0 \/ i = 2 \/ i = 4 \/ i = 6 \/ i = 8 \/ i = 10) as Hcases by dlia.
    destruct Hcases as [->|[->|[->|[->|[->| ->]]]]]; cbn; by rewrite ?orb_false_r.
  - rewrite !bool_decide_eq_false_2 by (intros ->; apply Hc; split; [lia | dlia]).
    by rewrite !orb_false_r.
Qed.


Section restart_lemmas.
Context {B : Type} `{PlainRegs B plain}.

(** The word that [restart] puts into the reset status register. *)
Definition rsts_word (m old part : Z) : Z :=
  if m =? 113 then Z.lor (Z.lor PM_PASSWORD old) PM_RSTS_HADWRQ_SET
  else if m =? 112 then Z.lor (Z.lor PM_PASSWORD old) PM_RSTS_HADWRH_SET
  else calc_rsts part.

Definition rstc_word (old : Z) : Z :=
  Z.lor (Z.lor PM_PASSWORD (Z.land old PM_RSTC_WRCFG_CLR)) PM_RSTC_WRCFG_FULL_RESET.

Lemma rstc_u32 old : is_u 32 old -> u32 (rstc_word old) = rstc_word old.
Proof.
  intros Ho. apply (wrapu_small 32). unfold rstc_word.
  apply is_u_lor; [lia| |done]. apply is_u_lor; [lia|done|]. apply is_u_land_l; [lia|done|done].
Qed.

Lemma calc_rsts_i32 part : calc_rsts (i32 part) = calc_rsts part.
Proof.
  apply Z.bits_inj'. intros i Hi. rewrite !calc_rsts_spec by done. case_decide as Hc; [|done].
  rewrite <- (Z.mod_pow2_bits_low (i32 part) 32), <- (Z.mod_pow2_bits_low part 32) by dlia.
  fold (u32 (i32 part)) (u32 part). by rewrite wrapu_wraps.
Qed.

Lemma calc_rsts_u32 part : u32 (calc_rsts (i32 part)) = calc_rsts part.
Proof.
  rewrite calc_rsts_i32. apply (wrapu_small 32), is_u_bits; [lia| |].
  - unfold calc_rsts. rewrite !Z.lor_nonneg. repeat split; try done; apply Z.shiftl_nonneg, Z.land_nonneg; right;
      by apply Z.shiftl_nonneg.
  - intros i Hi. rewrite calc_rsts_spec, decide_False by lia.
    apply (testbit_high 32); [lia | done | done].
Qed.

Lemma restart_run m mode s (b : B) tr :
  plain (__io_address PM_RSTS) -> plain (__io_address PM_RSTC) ->
  exists b', bcm2709_restart m mode (s, b, tr) =
    Ok (tt, (s, b', tr ++ [Write (rsts_word m (peek (__io_address PM_RSTS) b) (reboot_part s)) (__io_address PM_RSTS);
                           Write 0x5a00000a (__io_address PM_WDOG);
                           Write (rstc_word (peek (__io_address PM_RSTC) b)) (__io_address PM_RSTC)])).
Proof.
  intros Hs Hc. unfold bcm2709_restart. set (rsts := rsts_word _ _ _).
  set (first_part := (if m =? 113 then _ else _) : M (board * B * list event) Z).
  assert (exists b1, first_part (s, b, tr) = Ok (rsts, (s, b1, tr)) /\ u32 rsts = rsts /\
    peek (__io_address PM_RSTC) b1 = peek (__io_address PM_RSTC) b) as (b1 & E1 & Eu & Ep).
  { assert (is_u 32 (peek (__io_address PM_RSTS) b)) as Hu by (by apply peek_u32).
    unfold first_part, rsts, rsts_word. destruct (m =? 113); [|destruct (m =? 112)].
    - rewrite read_bind. eexists. split; [done|]. split; [|by apply peek_read].
      apply (wrapu_small 32), is_u_lor; [lia | by apply is_u_lor | done].
    - rewrite read_bind. eexists. split; [done|]. split; [|by apply peek_read].
      apply (wrapu_small 32), is_u_lor; [lia | by apply is_u_lor | done].
    - rewrite var_bind, calc_rsts_u32. eexists. split; [done|]. split; [|done].
      rewrite <- calc_rsts_u32. by rewrite wrapu_idemp. }
  rewrite (Mbind_run _ _ _ _ _ E1), write_bind, read_bind, write_bind, Eu.
  rewrite peek_write_other, Ep by (done || (vm_compute; discriminate)).
  eexists. unfold bwritel at 1, modify. fold (rstc_word (peek (__io_address PM_RSTC) b)).
  rewrite rstc_u32 by (by apply peek_u32). by rewrite <- !app_assoc.
Qed.
End restart_lemmas.

(** ** The other cores *)

Section smp_lemmas.
Context {B : Type} `{RegBus B}.
Local Abbreviation St := (board * B * list event)%type.

(** The next [n] values read at [a], and the bus after them. *)
Fixpoint reads (n : nat) (a : Z) (b : B) : list Z * B :=
  match n with
  | O => ([], b)
  | S n' => let '(v, b1) := bus_read a b in let '(l, b2) := reads n' a b1 in (v :: l, b2)
  end.

Lemma reads_length n a (b : B) : length (fst (reads n a b)) = n.
Proof.
  revert b. induction n as [|n IH]; intros b; [done|]. cbn [reads]. destruct (bus_read a b) as [v b1].
  specialize (IH b1). destruct (reads n a b1). cbn in *. by f_equal.
Qed.

(** How a poll that may read [n] times ends: after [k] reads, all but the last of which
    were not 0, with the last value read and the reads that were left, where the last
    of the [n] counts as the end of the time. *)
Definition stops_after (n k : nat) (a : Z) (b : B) (v : Z) : Prop :=
  (1 <= k <= n)%nat /\ (forall i w, fst (reads k a b) !! i = Some w -> w = 0 -> i = (k - 1)%nat) /\
  last (fst (reads k a b)) = Some v /\ (v = 0 \/ k = n).

Lemma poll_run n t a s (b : B) tr : (0 < n)%nat ->
  exists k v, stops_after n k a b v /\
    poll_mbox (S n) t a (s, b, tr) =
      Ok ((v, if v =? 0 then Z.of_nat (S n - k) else 0), (s, snd (reads k a b), tr)).
Proof.
  revert t b. induction n as [|n IH]; intros t b Hn; [lia|].
  change (poll_mbox (S (S n)) t a) with
    (t ← breadl a; if t =? 0 then mret (t, Z.of_nat (S n)) else poll_mbox (S n) t a : M St (Z * Z)).
  rewrite read_bind. unfold peek. destruct (bus_read a b) as [v b1] eqn:Eb. cbn [fst snd].
  assert (reads 1 a b = ([v], b1)) as E1 by (cbn [reads]; by rewrite Eb).
  assert (stops_after (S n) 1 a b v \/ v <> 0) as Hone.
  { destruct (decide (v = 0)) as [->|]; [left|by right]. unfold stops_after. rewrite E1.
    split_and!; [lia|lia| |done|by left]. intros [|i] w Hi _; [done|by destruct i]. }
  destruct (Z.eqb_spec v 0) as [->|Hv].
  - destruct Hone as [Hone|]; [|done]. exists 1%nat, 0. rewrite E1. split; [done|].
    cbn [snd Z.eqb]. by rewrite Nat.sub_1_r.
  - destruct n as [|n].
    + exists 1%nat, v. rewrite E1. rewrite (proj2 (Z.eqb_neq v 0) Hv). split; [|done].
      unfold stops_after. rewrite E1. split_and!; [lia|lia| |done|by right].
      intros [|i] w Hi _; [done|by destruct i].
    + destruct (IH v b1 ltac:(lia)) as (k & w & (Hk & Hz & Hl & Hend) & E).
      assert (reads (S k) a b = (v :: fst (reads k a b1), snd (reads k a b1))) as ES
        by (cbn [reads]; rewrite Eb; by destruct (reads k a b1)).
      exists (S k), w. rewrite ES, E. cbn [snd]. split; [|done]. unfold stops_after. rewrite ES. cbn [fst].
      split_and!; [lia|lia| | |destruct Hend; [by left|right; lia]].
      * intros [|i] x; [intros [= <-] ->; done|]. intros Hi Hx. rewrite (Hz i x Hi Hx). lia.
      * rewrite last_cons, Hl. done.
Qed.

(** The events of the loop over the cores. *)
Lemma init_cpus_run cpus s (b : B) tr :
  init_cpus_loop cpus (s, b, tr) =
    let a i := __io_address (ARM_LOCAL_MAILBOX_INT_CONTROL0 + 0x4 * i) in
    Ok (tt, (s, writes ((fun i => (a i, 1)) <$> cpus) b,
             tr ++ concat ((fun i => [SetCpuPossible i; Write 1 (a i)]) <$> cpus))).
Proof.
  revert b tr. induction cpus as [|i cpus IH]; intros b tr; [cbn; by rewrite app_nil_r|].
  cbn [init_cpus_loop]. rewrite ev_bind, write_bind, IH. cbn. by rewrite <- !app_assoc.
Qed.

Lemma doorbell_run map mask irq s (b : B) tr :
  0 <= irq < 32 ->
  bcm2835_send_doorbell map mask irq (s, b, tr) =
    let a cpu := __io_address (ARM_LOCAL_MAILBOX0_SET0 + 0x10 * MPIDR_AFFINITY_LEVEL (map cpu) 0) in
    Ok (tt, (s, writes ((fun cpu => (a cpu, 2 ^ irq)) <$> mask) b,
             tr ++ ((fun cpu => Write (2 ^ irq) (a cpu)) <$> mask))).
Proof.
  intros Hi. assert (u32 (i32 (Z.shiftl 1 irq)) = 2 ^ irq) as Eu.
  { rewrite wrapu_wraps, Z.shiftl_1_l by lia. apply (wrapu_small 32). unfold is_u.
    split; [apply Z.lt_le_incl, pow2_pos; lia | apply Z.pow_lt_mono_r; lia]. }
  revert b tr. induction mask as [|cpu mask IH]; intros b tr; [cbn; by rewrite app_nil_r|].
  cbn [bcm2835_send_doorbell]. rewrite shl32_ok, Mbind_lift, write_bind, IH, Eu by done.
  cbn. by rewrite <- app_assoc.
Qed.
End smp_lemmas.

(** Core [c]'s register in a bank of one 16-byte slot per core. *)
Lemma core_slot r c :
  r = ARM_LOCAL_MAILBOX0_SET0 \/ r = ARM_LOCAL_MAILBOX3_SET0 \/ r = ARM_LOCAL_MAILBOX3_CLR0 ->
  0 <= c < 256 -> __io_address (r + 0x10 * c) = r - ARM_LOCAL_BASE + 0xf4000000 + 0x10 * c.
Proof.
  intros Hr Hc. assert (0x40000000 <= r <= 0x400000cc /\ r mod 2 ^ 24 <= 0xcc /\
    IO_ADDRESS r = r - ARM_LOCAL_BASE + 0xf4000000) as (Hb & Hm & E).
  { destruct Hr as [->|[->| ->]]; vm_compute; repeat split; discriminate. }
  unfold __io_address. rewrite IO_ADDRESS_offset, E by lia. done.
Qed.

Lemma affinity_range m : 0 <= MPIDR_AFFINITY_LEVEL m 0 < 256.
Proof.
  unfold MPIDR_AFFINITY_LEVEL. change MPIDR_LEVEL_MASK with (Z.ones 8).
  rewrite Z.land_ones by lia. apply Z.mod_pos_bound. lia.
Qed.

(** * Properties *)

(** The I/O map.  Its ten windows are pairwise disjoint in the kernel's address
    space, and every register the board code and the GPIO chip touch lies in one of
    them, where [__io_address] gives exactly the address that the window maps to
    the register. *)
Theorem io_map :
  (forall i j m n, (i < j)%nat -> bcm2709_io_desc !! i = Some m -> bcm2709_io_desc !! j = Some n ->
     apart (virtual m) (maplen m) (virtual n) (maplen n) = true) /\
  (forall a, a ∈ board_registers -> exists m, m ∈ bcm2709_io_desc /\
     in_window (__io_address a) m /\ __io_address a = virtual m + (a - pfn m * 4096)).
Proof.
  split.
  - intros i j m n. apply (all_pairs_spec (fun m n => apart (virtual m) (maplen m) (virtual n) (maplen n))).
    vm_compute. reflexivity.
  - intros a Ha. assert (Forall (fun a => Exists (fun m => in_window (__io_address a) m /\
      __io_address a = virtual m + (a - pfn m * 4096)) bcm2709_io_desc) board_registers) as Hall.
    { apply (bool_decide_unpack _). vm_compute. exact I. }
    rewrite Forall_forall in Hall. by apply Exists_exists, Hall.
Qed.

(** [bcm2709_init] from the initial state.  It always registers the two clocks
    and the five aliases (printing for each one that fails), runs the device tree,
    writes the mini UART's enable bit exactly when its node is available, and sets
    power-off and the system revision.  If the tree was populated, no static device
    is registered except the eight sound devices when the tree has no usable audio
    node; if not, the failure is printed and the static devices follow in order:
    the pps device only for a pin that is not negative, the I2C controller 0 for
    revisions 2 and 3 and 1 for the others (both with the override), and last the
    UART and the SPI board information. *)
Theorem board_init {B : Type} `{RegBus B} K p (b : B) tr :
  bcm2709_init K p (board0, b, tr) =
    Ok (tt, (mkBoard (of_platform_populate K =? 0) 0 true (boardrev p) (serial p),
             (if aux_uart_available K then bus_write (__io_address (UART1_BASE + 4)) 1 b else b),
             tr ++ clock_trace K p ++ [OfClkInit; OfPlatformPopulate] ++
             let uart1 := if aux_uart_available K then [Write 1 (__io_address (UART1_BASE + 4))] else [] in
             if of_platform_populate K =? 0
             then uart1 ++ (if audio_available K then [] else alsa_events)
             else [PopulateFailed (of_platform_populate K)] ++ devices1 p ++ uart1 ++ devices2 p ++
                  [SpiBoardInfo bcm2708_spi_devices])).
Proof. by rewrite bcm2709_init_run. Qed.

(** The devices that start-up registers never claim the same memory twice, and
    never the same interrupt, except that the override which registers both I2C
    controllers gives them one interrupt.  With a device tree they claim nothing. *)
Theorem device_resources {B : Type} `{RegBus B} K p (b : B) s' b' tr :
  bcm2709_init K p (board0, b, []) = Ok (tt, (s', b', tr)) ->
  (forall i j r1 r2, (i < j)%nat -> claimed IORESOURCE_MEM tr !! i = Some r1 ->
     claimed IORESOURCE_MEM tr !! j = Some r2 -> rend r1 < rstart r2 \/ rend r2 < rstart r1) /\
  (NoDup (claimed IORESOURCE_IRQ tr) <-> use_dt s' = true \/ vc_i2c_override p = false).
Proof.
  rewrite bcm2709_init_run by done. intros [= <- _ <-]. cbn [app final use_dt orb board0].
  rewrite !init_claims by tauto. fold (populated K). destruct (populated K).
  { split; [intros i j r1 r2 _ Hr; discriminate Hr|]. split; [tauto|]. intros _. constructor. }
  split.
  - intros i j r1 r2 Hij H1 H2.
    assert (all_pairs (fun r1 r2 => (rend r1 <? rstart r2) || (rend r2 <? rstart r1))
      (nodt_claims IORESOURCE_MEM (i2c_devices p)) = true) as Hp.
    { unfold i2c_devices. destruct (vc_i2c_override p); [|destruct (bool_decide _)]; vm_compute; reflexivity. }
    pose proof (all_pairs_spec _ _ i j r1 r2 Hp Hij H1 H2) as Ho.
    apply orb_true_iff in Ho as [?%Z.ltb_lt|?%Z.ltb_lt]; tauto.
  - unfold i2c_devices. destruct (vc_i2c_override p).
    + split; [|intros [?|?]; done]. intros Hnd. exfalso. revert Hnd.
      apply (bool_decide_unpack (~ _)). vm_compute. exact I.
    + split; [tauto|]. intros _.
      destruct (bool_decide _); apply (bool_decide_unpack _); vm_compute; exact I.
Qed.

(** [calc_rsts] spreads the six low bits of the partition number over the even
    bits 0 to 10 and leaves every other bit as in the password: the bootloader can
    read the number back, and bits of the number above 5 are dropped. *)
Theorem calc_rsts_bits p i :
  0 <= i ->
  Z.testbit (calc_rsts p) i =
    if decide (i <= 10 /\ i mod 2 = 0) then Z.testbit p (i / 2) else Z.testbit PM_PASSWORD i.
Proof. apply calc_rsts_spec. Qed.

(** Restarting writes, in this order, the reset status, a watchdog timeout of 10
    and the reset control register with the full-reset configuration and every
    other bit kept, each with the password.  Powering off is a restart with
    partition 63 (0x5a000555), which the bootloader takes as a halt -- except in
    reboot mode 'q': it passes 'p' to [restart], which ignores that argument and
    looks at the reboot mode again, so the status written is the one of a restart
    and not the halt flag that the call asks for. *)
Theorem restart_and_power_off {B : Type} `{PlainRegs B plain} m mode s (b : B) tr :
  plain (__io_address PM_RSTS) -> plain (__io_address PM_RSTC) ->
  let old := peek (__io_address PM_RSTS) b in
  let sequence rsts := [Write rsts (__io_address PM_RSTS); Write 0x5a00000a (__io_address PM_WDOG);
                        Write (rstc_word (peek (__io_address PM_RSTC) b)) (__io_address PM_RSTC)] in
  let halt := Z.lor (Z.lor PM_PASSWORD old) PM_RSTS_HADWRH_SET in
  let again := Z.lor (Z.lor PM_PASSWORD old) PM_RSTS_HADWRQ_SET in
  (exists b', bcm2709_restart m mode (s, b, tr) =
     Ok (tt, (s, b', tr ++ sequence (if m =? 113 then again else if m =? 112 then halt
                                     else calc_rsts (reboot_part s))))) /\
  (exists s' b', bcm2709_power_off m (s, b, tr) =
     Ok (tt, (s', b', tr ++ sequence (if m =? 113 then again else if m =? 112 then halt else 0x5a000555)))).
Proof.
  intros Hs Hc old sequence halt again. split; [by apply restart_run|].
  unfold bcm2709_power_off. destruct (m =? 113) eqn:Em.
  - destruct (restart_run m 112 s b tr Hs Hc) as [b' E]. unfold rsts_word in E. rewrite Em in E.
    exists s, b'. exact E.
  - rewrite setv_bind. destruct (restart_run m 0 (set_reboot_part 63 s) b tr Hs Hc) as [b' E].
    unfold rsts_word in E. rewrite Em in E. eexists _, b'. exact E.
Qed.

(** C16: Starting a core stops in [BUG()] when its mailbox 3 is not empty.  Otherwise
    the entry point is written to the mailbox and the clear register is read again
    and again until a read gives 0, but at most 19 times: exactly [k] reads are made,
    none before the last gives 0, and they are all that happens to the bus after the
    write.  The core is reported started, with the [20 - k] polls left, when the last
    read gave 0, and failed, with the value of the last of the 19, when none did -- and
    0 is returned in both cases. *)
Theorem boot_secondary {B : Type} `{RegBus B} map entry cpu s (b : B) tr :
  is_u 32 entry ->
  let core := MPIDR_AFFINITY_LEVEL (map cpu) 0 in
  let mbox_set := 0xf400008c + 16 * core in
  let mbox_clr := 0xf40000cc + 16 * core in
  let b1 := bus_write mbox_set entry (snd (bus_read mbox_clr b)) in
  (peek mbox_clr b <> 0 -> bcm2709_boot_secondary map entry cpu (s, b, tr) = Fault KernelBug) /\
  (peek mbox_clr b = 0 -> exists k v,
     bcm2709_boot_secondary map entry cpu (s, b, tr) =
       Ok (0, (s, snd (reads k mbox_clr b1),
               tr ++ [Write entry mbox_set;
                      if v =? 0 then SecondaryStarted cpu 0 (20 - Z.of_nat k) else SecondaryFailed cpu v])) /\
     (1 <= k <= 19)%nat /\
     (forall i w, fst (reads k mbox_clr b1) !! i = Some w -> w = 0 -> i = (k - 1)%nat) /\
     last (fst (reads k mbox_clr b1)) = Some v /\ (v = 0 \/ k = 19%nat)).
Proof.
  intros He core mbox_set mbox_clr b1. pose proof (affinity_range (map cpu)) as Hc. fold core in Hc.
  unfold bcm2709_boot_secondary. fold core. rewrite !core_slot by (tauto || done).
  change (ARM_LOCAL_MAILBOX3_SET0 - ARM_LOCAL_BASE + 0xf4000000) with 0xf400008c.
  change (ARM_LOCAL_MAILBOX3_CLR0 - ARM_LOCAL_BASE + 0xf4000000) with 0xf40000cc.
  fold mbox_set mbox_clr. rewrite read_bind. split.
  { intros Hne. apply Z.eqb_neq in Hne. by rewrite Hne. }
  intros ->. cbn [Z.eqb negb]. rewrite Mbind_ret, write_bind, (wrapu_small 32 entry He). fold b1.
  destruct (poll_run 19 (u32 (-1)) mbox_clr s b1 (tr ++ [Write entry mbox_set]) ltac:(lia)) as (k & v & Hs & E).
  exists k, v. split; [|exact Hs]. destruct Hs as (Hk & _). rewrite (Mbind_run _ _ _ _ _ E).
  destruct (Z.eqb_spec v 0) as [->|Hv].
  - rewrite (proj2 (Z.eqb_neq (Z.of_nat (20 - k)) 0)) by lia. rewrite ev_bind, <- app_assoc.
    by replace (20 - Z.of_nat k) with (Z.of_nat (20 - k)) by lia.
  - cbn [Z.eqb]. by rewrite ev_bind, <- app_assoc.
Qed.

(** Inter-processor interrupts.  Start-up makes the four cores possible and
    enables interrupt 0 of each one's mailbox; a doorbell for [irq] below 32 writes
    its bit to the mailbox-0 set register of every core in the mask, in order, and
    nowhere else.  Different cores have different registers. *)
Theorem doorbells {B : Type} `{RegBus B} map mask irq s (b : B) tr :
  0 <= irq < 32 ->
  let reg cpu := 0xf4000080 + 16 * MPIDR_AFFINITY_LEVEL (map cpu) 0 in
  bcm2835_send_doorbell map mask irq (s, b, tr) =
    Ok (tt, (s, writes ((fun cpu => (reg cpu, 2 ^ irq)) <$> mask) b,
             tr ++ ((fun cpu => Write (2 ^ irq) (reg cpu)) <$> mask))) /\
  (forall c1 c2, reg c1 = reg c2 <-> MPIDR_AFFINITY_LEVEL (map c1) 0 = MPIDR_AFFINITY_LEVEL (map c2) 0) /\
  bcm2709_smp_init_cpus (s, b, tr) =
    Ok (tt, (s, writes [(0xf4000050, 1); (0xf4000054, 1); (0xf4000058, 1); (0xf400005c, 1)] b,
             tr ++ [SetCpuPossible 0; Write 1 0xf4000050; SetCpuPossible 1; Write 1 0xf4000054;
                    SetCpuPossible 2; Write 1 0xf4000058; SetCpuPossible 3; Write 1 0xf400005c;
                    SetSmpCrossCall])).
Proof.
  intros Hi reg.
  assert (forall cpu, __io_address (ARM_LOCAL_MAILBOX0_SET0 + 0x10 * MPIDR_AFFINITY_LEVEL (map cpu) 0) = reg cpu) as Er.
  { intros cpu. rewrite core_slot by (tauto || apply affinity_range). done. }
  split; [|split].
  - rewrite doorbell_run by done. cbv zeta. do 2 f_equal. f_equal; [f_equal|]; [f_equal|f_equal];
      apply list_fmap_ext; intros; by rewrite Er.
  - intros c1 c2. unfold reg. lia.
  - unfold bcm2709_smp_init_cpus. rewrite (Mbind_run _ _ _ _ _ (init_cpus_run _ _ _ _)).
    unfold ev, modify. rewrite <- app_assoc. reflexivity.
Qed.

(** ** Witnesses *)

(** A kernel whose device tree fails and whose clocks all register. *)
Definition ex_kernel (populate : Z) : kernel :=
  mkKernel (fun _ rate => Some rate) (fun _ _ => 0) populate true false.

Lemma calc_rsts_bits_witness : Z.testbit (calc_rsts 63) 10 = true.
Proof. rewrite (calc_rsts_bits 63 10) by lia. reflexivity. Defined.

Lemma device_resources_witness :
  exists s' b' tr, bcm2709_init (ex_kernel 1) params0 (board0, LogBus0, []) = Ok (tt, (s', b', tr)) /\
    NoDup (claimed IORESOURCE_IRQ tr).
Proof.
  destruct (bcm2709_init (ex_kernel 1) params0 (board0, LogBus0, [])) as [[[] [[s' b'] tr]]|f] eqn:E;
    [|vm_compute in E; discriminate E].
  exists s', b', tr. split; [reflexivity|].
  apply (device_resources (ex_kernel 1) params0 LogBus0 s' b' tr E). right. reflexivity.
Defined.

(** In reboot mode 'q' a power-off writes the restart flag. *)
Lemma restart_and_power_off_witness :
  exists s' b', bcm2709_power_off 113 (board0, LogBus0, []) =
    Ok (tt, (s', b', [Write 0x5a000010 0xf3100020; Write 0x5a00000a 0xf3100024; Write 0x5a000020 0xf310001c])).
Proof.
  destruct (restart_and_power_off (plain := fun _ => True) 113 0 board0 LogBus0 []) as [_ (s' & b' & E)];
    [exact I | exact I |].
  exists s', b'. etransitivity; [exact E|]. vm_compute. reflexivity.
Defined.

Lemma boot_secondary_witness : exists k v,
  bcm2709_boot_secondary (fun c => 0x80000f00 + c) 0x8000 1 (board0, LogBus0, []) =
    Ok (0, (board0, snd (reads k 0xf40000dc (bus_write 0xf400009c 0x8000 (snd (bus_read 0xf40000dc LogBus0)))),
            [Write 0x8000 0xf400009c;
             if v =? 0 then SecondaryStarted 1 0 (20 - Z.of_nat k) else SecondaryFailed 1 v])) /\
  (1 <= k <= 19)%nat.
Proof.
  destruct (boot_secondary (fun c => 0x80000f00 + c) 0x8000 1 board0 LogBus0 []) as [_ Hok];
    [unfold is_u; lia|].
  destruct (Hok eq_refl) as (k & v & E & Hk & _). exists k, v. split; [exact E|exact Hk].
Defined.

Lemma doorbells_witness :
  exists b', bcm2835_send_doorbell (fun c => 0x80000f00 + c) [1; 3] 2 (board0, LogBus0, []) =
    Ok (tt, (board0, b', [Write 4 0xf4000090; Write 4 0xf40000b0])).
Proof.
  destruct (doorbells (fun c => 0x80000f00 + c) [1; 3] 2 board0 LogBus0 [] ltac:(lia)) as [E _].
  eexists. etransitivity; [exact E|]. vm_compute. reflexivity.
Defined.
