(* ===== verification/KString.v ===== *)
(** * lib/string.c and lib/ctype.c: the kernel's string routines

    The portable versions (the ones an architecture without its own uses).  A
    pointer into a string that a routine only reads is the list of the bytes from
    there to the end of the object; reading past it is a fault.  A buffer that a
    routine writes is its list of bytes and an offset.  Pointers that are returned
    are offsets from the argument, NULL is [None].  [char] is unsigned on ARM and
    [size_t] is 32 bits. *)

From S2P Require Import Prelude Ioctl.
Open Scope Z_scope.

(** ** Character classes *)

Definition _U : Z := 0x01.
Definition _L : Z := 0x02.
Definition _D : Z := 0x04.
Definition _C : Z := 0x08.
Definition _P : Z := 0x10.
Definition _S : Z := 0x20.
Definition _X : Z := 0x40.
Definition _SP : Z := 0x80.

Definition _ctype : list Z :=
  replicate 9 _C ++ replicate 5 (Z.lor _C _S) ++ replicate 18 _C ++
  [Z.lor _S _SP] ++ replicate 15 _P ++ replicate 10 _D ++ replicate 7 _P ++
  replicate 6 (Z.lor _U _X) ++ replicate 20 _U ++ replicate 6 _P ++
  replicate 6 (Z.lor _L _X) ++ replicate 20 _L ++ replicate 4 _P ++ [_C] ++
  replicate 32 0 ++ [Z.lor _S _SP] ++ replicate 31 _P ++
  replicate 23 _U ++ [_P] ++ replicate 7 _U ++ [_L] ++
  replicate 23 _L ++ [_P] ++ replicate 8 _L.

Definition __ismask (x : Z) : Z := default 0 (_ctype !! Z.to_nat (u8 x)).
Definition isspace (c : Z) : bool := negb (Z.land (__ismask c) _S =? 0).
Definition isupper (c : Z) : bool := negb (Z.land (__ismask c) _U =? 0).
Definition islower (c : Z) : bool := negb (Z.land (__ismask c) _L =? 0).
Definition isdigit (c : Z) : bool := negb (Z.land (__ismask c) _D =? 0).
Definition isxdigit (c : Z) : bool := negb (Z.land (__ismask c) (Z.lor _D _X) =? 0).
Definition tolower (c : Z) : Z := if isupper (u8 c) then u8 (u8 c - (65 - 97)) else u8 c.
Definition toupper (c : Z) : Z := if islower (u8 c) then u8 (u8 c - (97 - 65)) else u8 c.
Definition _tolower (c : Z) : Z := u8 (Z.lor c 0x20).

(** ** Reading *)

Definition rd (s : list Z) : res Z :=
  match s with [] => Fault OutOfBounds | c :: _ => Ok c end.

Fixpoint strlen (s : list Z) : res Z :=
  match s with
  | [] => Fault OutOfBounds
  | c :: s' => if c =? 0 then Ok 0 else n ← strlen s'; Ok (n + 1)
  end.

Fixpoint strnlen (s : list Z) (count : Z) : res Z :=
  if count =? 0 then Ok 0
  else match s with
       | [] => Fault OutOfBounds
       | c :: s' => if c =? 0 then Ok 0 else n ← strnlen s' (count - 1); Ok (n + 1)
       end.

Fixpoint strcmp (cs ct : list Z) : res Z :=
  match cs, ct with
  | c1 :: cs', c2 :: ct' =>
      if negb (c1 =? c2) then Ok (if c1 <? c2 then -1 else 1)
      else if c1 =? 0 then Ok 0 else strcmp cs' ct'
  | _, _ => Fault OutOfBounds
  end.

Fixpoint strncmp (cs ct : list Z) (count : Z) : res Z :=
  if count =? 0 then Ok 0
  else match cs, ct with
       | c1 :: cs', c2 :: ct' =>
           if negb (c1 =? c2) then Ok (if c1 <? c2 then -1 else 1)
           else if c1 =? 0 then Ok 0 else strncmp cs' ct' (count - 1)
       | _, _ => Fault OutOfBounds
       end.

(** The [do] loop: [continue] goes on to the test of [--len]. *)
Fixpoint strncasecmp_loop (s1 s2 : list Z) (len : Z) : res Z :=
  match s1, s2 with
  | c1 :: s1', c2 :: s2' =>
      if (c1 =? 0) || (c2 =? 0) then Ok (c1 - c2)
      else if c1 =? c2 then
        (if len - 1 =? 0 then Ok (c1 - c2) else strncasecmp_loop s1' s2' (len - 1))
      else
        let c1 := tolower c1 in
        let c2 := tolower c2 in
        if negb (c1 =? c2) then Ok (c1 - c2)
        else if len - 1 =? 0 then Ok (c1 - c2) else strncasecmp_loop s1' s2' (len - 1)
  | _, _ => Fault OutOfBounds
  end.
Definition strncasecmp (s1 s2 : list Z) (len : Z) : res Z :=
  if len =? 0 then Ok 0 else strncasecmp_loop s1 s2 len.

Fixpoint strcasecmp (s1 s2 : list Z) : res Z :=
  match s1, s2 with
  | a :: s1', b :: s2' =>
      let c1 := tolower a in
      let c2 := tolower b in
      if (c1 =? c2) && negb (c1 =? 0) then strcasecmp s1' s2' else Ok (c1 - c2)
  | _, _ => Fault OutOfBounds
  end.

(** [k] is the offset of [s] from the argument. *)
Fixpoint strchr_from (k : Z) (s : list Z) (c : Z) : res (option Z) :=
  match s with
  | [] => Fault OutOfBounds
  | x :: s' =>
      if x =? u8 c then Ok (Some k)
      else if x =? 0 then Ok None else strchr_from (k + 1) s' c
  end.
Definition strchr : list Z -> Z -> res (option Z) := strchr_from 0.

Fixpoint strchrnul_from (k : Z) (s : list Z) (c : Z) : res Z :=
  match s with
  | [] => Fault OutOfBounds
  | x :: s' => if negb (x =? 0) && negb (x =? u8 c) then strchrnul_from (k + 1) s' c else Ok k
  end.
Definition strchrnul : list Z -> Z -> res Z := strchrnul_from 0.

Fixpoint strrchr_from (k : Z) (last : option Z) (s : list Z) (c : Z) : res (option Z) :=
  match s with
  | [] => Fault OutOfBounds
  | x :: s' =>
      let last := if x =? u8 c then Some k else last in
      if negb (x =? 0) then strrchr_from (k + 1) last s' c else Ok last
  end.
Definition strrchr : list Z -> Z -> res (option Z) := strrchr_from 0 None.

Fixpoint strnchr_from (k : Z) (s : list Z) (count c : Z) : res (option Z) :=
  if count =? 0 then Ok None
  else match s with
       | [] => Fault OutOfBounds
       | x :: s' =>
           if x =? 0 then Ok None
           else if x =? u8 c then Ok (Some k) else strnchr_from (k + 1) s' (count - 1) c
       end.
Definition strnchr : list Z -> Z -> Z -> res (option Z) := strnchr_from 0.

Fixpoint skip_spaces_from (k : Z) (s : list Z) : res Z :=
  match s with
  | [] => Fault OutOfBounds
  | c :: s' => if isspace c then skip_spaces_from (k + 1) s' else Ok k
  end.
Definition skip_spaces : list Z -> res Z := skip_spaces_from 0.

(** Whether the inner loops of [strspn], [strcspn] and [strpbrk] find [c] in the
    string [set]. *)
Fixpoint in_set (c : Z) (set : list Z) : res bool :=
  match set with
  | [] => Fault OutOfBounds
  | a :: set' => if a =? 0 then Ok false else if c =? a then Ok true else in_set c set'
  end.

Fixpoint strspn_from (count : Z) (s accept : list Z) : res Z :=
  match s with
  | [] => Fault OutOfBounds
  | c :: s' =>
      if c =? 0 then Ok count
      else f ← in_set c accept; if negb f then Ok count else strspn_from (count + 1) s' accept
  end.
Definition strspn : list Z -> list Z -> res Z := strspn_from 0.

Fixpoint strcspn_from (count : Z) (s reject : list Z) : res Z :=
  match s with
  | [] => Fault OutOfBounds
  | c :: s' =>
      if c =? 0 then Ok count
      else f ← in_set c reject; if f : bool then Ok count else strcspn_from (count + 1) s' reject
  end.
Definition strcspn : list Z -> list Z -> res Z := strcspn_from 0.

Fixpoint strpbrk_from (k : Z) (cs ct : list Z) : res (option Z) :=
  match cs with
  | [] => Fault OutOfBounds
  | c :: cs' =>
      if c =? 0 then Ok None
      else f ← in_set c ct; if f : bool then Ok (Some k) else strpbrk_from (k + 1) cs' ct
  end.
Definition strpbrk : list Z -> list Z -> res (option Z) := strpbrk_from 0.

Fixpoint sysfs_streq (s1 s2 : list Z) : res bool :=
  match s1, s2 with
  | c1 :: s1', c2 :: s2' =>
      if negb (c1 =? 0) && (c1 =? c2) then sysfs_streq s1' s2'
      else if c1 =? c2 then Ok true
      else
        a ← (if (c1 =? 0) && (c2 =? 10) then n ← rd s2'; Ok (n =? 0) else Ok false);
        if a : bool then Ok true
        else
          b ← (if c1 =? 10 then n ← rd s1'; Ok ((n =? 0) && (c2 =? 0)) else Ok false);
          Ok b
  | _, _ => Fault OutOfBounds
  end.

(** The return value and [*res] when it is written. *)
Definition strtobool (s : list Z) : res (Z * option bool) :=
  c ← rd s;
  Ok (if (c =? 121) || (c =? 89) || (c =? 49) then (0, Some true)
      else if (c =? 110) || (c =? 78) || (c =? 48) then (0, Some false)
      else (- EINVAL, None)).

Fixpoint memcmp (cs ct : list Z) (count : Z) : res Z :=
  if count <=? 0 then Ok 0
  else match cs, ct with
       | a :: cs', b :: ct' => if negb (a - b =? 0) then Ok (a - b) else memcmp cs' ct' (count - 1)
       | _, _ => Fault OutOfBounds
       end.

Fixpoint memscan_from (k : Z) (p : list Z) (c size : Z) : res Z :=
  if size =? 0 then Ok k
  else match p with
       | [] => Fault OutOfBounds
       | x :: p' => if x =? c then Ok k else memscan_from (k + 1) p' c (size - 1)
       end.
Definition memscan : list Z -> Z -> Z -> res Z := memscan_from 0.

Fixpoint memchr_from (k : Z) (p : list Z) (c n : Z) : res (option Z) :=
  if n =? 0 then Ok None
  else match p with
       | [] => Fault OutOfBounds
       | x :: p' => if u8 c =? x then Ok (Some k) else memchr_from (k + 1) p' c (n - 1)
       end.
Definition memchr : list Z -> Z -> Z -> res (option Z) := memchr_from 0.

(** [while (l1 >= l2)]; [l2] is not 0. *)
Fixpoint strstr_loop (l1 : nat) (k : Z) (s1 s2 : list Z) (l2 : Z) : res (option Z) :=
  if Z.of_nat l1 <? l2 then Ok None
  else
    r ← memcmp s1 s2 l2;
    if r =? 0 then Ok (Some k)
    else match l1 with
         | O => Ok None
         | S l1' => strstr_loop l1' (k + 1) (tail s1) s2 l2
         end.
Definition strstr (s1 s2 : list Z) : res (option Z) :=
  l2 ← strlen s2;
  if l2 =? 0 then Ok (Some 0)
  else l1 ← strlen s1; strstr_loop (Z.to_nat l1) 0 s1 s2 l2.
Definition strnstr (s1 s2 : list Z) (len : Z) : res (option Z) :=
  l2 ← strlen s2;
  if l2 =? 0 then Ok (Some 0) else strstr_loop (Z.to_nat len) 0 s1 s2 l2.

(** ** [memchr_inv] *)

Fixpoint check_bytes8 (k : Z) (start : list Z) (value bytes : Z) : res (option Z) :=
  if bytes =? 0 then Ok None
  else match start with
       | [] => Fault OutOfBounds
       | x :: start' => if negb (x =? value) then Ok (Some k) else check_bytes8 (k + 1) start' value (bytes - 1)
       end.

(** A little-endian load of 8 bytes. *)
Fixpoint load_le (n : nat) (p : list Z) : res Z :=
  match n with
  | O => Ok 0
  | S n' => match p with
            | [] => Fault OutOfBounds
            | x :: p' => v ← load_le n' p'; Ok (x + 256 * v)
            end
  end.

Definition spread64 (value : Z) : Z :=
  let v := Z.lor value (u64 (Z.shiftl value 8)) in
  let v := Z.lor v (u64 (Z.shiftl v 16)) in
  Z.lor v (u64 (Z.shiftl v 32)).

Fixpoint inv_words (words : nat) (k : Z) (p : list Z) (value value64 rest : Z) : res (option Z) :=
  match words with
  | O => check_bytes8 k p value rest
  | S words' =>
      w ← load_le 8 p;
      if negb (w =? value64) then check_bytes8 k p value 8
      else inv_words words' (k + 8) (drop 8 p) value value64 rest
  end.

(** [addr] is the address of the area, for the alignment prefix. *)
Definition memchr_inv (addr : Z) (start : list Z) (c bytes : Z) : res (option Z) :=
  let value := u8 c in
  if bytes <=? 16 then check_bytes8 0 start value bytes
  else
    let value64 := spread64 value in
    let prefix := addr mod 8 in
    if negb (prefix =? 0) then
      let prefix := 8 - prefix in
      r ← check_bytes8 0 start value prefix;
      match r with
      | Some r => Ok (Some r)
      | None =>
          let bytes := bytes - prefix in
          inv_words (Z.to_nat (bytes / 8)) prefix (drop (Z.to_nat prefix) start) value value64 (bytes mod 8)
      end
    else inv_words (Z.to_nat (bytes / 8)) 0 start value value64 (bytes mod 8).

(** ** Writing *)

(** [memcpy(dest + i, src, count)] on separate objects. *)
Fixpoint memcpy_at (count : nat) (dest : list Z) (i : Z) (src : list Z) : res (list Z) :=
  match count with
  | O => Ok dest
  | S count' =>
      c ← rd src;
      dest ← awrite dest i c;
      memcpy_at count' dest (i + 1) (tail src)
  end.
Definition memcpy (dest src : list Z) (count : Z) : res (list Z) := memcpy_at (Z.to_nat count) dest 0 src.

(** [memset(s + i, c, count)]. *)
Fixpoint memset_at (count : nat) (s : list Z) (i c : Z) : res (list Z) :=
  match count with
  | O => Ok s
  | S count' => s ← awrite s i (u8 c); memset_at count' s (i + 1) c
  end.
Definition memset (s : list Z) (c count : Z) : res (list Z) := memset_at (Z.to_nat count) s 0 c.
Definition memzero_explicit (s : list Z) (count : Z) : res (list Z) := memset s 0 count.

(** [memmove] inside one object: [d] and [s] are offsets in [m]. *)
Fixpoint move_up (count : nat) (m : list Z) (tmp s : Z) : res (list Z) :=
  match count with
  | O => Ok m
  | S count' => c ← aread m s; m ← awrite m tmp c; move_up count' m (tmp + 1) (s + 1)
  end.
Fixpoint move_down (count : nat) (m : list Z) (tmp s : Z) : res (list Z) :=
  match count with
  | O => Ok m
  | S count' => c ← aread m (s - 1); m ← awrite m (tmp - 1) c; move_down count' m (tmp - 1) (s - 1)
  end.
Definition memmove (m : list Z) (dest src count : Z) : res (list Z) :=
  if dest <=? src then move_up (Z.to_nat count) m dest src
  else move_down (Z.to_nat count) m (dest + count) (src + count).

(** Copy up to and including the terminator, with [dest] at offset [i]. *)
Fixpoint strcpy_at (dest : list Z) (i : Z) (src : list Z) : res (list Z) :=
  match src with
  | [] => Fault OutOfBounds
  | c :: src' => dest ← awrite dest i c; if c =? 0 then Ok dest else strcpy_at dest (i + 1) src'
  end.
Definition strcpy (dest src : list Z) : res (list Z) := strcpy_at dest 0 src.

(** The pointer [src] stays on the terminator once it is there. *)
Fixpoint strncpy_at (count : nat) (dest : list Z) (i : Z) (src : list Z) : res (list Z) :=
  match count with
  | O => Ok dest
  | S count' =>
      c ← rd src;
      dest ← awrite dest i c;
      strncpy_at count' dest (i + 1) (if negb (c =? 0) then tail src else src)
  end.
Definition strncpy (dest src : list Z) (count : Z) : res (list Z) := strncpy_at (Z.to_nat count) dest 0 src.

Definition strlcpy (dest src : list Z) (size : Z) : res (Z * list Z) :=
  ret ← strlen src;
  if negb (size =? 0) then
    let len := if size <=? ret then size - 1 else ret in
    dest ← memcpy dest src len;
    dest ← awrite dest len 0;
    Ok (ret, dest)
  else Ok (ret, dest).

Definition strcat (dest src : list Z) : res (list Z) :=
  n ← strlen dest; strcpy_at dest n src.

Fixpoint strncat_at (count : nat) (dest : list Z) (i : Z) (src : list Z) : res (list Z) :=
  match src with
  | [] => Fault OutOfBounds
  | c :: src' =>
      dest ← awrite dest i c;
      if c =? 0 then Ok dest
      else match count with
           | O | S O => awrite dest (i + 1) 0
           | S count' => strncat_at count' dest (i + 1) src'
           end
  end.
Definition strncat (dest src : list Z) (count : Z) : res (list Z) :=
  if count =? 0 then Ok dest
  else n ← strlen dest; strncat_at (Z.to_nat count) dest n src.

Definition strlcat (dest src : list Z) (count : Z) : res (Z * list Z) :=
  dsize ← strlen dest;
  len ← strlen src;
  let r := (dsize +u len)%cint in
  if count <=? dsize then Fault KernelBug
  else
    let count := count - dsize in
    let len := if count <=? len then count - 1 else len in
    dest ← memcpy_at (Z.to_nat len) dest dsize src;
    dest ← awrite dest (dsize + len) 0;
    Ok (r, dest).

(** Step [end] back over trailing white space; [n] is [end + 1 - s]. *)
Fixpoint strim_end (n : nat) (s : list Z) : res nat :=
  match n with
  | O => Ok O
  | S n' => c ← aread s (Z.of_nat n'); if isspace c then strim_end n' s else Ok n
  end.
(** The buffer afterwards and the offset of the result. *)
Definition strim (s : list Z) : res (list Z * Z) :=
  size ← strlen s;
  if size =? 0 then Ok (s, 0)
  else
    n ← strim_end (Z.to_nat size) s;
    s ← awrite s (Z.of_nat n) 0;
    k ← skip_spaces s;
    Ok (s, k).

(** [*s] is the offset [pos] in [buf], or NULL; the result is the token's offset,
    with the buffer and the new [*s]. *)
Definition strsep (buf : list Z) (pos : option Z) (ct : list Z) : res (option Z * list Z * option Z) :=
  match pos with
  | None => Ok (None, buf, None)
  | Some b =>
      e ← strpbrk (drop (Z.to_nat b) buf) ct;
      match e with
      | Some k => buf ← awrite buf (b + k) 0; Ok (Some b, buf, Some (b + k + 1))
      | None => Ok (Some b, buf, None)
      end
  end.

(** * Lemmas *)

(** The bytes of a C string before its terminator. *)
Definition text (t : list Z) : Prop := Forall (fun c => c <> 0) t.
(** A string in memory: text, terminator, and whatever follows. *)
Abbreviation cstr t r := (t ++ 0 :: r).

(** The position of the first element with a property. *)
Definition index (P : Z -> Prop) `{forall x, Decision (P x)} (l : list Z) : option Z :=
  (fun p => Z.of_nat (fst p)) <$> list_find P l.

Lemma index_cons P `{forall x, Decision (P x)} x l :
  index P (x :: l) = if decide (P x) then Some 0 else (fun k => k + 1) <$> index P l.
Proof.
  unfold index. cbn [list_find]. destruct (decide (P x)); [done|].
  destruct (list_find P l) as [[k y]|]; cbn; [f_equal; lia | done].
Qed.

Lemma index_nil P `{forall x, Decision (P x)} : index P [] = None.
Proof. done. Qed.

Create Rewrite HintDb kstr.
#[export] Hint Rewrite index_cons index_nil : kstr.

(** One step of an induction along a text: split the head, decide every test. *)
Ltac text_step :=
  repeat match goal with
  | H : text (_ :: _) |- _ => apply Forall_cons in H; destruct H
  | H : ?c <> 0 |- context [?c =? 0] => rewrite (proj2 (Z.eqb_neq c 0) H)
  | |- context [?a =? ?b] => destruct (Z.eqb_spec a b)
  | |- context [decide ?P] => destruct (decide P)
  end; cbn [negb andb orb] in *; subst; try done; try lia.

Lemma strlen_cstr t r : text t -> strlen (cstr t r) = Ok (Z.of_nat (length t)).
Proof.
  induction t as [|c t IH]; intros Ht; [done|]. cbn [app strlen]. text_step.
  rewrite IH by done. cbn. f_equal. lia.
Qed.

Lemma strnlen_cstr t r n :
  text t -> 0 <= n -> strnlen (cstr t r) n = Ok (Z.min (Z.of_nat (length t)) n).
Proof.
  revert n. induction t as [|c t IH]; intros n Ht Hn; cbn [app strnlen].
  - destruct (Z.eqb_spec n 0) as [->|]; [done|]. cbn. f_equal. lia.
  - destruct (Z.eqb_spec n 0) as [->|Hn0]; [cbn; f_equal; lia|]. text_step.
    rewrite IH by (done || lia). cbn. f_equal. lia.
Qed.

Lemma strchr_cstr k t r c :
  text t -> strchr_from k (cstr t r) c =
    Ok ((fun i => k + i) <$> index (fun x => x = u8 c) (t ++ [0])).
Proof.
  revert k. induction t as [|x t IH]; intros k Ht; cbn [app strchr_from].
  - rewrite index_cons, index_nil. text_step; cbn; do 2 f_equal; lia.
  - rewrite index_cons. text_step; [cbn; do 2 f_equal; lia|]. rewrite IH by done.
    destruct (index _ (t ++ [0])); cbn; [do 2 f_equal; lia | done].
Qed.

Lemma strchrnul_cstr k t r c :
  text t -> strchrnul_from k (cstr t r) c =
    Ok (k + default (Z.of_nat (length t)) (index (fun x => x = u8 c) t)).
Proof.
  revert k. induction t as [|x t IH]; intros k Ht; cbn [app strchrnul_from].
  - cbn. f_equal. lia.
  - rewrite index_cons. text_step; [cbn; f_equal; lia|]. rewrite IH by done.
    destruct (index _ t); cbn [fmap option_fmap option_map default length]; unfold id; f_equal; lia.
Qed.

Lemma strnchr_cstr k t r n c :
  text t -> 0 <= n -> strnchr_from k (cstr t r) n c =
    Ok ((fun i => k + i) <$> index (fun x => x = u8 c) (take (Z.to_nat n) t)).
Proof.
  revert k n. induction t as [|x t IH]; intros k n Ht Hn; cbn [app strnchr_from].
  - destruct (Z.eqb_spec n 0) as [->|]; by rewrite ?take_nil.
  - destruct (Z.eqb_spec n 0) as [->|Hn0]; [done|].
    replace (Z.to_nat n) with (S (Z.to_nat (n - 1))) by lia. cbn [take]. rewrite index_cons.
    text_step; [cbn; do 2 f_equal; lia|]. rewrite IH by (done || lia).
    destruct (index _ (take _ t)); cbn; [do 2 f_equal; lia | done].
Qed.

(** The last position: the first one from the end. *)
Definition rindex (P : Z -> Prop) `{forall x, Decision (P x)} (l : list Z) : option Z :=
  (fun i => Z.of_nat (length l) - 1 - i) <$> index P (reverse l).

Lemma index_app P `{forall x, Decision (P x)} l1 l2 :
  index P (l1 ++ l2) =
    match index P l1 with Some i => Some i | None => (fun i => Z.of_nat (length l1) + i) <$> index P l2 end.
Proof.
  induction l1 as [|x l1 IH]; cbn [app].
  - rewrite index_nil. cbn [length]. destruct (index P l2); cbn; [f_equal; lia|done].
  - rewrite !index_cons, IH. case_decide; [done|]. destruct (index P l1); [done|].
    destruct (index P l2); cbn; [f_equal; lia | done].
Qed.

Lemma rindex_cons P `{forall x, Decision (P x)} x l :
  rindex P (x :: l) = match rindex P l with
    | Some i => Some (i + 1) | None => if decide (P x) then Some 0 else None end.
Proof.
  unfold rindex. rewrite reverse_cons, index_app, length_reverse.
  destruct (index P (reverse l)); cbn; [f_equal; lia|].
  case_decide; cbn; [f_equal; lia | done].
Qed.

Lemma strrchr_cstr k last t r c :
  text t -> strrchr_from k last (cstr t r) c =
    Ok (match rindex (fun x => x = u8 c) (t ++ [0]) with Some i => Some (k + i) | None => last end).
Proof.
  revert k last. induction t as [|x t IH]; intros k last Ht; cbn [app strrchr_from].
  - rewrite rindex_cons. change (rindex _ []) with (@None Z). change (0 =? 0) with true. cbn [negb].
    destruct (Z.eqb_spec 0 (u8 c)); case_decide; try done. do 2 f_equal. lia.
  - rewrite rindex_cons. rewrite (proj2 (Z.eqb_neq x 0)) by (by inversion Ht).
    cbn [negb]. rewrite IH by (by inversion Ht).
    destruct (rindex _ (t ++ [0])) as [i|]; [do 2 f_equal; lia|].
    destruct (Z.eqb_spec x (u8 c)); case_decide; try done. do 2 f_equal. lia.
Qed.

Lemma in_set_cstr c t r : text t -> in_set c (cstr t r) = Ok (bool_decide (c ∈ t)).
Proof.
  induction t as [|a t IH]; intros Ht; cbn [app in_set]; [by rewrite bool_decide_eq_false_2 by set_solver|].
  text_step.
  - by rewrite bool_decide_eq_true_2 by set_solver.
  - rewrite IH by done. f_equal. apply bool_decide_ext. rewrite elem_of_cons. tauto.
Qed.

Lemma strspn_cstr k t r a r' :
  text t -> text a -> strspn_from k (cstr t r) (cstr a r') =
    Ok (k + default (Z.of_nat (length t)) (index (fun x => x ∉ a) t)).
Proof.
  intros Ht Ha. revert k. induction t as [|x t IH]; intros k; cbn [app strspn_from]; [cbn; f_equal; lia|].
  rewrite index_cons. text_step; rewrite in_set_cstr by done.
  - rewrite bool_decide_eq_false_2 by done. cbn. f_equal. lia.
  - rewrite bool_decide_eq_true_2 by (by apply dec_stable). cbn [mbind res_bind negb]. rewrite IH by done.
    destruct (index _ t); cbn [fmap option_fmap option_map default length]; unfold id; f_equal; lia.
Qed.

Lemma strcspn_cstr k t r a r' :
  text t -> text a -> strcspn_from k (cstr t r) (cstr a r') =
    Ok (k + default (Z.of_nat (length t)) (index (fun x => x ∈ a) t)).
Proof.
  intros Ht Ha. revert k. induction t as [|x t IH]; intros k; cbn [app strcspn_from]; [cbn; f_equal; lia|].
  rewrite index_cons. text_step; rewrite in_set_cstr by done.
  - rewrite bool_decide_eq_true_2 by done. cbn. f_equal. lia.
  - rewrite bool_decide_eq_false_2 by done. cbn [mbind res_bind]. rewrite IH by done.
    destruct (index _ t); cbn [fmap option_fmap option_map default length]; unfold id; f_equal; lia.
Qed.

Lemma strpbrk_cstr k t r a r' :
  text t -> text a -> strpbrk_from k (cstr t r) (cstr a r') =
    Ok ((fun i => k + i) <$> index (fun x => x ∈ a) t).
Proof.
  intros Ht Ha. revert k. induction t as [|x t IH]; intros k; cbn [app strpbrk_from]; [done|].
  rewrite index_cons. text_step; rewrite in_set_cstr by done.
  - rewrite bool_decide_eq_true_2 by done. cbn. do 2 f_equal. lia.
  - rewrite bool_decide_eq_false_2 by done. cbn [mbind res_bind]. rewrite IH by done.
    destruct (index _ t); cbn; [do 2 f_equal; lia | done].
Qed.

(** ** Comparison *)

(** Lexicographic comparison of texts, as a sign. *)
Fixpoint lexcmp (a b : list Z) : Z :=
  match a, b with
  | [], [] => 0
  | [], _ => -1
  | _, [] => 1
  | x :: a', y :: b' => if x =? y then lexcmp a' b' else if x <? y then -1 else 1
  end.

Definition bytes (t : list Z) : Prop := Forall (fun c => 0 < c < 256) t.

Lemma bytes_text t : bytes t -> text t.
Proof. intros Ht. eapply Forall_impl; [exact Ht|]. cbv beta. lia. Qed.

Lemma lexcmp_eq a b : lexcmp a b = 0 <-> a = b.
Proof.
  revert b. induction a as [|x a IH]; intros [|y b]; cbn; try (split; [lia|done]); [done|].
  destruct (Z.eqb_spec x y) as [->|Hne].
  - rewrite IH. split; [by intros ->|by intros [=]].
  - split; [destruct (x <? y); lia|]. intros [= ? _]. done.
Qed.

Lemma lexcmp_antisym a b : lexcmp b a = - lexcmp a b.
Proof.
  revert b. induction a as [|x a IH]; intros [|y b]; cbn; try done.
  rewrite (Z.eqb_sym y x). destruct (Z.eqb_spec x y); [apply IH|].
  destruct (Z.ltb_spec x y), (Z.ltb_spec y x); lia.
Qed.

Lemma strcmp_cstr a ra b rb :
  bytes a -> bytes b -> strcmp (cstr a ra) (cstr b rb) = Ok (lexcmp a b).
Proof.
  revert b. induction a as [|x a IH]; intros [|y b] Ha Hb; cbn [app strcmp lexcmp];
    repeat match goal with H : bytes (_ :: _) |- _ => apply Forall_cons in H as [? ?] end; try done.
  - destruct (Z.eqb_spec 0 y); [lia|]. cbn [negb]. by rewrite (proj2 (Z.ltb_lt 0 y)) by lia.
  - destruct (Z.eqb_spec x 0); [lia|]. cbn [negb]. by rewrite (proj2 (Z.ltb_ge x 0)) by lia.
  - destruct (Z.eqb_spec x y); cbn [negb]; [|done]. destruct (Z.eqb_spec x 0); [lia|]. by apply IH.
Qed.

Lemma strncmp_cstr a ra b rb n :
  bytes a -> bytes b -> 0 <= n ->
  strncmp (cstr a ra) (cstr b rb) n = Ok (lexcmp (take (Z.to_nat n) a) (take (Z.to_nat n) b)).
Proof.
  revert b n. induction a as [|x a IH]; intros [|y b] n Ha Hb Hn; cbn [app strncmp];
    repeat match goal with H : bytes (_ :: _) |- _ => apply Forall_cons in H as [? ?] end;
    (destruct (Z.eqb_spec n 0) as [->|]; [done|]);
    replace (Z.to_nat n) with (S (Z.to_nat (n - 1))) by lia; cbn [take lexcmp].
  - done.
  - destruct (Z.eqb_spec 0 y); [lia|]. cbn [negb]. by rewrite (proj2 (Z.ltb_lt 0 y)) by lia.
  - destruct (Z.eqb_spec x 0); [lia|]. cbn [negb]. by rewrite (proj2 (Z.ltb_ge x 0)) by lia.
  - destruct (Z.eqb_spec x y); cbn [negb]; [|done]. destruct (Z.eqb_spec x 0); [lia|]. apply IH; done || lia.
Qed.

Lemma memcmp_take a b n :
  (Z.to_nat n <= length a)%nat -> (Z.to_nat n <= length b)%nat ->
  exists v, memcmp a b n = Ok v /\ (v = 0 <-> take (Z.to_nat n) a = take (Z.to_nat n) b).
Proof.
  revert b n. induction a as [|x a IH]; intros b n Ha Hb; cbn [memcmp].
  - cbn in Ha. destruct (Z.leb_spec n 0); [|lia]. exists 0. by replace (Z.to_nat n) with O by lia.
  - destruct (Z.leb_spec n 0); [exists 0; by replace (Z.to_nat n) with O by lia|].
    destruct b as [|y b]; [cbn in Hb; lia|]. cbn [length] in *.
    replace (Z.to_nat n) with (S (Z.to_nat (n - 1))) in * by lia. cbn [take].
    destruct (Z.eqb_spec (x - y) 0); cbn [negb].
    + destruct (IH b (n - 1) ltac:(lia) ltac:(lia)) as (v & E & Hv). exists v. split; [done|].
      rewrite Hv. assert (x = y) as -> by lia. split; [by intros ->|by intros [=]].
    + exists (x - y). split; [done|]. split; [lia|]. intros [= -> _]. lia.
Qed.

(** ** Substrings *)

(** [p] occurs in [t] at offset [k]. *)
Definition occurs (p t : list Z) (k : nat) : Prop := take (length p) (drop k t) = p.
#[global] Instance occurs_dec p t k : Decision (occurs p t k).
Proof. unfold occurs. apply _. Defined.

Lemma strstr_loop_spec n k s1 s2 p r :
  s2 = p ++ r -> p <> [] -> (n <= length s1)%nat ->
  exists o, strstr_loop n k s1 s2 (Z.of_nat (length p)) = Ok o /\
    match o with
    | Some j => exists i, j = k + Z.of_nat i /\ (i + length p <= n)%nat /\ occurs p s1 i /\
                  forall i', (i' < i)%nat -> ~ occurs p s1 i'
    | None => forall i, (i + length p <= n)%nat -> ~ occurs p s1 i
    end.
Proof.
  intros -> Hp. assert (length p <> 0%nat) by (by destruct p). revert k s1.
  induction n as [|n IH]; intros k s1 Hn; cbn [strstr_loop].
  { destruct (Z.ltb_spec (Z.of_nat 0) (Z.of_nat (length p))); [|lia]. exists None. split; [done|]. intros. lia. }
  destruct (Z.ltb_spec (Z.of_nat (S n)) (Z.of_nat (length p))).
  { exists None. split; [done|]. intros. lia. }
  destruct (memcmp_take s1 (p ++ r) (Z.of_nat (length p))) as (v & E & Hv);
    [lia | rewrite length_app; lia |].
  rewrite E. rewrite Nat2Z.id, take_app_length in Hv. cbn [mbind res_bind].
  destruct (Z.eqb_spec v 0) as [->|Hv0].
  - exists (Some k). split; [done|]. exists 0%nat. split_and!; [lia | lia | by apply Hv | lia].
  - assert (~ occurs p s1 0) as Hno by (intros Ho; apply Hv0, Hv; exact Ho).
    destruct s1 as [|x s1]; [cbn in Hn; lia|]. cbn [tail length] in *.
    destruct (IH (k + 1) s1 ltac:(lia)) as (o & Eo & Ho). exists o. split; [exact Eo|]. destruct o as [j|].
    + destruct Ho as (i & -> & Hi & Hocc & Hmin). exists (S i). split_and!; [lia | lia | exact Hocc|].
      intros [|i'] Hi'; [exact Hno | apply (Hmin i'); lia].
    + intros [|i] Hi; [exact Hno | apply (Ho i); lia].
Qed.

(** Behind the text there is a terminator, which no pattern of bytes contains. *)
Lemma occurs_text p t r i : (i + length p <= length t)%nat -> occurs p (cstr t r) i <-> occurs p t i.
Proof.
  intros Hl. unfold occurs. rewrite drop_app_le, take_app_le by (rewrite ?length_drop; lia). done.
Qed.

(** ** Copies *)

Lemma take_insert_last (d : list Z) n c :
  (n < length d)%nat -> take (S n) (<[n := c]> d) = take n d ++ [c].
Proof.
  intros Hn. rewrite (take_S_r _ _ c) by (by rewrite list_lookup_insert_eq).
  by rewrite take_insert_ge.
Qed.

Lemma memcpy_at_spec n d i src :
  0 <= i -> (n <= length src)%nat -> i + Z.of_nat n <= Z.of_nat (length d) ->
  memcpy_at n d i src = Ok (take (Z.to_nat i) d ++ take n src ++ drop (Z.to_nat i + n) d).
Proof.
  revert d i src. induction n as [|n IH]; intros d i src Hi Hn Hd; cbn [memcpy_at].
  { change (take 0 src) with (@nil Z). cbn [app]. by rewrite Nat.add_0_r, take_drop. }
  destruct src as [|c src]; [cbn in Hn; lia|]. cbn [rd mbind res_bind tail length] in *.
  rewrite awrite_in by lia. cbn [mbind res_bind]. rewrite IH by (rewrite ?length_insert; lia).
  f_equal. replace (Z.to_nat (i + 1)) with (S (Z.to_nat i)) by lia.
  rewrite take_insert_last, drop_insert_lt by lia. rewrite <- app_assoc. cbn [take app].
  do 3 f_equal. f_equal. lia.
Qed.

Lemma memset_at_spec n d i c :
  0 <= i -> i + Z.of_nat n <= Z.of_nat (length d) ->
  memset_at n d i c = Ok (take (Z.to_nat i) d ++ replicate n (u8 c) ++ drop (Z.to_nat i + n) d).
Proof.
  revert d i. induction n as [|n IH]; intros d i Hi Hd; cbn [memset_at].
  { cbn. by rewrite Nat.add_0_r, take_drop. }
  rewrite awrite_in by lia. cbn [mbind res_bind]. rewrite IH by (rewrite ?length_insert; lia).
  f_equal. replace (Z.to_nat (i + 1)) with (S (Z.to_nat i)) by lia.
  rewrite take_insert_last, drop_insert_lt by lia. rewrite <- app_assoc. cbn [replicate app].
  do 3 f_equal. f_equal. lia.
Qed.

(** A terminated copy is a copy of the text and its terminator. *)
Lemma strcpy_at_spec d i t r :
  text t -> 0 <= i ->
  strcpy_at d i (cstr t r) =
    if decide (i + Z.of_nat (length t) < Z.of_nat (length d))
    then Ok (take (Z.to_nat i) d ++ (t ++ [0]) ++ drop (Z.to_nat i + length t + 1) d)
    else Fault OutOfBounds.
Proof.
  revert d i. induction t as [|c t IH]; intros d i Ht Hi; cbn [app strcpy_at].
  - case_decide as Hd; cbn [length] in Hd; [|rewrite awrite_oob by lia; done].
    rewrite awrite_in by lia. cbn. f_equal. rewrite Nat.add_0_r.
    rewrite insert_take_drop by lia. do 3 f_equal. lia.
  - apply Forall_cons in Ht as [Hc Ht]. cbn [length].
    destruct (decide (i < Z.of_nat (length d))) as [Hi'|Hi'].
    2:{ rewrite awrite_oob by lia. by rewrite decide_False by lia. }
    rewrite awrite_in by lia. cbn [mbind res_bind]. rewrite (proj2 (Z.eqb_neq c 0)) by done.
    rewrite IH by (done || lia). rewrite length_insert.
    destruct (decide (i + 1 + Z.of_nat (length t) < Z.of_nat (length d))).
    2:{ by rewrite decide_False by lia. }
    rewrite decide_True by lia. f_equal. replace (Z.to_nat (i + 1)) with (S (Z.to_nat i)) by lia.
    rewrite take_insert_last, drop_insert_lt by lia. rewrite <- !app_assoc. cbn [app].
    do 4 f_equal. f_equal. lia.
Qed.

Lemma strncpy_at_spec n d i t r :
  text t -> 0 <= i -> i + Z.of_nat n <= Z.of_nat (length d) ->
  strncpy_at n d i (cstr t r) =
    Ok (take (Z.to_nat i) d ++ take n (t ++ replicate n 0) ++ drop (Z.to_nat i + n) d).
Proof.
  revert d i t. induction n as [|n IH]; intros d i t Ht Hi Hd; cbn [strncpy_at].
  { rewrite take_0. cbn [app]. by rewrite Nat.add_0_r, take_drop. }
  assert (exists c t', rd (cstr t r) = Ok c /\ text t' /\
    (if negb (c =? 0) then tail (cstr t r) else cstr t r) = cstr t' r /\
    take (S n) (t ++ replicate (S n) 0) = c :: take n (t' ++ replicate n 0)) as (c & t' & E & Ht' & Es & Et).
  { destruct t as [|c t].
    - exists 0, []. split_and!; done.
    - apply Forall_cons in Ht as [Hc Ht]. exists c, t. split_and!; [done | done | |].
      + by rewrite (proj2 (Z.eqb_neq c 0)).
      + cbn [app take]. f_equal. rewrite !take_app. f_equal. rewrite !take_replicate. f_equal. lia. }
  rewrite E. cbn [mbind res_bind]. rewrite Es, Et, awrite_in by lia. cbn [mbind res_bind].
  rewrite IH by (done || (rewrite ?length_insert; lia)). f_equal.
  replace (Z.to_nat (i + 1)) with (S (Z.to_nat i)) by lia.
  rewrite take_insert_last, drop_insert_lt by lia. rewrite <- app_assoc. cbn [app].
  do 3 f_equal. f_equal. lia.
Qed.

(** ** Moving inside one object *)

(** The object after [n] bytes went from offset [s] to offset [d]. *)
Definition moved (n d s : nat) (m : list Z) : list Z :=
  take d m ++ take n (drop s m) ++ drop (d + n) m.

Lemma move_up_spec n m d s :
  (d <= s)%nat -> (s + n <= length m)%nat ->
  move_up n m (Z.of_nat d) (Z.of_nat s) = Ok (moved n d s m).
Proof.
  unfold moved. revert m d s. induction n as [|n IH]; intros m d s Hds Hl; cbn [move_up].
  { rewrite take_0, Nat.add_0_r. cbn [app]. by rewrite take_drop. }
  destruct (lookup_lt_is_Some_2 m s) as [c Hc]; [lia|].
  rewrite (aread_lookup _ _ c) by (lia || by rewrite Nat2Z.id). cbn [mbind res_bind].
  rewrite awrite_in by lia. cbn [mbind res_bind]. rewrite Nat2Z.id.
  replace (Z.of_nat d + 1) with (Z.of_nat (S d)) by lia. replace (Z.of_nat s + 1) with (Z.of_nat (S s)) by lia.
  rewrite IH by (rewrite ?length_insert; lia). f_equal.
  rewrite (take_S_r _ d c) by (rewrite list_lookup_insert_eq; [done|lia]).
  rewrite take_insert_ge, !drop_insert_lt by lia. rewrite (drop_S m c s) by done.
  rewrite <- app_assoc. cbn [take app]. do 3 f_equal. f_equal. lia.
Qed.

Lemma move_down_spec n m d s :
  (s < d)%nat -> (d + n <= length m)%nat ->
  move_down n m (Z.of_nat (d + n)) (Z.of_nat (s + n)) = Ok (moved n d s m).
Proof.
  unfold moved. revert m. induction n as [|n IH]; intros m Hds Hl; cbn [move_down].
  { rewrite take_0, Nat.add_0_r. cbn [app]. by rewrite take_drop. }
  replace (Z.of_nat (s + S n) - 1) with (Z.of_nat (s + n)) by lia.
  replace (Z.of_nat (d + S n) - 1) with (Z.of_nat (d + n)) by lia.
  destruct (lookup_lt_is_Some_2 m (s + n)) as [c Hc]; [lia|].
  rewrite (aread_lookup _ _ c) by (lia || by rewrite Nat2Z.id). cbn [mbind res_bind].
  rewrite awrite_in by lia. cbn [mbind res_bind]. rewrite Nat2Z.id, IH by (rewrite ?length_insert; lia).
  f_equal. rewrite take_insert_ge by lia. f_equal.
  rewrite (take_S_r (drop s m) n c) by (by rewrite lookup_drop).
  rewrite !take_drop_commute, take_insert_ge by lia. rewrite <- app_assoc. f_equal.
  rewrite drop_insert_ge, Nat.sub_diag by lia.
  destruct (drop (d + n) m) as [|x l] eqn:El.
  { apply (f_equal length) in El. rewrite length_drop in El. cbn in El. lia. }
  cbn. f_equal. replace (d + S n)%nat with (d + n + 1)%nat by lia. by rewrite <- drop_drop, El.
Qed.

Lemma moved_lookup n d s m i :
  0 <= d -> 0 <= s -> 0 <= n -> d + n <= Z.of_nat (length m) -> s + n <= Z.of_nat (length m) ->
  moved (Z.to_nat n) (Z.to_nat d) (Z.to_nat s) m !! i =
    if decide (d <= Z.of_nat i < d + n) then m !! Z.to_nat (s + (Z.of_nat i - d)) else m !! i.
Proof.
  intros Hd Hs Hn Hdl Hsl. unfold moved. destruct (decide (i < Z.to_nat d)%nat).
  - rewrite decide_False by lia. rewrite lookup_app_l by (rewrite length_take; lia).
    by rewrite lookup_take_lt by lia.
  - rewrite lookup_app_r, length_take, Nat.min_l by (rewrite ?length_take; lia).
    case_decide.
    + rewrite lookup_app_l by (rewrite length_take, length_drop; lia).
      rewrite lookup_take_lt, lookup_drop by lia. f_equal. lia.
    + rewrite lookup_app_r, length_take, length_drop, Nat.min_l by (rewrite ?length_take, ?length_drop; lia).
      rewrite lookup_drop. f_equal. lia.
Qed.

(** ** [memchr_inv] *)

Abbreviation other v := (index (fun x => x <> v)).

Lemma check_bytes8_spec k p v n :
  0 <= n <= Z.of_nat (length p) ->
  check_bytes8 k p v n = Ok ((fun i => k + i) <$> other v (take (Z.to_nat n) p)).
Proof.
  revert k n. induction p as [|x p IH]; intros k n Hn; cbn [check_bytes8 length] in *;
    (destruct (Z.eqb_spec n 0) as [->|]; [by rewrite take_0|]); [lia|].
  replace (Z.to_nat n) with (S (Z.to_nat (n - 1))) by lia. cbn [take]. rewrite index_cons.
  destruct (Z.eqb_spec x v); cbn [negb].
  - rewrite decide_False by tauto. rewrite IH by lia.
    destruct (index _ (take _ p)); cbn; [do 2 f_equal; lia | done].
  - rewrite decide_True by done. cbn. do 2 f_equal. lia.
Qed.

(** The number that bytes spell, least significant first. *)
Fixpoint le_value (p : list Z) : Z :=
  match p with [] => 0 | x :: p' => x + 256 * le_value p' end.

Lemma load_le_spec n p : (n <= length p)%nat -> load_le n p = Ok (le_value (take n p)).
Proof.
  revert p. induction n as [|n IH]; intros p Hn; [by rewrite take_0|].
  destruct p as [|x p]; [cbn in Hn; lia|]. cbn [load_le take le_value length] in *. by rewrite IH by lia.
Qed.

Abbreviation octets := (Forall (fun x => 0 <= x < 256)).

Lemma le_value_inj p q : octets p -> octets q -> length p = length q -> le_value p = le_value q -> p = q.
Proof.
  revert q. induction p as [|x p IH]; intros [|y q] Hp Hq Hl Hv; try done.
  apply Forall_cons in Hp as [Hx Hp], Hq as [Hy Hq]. cbn in Hl, Hv.
  assert (x = y /\ le_value p = le_value q) as [-> E] by lia. f_equal. apply IH; auto.
Qed.

Lemma spread64_spec v : 0 <= v < 256 -> spread64 v = le_value (replicate 8 v).
Proof.
  intros Hv. pose proof (forallb_below 256 (fun v => spread64 v =? le_value (replicate 8 v)) v eq_refl Hv) as E.
  by apply Z.eqb_eq in E.
Qed.

Lemma other_none v l : other v l = None <-> l = replicate (length l) v.
Proof.
  induction l as [|x l IH]; [done|]. rewrite index_cons. cbn [length replicate].
  case_decide as Hx.
  - split; [done|]. by intros [= ? _].
  - assert (x = v) as -> by lia. destruct (index _ l); cbn.
    + split; [done|]. intros [= E]. by apply IH in E.
    + split; [|done]. intros _. f_equal. by apply IH.
Qed.

Lemma octets_take n l : octets l -> octets (take n l).
Proof. apply Forall_take. Qed.
Lemma octets_drop n l : octets l -> octets (drop n l).
Proof. apply Forall_drop. Qed.

Lemma inv_words_spec w k p v rest :
  octets p -> 0 <= v < 256 -> 0 <= rest -> 8 * Z.of_nat w + rest <= Z.of_nat (length p) ->
  inv_words w k p v (spread64 v) rest =
    Ok ((fun i => k + i) <$> other v (take (Z.to_nat (8 * Z.of_nat w + rest)) p)).
Proof.
  intros Hp Hv Hr. revert k p Hp. induction w as [|w IH]; intros k p Hp Hl; cbn [inv_words].
  { rewrite check_bytes8_spec by lia. by replace (8 * Z.of_nat 0 + rest) with rest by lia. }
  rewrite load_le_spec by lia. cbn [mbind res_bind]. rewrite spread64_spec by done.
  replace (Z.to_nat (8 * Z.of_nat (S w) + rest)) with (8 + Z.to_nat (8 * Z.of_nat w + rest))%nat by lia.
  rewrite <- take_take_drop, index_app.
  destruct (Z.eqb_spec (le_value (take 8 p)) (le_value (replicate 8 v))) as [E|E]; cbn [negb].
  - apply le_value_inj in E; [|by apply octets_take|by apply Forall_replicate|by rewrite length_take, length_replicate; lia].
    rewrite E, (proj2 (other_none v _)) by (by rewrite length_replicate).
    rewrite <- spread64_spec, IH by (done || by apply octets_drop || (rewrite length_drop; lia)).
    rewrite length_replicate. destruct (index _ (take _ (drop 8 p))); cbn; [do 2 f_equal; lia | done].
  - rewrite check_bytes8_spec by lia. change (Z.to_nat 8) with 8%nat.
    destruct (index _ (take 8 p)) eqn:En; [done|]. exfalso. apply E, f_equal.
    apply other_none in En. rewrite length_take in En. by replace (8 `min` length p)%nat with 8%nat in En by lia.
Qed.

Lemma memchr_inv_spec addr p c n :
  octets p -> 0 <= n <= Z.of_nat (length p) ->
  memchr_inv addr p c n = Ok (other (u8 c) (take (Z.to_nat n) p)).
Proof.
  intros Hp Hn. pose proof (u8_range c) as Hc. unfold memchr_inv.
  assert (forall o : option Z, (fun i => 0 + i) <$> o = o) as E0 by (by intros [i|]).
  destruct (Z.leb_spec n 16); [rewrite check_bytes8_spec by lia; by rewrite E0|].
  destruct (Z.eqb_spec (addr mod 8) 0) as [Ea|Ea]; cbn [negb].
  - rewrite inv_words_spec by (done || dlia). rewrite E0. do 3 f_equal. dlia.
  - pose proof (Z.mod_pos_bound addr 8 ltac:(lia)). set (q := 8 - addr mod 8).
    assert (1 <= q <= 7) by lia. rewrite check_bytes8_spec by lia. rewrite E0. cbn [mbind res_bind].
    replace (take (Z.to_nat n) p) with (take (Z.to_nat q) p ++ take (Z.to_nat (n - q)) (drop (Z.to_nat q) p)).
    2:{ rewrite take_take_drop. f_equal. lia. }
    rewrite index_app. destruct (index _ (take (Z.to_nat q) p)) as [i|]; [done|].
    rewrite inv_words_spec by (done || by apply octets_drop || (rewrite ?length_drop; dlia)).
    rewrite length_take, Nat.min_l by lia. f_equal.
    replace (8 * Z.of_nat (Z.to_nat ((n - q) / 8)) + (n - q) mod 8) with (n - q) by dlia.
    rewrite Z2Nat.id by lia. done.
Qed.

(** ** Bounded copies *)

(** A text of at most [n] bytes and its terminator, over the start of a buffer. *)
Definition put (t d : list Z) : list Z := t ++ 0 :: drop (length t + 1) d.

Lemma awrite_end t d :
  (length t < length d)%nat ->
  awrite (t ++ drop (length t) d) (Z.of_nat (length t)) 0 = Ok (put t d).
Proof.
  intros Hl. rewrite awrite_in by (rewrite length_app, length_drop; lia).
  rewrite Nat2Z.id, insert_app_r_alt, Nat.sub_diag by lia. unfold put. do 2 f_equal.
  destruct (drop (length t) d) as [|x l] eqn:E.
  - apply (f_equal length) in E. rewrite length_drop in E. cbn in E. lia.
  - cbn. f_equal. by rewrite <- drop_drop, E.
Qed.

Lemma strlcpy_spec d t r size :
  text t -> 0 <= size <= Z.of_nat (length d) ->
  strlcpy d (cstr t r) size =
    Ok (Z.of_nat (length t), if size =? 0 then d else put (take (Z.to_nat (size - 1)) t) d).
Proof.
  intros Ht Hs. unfold strlcpy. rewrite strlen_cstr by done. cbn [mbind res_bind].
  destruct (Z.eqb_spec size 0); cbn [negb]; [done|].
  set (len := if size <=? Z.of_nat (length t) then size - 1 else Z.of_nat (length t)).
  assert (len = Z.of_nat (length (take (Z.to_nat (size - 1)) t)) /\ 0 <= len < size) as [El Hl].
  { rewrite length_take. unfold len. destruct (Z.leb_spec size (Z.of_nat (length t))); lia. }
  unfold memcpy. rewrite memcpy_at_spec by (rewrite ?length_app; cbn [length]; rewrite ?length_take in *; lia).
  cbn [mbind res_bind]. rewrite take_0, Nat.add_0_l. cbn [app].
  assert (take (Z.to_nat len) (cstr t r) = take (Z.to_nat (size - 1)) t) as ->.
  { rewrite length_take in El. rewrite take_app_le by lia.
    destruct (decide (length t <= Z.to_nat (size - 1))%nat).
    - rewrite !take_ge; [done|lia|lia].
    - f_equal. lia. }
  rewrite El, Nat2Z.id, awrite_end by (rewrite length_take in *; lia). done.
Qed.

Lemma strcat_spec d u x t r :
  d = cstr u x -> text u -> text t ->
  strcat d (cstr t r) =
    if decide (Z.of_nat (length u) + Z.of_nat (length t) < Z.of_nat (length d))
    then Ok (put (u ++ t) d) else Fault OutOfBounds.
Proof.
  intros -> Hu Ht. unfold strcat. rewrite strlen_cstr by done. cbn [mbind res_bind].
  rewrite strcpy_at_spec by (done || lia). case_decide; [|done]. f_equal. unfold put.
  rewrite Nat2Z.id, take_app_length, length_app. by rewrite <- !app_assoc.
Qed.

Lemma strncat_at_eq n d i c s :
  strncat_at n d i (c :: s) =
    (d ← awrite d i c;
     if c =? 0 then Ok d
     else match n with
          | O | S O => awrite d (i + 1) 0
          | S n' => strncat_at n' d (i + 1) s
          end).
Proof. destruct n; done. Qed.

Lemma strncat_at_spec n d i t r :
  text t -> (0 < n)%nat -> 0 <= i -> i + Z.of_nat (min n (length t)) < Z.of_nat (length d) ->
  strncat_at n d i (cstr t r) =
    Ok (take (Z.to_nat i) d ++ take n t ++ 0 :: drop (Z.to_nat i + min n (length t) + 1) d).
Proof.
  revert n d i. induction t as [|c t IH]; intros n d i Ht Hn Hi Hd; cbn [app]; rewrite strncat_at_eq.
  - rewrite Nat.min_0_r in *. rewrite awrite_in by lia. cbn [mbind res_bind Z.eqb]. f_equal.
    rewrite take_nil, insert_take_drop by lia. cbn [app]. do 3 f_equal. lia.
  - apply Forall_cons in Ht as [Hc Ht]. cbn [length] in Hd.
    rewrite awrite_in by lia. cbn [mbind res_bind]. rewrite (proj2 (Z.eqb_neq c 0)) by done.
    assert (S (Z.to_nat i) < length d)%nat by lia.
    pose proof (take_insert_last d (Z.to_nat i) c ltac:(lia)) as Htk.
    destruct n as [|[|n]]; [lia| |].
    + rewrite awrite_in by (rewrite length_insert; lia). f_equal.
      replace (Z.to_nat (i + 1)) with (S (Z.to_nat i)) by lia.
      rewrite insert_take_drop, Htk, drop_insert_lt by (rewrite ?length_insert; lia).
      rewrite <- app_assoc. cbn [take app length]. do 3 f_equal. rewrite take_0. cbn [app]. do 2 f_equal. lia.
    + rewrite IH by (done || (rewrite ?length_insert; lia)). f_equal.
      replace (Z.to_nat (i + 1)) with (S (Z.to_nat i)) by lia.
      rewrite Htk, drop_insert_lt by lia.
      rewrite <- app_assoc. cbn [take app length]. do 4 f_equal. f_equal. lia.
Qed.

Lemma strlcat_spec d u x t r count :
  d = cstr u x -> text u -> text t -> count <= Z.of_nat (length d) ->
  Z.of_nat (length u) + Z.of_nat (length t) < 2 ^ 32 ->
  strlcat d (cstr t r) count =
    if count <=? Z.of_nat (length u) then Fault KernelBug
    else Ok (Z.of_nat (length u) + Z.of_nat (length t),
             put (u ++ take (Z.to_nat (count - Z.of_nat (length u) - 1)) t) d).
Proof.
  intros Ed Hu Ht Hc Hlt. unfold strlcat. rewrite Ed at 1. rewrite !strlen_cstr by done. cbn [mbind res_bind].
  rewrite u32_small by lia. destruct (Z.leb_spec count (Z.of_nat (length u))); [done|].
  set (m := Z.to_nat (count - Z.of_nat (length u) - 1)).
  set (len := if count - Z.of_nat (length u) <=? Z.of_nat (length t) then _ else _).
  assert (len = Z.of_nat (length (take m t))) as ->.
  { rewrite length_take. unfold len, m. destruct (Z.leb_spec (count - Z.of_nat (length u)) (Z.of_nat (length t))); lia. }
  assert (Z.of_nat (length u) + Z.of_nat (length (take m t)) < Z.of_nat (length d)) by (rewrite length_take; lia).
  rewrite memcpy_at_spec by (rewrite ?length_app; cbn [length]; rewrite ?length_take in *; lia).
  cbn [mbind res_bind]. rewrite !Nat2Z.id.
  assert (take (length (take m t)) (cstr t r) = take m t) as ->.
  { rewrite length_take, take_app_le by lia. destruct (decide (length t <= m)%nat);
      [rewrite !take_ge; done || lia | f_equal; lia]. }
  assert (take (length u) d = u) as -> by (rewrite Ed; apply take_app_length).
  rewrite <- (length_app u (take m t)), app_assoc, <- (Nat2Z.inj_add (length u) (length (take m t))), <- (length_app u (take m t)).
  rewrite awrite_end; [done|]. rewrite length_app. lia.
Qed.

(** ** Trimming and splitting *)

Lemma index_all P `{forall x, Decision (P x)} l : Forall (fun x => ~ P x) l -> index P l = None.
Proof.
  induction 1 as [|x l Hx _ IH]; [done|]. by rewrite index_cons, decide_False, IH.
Qed.

Lemma skip_spaces_cstr k t r :
  skip_spaces_from k (cstr t r) =
    Ok (k + default (Z.of_nat (length t)) (index (fun x => isspace x = false) t)).
Proof.
  revert k. induction t as [|x t IH]; intros k; cbn [app skip_spaces_from]; [cbn; f_equal; lia|].
  rewrite index_cons. destruct (isspace x); cbn [decide].
  - rewrite decide_False by done. rewrite IH.
    destruct (index _ t); cbn [fmap option_fmap option_map default length]; unfold id; f_equal; lia.
  - rewrite decide_True by done. cbn. f_equal. lia.
Qed.

Definition blank (t : list Z) : Prop := Forall (fun c => isspace c = true) t.
(** A text with no white space at either end. *)
Definition trimmed (t : list Z) : Prop :=
  (forall c, head t = Some c -> isspace c = false) /\ (forall c, last t = Some c -> isspace c = false).

Lemma strim_end_spec s a w r :
  s = a ++ w ++ r -> blank w -> (forall c, last a = Some c -> isspace c = false) ->
  strim_end (length a + length w) s = Ok (length a).
Proof.
  revert r. induction w as [|c w IH] using rev_ind; intros r -> Hw Ha.
  - cbn [length app]. rewrite Nat.add_0_r. destruct a as [|c a _] using rev_ind; [done|].
    rewrite length_app, Nat.add_1_r. cbn [strim_end].
    rewrite (aread_lookup _ _ c) by (try lia; rewrite Nat2Z.id, <- app_assoc, lookup_app_r, Nat.sub_diag by lia; done).
    cbn [mbind res_bind]. rewrite Ha; [done|]. apply last_snoc.
  - apply Forall_app in Hw as [Hw Hc]. apply Forall_cons in Hc as [Hc _].
    rewrite length_app, Nat.add_1_r, Nat.add_succ_r. cbn [strim_end].
    rewrite (aread_lookup _ _ c).
    + cbn [mbind res_bind]. rewrite Hc. by apply (IH (c :: r)); rewrite <- ?app_assoc.
    + lia.
    + rewrite Nat2Z.id, <- !app_assoc, lookup_app_r by lia.
      by rewrite lookup_app_r, Nat.add_comm, Nat.add_sub, Nat.sub_diag by lia.
Qed.

(** The kept part is found whatever white space surrounds it; the only byte written
    is the terminator after it. *)
Theorem strim_trims l a w r :
  text (l ++ a ++ w) -> blank l -> blank w -> trimmed a -> (a = [] -> l = []) ->
  strim (cstr (l ++ a ++ w) r) =
    Ok (put (l ++ a) (cstr (l ++ a ++ w) r), Z.of_nat (length l)).
Proof.
  intros Ht Hl Hw [Ha1 Ha2] Hnil. unfold strim. rewrite strlen_cstr by done. cbn [mbind res_bind].
  destruct (Z.eqb_spec (Z.of_nat (length (l ++ a ++ w))) 0) as [E0|_].
  { rewrite !length_app in E0. by destruct l, a, w. }
  rewrite Nat2Z.id, app_assoc, (length_app (l ++ a)), strim_end_spec with (r := 0 :: r); [|by rewrite <- app_assoc|done|].
  2:{ intros c Hc. destruct a as [|x a]; [rewrite Hnil in Hc by done; done|].
      apply Ha2. by rewrite last_app_cons in Hc. }
  cbn [mbind res_bind].
  assert (awrite (cstr ((l ++ a) ++ w) r) (Z.of_nat (length (l ++ a))) 0 = Ok (put (l ++ a) (cstr ((l ++ a) ++ w) r))) as ->.
  { rewrite <- awrite_end by (rewrite !length_app; cbn; lia). f_equal.
    by rewrite <- app_assoc, drop_app_length. }
  cbn [mbind res_bind]. unfold put. unfold skip_spaces. rewrite skip_spaces_cstr.
  cbn [mbind res_bind]. do 3 f_equal. rewrite index_app, index_all.
  2:{ eapply Forall_impl; [exact Hl|]. cbv beta. congruence. }
  destruct a as [|x a]; [rewrite Hnil by done; done|]. rewrite index_cons, decide_True by (by apply Ha1).
  cbn. lia.
Qed.

(** A token ends at the first delimiter, which is overwritten; at the end of the
    text the position becomes NULL. *)
Theorem strsep_token buf b p t r a r' :
  buf = p ++ cstr t r -> b = Z.of_nat (length p) -> text t -> text a ->
  strsep buf (Some b) (cstr a r') =
    Ok (match index (fun x => x ∈ a) t with
        | Some k => (Some b, p ++ <[Z.to_nat k := 0]> (cstr t r), Some (b + k + 1))
        | None => (Some b, buf, None)
        end).
Proof.
  intros -> -> Ht Ha. unfold strsep. rewrite Nat2Z.id, drop_app_length. unfold strpbrk.
  rewrite strpbrk_cstr by done. cbn [mbind res_bind].
  destruct (index _ t) as [k|] eqn:Ek; cbn [fmap option_fmap option_map]; [|done].
  unfold index in Ek. destruct (list_find _ t) as [[i x]|] eqn:Ef; [|done]. cbn in Ek. injection Ek as <-.
  apply list_find_Some in Ef as (Hi & _ & _). apply lookup_lt_Some in Hi.
  rewrite awrite_in by (rewrite !length_app; cbn; lia). cbn [mbind res_bind].
  do 4 f_equal; try lia. rewrite Z.add_0_l, <- Nat2Z.inj_add, !Nat2Z.id. by rewrite insert_app_r.
Qed.

(** * Properties *)

(** On a terminated string every scanning routine returns the position it
    promises and reads no byte behind the terminator: the length ([strlen],
    [strnlen]), the first or last occurrence of a character, the terminator
    included ([strchr], [strrchr]) or not ([strchrnul], [strnchr]), the first
    character outside or inside a set ([strspn], [skip_spaces], [strcspn],
    [strpbrk]). *)
Theorem string_scans t r a ra c n :
  text t -> text a -> 0 <= n ->
  let len := Z.of_nat (length t) in
  strlen (cstr t r) = Ok len /\
  strnlen (cstr t r) n = Ok (Z.min len n) /\
  strchr (cstr t r) c = Ok (index (fun x => x = u8 c) (t ++ [0])) /\
  strrchr (cstr t r) c = Ok (rindex (fun x => x = u8 c) (t ++ [0])) /\
  strchrnul (cstr t r) c = Ok (default len (index (fun x => x = u8 c) t)) /\
  strnchr (cstr t r) n c = Ok (index (fun x => x = u8 c) (take (Z.to_nat n) t)) /\
  skip_spaces (cstr t r) = Ok (default len (index (fun x => isspace x = false) t)) /\
  strspn (cstr t r) (cstr a ra) = Ok (default len (index (fun x => x ∉ a) t)) /\
  strcspn (cstr t r) (cstr a ra) = Ok (default len (index (fun x => x ∈ a) t)) /\
  strpbrk (cstr t r) (cstr a ra) = Ok (index (fun x => x ∈ a) t).
Proof.
  intros Ht Ha Hn len.
  unfold strchr, strrchr, strchrnul, strnchr, skip_spaces, strspn, strcspn, strpbrk.
  rewrite strlen_cstr, strnlen_cstr, strchr_cstr, strrchr_cstr, strchrnul_cstr, strnchr_cstr,
    skip_spaces_cstr, strspn_cstr, strcspn_cstr, strpbrk_cstr by done.
  split_and!; try done; by destruct (index _ _) || destruct (rindex _ _).
Qed.

Lemma string_scans_witness : strchr (cstr [72; 105; 33] [7]) 105 = Ok (Some 1).
Proof.
  refine (proj1 (proj2 (proj2 (string_scans [72; 105; 33] [7] [33] [] 105 2 _ _ _)))).
  - repeat constructor; lia.
  - repeat constructor; lia.
  - lia.
Defined.

(** [strcmp], [strncmp] and [memcmp] compare: [strcmp] on texts of bytes is the
    sign of the lexicographic order, 0 exactly on equal texts and antisymmetric;
    [strncmp] is the same on the first [n] characters.  [strstr] returns the first
    offset at which the pattern occurs and NULL exactly when it occurs nowhere. *)
Theorem string_order_and_search t rt p rp n :
  bytes t -> bytes p -> 0 <= n ->
  strcmp (cstr t rt) (cstr p rp) = Ok (lexcmp t p) /\
  (lexcmp t p = 0 <-> t = p) /\ lexcmp p t = - lexcmp t p /\
  strncmp (cstr t rt) (cstr p rp) n = Ok (lexcmp (take (Z.to_nat n) t) (take (Z.to_nat n) p)) /\
  exists o, strstr (cstr t rt) (cstr p rp) = Ok o /\
    match o with
    | Some j => exists i, j = Z.of_nat i /\ (i + length p <= length t)%nat /\
                  occurs p t i /\ forall i', (i' < i)%nat -> ~ occurs p t i'
    | None => forall i, ~ occurs p t i
    end.
Proof.
  intros Ht Hp Hn. pose proof (bytes_text _ Ht) as Tt. pose proof (bytes_text _ Hp) as Tp.
  split_and!; [by apply strcmp_cstr | apply lexcmp_eq | apply lexcmp_antisym | by apply strncmp_cstr |].
  unfold strstr. rewrite !strlen_cstr by done. cbn [mbind res_bind]. rewrite Nat2Z.id.
  destruct (Z.eqb_spec (Z.of_nat (length p)) 0) as [E0|Hp0].
  { destruct p; [|cbn in E0; lia]. eexists. split; [done|]. exists 0%nat.
    split_and!; [done | cbn; lia | by unfold occurs | lia]. }
  destruct (strstr_loop_spec (length t) 0 (cstr t rt) (cstr p rp) p (0 :: rp)) as (o & Eo & Ho);
    [done | by intros -> | rewrite length_app; lia |].
  exists o. split; [exact Eo|]. destruct o as [j|].
  - destruct Ho as (i & -> & Hl & Hi & Hmin). exists i. split_and!; [lia | done | |].
    + by apply (occurs_text p t rt).
    + intros i' Hi' Ho'. apply (Hmin i' Hi'), (occurs_text p t rt); [lia | done].
  - intros i Hi. pose proof (f_equal length Hi) as El. rewrite length_take, length_drop in El.
    apply (Ho i ltac:(lia)), (occurs_text p t rt); [lia | done].
Qed.

Lemma string_order_and_search_witness :
  strcmp (cstr [72; 105] []) (cstr [72; 106] [9]) = Ok (-1).
Proof.
  refine (proj1 (string_order_and_search [72; 105] [] [72; 106] [9] 0 _ _ _)).
  - repeat constructor; lia.
  - repeat constructor; lia.
  - lia.
Defined.

(** C17: The copies write exactly what they promise and nowhere outside the buffer:
    [strcpy] succeeds exactly when the text and its terminator fit and is an
    out-of-bounds write otherwise; [strncpy] writes [n] bytes, zero-filled but
    unterminated when the text is that long; [strlcpy] always terminates within
    [size] and returns the length it tried for; [strcat] needs the room for both
    texts; [strlcat] truncates, returns the sum of the lengths, and is a BUG when
    the limit does not cover the text already there; [strncat] appends at most [n]
    characters and a terminator. *)
Theorem string_copies d u x t r n :
  text t -> text u -> d = cstr u x -> 0 <= n <= Z.of_nat (length d) ->
  Z.of_nat (length u) + Z.of_nat (length t) < 2 ^ 32 ->
  let lu := Z.of_nat (length u) in
  let lt := Z.of_nat (length t) in
  strcpy d (cstr t r) = (if decide (lt < Z.of_nat (length d)) then Ok (put t d) else Fault OutOfBounds) /\
  strncpy d (cstr t r) n =
    Ok (take (Z.to_nat n) (t ++ replicate (Z.to_nat n) 0) ++ drop (Z.to_nat n) d) /\
  strlcpy d (cstr t r) n = Ok (lt, if n =? 0 then d else put (take (Z.to_nat (n - 1)) t) d) /\
  strcat d (cstr t r) =
    (if decide (lu + lt < Z.of_nat (length d)) then Ok (put (u ++ t) d) else Fault OutOfBounds) /\
  strlcat d (cstr t r) n =
    (if n <=? lu then Fault KernelBug
     else Ok (lu + lt, put (u ++ take (Z.to_nat (n - lu - 1)) t) d)) /\
  (lu + Z.min n lt < Z.of_nat (length d) ->
   strncat d (cstr t r) n = Ok (if n =? 0 then d else put (u ++ take (Z.to_nat n) t) d)).
Proof.
  intros Ht Hu Hd Hn Hlen lu lt. split_and!.
  - unfold strcpy. rewrite strcpy_at_spec by (done || lia). rewrite Z.add_0_l. fold lt.
    case_decide; [|done]. f_equal. unfold put. cbn [take app Nat.add]. by rewrite <- app_assoc.
  - unfold strncpy. rewrite strncpy_at_spec by (done || lia). done.
  - apply strlcpy_spec; done || lia.
  - by eapply strcat_spec.
  - eapply strlcat_spec; done || lia.
  - intros Hfit. unfold strncat. destruct (Z.eqb_spec n 0) as [|Hn0]; [done|].
    assert (strlen d = Ok lu) as -> by (rewrite Hd; by apply strlen_cstr). cbn [mbind res_bind].
    rewrite strncat_at_spec by (done || lia). f_equal. unfold lu. rewrite Nat2Z.id.
    unfold put. rewrite length_app, length_take, <- app_assoc. f_equal.
    rewrite Hd. apply take_app_length.
Qed.

Lemma string_copies_witness :
  strlcpy (cstr [65] [9; 9]) (cstr [66; 67; 68; 69] []) 3 = Ok (4, [66; 67; 0; 9]).
Proof.
  refine (proj1 (proj2 (proj2 (string_copies (cstr [65] [9; 9]) [65] [9; 9] [66; 67; 68; 69] [] 3 _ _ _ _ _)))).
  - repeat constructor; lia.
  - repeat constructor; lia.
  - done.
  - cbn. lia.
  - cbn. lia.
Defined.

(** [memmove] inside one object moves the bytes as if through a temporary, for
    every overlap of source and destination; [memcpy] and [memset] on a buffer that
    holds the range write exactly that range; [memchr_inv] finds the first byte that
    differs from [c] whatever the alignment of the area: eight bytes at a time after the
    alignment prefix is the same as byte by byte, and no byte outside the area is read. *)
Theorem memory_blocks m d s n src c :
  0 <= d -> 0 <= s -> 0 <= n -> d + n <= Z.of_nat (length m) -> s + n <= Z.of_nat (length m) ->
  n <= Z.of_nat (length src) ->
  memmove m d s n = Ok (moved (Z.to_nat n) (Z.to_nat d) (Z.to_nat s) m) /\
  (forall i, (i < length m)%nat ->
     moved (Z.to_nat n) (Z.to_nat d) (Z.to_nat s) m !! i =
       if decide (d <= Z.of_nat i < d + n) then m !! Z.to_nat (s + (Z.of_nat i - d)) else m !! i) /\
  memcpy m src n = Ok (take (Z.to_nat n) src ++ drop (Z.to_nat n) m) /\
  memset m c n = Ok (replicate (Z.to_nat n) (u8 c) ++ drop (Z.to_nat n) m) /\
  (forall addr, octets m ->
     memchr_inv addr m c n = check_bytes8 0 m (u8 c) n /\
     memchr_inv addr m c n = Ok (other (u8 c) (take (Z.to_nat n) m))).
Proof.
  intros Hd Hs Hn Hdl Hsl Hsrc. split_and!.
  - unfold memmove. destruct (Z.leb_spec d s).
    + rewrite <- (Z2Nat.id d), <- (Z2Nat.id s) at 1 by lia. apply move_up_spec; lia.
    + replace (d + n) with (Z.of_nat (Z.to_nat d + Z.to_nat n)) by lia.
      replace (s + n) with (Z.of_nat (Z.to_nat s + Z.to_nat n)) by lia.
      apply move_down_spec; lia.
  - intros i Hi. apply moved_lookup; lia.
  - unfold memcpy. by rewrite memcpy_at_spec by lia.
  - unfold memset. by rewrite memset_at_spec by lia.
  - intros addr Ho. rewrite memchr_inv_spec, check_bytes8_spec by (done || lia).
    split; [by destruct (index _ _) | done].
Qed.

Lemma memory_blocks_witness : memmove [1; 2; 3; 4] 1 0 3 = Ok [1; 1; 2; 3].
Proof.
  refine (proj1 (memory_blocks [1; 2; 3; 4] 1 0 3 [5; 6; 7] 0 _ _ _ _ _ _)); cbn; lia.
Defined.
