(* ===== verification/KMath.v ===== *)
(** * Integer arithmetic of the kernel library

    lib/div64.c with include/linux/math64.h and the generic [do_div]: 64-bit division
    on a 32-bit machine; lib/gcd.c, lib/lcm.c, lib/int_sqrt.c, lib/bcd.c;
    lib/reciprocal_div.c: division by a precomputed reciprocal; [fls] of the ARM
    bit operations.  [unsigned long] has 32 bits.  Each loop that counts down no
    bound of its own carries fuel; the theorems show it suffices. *)

From S2P Require Import Prelude.
Open Scope Z_scope.

(** ** Last set bit *)

(** One test of [constant_fls]: [s] zeros on top are shifted out. *)
Definition fls_test (mask s : Z) (xr : Z * Z) : Z * Z :=
  let '(x, r) := xr in
  if Z.land x mask =? 0 then (u32 (Z.shiftl x s), r - s) else (x, r).
Definition constant_fls (x : Z) : Z :=
  let x := u32 x in
  if x =? 0 then 0
  else snd (fls_test 0x80000000 1 (fls_test 0xc0000000 2 (fls_test 0xf0000000 4
         (fls_test 0xff000000 8 (fls_test 0xffff0000 16 (x, 32)))))).
(** The [clz] instruction: the number of leading zeros. *)
Definition __clz (x : Z) : Z := if u32 x =? 0 then 32 else 31 - Z.log2 (u32 x).
Definition fls (x : Z) : Z := i32 (32 - __clz x).

(** ** Greatest common divisor *)

Fixpoint gcd_loop (fuel : nat) (a b : Z) : res Z :=
  match fuel with
  | O => Fault NoFuel
  | S fuel' =>
      if b =? 0 then Fault DivByZero
      else
        let r := a mod b in
        if negb (r =? 0) then gcd_loop fuel' b r else Ok b
  end.
(** After the swap [b] bounds the number of divisions. *)
Definition gcd (a b : Z) : res Z :=
  let '(a, b) := if a <? b then (b, a) else (a, b) in
  if b =? 0 then Ok a else gcd_loop (Z.to_nat b) a b.

Definition lcm (a b : Z) : res Z :=
  if negb (a =? 0) && negb (b =? 0) then
    g ← gcd a b;
    if g =? 0 then Fault DivByZero else Ok (u32 (a / g * b))
  else Ok 0.
Definition lcm_not_zero (a b : Z) : res Z :=
  l ← lcm a b;
  Ok (if negb (l =? 0) then l else if negb (b =? 0) then b else a).

(** ** Square root *)

Fixpoint int_sqrt_loop (fuel : nat) (x m y : Z) : res Z :=
  match fuel with
  | O => Fault NoFuel
  | S fuel' =>
      if negb (m =? 0) then
        let b := u32 (y + m) in
        let y := Z.shiftr y 1 in
        let '(x, y) := if b <=? x then (u32 (x - b), u32 (y + m)) else (x, y) in
        int_sqrt_loop fuel' x (Z.shiftr m 2) y
      else Ok y
  end.
(** [m] starts at 2^30 and loses two bits each round: 16 rounds. *)
Definition int_sqrt (x : Z) : res Z :=
  if x <=? 1 then Ok x else int_sqrt_loop 17 x (u32 (Z.shiftl 1 (32 - 2))) 0.

(** ** Binary coded decimal *)

Definition _bcd2bin (val : Z) : Z := u32 (Z.land val 0x0f + Z.shiftr val 4 * 10).
Definition _bin2bcd (val : Z) : Z := u8 (u32 (Z.shiftl (val / 10) 4 + val mod 10)).

(** ** 64-bit division *)

(** [while ((int64_t)b > 0 && b < rem)] *)
Fixpoint div64_scale (fuel : nat) (rem b d : Z) : res (Z * Z) :=
  match fuel with
  | O => Fault NoFuel
  | S fuel' =>
      if (0 <? i64 b) && (b <? rem) then div64_scale fuel' rem (u64 (b + b)) (u64 (d + d)) else Ok (b, d)
  end.
(** The [do] loop; the result is [res] and [rem]. *)
Fixpoint div64_subtract (fuel : nat) (res_ rem b d : Z) : res (Z * Z) :=
  match fuel with
  | O => Fault NoFuel
  | S fuel' =>
      let '(rem, res_) := if b <=? rem then (u64 (rem - b), u64 (res_ + d)) else (rem, res_) in
      let b := Z.shiftr b 1 in
      let d := Z.shiftr d 1 in
      if negb (d =? 0) then div64_subtract fuel' res_ rem b d else Ok (res_, rem)
  end.
(** "Reduce the thing a bit first": [res] and [rem]. *)
Definition div64_reduce (n base : Z) : res (Z * Z) :=
  let high := u32 (Z.shiftr n 32) in
  if base <=? high then
    if base =? 0 then Fault DivByZero
    else
      let high := high / base in
      Ok (u64 (Z.shiftl high 32), u64 (n - u64 (Z.shiftl (u32 (high * base)) 32)))
  else Ok (0, n).
(** Both loops: scale the divisor up, then subtract on the way down. *)
Definition div64_bits (res_ rem base : Z) : res (Z * Z) :=
  '(b, d) ← div64_scale 65 rem base 1;
  div64_subtract 65 res_ rem b d.
(** The new [*n] and the return value. *)
Definition __div64_32 (n base : Z) : res (Z * Z) :=
  '(res_, rem) ← div64_reduce n base;
  '(res_, rem) ← div64_bits res_ rem base;
  Ok (res_, u32 rem).
(** The new [n] and the remainder. *)
Definition do_div (n base : Z) : res (Z * Z) :=
  if Z.shiftr n 32 =? 0 then
    if base =? 0 then Fault DivByZero else Ok (u32 n / base, u32 n mod base)
  else __div64_32 n base.

(** Quotient and remainder; the divisor is a [u32]. *)
Definition div_u64_rem (dividend divisor : Z) : res (Z * Z) := do_div dividend (u32 divisor).
Definition div_u64 (dividend divisor : Z) : res Z :=
  '(q, _) ← div_u64_rem dividend divisor; Ok q.

Definition div64_u64_rem (dividend divisor : Z) : res (Z * Z) :=
  let high := u32 (Z.shiftr divisor 32) in
  if high =? 0 then div_u64_rem dividend divisor
  else
    let n := 1 + fls high in
    quot ← div_u64 (Z.shiftr dividend n) (Z.shiftr divisor n);
    let quot := if negb (quot =? 0) then u64 (quot - 1) else quot in
    let remainder := u64 (dividend - quot * divisor) in
    Ok (if divisor <=? remainder then (u64 (quot + 1), u64 (remainder - divisor)) else (quot, remainder)).

Definition div64_u64 (dividend divisor : Z) : res Z :=
  let high := u32 (Z.shiftr divisor 32) in
  if high =? 0 then div_u64 dividend divisor
  else
    let n := 1 + fls high in
    quot ← div_u64 (Z.shiftr dividend n) (Z.shiftr divisor n);
    let quot := if negb (quot =? 0) then u64 (quot - 1) else quot in
    Ok (if divisor <=? u64 (dividend - quot * divisor) then u64 (quot + 1) else quot).

Definition abs (x : Z) : Z := if x <? 0 then i32 (- x) else x.
Definition abs64 (x : Z) : Z := if x <? 0 then i64 (- x) else x.

(** Quotient and remainder, the remainder stored through an [s32] pointer. *)
Definition div_s64_rem (dividend divisor : Z) : res (Z * Z) :=
  if dividend <? 0 then
    '(quotient, remainder) ← div_u64_rem (u64 (- dividend)) (abs divisor);
    let remainder := i32 (- i32 remainder) in
    let quotient := if 0 <? divisor then u64 (- quotient) else quotient in
    Ok (i64 quotient, remainder)
  else
    '(quotient, remainder) ← div_u64_rem dividend (abs divisor);
    let quotient := if divisor <? 0 then u64 (- quotient) else quotient in
    Ok (i64 quotient, i32 remainder).
Definition div_s64 (dividend divisor : Z) : res Z :=
  '(q, _) ← div_s64_rem dividend divisor; Ok q.

Definition div64_s64 (dividend divisor : Z) : res Z :=
  quot ← div64_u64 (u64 (abs64 dividend)) (u64 (abs64 divisor));
  let t := Z.shiftr (Z.lxor dividend divisor) 63 in
  Ok (i64 (Z.lxor (i64 quot) t - t)).

(** Subtraction in a loop; [fuel] bounds the quotient. *)
Fixpoint iter_div_loop (fuel : nat) (dividend divisor ret : Z) : res (Z * Z) :=
  match fuel with
  | O => Fault NoFuel
  | S fuel' =>
      if divisor <=? dividend then iter_div_loop fuel' (u64 (dividend - divisor)) divisor (u32 (ret + 1))
      else Ok (ret, dividend)
  end.
Definition __iter_div_u64_rem (fuel : nat) (dividend divisor : Z) : res (Z * Z) :=
  iter_div_loop fuel dividend divisor 0.
Definition iter_div_u64_rem : nat -> Z -> Z -> res (Z * Z) := __iter_div_u64_rem.

(** ** Division by a reciprocal *)

Record reciprocal := { R_m : Z; R_sh1 : Z; R_sh2 : Z }.

Definition reciprocal_value (d : Z) : res reciprocal :=
  let l := fls (u32 (d - 1)) in
  let m := u64 (2 ^ 32 * u64 (u64 (Z.shiftl 1 l) - d)) in
  '(m, _) ← do_div m d;
  let m := u64 (m + 1) in
  Ok {| R_m := u32 m; R_sh1 := u8 (Z.min l 1); R_sh2 := u8 (Z.max (l - 1) 0) |}.

Definition reciprocal_divide (a : Z) (R : reciprocal) : Z :=
  let t := u32 (Z.shiftr (u64 (a * R_m R)) 32) in
  Z.shiftr (u32 (t + Z.shiftr (u32 (a - t)) (R_sh1 R))) (R_sh2 R).

(** * Lemmas *)

Lemma u64_small z : 0 <= z < 2 ^ 64 -> u64 z = z.
Proof. apply (wrapu_small 64). Qed.
Lemma i64_small z : - 2 ^ 63 <= z < 2 ^ 63 -> i64 z = z.
Proof. by apply (wraps_small 64). Qed.

(** ** [fls] *)

Lemma fls_spec x : 0 < x < 2 ^ 32 -> fls x = Z.log2 x + 1 /\ 1 <= fls x <= 32 /\ 2 ^ (fls x - 1) <= x < 2 ^ fls x.
Proof.
  intros Hx. unfold fls, __clz. rewrite (u32_small x) by lia. rewrite (proj2 (Z.eqb_neq x 0)) by lia.
  pose proof (Z.log2_spec x ltac:(lia)) as [Hl Hu]. pose proof (Z.log2_nonneg x).
  assert (Z.log2 x < 32) by (apply Z.log2_lt_pow2; lia).
  rewrite i32_small by lia. replace (32 - (31 - Z.log2 x)) with (Z.log2 x + 1) by lia.
  rewrite Z.add_simpl_r. split_and!; done || lia.
Qed.

(** A test keeps the position of the last bit and moves it up. *)
Lemma fls_test_spec k s x r :
  0 < s -> 0 <= k -> k + s = 32 -> 0 < x < 2 ^ 32 ->
  let '(x', r') := fls_test (Z.shiftl (Z.ones s) k) s (x, r) in
  0 < x' < 2 ^ 32 /\ r' + Z.log2 x' = r + Z.log2 x /\ (2 ^ k <= x' \/ 2 ^ s * x = x').
Proof.
  intros Hs Hk Hks Hx. unfold fls_test.
  assert (Z.land x (Z.shiftl (Z.ones s) k) = 2 ^ k * (x / 2 ^ k)) as ->.
  { rewrite Z.mul_comm, <- Z.shiftr_div_pow2, <- Z.shiftl_mul_pow2 by lia.
    apply Z.bits_inj'. intros i Hi. rewrite Z.land_spec, !Z.shiftl_spec by lia. destruct (decide (i < k)).
    - by rewrite !(Z.testbit_neg_r _ (i - k)), andb_false_r by lia.
    - rewrite Z.shiftr_spec by lia. replace (i - k + k) with i by lia. destruct (decide (i < 32)).
      + by rewrite Z.ones_spec_low, andb_true_r by lia.
      + by rewrite (testbit_high 32 x) by (lia || (unfold is_u; lia)). }
  pose proof (pow2_pos k Hk). destruct (Z.eqb_spec (2 ^ k * (x / 2 ^ k)) 0) as [E|E].
  - assert (x < 2 ^ k) by (assert (x / 2 ^ k = 0) as E0 by nia; apply Z.div_small_iff in E0; lia).
    assert (2 ^ 32 = 2 ^ k * 2 ^ s) as E32 by (by rewrite <- Z.pow_add_r, Hks by lia).
    pose proof (pow2_pos s ltac:(lia)).
    rewrite Z.shiftl_mul_pow2 by lia. rewrite (wrapu_small 32) by (unfold is_u; nia).
    rewrite Z.log2_mul_pow2 by lia. split_and!; nia || lia.
  - split_and!; [lia | lia | done|]. left.
    destruct (Z.lt_ge_cases x (2 ^ k)) as [Hlt|]; [|done]. rewrite Z.div_small in E; lia.
Qed.

(** The compile-time version and the instruction agree. *)
Theorem constant_fls_clz x : constant_fls x = fls x.
Proof.
  unfold constant_fls. destruct (Z.eqb_spec (u32 x) 0) as [E|E].
  { unfold fls, __clz. by rewrite E. }
  pose proof (u32_range x) as Hx.
  assert (fls x = fls (u32 x)) as -> by (unfold fls, __clz; by rewrite wrapu_idemp).
  destruct (fls_spec (u32 x) ltac:(lia)) as [-> _].
  pose proof (fls_test_spec 16 16 (u32 x) 32 ltac:(lia) ltac:(lia) eq_refl ltac:(lia)) as H1.
  change (Z.shiftl (Z.ones 16) 16) with 0xffff0000 in H1. destruct (fls_test 0xffff0000 16 _) as [x1 r1].
  destruct H1 as (Hx1 & E1 & M1).
  pose proof (fls_test_spec 24 8 x1 r1 ltac:(lia) ltac:(lia) eq_refl Hx1) as H2.
  change (Z.shiftl (Z.ones 8) 24) with 0xff000000 in H2. destruct (fls_test 0xff000000 8 _) as [x2 r2].
  destruct H2 as (Hx2 & E2 & M2).
  pose proof (fls_test_spec 28 4 x2 r2 ltac:(lia) ltac:(lia) eq_refl Hx2) as H3.
  change (Z.shiftl (Z.ones 4) 28) with 0xf0000000 in H3. destruct (fls_test 0xf0000000 4 _) as [x3 r3].
  destruct H3 as (Hx3 & E3 & M3).
  pose proof (fls_test_spec 30 2 x3 r3 ltac:(lia) ltac:(lia) eq_refl Hx3) as H4.
  change (Z.shiftl (Z.ones 2) 30) with 0xc0000000 in H4. destruct (fls_test 0xc0000000 2 _) as [x4 r4].
  destruct H4 as (Hx4 & E4 & M4).
  pose proof (fls_test_spec 31 1 x4 r4 ltac:(lia) ltac:(lia) eq_refl Hx4) as H5.
  change (Z.shiftl (Z.ones 1) 31) with 0x80000000 in H5. destruct (fls_test 0x80000000 1 _) as [x5 r5].
  destruct H5 as (Hx5 & E5 & M5). cbn [snd].
  assert (Z.log2 x5 = 31) as E31 by (apply Z.log2_unique; lia). lia.
Qed.

(** ** The greatest common divisor *)

Lemma gcd_loop_spec fuel a b : 0 <= a -> 0 < b -> b < Z.of_nat fuel + 1 -> gcd_loop fuel a b = Ok (Z.gcd a b).
Proof.
  revert a b. induction fuel as [|fuel IH]; intros a b Ha Hb Hf; [lia|]. cbn [gcd_loop].
  rewrite (proj2 (Z.eqb_neq b 0)) by lia. pose proof (Z.mod_pos_bound a b Hb) as Hm.
  assert (Z.gcd a b = Z.gcd b (a mod b)) as -> by (by rewrite Z.gcd_comm, (Z.gcd_comm b (a mod b)), Z.gcd_mod, Z.gcd_comm by lia).
  destruct (Z.eqb_spec (a mod b) 0) as [E|E]; cbn [negb].
  - rewrite E, Z.gcd_0_r. f_equal. lia.
  - apply IH; lia.
Qed.

Lemma gcd_spec a b : 0 <= a -> 0 <= b -> gcd a b = Ok (Z.gcd a b).
Proof.
  intros Ha Hb. unfold gcd. destruct (Z.ltb_spec a b).
  - destruct (Z.eqb_spec a 0) as [->|]; [by rewrite Z.gcd_0_l, Z.abs_eq by lia|].
    rewrite gcd_loop_spec by lia. f_equal. apply Z.gcd_comm.
  - destruct (Z.eqb_spec b 0) as [->|]; [by rewrite Z.gcd_0_r, Z.abs_eq by lia|].
    apply gcd_loop_spec; lia.
Qed.

Lemma lcm_spec a b : 0 <= a -> 0 <= b -> lcm a b = Ok (u32 (Z.lcm a b)).
Proof.
  intros Ha Hb. unfold lcm. destruct (Z.eqb_spec a 0) as [->|]; cbn [negb andb]; [done|].
  destruct (Z.eqb_spec b 0) as [->|]; cbn [negb]; [by rewrite Z.lcm_0_r|].
  rewrite gcd_spec by lia. cbn [mbind res_bind].
  assert (0 < Z.gcd a b) as Hg by (pose proof (Z.gcd_nonneg a b); destruct (decide (Z.gcd a b = 0)) as [E|]; [apply Z.gcd_eq_0_l in E|]; lia).
  rewrite (proj2 (Z.eqb_neq _ 0)) by lia. do 2 f_equal. unfold Z.lcm.
  destruct (Z.gcd_divide_l a b) as [p Hp], (Z.gcd_divide_r a b) as [q Hq].
  set (g := Z.gcd a b) in *. rewrite Hp at 1. rewrite Hq at 2.
  rewrite !Z.div_mul by lia. rewrite Hq at 1. rewrite Z.abs_eq by nia. nia.
Qed.

(** ** The square root *)

(** With [k] rounds to go, [y = r 2^k] for the part [r] of the root that is known, and
    [x] has lost its square. *)
Lemma int_sqrt_loop_spec (k : nat) X r :
  (k <= 16)%nat -> 0 <= X < 2 ^ 32 -> 0 <= r -> r * r <= X < (r + 2 ^ Z.of_nat k) * (r + 2 ^ Z.of_nat k) ->
  (2 ^ Z.of_nat k | r) ->
  int_sqrt_loop (S k) (X - r * r) (if decide (k = 0%nat) then 0 else 4 ^ (Z.of_nat k - 1)) (r * 2 ^ Z.of_nat k) =
    Ok (Z.sqrt X).
Proof.
  revert r. induction k as [|k IH]; intros r Hk HX Hr Hb Hdiv.
  { cbn [int_sqrt_loop decide]. cbn. f_equal. rewrite Z.mul_1_r. symmetry. apply Z.sqrt_unique.
    change (2 ^ Z.of_nat 0) with 1 in Hb. lia. }
  rewrite decide_False by lia. remember (S k) as K eqn:EK. cbn [int_sqrt_loop]. subst K.
  set (p := 2 ^ Z.of_nat k). assert (2 ^ Z.of_nat (S k) = 2 * p) as E2 by (rewrite Nat2Z.inj_succ, Z.pow_succ_r by lia; done).
  assert (4 ^ (Z.of_nat (S k) - 1) = p * p) as ->.
  { change 4 with (2 * 2). rewrite Z.pow_mul_l. unfold p. by replace (Z.of_nat (S k) - 1) with (Z.of_nat k) by lia. }
  assert (0 < p) by (apply pow2_pos; lia). assert (p <= 2 ^ 15) by (apply Z.pow_le_mono_r; lia).
  rewrite E2 in *. rewrite (proj2 (Z.eqb_neq (p * p) 0)) by nia. cbn [negb].
  assert (r + 2 * p <= 2 ^ 16) as Hr16.
  { destruct Hdiv as [q ->]. assert (q * (2 * p) < 2 ^ 16) by nia.
    assert (2 ^ 16 = 2 ^ (15 - Z.of_nat k) * (2 * p)) as E16.
    { unfold p. rewrite <- Z.pow_succ_r, <- Z.pow_add_r by lia. f_equal. lia. }
    rewrite E16 in *. set (c := 2 ^ (15 - Z.of_nat k)) in *.
    assert (q < c) by (apply (Z.mul_lt_mono_pos_r (2 * p)); lia).
    assert ((q + 1) * (2 * p) <= c * (2 * p)) by (apply Z.mul_le_mono_nonneg_r; lia). lia. }
  assert ((p | r) /\ (p | r + p)) as [Hd1 Hd2].
  { destruct Hdiv as [q ->]. split; [exists (2 * q) | exists (2 * q + 1)]; lia. }
  assert ((r + p) * (r + p) < 2 ^ 32) by nia.
  rewrite (u32_small (r * (2 * p) + p * p)) by nia.
  replace (Z.shiftr (r * (2 * p)) 1) with (r * p).
  2:{ rewrite Z.shiftr_div_pow2 by lia. change (2 ^ 1) with 2. replace (r * (2 * p)) with (r * p * 2) by lia. by rewrite Z.div_mul. }
  assert (Z.shiftr (p * p) 2 = if decide (k = 0%nat) then 0 else 4 ^ (Z.of_nat k - 1)) as ->.
  { destruct (decide (k = 0%nat)) as [->|Hk0]; [done|]. rewrite Z.shiftr_div_pow2 by lia. change (2 ^ 2) with 4.
    assert (p * p = 4 ^ (Z.of_nat k - 1) * 4) as ->.
    { change 4 with (2 * 2) at 1. rewrite Z.pow_mul_l. unfold p. replace (Z.of_nat k) with (Z.of_nat k - 1 + 1) at 1 2 by lia.
      rewrite Z.pow_add_r by lia. lia. }
    by rewrite Z.div_mul. }
  destruct (Z.leb_spec (r * (2 * p) + p * p) (X - r * r)).
  - rewrite !u32_small by nia. replace (X - r * r - (r * (2 * p) + p * p)) with (X - (r + p) * (r + p)) by ring.
    replace (r * p + p * p) with ((r + p) * p) by ring. apply IH; done || nia || lia.
  - apply IH; done || nia || lia.
Qed.

Lemma int_sqrt_spec x : 0 <= x < 2 ^ 32 -> int_sqrt x = Ok (Z.sqrt x).
Proof.
  intros Hx. unfold int_sqrt. destruct (Z.leb_spec x 1).
  - assert (x = 0 \/ x = 1) as [-> | ->] by lia; done.
  - pose proof (int_sqrt_loop_spec 16 x 0 ltac:(lia) Hx ltac:(lia)) as E. rewrite Z.mul_0_l, Z.sub_0_r in E.
    apply E; [change (2 ^ Z.of_nat 16) with 65536; lia | apply Z.divide_0_r].
Qed.

(** ** 64-bit division *)

Lemma i64_positive b : 0 < b < 2 ^ 64 -> (0 <? i64 b) = (b <? 2 ^ 63).
Proof.
  intros Hb. destruct (Z.ltb_spec b (2 ^ 63)).
  - rewrite i64_small by lia. apply Z.ltb_lt. lia.
  - unfold wraps. rewrite <- (Z.mod_unique (b + 2 ^ (64 - 1)) (2 ^ 64) 1 (b - 2 ^ 63)) by lia.
    apply Z.ltb_ge. lia.
Qed.

Lemma div64_scale_spec fuel rem base (k : nat) :
  0 <= rem < 2 ^ 64 -> 1 <= base < 2 ^ 32 -> base * 2 ^ Z.of_nat k < 2 ^ 64 -> (64 <= fuel + k)%nat -> (0 < fuel)%nat ->
  exists k', div64_scale fuel rem (base * 2 ^ Z.of_nat k) (2 ^ Z.of_nat k) = Ok (base * 2 ^ Z.of_nat k', 2 ^ Z.of_nat k') /\
    (k' <= 63)%nat /\ base * 2 ^ Z.of_nat k' < 2 ^ 64 /\ rem < 2 * (base * 2 ^ Z.of_nat k').
Proof.
  intros Hrem Hbase. revert k. induction fuel as [|fuel IH]; intros k Hb Hfuel Hpos; [lia|]. cbn [div64_scale].
  pose proof (pow2_pos (Z.of_nat k) ltac:(lia)) as Hp.
  assert (k <= 63)%nat as Hk.
  { destruct (decide (k <= 63)%nat); [done|]. assert (2 ^ 64 <= 2 ^ Z.of_nat k) by (apply Z.pow_le_mono_r; lia). nia. }
  rewrite i64_positive by nia. destruct (Z.ltb_spec (base * 2 ^ Z.of_nat k) (2 ^ 63)) as [H63|H63]; cbn [andb].
  2:{ exists k. split_and!; done || lia. }
  destruct (Z.ltb_spec (base * 2 ^ Z.of_nat k) rem) as [Hlt|Hge].
  2:{ exists k. split_and!; done || lia. }
  assert (2 ^ Z.of_nat (S k) = 2 * 2 ^ Z.of_nat k) as E2 by (rewrite Nat2Z.inj_succ, Z.pow_succ_r by lia; done).
  rewrite !u64_small by nia.
  replace (base * 2 ^ Z.of_nat k + base * 2 ^ Z.of_nat k) with (base * 2 ^ Z.of_nat (S k)) by lia.
  replace (2 ^ Z.of_nat k + 2 ^ Z.of_nat k) with (2 ^ Z.of_nat (S k)) by lia.
  assert (k <= 62)%nat.
  { destruct (decide (k = 63%nat)) as [->|]; [|lia]. change (Z.of_nat 63) with 63 in *. nia. }
  apply IH; lia.
Qed.

Lemma div64_subtract_spec (k : nat) fuel base n q rem :
  (k < fuel)%nat -> 1 <= base < 2 ^ 32 -> 0 <= n < 2 ^ 64 -> 0 <= q -> 0 <= rem -> q * base + rem = n ->
  base * 2 ^ Z.of_nat k < 2 ^ 64 -> rem < 2 * (base * 2 ^ Z.of_nat k) ->
  div64_subtract fuel q rem (base * 2 ^ Z.of_nat k) (2 ^ Z.of_nat k) = Ok (n / base, n mod base).
Proof.
  intros Hf Hbase Hn. revert fuel q rem Hf. induction k as [|k IH]; intros fuel q rem Hf Hq Hr E Hb Hlt;
    (destruct fuel as [|fuel]; [lia|]); cbn [div64_subtract].
  - rewrite Z.mul_1_r in *. destruct (Z.leb_spec base rem); cbn [Z.shiftr Z.shiftl Z.opp Z.iter Pos.iter Z.div2 negb Z.eqb].
    + rewrite !u64_small by nia. cbn. do 2 f_equal; [apply (Z.div_unique _ _ _ (rem - base)) | apply (Z.mod_unique _ _ (q + 1))]; lia.
    + cbn. do 2 f_equal; [apply (Z.div_unique _ _ _ rem) | apply (Z.mod_unique _ _ q)]; lia.
  - assert (2 ^ Z.of_nat (S k) = 2 * 2 ^ Z.of_nat k) as E2 by (rewrite Nat2Z.inj_succ, Z.pow_succ_r by lia; done).
    rewrite E2 in *. pose proof (pow2_pos (Z.of_nat k) ltac:(lia)) as Hp. set (p := 2 ^ Z.of_nat k) in *.
    assert (Z.shiftr (base * (2 * p)) 1 = base * p) as ->.
    { rewrite Z.shiftr_div_pow2 by lia. change (2 ^ 1) with 2. replace (base * (2 * p)) with (base * p * 2) by lia. by rewrite Z.div_mul. }
    assert (Z.shiftr (2 * p) 1 = p) as ->.
    { rewrite Z.shiftr_div_pow2 by lia. change (2 ^ 1) with 2. replace (2 * p) with (p * 2) by lia. by rewrite Z.div_mul. }
    destruct (Z.leb_spec (base * (2 * p)) rem) as [Hle|Hgt]; rewrite (proj2 (Z.eqb_neq p 0)) by lia; cbn [negb].
    + assert ((q + 2 * p) * base <= n) by nia. rewrite !u64_small by nia. apply IH; nia || lia.
    + apply IH; nia || lia.
Qed.

(** Taking the multiple of 2^32 out of the quotient first. *)
Lemma div64_reduce_spec n base :
  0 <= n < 2 ^ 64 -> 1 <= base < 2 ^ 32 ->
  exists q rem, div64_reduce n base = Ok (q, rem) /\ 0 <= q /\ 0 <= rem < 2 ^ 64 /\ q * base + rem = n.
Proof.
  intros Hn Hb. unfold div64_reduce. rewrite Z.shiftr_div_pow2 by lia.
  pose proof (Z.div_mod n (2 ^ 32) ltac:(lia)) as En. pose proof (Z.mod_pos_bound n (2 ^ 32) ltac:(lia)).
  set (h := n / 2 ^ 32) in *. set (lo := n mod 2 ^ 32) in *. clearbody h lo.
  rewrite (u32_small h) by lia.
  destruct (Z.leb_spec base h); [|exists 0, n; split_and!; done || lia].
  rewrite (proj2 (Z.eqb_neq base 0)) by lia. do 2 eexists. split; [done|].
  pose proof (Z.div_mod h base ltac:(lia)) as Edm. pose proof (Z.mod_pos_bound h base ltac:(lia)).
  set (a := h / base) in *. set (m := h mod base) in *. clearbody a m.
  assert (0 <= a) by nia. assert (a <= a * base) by nia.
  rewrite !Z.shiftl_mul_pow2, (u32_small (a * base)) by lia.
  rewrite (u64_small (a * 2 ^ 32)), (u64_small (a * base * 2 ^ 32)), (u64_small (n - _)) by lia.
  split_and!; lia.
Qed.

(** The two loops on what is left. *)
Lemma div64_loops fuel n base q rem :
  (64 <= fuel)%nat -> 0 <= n < 2 ^ 64 -> 1 <= base < 2 ^ 32 -> 0 <= q -> 0 <= rem < 2 ^ 64 -> q * base + rem = n ->
  ('(b, d) ← div64_scale fuel rem base 1; div64_subtract fuel q rem b d) = Ok (n / base, n mod base).
Proof.
  intros Hf Hn Hb Hq Hrem Eq.
  destruct (div64_scale_spec fuel rem base 0) as (k & E1 & Hk & Hbk & Hlt); [done | done | cbn; lia | lia | lia |].
  replace (base * 2 ^ Z.of_nat 0) with base in E1 by (cbn; lia). replace (2 ^ Z.of_nat 0) with 1 in E1 by done.
  rewrite E1. cbn [mbind res_bind]. apply div64_subtract_spec; done || lia.
Qed.

Lemma div64_bits_spec n base q rem :
  0 <= n < 2 ^ 64 -> 1 <= base < 2 ^ 32 -> 0 <= q -> 0 <= rem < 2 ^ 64 -> q * base + rem = n ->
  div64_bits q rem base = Ok (n / base, n mod base).
Proof. intros Hn Hb Hq Hrem Eq. apply (div64_loops 65); done || lia. Qed.

Lemma rem_small n base : 1 <= base < 2 ^ 32 -> u32 (n mod base) = n mod base.
Proof. intros Hb. pose proof (Z.mod_pos_bound n base ltac:(lia)). apply u32_small. lia. Qed.

Lemma __div64_32_spec n base :
  0 <= n < 2 ^ 64 -> 1 <= base < 2 ^ 32 -> __div64_32 n base = Ok (n / base, n mod base).
Proof.
  intros Hn Hb. destruct (div64_reduce_spec n base Hn Hb) as (q & rem & Er & Hq & Hrem & Eq).
  apply bind_ok. exists (q, rem). split; [exact Er|].
  apply bind_ok. exists (n / base, n mod base). split; [exact (div64_bits_spec n base q rem Hn Hb Hq Hrem Eq)|].
  by rewrite rem_small.
Qed.

Lemma do_div_spec n base :
  0 <= n < 2 ^ 64 -> 1 <= base < 2 ^ 32 -> do_div n base = Ok (n / base, n mod base).
Proof.
  intros Hn Hb. unfold do_div. rewrite Z.shiftr_div_pow2 by lia. destruct (Z.eqb_spec (n / 2 ^ 32) 0) as [E|E].
  - apply Z.div_small_iff in E; [|lia]. rewrite (proj2 (Z.eqb_neq base 0)) by lia. by rewrite u32_small by lia.
  - by apply __div64_32_spec.
Qed.

Lemma div_u64_rem_spec n base :
  0 <= n < 2 ^ 64 -> 1 <= base < 2 ^ 32 -> div_u64_rem n base = Ok (n / base, n mod base).
Proof. intros. unfold div_u64_rem. rewrite u32_small by lia. by apply do_div_spec. Qed.

Lemma div_u64_spec n base : 0 <= n < 2 ^ 64 -> 1 <= base < 2 ^ 32 -> div_u64 n base = Ok (n / base).
Proof. intros. unfold div_u64. by rewrite div_u64_rem_spec. Qed.

(** The estimate of the 64 by 64 division: both operands shifted until the divisor
    has 31 bits. *)
Lemma div64_estimate u v :
  0 <= u < 2 ^ 64 -> 2 ^ 32 <= v < 2 ^ 64 ->
  let n := 1 + fls (u32 (Z.shiftr v 32)) in
  exists q, div_u64 (Z.shiftr u n) (Z.shiftr v n) = Ok q /\ u32 (Z.shiftr v 32) <> 0 /\
    u / v <= q < 2 ^ 64 /\ (2 ^ 34 <= v \/ u < 2 ^ 62 -> q <= u / v + 1).
Proof.
  intros Hu Hv. rewrite !(Z.shiftr_div_pow2 v 32) by lia.
  assert (1 <= v / 2 ^ 32 < 2 ^ 32) as Hh by dlia. rewrite u32_small by lia.
  destruct (fls_spec (v / 2 ^ 32) ltac:(lia)) as (_ & Hf & Hlo & Hhi). set (f := fls (v / 2 ^ 32)) in *. intros n.
  pose proof (Z.div_mod v (2 ^ 32) ltac:(lia)) as Ev. pose proof (Z.mod_pos_bound v (2 ^ 32) ltac:(lia)) as Hvm.
  set (h := v / 2 ^ 32) in *. set (vm := v mod 2 ^ 32) in *. clearbody h vm f.
  assert (2 ^ n = 4 * 2 ^ (f - 1)) as En.
  { unfold n. replace (1 + f) with (2 + (f - 1)) by lia. by rewrite Z.pow_add_r by lia. }
  assert (2 ^ f = 2 * 2 ^ (f - 1)) as Ef by (rewrite <- Z.pow_succ_r by lia; f_equal; lia).
  rewrite !Z.shiftr_div_pow2 by (unfold n; lia).
  set (p := 2 ^ (f - 1)) in *. assert (1 <= p <= 2 ^ 31) as Hp.
  { unfold p. split; [pose proof (pow2_pos (f - 1)); lia | apply Z.pow_le_mono_r; lia]. }
  rewrite En in *. clearbody n. set (P := 4 * p) in *.
  pose proof (Z.div_mod v P ltac:(lia)) as Edv. pose proof (Z.mod_pos_bound v P ltac:(lia)) as Hdv.
  pose proof (Z.div_mod u P ltac:(lia)) as Edu. pose proof (Z.mod_pos_bound u P ltac:(lia)) as Hdu.
  set (v1 := v / P) in *. set (u1 := u / P) in *.
  assert (2 ^ 30 <= v1 < 2 ^ 31) as Hv1.
  { split; [apply Z.div_le_lower_bound | apply Z.div_lt_upper_bound]; nia. }
  assert (0 <= u1 < 2 ^ 62) as Hu1 by (split; [apply Z.div_pos | apply Z.div_lt_upper_bound]; nia).
  exists (u1 / v1). rewrite div_u64_spec by lia.
  pose proof (Z.div_mod u v ltac:(lia)) as Eq. pose proof (Z.mod_pos_bound u v ltac:(lia)) as Hq.
  pose proof (Z.div_mod u1 v1 ltac:(lia)) as Eq1. pose proof (Z.mod_pos_bound u1 v1 ltac:(lia)) as Hq1.
  assert (0 <= u / v) by (apply Z.div_pos; lia).
  assert (0 <= u1 / v1) by (apply Z.div_pos; lia).
  split_and!; [done | lia | | |].
  - apply Z.div_le_lower_bound; [lia|]. apply Z.div_le_lower_bound; [lia|].
    assert (P * v1 * (u / v) <= v * (u / v)) by (apply Z.mul_le_mono_nonneg_r; lia). lia.
  - assert (u1 * 1 <= v1 * u1) by (rewrite (Z.mul_comm v1); apply Z.mul_le_mono_nonneg_l; lia).
    assert (u1 / v1 <= u1) by (apply Z.div_le_upper_bound; lia). lia.
  - intros Hc.
    (* the estimate is at most v1 + 1, so the bits lost of the divisor cost one at most *)
    assert (u1 / v1 <= v1 + 1) as Hle.
    { apply Z.div_le_upper_bound; [lia|]. destruct Hc as [Hc|Hc].
      - assert (4 <= p) as Hp4.
        { unfold p. destruct (Z.le_gt_cases (f - 1) 1) as [Hs|Hs]; [|change 4 with (2 ^ 2); apply Z.pow_le_mono_r; lia].
          assert (p <= 2 ^ 1) by (apply Z.pow_le_mono_r; lia). lia. }
        assert (u1 < 2 ^ 60) by (apply Z.div_lt_upper_bound; lia).
        assert (2 ^ 30 * 2 ^ 30 <= v1 * (v1 + 1)) by (apply Z.mul_le_mono_nonneg; lia). lia.
      - assert (u1 < 2 ^ 60) by (apply Z.div_lt_upper_bound; lia).
        assert (2 ^ 30 * 2 ^ 30 <= v1 * (v1 + 1)) by (apply Z.mul_le_mono_nonneg; lia). lia. }
    destruct (Z.le_gt_cases (u1 / v1) 1); [lia|].
    assert ((u1 / v1 - 1) * v <= u); [|assert (u1 / v1 - 1 <= u / v) by (apply Z.div_le_lower_bound; lia); lia].
    set (q1 := u1 / v1) in *. set (m1 := u1 mod v1) in *. set (mv := v mod P) in *. set (mu := u mod P) in *.
    clearbody q1 m1 mv mu u1 v1. rewrite Edu, Edv.
    assert ((q1 - 1) * mv <= (q1 - 1) * P) by (apply Z.mul_le_mono_nonneg_l; lia).
    assert ((q1 - 1) * P <= v1 * P) by (apply Z.mul_le_mono_nonneg_r; lia).
    assert (P * (q1 * v1) <= P * u1) by (apply Z.mul_le_mono_nonneg_l; lia).
    replace ((q1 - 1) * (P * v1 + mv)) with (P * (q1 * v1) - v1 * P + (q1 - 1) * mv) by ring. lia.
Qed.

(** Where the estimate is within one of the quotient. *)
Definition div64_safe (u v : Z) : Prop := v < 2 ^ 32 \/ 2 ^ 34 <= v \/ u < 2 ^ 62.

(** The correction of an estimate that is right or one too large. *)
Lemma div64_correct u v q :
  0 <= u < 2 ^ 64 -> 0 < v < 2 ^ 64 -> u / v <= q <= u / v + 1 ->
  let quot := if negb (q =? 0) then u64 (q - 1) else q in
  let remainder := u64 (u - quot * v) in
  (if v <=? remainder then (u64 (quot + 1), u64 (remainder - v)) else (quot, remainder)) = (u / v, u mod v) /\
  (if v <=? remainder then u64 (quot + 1) else quot) = u / v.
Proof.
  intros Hu Hv Hq. pose proof (Z.div_mod u v ltac:(lia)) as E. pose proof (Z.mod_pos_bound u v ltac:(lia)) as Hm.
  assert (0 <= u / v) by (apply Z.div_pos; lia). assert (u / v <= u) by (apply Z.div_le_upper_bound; nia).
  set (d := u / v) in *. set (m := u mod v) in *. clearbody d m.
  assert (exists quot, (if negb (q =? 0) then u64 (q - 1) else q) = quot /\ 0 <= quot /\ (quot = d \/ quot + 1 = d))
    as (quot & -> & Hq0 & Hqd).
  { destruct (Z.eqb_spec q 0); cbn [negb]; eexists; (split; [done|]); [lia|]. rewrite u64_small by lia. lia. }
  cbv zeta. destruct Hqd as [-> | Hd].
  - replace (u - d * v) with m by lia. rewrite (u64_small m) by lia. by rewrite (proj2 (Z.leb_gt v m)) by lia.
  - replace (u - quot * v) with (m + v) by nia.
    assert (m + v <= u) by nia. rewrite (u64_small (m + v)) by lia. rewrite (proj2 (Z.leb_le v (m + v))) by lia.
    rewrite (u64_small (m + v - v)), (u64_small (quot + 1)) by lia. split; [f_equal|]; lia.
Qed.

Lemma div64_u64_both u v :
  0 <= u < 2 ^ 64 -> 1 <= v < 2 ^ 64 -> div64_safe u v ->
  div64_u64_rem u v = Ok (u / v, u mod v) /\ div64_u64 u v = Ok (u / v).
Proof.
  intros Hu Hv Hs. unfold div64_u64_rem, div64_u64.
  destruct (Z.lt_ge_cases v (2 ^ 32)) as [Hlt|Hge].
  - assert (u32 (Z.shiftr v 32) = 0) as -> by (rewrite Z.shiftr_div_pow2, Z.div_small by lia; done).
    change (0 =? 0) with true. cbv iota. rewrite div_u64_rem_spec, div_u64_spec by (done || lia). done.
  - destruct (div64_estimate u v Hu ltac:(lia)) as (q & Eq & Hh & Hlo & Hhi).
    cbv zeta in Eq |- *. rewrite (proj2 (Z.eqb_neq _ 0)) by done. rewrite Eq. cbn [mbind res_bind].
    destruct (div64_correct u v q Hu ltac:(lia)) as [E1 E2].
    { split; [lia|]. apply Hhi. unfold div64_safe in Hs. lia. }
    cbv zeta in E1, E2. by rewrite E1, E2.
Qed.

(** Magnitudes of signed operands. *)
Lemma u32_abs d : is_s 32 d -> u32 (abs d) = Z.abs d.
Proof.
  intros Hd. unfold abs, is_s in *. destruct (Z.ltb_spec d 0).
  - rewrite wrapu_wraps by lia. rewrite u32_small by lia. lia.
  - rewrite u32_small by lia. lia.
Qed.
Lemma u64_abs d : is_s 64 d -> u64 (abs64 d) = Z.abs d.
Proof.
  intros Hd. unfold abs64, is_s in *. destruct (Z.ltb_spec d 0).
  - rewrite wrapu_wraps by lia. rewrite u64_small by lia. lia.
  - rewrite u64_small by lia. lia.
Qed.

(** Truncated division from the magnitudes. *)
Lemma quot_abs a b : b <> 0 ->
  Z.quot a b = (if (a <? 0) then if 0 <? b then - (Z.abs a / Z.abs b) else Z.abs a / Z.abs b
                else if b <? 0 then - (Z.abs a / Z.abs b) else Z.abs a / Z.abs b) /\
  Z.rem a b = if a <? 0 then - (Z.abs a mod Z.abs b) else Z.abs a mod Z.abs b.
Proof.
  intros Hb. rewrite <- !(Z.quot_div_nonneg (Z.abs a) (Z.abs b)), <- !(Z.rem_mod_nonneg (Z.abs a) (Z.abs b)) by lia.
  destruct (Z.ltb_spec a 0), (Z.ltb_spec 0 b), (Z.ltb_spec b 0); try lia.
  - rewrite (Z.abs_neq a), (Z.abs_eq b) by lia. by rewrite Z.quot_opp_l, Z.rem_opp_l, !Z.opp_involutive by lia.
  - rewrite (Z.abs_neq a), (Z.abs_neq b) by lia. by rewrite Z.quot_opp_opp, Z.rem_opp_opp, Z.opp_involutive by lia.
  - by rewrite (Z.abs_eq a), (Z.abs_eq b) by lia.
  - rewrite (Z.abs_eq a), (Z.abs_neq b) by lia. by rewrite Z.quot_opp_r, Z.rem_opp_r, Z.opp_involutive by lia.
Qed.

Lemma div_s64_rem_spec a b :
  is_s 64 a -> is_s 32 b -> b <> 0 -> div_s64_rem a b = Ok (i64 (Z.quot a b), Z.rem a b).
Proof.
  intros Ha Hb Hb0. destruct (quot_abs a b Hb0) as [-> ->]. unfold div_s64_rem, is_s in *.
  pose proof (Z.mod_pos_bound (Z.abs a) (Z.abs b) ltac:(lia)) as Hm.
  assert (forall n, n = Z.abs a -> div_u64_rem n (abs b) = Ok (Z.abs a / Z.abs b, Z.abs a mod Z.abs b)) as Ed.
  { intros n ->. unfold div_u64_rem. rewrite u32_abs by done. apply do_div_spec; lia. }
  destruct (Z.ltb_spec a 0).
  - rewrite Ed by (rewrite u64_small; lia). cbn [mbind res_bind]. rewrite (i32_small (_ mod _)), i32_small by lia.
    destruct (0 <? b); [by rewrite wraps_wrapu|done].
  - rewrite Ed by lia. cbn [mbind res_bind]. rewrite (i32_small (_ mod _)) by lia.
    destruct (b <? 0); [by rewrite wraps_wrapu|done].
Qed.

Lemma div64_s64_spec a b :
  is_s 64 a -> is_s 64 b -> b <> 0 -> div64_safe (Z.abs a) (Z.abs b) -> div64_s64 a b = Ok (i64 (Z.quot a b)).
Proof.
  intros Ha Hb Hb0 Hs. destruct (quot_abs a b Hb0) as [-> _]. unfold div64_s64. rewrite !u64_abs by done.
  unfold is_s in *. destruct (div64_u64_both (Z.abs a) (Z.abs b) ltac:(lia) ltac:(lia) Hs) as [_ ->]. cbn [mbind res_bind]. f_equal.
  assert (Z.shiftr (Z.lxor a b) 63 = if xorb (a <? 0) (b <? 0) then -1 else 0) as ->.
  { rewrite Z.shiftr_lxor, !Z.shiftr_div_pow2 by lia.
    assert (forall z, - 2 ^ 63 <= z < 2 ^ 63 -> z / 2 ^ 63 = if z <? 0 then -1 else 0) as Hd
      by (intros z Hz; destruct (Z.ltb_spec z 0); dlia).
    rewrite !Hd by lia. by destruct (a <? 0), (b <? 0). }
  set (q := Z.abs a / Z.abs b).
  assert (i64 (Z.lxor (i64 q) (-1) - -1) = i64 (- q)) as Eneg.
  { rewrite Z.lxor_m1_r. unfold Z.lnot.
    replace (Z.pred (- i64 q) - -1) with (- i64 q) by lia.
    rewrite <- (wraps_wrapu 64 (- i64 q)), <- (wraps_wrapu 64 (- q)) by lia. f_equal.
    rewrite <- (Z.sub_0_l (i64 q)), <- (Z.sub_0_l q). unfold wrapu. rewrite Zminus_mod, (Zminus_mod 0 q). do 2 f_equal.
    apply wrapu_wraps. lia. }
  assert (i64 (Z.lxor (i64 q) 0 - 0) = i64 q) as Epos.
  { rewrite Z.lxor_0_r, Z.sub_0_r. rewrite <- (wraps_wrapu 64 (i64 q)), wrapu_wraps, wraps_wrapu by lia. done. }
  destruct (Z.ltb_spec a 0), (Z.ltb_spec b 0), (Z.ltb_spec 0 b); try lia; cbn [xorb]; done.
Qed.

Lemma iter_div_loop_spec fuel n d ret :
  1 <= d < 2 ^ 32 -> 0 <= n < 2 ^ 64 -> 0 <= ret -> ret + n / d < 2 ^ 32 -> n / d < Z.of_nat fuel ->
  iter_div_loop fuel n d ret = Ok (ret + n / d, n mod d).
Proof.
  intros Hd. revert n ret. induction fuel as [|fuel IH]; intros n ret Hn Hr Hlt Hf.
  { assert (0 <= n / d) by (apply Z.div_pos; lia). lia. }
  cbn [iter_div_loop]. destruct (Z.leb_spec d n) as [Hle|Hgt].
  - assert (n / d = (n - d) / d + 1) as E.
    { replace n with (n - d + 1 * d) at 1 by lia. by rewrite Z.div_add by lia. }
    assert (n mod d = (n - d) mod d) as Em.
    { replace n with (n - d + 1 * d) at 1 by lia. by rewrite Z.mod_add by lia. }
    assert (0 <= (n - d) / d) by (apply Z.div_pos; lia).
    rewrite (u64_small (n - d)), (u32_small (ret + 1)) by lia. rewrite IH by lia. do 2 f_equal; lia.
  - rewrite Z.div_small, Z.mod_small by lia. do 2 f_equal. lia.
Qed.

(** A zero divisor is subtracted for ever. *)
Lemma iter_div_zero fuel n : 0 <= n < 2 ^ 64 -> forall ret, iter_div_loop fuel n 0 ret = Fault NoFuel.
Proof.
  intros Hn. induction fuel as [|fuel IH]; intros ret; [done|]. cbn [iter_div_loop].
  rewrite (proj2 (Z.leb_le 0 n)) by lia. by rewrite Z.sub_0_r, u64_small.
Qed.

(** ** The reciprocal *)

Lemma reciprocal_value_spec d :
  1 <= d < 2 ^ 32 ->
  exists l R, reciprocal_value d = Ok R /\ 0 <= l <= 32 /\ d <= 2 ^ l /\ (l = 0 \/ 2 ^ (l - 1) < d) /\
    R_m R = 2 ^ 32 * (2 ^ l - d) / d + 1 /\ 0 <= R_m R < 2 ^ 32 /\
    R_sh1 R = Z.min l 1 /\ R_sh2 R = Z.max (l - 1) 0.
Proof.
  intros Hd. unfold reciprocal_value. rewrite u32_small by lia.
  set (l := fls (d - 1)).
  assert (0 <= l <= 32 /\ d <= 2 ^ l /\ (l = 0 /\ d = 1 \/ 1 <= l /\ 2 ^ (l - 1) < d)) as (Hl & Hdl & Hc).
  { unfold l. destruct (decide (d = 1)) as [->|].
    - change (fls (1 - 1)) with 0. change (2 ^ 0) with 1. lia.
    - destruct (fls_spec (d - 1) ltac:(lia)) as (_ & Hf & Hlo & Hhi). lia. }
  clearbody l. assert (2 ^ l <= 2 ^ 32) by (apply Z.pow_le_mono_r; lia).
  rewrite Z.shiftl_mul_pow2, Z.mul_1_l by lia. rewrite (u64_small (2 ^ l)), (u64_small (2 ^ l - d)) by lia.
  rewrite (u64_small (2 ^ 32 * _)) by lia. rewrite do_div_spec by lia. cbn [mbind res_bind].
  assert (0 <= 2 ^ 32 * (2 ^ l - d) / d < 2 ^ 32 - 1) as Hq.
  { split; [apply Z.div_pos; lia|]. apply Z.div_lt_upper_bound; [lia|]. destruct Hc as [[-> ->] | [Hl1 Hlo]]; [lia|].
    assert (2 ^ l = 2 * 2 ^ (l - 1)) as E2 by (rewrite <- Z.pow_succ_r by lia; f_equal; lia). lia. }
  exists l. eexists. split; [reflexivity|]. cbn. rewrite u64_small, u32_small by lia.
  split_and!; try lia; apply (wrapu_small 8); unfold is_u; lia.
Qed.

Lemma reciprocal_divide_spec d a :
  1 <= d < 2 ^ 32 -> 0 <= a < 2 ^ 32 ->
  exists R, reciprocal_value d = Ok R /\ reciprocal_divide a R = a / d.
Proof.
  intros Hd Ha. destruct (reciprocal_value_spec d Hd) as (l & R & E & Hl & Hdl & Hc & Em & Hm & E1 & E2).
  exists R. split; [done|]. unfold reciprocal_divide. rewrite E1, E2. set (m := R_m R) in *. clearbody m.
  rewrite (u64_small (a * m)) by nia. rewrite (Z.shiftr_div_pow2 (a * m) 32) by lia.
  assert (0 <= a * m / 2 ^ 32 <= a) as Ht.
  { split; [apply Z.div_pos; nia|]. apply Z.div_le_upper_bound; nia. }
  rewrite (u32_small (a * m / 2 ^ 32)), (u32_small (a - a * m / 2 ^ 32)) by lia. set (t := a * m / 2 ^ 32) in *.
  (* a + t is the high word of the product with the full multiplier *)
  pose proof (pow2_pos l ltac:(lia)) as Hp.
  assert ((a + t) / 2 ^ l = a / d) as Ekey.
  { assert (a + t = a * (2 ^ 32 + m) / 2 ^ 32) as ->.
    { unfold t. replace (a * (2 ^ 32 + m)) with (a * m + a * 2 ^ 32) by lia. rewrite Z.div_add by lia. lia. }
    rewrite Z.div_div by lia.
    pose proof (Z.div_mod (2 ^ 32 * (2 ^ l - d)) d ltac:(lia)) as Edm.
    pose proof (Z.mod_pos_bound (2 ^ 32 * (2 ^ l - d)) d ltac:(lia)) as Hmod.
    set (r := (2 ^ 32 * (2 ^ l - d)) mod d) in *.
    assert (d * (2 ^ 32 + m) = 2 ^ 32 * 2 ^ l + (d - r)) as EM by nia.
    pose proof (Z.div_mod a d ltac:(lia)) as Eq. pose proof (Z.mod_pos_bound a d ltac:(lia)) as Hr.
    set (q := a / d) in *. set (rr := a mod d) in *. clearbody q rr r. set (P := 2 ^ 32 * 2 ^ l) in *.
    set (M := 2 ^ 32 + m) in *. assert (0 <= q) by nia.
    symmetry. apply (Z.div_unique _ _ _ (a * M - P * q)); [left|lia].
    (* d * (a M - P q) = P rr + a (d - r) lies in [0, P d) *)
    assert (d * (a * M - P * q) = P * rr + a * (d - r)) as Ed.
    { replace (d * (a * M - P * q)) with (a * (d * M) - P * (d * q)) by ring. rewrite EM.
      replace (d * q) with (a - rr) by lia. ring. }
    assert (a * (d - r) < P).
    { apply Z.le_lt_trans with (a * 2 ^ l); [apply Z.mul_le_mono_nonneg_l; lia|]. unfold P. apply Z.mul_lt_mono_pos_r; lia. }
    assert (P * rr <= P * (d - 1)) by (apply Z.mul_le_mono_nonneg_l; lia).
    assert (0 <= P * rr) by (apply Z.mul_nonneg_nonneg; lia).
    assert (0 <= a * (d - r)) by (apply Z.mul_nonneg_nonneg; lia).
    assert (0 <= d * (a * M - P * q) < d * P) by lia.
    split; [apply (Z.mul_nonneg_cancel_l d); lia | apply (Z.mul_lt_mono_pos_l d); lia]. }
  destruct (decide (l = 0)) as [->|].
  - change (Z.max (0 - 1) 0) with 0. change (Z.min 0 1) with 0. rewrite !Z.shiftr_0_r, u32_small by lia.
    change (2 ^ 0) with 1 in Hdl. assert (d = 1) as -> by lia. rewrite Z.div_1_r. lia.
  - destruct Hc as [Hc|Hc]; [done|].
    rewrite Z.min_r, Z.max_l by lia. rewrite !Z.shiftr_div_pow2 by lia. change (2 ^ 1) with 2.
    assert (t + (a - t) / 2 = (a + t) / 2) as ->.
    { replace (a + t) with (a - t + t * 2) by lia. rewrite Z.div_add by lia. lia. }
    rewrite u32_small by dlia. rewrite Z.div_div by lia.
    replace (2 * 2 ^ (l - 1)) with (2 ^ l); [done|]. rewrite <- Z.pow_succ_r by lia. f_equal. lia.
Qed.

(** ** Decimal digits in a byte *)

Theorem bcd_roundtrip v : 0 <= v < 100 -> _bcd2bin (_bin2bcd v) = v.
Proof.
  intros Hv. pose proof (forallb_below 100 (fun v => _bcd2bin (_bin2bcd v) =? v) v eq_refl Hv) as E.
  by apply Z.eqb_eq in E.
Qed.

(** * Properties *)

(** C35: The loops end and are right on every pair of 32-bit arguments: [gcd] needs at
    most as many divisions as its smaller argument and returns the greatest common
    divisor (0 only for two zeros, without dividing); [lcm] is the least common
    multiple modulo 2^32; [int_sqrt] ends after sixteen rounds with the integer square
    root, no intermediate sum overflowing; [fls] is the same computed by tests and by
    the instruction; the iterated division ends with quotient and remainder within
    the quotient's number of rounds, and never ends for a zero divisor. *)
Theorem arithmetic_loops a b fuel n :
  0 <= a < 2 ^ 32 -> 0 <= b < 2 ^ 32 -> 0 <= n < 2 ^ 64 ->
  gcd a b = Ok (Z.gcd a b) /\
  lcm a b = Ok (u32 (Z.lcm a b)) /\
  (Z.lcm a b < 2 ^ 32 -> lcm a b = Ok (Z.lcm a b)) /\
  int_sqrt a = Ok (Z.sqrt a) /\
  constant_fls a = fls a /\
  (1 <= b -> n / b < 2 ^ 32 -> n / b < Z.of_nat fuel -> iter_div_u64_rem fuel n b = Ok (n / b, n mod b)) /\
  iter_div_u64_rem fuel n 0 = Fault NoFuel.
Proof.
  intros Ha Hb Hn. split_and!.
  - apply gcd_spec; lia.
  - apply lcm_spec; lia.
  - intros Hl. rewrite lcm_spec by lia. f_equal. apply u32_small. pose proof (Z.lcm_nonneg a b). lia.
  - by apply int_sqrt_spec.
  - apply constant_fls_clz.
  - intros Hb1 Hq Hf. unfold iter_div_u64_rem, __iter_div_u64_rem. rewrite iter_div_loop_spec by lia. done.
  - by apply iter_div_zero.
Qed.

Lemma arithmetic_loops_witness : gcd 12 18 = Ok 6 /\ int_sqrt 12 = Ok 3.
Proof.
  destruct (arithmetic_loops 12 18 1 0) as (E1 & _ & _ & E2 & _); [lia | lia | lia |].
  split; [exact E1 | exact E2].
Defined.

(** C34: 64-bit division on a 32-bit machine. [do_div] and [div_u64_rem] by a 32-bit
    divisor give quotient and remainder of every 64-bit dividend; [div_s64_rem] gives
    the truncated quotient and the remainder with the dividend's sign for every
    divisor but 0 (the one overflow, INT64_MIN by -1, wraps).  [div64_u64],
    [div64_u64_rem] and [div64_s64] are right when the divisor's magnitude is below
    2^32 or from 2^34 on, or the dividend's is below 2^62; in between the shift by
    [1 + fls(high)] loses a bit too many, and 2^64 - 1 divided by 2^32 + 3 comes out two
    too large. *)
Theorem div64_exact u v a b :
  0 <= u < 2 ^ 64 -> 1 <= v < 2 ^ 64 -> is_s 64 a -> is_s 64 b -> b <> 0 ->
  (v < 2 ^ 32 -> do_div u v = Ok (u / v, u mod v) /\ div_u64_rem u v = Ok (u / v, u mod v)) /\
  (is_s 32 b -> div_s64_rem a b = Ok (i64 (Z.quot a b), Z.rem a b)) /\
  (div64_safe u v -> div64_u64_rem u v = Ok (u / v, u mod v) /\ div64_u64 u v = Ok (u / v)) /\
  (div64_safe (Z.abs a) (Z.abs b) -> div64_s64 a b = Ok (i64 (Z.quot a b))) /\
  div64_u64 (2 ^ 64 - 1) (2 ^ 32 + 3) = Ok ((2 ^ 64 - 1) / (2 ^ 32 + 3) + 2).
Proof.
  intros Hu Hv Ha Hb Hb0. split_and!.
  - intros Hlt. split; [apply do_div_spec | apply div_u64_rem_spec]; lia.
  - intros Hb32. by apply div_s64_rem_spec.
  - by apply div64_u64_both.
  - by apply div64_s64_spec.
  - vm_compute. reflexivity.
Qed.

Lemma div64_exact_witness : div_s64_rem (-7) 2 = Ok (-3, -1).
Proof.
  refine (proj1 (proj2 (div64_exact 7 2 (-7) 2 _ _ _ _ _)) _); unfold is_s; lia.
Defined.

(** Dividing by multiplication is exact: for every divisor from 1 to 2^32 - 1,
    [reciprocal_value] succeeds, and [reciprocal_divide] with its result is the
    quotient for every 32-bit dividend, no intermediate value overflowing. *)
Theorem reciprocal_exact d a :
  1 <= d < 2 ^ 32 -> 0 <= a < 2 ^ 32 ->
  exists R, reciprocal_value d = Ok R /\ reciprocal_divide a R = a / d.
Proof. apply reciprocal_divide_spec. Qed.

Lemma reciprocal_exact_witness : exists R, reciprocal_value 7 = Ok R /\ reciprocal_divide 4294967295 R = 613566756.
Proof.
  destruct (reciprocal_exact 7 4294967295) as (R & E1 & E2); [lia | lia |].
  exists R. split; [exact E1 | exact E2].
Defined.
