(* ===== verification/Kstrtox.v ===== *)
(** * lib/kstrtox.c: strings to integers

    A string is the list of bytes from the pointer on, as in KString.  A conversion
    returns its error code and what it wrote to [*res], [None] when it left [*res]
    alone.  [unsigned long] has 32 bits on ARM, [unsigned long long] 64. *)

From S2P Require Import Prelude Ioctl KString KMath.
Open Scope Z_scope.

Definition ERANGE : Z := 34.
Definition ULLONG_MAX : Z := 18446744073709551615.
Definition KSTRTOX_OVERFLOW : Z := u32 (Z.shiftl 1 31).

(** ** Digits *)

(** The adjusted pointer, as an offset, and the radix. *)
Definition _parse_integer_fixup_radix (s : list Z) (base : Z) : res (Z * Z) :=
  base ← (if base =? 0 then
            c0 ← aread s 0;
            if c0 =? 48 then
              c1 ← aread s 1;
              hex ← (if _tolower c1 =? 120 then c2 ← aread s 2; Ok (isxdigit c2) else Ok false);
              Ok (if hex : bool then 16 else 8)
            else Ok 10
          else Ok base);
  skip ← (if base =? 16 then
            c0 ← aread s 0;
            if c0 =? 48 then c1 ← aread s 1; Ok (_tolower c1 =? 120) else Ok false
          else Ok false);
  Ok (if skip : bool then 2 else 0, base).

(** The value of a digit character in the loop; [None] is [break]. *)
Definition digit (c : Z) : option Z :=
  if (48 <=? c) && (c <=? 57) then Some (c - 48)
  else if (97 <=? _tolower c) && (_tolower c <=? 102) then Some (_tolower c - 97 + 10)
  else None.

(** The [while] loop with its variables; [64-bit] [res] wraps. *)
Fixpoint _parse_integer_loop (s : list Z) (base res rv : Z) (overflow : bool) : Prelude.res (Z * Z * bool) :=
  match s with
  | [] => Fault OutOfBounds
  | c :: s' =>
      if c =? 0 then Ok (res, rv, overflow)
      else match digit c with
           | None => Ok (res, rv, overflow)
           | Some val =>
               if base <=? val then Ok (res, rv, overflow)
               else
                 overflow ←
                   (if negb (Z.land res (u64 (Z.shiftl ULLONG_MAX 60)) =? 0) then
                      q ← div_u64 (ULLONG_MAX - val) base;
                      Ok (if q <? res then true else overflow)
                    else Ok overflow);
                 _parse_integer_loop s' base (u64 (res * base + val)) (rv +u 1)%cint overflow
           end
  end.

(** The return value and [*p]. *)
Definition _parse_integer (s : list Z) (base : Z) : res (Z * Z) :=
  '(res, rv, overflow) ← _parse_integer_loop s base 0 0 false;
  Ok (if overflow : bool then Z.lor rv KSTRTOX_OVERFLOW else rv, res).

(** ** 64-bit results *)

Definition _kstrtoull (s : list Z) (base : Z) : res (Z * option Z) :=
  '(k, base) ← _parse_integer_fixup_radix s base;
  let s := drop (Z.to_nat k) s in
  '(rv, _res) ← _parse_integer s base;
  if negb (Z.land rv KSTRTOX_OVERFLOW =? 0) then Ok (- ERANGE, None)
  else if rv =? 0 then Ok (- EINVAL, None)
  else
    let s := drop (Z.to_nat rv) s in
    c ← rd s;
    let s := if c =? 10 then tail s else s in
    c ← rd s;
    if negb (c =? 0) then Ok (- EINVAL, None) else Ok (0, Some _res).

Definition kstrtoull (s : list Z) (base : Z) : res (Z * option Z) :=
  c ← rd s;
  _kstrtoull (if c =? 43 then tail s else s) base.

Definition kstrtoll (s : list Z) (base : Z) : res (Z * option Z) :=
  c ← rd s;
  if c =? 45 then
    '(rv, tmp) ← _kstrtoull (tail s) base;
    match tmp with
    | None => Ok (rv, None)
    | Some tmp =>
        if 0 <=? i64 (u64 (- tmp)) then Ok (- ERANGE, None) else Ok (0, Some (i64 (u64 (- tmp))))
    end
  else
    '(rv, tmp) ← kstrtoull s base;
    match tmp with
    | None => Ok (rv, None)
    | Some tmp => if i64 tmp <? 0 then Ok (- ERANGE, None) else Ok (0, Some (i64 tmp))
    end.

(** ** Narrower results *)

(** What every narrowing does with the wide result: [fit] is the cast to the
    narrow type and back. *)
Definition narrow (fit : Z -> Z) (r : res (Z * option Z)) : res (Z * option Z) :=
  '(rv, tmp) ← r;
  match tmp with
  | None => Ok (rv, None)
  | Some tmp => if negb (tmp =? fit tmp) then Ok (- ERANGE, None) else Ok (0, Some (fit tmp))
  end.

Definition _kstrtoul (s : list Z) (base : Z) : res (Z * option Z) := narrow (wrapu 32) (kstrtoull s base).
Definition _kstrtol (s : list Z) (base : Z) : res (Z * option Z) := narrow (wraps 32) (kstrtoll s base).
Definition kstrtouint (s : list Z) (base : Z) : res (Z * option Z) := narrow (wrapu 32) (kstrtoull s base).
Definition kstrtoint (s : list Z) (base : Z) : res (Z * option Z) := narrow (wraps 32) (kstrtoll s base).
Definition kstrtou16 (s : list Z) (base : Z) : res (Z * option Z) := narrow (wrapu 16) (kstrtoull s base).
Definition kstrtos16 (s : list Z) (base : Z) : res (Z * option Z) := narrow (wraps 16) (kstrtoll s base).
Definition kstrtou8 (s : list Z) (base : Z) : res (Z * option Z) := narrow (wrapu 8) (kstrtoull s base).
Definition kstrtos8 (s : list Z) (base : Z) : res (Z * option Z) := narrow (wraps 8) (kstrtoll s base).

(** The [kernel.h] wrappers: [long] and [long long] differ in size on ARM. *)
Definition sizeof_long : Z := 4.
Definition sizeof_long_long : Z := 8.
Definition kstrtoul (s : list Z) (base : Z) : res (Z * option Z) :=
  if sizeof_long =? sizeof_long_long then kstrtoull s base else _kstrtoul s base.
Definition kstrtol (s : list Z) (base : Z) : res (Z * option Z) :=
  if sizeof_long =? sizeof_long_long then kstrtoll s base else _kstrtol s base.
Definition kstrtou64 : list Z -> Z -> res (Z * option Z) := kstrtoull.
Definition kstrtos64 : list Z -> Z -> res (Z * option Z) := kstrtoll.
Definition kstrtou32 : list Z -> Z -> res (Z * option Z) := kstrtouint.
Definition kstrtos32 : list Z -> Z -> res (Z * option Z) := kstrtoint.

(** ** From user space *)

(** [kstrto_from_user(f, g, type)]: [size] is [sizeof(type)], [user] the bytes that
    are readable at the user's pointer, [stack] what [buf] held before. *)
Definition kstrto_from_user (g : list Z -> Z -> res (Z * option Z)) (size : Z)
    (stack user : list Z) (count base : Z) : res (Z * option Z) :=
  let sizeof_buf := 1 + size * 8 + 1 + 1 in
  let count := Z.min count (sizeof_buf - 1) in
  if Z.of_nat (length user) <? count then Ok (- EFAULT, None)
  else
    buf ← memcpy stack user count;
    buf ← awrite buf count 0;
    g buf base.
Definition kstrtoull_from_user := kstrto_from_user kstrtoull 8.
Definition kstrtoll_from_user := kstrto_from_user kstrtoll 8.
Definition kstrtoul_from_user := kstrto_from_user kstrtoul 4.
Definition kstrtol_from_user := kstrto_from_user kstrtol 4.
Definition kstrtouint_from_user := kstrto_from_user kstrtouint 4.
Definition kstrtoint_from_user := kstrto_from_user kstrtoint 4.
Definition kstrtou16_from_user := kstrto_from_user kstrtou16 2.
Definition kstrtos16_from_user := kstrto_from_user kstrtos16 2.
Definition kstrtou8_from_user := kstrto_from_user kstrtou8 1.
Definition kstrtos8_from_user := kstrto_from_user kstrtos8 1.

(** * Specification *)

(** The digits a numeral of radix [base] starts with. *)
Definition is_digit (base c : Z) : bool :=
  match digit c with Some v => v <? base | None => false end.
Fixpoint numeral (base : Z) (t : list Z) : list Z :=
  match t with
  | c :: t' => if is_digit base c then c :: numeral base t' else []
  | [] => []
  end.
(** The number digits stand for. *)
Definition horner (base acc : Z) (ds : list Z) : Z :=
  foldl (fun v c => v * base + default 0 (digit c)) acc ds.
Abbreviation value base ds := (horner base 0 ds).

(** The reference: what a conversion of the text [t] with the radix known must
    answer. *)
Definition convert (base : Z) (t : list Z) : Z * option Z :=
  let ds := numeral base t in
  let rest := drop (length ds) t in
  if 2 ^ 64 <=? value base ds then (- ERANGE, None)
  else if decide (ds <> [] /\ (rest = [] \/ rest = [10])) then (0, Some (value base ds))
  else (- EINVAL, None).

(** "0x" or "0X" at the front. *)
Definition hex_prefix (t : list Z) : bool :=
  match t with c :: x :: _ => (c =? 48) && (_tolower x =? 120) | _ => false end.
(** Radix 0 is detected from the text. *)
Definition radix (base : Z) (t : list Z) : Z :=
  if base =? 0 then
    if bool_decide (head t = Some 48) then
      if hex_prefix t && isxdigit (default 0 (t !! 2%nat)) then 16 else 8
    else 10
  else base.
Definition skip (base : Z) (t : list Z) : nat := if (base =? 16) && hex_prefix t then 2 else 0.
Definition unsign (sign : Z) (t : list Z) : list Z := if decide (head t = Some sign) then tail t else t.
(** What [_kstrtoull] must answer for a text. *)
Definition convert_any (base : Z) (t : list Z) : Z * option Z :=
  convert (radix base t) (drop (skip (radix base t) t) t).

(** What a signed conversion must answer; the code takes a negative zero for a
    value out of range. *)
Definition convert_signed (base : Z) (t : list Z) : Z * option Z :=
  if decide (head t = Some 45) then
    match convert_any base (tail t) with
    | (_, Some v) => if decide (0 < v <= 2 ^ 63) then (0, Some (- v)) else (- ERANGE, None)
    | r => r
    end
  else
    match convert_any base (unsign 43 t) with
    | (_, Some v) => if decide (v < 2 ^ 63) then (0, Some v) else (- ERANGE, None)
    | r => r
    end.

(** A wide answer restricted to the values of a narrow type. *)
Definition within (P : Z -> Prop) `{forall v, Decision (P v)} (r : Z * option Z) : Z * option Z :=
  match r with
  | (_, Some v) => if decide (P v) then (0, Some v) else (- ERANGE, None)
  | r => r
  end.

(** The conversions by the width of their result. *)
Definition unsigned_parsers : list (Z * (list Z -> Z -> res (Z * option Z))) :=
  [(64, kstrtoull); (64, kstrtou64); (32, kstrtoul); (32, _kstrtoul); (32, kstrtouint); (32, kstrtou32);
   (16, kstrtou16); (8, kstrtou8)].
Definition signed_parsers : list (Z * (list Z -> Z -> res (Z * option Z))) :=
  [(64, kstrtoll); (64, kstrtos64); (32, kstrtol); (32, _kstrtol); (32, kstrtoint); (32, kstrtos32);
   (16, kstrtos16); (8, kstrtos8)].

(** Printing: the digits of [v], most significant first, in upper or lower case. *)
Definition digit_char (upper : bool) (d : Z) : Z := d + (if d <? 10 then 48 else if upper then 55 else 87).
Fixpoint render_loop (n : nat) (upper : bool) (base v : Z) (acc : list Z) : list Z :=
  match n with
  | O => acc
  | S n' =>
      let acc := digit_char upper (v mod base) :: acc in
      if v / base =? 0 then acc else render_loop n' upper base (v / base) acc
  end.
(** 64 digits suffice for 64 bits in any radix from 2. *)
Definition render : bool -> Z -> Z -> list Z := fun upper base v => render_loop 64 upper base v [].

(** * Lemmas *)

Lemma digit_range c v : 0 <= c < 256 -> digit c = Some v -> 0 <= v < 16.
Proof.
  intros Hc. pose proof (forallb_below 256
    (fun c => match digit c with Some v => (0 <=? v) && (v <? 16) | None => true end) c eq_refl Hc) as E.
  cbv beta in E. intros Hd. rewrite Hd in E. lia.
Qed.

Lemma digit_zero : digit 0 = None.
Proof. reflexivity. Qed.

Lemma horner_cons base acc c ds : horner base acc (c :: ds) = horner base (acc * base + default 0 (digit c)) ds.
Proof. done. Qed.

Lemma numeral_digits base t : Forall (fun c => is_digit base c = true) (numeral base t).
Proof. induction t as [|c t IH]; cbn; [done|]. destruct (is_digit base c) eqn:E; by constructor. Qed.

Lemma numeral_prefix base t : numeral base t = take (length (numeral base t)) t.
Proof.
  induction t as [|c t IH]; [done|]. cbn. destruct (is_digit base c); [|done]. cbn. by f_equal.
Qed.

Lemma horner_ge base acc ds :
  1 <= base -> 0 <= acc -> bytes ds -> Forall (fun c => is_digit base c = true) ds -> acc <= horner base acc ds.
Proof.
  intros Hb. revert acc. induction ds as [|c ds IH]; intros acc Ha Hy Hd; [cbn; lia|].
  apply Forall_cons in Hy as [Hc Hy], Hd as [Hdc Hd]. rewrite horner_cons.
  unfold is_digit in Hdc. destruct (digit c) as [v|] eqn:Ev; [|done]. cbn [default]. unfold id.
  apply digit_range in Ev; [|lia]. transitivity (acc * base + v); [nia|]. apply IH; done || nia.
Qed.

(** The overflow test looks only at results of 2^60 and more. *)
Lemma high_nibble r : 0 <= r < 2 ^ 64 -> Z.land r (u64 (Z.shiftl ULLONG_MAX 60)) = 0 <-> r < 2 ^ 60.
Proof.
  intros Hr. replace (u64 (Z.shiftl ULLONG_MAX 60)) with (Z.shiftl (Z.ones 4) 60) by reflexivity.
  assert (Z.land r (Z.shiftl (Z.ones 4) 60) = Z.shiftl (Z.shiftr r 60) 60) as ->.
  { apply Z.bits_inj'. intros i Hi. autorewrite with zbits. destruct (decide (i < 60)).
    - rewrite !(Z.testbit_neg_r _ (i - 60)) by lia. by rewrite andb_false_r.
    - rewrite Z.shiftr_spec by lia. replace (i - 60 + 60) with i by lia.
      destruct (decide (i < 64)).
      + rewrite Z.ones_spec_low by lia. by rewrite andb_true_r.
      + rewrite (testbit_high 64 r) by (done || lia). done. }
  rewrite Z.shiftl_mul_pow2, Z.shiftr_div_pow2 by lia. split.
  - intros E. assert (r / 2 ^ 60 = 0) by lia. apply Z.div_small_iff in H; lia.
  - intros E. by rewrite Z.div_small by lia.
Qed.

Lemma overflow_step res base val :
  0 <= res < 2 ^ 64 -> 1 <= base <= 16 -> 0 <= val < base ->
  forall o,
  (if negb (Z.land res (u64 (Z.shiftl ULLONG_MAX 60)) =? 0) then
     q ← div_u64 (ULLONG_MAX - val) base;
     Ok (if q <? res then true else o)
   else Ok o) = Ok (o || (2 ^ 64 <=? res * base + val)).
Proof.
  intros Hr Hb Hv o. assert (base <> 0) by lia.
  destruct (Z.eqb_spec (Z.land res (u64 (Z.shiftl ULLONG_MAX 60))) 0) as [E|E]; cbn [negb].
  - rewrite high_nibble in E by done.
    destruct (Z.leb_spec (2 ^ 64) (res * base + val)); [nia|]. by rewrite orb_false_r.
  - rewrite div_u64_spec by (unfold ULLONG_MAX; lia). cbn [mbind res_bind]. f_equal.
    pose proof (Z.div_mod (ULLONG_MAX - val) base ltac:(lia)).
    pose proof (Z.mod_pos_bound (ULLONG_MAX - val) base ltac:(lia)).
    unfold ULLONG_MAX in *. change (2 ^ 64) with 18446744073709551616.
    set (q := (18446744073709551615 - val) / base) in *.
    destruct (Z.ltb_spec q res), (Z.leb_spec 18446744073709551616 (res * base + val));
      rewrite ?orb_true_r, ?orb_false_r; try done; nia.
Qed.

Lemma is_digit_break base c :
  is_digit base c = false ->
  digit c = None \/ exists v, digit c = Some v /\ base <= v.
Proof.
  unfold is_digit. destruct (digit c) as [v|]; [|by left]. intros. right. exists v. split; [done|lia].
Qed.

(** The loop computes the numeral's value as long as it fits, and the flag says
    whether it does. *)
Lemma _parse_integer_loop_spec base t r acc res rv :
  1 <= base <= 16 -> bytes t -> 0 <= acc -> 0 <= res < 2 ^ 64 ->
  (acc < 2 ^ 64 -> res = acc) -> 0 <= rv -> rv + Z.of_nat (length t) < 2 ^ 32 ->
  exists res', _parse_integer_loop (cstr t r) base res rv (2 ^ 64 <=? acc) =
    Ok (res', rv + Z.of_nat (length (numeral base t)), 2 ^ 64 <=? horner base acc (numeral base t)) /\
    (horner base acc (numeral base t) < 2 ^ 64 -> res' = horner base acc (numeral base t)).
Proof.
  intros Hb. revert acc res rv. induction t as [|c t IH]; intros acc res rv Ht Ha Hr Hra Hrv Hl; cbn [app _parse_integer_loop].
  { exists res. cbn. rewrite Z.add_0_r. done. }
  apply Forall_cons in Ht as [Hc Ht]. rewrite (proj2 (Z.eqb_neq c 0)) by lia. cbn [numeral length] in *.
  destruct (is_digit base c) eqn:Ed.
  - unfold is_digit in Ed. destruct (digit c) as [v|] eqn:Ev; [|done]. pose proof (digit_range c v ltac:(lia) Ev).
    apply Z.ltb_lt in Ed. rewrite (proj2 (Z.leb_gt base v)) by lia.
    rewrite overflow_step by lia. cbn [mbind res_bind]. rewrite u32_small by lia.
    assert (((2 ^ 64 <=? acc) || (2 ^ 64 <=? res * base + v)) = (2 ^ 64 <=? acc * base + v)) as ->.
    { destruct (Z.leb_spec (2 ^ 64) acc) as [Hg|Hg]; [symmetry; apply Z.leb_le; nia|]. by rewrite Hra. }
    destruct (IH (acc * base + v) (u64 (res * base + v)) (rv + 1)) as (res' & E & Hres); try done; try lia.
    + apply (wrapu_range 64). lia.
    + intros Hlt. assert (acc < 2 ^ 64) by nia. rewrite Hra by done. apply wrapu_small. unfold is_u. nia.
    + exists res'. rewrite E, horner_cons, Ev. cbn [default length]. unfold id. split; [do 3 f_equal; lia|done].
  - exists res. cbn [length]. change (horner base acc []) with acc. rewrite Z.add_0_r. split; [|done].
    destruct (is_digit_break _ _ Ed) as [->|(v & -> & Hv)]; [done|]. by rewrite (proj2 (Z.leb_le base v)) by lia.
Qed.

Lemma overflow_bit rv b :
  0 <= rv < 2 ^ 31 ->
  (Z.land (if b : bool then Z.lor rv KSTRTOX_OVERFLOW else rv) KSTRTOX_OVERFLOW =? 0) = negb b.
Proof.
  intros Hr. change KSTRTOX_OVERFLOW with (2 ^ 31).
  assert (Z.land rv (2 ^ 31) = 0) as E0.
  { apply Z.bits_inj'. intros i Hi. rewrite Z.land_spec, testbit_pow2, Z.testbit_0_l by lia.
    case_bool_decide; [|by rewrite andb_false_r]. rewrite (testbit_high 31 rv) by (done || lia). done. }
  destruct b; cbn [negb].
  - rewrite Z.land_lor_distr_l, E0, Z.land_diag. done.
  - by rewrite E0.
Qed.

Lemma _parse_integer_spec base t r :
  1 <= base <= 16 -> bytes t -> Z.of_nat (length t) < 2 ^ 31 ->
  let ds := numeral base t in
  exists rv v, _parse_integer (cstr t r) base = Ok (rv, v) /\
    (Z.land rv KSTRTOX_OVERFLOW =? 0) = negb (2 ^ 64 <=? value base ds) /\
    (value base ds < 2 ^ 64 -> rv = Z.of_nat (length ds) /\ v = value base ds).
Proof.
  intros Hb Ht Hl ds. unfold _parse_integer.
  destruct (_parse_integer_loop_spec base t r 0 0 0) as (v & E & Hv); try done; try lia.
  fold ds in E, Hv. change (2 ^ 64 <=? 0) with false in E. rewrite E. cbn [mbind res_bind].
  assert (length ds <= length t)%nat by (subst ds; rewrite numeral_prefix, length_take; lia).
  eexists _, v. split; [done|]. split.
  - rewrite <- overflow_bit with (rv := 0 + Z.of_nat (length ds)); [done|lia].
  - intros Hlt. rewrite (proj2 (Z.leb_gt (2 ^ 64) _)) by done. split; [lia | by apply Hv].
Qed.

(** The tail: an optional newline and the end of the text. *)
Lemma end_of_text t r :
  text t ->
  (c ← rd (cstr t r);
   let s := if c =? 10 then tail (cstr t r) else cstr t r in
   c ← rd s; Ok (negb (c =? 0))) = Ok (negb (bool_decide (t = [] \/ t = [10]))).
Proof.
  intros Ht. destruct t as [|a [|b t]]; cbn [app rd mbind res_bind tail].
  - by rewrite bool_decide_eq_true_2 by tauto.
  - apply Forall_cons in Ht as [Ha _]. destruct (Z.eqb_spec a 10) as [->|Hn]; cbn [rd mbind res_bind].
    + by rewrite bool_decide_eq_true_2 by tauto.
    + rewrite (proj2 (Z.eqb_neq a 0)) by done. rewrite bool_decide_eq_false_2; [done|]. intros [|[= ?]]; done.
  - apply Forall_cons in Ht as [Ha Ht]. apply Forall_cons in Ht as [Hb _].
    rewrite bool_decide_eq_false_2 by (intros [|]; done).
    destruct (Z.eqb_spec a 10); cbn [rd mbind res_bind tail]; rewrite (proj2 (Z.eqb_neq _ 0)) by done; done.
Qed.

Lemma hex_prefix_cons c x t : hex_prefix (c :: x :: t) = (c =? 48) && (_tolower x =? 120).
Proof. done. Qed.

Lemma fixup_spec base t r :
  text t ->
  _parse_integer_fixup_radix (cstr t r) base =
    Ok (Z.of_nat (skip (radix base t) t), radix base t).
Proof.
  intros Ht. unfold _parse_integer_fixup_radix, radix, skip.
  assert (forall b, (if b =? 16 then c0 ← aread (cstr t r) 0;
            if c0 =? 48 then c1 ← aread (cstr t r) 1; Ok (_tolower c1 =? 120) else Ok false
          else Ok false) = Ok ((b =? 16) && hex_prefix t)) as Eskip.
  { intros b. destruct (b =? 16); [|done].
    destruct t as [|c [|x t]]; [done| |].
    - change (aread (cstr [c] r) 0) with (Ok c : Prelude.res Z). cbn [mbind res_bind].
      by destruct (c =? 48).
    - change (aread (cstr (c :: x :: t) r) 0) with (Ok c : Prelude.res Z). cbn [mbind res_bind].
      rewrite hex_prefix_cons. by destruct (c =? 48). }
  assert (forall b, Z.of_nat (if b : bool then 2 else 0) = if b then 2 else 0) as Eif by (by intros []).
  rewrite Eif. destruct (base =? 0); [|cbn [mbind res_bind]; by rewrite Eskip].
  destruct t as [|c t]; [done|].
  change (aread (cstr (c :: t) r) 0) with (Ok c : Prelude.res Z) in *. cbn [mbind res_bind head] in *.
  apply Forall_cons in Ht as [Hc Ht]. destruct (Z.eqb_spec c 48) as [->|Hn].
  2:{ rewrite bool_decide_eq_false_2 by (intros [=]; done). cbn [mbind res_bind]. done. }
  rewrite bool_decide_eq_true_2 by done. destruct t as [|x t]; [by cbn|].
  change (aread (cstr (48 :: x :: t) r) 1) with (Ok x : Prelude.res Z) in *. cbn [mbind res_bind] in *.
  rewrite hex_prefix_cons in *. change (48 =? 48) with true in *. cbn [andb] in *.
  destruct (_tolower x =? 120) eqn:Ex; cbn [andb mbind res_bind].
  - change ((48 :: x :: t) !! 2%nat) with (t !! 0%nat).
    assert (aread (cstr (48 :: x :: t) r) 2 = Ok (default 0 (t !! 0%nat))) as -> by (by destruct t).
    cbn [mbind res_bind]. by rewrite Eskip.
  - by rewrite Eskip.
Qed.

Lemma radix_range base t : base = 0 \/ 1 <= base <= 16 -> 1 <= radix base t <= 16.
Proof.
  intros Hb. unfold radix. destruct (Z.eqb_spec base 0); [|lia].
  case_bool_decide; [|lia]. destruct (_ && _); lia.
Qed.

Lemma drop_cstr n t r : (n <= length t)%nat -> drop n (cstr t r) = cstr (drop n t) r.
Proof. apply drop_app_le. Qed.

Lemma skip_length base t : (skip base t <= length t)%nat.
Proof.
  unfold skip, hex_prefix. destruct t as [|c [|x t]]; rewrite ?andb_false_r; cbn [length]; [lia|lia|].
  destruct (_ && _); lia.
Qed.

Lemma _kstrtoull_spec base t r :
  base = 0 \/ 1 <= base <= 16 -> bytes t -> Z.of_nat (length t) < 2 ^ 31 ->
  _kstrtoull (cstr t r) base = Ok (convert_any base t).
Proof.
  intros Hb Ht Hl. unfold _kstrtoull, convert_any.
  rewrite fixup_spec by (by apply bytes_text). cbn [mbind res_bind]. rewrite Nat2Z.id.
  pose proof (radix_range base t Hb) as Hr. set (b := radix base t) in *.
  pose proof (skip_length b t). rewrite drop_cstr by done. set (u := drop (skip b t) t).
  assert (bytes u) as Hu by (by apply Forall_drop).
  assert (length u <= length t)%nat by (unfold u; rewrite length_drop; lia).
  destruct (_parse_integer_spec b u r) as (rv & v & E & Hov & Hv); [done | done | lia |].
  rewrite E. cbn [mbind res_bind]. rewrite Hov. unfold convert. set (ds := numeral b u) in *.
  destruct (Z.leb_spec (2 ^ 64) (value b ds)); cbn [negb]; [done|].
  destruct Hv as [-> ->]; [done|].
  destruct (Z.eqb_spec (Z.of_nat (length ds)) 0) as [E0|E0].
  { rewrite decide_False; [done|]. intros [Hne _]. by destruct ds. }
  assert (length ds <= length u)%nat by (unfold ds; rewrite numeral_prefix, length_take; lia).
  rewrite Nat2Z.id, drop_cstr by done.
  pose proof (end_of_text (drop (length ds) u) r (Forall_drop _ _ _ (bytes_text _ Hu))) as Et.
  destruct (rd (cstr _ _)) as [c|]; [|done]. cbn [mbind res_bind] in *.
  destruct (rd (if c =? 10 then _ else _)) as [c'|]; [|done]. cbn [mbind res_bind] in *. injection Et as Et.
  rewrite Et. case_bool_decide as Hrest; cbn [negb].
  - rewrite decide_True; [done|]. split; [by intros E1; rewrite E1 in E0|done].
  - rewrite decide_False; [done|]. by intros [_ ?].
Qed.

Lemma rd_head t r : rd (cstr t r) = Ok (default 0 (head t)).
Proof. by destruct t. Qed.

Lemma unsign_cstr t r sign :
  sign <> 0 -> (if default 0 (head t) =? sign then tail (cstr t r) else cstr t r) = cstr (unsign sign t) r.
Proof.
  intros Hs. unfold unsign. destruct t as [|c t]; cbn [head default]; unfold id.
  - by rewrite (proj2 (Z.eqb_neq 0 sign)) by done.
  - destruct (Z.eqb_spec c sign) as [->|]; [by rewrite decide_True|].
    rewrite decide_False; [done|]. by intros [=].
Qed.

Lemma unsign_bytes sign t : bytes t -> bytes (unsign sign t) /\ (length (unsign sign t) <= length t)%nat.
Proof.
  intros Ht. unfold unsign. case_decide; [|done]. destruct t as [|c t]; [done|].
  apply Forall_cons in Ht as [_ Ht]. cbn. split; [done|lia].
Qed.

Lemma kstrtoull_spec base t r :
  base = 0 \/ 1 <= base <= 16 -> bytes t -> Z.of_nat (length t) < 2 ^ 31 ->
  kstrtoull (cstr t r) base = Ok (convert_any base (unsign 43 t)).
Proof.
  intros Hb Ht Hl. unfold kstrtoull. rewrite rd_head. cbn [mbind res_bind]. rewrite unsign_cstr by done.
  destruct (unsign_bytes 43 t Ht). apply _kstrtoull_spec; done || lia.
Qed.

Lemma convert_range base t v : 1 <= base -> bytes t -> (convert base t).2 = Some v -> 0 <= v < 2 ^ 64.
Proof.
  intros Hb Ht. unfold convert. destruct (Z.leb_spec (2 ^ 64) (value base (numeral base t))); [done|].
  case_decide; [|done]. intros [= <-]. split; [|done].
  apply horner_ge; [done | done | | apply numeral_digits]. rewrite numeral_prefix. by apply Forall_take.
Qed.

Lemma convert_any_range base t v :
  base = 0 \/ 1 <= base <= 16 -> bytes t -> (convert_any base t).2 = Some v -> 0 <= v < 2 ^ 64.
Proof.
  intros Hb Ht. pose proof (radix_range base t Hb). apply convert_range; [lia|]. by apply Forall_drop.
Qed.

Lemma i64_neg v : 0 < v <= 2 ^ 63 -> i64 (u64 (- v)) = - v.
Proof. intros Hv. rewrite wraps_wrapu by lia. apply wraps_small; [lia|]. unfold is_s. lia. Qed.

Lemma i64_neg_out v : 0 <= v < 2 ^ 64 -> ~ 0 < v <= 2 ^ 63 -> 0 <= i64 (u64 (- v)).
Proof.
  intros Hv Hout. destruct (decide (v = 0)) as [->|]; [done|]. rewrite wraps_wrapu by lia.
  unfold wraps. rewrite <- (Z.mod_unique (- v + 2 ^ (64 - 1)) (2 ^ 64) (-1) (2 ^ 64 + 2 ^ 63 - v)); lia.
Qed.

Lemma keep_signed (o : Z * option Z) :
  (forall v, o.2 = Some v -> 0 <= v < 2 ^ 64) ->
  (let '(rv, tmp) := o in
   match tmp with
   | None => Ok (rv, None)
   | Some tmp => if i64 tmp <? 0 then Ok (- ERANGE, None) else Ok (0, Some (i64 tmp))
   end) = Ok (match o with
              | (_, Some v) => if decide (v < 2 ^ 63) then (0, Some v) else (- ERANGE, None)
              | (rv, None) => (rv, None)
              end).
Proof.
  destruct o as [rv [v|]]; [|done]. intros Hv. specialize (Hv v eq_refl). case_decide.
  - rewrite wraps_small by (lia || unfold is_s; lia). by rewrite (proj2 (Z.ltb_ge v 0)) by lia.
  - unfold wraps. rewrite <- (Z.mod_unique (v + 2 ^ (64 - 1)) (2 ^ 64) 1 (v - 2 ^ 63)) by lia.
    by rewrite (proj2 (Z.ltb_lt _ 0)) by lia.
Qed.

Lemma kstrtoll_spec base t r :
  base = 0 \/ 1 <= base <= 16 -> bytes t -> Z.of_nat (length t) < 2 ^ 31 ->
  kstrtoll (cstr t r) base = Ok (convert_signed base t).
Proof.
  intros Hb Ht Hl. unfold kstrtoll, convert_signed. rewrite rd_head. cbn [mbind res_bind].
  case_decide as Hh.
  - destruct t as [|c t]; [done|]. injection Hh as ->. cbn [head default tail app].
    apply Forall_cons in Ht as [_ Ht]. cbn [length] in Hl. change (id 45 =? 45) with true.
    rewrite _kstrtoull_spec by (done || lia). cbn [mbind res_bind].
    destruct (convert_any base t) as [rv [v|]] eqn:E; [|done].
    pose proof (convert_any_range base t v Hb Ht ltac:(by rewrite E)) as Hv.
    case_decide.
    + rewrite i64_neg by done. by rewrite (proj2 (Z.leb_gt 0 (- v))) by lia.
    + pose proof (i64_neg_out v Hv ltac:(done)). by rewrite (proj2 (Z.leb_le 0 _)).
  - assert ((default 0 (head t) =? 45) = false) as ->.
    { apply Z.eqb_neq. destruct t; cbn in *; [done|]. congruence. }
    rewrite kstrtoull_spec by done. cbn [mbind res_bind]. apply keep_signed. intros v.
    apply convert_any_range; [done|]. by apply unsign_bytes.
Qed.

Lemma narrow_spec fit P `{forall v, Decision (P v)} (r : Z * option Z) :
  (forall v, fit v = v <-> P v) -> narrow fit (Ok r) = Ok (within P r).
Proof.
  intros Hf. unfold narrow, within. cbn [mbind res_bind]. destruct r as [rv [v|]]; [|done].
  destruct (Z.eqb_spec v (fit v)) as [E|E]; cbn [negb].
  - rewrite decide_True by (by apply Hf). by rewrite <- E.
  - by rewrite decide_False by (rewrite <- Hf; congruence).
Qed.

Lemma wrapu_fits w v : 0 <= w -> wrapu w v = v <-> is_u w v.
Proof. intros Hw. split; [intros <-; by apply wrapu_range | apply wrapu_small]. Qed.
Lemma wraps_fits w v : 0 < w -> wraps w v = v <-> is_s w v.
Proof. intros Hw. split; [intros <-; by apply wraps_range | by apply wraps_small]. Qed.

(** Every conversion is the wide one, restricted to its type. *)
Lemma unsigned_parsers_spec w f base t r :
  (w, f) ∈ unsigned_parsers -> base = 0 \/ 1 <= base <= 16 -> bytes t -> Z.of_nat (length t) < 2 ^ 31 ->
  f (cstr t r) base = Ok (within (is_u w) (convert_any base (unsign 43 t))).
Proof.
  intros Hf Hb Ht Hl.
  assert (kstrtoull (cstr t r) base = Ok (within (is_u 64) (convert_any base (unsign 43 t)))) as E64.
  { rewrite kstrtoull_spec by done. f_equal. unfold within.
    destruct (unsign_bytes 43 t Ht) as [Hu _].
    pose proof (convert_any_range base (unsign 43 t)) as Hr.
    destruct (convert_any base (unsign 43 t)) as [rv [v|]] eqn:E; [|done].
    rewrite decide_True by (by apply Hr). f_equal. revert E. unfold convert_any, convert.
    destruct (2 ^ 64 <=? _); [done|]. case_decide; [|done]. by intros [= <-]. }
  repeat (apply elem_of_cons in Hf as [[= -> ->]|Hf]); [..|by apply elem_of_nil in Hf];
    try exact E64;
    unfold kstrtoul, kstrtou32, kstrtouint, kstrtou16, kstrtou8;
    change (sizeof_long =? sizeof_long_long) with false; cbv iota;
    unfold _kstrtoul; rewrite kstrtoull_spec by done; apply narrow_spec; intros; by apply wrapu_fits.
Qed.

Lemma convert_zero_rc base t rv v : convert_any base t = (rv, Some v) -> rv = 0.
Proof.
  unfold convert_any, convert. destruct (2 ^ 64 <=? _); [done|]. case_decide; [|done]. by intros [= <- _].
Qed.

Lemma signed_parsers_spec w f base t r :
  (w, f) ∈ signed_parsers -> base = 0 \/ 1 <= base <= 16 -> bytes t -> Z.of_nat (length t) < 2 ^ 31 ->
  f (cstr t r) base = Ok (within (is_s w) (convert_signed base t)).
Proof.
  intros Hf Hb Ht Hl.
  assert (kstrtoll (cstr t r) base = Ok (within (is_s 64) (convert_signed base t))) as E64.
  { rewrite kstrtoll_spec by done. f_equal. unfold convert_signed, within, is_s. case_decide as Hh.
    - destruct (convert_any base (tail t)) as [rv [v|]]; [|done].
      case_decide; [|done]. by rewrite decide_True by lia.
    - pose proof (convert_any_range base (unsign 43 t)) as Hr.
      destruct (convert_any base (unsign 43 t)) as [rv [v|]]; [|done].
      specialize (Hr v Hb (proj1 (unsign_bytes 43 t Ht)) eq_refl).
      case_decide; [|done]. by rewrite decide_True by lia. }
  repeat (apply elem_of_cons in Hf as [[= -> ->]|Hf]); [..|by apply elem_of_nil in Hf];
    try exact E64;
    unfold kstrtol, kstrtos32, kstrtoint, kstrtos16, kstrtos8;
    change (sizeof_long =? sizeof_long_long) with false; cbv iota;
    unfold _kstrtol; rewrite kstrtoll_spec by done; apply narrow_spec; intros; by apply wraps_fits.
Qed.

(** ** Printed numbers *)

Lemma digit_char_spec upper d base :
  0 <= d < base -> base <= 16 ->
  digit (digit_char upper d) = Some d /\ 48 <= digit_char upper d < 103.
Proof.
  intros Hd Hb.
  pose proof (forallb_below 16 (fun d => bool_decide (digit (digit_char upper d) = Some d /\
    48 <= digit_char upper d < 103)) d ltac:(by destruct upper) ltac:(lia)) as E.
  by apply bool_decide_eq_true in E.
Qed.

Lemma horner_app base acc a b : horner base acc (a ++ b) = horner base (horner base acc a) b.
Proof. apply foldl_app. Qed.

Lemma render_loop_spec n upper base v acc :
  2 <= base <= 16 -> 0 <= v < base ^ Z.of_nat n -> (0 < n)%nat ->
  exists ds, render_loop n upper base v acc = ds ++ acc /\ ds <> [] /\ (length ds <= n)%nat /\
    Forall (fun c => is_digit base c = true /\ 48 <= c < 103) ds /\ forall a, horner base a ds = a * base ^ Z.of_nat (length ds) + v.
Proof.
  intros Hb. revert v acc. induction n as [|n IH]; intros v acc Hv Hn; [lia|]. cbn [render_loop].
  pose proof (Z.mod_pos_bound v base ltac:(lia)) as Hm.
  destruct (digit_char_spec upper (v mod base) base Hm ltac:(lia)) as [Hd Hc].
  assert (is_digit base (digit_char upper (v mod base)) = true) as Hdig by (unfold is_digit; rewrite Hd; lia).
  pose proof (Z.div_mod v base ltac:(lia)) as Edm.
  destruct (Z.eqb_spec (v / base) 0) as [E0|E0].
  - exists [digit_char upper (v mod base)]. split_and!; [done | done | cbn; lia | by constructor |].
    intros a. cbn. rewrite Hd. cbn [default]. unfold id. rewrite Z.mul_1_r || idtac. lia.
  - assert (0 <= v / base) by (apply Z.div_pos; lia).
    rewrite Nat2Z.inj_succ, Z.pow_succ_r in Hv by lia.
    assert (v / base < base ^ Z.of_nat n) by (apply Z.div_lt_upper_bound; lia).
    destruct (IH (v / base) (digit_char upper (v mod base) :: acc)) as (ds & E & Hne & Hl & Hall & Hh); [lia| |].
    { destruct n; [|lia]. cbn in *. lia. }
    exists (ds ++ [digit_char upper (v mod base)]). split_and!.
    + by rewrite E, <- app_assoc.
    + by destruct ds.
    + rewrite length_app. cbn. lia.
    + apply Forall_app. split; [done|]. by constructor.
    + intros a. rewrite horner_app, Hh, length_app. cbn [length]. cbn [horner foldl]. rewrite Hd. cbn [default].
      unfold id. rewrite Nat2Z.inj_add, Z.pow_add_r by lia. change (Z.of_nat 1) with 1. rewrite Z.pow_1_r. lia.
Qed.

Lemma render_spec upper base v :
  2 <= base <= 16 -> 0 <= v < 2 ^ 64 ->
  let ds := render upper base v in
  ds <> [] /\ (length ds <= 64)%nat /\
  Forall (fun c => is_digit base c = true /\ 48 <= c < 103) ds /\ value base ds = v.
Proof.
  intros Hb Hv. unfold render.
  destruct (render_loop_spec 64 upper base v []) as (ds & E & Hne & Hl & Hall & Hh); [done| |lia|].
  { assert (2 ^ 64 <= base ^ 64) by (apply Z.pow_le_mono_l; lia). lia. }
  rewrite E, app_nil_r. split_and!; done.
Qed.

Lemma numeral_app base ds rest :
  Forall (fun c => is_digit base c = true /\ 48 <= c < 103) ds -> numeral base rest = [] -> numeral base (ds ++ rest) = ds.
Proof. intros Hd Hr. induction Hd as [|c ds [Hc _] _ IH]; [done|]. cbn. rewrite Hc. by f_equal. Qed.

Abbreviation newline nl := (nl = [] \/ nl = [10]).

Lemma convert_render upper base v nl :
  2 <= base <= 16 -> 0 <= v < 2 ^ 64 -> newline nl ->
  convert base (render upper base v ++ nl) = (0, Some v).
Proof.
  intros Hb Hv Hnl. destruct (render_spec upper base v Hb Hv) as (Hne & _ & Hd & Hval).
  unfold convert. rewrite numeral_app, Hval, drop_app_length by (done || (by destruct Hnl as [-> | ->])).
  rewrite (proj2 (Z.leb_gt _ _)) by lia. by rewrite decide_True.
Qed.

(** A numeral of digits has no "0x" in front. *)
Lemma digits_no_prefix base ds nl :
  Forall (fun c => is_digit base c = true /\ 48 <= c < 103) ds -> newline nl -> hex_prefix (ds ++ nl) = false.
Proof.
  intros Hd Hnl. destruct ds as [|c [|x ds]]; [by destruct Hnl as [-> | ->]|by destruct Hnl as [-> | ->]; cbn; rewrite ?andb_false_r|].
  apply Forall_cons in Hd as [_ Hd]. apply Forall_cons in Hd as [[Hx Hr] _]. cbn [app]. rewrite hex_prefix_cons.
  assert ((_tolower x =? 120) = false) as ->; [|by rewrite andb_false_r].
  pose proof (forallb_below 103 (fun x => negb (bool_decide (is_Some (digit x))) || negb (_tolower x =? 120)) x eq_refl ltac:(lia)) as E.
  cbv beta in E. unfold is_digit in Hx. destruct (digit x); [|done]. rewrite bool_decide_eq_true_2 in E by eauto.
  cbn [negb orb] in E. by destruct (_tolower x =? 120).
Qed.

Lemma convert_any_render upper base v nl :
  2 <= base <= 16 -> 0 <= v < 2 ^ 64 -> newline nl ->
  convert_any base (render upper base v ++ nl) = (0, Some v).
Proof.
  intros Hb Hv Hnl. unfold convert_any, radix. rewrite (proj2 (Z.eqb_neq base 0)) by lia.
  destruct (render_spec upper base v Hb Hv) as (_ & _ & Hd & _).
  unfold skip. rewrite (digits_no_prefix base), andb_false_r by done. by apply convert_render.
Qed.

Lemma render_bytes upper base v nl :
  2 <= base <= 16 -> 0 <= v < 2 ^ 64 -> newline nl ->
  bytes (render upper base v ++ nl) /\ (length (render upper base v ++ nl) <= 65)%nat /\
  exists c, head (render upper base v ++ nl) = Some c /\ 48 <= c.
Proof.
  intros Hb Hv Hnl. destruct (render_spec upper base v Hb Hv) as (Hne & Hl & Hd & _).
  split_and!.
  - apply Forall_app. split.
    + eapply Forall_impl; [exact Hd|]. cbv beta. lia.
    + destruct Hnl as [-> | ->]; repeat constructor; lia.
  - rewrite length_app. destruct Hnl as [-> | ->]; cbn [length]; lia.
  - destruct (render upper base v) as [|c ds]; [done|]. exists c. split; [done|].
    apply Forall_cons in Hd as [[_ Hc] _]. lia.
Qed.

Lemma unsign_other sign t c : head t = Some c -> c <> sign -> unsign sign t = t.
Proof. intros Hh Hc. unfold unsign. by rewrite decide_False by congruence. Qed.

(** The [from_user] variants read at most the buffer's size less the terminator and
    never leave the stack buffer; longer input is cut there. *)
Theorem kstrto_from_user_bounded g size stack user count base :
  0 <= size -> Z.of_nat (length stack) = 1 + size * 8 + 1 + 1 -> 0 <= count ->
  let n := Z.min count (size * 8 + 2) in
  kstrto_from_user g size stack user count base =
    if decide (n <= Z.of_nat (length user))
    then g (cstr (take (Z.to_nat n) user) (drop (Z.to_nat n + 1) stack)) base
    else Ok (- EFAULT, None).
Proof.
  intros Hs Hst Hc n. unfold kstrto_from_user.
  replace (Z.min count (1 + size * 8 + 1 + 1 - 1)) with n by lia.
  destruct (Z.ltb_spec (Z.of_nat (length user)) n); [by rewrite decide_False by lia|].
  rewrite decide_True by lia. unfold memcpy. rewrite memcpy_at_spec by lia. cbn [mbind res_bind take app].
  assert (0 <= n < Z.of_nat (length stack)) as Hn by lia. clearbody n.
  assert (exists p, p = take (Z.to_nat n) user /\ n = Z.of_nat (length p)) as (p & <- & ->)
    by (eexists; split; [done|]; rewrite length_take; lia).
  rewrite Nat2Z.id. change (Z.to_nat 0 + length p)%nat with (length p).
  change (take (Z.to_nat 0) stack) with (@nil Z); cbn [app]; rewrite awrite_end by lia. done.
Qed.

(** * Properties *)

(** C18: On every text of at most 2^31 - 1 characters and for radix 0 (detected) and
    1 to 16, the conversions answer exactly as specified: the digits the text starts
    with after an optional sign and prefix, followed by nothing but at most one newline,
    give their value when it fits the type; -ERANGE when it does not fit, -EINVAL when
    there are no digits or something else follows, and the destination is then
    untouched.  One numeral is an exception: a minus sign before a value of 0, "-0",
    fits every signed type, but every signed conversion answers -ERANGE (the comments
    in kstrtox.c do not say so).  No byte behind the terminator is read, and no
    intermediate wrap of the 64-bit accumulator goes unnoticed. *)
Theorem kstrto_exact base t r :
  base = 0 \/ 1 <= base <= 16 -> bytes t -> Z.of_nat (length t) < 2 ^ 31 ->
  kstrtoull (cstr t r) base = Ok (convert_any base (unsign 43 t)) /\
  kstrtoll (cstr t r) base = Ok (convert_signed base t) /\
  (forall w f, (w, f) ∈ unsigned_parsers ->
     f (cstr t r) base = Ok (within (is_u w) (convert_any base (unsign 43 t)))) /\
  (forall w f, (w, f) ∈ signed_parsers ->
     f (cstr t r) base = Ok (within (is_s w) (convert_signed base t))) /\
  (head t = Some 45 -> convert_any base (tail t) = (0, Some 0) ->
     kstrtoll (cstr t r) base = Ok (- ERANGE, None) /\
     forall w f, (w, f) ∈ signed_parsers -> f (cstr t r) base = Ok (- ERANGE, None)).
Proof.
  intros Hb Ht Hl. split_and!; [by apply kstrtoull_spec | by apply kstrtoll_spec | | |].
  - intros w f Hf. by apply unsigned_parsers_spec.
  - intros w f Hf. by apply signed_parsers_spec.
  - intros Hh Hz. assert (convert_signed base t = (- ERANGE, None)) as Es.
    { unfold convert_signed. by rewrite decide_True, Hz. }
    split; [by rewrite kstrtoll_spec, Es|]. intros w f Hf. by rewrite (signed_parsers_spec w f), Es.
Qed.

Lemma kstrto_exact_witness : kstrtoll (cstr [45; 48; 120; 49; 70; 10] []) 0 = Ok (0, Some (-31)).
Proof.
  refine (proj1 (proj2 (kstrto_exact 0 [45; 48; 120; 49; 70; 10] [] _ _ _))).
  - by left.
  - repeat constructor; lia.
  - cbn. lia.
Defined.

(** Parsing inverts printing: the digits of [v] in any radix from 2 to 16, upper
    or lower case, with an optional "+" (or a "-" for a negative value) in front and
    an optional newline behind, are read back as [v] by every conversion whose type
    holds [v] and answered with -ERANGE by the others.  The exception is a minus
    sign before zero: -ERANGE from every signed conversion. *)
Theorem kstrto_roundtrip upper base v nl r :
  2 <= base <= 16 -> 0 <= v < 2 ^ 64 -> newline nl ->
  let num := render upper base v ++ nl in
  (forall w f plus, (w, f) ∈ unsigned_parsers -> plus = [] \/ plus = [43] ->
     f (cstr (plus ++ num) r) base = Ok (if decide (v < 2 ^ w) then (0, Some v) else (- ERANGE, None))) /\
  (forall w f plus, (w, f) ∈ signed_parsers -> plus = [] \/ plus = [43] ->
     f (cstr (plus ++ num) r) base = Ok (if decide (v < 2 ^ (w - 1)) then (0, Some v) else (- ERANGE, None))) /\
  (forall w f, (w, f) ∈ signed_parsers ->
     f (cstr (45 :: num) r) base =
       Ok (if decide (0 < v <= 2 ^ (w - 1)) then (0, Some (- v)) else (- ERANGE, None))).
Proof.
  intros Hb Hv Hnl num. destruct (render_bytes upper base v nl Hb Hv Hnl) as (Hbytes & Hlen & c & Hh & Hc).
  fold num in Hbytes, Hlen, Hh. pose proof (convert_any_render upper base v nl Hb Hv Hnl) as Econv. fold num in Econv.
  assert (forall sign, sign < 48 -> unsign sign num = num) as Hun by (intros; apply (unsign_other _ _ c); done || lia).
  assert (forall plus, plus = [] \/ plus = [43] ->
    bytes (plus ++ num) /\ Z.of_nat (length (plus ++ num)) < 2 ^ 31 /\ unsign 43 (plus ++ num) = num /\
    head (plus ++ num) <> Some 45) as Hplus.
  { intros plus [-> | ->]; cbn [app length head]; split_and!;
      try (by apply Forall_cons); try lia; try done; [by apply Hun|]. rewrite Hh. intros [=]. lia. }
  assert (forall w f, (w, f) ∈ signed_parsers -> 0 < w <= 64) as Hw.
  { intros w f Hf. repeat (apply elem_of_cons in Hf as [[= -> _]|Hf]; [lia|]). by apply elem_of_nil in Hf. }
  assert (forall w f, (w, f) ∈ signed_parsers -> 0 < 2 ^ (w - 1) <= 2 ^ 63) as Hw2.
  { intros w f Hf. pose proof (Hw w f Hf). split; [apply pow2_pos; lia | apply Z.pow_le_mono_r; lia]. }
  split_and!.
  - intros w f plus Hf Hp. destruct (Hplus plus Hp) as (? & ? & Eu & _).
    rewrite (unsigned_parsers_spec w f) by (done || lia). rewrite Eu, Econv. cbn [within].
    f_equal. unfold is_u. repeat case_decide; done || lia.
  - intros w f plus Hf Hp. destruct (Hplus plus Hp) as (? & ? & Eu & Hnm).
    rewrite (signed_parsers_spec w f) by (done || lia). unfold convert_signed.
    rewrite decide_False by done. rewrite Eu, Econv. specialize (Hw2 w f Hf).
    f_equal. unfold within, is_s. repeat case_decide; done || lia.
  - intros w f Hf. rewrite (signed_parsers_spec w f); [|done|lia| |].
    + unfold convert_signed. rewrite decide_True by done. cbn [tail]. rewrite Econv. specialize (Hw2 w f Hf).
      f_equal. unfold within, is_s. repeat case_decide; done || lia.
    + apply Forall_cons. split; [lia|done].
    + cbn [length]. lia.
Qed.

Lemma kstrto_roundtrip_witness :
  kstrtou8 (cstr ([43] ++ render false 16 255 ++ [10]) []) 16 = Ok (0, Some 255).
Proof.
  refine (proj1 (kstrto_roundtrip false 16 255 [10] [] _ _ _) 8 kstrtou8 [43] _ _).
  - lia.
  - lia.
  - by right.
  - do 7 apply list_elem_of_further. apply list_elem_of_here.
  - by right.
Defined.
