(* ===== verification/KDecimal.v ===== *)
(** * lib/vsprintf.c: decimal digits

    [put_dec] and its helpers as they are compiled for 32-bit machines (divisions
    by 100 and 10000 are multiplications, digits are written two at a time, the
    lowest first), and [num_to_str].  A buffer is its list of bytes and an
    offset. *)

From S2P Require Import Prelude Kstrtox.
Open Scope Z_scope.

(** The table of pairs of digits, as 16-bit little-endian words. *)
Definition decpair : list Z := (fun x => Z.lor (x mod 10) (Z.shiftl (x / 10) 8) + 0x3030) <$> seqZ 0 100.

(** A store of the 16-bit [v] at [buf]. *)
Definition put16 (l : list Z) (buf v : Z) : res (list Z) :=
  l ← awrite l buf (Z.land v 0xff); awrite l (buf + 1) (Z.shiftr v 8).

(** The label [out_r] of [put_dec_trunc8]. *)
Definition out_r (l : list Z) (buf r : Z) : res (list Z * Z) :=
  d ← aread decpair r; l ← put16 l buf d; Ok (l, buf + (if r <? 10 then 1 else 2)).

Definition div100 (x : Z) : Z := u32 (Z.shiftr (u64 (x * 0x28f5c29)) 32).
Definition put_dec_trunc8 (l : list Z) (buf r : Z) : res (list Z * Z) :=
  if r <? 100 then out_r l buf r
  else
    let q := div100 r in
    d ← aread decpair (r -u 100 *u q)%cint; l ← put16 l buf d;
    let buf := buf + 2 in
    if q <? 100 then out_r l buf q
    else
      let r := div100 q in
      d ← aread decpair (q -u 100 *u r)%cint; l ← put16 l buf d;
      let buf := buf + 2 in
      if r <? 100 then out_r l buf r
      else
        let q := Z.shiftr (r *u 0x147b)%cint 19 in
        d ← aread decpair (r -u 100 *u q)%cint; l ← put16 l buf d;
        out_r l (buf + 2) q.

Definition put_dec_full4 (l : list Z) (buf r : Z) : res (list Z) :=
  let q := Z.shiftr (r *u 0x147b)%cint 19 in
  d ← aread decpair (r -u 100 *u q)%cint; l ← put16 l buf d;
  d ← aread decpair q; put16 l (buf + 2) d.
Definition put_dec_helper4 (l : list Z) (buf x : Z) : res (list Z * Z) :=
  let q := u32 (Z.shiftr (u64 (x * 0x346DC5D7)) 43) in
  l ← put_dec_full4 l buf (x -u q *u 10000)%cint; Ok (l, q).

(** [while (buf[-1] == '0') --buf] *)
Fixpoint strip_zeros (fuel : nat) (l : list Z) (buf : Z) : res Z :=
  match fuel with
  | O => Fault NoFuel
  | S fuel' => c ← aread l (buf - 1); if c =? 48 then strip_zeros fuel' l (buf - 1) else Ok buf
  end.

Definition put_dec (l : list Z) (buf n : Z) : res (list Z * Z) :=
  if n <? 100 * 1000 * 1000 then put_dec_trunc8 l buf (u32 n)
  else
    let d1 := Z.shiftr (u32 n) 16 in
    let h := u32 (Z.shiftr n 32) in
    let d2 := Z.land h 0xffff in
    let d3 := Z.shiftr h 16 in
    let q := (656 *u d3 +u 7296 *u d2 +u 5536 *u d1 +u Z.land (u32 n) 0xffff)%cint in
    '(l, q) ← put_dec_helper4 l buf q;
    let q := (q +u (7671 *u d3 +u 9496 *u d2 +u 6 *u d1))%cint in
    '(l, q) ← put_dec_helper4 l (buf + 4) q;
    let q := (q +u (4749 *u d3 +u 42 *u d2))%cint in
    '(l, q) ← put_dec_helper4 l (buf + 8) q;
    let q := (q +u 281 *u d3)%cint in
    let buf := buf + 12 in
    if negb (q =? 0) then put_dec_trunc8 l buf q
    else buf ← strip_zeros (length l) l buf; Ok (l, buf).

(** [for (idx = 0; idx < len; ++idx) buf[idx] = tmp[len - idx - 1]] *)
Fixpoint copy_reversed (n : nat) (idx len : Z) (tmp buf : list Z) : res (list Z) :=
  match n with
  | O => Ok buf
  | S n' => c ← aread tmp (len - idx - 1); buf ← awrite buf idx c; copy_reversed n' (idx + 1) len tmp buf
  end.
Definition num_to_str (buf : list Z) (size num : Z) : res (Z * list Z) :=
  let tmp := replicate 24 0 in
  '(tmp, len) ← (if num <=? 9 then tmp ← awrite tmp 0 (48 + num); Ok (tmp, 1) else put_dec tmp 0 num);
  if size <? len then Ok (0, buf)
  else buf ← copy_reversed (Z.to_nat len) 0 len tmp buf; Ok (len, buf).

(** ** Digits, the lowest first *)

Definition rdigits (upper : bool) (base v : Z) : list Z := rev (render upper base v).

Lemma render_loop_acc n upper base v acc : render_loop n upper base v acc = render_loop n upper base v [] ++ acc.
Proof.
  revert v acc. induction n as [|n IH]; intros v acc; [done|]. cbn [render_loop].
  destruct (v / base =? 0); [done|]. rewrite IH, (IH _ [_]), <- app_assoc. done.
Qed.
Lemma render_loop_fuel n m upper base v acc : 2 <= base -> 0 <= v < base ^ Z.of_nat n -> (0 < n <= m)%nat ->
  render_loop n upper base v acc = render_loop m upper base v acc.
Proof.
  intros Hb. revert m v acc. induction n as [|n IH]; intros m v acc Hv Hnm; [lia|].
  destruct m as [|m]; [lia|]. cbn [render_loop]. destruct (Z.eqb_spec (v / base) 0) as [|Hne]; [done|].
  assert (0 <= v / base) by (apply Z.div_pos; lia). rewrite Nat2Z.inj_succ, Z.pow_succ_r in Hv by lia.
  assert (v / base < base ^ Z.of_nat n) by (apply Z.div_lt_upper_bound; lia).
  destruct n; [cbn in *; lia|]. apply IH; lia.
Qed.

Lemma render_loop_S n upper base v acc : render_loop (S n) upper base v acc =
  let acc := digit_char upper (v mod base) :: acc in
  if v / base =? 0 then acc else render_loop n upper base (v / base) acc.
Proof. done. Qed.

Lemma rdigits_small upper base v : 2 <= base -> 0 <= v < base -> rdigits upper base v = [digit_char upper v].
Proof.
  intros Hb Hv. unfold rdigits, render. change 64%nat with (S 63). rewrite render_loop_S. by rewrite Z.div_small, Z.mod_small by done.
Qed.
Lemma rdigits_step upper base v : 2 <= base -> base <= v < 2 ^ 64 ->
  rdigits upper base v = digit_char upper (v mod base) :: rdigits upper base (v / base).
Proof.
  intros Hb Hv. assert (1 <= v / base) by (apply Z.div_le_lower_bound; lia).
  assert (v / base < 2 ^ 63) by (apply Z.div_lt_upper_bound; lia).
  assert (2 ^ 63 <= base ^ 63) by (apply Z.pow_le_mono_l; lia).
  unfold rdigits, render. change 64%nat with (S 63) at 1. rewrite render_loop_S, (proj2 (Z.eqb_neq _ 0)) by lia.
  rewrite render_loop_acc, rev_unit. by rewrite (render_loop_fuel 63 64) by (change (Z.of_nat 63) with 63; lia).
Qed.

(** The lowest [k] decimal digits. *)
Fixpoint lsd (k : nat) (v : Z) : list Z :=
  match k with O => [] | S k' => 48 + v mod 10 :: lsd k' (v / 10) end.
Abbreviation dec := (rdigits false 10).

Lemma lsd_length k v : length (lsd k v) = k.
Proof. revert v. induction k as [|k IH]; intros v; cbn; [done|by rewrite IH]. Qed.
Lemma lsd_app j k v : lsd (j + k) v = lsd j v ++ lsd k (v / 10 ^ Z.of_nat j).
Proof.
  revert v. induction j as [|j IH]; intros v; cbn [lsd Nat.add app].
  - change (10 ^ Z.of_nat 0) with 1. by rewrite Z.div_1_r.
  - rewrite IH, Z.div_div by lia. rewrite Nat2Z.inj_succ, Z.pow_succ_r by lia. done.
Qed.
Lemma lsd_mod k v : lsd k (v mod 10 ^ Z.of_nat k) = lsd k v.
Proof.
  revert v. induction k as [|k IH]; intros v; [done|]. cbn [lsd]. rewrite Nat2Z.inj_succ, Z.pow_succ_r by lia.
  pose proof (pow2_pos (Z.of_nat k) ltac:(lia)). rewrite Z.rem_mul_r by lia.
  rewrite (Z.mul_comm 10), Z.mod_add, Z.mod_mod by lia. f_equal.
  rewrite Z.div_add, (Z.div_small (v mod 10)), Z.add_0_l by (lia || (pose proof (Z.mod_pos_bound v 10); lia)).
  apply IH.
Qed.
Lemma digit_char_dec d : 0 <= d < 10 -> digit_char false d = 48 + d.
Proof. intros Hd. unfold digit_char. rewrite (proj2 (Z.ltb_lt d 10)) by lia. lia. Qed.

Lemma dec_lsd k v : 10 ^ Z.of_nat k <= v < 2 ^ 64 -> dec v = lsd k v ++ dec (v / 10 ^ Z.of_nat k).
Proof.
  revert v. induction k as [|k IH]; intros v Hv; cbn [lsd app].
  - change (10 ^ Z.of_nat 0) with 1. by rewrite Z.div_1_r.
  - rewrite Nat2Z.inj_succ, Z.pow_succ_r in * by lia. pose proof (Z.pow_pos_nonneg 10 (Z.of_nat k) ltac:(lia) ltac:(lia)).
    assert (10 ^ Z.of_nat k <= v / 10) by (apply Z.div_le_lower_bound; lia).
    assert (v / 10 < 2 ^ 64) by (apply Z.div_lt_upper_bound; lia).
    rewrite rdigits_step, IH by lia. rewrite Z.div_div by lia.
    rewrite digit_char_dec by (apply Z.mod_pos_bound; lia). done.
Qed.

(** ** Stores *)

Lemma decpair_read r : 0 <= r < 100 -> exists d, aread decpair r = Ok d /\
  Z.land d 0xff = 48 + r mod 10 /\ Z.shiftr d 8 = 48 + r / 10.
Proof.
  intros Hr. assert (forallb (fun r => match aread decpair r with
    | Ok d => (Z.land d 0xff =? 48 + r mod 10) && (Z.shiftr d 8 =? 48 + r / 10) | Fault _ => false end) (seqZ 0 100) = true) as H
    by (vm_compute; reflexivity).
  rewrite forallb_forall in H. specialize (H r).
  rewrite <- list_elem_of_In, elem_of_seqZ in H. specialize (H ltac:(lia)).
  destruct (aread decpair r) as [d|]; [|done]. exists d. apply andb_true_iff in H as [H1 H2].
  split; [done|]. lia.
Qed.

(** [t] written at [buf]; what comes after may have been overwritten. *)
Definition puts (l : list Z) (buf : Z) (t : list Z) (l' : list Z) : Prop :=
  length l' = length l /\ take (Z.to_nat buf + length t) l' = take (Z.to_nat buf) l ++ t.

Lemma puts_app l buf t l' u l'' : puts l buf t l' -> puts l' (buf + Z.of_nat (length t)) u l'' -> 0 <= buf ->
  puts l buf (t ++ u) l''.
Proof.
  intros [L1 T1] [L2 T2] Hb. split; [lia|]. rewrite Z2Nat.inj_add, Nat2Z.id in T2 by lia.
  by rewrite length_app, Nat.add_assoc, T2, T1, app_assoc.
Qed.
Lemma puts_prefix l buf t u l' : 0 <= buf <= Z.of_nat (length l) -> puts l buf (t ++ u) l' -> puts l buf t l'.
Proof.
  intros Hb [L T]. split; [done|]. rewrite length_app in T.
  apply (f_equal (take (Z.to_nat buf + length t))) in T. rewrite take_take in T.
  replace (Nat.min _ _) with (Z.to_nat buf + length t)%nat in T by lia. rewrite T.
  rewrite take_app_ge by (rewrite length_take; lia). rewrite length_take. f_equal.
  replace (_ - _)%nat with (length t) by lia. by rewrite take_app_length.
Qed.

Lemma store_spec l buf x : 0 <= buf < Z.of_nat (length l) ->
  exists l', awrite l buf x = Ok l' /\ puts l buf [x] l'.
Proof.
  intros Hb. rewrite awrite_in by done. eexists. split; [done|]. split; [apply length_insert|].
  cbn [length]. rewrite Nat.add_1_r. erewrite take_S_r by (apply list_lookup_insert_eq; lia).
  by rewrite take_insert_ge by lia.
Qed.
Lemma put16_spec l buf v : 0 <= buf -> buf + 2 <= Z.of_nat (length l) ->
  exists l', put16 l buf v = Ok l' /\ puts l buf [Z.land v 0xff; Z.shiftr v 8] l'.
Proof.
  intros Hb Hl. unfold put16. destruct (store_spec l buf (Z.land v 0xff)) as (l1 & -> & H1); [lia|]. cbn [mbind res_bind].
  destruct (store_spec l1 (buf + 1) (Z.shiftr v 8)) as (l2 & -> & H2); [destruct H1; lia|].
  exists l2. split; [done|]. by apply (puts_app l buf [_] l1 [_] l2 H1 H2).
Qed.

Lemma out_r_spec l buf r : 0 <= r < 100 -> 0 <= buf -> buf + 2 <= Z.of_nat (length l) ->
  exists l', out_r l buf r = Ok (l', buf + Z.of_nat (length (dec r))) /\ puts l buf (dec r) l'.
Proof.
  intros Hr Hb Hl. unfold out_r. destruct (decpair_read r Hr) as (d & -> & Hlo & Hhi). cbn [mbind res_bind].
  destruct (put16_spec l buf d Hb Hl) as (l' & -> & Hp). rewrite Hlo, Hhi in Hp. cbn [mbind res_bind].
  exists l'. destruct (Z.ltb_spec r 10).
  - rewrite rdigits_small, digit_char_dec by lia. split; [done|].
    rewrite Z.mod_small in Hp by lia. by apply (puts_prefix l buf _ [48 + r / 10]); [lia|].
  - assert (0 <= r / 10 < 10) by (split; [apply Z.div_pos; lia|apply Z.div_lt_upper_bound; lia]).
    rewrite rdigits_step, rdigits_small, !digit_char_dec by (lia || apply Z.mod_pos_bound; lia). done.
Qed.

(** ** The multiplications that divide *)

Lemma div_magic x c s d : 0 < d -> 0 <= s -> 0 <= x ->
  0 <= (d * c - 2 ^ s) * (x / d) + c * (x mod d) < 2 ^ s -> x * c / 2 ^ s = x / d.
Proof.
  intros Hd Hs Hx Hb. pose proof (Z.div_mod x d ltac:(lia)) as E. symmetry.
  apply (Zdiv_unique _ _ _ ((d * c - 2 ^ s) * (x / d) + c * (x mod d))); [done|]. rewrite E at 1. lia.
Qed.

Lemma div_range x d k : 0 < d -> 0 <= x < d * k -> 0 <= x / d < k.
Proof. intros Hd Hx. split; [apply Z.div_pos; lia|apply Z.div_lt_upper_bound; lia]. Qed.

Lemma div100_spec x : 0 <= x < 10 ^ 8 -> div100 x = x / 100.
Proof.
  intros Hx. pose proof (div_range x 100 (10 ^ 6) ltac:(lia) ltac:(lia)). pose proof (Z.mod_pos_bound x 100 ltac:(lia)).
  unfold div100. rewrite (wrapu_small 64) by (unfold is_u; lia). rewrite Z.shiftr_div_pow2 by lia.
  rewrite (div_magic x 0x28f5c29 32 100) by lia. apply u32_small. lia.
Qed.
Lemma div100_short x : 0 <= x < 10 ^ 4 -> Z.shiftr (x *u 0x147b)%cint 19 = x / 100.
Proof.
  intros Hx. pose proof (div_range x 100 100 ltac:(lia) ltac:(lia)). pose proof (Z.mod_pos_bound x 100 ltac:(lia)).
  rewrite u32_small, Z.shiftr_div_pow2 by lia. apply (div_magic x 0x147b 19 100); lia.
Qed.
Lemma div10000_spec x : 0 <= x <= 1125520955 -> u32 (Z.shiftr (u64 (x * 0x346DC5D7)) 43) = x / 10000.
Proof.
  intros Hx. pose proof (div_range x 10000 112553 ltac:(lia) ltac:(lia)). pose proof (Z.mod_pos_bound x 10000 ltac:(lia)).
  rewrite (wrapu_small 64) by (unfold is_u; lia). rewrite Z.shiftr_div_pow2 by lia.
  rewrite (div_magic x 0x346DC5D7 43 10000) by lia. apply u32_small. lia.
Qed.

(** Two digits of [x] at once. *)
Lemma pair_spec l buf x : 0 <= x < 2 ^ 32 -> 0 <= buf -> buf + 2 <= Z.of_nat (length l) ->
  exists l', (d ← aread decpair (x -u 100 *u (x / 100))%cint; put16 l buf d) = Ok l' /\ puts l buf (lsd 2 x) l'.
Proof.
  intros Hx Hb Hl. pose proof (Z.div_mod x 100 ltac:(lia)). pose proof (Z.mod_pos_bound x 100 ltac:(lia)).
  assert (0 <= x / 100) by (apply Z.div_pos; lia). rewrite (u32_small (100 * (x / 100))) by lia.
  rewrite u32_small by lia. replace (x - 100 * (x / 100)) with (x mod 100) by lia.
  destruct (decpair_read (x mod 100)) as (d & -> & Hlo & Hhi); [lia|]. cbn [mbind res_bind].
  destruct (put16_spec l buf d Hb Hl) as (l' & -> & Hp). exists l'. split; [done|]. rewrite Hlo, Hhi in Hp.
  cbn [lsd]. replace (x mod 10) with (x mod 100 mod 10); [replace (x / 10 mod 10) with (x mod 100 / 10)|]; [done| |].
  - change 100 with (10 * 10). rewrite Z.rem_mul_r by lia.
    rewrite Z.add_comm, Z.mul_comm, Z.div_add_l, (Z.div_small (x mod 10)) by (lia || apply Z.mod_pos_bound; lia). lia.
  - change 100 with (10 * 10). rewrite Z.rem_mul_r, Z.add_comm, Z.mul_comm, Z.add_comm by lia.
    by rewrite Z.mod_add, Z.mod_mod by lia.
Qed.
Lemma pair_run {A} l buf x q (K : list Z -> res A) :
  q = x / 100 -> 0 <= x < 2 ^ 32 -> 0 <= buf -> buf + 2 <= Z.of_nat (length l) ->
  exists l', (d ← aread decpair (x -u 100 *u q)%cint; l ← put16 l buf d; K l) = K l' /\ puts l buf (lsd 2 x) l'.
Proof.
  intros -> Hx Hb Hl. destruct (pair_spec l buf x Hx Hb Hl) as (l' & E & Hp). exists l'. split; [|done].
  destruct (aread decpair _) as [d|]; [|done]. cbn [mbind res_bind] in *. by rewrite E.
Qed.

Lemma dec_two v : 100 <= v < 2 ^ 64 -> dec v = lsd 2 v ++ dec (v / 100).
Proof. intros Hv. by apply (dec_lsd 2). Qed.

(** Two digits, then those of the quotient. *)
Lemma pair_step l buf v q (K : list Z -> res (list Z * Z)) :
  q = v / 100 -> 100 <= v < 2 ^ 32 -> 0 <= buf -> buf + 2 <= Z.of_nat (length l) ->
  (forall l1, length l1 = length l ->
     exists l', K l1 = Ok (l', buf + 2 + Z.of_nat (length (dec q))) /\ puts l1 (buf + 2) (dec q) l') ->
  exists l', (d ← aread decpair (v -u 100 *u q)%cint; l ← put16 l buf d; K l) =
    Ok (l', buf + Z.of_nat (length (dec v))) /\ puts l buf (dec v) l'.
Proof.
  intros Eq Hv Hb Hl HK. destruct (pair_run l buf v q K Eq) as (l1 & -> & H1); [lia..|].
  destruct (HK l1) as (l' & -> & H2); [apply H1|]. exists l'. rewrite (dec_two v), <- Eq by lia.
  rewrite length_app, lsd_length, Nat2Z.inj_add, Z.add_assoc. split; [done|]. by apply (puts_app l buf (lsd 2 v) l1).
Qed.

Lemma put_dec_trunc8_spec l buf r : 0 <= r < 10 ^ 8 -> 0 <= buf -> buf + 8 <= Z.of_nat (length l) ->
  exists l', put_dec_trunc8 l buf r = Ok (l', buf + Z.of_nat (length (dec r))) /\ puts l buf (dec r) l'.
Proof.
  intros Hr Hb Hl. unfold put_dec_trunc8. destruct (Z.ltb_spec r 100); [by apply out_r_spec; lia|].
  rewrite div100_spec by lia. pose proof (div_range r 100 (10 ^ 6) ltac:(lia) ltac:(lia)).
  apply pair_step; [done|lia..|]. intros l1 L1. set (q := r / 100) in *.
  destruct (Z.ltb_spec q 100); [apply out_r_spec; lia|].
  rewrite div100_spec by lia. pose proof (div_range q 100 (10 ^ 4) ltac:(lia) ltac:(lia)).
  apply pair_step; [done|lia..|]. intros l2 L2. set (r2 := q / 100) in *.
  destruct (Z.ltb_spec r2 100); [apply out_r_spec; lia|].
  rewrite div100_short by lia. pose proof (div_range r2 100 100 ltac:(lia) ltac:(lia)).
  apply pair_step; [done|lia..|]. intros l3 L3. apply out_r_spec; lia.
Qed.

Lemma put_dec_full4_spec l buf r : 0 <= r < 10 ^ 4 -> 0 <= buf -> buf + 4 <= Z.of_nat (length l) ->
  exists l', put_dec_full4 l buf r = Ok l' /\ puts l buf (lsd 4 r) l'.
Proof.
  intros Hr Hb Hl. unfold put_dec_full4. rewrite div100_short by lia. cbv zeta.
  pose proof (div_range r 100 100 ltac:(lia) ltac:(lia)).
  destruct (pair_run l buf r (r / 100) (fun l => d ← aread decpair (r / 100); put16 l (buf + 2) d))
    as (l1 & -> & H1); [done|lia..|]. pose proof H1 as [L1 _].
  destruct (decpair_read (r / 100)) as (d & -> & Hlo & Hhi); [lia|]. cbn [mbind res_bind].
  destruct (put16_spec l1 (buf + 2) d) as (l2 & -> & H2); [lia..|]. exists l2. split; [done|].
  rewrite Hlo, Hhi in H2. change 4%nat with (2 + 2)%nat. rewrite lsd_app.
  apply (puts_app l buf (lsd 2 r) l1); [done| |done]. change (10 ^ Z.of_nat 2) with 100. cbn [lsd].
  rewrite (Z.mod_small (r / 100 / 10)); [done|]. apply div_range; lia.
Qed.

Lemma put_dec_helper4_spec l buf x : 0 <= x <= 1125520955 -> 0 <= buf -> buf + 4 <= Z.of_nat (length l) ->
  exists l', put_dec_helper4 l buf x = Ok (l', x / 10000) /\ puts l buf (lsd 4 x) l'.
Proof.
  intros Hx Hb Hl. unfold put_dec_helper4. rewrite div10000_spec by done. cbv zeta.
  pose proof (Z.div_mod x 10000 ltac:(lia)). pose proof (Z.mod_pos_bound x 10000 ltac:(lia)).
  assert (0 <= x / 10000) by (apply Z.div_pos; lia).
  rewrite (u32_small (x / 10000 * 10000)), u32_small by lia.
  replace (x - x / 10000 * 10000) with (x mod 10 ^ Z.of_nat 4) by (change (10 ^ Z.of_nat 4) with 10000; lia).
  destruct (put_dec_full4_spec l buf (x mod 10 ^ Z.of_nat 4)) as (l' & -> & Hp);
    [change (10 ^ Z.of_nat 4) with 10000; lia|done|done|].
  exists l'. by rewrite lsd_mod in Hp.
Qed.

(** ** Leading zeros of the fixed-width digits *)

Lemma lsd_add k y a : lsd k (10 ^ Z.of_nat k * y + a) = lsd k a.
Proof.
  rewrite <- lsd_mod, Z.add_comm, Z.mul_comm, Z.mod_add, lsd_mod; [done|].
  pose proof (Z.pow_pos_nonneg 10 (Z.of_nat k)). lia.
Qed.

(** The fixed-width digits are the number's digits, the highest of which is not
    zero, and zeros. *)
Lemma lsd_dec k v : 0 < v < 10 ^ Z.of_nat k -> v < 2 ^ 64 ->
  exists ds c z, dec v = ds ++ [c] /\ c <> 48 /\ lsd k v = dec v ++ replicate z 48.
Proof.
  induction k as [|k IH]; intros Hv H64; [change (10 ^ Z.of_nat 0) with 1 in Hv; lia|].
  pose proof (Z.pow_pos_nonneg 10 (Z.of_nat k) ltac:(lia) ltac:(lia)).
  rewrite <- Nat.add_1_r, lsd_app. cbn [lsd]. rewrite Nat2Z.inj_succ, Z.pow_succ_r in Hv by lia.
  pose proof (div_range v (10 ^ Z.of_nat k) 10 ltac:(lia) ltac:(lia)) as Hd. rewrite (Z.mod_small (v / _)) by done.
  destruct (decide (v < 10 ^ Z.of_nat k)) as [Hlt|Hge].
  - destruct (IH ltac:(lia) H64) as (ds & c & z & E & Hc & Hz). exists ds, c, (S z). split_and!; [done|done|].
    by rewrite Z.div_small, Hz, <- app_assoc, replicate_S_end by lia.
  - assert (1 <= v / 10 ^ Z.of_nat k) by (apply Z.div_le_lower_bound; lia).
    exists (lsd k v), (48 + v / 10 ^ Z.of_nat k), 0%nat.
    rewrite (dec_lsd k) by lia. rewrite rdigits_small, digit_char_dec by lia. split_and!; [done|lia|by rewrite app_nil_r].
Qed.

Lemma strip_zeros_spec fuel l pre ds c z rest : l = pre ++ (ds ++ [c]) ++ replicate z 48 ++ rest -> c <> 48 ->
  (z < fuel)%nat ->
  strip_zeros fuel l (Z.of_nat (length pre + length (ds ++ [c]) + z)) = Ok (Z.of_nat (length pre + length (ds ++ [c]))).
Proof.
  intros El Hc. revert fuel rest El. induction z as [|z IH]; intros fuel rest El Hf; (destruct fuel as [|fuel]; [lia|]); cbn [strip_zeros].
  - rewrite (aread_lookup l _ c).
    + cbn [mbind res_bind]. rewrite (proj2 (Z.eqb_neq c 48)) by done. f_equal. lia.
    + rewrite length_app. cbn. lia.
    + replace (Z.to_nat _) with (length pre + length ds)%nat by (rewrite length_app; cbn; lia).
      rewrite El, lookup_app_r, Nat.add_comm, Nat.add_sub by lia. rewrite <- app_assoc, lookup_app_r, Nat.sub_diag by lia. done.
  - rewrite (aread_lookup l _ 48).
    + cbn [mbind res_bind Z.eqb Pos.eqb]. rewrite <- (IH fuel (48 :: rest)); [f_equal; lia| |lia].
      by rewrite El, replicate_S_end, <- !app_assoc.
    + lia.
    + replace (Z.to_nat _) with (length pre + (length (ds ++ [c]) + z))%nat by lia.
      rewrite El. rewrite lookup_app_r, Nat.add_comm, Nat.add_sub by lia.
      rewrite lookup_app_r, Nat.add_comm, Nat.add_sub by lia.
      rewrite lookup_app_l by (rewrite length_replicate; lia). apply lookup_replicate_2. lia.
Qed.

(** ** [put_dec] *)

(** The four 16-bit parts of a number above [10 ^ 8]. *)
Lemma halves n : 0 <= n < 2 ^ 64 ->
  let d0 := Z.land (u32 n) 0xffff in let d1 := Z.shiftr (u32 n) 16 in
  let h := u32 (Z.shiftr n 32) in let d2 := Z.land h 0xffff in let d3 := Z.shiftr h 16 in
  n = 2 ^ 48 * d3 + 2 ^ 32 * d2 + 2 ^ 16 * d1 + d0 /\
  0 <= d0 < 65536 /\ 0 <= d1 < 65536 /\ 0 <= d2 < 65536 /\ 0 <= d3 < 65536.
Proof.
  intros Hn. cbv zeta. pose proof (u32_range n) as Hl. rewrite (Z.shiftr_div_pow2 n) by lia.
  pose proof (div_range n (2 ^ 32) (2 ^ 32) ltac:(lia) ltac:(lia)) as Hh. rewrite (u32_small (n / 2 ^ 32)) by lia.
  change 0xffff with (Z.ones 16). rewrite !Z.land_ones, !Z.shiftr_div_pow2 by lia.
  pose proof (Z.div_mod n (2 ^ 32) ltac:(lia)) as En. change (n mod 2 ^ 32) with (u32 n) in En.
  pose proof (Z.div_mod (u32 n) (2 ^ 16) ltac:(lia)). pose proof (Z.mod_pos_bound (u32 n) (2 ^ 16) ltac:(lia)).
  pose proof (Z.div_mod (n / 2 ^ 32) (2 ^ 16) ltac:(lia)). pose proof (Z.mod_pos_bound (n / 2 ^ 32) (2 ^ 16) ltac:(lia)).
  pose proof (div_range (u32 n) (2 ^ 16) (2 ^ 16) ltac:(lia) ltac:(lia)).
  pose proof (div_range (n / 2 ^ 32) (2 ^ 16) (2 ^ 16) ltac:(lia) ltac:(lia)).
  split; [|lia]. lia.
Qed.

(** Four digits, and the rest of the number. *)
Lemma four_digits l buf n y x : n = 10000 * y + x -> 0 <= x <= 1125520955 -> 0 <= buf -> buf + 4 <= Z.of_nat (length l) ->
  exists l' q, put_dec_helper4 l buf x = Ok (l', q) /\ puts l buf (lsd 4 n) l' /\
    n / 10000 = y + q /\ 0 <= 10000 * q <= x.
Proof.
  intros -> Hx Hb Hl. destruct (put_dec_helper4_spec l buf x Hx Hb Hl) as (l' & E & Hp). exists l', (x / 10000). split; [done|].
  rewrite <- (lsd_add 4 y) in Hp. split; [done|]. pose proof (Z.div_mod x 10000 ltac:(lia)). pose proof (Z.mod_pos_bound x 10000 ltac:(lia)).
  split; [|pose proof (Z.div_pos x 10000); lia]. by rewrite Z.mul_comm, Z.div_add_l by lia.
Qed.

(** The digits above the twelfth, or the zeros stripped off. *)
Lemma put_dec_tail l l3 buf n : 10 ^ 8 <= n < 2 ^ 64 -> 0 <= buf -> buf + 20 <= Z.of_nat (length l) ->
  puts l buf (lsd 12 n) l3 ->
  exists l', (let q := n / 10 ^ 12 in
    if negb (q =? 0) then put_dec_trunc8 l3 (buf + 12) q
    else b ← strip_zeros (length l3) l3 (buf + 12); Ok (l3, b)) = Ok (l', buf + Z.of_nat (length (dec n))) /\
    puts l buf (dec n) l'.
Proof.
  intros Hn Hb Hl Hp. pose proof Hp as [L3 T3]. rewrite lsd_length in T3. cbv zeta.
  pose proof (div_range n (10 ^ 12) (10 ^ 8) ltac:(lia) ltac:(lia)).
  destruct (Z.eqb_spec (n / 10 ^ 12) 0) as [Hz|Hz]; cbn [negb].
  - assert (n < 10 ^ 12) by (apply Z.div_small_iff in Hz; lia).
    destruct (lsd_dec 12 n) as (ds & c & z & E & Hc & Ez); [change (10 ^ Z.of_nat 12) with (10 ^ 12); lia|lia|].
    pose proof (f_equal length Ez) as Lz. rewrite lsd_length, length_app, length_replicate in Lz.
    pose proof (take_drop (Z.to_nat buf + 12) l3) as El. rewrite T3, Ez, E in El. rewrite <- !app_assoc in El.
    rewrite (app_assoc ds) in El. symmetry in El.
    pose proof (strip_zeros_spec (length l3) l3 _ ds c z _ El Hc ltac:(lia)) as Es.
    rewrite length_take, Nat.min_l in Es by lia. rewrite <- E in Es.
    replace (Z.of_nat (Z.to_nat buf + length (dec n) + z)) with (buf + 12) in Es by lia. rewrite Es.
    exists l3. split; [cbn [mbind res_bind]; do 2 f_equal; lia|]. rewrite Ez in Hp.
    by apply (puts_prefix l buf _ (replicate z 48)); [lia|].
  - destruct (put_dec_trunc8_spec l3 (buf + 12) (n / 10 ^ 12)) as (l' & -> & H4); [lia..|]. exists l'.
    assert (10 ^ 12 <= n) by (pose proof (Z.div_small n (10 ^ 12)); lia).
    rewrite (dec_lsd 12 n) by (change (10 ^ Z.of_nat 12) with (10 ^ 12); lia).
    change (10 ^ Z.of_nat 12) with (10 ^ 12).
    rewrite length_app, lsd_length, Nat2Z.inj_add, Z.add_assoc. split; [done|].
    apply (puts_app l buf _ l3); [done| |done]. by rewrite lsd_length.
Qed.

Lemma put_dec_spec l buf n : 0 <= n < 2 ^ 64 -> 0 <= buf -> buf + 20 <= Z.of_nat (length l) ->
  exists l', put_dec l buf n = Ok (l', buf + Z.of_nat (length (dec n))) /\ puts l buf (dec n) l'.
Proof.
  intros Hn Hb Hl. unfold put_dec. change (100 * 1000 * 1000) with (10 ^ 8).
  destruct (Z.ltb_spec n (10 ^ 8)); [rewrite u32_small by lia; by apply put_dec_trunc8_spec; lia|].
  destruct (halves n Hn) as (En & H0 & H1 & H2 & H3).
  set (d0 := Z.land (u32 n) _) in *. set (d1 := Z.shiftr (u32 n) 16) in *. cbv zeta.
  set (d2 := Z.land (u32 (Z.shiftr n 32)) _) in *. set (d3 := Z.shiftr (u32 (Z.shiftr n 32)) 16) in *.
  rewrite !(u32_small (656 * d3)), !(u32_small (7296 * d2)), !(u32_small (5536 * d1)), !(u32_small (7671 * d3)),
    !(u32_small (9496 * d2)), !(u32_small (6 * d1)), !(u32_small (4749 * d3)), !(u32_small (42 * d2)),
    !(u32_small (281 * d3)) by lia.
  rewrite (u32_small (656 * d3 + 7296 * d2)), (u32_small (656 * d3 + 7296 * d2 + 5536 * d1)), (u32_small (_ + d0)),
    (u32_small (7671 * d3 + 9496 * d2)), (u32_small (7671 * d3 + 9496 * d2 + 6 * d1)), (u32_small (4749 * d3 + 42 * d2)) by lia.
  set (Y1 := 10 ^ 8 * (281 * d3) + 10 ^ 4 * (4749 * d3 + 42 * d2) + (7671 * d3 + 9496 * d2 + 6 * d1)).
  destruct (four_digits l buf n Y1 (656 * d3 + 7296 * d2 + 5536 * d1 + d0)) as (l1 & q1 & -> & P1 & E1 & R1); [unfold Y1; lia|lia..|].
  cbn [mbind res_bind]. pose proof P1 as [L1 _].
  rewrite u32_small by lia.
  destruct (four_digits l1 (buf + 4) (n / 10000) (10 ^ 4 * (281 * d3) + (4749 * d3 + 42 * d2))
    (q1 + (7671 * d3 + 9496 * d2 + 6 * d1))) as (l2 & q2 & -> & P2 & E2 & R2); [unfold Y1 in E1; lia|lia..|].
  cbn [mbind res_bind]. pose proof P2 as [L2 _].
  rewrite u32_small by lia.
  destruct (four_digits l2 (buf + 8) (n / 10000 / 10000) (281 * d3) (q2 + (4749 * d3 + 42 * d2)))
    as (l3 & q3 & -> & P3 & E3 & R3); [lia|lia..|].
  cbn [mbind res_bind]. rewrite u32_small by lia.
  assert (q3 + 281 * d3 = n / 10 ^ 12) as ->.
  { change (10 ^ 12) with (10000 * (10000 * 10000)). rewrite <- !Z.div_div by lia. lia. }
  apply (put_dec_tail l l3); [lia|done|done|].
  change 12%nat with (4 + (4 + 4))%nat. rewrite !lsd_app.
  apply (puts_app l buf (lsd 4 n) l1); [done| |done]. apply (puts_app l1 (buf + 4) (lsd 4 (n / 10000)) l2); [done| |lia].
  replace (buf + 4 + Z.of_nat (length (lsd 4 (n / 10000)))) with (buf + 8) by (rewrite lsd_length; lia). exact P3.
Qed.

(** ** [num_to_str] *)

Lemma copy_reversed_spec n idx len tmp buf t :
  take (Z.to_nat len) tmp = t -> length t = Z.to_nat len -> 0 <= idx -> idx + Z.of_nat n = len ->
  len <= Z.of_nat (length buf) ->
  take (Z.to_nat idx) buf = take (Z.to_nat idx) (rev t) ->
  exists buf', copy_reversed n idx len tmp buf = Ok buf' /\ buf' = rev t ++ drop (Z.to_nat len) buf.
Proof.
  intros Ht Hlt. revert idx buf. induction n as [|n IH]; intros idx buf Hi Hn Hb Hpre.
  - exists buf. split; [done|]. replace idx with len in Hpre by lia.
    rewrite (take_ge (rev t)) in Hpre by (rewrite length_rev; lia). by rewrite <- Hpre, take_drop.
  - cbn [copy_reversed]. destruct (lookup_Z t (len - idx - 1)) as [c Hc]; [lia|].
    assert (tmp !! Z.to_nat (len - idx - 1) = Some c) as Hc' by (rewrite <- Ht in Hc; rewrite lookup_take_Some in Hc; tauto).
    rewrite (aread_lookup tmp _ c) by (done || lia). cbn [mbind res_bind]. rewrite awrite_in by lia. cbn [mbind res_bind].
    destruct (IH (idx + 1) (<[Z.to_nat idx := c]> buf)) as (b' & -> & ->); [lia|lia|by rewrite length_insert| |].
    + replace (Z.to_nat (idx + 1)) with (S (Z.to_nat idx)) by lia.
      assert (rev t !! Z.to_nat idx = Some c) as Hr.
      { rewrite <- Hc. rewrite rev_alt. change (rev_append t []) with (reverse t). rewrite reverse_lookup by lia. f_equal. lia. }
      erewrite !take_S_r; [|exact Hr|apply list_lookup_insert_eq; lia].
      by rewrite take_insert_ge, Hpre by lia.
    + eexists. split; [done|]. by rewrite drop_insert_lt by lia.
Qed.

Lemma num_to_str_spec buf size num : 0 <= num < 2 ^ 64 ->
  let t := render false 10 num in
  size <= Z.of_nat (length buf) ->
  num_to_str buf size num =
    Ok (if size <? Z.of_nat (length t) then (0, buf)
        else (Z.of_nat (length t), t ++ drop (length t) buf)).
Proof.
  intros Hn t Hs. unfold num_to_str. set (tmp0 := replicate 24 0).
  assert (exists tmp, (if num <=? 9 then tmp ← awrite tmp0 0 (48 + num); Ok (tmp, 1) else put_dec tmp0 0 num) =
    Ok (tmp, Z.of_nat (length (dec num))) /\ take (length (dec num)) tmp = dec num) as (tmp & -> & Ht).
  { destruct (Z.leb_spec num 9).
    - rewrite rdigits_small, digit_char_dec by lia. eexists. split; [done|]. done.
    - destruct (put_dec_spec tmp0 0 num) as (tmp & E & Hp); [done|done|done|]. exists tmp. split; [exact E|].
      destruct Hp as [_ Hp]. exact Hp. }
  cbn [mbind res_bind]. assert (length (dec num) = length t) as El by (unfold rdigits; apply length_rev).
  rewrite El in *. destruct (Z.ltb_spec size (Z.of_nat (length t))); [done|].
  destruct (copy_reversed_spec (Z.to_nat (Z.of_nat (length t))) 0 (Z.of_nat (length t)) tmp buf (dec num))
    as (b & -> & ->); [by rewrite Nat2Z.id|by rewrite Nat2Z.id|lia|lia|lia|done|].
  cbn [mbind res_bind]. rewrite Nat2Z.id. do 2 f_equal. unfold rdigits. by rewrite rev_involutive.
Qed.

(** ** Locality

    What the routines do in a buffer they do in any longer one. *)

Lemma awrite_grow (l c : list Z) i x l' : awrite l i x = Ok l' -> awrite (l ++ c) i x = Ok (l' ++ c).
Proof.
  unfold awrite. rewrite length_app. destruct (Z.leb_spec 0 i), (Z.ltb_spec i (Z.of_nat (length l))); cbn; try done.
  intros [= <-]. rewrite (proj2 (Z.ltb_lt _ _)) by lia. by rewrite insert_app_l by lia.
Qed.
Lemma aread_grow (l c : list Z) i x : aread l i = Ok x -> aread (l ++ c) i = Ok x.
Proof. rewrite !aread_ok. intros [Hi Hl]. split; [done|]. by apply lookup_app_l_Some. Qed.

Lemma put16_grow l c buf v l' : put16 l buf v = Ok l' -> put16 (l ++ c) buf v = Ok (l' ++ c).
Proof.
  unfold put16. intros (l1 & E1 & E2)%bind_ok. rewrite (awrite_grow _ c _ _ _ E1). by apply awrite_grow.
Qed.

(** The result of a routine that returns the buffer and a value. *)
Definition grown {A} (c : list Z) (r : list Z * A) : list Z * A := (fst r ++ c, snd r).
(** Go through the statements of the run in [H] and of the goal, the same in the longer buffer. *)
Ltac grow H c :=
  apply bind_ok in H as (? & ?E & H);
  match goal with
  | E : put16 _ _ _ = Ok _ |- _ => rewrite (put16_grow _ c _ _ _ E); clear E
  | E : aread _ _ = Ok _ |- _ => rewrite E; clear E
  end; cbn [mbind res_bind].

Lemma out_r_grow l c buf r o : out_r l buf r = Ok o -> out_r (l ++ c) buf r = Ok (grown c o).
Proof. unfold out_r. intros H. do 2 grow H c. by injection H as <-. Qed.

Lemma put_dec_trunc8_grow l c buf r o :
  put_dec_trunc8 l buf r = Ok o -> put_dec_trunc8 (l ++ c) buf r = Ok (grown c o).
Proof.
  unfold put_dec_trunc8. cbv zeta. intros H.
  repeat (match type of H with (if ?b then _ else _) = _ => destruct b end;
    [by apply out_r_grow|do 2 grow H c]). by apply out_r_grow.
Qed.

Lemma put_dec_full4_grow l c buf r l' : put_dec_full4 l buf r = Ok l' -> put_dec_full4 (l ++ c) buf r = Ok (l' ++ c).
Proof. unfold put_dec_full4. cbv zeta. intros H. do 2 grow H c. apply bind_ok in H as (d & -> & H). by apply put16_grow. Qed.

Lemma put_dec_helper4_grow l c buf x o : put_dec_helper4 l buf x = Ok o -> put_dec_helper4 (l ++ c) buf x = Ok (grown c o).
Proof.
  unfold put_dec_helper4. cbv zeta. intros (l1 & E & [= <-])%bind_ok. by rewrite (put_dec_full4_grow _ c _ _ _ E).
Qed.

Lemma strip_zeros_grow n m l c buf b : strip_zeros n l buf = Ok b -> (n <= m)%nat -> strip_zeros m (l ++ c) buf = Ok b.
Proof.
  revert m buf. induction n as [|n IH]; intros m buf H Hm; [done|]. destruct m as [|m]; [lia|]. cbn [strip_zeros] in *.
  apply bind_ok in H as (x & E & H). rewrite (aread_grow _ c _ _ E). cbn [mbind res_bind].
  destruct (x =? 48); [apply IH; [done|lia]|done].
Qed.

Lemma put_dec_grow l c buf n o : put_dec l buf n = Ok o -> put_dec (l ++ c) buf n = Ok (grown c o).
Proof.
  unfold put_dec. cbv zeta. destruct (_ <? _); [apply put_dec_trunc8_grow|]. intros H.
  do 3 (apply bind_ok in H as ([? ?] & ?E & H);
    match goal with E : put_dec_helper4 _ _ _ = Ok _ |- _ => rewrite (put_dec_helper4_grow _ c _ _ _ E); clear E end;
    cbn [mbind res_bind grown fst snd]).
  destruct (negb _); [by apply put_dec_trunc8_grow|]. apply bind_ok in H as (b & E & [= <-]).
  by rewrite (strip_zeros_grow _ (length (l2 ++ c)) _ c _ _ E) by (rewrite length_app; lia).
Qed.

(** Twenty bytes are enough, and none behind them is touched. *)
Lemma put_dec_frame l buf n : 0 <= n < 2 ^ 64 -> 0 <= buf -> buf + 20 <= Z.of_nat (length l) ->
  exists l', put_dec l buf n = Ok (l', buf + Z.of_nat (length (dec n))) /\ puts l buf (dec n) l' /\
    drop (Z.to_nat buf + 20) l' = drop (Z.to_nat buf + 20) l.
Proof.
  intros Hn Hb Hl. set (k := (Z.to_nat buf + 20)%nat).
  destruct (put_dec_spec l buf n Hn Hb Hl) as (l' & E & Hp). exists l'. split_and!; [done..|].
  assert (length (take k l) = k) as Lk by (rewrite length_take; lia).
  destruct (put_dec_spec (take k l) buf n Hn Hb) as (m & Em & [Lm _]); [lia|].
  apply (put_dec_grow _ (drop k l)) in Em. rewrite take_drop, E in Em. injection Em as ->.
  apply drop_app_length'. lia.
Qed.

(** * Properties *)

(** C29: Decimal digits.  For every 64-bit number, 0 included, [put_dec] stores its
    decimal digits, the lowest first and without a leading zero, from [buf] on and
    returns the end of them.  It leaves the bytes in front of [buf] and those from
    [buf + 20] on as they were; the bytes between the end and [buf + 20] it may
    overwrite (it stores pairs and groups of four digits).  [num_to_str] writes
    the number in order when it fits in [size] bytes and returns its length, and
    writes nothing and returns 0 otherwise.  (Its comment says that [put_dec] may give
    the empty text for 0; it gives "0".) *)
Theorem put_dec_exact l buf n b size :
  0 <= n < 2 ^ 64 -> 0 <= buf -> buf + 20 <= Z.of_nat (length l) -> size <= Z.of_nat (length b) ->
  let t := render false 10 n in
  (exists l', put_dec l buf n = Ok (l', buf + Z.of_nat (length t)) /\ length l' = length l /\
     take (Z.to_nat buf + length t) l' = take (Z.to_nat buf) l ++ rev t /\
     drop (Z.to_nat buf + 20) l' = drop (Z.to_nat buf + 20) l) /\
  num_to_str b size n =
    Ok (if size <? Z.of_nat (length t) then (0, b) else (Z.of_nat (length t), t ++ drop (length t) b)).
Proof.
  intros Hn Hb Hl Hs t. split; [|by apply num_to_str_spec].
  destruct (put_dec_frame l buf n Hn Hb Hl) as (l' & -> & [Hlen Ht] & Hd). exists l'.
  assert (length (dec n) = length t) as El by (unfold rdigits; apply length_rev). rewrite El in *. done.
Qed.

(** The comment of [num_to_str] says that [put_dec] may write nothing for 0; it
    writes the digit. *)
Theorem put_dec_zero l buf : 0 <= buf -> buf + 20 <= Z.of_nat (length l) ->
  exists l', put_dec l buf 0 = Ok (l', buf + 1) /\ l' !! Z.to_nat buf = Some 48.
Proof.
  intros Hb Hl. destruct (put_dec_spec l buf 0) as (l' & E & Hlen & Ht); [done|done|done|]. exists l'.
  split; [exact E|]. rewrite rdigits_small, digit_char_dec in Ht by lia. cbn [length] in Ht.
  rewrite <- (lookup_take_lt l' (Z.to_nat buf + 1)) by lia. rewrite Ht, lookup_app_r by (rewrite length_take; lia).
  rewrite length_take. by replace (_ - _)%nat with 0%nat by lia.
Qed.

(** * Concrete runs *)

Example put_dec_runs :
  (fst <$> put_dec (replicate 24 0) 0 18446744073709551615) =
    Ok (rev (render false 10 18446744073709551615) ++ replicate 4 0) /\
  (fst <$> put_dec (replicate 24 0) 0 100000000) =
    Ok (rev (render false 10 100000000) ++ replicate 3 48 ++ replicate 12 0) /\
  num_to_str (replicate 8 0) 8 1234567 = Ok (7, [49; 50; 51; 52; 53; 54; 55; 0]).
Proof. split_and!; vm_compute; reflexivity. Qed.

Lemma put_dec_exact_witness :
  let t := render false 10 987654321012 in
  (exists l', put_dec (replicate 24 7) 3 987654321012 = Ok (l', 3 + Z.of_nat (length t)) /\
     length l' = length (replicate 24 7) /\
     take (Z.to_nat 3 + length t) l' = take (Z.to_nat 3) (replicate 24 7) ++ rev t /\
     drop (Z.to_nat 3 + 20) l' = drop (Z.to_nat 3 + 20) (replicate 24 7)) /\
  num_to_str (replicate 16 1) 16 987654321012 =
    Ok (if 16 <? Z.of_nat (length t) then (0, replicate 16 1)
        else (Z.of_nat (length t), t ++ drop (length t) (replicate 16 1))).
Proof. apply (put_dec_exact (replicate 24 7) 3 987654321012 (replicate 16 1) 16); cbn; lia. Defined.
