(* ===== verification/KFormat.v ===== *)
(** * lib/vsprintf.c: formatted output

    [number], [string], [format_decode] and [vsnprintf] with its variants.
    Output goes to an object of bytes; [buf], [str] and [end] are offsets into it,
    and nothing is stored from [end] on.  A format is its bytes with the
    terminator, the arguments are a list of typed values.  [char] is unsigned;
    [int], [long] and [size_t] have 32 bits.  The conversions of [%p] that read
    kernel objects are not modelled. *)

From S2P Require Import Prelude KString Kstrtox KDecimal.
Open Scope Z_scope.

(** ** Conversion specifications *)

Definition SIGN : Z := 1.
Definition LEFT : Z := 2.
Definition PLUS : Z := 4.
Definition SPACE : Z := 8.
Definition ZEROPAD : Z := 16.
Definition SMALL : Z := 32.
Definition SPECIAL : Z := 64.

Definition FORMAT_TYPE_NONE : Z := 0.
Definition FORMAT_TYPE_WIDTH : Z := 1.
Definition FORMAT_TYPE_PRECISION : Z := 2.
Definition FORMAT_TYPE_CHAR : Z := 3.
Definition FORMAT_TYPE_STR : Z := 4.
Definition FORMAT_TYPE_PTR : Z := 5.
Definition FORMAT_TYPE_PERCENT_CHAR : Z := 6.
Definition FORMAT_TYPE_INVALID : Z := 7.
Definition FORMAT_TYPE_LONG_LONG : Z := 8.
Definition FORMAT_TYPE_ULONG : Z := 9.
Definition FORMAT_TYPE_LONG : Z := 10.
Definition FORMAT_TYPE_UBYTE : Z := 11.
Definition FORMAT_TYPE_BYTE : Z := 12.
Definition FORMAT_TYPE_USHORT : Z := 13.
Definition FORMAT_TYPE_SHORT : Z := 14.
Definition FORMAT_TYPE_UINT : Z := 15.
Definition FORMAT_TYPE_INT : Z := 16.
Definition FORMAT_TYPE_SIZE_T : Z := 17.
Definition FORMAT_TYPE_PTRDIFF : Z := 18.

(** [type], [flags], [base] and [qualifier] are [u8], the widths [s16]. *)
Record printf_spec := {
  type : Z; flags : Z; base : Z; qualifier : Z; field_width : Z; precision : Z }.
Definition set_type v s := {| type := u8 v; flags := flags s; base := base s; qualifier := qualifier s;
  field_width := field_width s; precision := precision s |}.
Definition set_flags v s := {| type := type s; flags := u8 v; base := base s; qualifier := qualifier s;
  field_width := field_width s; precision := precision s |}.
Definition set_base v s := {| type := type s; flags := flags s; base := u8 v; qualifier := qualifier s;
  field_width := field_width s; precision := precision s |}.
Definition set_qualifier v s := {| type := type s; flags := flags s; base := base s; qualifier := u8 v;
  field_width := field_width s; precision := precision s |}.
Definition set_width v s := {| type := type s; flags := flags s; base := base s; qualifier := qualifier s;
  field_width := wraps 16 v; precision := precision s |}.
Definition set_precision v s := {| type := type s; flags := flags s; base := base s; qualifier := qualifier s;
  field_width := field_width s; precision := wraps 16 v |}.
Definition has (f : Z) (spec : printf_spec) : bool := negb (Z.land (flags spec) f =? 0).

(** ** Output *)

(** The object written to, the place [str] in it, and the arguments left. *)
Inductive arg :=
  | A_int (v : Z) | A_long (v : Z) | A_llong (v : Z)
  | A_str (s : option (list Z))   (* None: an address below PAGE_SIZE *)
  | A_ptr (v : Z).
Record out := { o_buf : list Z; o_pos : Z; o_args : list arg }.

(** [if (str < end) *str = c; ++str] *)
Definition putc (end_ c : Z) : M out unit := fun st =>
  if o_pos st <? end_ then
    match awrite (o_buf st) (o_pos st) c with
    | Ok b => Ok (tt, {| o_buf := b; o_pos := o_pos st + 1; o_args := o_args st |})
    | Fault f => Fault f
    end
  else Ok (tt, {| o_buf := o_buf st; o_pos := o_pos st + 1; o_args := o_args st |}).

(** [while (--w >= 0) putc(c)] on an [s16]; the count is what is left after. *)
Fixpoint pad_loop (fuel : nat) (end_ c w : Z) : M out Z :=
  match fuel with
  | O => die NoFuel
  | S fuel' => let w := wraps 16 (w - 1) in
               if 0 <=? w then putc end_ c;; pad_loop fuel' end_ c w else mret w
  end.
Definition pad (end_ c w : Z) : M out Z := pad_loop (Z.to_nat (wraps 16 (w - 1)) + 2) end_ c w.

(** ** [number] *)

Definition hex_asc_upper : list Z := [48; 49; 50; 51; 52; 53; 54; 55; 56; 57; 65; 66; 67; 68; 69; 70; 0].

(** The digits of base 8 or 16, into [tmp] from [i] on. *)
Fixpoint digits_loop (fuel : nat) (tmp : list Z) (i num mask shift locase : Z) : res (list Z * Z) :=
  match fuel with
  | O => Fault NoFuel
  | S fuel' =>
      d ← aread hex_asc_upper (Z.land (u8 num) mask);
      tmp ← awrite tmp i (u8 (Z.lor d locase));
      let num := Z.shiftr num shift in
      if num =? 0 then Ok (tmp, i + 1) else digits_loop fuel' tmp (i + 1) num mask shift locase
  end.

(** [while (i <= --precision) putc('0')] *)
Fixpoint zeros_loop (fuel : nat) (end_ i prec : Z) : M out unit :=
  match fuel with
  | O => die NoFuel
  | S fuel' => let prec := wraps 16 (prec - 1) in
               if i <=? prec then putc end_ 48;; zeros_loop fuel' end_ i prec else mret tt
  end.
(** [while (--i >= 0) putc(tmp[i])] *)
Fixpoint digits_out (n : nat) (end_ : Z) (tmp : list Z) : M out unit :=
  match n with
  | O => mret tt
  | S n' => c ← lift (aread tmp (Z.of_nat n')); putc end_ c;; digits_out n' end_ tmp
  end.

(** The sign, the value without it, and the width left: the block on [SIGN]. *)
Definition sign_of (num : Z) (spec : printf_spec) : Z * Z * printf_spec :=
  if has SIGN spec then
    if i64 num <? 0 then (45, u64 (- i64 num), set_width (field_width spec - 1) spec)
    else if has PLUS spec then (43, num, set_width (field_width spec - 1) spec)
    else if has SPACE spec then (32, num, set_width (field_width spec - 1) spec)
    else (0, num, spec)
  else (0, num, spec).

(** The digits of [num], in reverse order: [i] and [tmp]. *)
Definition to_digits (num locase : Z) (spec : printf_spec) : res (list Z * Z) :=
  let tmp := replicate 24 0 in
  if num <? base spec then
    d ← aread hex_asc_upper num; tmp ← awrite tmp 0 (u8 (Z.lor d locase)); Ok (tmp, 1)
  else if negb (base spec =? 10) then
    digits_loop 65 tmp 0 num (base spec - 1) (if base spec =? 16 then 4 else 3) locase
  else put_dec tmp 0 num.

(** What follows the digits: padding, sign, prefix, digits, padding. *)
Definition number_out (end_ sign : Z) (need_pfx is_zero : bool) (locase i : Z) (tmp : list Z)
    (spec : printf_spec) : M out unit :=
  w ← (if negb (has (Z.lor ZEROPAD LEFT) spec) then pad end_ 32 (field_width spec) else mret (field_width spec));
  (if negb (sign =? 0) then putc end_ sign else mret tt);;
  (if need_pfx then
     (if (base spec =? 16) || negb is_zero then putc end_ 48 else mret tt);;
     (if base spec =? 16 then putc end_ (Z.lor 88 locase) else mret tt)
   else mret tt);;
  w ← (if negb (has LEFT spec) then pad end_ (u8 (32 + Z.land (flags spec) ZEROPAD)) w else mret w);
  zeros_loop (Z.to_nat (wraps 16 (precision spec - 1)) + 2) end_ i (precision spec);;
  digits_out (Z.to_nat i) end_ tmp;;
  pad end_ 32 w;;
  mret tt.

Definition number (end_ num : Z) (spec : printf_spec) : M out unit :=
  let need_pfx := has SPECIAL spec && negb (base spec =? 10) in
  let is_zero := num =? 0 in
  let locase := Z.land (flags spec) SMALL in
  let spec := if has LEFT spec then set_flags (Z.land (flags spec) (Z.lnot ZEROPAD)) spec else spec in
  let '(sign, num, spec) := sign_of num spec in
  let spec := if need_pfx
              then if base spec =? 16 then set_width (field_width spec - 2) spec
                   else if negb is_zero then set_width (field_width spec - 1) spec else spec
              else spec in
  r ← lift (to_digits num locase spec);
  let '(tmp, i) := r in
  let spec := if precision spec <? i then set_precision i spec else spec in
  number_out end_ sign need_pfx is_zero locase i tmp (set_width (field_width spec - precision spec) spec).

(** ** [string] *)

(** [while (len < spec.field_width--) putc(' ')] *)
Fixpoint width_loop (fuel : nat) (end_ len w : Z) : M out Z :=
  match fuel with
  | O => die NoFuel
  | S fuel' => if len <? w then putc end_ 32;; width_loop fuel' end_ len (wraps 16 (w - 1))
               else mret (wraps 16 (w - 1))
  end.
Fixpoint chars_out (n : nat) (end_ : Z) (s : list Z) : M out unit :=
  match n with
  | O => mret tt
  | S n' => c ← lift (KString.rd s); putc end_ c;; chars_out n' end_ (tail s)
  end.
Definition null_text : list Z := [40; 110; 117; 108; 108; 41; 0].

Definition string (end_ : Z) (s : option (list Z)) (spec : printf_spec) : M out unit :=
  let s := default null_text s in
  len ← lift (strnlen s (u32 (precision spec)));
  let len := i32 len in
  w ← (if negb (has LEFT spec) then width_loop (Z.to_nat (field_width spec) + 1) end_ len (field_width spec)
       else mret (field_width spec));
  chars_out (Z.to_nat len) end_ s;;
  width_loop (Z.to_nat w + 1) end_ len w;;
  mret tt.

(** ** [format_decode] *)

(** Digits are read while [isdigit]; the pointer and the value. *)
Fixpoint skip_atoi_loop (s : list Z) (i : Z) : res (Z * list Z) :=
  match s with
  | [] => Fault OutOfBounds
  | c :: s' =>
      let i := (i *i 10 +i c -i 48)%cint in
      c ← KString.rd s'; if isdigit c then skip_atoi_loop s' i else Ok (i, s')
  end.
Definition skip_atoi (s : list Z) : res (Z * list Z) := skip_atoi_loop s 0.

(** The type of an integer: what follows the switch. *)
Definition by_qualifier (spec : printf_spec) : printf_spec :=
  let q := qualifier spec in
  if q =? 76 then set_type FORMAT_TYPE_LONG_LONG spec
  else if q =? 108 then set_type (FORMAT_TYPE_ULONG + Z.land (flags spec) SIGN) spec
  else if _tolower q =? 122 then set_type FORMAT_TYPE_SIZE_T spec
  else if q =? 116 then set_type FORMAT_TYPE_PTRDIFF spec
  else if q =? 72 then set_type (FORMAT_TYPE_UBYTE + Z.land (flags spec) SIGN) spec
  else if q =? 104 then set_type (FORMAT_TYPE_USHORT + Z.land (flags spec) SIGN) spec
  else set_type (FORMAT_TYPE_UINT + Z.land (flags spec) SIGN) spec.

(** What is returned by reference is the specification; the pointer after the
    token stands for the number of characters read. *)
Definition conversion (fmt : list Z) (spec : printf_spec) : res (list Z * printf_spec) :=
  let spec := set_base 10 spec in
  c ← KString.rd fmt;
  let next := tail fmt in
  let integer spec := Ok (next, by_qualifier spec) in
  if c =? 99 then Ok (next, set_type FORMAT_TYPE_CHAR spec)
  else if c =? 115 then Ok (next, set_type FORMAT_TYPE_STR spec)
  else if c =? 112 then Ok (next, set_type FORMAT_TYPE_PTR spec)
  else if c =? 37 then Ok (next, set_type FORMAT_TYPE_PERCENT_CHAR spec)
  else if c =? 111 then integer (set_base 8 spec)
  else if c =? 120 then integer (set_base 16 (set_flags (Z.lor (flags spec) SMALL) spec))
  else if c =? 88 then integer (set_base 16 spec)
  else if (c =? 100) || (c =? 105) then integer (set_flags (Z.lor (flags spec) SIGN) spec)
  else if c =? 117 then integer spec
  else Ok (fmt, set_type FORMAT_TYPE_INVALID spec).

(** From the label [qualifier]. *)
Definition at_qualifier (fmt : list Z) (spec : printf_spec) : res (list Z * printf_spec) :=
  let spec := set_qualifier (-1) spec in
  c ← KString.rd fmt;
  if (c =? 104) || (_tolower c =? 108) || (_tolower c =? 122) || (c =? 116) then
    let spec := set_qualifier c spec in
    let fmt := tail fmt in
    d ← KString.rd fmt;
    if qualifier spec =? d then
      if qualifier spec =? 108 then conversion (tail fmt) (set_qualifier 76 spec)
      else if qualifier spec =? 104 then conversion (tail fmt) (set_qualifier 72 spec)
      else conversion fmt spec
    else conversion fmt spec
  else conversion fmt spec.

(** From the label [precision]. *)
Definition at_precision (fmt : list Z) (spec : printf_spec) : res (list Z * printf_spec) :=
  let spec := set_precision (-1) spec in
  c ← KString.rd fmt;
  if c =? 46 then
    let fmt := tail fmt in
    c ← KString.rd fmt;
    if isdigit c then
      '(p, fmt) ← skip_atoi fmt;
      let spec := set_precision p spec in
      at_qualifier fmt (if precision spec <? 0 then set_precision 0 spec else spec)
    else if c =? 42 then Ok (tail fmt, set_type FORMAT_TYPE_PRECISION spec)
    else at_qualifier fmt spec
  else at_qualifier fmt spec.

(** The flags after the '%'. *)
Fixpoint flags_loop (fmt : list Z) (spec : printf_spec) : res (list Z * printf_spec) :=
  match fmt with
  | [] => Fault OutOfBounds
  | c :: s =>
      let add f := flags_loop s (set_flags (Z.lor (flags spec) f) spec) in
      if c =? 45 then add LEFT else if c =? 43 then add PLUS else if c =? 32 then add SPACE
      else if c =? 35 then add SPECIAL else if c =? 48 then add ZEROPAD
      else Ok (fmt, spec)
  end.

(** The text up to the next '%' or the end. *)
Fixpoint plain_text (fmt : list Z) : res (list Z) :=
  match fmt with
  | [] => Fault OutOfBounds
  | c :: s => if (c =? 0) || (c =? 37) then Ok fmt else plain_text s
  end.

Definition format_decode (fmt : list Z) (spec : printf_spec) : res (list Z * printf_spec) :=
  if type spec =? FORMAT_TYPE_WIDTH then
    let spec := if field_width spec <? 0
                then set_flags (Z.lor (flags spec) LEFT) (set_width (- field_width spec) spec) else spec in
    at_precision fmt (set_type FORMAT_TYPE_NONE spec)
  else if type spec =? FORMAT_TYPE_PRECISION then
    let spec := if precision spec <? 0 then set_precision 0 spec else spec in
    at_qualifier fmt (set_type FORMAT_TYPE_NONE spec)
  else
    let spec := set_type FORMAT_TYPE_NONE spec in
    s ← plain_text fmt;
    c ← KString.rd s;
    if negb (Z.of_nat (length s) =? Z.of_nat (length fmt)) || (c =? 0) then Ok (s, spec)
    else
      '(fmt, spec) ← flags_loop (tail s) (set_flags 0 spec);
      let spec := set_width (-1) spec in
      c ← KString.rd fmt;
      if isdigit c then '(w, fmt) ← skip_atoi fmt; at_precision fmt (set_width w spec)
      else if c =? 42 then Ok (tail fmt, set_type FORMAT_TYPE_WIDTH spec)
      else at_precision fmt spec.

(** ** [vsnprintf] *)

Definition va_arg {A} (take : arg -> option A) : M out A := fun st =>
  match o_args st with
  | a :: args =>
      match take a with
      | Some v => Ok (v, {| o_buf := o_buf st; o_pos := o_pos st; o_args := args |})
      | None => Fault BadArgument
      end
  | [] => Fault BadArgument
  end.
Definition an_int (a : arg) : option Z := match a with A_int v => Some v | _ => None end.
Definition a_long (a : arg) : option Z := match a with A_long v => Some v | _ => None end.
Definition a_llong (a : arg) : option Z := match a with A_llong v => Some v | _ => None end.
Definition a_str (a : arg) : option (option (list Z)) := match a with A_str s => Some s | _ => None end.
Definition a_ptr (a : arg) : option Z := match a with A_ptr v => Some v | _ => None end.

(** [while (--spec.field_width > 0) putc(' ')] *)
Fixpoint char_pad (fuel : nat) (end_ w : Z) : M out Z :=
  match fuel with
  | O => die NoFuel
  | S fuel' => let w := wraps 16 (w - 1) in
               if 0 <? w then putc end_ 32;; char_pad fuel' end_ w else mret w
  end.
Definition format_char (end_ : Z) (spec : printf_spec) : M out unit :=
  w ← (if negb (has LEFT spec) then char_pad (Z.to_nat (wraps 16 (field_width spec - 1)) + 2) end_ (field_width spec)
       else mret (field_width spec));
  c ← va_arg an_int;
  putc end_ (u8 c);;
  char_pad (Z.to_nat (wraps 16 (w - 1)) + 2) end_ w;;
  mret tt.

(** The letters after [%p] with a conversion of their own, which read kernel
    objects; they are left out. *)
Definition pointer_letters : list Z :=
  [70; 102; 83; 115; 66; 82; 114; 104; 98; 77; 109; 73; 105; 69; 85; 86; 75; 78; 97; 100; 67; 68].
(** Any other pointer: what follows the switch. *)
Definition pointer_number (end_ ptr default_width : Z) (spec : printf_spec) : M out unit :=
  let spec := set_flags (Z.lor (flags spec) SMALL) spec in
  let spec := if field_width spec =? -1
              then set_flags (Z.lor (flags spec) ZEROPAD) (set_width default_width spec) else spec in
  number end_ (u32 ptr) (set_base 16 spec).
Definition pointer (fmt : list Z) (end_ ptr : Z) (spec : printf_spec) : M out unit :=
  let default_width := 2 * 4 + (if has SPECIAL spec then 2 else 0) in
  c ← lift (KString.rd fmt);
  if (ptr =? 0) && negb (c =? 75) then
    string end_ (Some null_text) (if field_width spec =? -1 then set_width default_width spec else spec)
  else if bool_decide (c ∈ pointer_letters) then die NotModelled
  else pointer_number end_ ptr default_width spec.

Definition isalnum (c : Z) : bool := negb (Z.land (__ismask c) (Z.lor _U (Z.lor _L _D)) =? 0).
Fixpoint skip_alnum (fmt : list Z) : res (list Z) :=
  match fmt with [] => Fault OutOfBounds | c :: s => if isalnum c then skip_alnum s else Ok fmt end.

(** What an argument gives an integer conversion: the [va_arg] of the type the
    conversion asks for, converted to [unsigned long long]. *)
Definition int_value (spec : printf_spec) (a : arg) : option Z :=
  let t := type spec in
  match a with
  | A_llong v => if t =? FORMAT_TYPE_LONG_LONG then Some (u64 v) else None
  | A_long v =>
      if t =? FORMAT_TYPE_ULONG then Some (u32 v)
      else if t =? FORMAT_TYPE_LONG then Some (u64 (i32 v)) else None
  | A_int v =>
      if (t =? FORMAT_TYPE_LONG_LONG) || (t =? FORMAT_TYPE_ULONG) || (t =? FORMAT_TYPE_LONG) then None
      else if t =? FORMAT_TYPE_SIZE_T then Some (if has SIGN spec then u64 (i32 v) else u32 v)
      else if t =? FORMAT_TYPE_PTRDIFF then Some (u64 (i32 v))
      else if t =? FORMAT_TYPE_UBYTE then Some (u8 v)
      else if t =? FORMAT_TYPE_BYTE then Some (u64 (wraps 8 v))
      else if t =? FORMAT_TYPE_USHORT then Some (wrapu 16 v)
      else if t =? FORMAT_TYPE_SHORT then Some (u64 (wraps 16 v))
      else if t =? FORMAT_TYPE_INT then Some (u64 (i32 v))
      else Some (u32 v)
  | _ => None
  end.

(** The literal text of a token: what fits is copied. *)
Definition copy_text (end_ : Z) (old_fmt : list Z) (read : Z) : M out unit := fun st =>
  let str := o_pos st in
  if str <? end_ then
    let copy := if end_ - str <? read then end_ - str else read in
    match memcpy_at (Z.to_nat copy) (o_buf st) str old_fmt with
    | Ok b => Ok (tt, {| o_buf := b; o_pos := str + read; o_args := o_args st |})
    | Fault f => Fault f
    end
  else Ok (tt, {| o_buf := o_buf st; o_pos := str + read; o_args := o_args st |}).

(** One token: [fmt] is what follows it. *)
Definition convert_token (old_fmt fmt : list Z) (end_ : Z) (spec : printf_spec) : M out (list Z * printf_spec) :=
  let t := type spec in
  if t =? FORMAT_TYPE_NONE then copy_text end_ old_fmt (Z.of_nat (length old_fmt - length fmt));; mret (fmt, spec)
  else if t =? FORMAT_TYPE_WIDTH then v ← va_arg an_int; mret (fmt, set_width v spec)
  else if t =? FORMAT_TYPE_PRECISION then v ← va_arg an_int; mret (fmt, set_precision v spec)
  else if t =? FORMAT_TYPE_CHAR then format_char end_ spec;; mret (fmt, spec)
  else if t =? FORMAT_TYPE_STR then s ← va_arg a_str; string end_ s spec;; mret (fmt, spec)
  else if t =? FORMAT_TYPE_PTR then
    p ← va_arg a_ptr; pointer fmt end_ p spec;; fmt ← lift (skip_alnum fmt); mret (fmt, spec)
  else if t =? FORMAT_TYPE_PERCENT_CHAR then putc end_ 37;; mret (fmt, spec)
  else if t =? FORMAT_TYPE_INVALID then putc end_ 37;; mret (fmt, spec)
  else num ← va_arg (int_value spec); number end_ num spec;; mret (fmt, spec).

Fixpoint format_loop (fuel : nat) (end_ : Z) (fmt : list Z) (spec : printf_spec) : M out unit :=
  match fuel with
  | O => die NoFuel
  | S fuel' =>
      c ← lift (KString.rd fmt);
      if c =? 0 then mret tt
      else
        '(rest, spec) ← lift (format_decode fmt spec);
        '(rest, spec) ← convert_token fmt rest end_ spec;
        format_loop fuel' end_ rest spec
  end.

Definition INT_MAX : Z := 0x7fffffff.
Definition zero_spec : printf_spec :=
  {| type := 0; flags := 0; base := 0; qualifier := 0; field_width := 0; precision := 0 |}.

(** The object starts at the address [addr], the output at [buf] in it. *)
Definition vsnprintf (addr buf size : Z) (fmt : list Z) : M out Z :=
  if INT_MAX <? size then mret 0
  else
    let size := if u32 (addr + buf + size) <? addr + buf then 0xffffffff - (addr + buf) else size in
    let end_ := buf + size in
    modify (fun st => {| o_buf := o_buf st; o_pos := buf; o_args := o_args st |});;
    format_loop (2 * length fmt + 2) end_ fmt zero_spec;;
    str ← gets o_pos;
    (if 0 <? size then
       b ← gets o_buf;
       b ← lift (awrite b (if str <? end_ then str else end_ - 1) 0);
       modify (fun st => {| o_buf := b; o_pos := o_pos st; o_args := o_args st |})
     else mret tt);;
    mret (i32 (str - buf)).

Definition vscnprintf (addr buf size : Z) (fmt : list Z) : M out Z :=
  i ← vsnprintf addr buf size fmt;
  mret (if u32 i <? size then i else if negb (size =? 0) then i32 (size - 1) else 0).
Definition vsprintf (addr buf : Z) (fmt : list Z) : M out Z := vsnprintf addr buf INT_MAX fmt.

(** The variadic forms: the arguments are given. *)
Definition with_args {A} (args : list arg) (b : list Z) (buf : Z) (m : M out A) : res (A * list Z) :=
  '(i, st) ← m {| o_buf := b; o_pos := buf; o_args := args |}; Ok (i, o_buf st).
Definition snprintf (addr : Z) (b : list Z) (buf size : Z) (fmt : list Z) (args : list arg) : res (Z * list Z) :=
  with_args args b buf (vsnprintf addr buf size fmt).
Definition scnprintf (addr : Z) (b : list Z) (buf size : Z) (fmt : list Z) (args : list arg) : res (Z * list Z) :=
  with_args args b buf (vscnprintf addr buf size fmt).
Definition sprintf (addr : Z) (b : list Z) (buf : Z) (fmt : list Z) (args : list arg) : res (Z * list Z) :=
  with_args args b buf (vsnprintf addr buf INT_MAX fmt).

(** * Specification *)

Definition repeat (n c : Z) : list Z := replicate (Z.to_nat n) c.

(** The text of an integer: sign, prefix, zeros up to the precision, digits, and
    padding up to the width on the side the flags say. *)
Definition sign_text (num : Z) (spec : printf_spec) : list Z :=
  if has SIGN spec then
    if i64 num <? 0 then [45] else if has PLUS spec then [43] else if has SPACE spec then [32] else []
  else [].
Definition magnitude (num : Z) (spec : printf_spec) : Z :=
  if has SIGN spec && (i64 num <? 0) then u64 (- i64 num) else num.
Definition prefix_text (num : Z) (spec : printf_spec) : list Z :=
  if has SPECIAL spec && negb (base spec =? 10) then
    if base spec =? 16 then [48; if has SMALL spec then 120 else 88] else if num =? 0 then [] else [48]
  else [].
Definition number_text (num : Z) (spec : printf_spec) : list Z :=
  let front := sign_text num spec ++ prefix_text num spec in
  let digits := render (negb (has SMALL spec)) (base spec) (magnitude num spec) in
  let body := repeat (precision spec - Z.of_nat (length digits)) 48 ++ digits in
  let w := field_width spec - Z.of_nat (length front) - Z.of_nat (length body) in
  if has LEFT spec then front ++ body ++ repeat w 32
  else if has ZEROPAD spec then front ++ repeat w 48 ++ body
  else repeat w 32 ++ front ++ body.

(** The widths a specification may have without an [s16] wrapping around on the
    way. *)
Definition spec_ok (spec : printf_spec) : Prop :=
  base spec ∈ [8; 10; 16] /\ is_u 8 (flags spec) /\ is_s 16 (field_width spec) /\ is_s 16 (precision spec) /\
  -32760 <= field_width spec - Z.max (precision spec) 24.

(** * Output *)

(** A character stored, if there is room, and counted. *)
Definition emit (end_ : Z) (st : out) (c : Z) : out :=
  {| o_buf := if o_pos st <? end_ then <[Z.to_nat (o_pos st) := c]> (o_buf st) else o_buf st;
     o_pos := o_pos st + 1; o_args := o_args st |}.
Definition emits (end_ : Z) (t : list Z) (st : out) : out := foldl (emit end_) st t.
(** The object holds the part of [n] more characters that is stored. *)
Definition room (end_ : Z) (n : nat) (st : out) : Prop :=
  0 <= o_pos st /\ Z.min end_ (o_pos st + Z.of_nat n) <= Z.of_nat (length (o_buf st)).

(** [m] puts out the text [t] and returns [a]. *)
Definition says {A} (end_ : Z) (t : list Z) (a : A) (m : M out A) : Prop :=
  forall st, room end_ (length t) st -> m st = Ok (a, emits end_ t st).

Lemma emits_room end_ t n st : room end_ (length t + n) st -> room end_ (length t) st /\ room end_ n (emits end_ t st).
Proof.
  unfold emits. revert st. induction t as [|c t IH]; intros st Hr; [split; [unfold room in *; cbn; lia|done]|].
  assert (room end_ (length t + n) (emit end_ st c)) as [_ H]%IH.
  { unfold room, emit in *. cbn in *. destruct (_ <? _); rewrite ?length_insert; lia. }
  split; [unfold room in *; cbn in *; lia|exact H].
Qed.
Lemma emits_app end_ t u st : emits end_ (t ++ u) st = emits end_ u (emits end_ t st).
Proof. apply foldl_app. Qed.

Lemma says_ret {A} end_ (a : A) : says end_ [] a (mret a).
Proof. by intros st _. Qed.
Lemma says_bind {A B} end_ t u (a : A) (b : B) m k :
  says end_ t a m -> says end_ u b (k a) -> says end_ (t ++ u) b (m ≫= k).
Proof.
  intros Hm Hk st Hr. rewrite length_app in Hr. apply emits_room in Hr as [Hr Hr'].
  rewrite (Mbind_run _ _ _ _ _ (Hm st Hr)), emits_app. by apply Hk.
Qed.
Lemma says_bind0 {A B} end_ u (a : A) (b : B) m k : says end_ [] a m -> says end_ u b (k a) -> says end_ u b (m ≫= k).
Proof. apply (says_bind end_ []). Qed.
Lemma says_eq {A} end_ t u (a : A) m : says end_ t a m -> t = u -> says end_ u a m.
Proof. by intros ? <-. Qed.
Lemma says_lift {A} end_ (r : res A) a : r = Ok a -> says end_ [] a (lift r).
Proof. by intros -> st _. Qed.
Lemma says_putc end_ c : says end_ [c] tt (putc end_ c).
Proof.
  intros st [H1 H2]. cbn [length] in H2. unfold putc, emits, emit. cbn. destruct (Z.ltb_spec (o_pos st) end_); [|done].
  by rewrite awrite_in by lia.
Qed.
Lemma says_if {A} end_ t u (b : bool) (a : A) m m' :
  (b = true -> says end_ t a m) -> (b = false -> says end_ u a m') ->
  says end_ (if b then t else u) a (if b then m else m').
Proof. destruct b; auto. Qed.

(** ** The object afterwards *)

(** The first [n] bytes of [t] over those at [p]. *)
Definition overlay (b : list Z) (p : Z) (t : list Z) : list Z :=
  take (Z.to_nat p) b ++ t ++ drop (Z.to_nat p + length t) b.
(** Output of the text [t] with room for [size] bytes: what fits, and a
    terminator. *)
Definition stored (b : list Z) (buf size : Z) (t : list Z) : list Z :=
  if size <=? 0 then b else overlay b buf (take (Z.to_nat (size - 1)) t ++ [0]).

Lemma overlay_nil b p : overlay b p [] = b.
Proof. unfold overlay. cbn. by rewrite Nat.add_0_r, take_drop. Qed.
Lemma overlay_length b p t : 0 <= p -> p + Z.of_nat (length t) <= Z.of_nat (length b) -> length (overlay b p t) = length b.
Proof. intros. unfold overlay. rewrite !length_app, length_take, length_drop. lia. Qed.
Lemma insert_overlay b p c : 0 <= p < Z.of_nat (length b) -> <[Z.to_nat p := c]> b = overlay b p [c].
Proof.
  intros Hp. unfold overlay. cbn [length app]. rewrite insert_take_drop by lia. by rewrite Nat.add_1_r.
Qed.
Lemma overlay_app b p t u : 0 <= p -> p + Z.of_nat (length t) <= Z.of_nat (length b) ->
  overlay (overlay b p t) (p + Z.of_nat (length t)) u = overlay b p (t ++ u).
Proof.
  intros Hp Ht. unfold overlay. replace (Z.to_nat (p + Z.of_nat (length t))) with (Z.to_nat p + length t)%nat by lia.
  assert (length (take (Z.to_nat p) b) = Z.to_nat p) as Lp by (rewrite length_take; lia).
  rewrite (app_assoc (take (Z.to_nat p) b) t (drop _ b)).
  rewrite take_app_length' by (rewrite length_app; lia).
  rewrite drop_app_ge by (rewrite length_app; lia). rewrite drop_drop, !length_app, <- !app_assoc.
  rewrite Lp. do 3 f_equal. f_equal. lia.
Qed.

Lemma emits_state end_ t st : room end_ (length t) st ->
  emits end_ t st = {| o_buf := overlay (o_buf st) (o_pos st) (take (Z.to_nat (end_ - o_pos st)) t);
                       o_pos := o_pos st + Z.of_nat (length t); o_args := o_args st |}.
Proof.
  unfold emits. revert st. induction t as [|c t IH]; intros st Hr; cbn [foldl length].
  { rewrite take_nil, overlay_nil, Z.add_0_r. by destruct st. }
  apply (emits_room _ [c] (length t)) in Hr as [[H0 H1] Hr]. cbn [length] in H1.
  change (emits end_ [c] st) with (emit end_ st c) in Hr. rewrite (IH _ Hr). cbn [emit o_pos o_buf o_args]. f_equal; [|lia].
  destruct (Z.ltb_spec (o_pos st) end_).
  - rewrite insert_overlay by lia. change 1 with (Z.of_nat (length [c])). rewrite overlay_app by (cbn; lia). f_equal.
    replace (Z.to_nat (end_ - o_pos st)) with (S (Z.to_nat (end_ - (o_pos st + 1)))) by lia. done.
  - replace (Z.to_nat (end_ - o_pos st)) with 0%nat by lia.
    replace (Z.to_nat (end_ - (o_pos st + 1))) with 0%nat by lia. by rewrite !take_0, !overlay_nil.
Qed.

Lemma copy_text_says end_ n t : (n <= length t)%nat -> says end_ (take n t) tt (copy_text end_ t (Z.of_nat n)).
Proof.
  intros Hn st Hr. rewrite emits_state by done. pose proof Hr as [H0 H1]. unfold copy_text. cbv zeta.
  rewrite length_take in *. rewrite Nat.min_l in * by lia. rewrite take_take.
  destruct (Z.ltb_spec (o_pos st) end_).
  - set (copy := if end_ - o_pos st <? Z.of_nat n then end_ - o_pos st else Z.of_nat n).
    assert (Z.to_nat copy = Z.to_nat (end_ - o_pos st) `min` n)%nat as Ec
      by (unfold copy; destruct (Z.ltb_spec (end_ - o_pos st) (Z.of_nat n)); lia).
    rewrite Ec, memcpy_at_spec by lia. unfold overlay. by rewrite length_take, (Nat.min_l (_ `min` _)) by lia.
  - replace (Z.to_nat (end_ - o_pos st)) with 0%nat by lia. by rewrite take_0, overlay_nil.
Qed.

(** ** Padding *)

Lemma repeat_nonpos n c : n <= 0 -> repeat n c = [].
Proof. intros Hn. unfold repeat. by replace (Z.to_nat n) with 0%nat by lia. Qed.
Lemma repeat_succ n c : 0 < n -> repeat n c = c :: repeat (n - 1) c.
Proof. intros Hn. unfold repeat. by replace (Z.to_nat n) with (S (Z.to_nat (n - 1))) by lia. Qed.
Lemma repeat_length n c : Z.of_nat (length (repeat n c)) = Z.max 0 n.
Proof. unfold repeat. rewrite length_replicate. lia. Qed.

Lemma s16_small z : -32768 <= z < 32768 -> wraps 16 z = z.
Proof. intros Hz. by apply wraps_small. Qed.

Lemma pad_loop_says fuel end_ c w : -32767 <= w <= 32767 -> (Z.to_nat w + 1 <= fuel)%nat ->
  says end_ (repeat w c) (Z.min (w - 1) (-1)) (pad_loop fuel end_ c w).
Proof.
  revert w. induction fuel as [|fuel IH]; intros w Hw Hf; [lia|]. cbn [pad_loop]. rewrite s16_small by lia.
  destruct (Z.leb_spec 0 (w - 1)).
  - rewrite repeat_succ by lia. apply (says_bind _ [c]) with (a := tt); [apply says_putc|].
    replace (Z.min (w - 1) (-1)) with (Z.min (w - 1 - 1) (-1)) by lia. apply IH; lia.
  - rewrite repeat_nonpos by lia. replace (Z.min (w - 1) (-1)) with (w - 1) by lia. apply says_ret.
Qed.
Lemma pad_says end_ c w : -32767 <= w <= 32767 -> says end_ (repeat w c) (Z.min (w - 1) (-1)) (pad end_ c w).
Proof. intros Hw. unfold pad. rewrite s16_small by lia. apply pad_loop_says; lia. Qed.

Lemma zeros_loop_says fuel end_ i prec : 0 <= i -> -32767 <= prec <= 32767 -> (Z.to_nat prec + 1 <= fuel)%nat ->
  says end_ (repeat (prec - i) 48) tt (zeros_loop fuel end_ i prec).
Proof.
  revert prec. induction fuel as [|fuel IH]; intros prec Hi Hp Hf; [lia|]. cbn [zeros_loop]. rewrite s16_small by lia.
  destruct (Z.leb_spec i (prec - 1)).
  - rewrite repeat_succ by lia. apply (says_bind _ [48]) with (a := tt); [apply says_putc|].
    replace (prec - i - 1) with (prec - 1 - i) by lia. apply IH; lia.
  - rewrite repeat_nonpos by lia. apply says_ret.
Qed.

Lemma digits_out_says end_ tmp n : (n <= length tmp)%nat -> says end_ (rev (take n tmp)) tt (digits_out n end_ tmp).
Proof.
  induction n as [|n IH]; intros Hn; [apply says_ret|]. cbn [digits_out].
  destruct (lookup_lt_is_Some_2 tmp n) as [c Hc]; [lia|]. rewrite (take_S_r _ _ _ Hc), rev_unit.
  apply says_bind0 with (a := c); [apply says_lift, aread_lookup; [lia|by rewrite Nat2Z.id]|].
  apply (says_bind _ [c]) with (a := tt); [apply says_putc|]. apply IH. lia.
Qed.

(** ** Flags *)

Lemma has_testbit k spec : 0 <= k -> has (2 ^ k) spec = Z.testbit (flags spec) k.
Proof.
  intros Hk. unfold has. rewrite land_pow2 by done. pose proof (pow2_pos k Hk).
  destruct (Z.testbit (flags spec) k); [by rewrite (proj2 (Z.eqb_neq _ 0)) by lia|done].
Qed.
Lemma has_flags k spec spec' : 0 <= k -> Z.testbit (flags spec') k = Z.testbit (flags spec) k ->
  has (2 ^ k) spec' = has (2 ^ k) spec.
Proof. intros Hk E. by rewrite !has_testbit, E. Qed.
Lemma has_lor f g spec : has (Z.lor f g) spec = has f spec || has g spec.
Proof.
  unfold has. rewrite Z.land_lor_distr_r. rewrite <- negb_andb. f_equal. apply eq_true_iff_eq.
  rewrite andb_true_iff, !Z.eqb_eq. apply Z.lor_eq_0_iff.
Qed.
Lemma land_flag k spec : 0 <= k -> Z.land (flags spec) (2 ^ k) = if has (2 ^ k) spec then 2 ^ k else 0.
Proof. intros Hk. rewrite has_testbit by done. by apply land_pow2. Qed.

(** Left justification turns the padding with zeros off. *)
Definition unpadded (spec : printf_spec) : printf_spec :=
  if has LEFT spec then set_flags (Z.land (flags spec) (Z.lnot ZEROPAD)) spec else spec.
Lemma unpadded_has k spec : 0 <= k < 8 ->
  has (2 ^ k) (unpadded spec) = has (2 ^ k) spec && negb (has LEFT spec && (k =? 4)).
Proof.
  intros Hk. unfold unpadded. destruct (has LEFT spec); cbn [andb negb]; [|by rewrite andb_true_r].
  rewrite !has_testbit by lia. cbn [flags set_flags]. rewrite wrapu_testbit, bool_decide_eq_true_2 by lia.
  cbn [andb]. rewrite Z.land_spec, Z.lnot_spec by lia. change ZEROPAD with (2 ^ 4).
  rewrite testbit_pow2 by lia. f_equal. f_equal. rewrite Z.eqb_sym. destruct (Z.eqb_spec 4 k), (decide (4 = k)); try done;
    [by apply bool_decide_eq_true_2|by apply bool_decide_eq_false_2].
Qed.

(** Two specifications that agree but for the width. *)
Definition same_but_width (s s' : printf_spec) : Prop :=
  flags s' = flags s /\ base s' = base s /\ precision s' = precision s.

Lemma sign_of_spec num spec : -32767 <= field_width spec <= 32767 ->
  exists s spec', sign_of num spec = (s, magnitude num spec, spec') /\ same_but_width spec spec' /\
    field_width spec' = field_width spec - Z.of_nat (length (sign_text num spec)) /\
    sign_text num spec = (if negb (s =? 0) then [s] else []).
Proof.
  intros Hw. unfold sign_of, magnitude, sign_text, same_but_width.
  destruct (has SIGN spec); cbn [andb]; [|eexists _, _; split_and!; try done; cbn; lia].
  destruct (i64 num <? 0); [|destruct (has PLUS spec); [|destruct (has SPACE spec)]];
    (eexists _, _; split_and!; try done; cbn [set_width field_width length]; rewrite ?s16_small by lia; cbn; lia).
Qed.

(** ** Digits *)

Definition lower_case (spec : printf_spec) : Z := Z.land (flags spec) SMALL.

Lemma hex_digit d locase : 0 <= d < 16 -> locase = 0 \/ locase = 32 ->
  exists c, aread hex_asc_upper d = Ok c /\ u8 (Z.lor c locase) = digit_char (locase =? 0) d.
Proof.
  intros Hd Hl. assert (forallb (fun d => match aread hex_asc_upper d with
    | Ok c => (u8 (Z.lor c 0) =? digit_char true d) && (u8 (Z.lor c 32) =? digit_char false d) | Fault _ => false end)
    (seqZ 0 16) = true) as H by (vm_compute; reflexivity).
  rewrite forallb_forall in H. specialize (H d). rewrite <- list_elem_of_In, elem_of_seqZ in H. specialize (H ltac:(lia)).
  destruct (aread hex_asc_upper d) as [c|]; [|done]. exists c. split; [done|].
  apply andb_true_iff in H as [H0%Z.eqb_eq H1%Z.eqb_eq]. by destruct Hl as [-> | ->].
Qed.

Lemma u8_land_mod num k : 0 <= k <= 8 -> Z.land (u8 num) (2 ^ k - 1) = num mod 2 ^ k.
Proof.
  intros Hk. rewrite Z.sub_1_r, <- Z.ones_equiv, Z.land_ones by lia. unfold wrapu.
  apply Z.bits_inj'. intros i Hi. destruct (decide (i < k)).
  - by rewrite !Z.mod_pow2_bits_low by lia.
  - by rewrite !Z.mod_pow2_bits_high by lia.
Qed.

Lemma digits_loop_spec fuel n tmp i num shift locase :
  1 <= shift <= 4 -> locase = 0 \/ locase = 32 -> 0 <= num < 2 ^ 64 -> num < (2 ^ shift) ^ Z.of_nat n ->
  (0 < n <= fuel)%nat -> 0 <= i -> i + Z.of_nat n <= Z.of_nat (length tmp) ->
  exists tmp', digits_loop fuel tmp i num (2 ^ shift - 1) shift locase =
    Ok (tmp', i + Z.of_nat (length (rdigits (locase =? 0) (2 ^ shift) num))) /\
    puts tmp i (rdigits (locase =? 0) (2 ^ shift) num) tmp'.
Proof.
  intros Hs Hl. assert (2 <= 2 ^ shift <= 16) as Hb.
  { split; [change 2 with (2 ^ 1) at 1|change 16 with (2 ^ 4)]; apply Z.pow_le_mono_r; lia. }
  revert n tmp i num. induction fuel as [|fuel IH]; intros n tmp i num H64 Hn Hf Hi Hlen; [lia|]. cbn [digits_loop].
  rewrite u8_land_mod by lia. pose proof (Z.mod_pos_bound num (2 ^ shift) ltac:(lia)) as Hm.
  destruct (hex_digit (num mod 2 ^ shift) locase) as (c & -> & Hc); [lia|done|]. cbn [mbind res_bind]. rewrite Hc.
  destruct (store_spec tmp i (digit_char (locase =? 0) (num mod 2 ^ shift))) as (t1 & -> & H1); [lia|]. cbn [mbind res_bind].
  rewrite Z.shiftr_div_pow2 by lia. destruct n as [|n]; [lia|]. rewrite Nat2Z.inj_succ, Z.pow_succ_r in Hn by lia.
  assert (0 <= num / 2 ^ shift) by (apply Z.div_pos; lia).
  destruct (Z.eqb_spec (num / 2 ^ shift) 0) as [Hz|Hz].
  - assert (num < 2 ^ shift) by (apply Z.div_small_iff in Hz; lia). exists t1.
    rewrite rdigits_small by lia. rewrite Z.mod_small in H1 by lia. done.
  - assert (2 ^ shift <= num) by (pose proof (Z.div_small num (2 ^ shift)); lia).
    assert (num / 2 ^ shift < 2 ^ 64) by (apply Z.div_lt_upper_bound; nia).
    assert (num / 2 ^ shift < (2 ^ shift) ^ Z.of_nat n) by (apply Z.div_lt_upper_bound; lia).
    rewrite rdigits_step by lia. pose proof H1 as [L1 _].
    destruct (IH n t1 (i + 1) (num / 2 ^ shift)) as (t2 & -> & Hp2); [lia|done| |lia|lia|].
    { destruct n; [change (Z.of_nat 0) with 0 in *; rewrite Z.pow_0_r in *|]; lia. }
    exists t2. split; [f_equal; f_equal; cbn [length]; lia|]. by apply (puts_app tmp i [_] t1).
Qed.

Lemma render_dec upper v : render upper 10 v = render false 10 v.
Proof.
  unfold render. generalize 64%nat, (@nil Z). intros n. revert v. induction n as [|n IH]; intros v acc; [done|].
  rewrite !render_loop_S. cbv zeta. rewrite IH. unfold digit_char.
  assert (v mod 10 < 10) as Hm%Z.ltb_lt by (apply Z.mod_pos_bound; lia). by rewrite Hm.
Qed.

Lemma to_digits_spec num spec : base spec ∈ [8; 10; 16] -> 0 <= num < 2 ^ 64 ->
  let ds := render (negb (has SMALL spec)) (base spec) num in
  exists tmp, to_digits num (lower_case spec) spec = Ok (tmp, Z.of_nat (length ds)) /\
    (length ds <= 24)%nat /\ length tmp = 24%nat /\ rev (take (length ds) tmp) = ds.
Proof.
  intros Hb Hn ds. assert (lower_case spec = 0 \/ lower_case spec = 32) as Hl.
  { unfold lower_case. change SMALL with (2 ^ 5). rewrite land_flag by lia. destruct (has (2 ^ 5) spec); auto. }
  assert ((lower_case spec =? 0) = negb (has SMALL spec)) as El by (unfold has; by rewrite negb_involutive).
  assert (length (rdigits (negb (has SMALL spec)) (base spec) num) = length ds) as Elen by apply length_rev.
  assert (exists tmp, to_digits num (lower_case spec) spec = Ok (tmp, Z.of_nat (length ds)) /\
    puts (replicate 24 0) 0 (rdigits (negb (has SMALL spec)) (base spec) num) tmp) as (tmp & E & Hlen & Ht).
  2: { exists tmp. assert (take (length ds) tmp = rdigits (negb (has SMALL spec)) (base spec) num) as Ht'
         by (rewrite <- Elen; exact Ht).
       split; [done|]. rewrite Ht'. rewrite <- Elen in Ht' |- *. apply (f_equal length) in Ht'.
       rewrite length_take, Hlen, length_replicate in Ht'. split; [lia|]. split; [exact Hlen|]. apply rev_involutive. }
  rewrite <- Elen, <- El. unfold to_digits. rewrite !elem_of_cons in Hb.
  destruct (Z.ltb_spec num (base spec)).
  { destruct (hex_digit num (lower_case spec)) as (c & -> & Hc); [destruct Hb as [?|[?|[?|?%elem_of_nil]]]; lia|done|].
    cbn [mbind res_bind]. rewrite Hc. rewrite rdigits_small by (destruct Hb as [?|[?|[?|?%elem_of_nil]]]; lia).
    destruct (store_spec (replicate 24 0) 0 (digit_char (lower_case spec =? 0) num)) as (t & -> & Hp); [done|]. by exists t. }
  destruct Hb as [Eb|[Eb|[Eb|[]%elem_of_nil]]]; rewrite Eb; cbn [Z.eqb Pos.eqb negb Z.sub].
  - apply (digits_loop_spec 65 22 _ 0 num 3); done || lia.
  - unfold rdigits. rewrite render_dec. by apply put_dec_spec.
  - apply (digits_loop_spec 65 16 _ 0 num 4); done || lia.
Qed.

(** ** [number] *)

Lemma unpadded_same num spec :
  sign_text num (unpadded spec) = sign_text num spec /\ magnitude num (unpadded spec) = magnitude num spec /\
  base (unpadded spec) = base spec /\ precision (unpadded spec) = precision spec /\
  field_width (unpadded spec) = field_width spec.
Proof.
  unfold sign_text, magnitude.
  assert (forall k, 0 <= k < 4 -> has (2 ^ k) (unpadded spec) = has (2 ^ k) spec) as Hk.
  { intros k Hk. rewrite unpadded_has by lia. rewrite (proj2 (Z.eqb_neq k 4)) by lia. by rewrite andb_false_r, andb_true_r. }
  change SIGN with (2 ^ 0). change PLUS with (2 ^ 2). change SPACE with (2 ^ 3). rewrite !Hk by lia.
  unfold unpadded. destruct (has LEFT spec); done.
Qed.

Lemma magnitude_range num spec : 0 <= num < 2 ^ 64 -> 0 <= magnitude num spec < 2 ^ 64.
Proof. intros Hn. unfold magnitude. destruct (_ && _); [apply (wrapu_range 64); lia|done]. Qed.

Lemma prefix_length num spec : base spec ∈ [8; 10; 16] ->
  Z.of_nat (length (prefix_text num spec)) =
    if has SPECIAL spec && negb (base spec =? 10) then if base spec =? 16 then 2 else if negb (num =? 0) then 1 else 0 else 0.
Proof. intros _. unfold prefix_text. destruct (_ && _), (base spec =? 16), (num =? 0); done. Qed.

Lemma sign_length num spec : Z.of_nat (length (sign_text num spec)) <= 1.
Proof. unfold sign_text. destruct (has SIGN spec), (i64 num <? 0), (has PLUS spec), (has SPACE spec); cbn; lia. Qed.

Lemma same_has s s' f : same_but_width s s' -> has f s' = has f s.
Proof. intros (E & _). unfold has. by rewrite E. Qed.

(** The specification after the prefix has been counted. *)
Definition prefix_spec (need_pfx is_zero : bool) (spec : printf_spec) : printf_spec :=
  if need_pfx
  then if base spec =? 16 then set_width (field_width spec - 2) spec
       else if negb is_zero then set_width (field_width spec - 1) spec else spec
  else spec.
Lemma prefix_spec_same need_pfx is_zero spec : same_but_width spec (prefix_spec need_pfx is_zero spec).
Proof. unfold prefix_spec. destruct need_pfx, (base spec =? 16), is_zero; done. Qed.

Lemma says_prefix end_ num spec b locase : base spec = b -> locase = lower_case spec ->
  says end_ (prefix_text num spec) tt
    (if has SPECIAL spec && negb (base spec =? 10) then
       (if (b =? 16) || negb (num =? 0) then putc end_ 48 else mret tt);;
       (if b =? 16 then putc end_ (Z.lor 88 locase) else mret tt)
     else mret tt).
Proof.
  intros <- ->. unfold prefix_text. destruct (_ && _); [|apply says_ret].
  destruct (base spec =? 16) eqn:E16; cbn [orb].
  - apply (says_bind _ [48]) with (a := tt); [apply says_putc|].
    assert (Z.lor 88 (lower_case spec) = if has SMALL spec then 120 else 88) as ->; [|apply says_putc].
    unfold lower_case. change SMALL with (2 ^ 5). rewrite land_flag by lia. by destruct (has (2 ^ 5) spec).
  - destruct (num =? 0); cbn [negb]; [apply says_bind0 with (a := tt); apply says_ret|].
    apply (says_bind _ [48] [] tt tt); [apply says_putc|apply says_ret].
Qed.

(** Zeros, digits and the padding on the right. *)
Lemma body_says end_ prec i tmp w : 0 <= i <= prec -> prec <= 32767 -> i <= Z.of_nat (length tmp) -> -32767 <= w <= 32767 ->
  says end_ ((repeat (prec - i) 48 ++ rev (take (Z.to_nat i) tmp)) ++ repeat w 32) tt
    (zeros_loop (Z.to_nat (wraps 16 (prec - 1)) + 2) end_ i prec;; digits_out (Z.to_nat i) end_ tmp;;
     pad end_ 32 w;; mret tt).
Proof.
  intros Hi Hp Ht Hw. rewrite <- app_assoc.
  eapply says_bind; [apply zeros_loop_says; [lia|lia|rewrite s16_small by lia; lia]|].
  eapply says_bind; [apply digits_out_says; lia|]. rewrite <- (app_nil_r (repeat w 32)).
  eapply says_bind; [apply pad_says; lia|]. apply says_ret.
Qed.

Lemma number_out_says end_ num s spec spec5 i tmp :
  let w := field_width spec5 in let prec := precision spec5 in
  -32764 <= w <= 32767 -> 0 <= i <= prec -> prec <= 32767 -> i <= Z.of_nat (length tmp) ->
  base spec5 = base spec -> has LEFT spec5 = has LEFT spec ->
  has ZEROPAD spec5 = has ZEROPAD spec && negb (has LEFT spec) ->
  sign_text num spec = (if negb (s =? 0) then [s] else []) ->
  let front := sign_text num spec ++ prefix_text num spec in
  let body := repeat (prec - i) 48 ++ rev (take (Z.to_nat i) tmp) in
  says end_ (if has LEFT spec then front ++ body ++ repeat w 32
             else if has ZEROPAD spec then front ++ repeat w 48 ++ body else repeat w 32 ++ front ++ body) tt
    (number_out end_ s (has SPECIAL spec && negb (base spec =? 10)) (num =? 0) (lower_case spec) i tmp spec5).
Proof.
  intros w prec Hw Hi Hp Ht Eb EL EZ Es front body. unfold number_out, front. rewrite has_lor, EZ, EL.
  assert (u8 (32 + Z.land (flags spec5) ZEROPAD) = if has ZEROPAD spec && negb (has LEFT spec) then 48 else 32) as ->.
  { rewrite <- EZ. change ZEROPAD with (2 ^ 4). rewrite land_flag by lia. by destruct (has (2 ^ 4) spec5). }
  pose proof (says_prefix end_ num spec (base spec5) (lower_case spec) (eq_sym Eb) eq_refl) as Hpre.
  assert (says end_ (sign_text num spec) tt (if negb (s =? 0) then putc end_ s else mret tt)) as Hsig
    by (rewrite Es; apply says_if; intros _; [apply says_putc|apply says_ret]).
  fold w prec. destruct (has LEFT spec), (has ZEROPAD spec); cbn [andb negb orb].
  1, 2: eapply says_bind0; [apply says_ret|]; rewrite <- app_assoc; (eapply says_bind; [exact Hsig|]);
    (eapply says_bind; [exact Hpre|]); (eapply says_bind0; [apply says_ret|]); apply body_says; lia.
  - eapply says_bind0; [apply says_ret|]. rewrite <- app_assoc. eapply says_bind; [exact Hsig|]. eapply says_bind; [exact Hpre|].
    eapply says_bind; [apply pad_says; lia|]. rewrite <- (app_nil_r body).
    rewrite <- (repeat_nonpos (Z.min (w - 1) (-1)) 32) by lia. apply body_says; lia.
  - eapply says_bind; [apply pad_says; lia|]. rewrite <- app_assoc. eapply says_bind; [exact Hsig|]. eapply says_bind; [exact Hpre|].
    rewrite <- (app_nil_l body). rewrite <- (repeat_nonpos (Z.min (w - 1) (-1)) 32) at 1 by lia.
    eapply says_bind; [apply pad_says; lia|]. rewrite <- (app_nil_r body).
    rewrite <- (repeat_nonpos (Z.min (Z.min (w - 1) (-1) - 1) (-1)) 32) by lia. apply body_says; lia.
Qed.

(** The specification after the sign and the prefix. *)
Lemma front_spec num spec : base spec ∈ [8; 10; 16] -> -32760 <= field_width spec <= 32767 ->
  let need := has SPECIAL spec && negb (base spec =? 10) in
  exists s spec3, sign_of num (unpadded spec) = (s, magnitude num spec, spec3) /\
    sign_text num spec = (if negb (s =? 0) then [s] else []) /\
    let spec3 := prefix_spec need (num =? 0) spec3 in
    same_but_width (unpadded spec) spec3 /\
    field_width spec3 = field_width spec - Z.of_nat (length (sign_text num spec ++ prefix_text num spec)).
Proof.
  intros Hb Hw need. destruct (unpadded_same num spec) as (Esg & Emg & Eb1 & Ep1 & Ew1).
  destruct (sign_of_spec num (unpadded spec)) as (s & spec2 & E & (Ef2 & Eb2 & Ep2) & Ew2 & Es); [lia|].
  rewrite Esg in Ew2, Es. rewrite Emg in E. pose proof (sign_length num spec) as Ls.
  pose proof (prefix_length num spec Hb) as Lp. fold need in Lp.
  exists s, spec2. split; [done|]. split; [done|]. split.
  - destruct (prefix_spec_same need (num =? 0) spec2) as (? & ? & ?). unfold same_but_width. split_and!; congruence.
  - rewrite length_app, Nat2Z.inj_add, Lp. unfold prefix_spec. rewrite Eb2, Eb1.
    destruct need, (base spec =? 16), (num =? 0); cbn [negb set_width field_width]; rewrite ?s16_small by lia; lia.
Qed.

(** The specification after the precision; [i] digits. *)
Lemma widths_spec spec spec3 i : same_but_width (unpadded spec) spec3 -> 0 <= i <= 24 ->
  -32768 <= field_width spec3 - Z.max (precision spec) i -> field_width spec3 <= 32767 -> is_s 16 (precision spec) ->
  let spec4 := if precision spec3 <? i then set_precision i spec3 else spec3 in
  let spec5 := set_width (field_width spec4 - precision spec4) spec4 in
  field_width spec5 = field_width spec3 - Z.max (precision spec) i /\ precision spec5 = Z.max (precision spec) i /\
  base spec5 = base spec /\ has LEFT spec5 = has LEFT spec /\
  has ZEROPAD spec5 = has ZEROPAD spec && negb (has LEFT spec).
Proof.
  intros (Ef & Eb & Ep) Hi Hw1 Hw2 Hpr. unfold is_s in Hpr. cbv zeta.
  destruct (unpadded_same 0 spec) as (_ & _ & Eb1 & Ep1 & _).
  set (spec4 := if precision spec3 <? i then set_precision i spec3 else spec3).
  assert (precision spec4 = Z.max (precision spec) i) as Ep4.
  { unfold spec4. destruct (Z.ltb_spec (precision spec3) i); [cbn; rewrite s16_small|]; lia. }
  assert (field_width spec4 = field_width spec3) as Ew4 by (unfold spec4; by destruct (precision spec3 <? i)).
  assert (flags spec4 = flags (unpadded spec)) as Ef4 by (unfold spec4; destruct (precision spec3 <? i); exact Ef).
  assert (base spec4 = base spec) as Eb4 by (unfold spec4; destruct (precision spec3 <? i); cbn; congruence).
  set (spec5 := set_width _ spec4).
  assert (forall k, 0 <= k -> has (2 ^ k) spec5 = has (2 ^ k) (unpadded spec)) as Hhas
    by (intros k Hk; apply has_flags; [done|]; cbn; by rewrite Ef4).
  assert (has LEFT spec5 = has LEFT spec) as EL.
  { change LEFT with (2 ^ 1). rewrite Hhas, unpadded_has by lia. by rewrite andb_false_r, andb_true_r. }
  assert (has ZEROPAD spec5 = has ZEROPAD spec && negb (has LEFT spec)) as EZ.
  { change ZEROPAD with (2 ^ 4). rewrite Hhas, unpadded_has by lia. by rewrite andb_true_r. }
  split_and!; [|exact Ep4|exact Eb4|exact EL|exact EZ].
  cbn [field_width spec5 set_width]. rewrite Ew4, Ep4. apply s16_small. lia.
Qed.

Lemma number_says end_ num spec : spec_ok spec -> 0 <= num < 2 ^ 64 ->
  says end_ (number_text num spec) tt (number end_ num spec).
Proof.
  intros (Hb & Hfl & Hfw & Hpr & Hmin) Hn. pose proof Hpr as Hpr'. pose proof Hfw as Hfw'.
  unfold is_s in Hpr', Hfw'. change (2 ^ (16 - 1)) with 32768 in *.
  unfold number. fold (unpadded spec) (lower_case spec). cbv zeta.
  destruct (front_spec num spec Hb) as (s & spec2 & -> & Es & Hsame & Ew); [lia|].
  set (need := has SPECIAL spec && negb (base spec =? 10)) in *. fold (prefix_spec need (num =? 0) spec2).
  set (spec3 := prefix_spec need (num =? 0) spec2) in *. pose proof (sign_length num spec) as Ls.
  pose proof (prefix_length num spec Hb) as Lp. rewrite length_app, Nat2Z.inj_add in Ew.
  destruct (to_digits_spec (magnitude num spec) spec Hb (magnitude_range num spec Hn)) as (tmp & Ed & L24 & Lt & Erev).
  set (ds := render _ _ _) in *. set (i := Z.of_nat (length ds)) in *.
  destruct (unpadded_same num spec) as (_ & _ & Eb1 & _). pose proof Hsame as (_ & Eb3 & _).
  assert (to_digits (magnitude num spec) (lower_case spec) spec3 = Ok (tmp, i)) as ->
    by (unfold to_digits in *; by rewrite Eb3, Eb1).
  eapply says_bind0; [by apply says_lift|]. cbn beta iota.
  assert (Z.of_nat (length (prefix_text num spec)) <= 2) by (rewrite Lp; repeat case_match; lia).
  assert (-32764 <= field_width spec3 - Z.max (precision spec) i) as Hw3 by lia.
  destruct (widths_spec spec spec3 i Hsame ltac:(lia) ltac:(lia) ltac:(lia) Hpr) as (Efw & Epr & Eb & EL & EZ).
  set (spec5 := set_width _ _) in *.
  pose proof (number_out_says end_ num s spec spec5 i tmp) as Hout. cbv zeta in Hout. rewrite Efw, Epr in Hout.
  specialize (Hout ltac:(lia) ltac:(lia) ltac:(lia) ltac:(lia) Eb EL EZ Es).
  assert (Z.to_nat i = length ds) as Ei by (unfold i; lia). rewrite Ei, Erev in Hout.
  assert (repeat (Z.max (precision spec) i - i) 48 = repeat (precision spec - i) 48) as Erep.
  { destruct (decide (precision spec <= i)); [by rewrite !repeat_nonpos by lia|].
    by replace (Z.max (precision spec) i) with (precision spec) by lia. }
  unfold number_text. fold ds. fold i. rewrite Erep in Hout.
  replace (field_width spec - _ - _) with (field_width spec3 - Z.max (precision spec) i); [exact Hout|].
  rewrite !length_app, !Nat2Z.inj_add, repeat_length. fold i. lia.
Qed.

(** ** Strings and characters *)

Definition justified (spec : printf_spec) (t : list Z) : list Z :=
  let w := field_width spec - Z.of_nat (length t) in
  if has LEFT spec then t ++ repeat w 32 else repeat w 32 ++ t.
(** A string cut at the precision, when there is one. *)
Definition string_text (t : list Z) (spec : printf_spec) : list Z :=
  justified spec (if precision spec <? 0 then t else take (Z.to_nat (precision spec)) t).

Lemma width_loop_says fuel end_ len w : 0 <= len -> -32766 <= w <= 32767 -> (Z.to_nat w + 1 <= fuel)%nat ->
  says end_ (repeat (w - len) 32) (Z.min w len - 1) (width_loop fuel end_ len w).
Proof.
  revert w. induction fuel as [|fuel IH]; intros w Hl Hw Hf; [lia|]. cbn [width_loop]. rewrite s16_small by lia.
  destruct (Z.ltb_spec len w).
  - rewrite repeat_succ by lia. apply (says_bind _ [32]) with (a := tt); [apply says_putc|].
    replace (Z.min w len - 1) with (Z.min (w - 1) len - 1) by lia.
    replace (w - len - 1) with (w - 1 - len) by lia. apply IH; lia.
  - rewrite repeat_nonpos by lia. replace (Z.min w len - 1) with (w - 1) by lia. apply says_ret.
Qed.

Lemma chars_out_says end_ n t r : (n <= length t)%nat -> says end_ (take n t) tt (chars_out n end_ (t ++ r)).
Proof.
  revert t. induction n as [|n IH]; intros t Hn; [rewrite take_0; apply says_ret|].
  destruct t as [|c t]; [cbn in Hn; lia|]. cbn [chars_out app take KString.rd tail].
  eapply says_bind0; [by apply says_lift|]. apply (says_bind _ [c]) with (a := tt); [apply says_putc|]. apply IH. cbn in Hn. lia.
Qed.

Lemma string_says end_ t r s spec : default null_text s = cstr t r -> text t -> Z.of_nat (length t) < 2 ^ 31 ->
  is_s 16 (precision spec) -> -32765 <= field_width spec <= 32767 ->
  says end_ (string_text t spec) tt (string end_ s spec).
Proof.
  intros Es Ht Hlen Hp Hw. unfold is_s in Hp. change (2 ^ (16 - 1)) with 32768 in Hp.
  unfold string, string_text, justified. cbv zeta. rewrite Es. pose proof (u32_range (precision spec)).
  eapply says_bind0; [apply says_lift, strnlen_cstr; [done|lia]|].
  set (u := if precision spec <? 0 then t else take (Z.to_nat (precision spec)) t).
  assert (Z.min (Z.of_nat (length t)) (u32 (precision spec)) = Z.of_nat (length u) /\ u = take (length u) t) as [-> Eu].
  { unfold u. destruct (Z.ltb_spec (precision spec) 0).
    - rewrite u32_neg by lia. rewrite firstn_all. split; [lia|done].
    - rewrite u32_small, length_take by lia. split; [lia|].
      destruct (decide (Z.to_nat (precision spec) <= length t)%nat); [by rewrite Nat.min_l by lia|].
      by rewrite Nat.min_r, !take_ge by lia. }
  assert (length u <= length t)%nat by (rewrite Eu, length_take; lia). rewrite i32_small, Nat2Z.id by lia.
  assert (says end_ u tt (chars_out (length u) end_ (cstr t r))) as Hu by (rewrite Eu at 1; by apply chars_out_says).
  destruct (has LEFT spec); cbn [negb].
  - eapply says_bind0; [apply says_ret|]. eapply says_bind; [exact Hu|].
    rewrite <- (app_nil_r (repeat _ _)). eapply says_bind; [apply width_loop_says; lia|]. apply says_ret.
  - eapply says_bind; [apply width_loop_says; lia|].
    eapply says_eq; [eapply (says_bind end_ u []); [exact Hu|]|apply app_nil_r].
    eapply says_bind0; [|apply says_ret].
    rewrite <- (repeat_nonpos (Z.min (field_width spec) (Z.of_nat (length u)) - 1 - Z.of_nat (length u)) 32) by lia.
    apply width_loop_says; lia.
Qed.

Lemma char_pad_says fuel end_ w : -32766 <= w <= 32767 -> (Z.to_nat w + 1 <= fuel)%nat ->
  says end_ (repeat (w - 1) 32) (Z.min (w - 1) 0) (char_pad fuel end_ w).
Proof.
  revert w. induction fuel as [|fuel IH]; intros w Hw Hf; [lia|]. cbn [char_pad]. rewrite s16_small by lia.
  destruct (Z.ltb_spec 0 (w - 1)).
  - rewrite repeat_succ by lia. apply (says_bind _ [32]) with (a := tt); [apply says_putc|].
    replace (Z.min (w - 1) 0) with (Z.min (w - 1 - 1) 0) by lia. apply IH; lia.
  - rewrite repeat_nonpos by lia. replace (Z.min (w - 1) 0) with (w - 1) by lia. apply says_ret.
Qed.

(** ** Arguments *)

Definition given (args : list arg) (st : out) : out :=
  {| o_buf := o_buf st; o_pos := o_pos st; o_args := args |}.
(** [m] puts out [t], returns [a] and takes the arguments from [args] to [args']. *)
Definition prints {A} (end_ : Z) (t : list Z) (a : A) (args args' : list arg) (m : M out A) : Prop :=
  forall st, room end_ (length t) st -> m (given args st) = Ok (a, given args' (emits end_ t st)).

Lemma emits_given end_ t args st : emits end_ t (given args st) = given args (emits end_ t st).
Proof. unfold emits. revert st. induction t as [|c t IH]; intros st; [done|]. cbn. by rewrite <- IH. Qed.
Lemma says_prints {A} end_ t (a : A) args m : says end_ t a m -> prints end_ t a args args m.
Proof. intros Hm st Hr. rewrite (Hm (given args st)) by exact Hr. by rewrite emits_given. Qed.
Lemma prints_bind {A B} end_ t u (a : A) (b : B) args1 args2 args3 m k :
  prints end_ t a args1 args2 m -> prints end_ u b args2 args3 (k a) -> prints end_ (t ++ u) b args1 args3 (m ≫= k).
Proof.
  intros Hm Hk st Hr. rewrite length_app in Hr. apply emits_room in Hr as [Hr Hr'].
  rewrite (Mbind_run _ _ _ _ _ (Hm st Hr)), emits_app. by apply Hk.
Qed.
Lemma prints_ret {A} end_ (a : A) args : prints end_ [] a args args (mret a).
Proof. by intros st _. Qed.
Lemma prints_eq {A} end_ t u (a : A) args args' m : prints end_ t a args args' m -> t = u -> prints end_ u a args args' m.
Proof. by intros ? <-. Qed.
Lemma prints_va {A} end_ (take : arg -> option A) a v args : take a = Some v ->
  prints end_ [] v (a :: args) args (va_arg take).
Proof. intros E st _. unfold va_arg. cbn. by rewrite E. Qed.
(** What follows an argument, and the [mret] at the end of a token. *)
Lemma prints_arg {A B} end_ (take : arg -> option A) a v args args' t (b : B) k : take a = Some v ->
  prints end_ t b args args' (k v) -> prints end_ t b (a :: args) args' (va_arg take ≫= k).
Proof. intros E Hk. apply (prints_bind end_ []) with (a := v) (args2 := args); [by apply prints_va|done]. Qed.
Lemma prints_then {A B} end_ t (a : A) (b : B) args m : says end_ t a m ->
  prints end_ t b args args (m ≫= fun _ => mret b).
Proof.
  intros Hm. eapply prints_eq; [eapply prints_bind; [by apply says_prints|apply prints_ret]|apply app_nil_r].
Qed.

Lemma format_char_prints {B} end_ c spec args (b : B) : -32765 <= field_width spec <= 32767 ->
  prints end_ (justified spec [u8 c]) b (A_int c :: args) args (format_char end_ spec;; mret b).
Proof.
  intros Hw. unfold format_char. eapply prints_eq; [eapply prints_bind|apply app_nil_r]; [|apply prints_ret].
  unfold justified. change (Z.of_nat (length [u8 c])) with 1. rewrite s16_small by lia. destruct (has LEFT spec); cbn [negb].
  - apply (prints_bind end_ [] ([u8 c] ++ repeat (field_width spec - 1) 32)) with (a := field_width spec) (args2 := A_int c :: args);
      [apply prints_ret|]. eapply prints_arg; [done|]. eapply prints_bind; [apply says_prints, says_putc|].
    eapply prints_then, char_pad_says; [lia|]. rewrite s16_small by lia. lia.
  - eapply prints_bind; [apply says_prints, char_pad_says; [lia|lia]|]. eapply prints_arg; [done|].
    apply (prints_bind end_ [u8 c] []) with (a := tt) (args2 := args); [apply says_prints, says_putc|].
    eapply prints_then. rewrite <- (repeat_nonpos (Z.min (field_width spec - 1) 0 - 1) 32) by lia.
    apply char_pad_says; [lia|]. rewrite s16_small by lia. lia.
Qed.

(** ** Tokens *)

(** The specification a plain pointer is printed with. *)
Definition pointer_width (spec : printf_spec) : Z := 2 * 4 + (if has SPECIAL spec then 2 else 0).
Definition pointer_spec (spec : printf_spec) : printf_spec :=
  let spec' := set_flags (Z.lor (flags spec) SMALL) spec in
  set_base 16 (if field_width spec' =? -1
               then set_flags (Z.lor (flags spec') ZEROPAD) (set_width (pointer_width spec) spec') else spec').
Definition null_spec (spec : printf_spec) : printf_spec :=
  if field_width spec =? -1 then set_width (pointer_width spec) spec else spec.

(** What a token that starts at [old] and ends at [fmt] puts out; the format, the
    specification and the arguments it leaves. *)
Inductive token (old fmt : list Z) (spec : printf_spec) :
    list arg -> list Z -> list Z -> printf_spec -> list arg -> Prop :=
  | T_text args : type spec = FORMAT_TYPE_NONE ->
      token old fmt spec args (take (length old - length fmt) old) fmt spec args
  | T_width v args : type spec = FORMAT_TYPE_WIDTH ->
      token old fmt spec (A_int v :: args) [] fmt (set_width v spec) args
  | T_precision v args : type spec = FORMAT_TYPE_PRECISION ->
      token old fmt spec (A_int v :: args) [] fmt (set_precision v spec) args
  | T_char c args : type spec = FORMAT_TYPE_CHAR -> -32765 <= field_width spec <= 32767 ->
      token old fmt spec (A_int c :: args) (justified spec [u8 c]) fmt spec args
  | T_string s t r args : type spec = FORMAT_TYPE_STR -> default null_text s = cstr t r -> text t ->
      Z.of_nat (length t) < 2 ^ 31 -> is_s 16 (precision spec) -> -32765 <= field_width spec <= 32767 ->
      token old fmt spec (A_str s :: args) (string_text t spec) fmt spec args
  | T_pointer v c s fmt' args : type spec = FORMAT_TYPE_PTR -> fmt = c :: s -> c ∉ pointer_letters ->
      v <> 0 -> spec_ok (pointer_spec spec) -> skip_alnum fmt = Ok fmt' ->
      token old fmt spec (A_ptr v :: args) (number_text (u32 v) (pointer_spec spec)) fmt' spec args
  | T_null c s fmt' args : type spec = FORMAT_TYPE_PTR -> fmt = c :: s -> c <> 75 ->
      is_s 16 (precision spec) -> -32765 <= field_width spec <= 32767 -> skip_alnum fmt = Ok fmt' ->
      token old fmt spec (A_ptr 0 :: args) (string_text [40; 110; 117; 108; 108; 41] (null_spec spec)) fmt' spec args
  | T_percent args : type spec = FORMAT_TYPE_PERCENT_CHAR \/ type spec = FORMAT_TYPE_INVALID ->
      token old fmt spec args [37] fmt spec args
  | T_integer a num args : FORMAT_TYPE_LONG_LONG <= type spec -> int_value spec a = Some num -> spec_ok spec ->
      token old fmt spec (a :: args) (number_text num spec) fmt spec args.

(** What a format puts out with the arguments given. *)
Inductive formats : list Z -> printf_spec -> list arg -> list Z -> Prop :=
  | F_end s spec args : formats (0 :: s) spec args []
  | F_token c s spec args rest spec1 t rest' spec2 args' u :
      c <> 0 -> format_decode (c :: s) spec = Ok (rest, spec1) ->
      token (c :: s) rest spec1 args t rest' spec2 args' ->
      formats rest' spec2 args' u -> formats (c :: s) spec args (t ++ u).

Lemma int_value_range spec a num : int_value spec a = Some num -> 0 <= num < 2 ^ 64.
Proof.
  assert (forall z, 0 <= u64 z < 2 ^ 64) by (intros; apply (wrapu_range 64); lia).
  assert (forall z, 0 <= u32 z < 2 ^ 64) by (intros z; pose proof (u32_range z); lia).
  assert (forall z, 0 <= u8 z < 2 ^ 64) by (intros z; pose proof (u8_range z); lia).
  assert (forall z, 0 <= wrapu 16 z < 2 ^ 64) by (intros z; pose proof (wrapu_range 16 z ltac:(lia)) as Hz; unfold is_u in Hz; lia).
  unfold int_value. intros E. repeat case_match; try discriminate; injection E as <-; auto.
Qed.

Lemma type_eqb spec k t : type spec = k -> (type spec =? t) = (k =? t).
Proof. by intros ->. Qed.

Lemma null_text_says end_ spec : is_s 16 (precision spec) -> -32765 <= field_width spec <= 32767 ->
  says end_ (string_text [40; 110; 117; 108; 108; 41] spec) tt (string end_ (Some null_text) spec).
Proof.
  intros Hp Hw. apply (string_says end_ _ []); [done| |cbn; lia|done|done]. unfold text. by repeat constructor.
Qed.

Lemma token_prints end_ old fmt spec args t fmt' spec' args' : token old fmt spec args t fmt' spec' args' ->
  prints end_ t (fmt', spec') args args' (convert_token old fmt end_ spec).
Proof.
  destruct 1 as [args E|v args E|v args E|c args E Hw|s t r args E Es Ht Hlen Hp Hw
    |v c s fmt' args E Ef Hc Hv Hok Hsk|c s fmt' args E Ef Hc Hp Hw Hsk|args E|a num args E Ev Hok]; unfold convert_token.
  - rewrite !(type_eqb _ _ _ E). cbn [Z.eqb Pos.eqb FORMAT_TYPE_NONE]. apply prints_then with (a := tt).
    apply copy_text_says. lia.
  - rewrite !(type_eqb _ _ _ E). eapply prints_arg; [done|apply prints_ret].
  - rewrite !(type_eqb _ _ _ E). eapply prints_arg; [done|apply prints_ret].
  - rewrite !(type_eqb _ _ _ E). by apply format_char_prints.
  - rewrite !(type_eqb _ _ _ E). eapply prints_arg; [done|]. by apply prints_then with (a := tt), (string_says end_ t r).
  - rewrite !(type_eqb _ _ _ E). eapply prints_arg; [done|]. subst fmt.
    eapply prints_eq; [eapply prints_bind|apply app_nil_r]; [apply says_prints|].
    + unfold pointer. eapply says_bind0; [by apply says_lift|]. rewrite (proj2 (Z.eqb_neq v 0)) by done. cbn [andb].
      rewrite bool_decide_eq_false_2 by done. pose proof (u32_range v). apply number_says; [exact Hok|lia].
    + eapply (prints_bind _ [] []); [apply says_prints, says_lift; exact Hsk|]. apply prints_ret.
  - rewrite !(type_eqb _ _ _ E). eapply prints_arg; [done|]. subst fmt.
    eapply prints_eq; [eapply prints_bind|apply app_nil_r]; [apply says_prints|].
    + unfold pointer. eapply says_bind0; [by apply says_lift|]. cbn [Z.eqb]. rewrite (proj2 (Z.eqb_neq c 75)) by done.
      cbn [andb negb]. fold (pointer_width spec). fold (null_spec spec). apply null_text_says; unfold null_spec;
        destruct (field_width spec =? -1); try done. cbn. unfold pointer_width. destruct (has SPECIAL spec); done.
    + eapply (prints_bind _ [] []); [apply says_prints, says_lift; exact Hsk|]. apply prints_ret.
  - destruct E as [E|E]; rewrite !(type_eqb _ _ _ E); apply prints_then with (a := tt), says_putc.
  - unfold FORMAT_TYPE_LONG_LONG, FORMAT_TYPE_NONE, FORMAT_TYPE_WIDTH, FORMAT_TYPE_PRECISION, FORMAT_TYPE_CHAR,
      FORMAT_TYPE_STR, FORMAT_TYPE_PTR, FORMAT_TYPE_PERCENT_CHAR, FORMAT_TYPE_INVALID in *.
    rewrite !(proj2 (Z.eqb_neq (type spec) _)) by lia.
    eapply prints_arg; [exact Ev|]. apply prints_then with (a := tt), number_says; [done|]. by eapply int_value_range.
Qed.

(** ** How far a token reads *)

Definition starred (spec : printf_spec) : bool :=
  (type spec =? FORMAT_TYPE_WIDTH) || (type spec =? FORMAT_TYPE_PRECISION).
(** What is left is no longer, and shorter when a [*] is met. *)
Definition shrinks (fmt : list Z) (r : res (list Z * printf_spec)) : Prop :=
  forall rest spec, r = Ok (rest, spec) ->
    (length rest <= length fmt)%nat /\ (starred spec = true -> (length rest < length fmt)%nat).

Lemma rd_Ok s c : KString.rd s = Ok c -> s = c :: tail s.
Proof. destruct s; [done|]. by intros [= ->]. Qed.
Lemma shrinks_Ok fmt rest spec : (length rest <= length fmt)%nat -> starred spec = false -> shrinks fmt (Ok (rest, spec)).
Proof. intros Hl Hs r s [= <- <-]. by rewrite Hs. Qed.
Lemma shrinks_star fmt rest spec : (length rest < length fmt)%nat -> shrinks fmt (Ok (rest, spec)).
Proof. intros Hl r s [= <- <-]. split; [lia|done]. Qed.
Lemma shrinks_le fmt fmt' r : (length fmt' <= length fmt)%nat -> shrinks fmt' r -> shrinks fmt r.
Proof. intros Hl Hr rest spec E. destruct (Hr rest spec E) as [H1 H2]. split; [lia|]. intros Hs. specialize (H2 Hs). lia. Qed.
Lemma shrinks_rd fmt s k : (forall c, shrinks fmt (k c)) -> shrinks fmt (KString.rd s ≫= k).
Proof. intros Hk. destruct (KString.rd s); [apply Hk|done]. Qed.
Lemma shrinks_if fmt (b : bool) r r' : shrinks fmt r -> shrinks fmt r' -> shrinks fmt (if b then r else r').
Proof. by destruct b. Qed.

Lemma starred_type k spec : 3 <= k < 256 -> starred (set_type k spec) = false.
Proof.
  intros Hk. unfold starred. cbn. rewrite (wrapu_small 8) by (unfold is_u; lia). unfold FORMAT_TYPE_WIDTH, FORMAT_TYPE_PRECISION.
  by rewrite !(proj2 (Z.eqb_neq k _)) by lia.
Qed.
Lemma land_SIGN z : 0 <= Z.land z SIGN <= 1.
Proof.
  change SIGN with (Z.ones 1). rewrite Z.land_ones by lia. pose proof (Z.mod_pos_bound z (2 ^ 1)). lia.
Qed.
Lemma tail_length {A} (s : list A) : (length (tail s) <= length s)%nat.
Proof. destruct s; cbn; lia. Qed.

Lemma conversion_shrinks fmt spec : shrinks fmt (conversion fmt spec).
Proof.
  unfold conversion. pose proof (tail_length fmt) as Ht. apply shrinks_rd. intros c.
  assert (forall s, shrinks fmt (Ok (tail fmt, by_qualifier s))) as Hint.
  { intros s. pose proof (land_SIGN (flags s)). apply shrinks_Ok; [done|]. unfold by_qualifier. cbv zeta.
    unfold FORMAT_TYPE_ULONG, FORMAT_TYPE_UBYTE, FORMAT_TYPE_USHORT, FORMAT_TYPE_UINT.
    repeat (case_match; [apply starred_type; lia || done|]). apply starred_type. lia. }
  repeat (apply shrinks_if; [first [apply Hint|by apply shrinks_Ok]|]). by apply shrinks_Ok.
Qed.

Lemma at_qualifier_shrinks fmt spec : shrinks fmt (at_qualifier fmt spec).
Proof.
  unfold at_qualifier. pose proof (tail_length fmt). pose proof (tail_length (tail fmt)).
  assert (forall s spec, (length s <= length fmt)%nat -> shrinks fmt (conversion s spec)) as Hc
    by (intros; eapply shrinks_le, conversion_shrinks; lia).
  apply shrinks_rd. intros c. apply shrinks_if; [|by apply Hc]. apply shrinks_rd. intros d.
  repeat apply shrinks_if; apply Hc; lia.
Qed.

Lemma skip_atoi_loop_length s i v rest : skip_atoi_loop s i = Ok (v, rest) -> (length rest < length s)%nat.
Proof.
  revert i. induction s as [|c s IH]; intros i E; [done|]. cbn [skip_atoi_loop] in E. cbn [length].
  destruct (KString.rd s); [|done]. cbn in E. case_match; [specialize (IH _ E)|injection E as _ <-]; lia.
Qed.
Lemma shrinks_atoi fmt s k : (forall v rest, (length rest < length s)%nat -> shrinks fmt (k (v, rest))) ->
  shrinks fmt (skip_atoi s ≫= k).
Proof.
  intros Hk. destruct (skip_atoi s) as [[v rest]|] eqn:E; [|done]. cbn. by apply Hk, (skip_atoi_loop_length s 0 v).
Qed.

Lemma at_precision_shrinks fmt spec : shrinks fmt (at_precision fmt spec).
Proof.
  unfold at_precision. pose proof (tail_length fmt). pose proof (tail_length (tail fmt)).
  assert (forall s spec, (length s <= length fmt)%nat -> shrinks fmt (at_qualifier s spec)) as Hq
    by (intros; eapply shrinks_le, at_qualifier_shrinks; lia).
  destruct fmt as [|c fmt]; [done|]. cbn [KString.rd mbind res_bind tail].
  apply shrinks_if; [|by apply Hq]. apply shrinks_rd. intros d. cbn [tail length] in *. apply shrinks_if.
  - apply shrinks_atoi. intros v rest Hr. apply Hq. lia.
  - apply shrinks_if; [|apply Hq; lia]. apply shrinks_star. cbn [length]. lia.
Qed.

Lemma flags_loop_length fmt spec rest spec' : flags_loop fmt spec = Ok (rest, spec') -> (length rest <= length fmt)%nat.
Proof.
  revert spec. induction fmt as [|c fmt IH]; intros spec E; [done|]. cbn [flags_loop] in E. cbn [length].
  repeat (case_match; [specialize (IH _ E); lia|]). injection E as <- _. cbn. lia.
Qed.
Lemma plain_text_length fmt rest : plain_text fmt = Ok rest -> (length rest <= length fmt)%nat.
Proof.
  induction fmt as [|c fmt IH]; intros E; [done|]. cbn [plain_text] in E. cbn [length].
  case_match; [injection E as <-; cbn; lia|specialize (IH E); lia].
Qed.
Lemma alnum_length fmt rest : skip_alnum fmt = Ok rest -> (length rest <= length fmt)%nat.
Proof.
  induction fmt as [|c fmt IH]; intros E; [done|]. cbn [skip_alnum] in E. cbn [length].
  case_match; [specialize (IH E); lia|injection E as <-; cbn; lia].
Qed.

(** Twice what is left, and one more when a [*] has just been read. *)
Definition left_over (fmt : list Z) (spec : printf_spec) : nat := 2 * length fmt + (if starred spec then 1 else 0).

Lemma shrinks_left_over fmt spec r rest spec' : shrinks fmt r -> starred spec = true -> r = Ok (rest, spec') ->
  (left_over rest spec' < left_over fmt spec)%nat.
Proof.
  intros Hr Es E. destruct (Hr _ _ E) as [H1 H2]. unfold left_over. rewrite Es.
  destruct (starred spec'); [specialize (H2 eq_refl)|]; lia.
Qed.

Lemma decode_left_over c s spec rest spec' : c <> 0 -> format_decode (c :: s) spec = Ok (rest, spec') ->
  (left_over rest spec' < left_over (c :: s) spec)%nat.
Proof.
  intros Hc. unfold format_decode. destruct (type spec =? FORMAT_TYPE_WIDTH) eqn:Ew.
  { eapply shrinks_left_over; [apply at_precision_shrinks|unfold starred; by rewrite Ew]. }
  destruct (type spec =? FORMAT_TYPE_PRECISION) eqn:Ep.
  { eapply shrinks_left_over; [apply at_qualifier_shrinks|unfold starred; by rewrite Ew, Ep]. }
  cbv zeta. destruct (plain_text (c :: s)) as [t|] eqn:Et; [|done]. pose proof (plain_text_length _ _ Et) as Lt.
  cbn [mbind res_bind]. destruct (KString.rd t) as [d|] eqn:Ed; [|done]. apply rd_Ok in Ed. cbn [mbind res_bind].
  unfold left_over. cbn [length] in *. destruct (negb _ || _) eqn:Eb.
  { intros [= <- <-]. change (starred _) with false at 1. apply orb_true_iff in Eb as [Eb|Eb].
    - apply negb_true_iff, Z.eqb_neq in Eb. lia.
    - apply Z.eqb_eq in Eb. subst d. destruct (decide (length t = S (length s))); [|lia].
      cbn [plain_text] in Et. case_match; [injection Et as <-; congruence|].
      apply plain_text_length in Et. lia. }
  destruct (flags_loop _ _) as [[f spec1]|] eqn:Ef; [|done]. apply flags_loop_length in Ef. cbn [mbind res_bind].
  assert (length f < S (length s))%nat as Hf by (rewrite Ed in Lt; cbn [length] in Lt; lia).
  set (spec2 := set_width (-1) spec1). intros E.
  assert (shrinks f (c ← KString.rd f;
      if isdigit c then '(w, fmt) ← skip_atoi f; at_precision fmt (set_width w spec2)
      else if c =? 42 then Ok (tail f, set_type FORMAT_TYPE_WIDTH spec2) else at_precision f spec2)) as Hs.
  { destruct f as [|x f]; [done|]. cbn [KString.rd mbind res_bind tail]. apply shrinks_if.
    - apply shrinks_atoi. intros v u Hu. eapply shrinks_le, at_precision_shrinks. lia.
    - apply shrinks_if; [apply shrinks_star; cbn; lia|apply at_precision_shrinks]. }
  destruct (Hs _ _ E) as [H1 H2]. destruct (starred spec'), (starred spec); lia.
Qed.

Lemma token_left_over old fmt spec args t fmt' spec' args' : token old fmt spec args t fmt' spec' args' ->
  (left_over fmt' spec' <= left_over fmt spec)%nat.
Proof.
  destruct 1; unfold left_over, starred; cbn [type set_width set_precision]; try lia;
    match goal with H : skip_alnum _ = _ |- _ => apply alnum_length in H end; lia.
Qed.

Lemma format_loop_formats fuel end_ fmt spec args t : formats fmt spec args t -> (left_over fmt spec < fuel)%nat ->
  forall st, room end_ (length t) st -> exists args', format_loop fuel end_ fmt spec (given args st) = Ok (tt, given args' (emits end_ t st)).
Proof.
  intros Hf. revert fuel. induction Hf as [s spec args|c s spec args rest spec1 t rest' spec2 args' u Hc Hd Ht Hf IH];
    intros [|fuel] Hfu st Hr; [lia| |lia|].
  - exists args. done.
  - cbn [format_loop]. apply decode_left_over in Hd as Hl; [|done]. pose proof (token_left_over _ _ _ _ _ _ _ _ Ht) as Hl'.
    rewrite length_app in Hr. apply emits_room in Hr as [Hr Hr'].
    destruct (IH fuel ltac:(lia) (emits end_ t st) Hr') as [args3 E]. exists args3.
    rewrite (Mbind_run _ _ _ c (given args st)) by done. rewrite (proj2 (Z.eqb_neq c 0)) by done.
    rewrite (Mbind_run _ _ _ (rest, spec1) (given args st)) by (unfold lift; by rewrite Hd).
    rewrite (Mbind_run _ _ _ _ _ (token_prints _ _ _ _ _ _ _ _ _ Ht st Hr)). by rewrite E, emits_app.
Qed.

(** ** The whole output *)

(** The terminator, after the output of [t]. *)
Lemma terminator b buf size t : 0 <= buf -> 0 < size ->
  buf + Z.min size (Z.of_nat (length t) + 1) <= Z.of_nat (length b) ->
  let str := buf + Z.of_nat (length t) in
  awrite (overlay b buf (take (Z.to_nat size) t)) (if str <? buf + size then str else buf + size - 1) 0 =
    Ok (stored b buf size t).
Proof.
  intros Hb Hs Hl str. unfold stored, str. rewrite (proj2 (Z.leb_gt size 0)) by done.
  assert (Z.of_nat (length (take (Z.to_nat size) t)) = Z.min size (Z.of_nat (length t))) as Lt by (rewrite length_take; lia).
  destruct (Z.ltb_spec (buf + Z.of_nat (length t)) (buf + size)).
  - rewrite !(take_ge t) by lia. rewrite awrite_in by (rewrite overlay_length by lia; lia).
    rewrite insert_overlay by (rewrite overlay_length by lia; lia). by rewrite overlay_app by lia.
  - assert (exists c, take (Z.to_nat size) t = take (Z.to_nat (size - 1)) t ++ [c]) as [c ->].
    { destruct (lookup_lt_is_Some_2 t (Z.to_nat (size - 1))) as [c Hc]; [lia|]. exists c.
      replace (Z.to_nat size) with (S (Z.to_nat (size - 1))) by lia. by apply take_S_r. }
    set (u := take (Z.to_nat (size - 1)) t). assert (Z.of_nat (length u) = size - 1) as Lu by (subst u; rewrite length_take; lia).
    rewrite awrite_in by (rewrite overlay_length by (rewrite ?length_app; cbn [length]; lia); lia).
    f_equal. rewrite <- !(overlay_app _ _ u) by lia. rewrite Lu. replace (buf + size - 1) with (buf + (size - 1)) by lia.
    set (v := overlay b buf u). assert (length v = length b) as Lv by (apply overlay_length; lia).
    rewrite <- !insert_overlay by lia. apply list_insert_insert_eq.
Qed.

(** * Properties *)

(** What is left of the address space above [buf]. *)
Definition capacity (addr buf size : Z) : Z := Z.min size (0xffffffff - (addr + buf)).

Lemma vsnprintf_formats addr b buf size fmt args t :
  0 <= addr -> 0 <= buf -> addr + buf < 2 ^ 32 -> 0 <= size <= INT_MAX -> Z.of_nat (length t) <= INT_MAX ->
  buf + Z.min (capacity addr buf size) (Z.of_nat (length t) + 1) <= Z.of_nat (length b) ->
  formats fmt zero_spec args t ->
  exists st, vsnprintf addr buf size fmt {| o_buf := b; o_pos := buf; o_args := args |} = Ok (Z.of_nat (length t), st) /\
    o_buf st = stored b buf (capacity addr buf size) t.
Proof.
  unfold INT_MAX. intros Ha Hb Hab Hs Ht Hroom Hf. unfold vsnprintf, INT_MAX. rewrite (proj2 (Z.ltb_ge _ _)) by lia.
  assert ((if u32 (addr + buf + size) <? addr + buf then 0xffffffff - (addr + buf) else size) = capacity addr buf size) as ->.
  { unfold capacity, wrapu. destruct (Z.ltb_spec (addr + buf + size) (2 ^ 32)).
    - rewrite Z.mod_small, (proj2 (Z.ltb_ge _ _)) by lia. lia.
    - rewrite <- (Z.mod_unique (addr + buf + size) (2 ^ 32) 1 (addr + buf + size - 2 ^ 32)) by lia.
      rewrite (proj2 (Z.ltb_lt _ _)) by lia. lia. }
  assert (0 <= capacity addr buf size <= size) as Hcap by (unfold capacity; lia). revert Hroom Hcap.
  generalize (capacity addr buf size). intros cap Hroom Hcap. cbv zeta.
  rewrite (Mbind_run _ _ _ tt {| o_buf := b; o_pos := buf; o_args := args |}) by done.
  set (st := {| o_buf := b; o_pos := buf; o_args := args |}).
  assert (room (buf + cap) (length t) st) as Hr by (unfold room; cbn; lia).
  destruct (format_loop_formats (2 * length fmt + 2) (buf + cap) fmt zero_spec args t Hf ltac:(unfold left_over; cbn; lia) st Hr)
    as [args' E]. rewrite (Mbind_run _ _ _ _ _ E).
  pose proof (f_equal o_pos (emits_state (buf + cap) t st Hr)) as Ep.
  pose proof (f_equal o_buf (emits_state (buf + cap) t st Hr)) as Eb. cbn [st o_pos o_buf] in Ep, Eb.
  replace (buf + cap - buf) with cap in Eb by lia.
  rewrite (Mbind_run _ _ _ (buf + Z.of_nat (length t)) (given args' (emits (buf + cap) t st))) by (unfold gets, given; cbn; by rewrite Ep).
  rewrite i32_small by lia. replace (buf + Z.of_nat (length t) - buf) with (Z.of_nat (length t)) by lia.
  destruct (Z.ltb_spec 0 cap).
  - set (st' := given args' (emits (buf + cap) t st)).
    exists {| o_buf := stored b buf cap t; o_pos := o_pos st'; o_args := o_args st' |}. split; [|done].
    rewrite Mbind_unfold, Mbind_gets. change (o_buf st') with (o_buf (emits (buf + cap) t st)).
    rewrite Eb, terminator by lia. done.
  - eexists. split; [done|]. unfold stored. rewrite (proj2 (Z.leb_le cap 0)) by lia. cbn [given o_buf]. rewrite Eb.
    replace (Z.to_nat cap) with 0%nat by lia. by rewrite take_0, overlay_nil.
Qed.

(** For a format whose directives are given arguments of the types they ask for,
    [snprintf] always finishes and returns the length of the whole text, whatever the
    size of the buffer; the buffer receives the part of the text that fits and a
    terminator (nothing for size 0) and no byte outside it is touched.  [scnprintf]
    stores the same and returns the number of characters stored; [sprintf] stores all
    of the text when the address space has the room. *)
Theorem printf_exact addr b buf size fmt args t :
  0 <= addr -> 0 <= buf -> addr + buf < 2 ^ 32 -> 0 <= size <= INT_MAX -> Z.of_nat (length t) <= INT_MAX ->
  let n := Z.of_nat (length t) in
  let cap := capacity addr buf size in
  buf + Z.min cap (n + 1) <= Z.of_nat (length b) ->
  formats fmt zero_spec args t ->
  snprintf addr b buf size fmt args = Ok (n, stored b buf cap t) /\
  scnprintf addr b buf size fmt args = Ok (if n <? size then n else Z.max 0 (size - 1), stored b buf cap t) /\
  length (stored b buf cap t) = length b /\
  (size = INT_MAX -> n < cap -> sprintf addr b buf fmt args = Ok (n, overlay b buf (t ++ [0]))).
Proof.
  intros Ha Hb Hab Hs Ht n cap Hroom Hf.
  destruct (vsnprintf_formats addr b buf size fmt args t Ha Hb Hab Hs Ht Hroom Hf) as (st & E & Est).
  fold n in E. fold cap in Est.
  assert (snprintf addr b buf size fmt args = Ok (n, stored b buf cap t)) as Esn
    by (unfold snprintf, with_args; rewrite E; cbn; by rewrite Est).
  split_and!; [exact Esn| | |].
  - unfold scnprintf, with_args, vscnprintf. rewrite (Mbind_run _ _ _ _ _ E). cbn. rewrite Est. unfold INT_MAX in *.
    rewrite u32_small by lia. destruct (Z.ltb_spec n size); [done|]. destruct (Z.eqb_spec size 0); cbn [negb].
    + by rewrite Z.max_l by lia.
    + by rewrite i32_small, Z.max_r by lia.
  - unfold stored. destruct (Z.leb_spec cap 0); [done|]. apply overlay_length; [done|].
    rewrite length_app, length_take. cbn [length]. lia.
  - intros -> Hn. change (sprintf addr b buf fmt args) with (snprintf addr b buf INT_MAX fmt args). rewrite Esn.
    unfold stored. rewrite (proj2 (Z.leb_gt cap 0)) by lia. by rewrite take_ge by lia.
Qed.

(** "%5d|" of -42 into 6 bytes in the middle of an object: cut to five characters. *)
Lemma printf_exact_witness :
  snprintf 1000 (replicate 8 170) 1 6 [37; 53; 100; 124; 0] [A_int (-42)] = Ok (6, [170; 32; 32; 45; 52; 50; 0; 170]).
Proof.
  refine (proj1 (printf_exact 1000 (replicate 8 170) 1 6 [37; 53; 100; 124; 0] [A_int (-42)] [32; 32; 45; 52; 50; 124] _ _ _ _ _ _ _)); try (unfold INT_MAX; cbn; lia).
  eapply (F_token 37 [53; 100; 124; 0] _ _ [124; 0] _ [32; 32; 45; 52; 50] [124; 0] _ [] [124]); [done|reflexivity| |].
  - change [32; 32; 45; 52; 50] with (number_text (u64 (-42)) {| type := 16; flags := 1; base := 10; qualifier := 255; field_width := 5; precision := -1 |}).
    apply T_integer; [done|reflexivity|]. unfold spec_ok. cbn. split_and!; done || (unfold is_u, is_s; lia) || set_solver.
  - eapply (F_token 124 [0] _ _ [0] _ [124] [0] _ [] []); [done|reflexivity|apply (T_text [124; 0] [0]); done|apply F_end].
Defined.
