(* ===== verification/KPrintf.v ===== *)
(** * Format strings

    The grammar of the formats [format_decode] reads, what each directive prints,
    and that [vsnprintf] prints it: the decoder and the loop of KFormat.v against a
    reference that never looks at a format character by character.  Printing an
    integer and parsing it with lib/kstrtox.c gives the integer back. *)

From S2P Require Import Prelude KString Kstrtox KDecimal KFormat.
Open Scope Z_scope.

(** ** Directives *)

(** A width or a precision: none, a number, or the next argument. *)
Inductive count := Unset | Fixed (n : Z) | Star (v : Z).
(** A directive, with the values the stars take. *)
Record directive := {
  d_flags : list Z;       (* of "-+ #0" *)
  d_width : count;
  d_precision : count;
  d_qualifier : list Z;
  d_conv : Z }.

Definition flag_bit (c : Z) : Z :=
  if c =? 45 then LEFT else if c =? 43 then PLUS else if c =? 32 then SPACE
  else if c =? 35 then SPECIAL else if c =? 48 then ZEROPAD else 0.
Definition flag_chars : list Z := [45; 43; 32; 35; 48].
(** The qualifiers and what is stored for them; 255 stands for none. *)
Definition qualifiers : list (list Z * Z) :=
  [([], 255); ([104], 104); ([104; 104], 72); ([108], 108); ([108; 108], 76); ([76], 76);
   ([122], 122); ([90], 90); ([116], 116)].
(** "o", "x", "X", "d", "i", "u"; "c", "s", "%". *)
Definition integers : list Z := [111; 120; 88; 100; 105; 117].
Definition others : list Z := [99; 115; 37].

Definition count_text (c : count) : list Z :=
  match c with Unset => [] | Fixed n => render false 10 n | Star _ => [42] end.
Definition precision_text (c : count) : list Z := match c with Unset => [] | _ => 46 :: count_text c end.
(** The directive as it is written, after the "%". *)
Definition directive_text (d : directive) : list Z :=
  d_flags d ++ count_text (d_width d) ++ precision_text (d_precision d) ++ d_qualifier d ++ [d_conv d].

(** ** What a directive means *)

Definition is_signed (conv : Z) : bool := (conv =? 100) || (conv =? 105).
Definition base_of (conv : Z) : Z :=
  if conv =? 111 then 8 else if (conv =? 120) || (conv =? 88) then 16 else 10.
(** The bits of the flags: those written, left justification for a negative width,
    lower case for "x" and the sign for "d" and "i". *)
Definition count_flags (c : count) : Z := match c with Star v => if v <? 0 then LEFT else 0 | _ => 0 end.
Definition conv_flags (conv : Z) : Z := if conv =? 120 then SMALL else if is_signed conv then SIGN else 0.
Definition flags_of (fl : list Z) : Z := foldl (fun f c => Z.lor f (flag_bit c)) 0 fl.
Definition width_of (c : count) : Z := match c with Unset => -1 | Fixed n => n | Star v => Z.abs v end.
Definition precision_of (c : count) : Z := match c with Unset => -1 | Fixed n => n | Star v => Z.max 0 v end.
(** The type of an integer by its qualifier. *)
Definition integer_type (q : Z) (signed : bool) : Z :=
  let s := if signed then 1 else 0 in
  if q =? 76 then FORMAT_TYPE_LONG_LONG
  else if q =? 108 then FORMAT_TYPE_ULONG + s
  else if (q =? 122) || (q =? 90) then FORMAT_TYPE_SIZE_T
  else if q =? 116 then FORMAT_TYPE_PTRDIFF
  else if q =? 72 then FORMAT_TYPE_UBYTE + s
  else if q =? 104 then FORMAT_TYPE_USHORT + s
  else FORMAT_TYPE_UINT + s.
Definition type_of (q conv : Z) : Z :=
  if conv =? 99 then FORMAT_TYPE_CHAR else if conv =? 115 then FORMAT_TYPE_STR
  else if conv =? 37 then FORMAT_TYPE_PERCENT_CHAR else integer_type q (is_signed conv).

(** What [conversion] makes of a specification. *)
Definition converted (conv f q w p : Z) : printf_spec :=
  {| type := type_of q conv; flags := Z.lor f (conv_flags conv); base := base_of conv;
     qualifier := q; field_width := w; precision := p |}.

Definition stars (c : count) : list arg := match c with Star v => [A_int v] | _ => [] end.

(** Widths and precisions an [s16] holds. *)
Definition count_ok (least : Z) (c : count) : Prop :=
  match c with Unset => True | Fixed n => least <= n < 32767 | Star v => -32767 < v < 32767 end.
Definition directive_ok (d : directive) (q : Z) : Prop :=
  Forall (fun c => c ∈ flag_chars) (d_flags d) /\ count_ok 1 (d_width d) /\ count_ok 0 (d_precision d) /\
  (d_qualifier d, q) ∈ qualifiers /\ d_conv d ∈ integers ++ others.
Definition directive_spec (d : directive) (q : Z) : printf_spec :=
  converted (d_conv d) (Z.lor (flags_of (d_flags d)) (count_flags (d_width d))) q
    (width_of (d_width d)) (precision_of (d_precision d)).

(** ** Lemmas *)

Abbreviation spec_of t f b q w p :=
  {| type := t; flags := f; base := b; qualifier := q; field_width := w; precision := p |}.

Lemma set_precision_small n t f b q w p : -32768 <= n < 32768 -> set_precision n (spec_of t f b q w p) = spec_of t f b q w n.
Proof. intros Hn. unfold set_precision. by rewrite s16_small. Qed.
Lemma set_width_small n t f b q w p : -32768 <= n < 32768 -> set_width n (spec_of t f b q w p) = spec_of t f b q n p.
Proof. intros Hn. unfold set_width. by rewrite s16_small. Qed.

(** Flags without a sign. *)
Definition unsigned_flags (f : Z) : Prop := is_u 7 f /\ Z.land f SIGN = 0.
Lemma flags_lor f g : unsigned_flags f -> unsigned_flags g -> unsigned_flags (Z.lor f g).
Proof.
  intros [Hf Ef] [Hg Eg]. split; [by apply is_u_lor|]. by rewrite Z.land_lor_distr_l, Ef, Eg.
Qed.
Lemma flag_bit_ok c : unsigned_flags (flag_bit c).
Proof. unfold flag_bit. repeat case_match; by vm_compute. Qed.
Lemma flags_u8 f : is_u 7 f -> u8 f = f.
Proof. intros Hf. apply wrapu_small. unfold is_u in *. lia. Qed.

(** What comes after the flags starts with another character. *)
Lemma flags_loop_spec fl c s f b q w p : Forall (fun c => c ∈ flag_chars) fl -> c ∉ flag_chars -> unsigned_flags f ->
  let f' := foldl (fun f c => Z.lor f (flag_bit c)) f fl in
  flags_loop (fl ++ c :: s) (spec_of 0 f b q w p) = Ok (c :: s, spec_of 0 f' b q w p) /\ unsigned_flags f'.
Proof.
  intros Hfl Hc. unfold flag_chars in *. rewrite !not_elem_of_cons in Hc. revert f. induction Hfl as [|x fl Hx _ IH]; intros f Hf.
  - cbn [app flags_loop foldl]. rewrite !(proj2 (Z.eqb_neq c _)) by lia. done.
  - cbn [app flags_loop foldl]. cbv zeta.
    assert (unsigned_flags (Z.lor f (flag_bit x))) as Hf' by (apply flags_lor; [done|apply flag_bit_ok]).
    assert (u8 (Z.lor f (flag_bit x)) = Z.lor f (flag_bit x)) as E by apply flags_u8, Hf'.
    destruct (IH _ Hf') as [IH' ?]. split; [|done]. rewrite <- IH', <- E.
    rewrite !elem_of_cons in Hx. destruct Hx as [->|[->|[->|[->|[->|[]%elem_of_nil]]]]]; done.
Qed.

Lemma by_qualifier_spec q signed t f b w p : q ∈ (qualifiers.*2) -> Z.land f SIGN = (if signed : bool then 1 else 0) ->
  by_qualifier (spec_of t f b q w p) = spec_of (integer_type q signed) f b q w p.
Proof.
  intros Hq Hs. unfold by_qualifier. cbn [qualifier flags]. cbv zeta. rewrite Hs.
  unfold qualifiers in Hq. cbn [fmap list_fmap snd] in Hq.
  repeat (apply elem_of_cons in Hq as [->|Hq]; [by destruct signed|]). by apply elem_of_nil in Hq.
Qed.

(** [conversion] on each conversion character. *)
Lemma conversion_spec conv s t f b q w p : conv ∈ integers ++ others -> unsigned_flags f -> q ∈ (qualifiers.*2) ->
  conversion (conv :: s) (spec_of t f b q w p) = Ok (s, converted conv f q w p).
Proof.
  intros Hc [Hf Hs] Hq. unfold converted.
  assert (forall g, is_u 7 g -> u8 (Z.lor f g) = Z.lor f g) as Eg by (intros; by apply flags_u8, is_u_lor).
  assert (Z.land (Z.lor f SIGN) SIGN = 1) as L1 by (by rewrite Z.land_lor_distr_l, Hs).
  assert (Z.land (Z.lor f SMALL) SIGN = 0) as L32 by (by rewrite Z.land_lor_distr_l, Hs).
  unfold conversion. cbn [KString.rd mbind res_bind tail]. cbv zeta.
  repeat (apply elem_of_cons in Hc as [->|Hc]; [|try by apply elem_of_nil in Hc]);
    cbn [Z.eqb Pos.eqb orb]; unfold set_base, set_flags; cbn [type flags base qualifier field_width precision];
    rewrite ?Eg by (by vm_compute);
    first [rewrite (by_qualifier_spec q false) by done|rewrite (by_qualifier_spec q true) by done|idtac];
    unfold conv_flags, type_of; cbn [Z.eqb Pos.eqb is_signed orb]; by rewrite ?Z.lor_0_r.
Qed.

(** ** Numbers in a format *)

Lemma decimal_char c : is_digit 10 c = true /\ 48 <= c < 103 -> isdigit c = true /\ 48 <= c <= 57 /\ default 0 (digit c) = c - 48.
Proof.
  intros [Hd Hc]. pose proof (forallb_below 103 (fun c => negb (is_digit 10 c) || (c <? 48) ||
    bool_decide (isdigit c = true /\ 48 <= c <= 57 /\ default 0 (digit c) = c - 48)) c eq_refl ltac:(lia)) as E.
  cbv beta in E. rewrite Hd, (proj2 (Z.ltb_ge c 48)) in E by lia. by apply bool_decide_eq_true in E.
Qed.

Lemma horner_bounds ds i : 0 <= i -> Forall (fun c => is_digit 10 c = true /\ 48 <= c < 103) ds -> i <= horner 10 i ds.
Proof.
  intros Hi Hd. revert i Hi. induction Hd as [|c ds Hc _ IH]; intros i Hi; [done|]. rewrite horner_cons.
  apply decimal_char in Hc as (_ & Hc & ->). specialize (IH (i * 10 + (c - 48)) ltac:(lia)). lia.
Qed.

Lemma skip_atoi_loop_spec ds d i c s : Forall (fun c => is_digit 10 c = true /\ 48 <= c < 103) (d :: ds) ->
  0 <= i -> horner 10 i (d :: ds) < 2 ^ 15 -> isdigit c = false ->
  skip_atoi_loop ((d :: ds) ++ c :: s) i = Ok (horner 10 i (d :: ds), c :: s).
Proof.
  revert d i. induction ds as [|d' ds IH]; intros d i Hd Hi Hh Hc; apply Forall_cons in Hd as [Hd1 Hd];
    rewrite horner_cons in Hh |- *; pose proof Hd1 as (_ & Hr & Ed)%decimal_char; rewrite Ed in *;
    pose proof (horner_bounds _ (i * 10 + (d - 48)) ltac:(lia) Hd) as Hb; cbn [app skip_atoi_loop];
    rewrite (i32_small (i * 10)), (i32_small (i * 10 + d)), (i32_small (i * 10 + d - 48)) by lia; cbn [KString.rd mbind res_bind];
    replace (i * 10 + d - 48) with (i * 10 + (d - 48)) by lia.
  - by rewrite Hc.
  - pose proof Hd as [[Hdig _]%decimal_char _]%Forall_cons. rewrite Hdig. apply IH; done || lia.
Qed.

Lemma skip_atoi_spec n c s : 0 <= n < 2 ^ 15 -> isdigit c = false ->
  skip_atoi (render false 10 n ++ c :: s) = Ok (n, c :: s) /\
  exists d ds, render false 10 n = d :: ds /\ isdigit d = true /\ d <> 0 /\ (0 < n -> d <> 48).
Proof.
  intros Hn Hc. destruct (render_spec false 10 n) as (Hne & _ & Hd & Hv); [lia|lia|].
  assert (exists d ds, render false 10 n = d :: ds /\ (0 < n -> d <> 48)) as (d & ds & E & H48).
  { destruct (decide (0 < n)).
    - destruct (lsd_dec 5 n) as (ds & d & z & E & H48 & _); [lia|lia|]. apply (f_equal (@rev Z)) in E.
      unfold rdigits in E. rewrite rev_involutive, rev_unit in E. by exists d, (rev ds).
    - destruct (render false 10 n) as [|d ds]; [done|]. by exists d, ds. }
  rewrite E in *. split.
  - unfold skip_atoi. rewrite skip_atoi_loop_spec; [by rewrite Hv|done|lia|lia|done].
  - exists d, ds. apply Forall_cons in Hd as [Hd1%decimal_char _]. split_and!; [done|tauto|lia|done].
Qed.

(** ** Stages *)

Lemma at_qualifier_spec ql q conv s t f b q0 w p : (ql, q) ∈ qualifiers -> conv ∈ integers ++ others -> unsigned_flags f ->
  at_qualifier (ql ++ conv :: s) (spec_of t f b q0 w p) = Ok (s, converted conv f q w p).
Proof.
  intros Hq Hc Hf. assert (q ∈ (qualifiers.*2)) as Hq2 by (apply list_elem_of_fmap; by exists (ql, q)).
  rewrite <- (conversion_spec conv s t f b q w p Hc Hf Hq2). clear Hq2 Hf. unfold qualifiers in Hq.
  repeat (apply elem_of_cons in Hc as [->|Hc]; [|try by apply elem_of_nil in Hc]);
    (repeat (apply elem_of_cons in Hq as [[= -> ->]|Hq]; [reflexivity|]); by apply elem_of_nil in Hq).
Qed.

(** A character that can follow the width or the precision. *)
Definition follows (c : Z) : Prop := c <> 0 /\ isdigit c = false /\ (c ∉ flag_chars) /\ c <> 42 /\ c <> 46.
Lemma qualifier_head ql q conv s : (ql, q) ∈ qualifiers -> conv ∈ integers ++ others ->
  exists c u, ql ++ conv :: s = c :: u /\ (conv <> 37 -> c <> 37) /\ follows c.
Proof.
  intros Hq Hc. unfold qualifiers, follows in *.
  repeat (apply elem_of_cons in Hq as [[= -> ->]|Hq]); [..|by apply elem_of_nil in Hq];
    repeat (apply elem_of_cons in Hc as [->|Hc]; [|try by apply elem_of_nil in Hc]);
    eexists _, _; (split; [reflexivity|]); split_and!; try done; by apply (bool_decide_unpack _).
Qed.

(** ** Formats *)

(** The arguments a conversion with the specification [spec] takes and the text it
    prints. *)
Inductive prints_as (spec : printf_spec) : list arg -> list Z -> Prop :=
  | P_integer a num : FORMAT_TYPE_LONG_LONG <= type spec -> int_value spec a = Some num -> spec_ok spec ->
      prints_as spec [a] (number_text num spec)
  | P_char c : type spec = FORMAT_TYPE_CHAR -> -32765 <= field_width spec <= 32767 ->
      prints_as spec [A_int c] (justified spec [u8 c])
  | P_string s t r : type spec = FORMAT_TYPE_STR -> default null_text s = cstr t r -> text t ->
      Z.of_nat (length t) < 2 ^ 31 -> is_s 16 (precision spec) -> -32765 <= field_width spec <= 32767 ->
      prints_as spec [A_str s] (string_text t spec)
  | P_percent : type spec = FORMAT_TYPE_PERCENT_CHAR -> prints_as spec [] [37].

Definition literal (t : list Z) : Prop := Forall (fun c => c <> 0 /\ c <> 37) t.

(** Formats, the arguments they take and the text they stand for: literal text with
    directives in between. *)
Inductive format : list Z -> list arg -> list Z -> Prop :=
  | G_end t r : literal t -> format (t ++ 0 :: r) [] t
  | G_directive t d q a u rest args v : literal t -> directive_ok d q -> prints_as (directive_spec d q) a u ->
      format rest args v ->
      format (t ++ 37 :: directive_text d ++ rest)
        (stars (d_width d) ++ stars (d_precision d) ++ a ++ args) (t ++ u ++ v).

Lemma converted_type conv f q w p : conv ∈ integers ++ others -> q ∈ (qualifiers.*2) -> starred (converted conv f q w p) = false.
Proof.
  intros Hc Hq. unfold qualifiers in Hq. cbn [fmap list_fmap snd] in Hq.
  repeat (apply elem_of_cons in Hc as [->|Hc]; [|try by apply elem_of_nil in Hc]);
    (repeat (apply elem_of_cons in Hq as [->|Hq]; [reflexivity|]); by apply elem_of_nil in Hq).
Qed.

Lemma formats_conversion c0 s0 spec0 rest spec a u args v : c0 <> 0 ->
  format_decode (c0 :: s0) spec0 = Ok (rest, spec) -> prints_as spec a u -> formats rest spec args v ->
  formats (c0 :: s0) spec0 (a ++ args) (u ++ v).
Proof.
  intros Hc Hd Hp Hf. eapply F_token; [done|exact Hd| |exact Hf].
  destruct Hp as [a num|c|s t r|]; cbn [app]; [by apply T_integer|by apply T_char|by eapply T_string|by apply T_percent; left].
Qed.

Section Directive.
  (** What follows the precision, and what is printed from there on. *)
  Context (ql : list Z) (q conv : Z) (rest : list Z) (a args : list arg) (u v : list Z).
  Context (Hq : (ql, q) ∈ qualifiers) (Hc : conv ∈ integers ++ others).

Definition done_as (f w p : Z) : Prop :=
  prints_as (converted conv f q w p) a u /\ formats rest (converted conv f q w p) args v.

Lemma formats_qualifier c0 s0 spec0 t f b q0 w p : c0 <> 0 -> unsigned_flags f -> done_as f w p ->
  format_decode (c0 :: s0) spec0 = at_qualifier (ql ++ conv :: rest) (spec_of t f b q0 w p) ->
  formats (c0 :: s0) spec0 (a ++ args) (u ++ v).
Proof using Hq Hc.
  intros H0 Hf [Hp Hr] Hd. rewrite (at_qualifier_spec ql q) in Hd by done. by eapply formats_conversion.
Qed.

Lemma formats_precision pr c0 s0 spec0 f b q0 w p : c0 <> 0 -> unsigned_flags f -> count_ok 0 pr ->
  done_as f w (precision_of pr) ->
  format_decode (c0 :: s0) spec0 = at_precision (precision_text pr ++ ql ++ conv :: rest) (spec_of 0 f b q0 w p) ->
  formats (c0 :: s0) spec0 (stars pr ++ a ++ args) (u ++ v).
Proof using Hq Hc.
  intros H0 Hf Hpr Hdone Hd. destruct (qualifier_head ql q conv rest Hq Hc) as (c & s & E & _ & Hc0 & Hcd & _ & Hc42 & Hc46).
  assert (forall f b q0 w p', -32768 <= p' < 32768 -> (if precision (spec_of 0 f b q0 w p') <? 0
    then set_precision 0 (spec_of 0 f b q0 w p') else spec_of 0 f b q0 w p') = spec_of 0 f b q0 w (Z.max 0 p')) as Hmax.
  { intros f' b' q' w' p' Hp'. cbn [precision]. destruct (Z.ltb_spec p' 0); [rewrite set_precision_small by lia|];
      f_equal; lia. }
  destruct pr as [|n|x]; cbn [stars app precision_text count_text precision_of count_ok] in *.
  - eapply (formats_qualifier c0 s0 spec0 0 f b q0 w (-1)); [done..|]. rewrite Hd, E. unfold at_precision. cbn [KString.rd mbind res_bind].
    rewrite (proj2 (Z.eqb_neq c 46)) by done. by rewrite set_precision_small by lia.
  - eapply (formats_qualifier c0 s0 spec0 0 f b q0 w n); [assumption..|]. rewrite Hd.
    destruct (skip_atoi_spec n c s) as (Es & d & ds & Er & Ed & _); [lia|done|].
    unfold at_precision. cbn [KString.rd mbind res_bind]. change (46 =? 46) with true. cbv iota. rewrite E.
    assert (KString.rd (tail (46 :: render false 10 n ++ c :: s)) = Ok d) as -> by (by rewrite Er).
    cbn [mbind res_bind tail]. rewrite Ed, Es. cbn [mbind res_bind]. rewrite !set_precision_small by lia.
    rewrite Hmax by lia. by rewrite Z.max_r by lia.
  - assert (at_precision (46 :: 42 :: ql ++ conv :: rest) (spec_of 0 f b q0 w p) =
      Ok (ql ++ conv :: rest, spec_of FORMAT_TYPE_PRECISION f b q0 w (-1))) as Ep by done. rewrite Ep in Hd.
    change (A_int x :: a ++ args) with ([A_int x] ++ a ++ args). rewrite <- (app_nil_l (u ++ v)).
    eapply F_token; [assumption|exact Hd|by apply T_precision|]. rewrite set_precision_small by lia. rewrite E.
    apply (formats_qualifier c s _ 0 f b q0 w (Z.max 0 x)); [assumption..|]. rewrite <- Hmax by lia.
    unfold format_decode. cbn [type precision Z.eqb Pos.eqb FORMAT_TYPE_WIDTH FORMAT_TYPE_PRECISION]. rewrite E. by destruct (x <? 0).
Qed.

(** The width, from the specification the flags leave. *)
Definition after_flags (fmt : list Z) (spec : printf_spec) : res (list Z * printf_spec) :=
  let spec := set_width (-1) spec in
  c ← KString.rd fmt;
  if isdigit c then '(w, fmt) ← skip_atoi fmt; at_precision fmt (set_width w spec)
  else if c =? 42 then Ok (tail fmt, set_type FORMAT_TYPE_WIDTH spec)
  else at_precision fmt spec.

Lemma precision_head pr : exists c s, precision_text pr ++ ql ++ conv :: rest = c :: s /\ c <> 0 /\ isdigit c = false /\
  (c ∉ flag_chars) /\ c <> 42.
Proof using Hq Hc.
  destruct (qualifier_head ql q conv rest Hq Hc) as (c & s & E & _ & Hc0 & Hcd & Hcf & Hc42 & _).
  destruct pr; cbn [precision_text app]; [rewrite E; by eexists _, _|..]; eexists _, _; (split; [reflexivity|]);
    split_and!; try done; by apply (bool_decide_unpack _).
Qed.

Lemma formats_width wd pr spec0 f b q0 w p fl : unsigned_flags f -> count_ok 1 wd -> count_ok 0 pr ->
  done_as (Z.lor f (count_flags wd)) (width_of wd) (precision_of pr) ->
  format_decode (37 :: fl ++ count_text wd ++ precision_text pr ++ ql ++ conv :: rest) spec0 =
    after_flags (count_text wd ++ precision_text pr ++ ql ++ conv :: rest) (spec_of 0 f b q0 w p) ->
  formats (37 :: fl ++ count_text wd ++ precision_text pr ++ ql ++ conv :: rest) spec0
    (stars wd ++ stars pr ++ a ++ args) (u ++ v).
Proof using Hq Hc.
  intros Hf Hwd Hpr Hdone Hd. destruct (precision_head pr) as (c & s & E & Hc0 & Hcd & _ & Hc42).
  destruct wd as [|n|x]; cbn [stars app count_text width_of count_ok count_flags] in *.
  - rewrite Z.lor_0_r in Hdone. eapply (formats_precision pr _ _ _ f b q0 (-1) p); [done..|]. rewrite Hd, E. unfold after_flags.
    cbn [KString.rd mbind res_bind]. rewrite Hcd, (proj2 (Z.eqb_neq c 42)) by done. by rewrite set_width_small by lia.
  - rewrite Z.lor_0_r in Hdone. eapply (formats_precision pr _ _ _ f b q0 n p); [assumption || done..|]. rewrite Hd, E.
    destruct (skip_atoi_spec n c s) as (Es & d & ds & Er & Ed & _); [lia|done|]. unfold after_flags.
    assert (KString.rd (render false 10 n ++ c :: s) = Ok d) as -> by (by rewrite Er). cbn [mbind res_bind].
    rewrite Ed, Es. cbn [mbind res_bind]. by rewrite !set_width_small by lia.
  - assert (after_flags (42 :: precision_text pr ++ ql ++ conv :: rest) (spec_of 0 f b q0 w p) =
      Ok (precision_text pr ++ ql ++ conv :: rest, spec_of FORMAT_TYPE_WIDTH f b q0 (-1) p)) as Ep by done. rewrite Ep in Hd.
    change (A_int x :: stars pr ++ a ++ args) with ([A_int x] ++ stars pr ++ a ++ args). rewrite <- (app_nil_l (u ++ v)).
    eapply F_token; [done|exact Hd|by apply T_width|]. rewrite set_width_small by lia. rewrite E.
    assert (unsigned_flags (Z.lor f (if x <? 0 then LEFT else 0))) as Hf'
      by (apply flags_lor; [done|by destruct (x <? 0)]).
    apply (formats_precision pr c s _ (Z.lor f (if x <? 0 then LEFT else 0)) b q0 (Z.abs x) p); [done..|]. rewrite E.
    unfold format_decode. cbn [type field_width Z.eqb Pos.eqb FORMAT_TYPE_WIDTH].
    destruct (Z.ltb_spec x 0).
    + rewrite set_width_small by lia. unfold set_type, set_flags. cbn [flags type base qualifier field_width precision].
      rewrite (flags_u8 (Z.lor f LEFT)) by apply Hf'. by replace (- x) with (Z.abs x) by lia.
    + rewrite Z.lor_0_r. by replace x with (Z.abs x) at 1 by lia.
Qed.

End Directive.

Lemma plain_text_spec t c s : literal t -> c = 0 \/ c = 37 -> plain_text (t ++ c :: s) = Ok (c :: s).
Proof.
  intros Ht Hc. induction Ht as [|x t [H0 H37] _ IH]; cbn [app plain_text].
  - by destruct Hc as [-> | ->].
  - by rewrite !(proj2 (Z.eqb_neq x _)) by done.
Qed.

Lemma formats_literal t c s spec args v : literal t -> c = 0 \/ c = 37 -> starred spec = false ->
  (forall spec, starred spec = false -> formats (c :: s) spec args v) -> formats (t ++ c :: s) spec args (t ++ v).
Proof.
  intros Ht Hc Hs Hf. destruct t as [|x t]; [by apply Hf|]. pose proof Ht as [[Hx _] _]%Forall_cons.
  apply orb_false_iff in Hs as [Hw Hp].
  apply (F_token x (t ++ c :: s) spec args (c :: s) (set_type FORMAT_TYPE_NONE spec) (x :: t) (c :: s) (set_type FORMAT_TYPE_NONE spec) args v);
    [done| |replace (x :: t) with (take (length (x :: t ++ c :: s) - length (c :: s)) (x :: t ++ c :: s)); [by apply T_text|]|by apply Hf].
  - unfold format_decode. rewrite Hw, Hp. cbv zeta. pose proof (plain_text_spec (x :: t) c s Ht Hc) as Ep. cbn [app] in Ep. rewrite Ep. cbn [mbind res_bind KString.rd].
    rewrite (proj2 (Z.eqb_neq (Z.of_nat (length (c :: s))) _)) by (cbn [length app]; rewrite length_app; cbn [length]; lia). done.
  - cbn [length]. rewrite length_app. cbn [length]. replace (_ - _)%nat with (length (x :: t)) by (cbn [length]; lia).
    apply (take_app_length (x :: t)).
Qed.

Lemma decode_flags fl c s spec : starred spec = false -> Forall (fun c => c ∈ flag_chars) fl -> c ∉ flag_chars ->
  format_decode (37 :: fl ++ c :: s) spec =
    after_flags (c :: s) (spec_of 0 (flags_of fl) (base spec) (qualifier spec) (field_width spec) (precision spec)) /\
  unsigned_flags (flags_of fl).
Proof.
  intros [Hw Hp]%orb_false_iff Hfl Hc.
  destruct (flags_loop_spec fl c s 0 (base spec) (qualifier spec) (field_width spec) (precision spec) Hfl Hc) as [E Hf];
    [by vm_compute|]. split; [|done].
  unfold format_decode. rewrite Hw, Hp. cbv zeta. cbn [plain_text Z.eqb Pos.eqb orb mbind res_bind KString.rd tail].
  rewrite Z.eqb_refl. change (negb true || false) with false. cbv iota.
  change (set_flags 0 (set_type FORMAT_TYPE_NONE spec)) with
    (spec_of 0 0 (base spec) (qualifier spec) (field_width spec) (precision spec)). rewrite E. done.
Qed.

Lemma digit_no_flag d : isdigit d = true -> d <> 48 -> d ∉ flag_chars.
Proof.
  intros Hd H48. unfold flag_chars.
  intros Hin. repeat (apply elem_of_cons in Hin as [->|Hin]; [done|]). by apply elem_of_nil in Hin.
Qed.

Lemma directive_head d q rest : directive_ok d q -> exists c s,
  count_text (d_width d) ++ precision_text (d_precision d) ++ d_qualifier d ++ d_conv d :: rest = c :: s /\ (c ∉ flag_chars).
Proof.
  intros (_ & Hw & _ & Hq & Hc). destruct (precision_head _ _ _ rest Hq Hc (d_precision d)) as (c & s & E & _ & Hcd & Hcf & _).
  rewrite E. destruct (d_width d) as [|n|x]; cbn [count_text app count_ok] in *; [by eexists _, _| |].
  - destruct (skip_atoi_spec n c s) as (_ & x & ds & Er & Hd & _ & H48); [lia|done|]. rewrite Er. cbn [app].
    eexists _, _. split; [done|]. apply digit_no_flag; [done|]. apply H48. lia.
  - eexists _, _. split; [done|]. by apply (bool_decide_unpack _).
Qed.

Lemma format_formats fmt args t : format fmt args t -> forall spec, starred spec = false -> formats fmt spec args t.
Proof.
  induction 1 as [t r Ht|t d q a u rest args v Ht Hd Hp _ IH]; intros spec Hs.
  - rewrite <- (app_nil_r t) at 2. apply formats_literal; [done|by left|done|]. intros. apply F_end.
  - apply formats_literal; [done|by right|done|]. clear spec Hs. intros spec Hs.
    pose proof Hd as (Hfl & Hw & Hpr & Hq & Hc). destruct (directive_head d q rest Hd) as (c & s & E & Hcf).
    unfold directive_text. rewrite <- !app_assoc. cbn [app].
    destruct (decode_flags (d_flags d) c s spec Hs Hfl Hcf) as [Ed Hf]. rewrite <- E in Ed.
    eapply formats_width; [exact Hq|exact Hc|exact Hf|exact Hw|exact Hpr| |exact Ed].
    split; [exact Hp|]. apply IH, converted_type; [done|]. apply list_elem_of_fmap. by exists (d_qualifier d, q).
Qed.

(** ** Numbers printed and parsed *)

(** "%", a qualifier and a conversion: no flags, width or precision. *)
Definition plain (ql : list Z) (conv : Z) : directive :=
  {| d_flags := []; d_width := Unset; d_precision := Unset; d_qualifier := ql; d_conv := conv |}.

Lemma plain_spec ql q conv : conv ∈ integers -> (ql, q) ∈ qualifiers ->
  spec_ok (directive_spec (plain ql conv) q) /\ FORMAT_TYPE_LONG_LONG <= type (directive_spec (plain ql conv) q) /\
  has SPECIAL (directive_spec (plain ql conv) q) = false /\ has SIGN (directive_spec (plain ql conv) q) = is_signed conv /\
  (is_signed conv = true -> has PLUS (directive_spec (plain ql conv) q) = false /\ has SPACE (directive_spec (plain ql conv) q) = false).
Proof.
  intros Hc Hq. unfold qualifiers in Hq.
  repeat (apply elem_of_cons in Hc as [->|Hc]; [|try by apply elem_of_nil in Hc]);
    (repeat (apply elem_of_cons in Hq as [[= _ ->]|Hq]; [|try by apply elem_of_nil in Hq]));
    (split; [unfold spec_ok; split_and!; [by apply (bool_decide_unpack _)|by vm_compute..]|by vm_compute]).
Qed.

(** The text of an integer with a plain directive. *)
Definition plain_text_of (conv num : Z) : list Z :=
  (if is_signed conv && (i64 num <? 0) then [45] else []) ++
  render (negb (conv =? 120)) (base_of conv) (if is_signed conv && (i64 num <? 0) then u64 (- i64 num) else num).

Lemma plain_number ql q conv num : conv ∈ integers -> (ql, q) ∈ qualifiers ->
  number_text num (directive_spec (plain ql conv) q) = plain_text_of conv num.
Proof.
  intros Hc Hq. destruct (plain_spec ql q conv Hc Hq) as (_ & _ & Hsp & Hsg & Hpl).
  unfold number_text, plain_text_of, prefix_text, sign_text, magnitude. rewrite Hsp, Hsg. cbn [andb].
  cbn [directive_spec converted plain base field_width precision width_of precision_of d_conv d_width d_precision].
  assert (has SMALL (directive_spec (plain ql conv) q) = (conv =? 120)) as Esm.
  { unfold integers in Hc. repeat (apply elem_of_cons in Hc as [->|Hc]; [by vm_compute|]). by apply elem_of_nil in Hc. }
  assert (has LEFT (directive_spec (plain ql conv) q) = false /\ has ZEROPAD (directive_spec (plain ql conv) q) = false) as [El Ez].
  { unfold integers in Hc. repeat (apply elem_of_cons in Hc as [->|Hc]; [by vm_compute|]). by apply elem_of_nil in Hc. }
  change (converted _ _ _ _ _) with (directive_spec (plain ql conv) q). rewrite Esm, El, Ez.
  rewrite !repeat_nonpos by lia. cbn [app]. rewrite app_nil_r.
  destruct (is_signed conv); cbn [andb]; [|done]. destruct (Hpl eq_refl) as [-> ->]. by destruct (i64 num <? 0).
Qed.

Lemma base_of_range conv : 2 <= base_of conv <= 16.
Proof. unfold base_of. repeat case_match; lia. Qed.

(** Every parser of [kstrto*] on a printed number. *)
Lemma parse_unsigned w f conv num r : (w, f) ∈ unsigned_parsers -> 0 <= num < 2 ^ 64 -> is_signed conv = false ->
  f (cstr (plain_text_of conv num) r) (base_of conv) = Ok (within (is_u w) (0, Some num)).
Proof.
  intros Hf Hn Hs. unfold plain_text_of. rewrite Hs. cbn [andb app]. pose proof (base_of_range conv) as Hb.
  destruct (render_bytes (negb (conv =? 120)) (base_of conv) num [] Hb Hn ltac:(by left)) as (Hby & Hl & c & Hh & Hc).
  pose proof (convert_any_render (negb (conv =? 120)) (base_of conv) num [] Hb Hn ltac:(by left)) as Econv.
  rewrite app_nil_r in Hby, Hl, Hh, Econv.
  rewrite (unsigned_parsers_spec w f) by (done || lia). by rewrite (unsign_other _ _ c), Econv by (done || lia).
Qed.

Lemma parse_signed w f conv num r : (w, f) ∈ signed_parsers -> 0 <= num < 2 ^ 64 -> is_signed conv = true ->
  f (cstr (plain_text_of conv num) r) 10 = Ok (within (is_s w) (0, Some (i64 num))).
Proof.
  intros Hf Hn Hs. unfold plain_text_of. rewrite Hs. cbn [andb].
  assert (base_of conv = 10) as ->.
  { unfold is_signed in Hs. apply orb_true_iff in Hs as [->%Z.eqb_eq | ->%Z.eqb_eq]; done. }
  pose proof (wraps_range 64 num ltac:(lia)) as Hr. unfold is_s in Hr.
  set (mag := if i64 num <? 0 then u64 (- i64 num) else num).
  assert (mag = Z.abs (i64 num) /\ 0 <= mag < 2 ^ 64) as [Em Hm].
  { unfold mag. destruct (Z.ltb_spec (i64 num) 0).
    - rewrite (wrapu_small 64) by (unfold is_u; lia). lia.
    - rewrite Z.abs_eq by lia. split; [|lia]. destruct (decide (num < 2 ^ 63)).
      + by rewrite wraps_small by (lia || unfold is_s; lia).
      + unfold wraps in *. rewrite <- (Z.mod_unique (num + 2 ^ (64 - 1)) (2 ^ 64) 1 (num - 2 ^ 63)) in * by lia. lia. }
  destruct (render_bytes (negb (conv =? 120)) 10 mag [] ltac:(lia) Hm ltac:(by left)) as (Hby & Hl & c & Hh & Hc).
  pose proof (convert_any_render (negb (conv =? 120)) 10 mag [] ltac:(lia) Hm ltac:(by left)) as Econv.
  rewrite app_nil_r in Hby, Hl, Hh, Econv. set (ds := render _ 10 mag) in *. unfold mag in Econv, Em.
  destruct (Z.ltb_spec (i64 num) 0); cbn [app].
  - change (45 :: ds ++ 0 :: r) with (cstr (45 :: ds) r).
    rewrite (signed_parsers_spec w f); [|done|lia|by apply Forall_cons|cbn [length]; lia].
    unfold convert_signed. rewrite decide_True by done. cbn [tail]. rewrite Econv, decide_True by lia.
    by replace (- u64 (- i64 num)) with (i64 num) by lia.
  - rewrite (signed_parsers_spec w f); [|done|lia|done|lia].
    unfold convert_signed. rewrite decide_False by (rewrite Hh; intros [=]; lia).
    rewrite (unsign_other _ _ c), Econv, decide_True by (done || lia). by replace num with (i64 num) at 1 by lia.
Qed.

Lemma plain_of_length conv num : 0 <= num < 2 ^ 64 -> (length (plain_text_of conv num) <= 66)%nat.
Proof.
  intros Hn. unfold plain_text_of. rewrite length_app.
  assert (0 <= (if is_signed conv && (i64 num <? 0) then u64 (- i64 num) else num) < 2 ^ 64) as Hm
    by (destruct (_ && _); [apply (wrapu_range 64); lia|done]).
  destruct (render_spec (negb (conv =? 120)) (base_of conv) _ (base_of_range conv) Hm) as (_ & Hl & _).
  destruct (_ && _); cbn [length]; lia.
Qed.

(** The text [snprintf] prints into 16 bytes. *)
Definition printed (fmt : list Z) (args : list arg) : option (Z * list Z) :=
  match snprintf 0 (replicate 16 0) 0 16 fmt args with
  | Ok (n, b) => Some (n, take (Z.to_nat n) b)
  | Fault _ => None
  end.

(** * Properties *)



(** C20: Parsing what was printed gives the number back: after "%", any qualifier and
    any integer conversion, [snprintf] into a buffer with room leaves text that every
    conversion of kstrtox.c of the same signedness, told the same radix, reads as the
    value printed when its type holds it, and answers with -ERANGE when it does not. *)
Theorem print_parse_roundtrip addr b buf size ql q conv a num :
  conv ∈ integers -> (ql, q) ∈ qualifiers -> int_value (directive_spec (plain ql conv) q) a = Some num ->
  0 <= addr -> 0 <= buf -> 67 <= size <= INT_MAX -> addr + buf + size < 2 ^ 32 -> buf + size <= Z.of_nat (length b) ->
  exists n b', snprintf addr b buf size (37 :: ql ++ [conv; 0]) [a] = Ok (n, b') /\
    (is_signed conv = false -> forall w f, (w, f) ∈ unsigned_parsers ->
       f (drop (Z.to_nat buf) b') (base_of conv) = Ok (if decide (is_u w num) then (0, Some num) else (- ERANGE, None))) /\
    (is_signed conv = true -> forall w f, (w, f) ∈ signed_parsers ->
       f (drop (Z.to_nat buf) b') 10 = Ok (if decide (is_s w (i64 num)) then (0, Some (i64 num)) else (- ERANGE, None))).
Proof.
  intros Hc Hq Ha Had Hb Hs Hfit Hl. pose proof (int_value_range _ _ _ Ha) as Hn.
  set (t := plain_text_of conv num). pose proof (plain_of_length conv num Hn) as Lt. fold t in Lt.
  assert (format (37 :: ql ++ [conv; 0]) [a] t) as Hf.
  { assert (format ([] ++ 37 :: directive_text (plain ql conv) ++ [0]) (stars Unset ++ stars Unset ++ [a] ++ [])
      ([] ++ number_text num (directive_spec (plain ql conv) q) ++ [])) as Hf.
    { assert (conv ∈ integers ++ others) as Hin by (apply elem_of_app; by left).
      destruct (plain_spec ql q conv Hc Hq) as (Hok & Hty & _). apply (G_directive [] (plain ql conv) q); [constructor| | |].
      - unfold directive_ok. cbn. split_and!; [constructor|done|done|done|exact Hin].
      - by apply P_integer.
      - apply (G_end [] []). constructor. }
    rewrite (plain_number ql q conv num Hc Hq), (app_nil_r (plain_text_of conv num)) in Hf. unfold directive_text in Hf. cbn in Hf.
    by rewrite <- app_assoc in Hf. }
  assert (capacity addr buf size = size) as Ecap by (unfold capacity; lia).
  unfold INT_MAX in *. destruct (vsnprintf_formats addr b buf size (37 :: ql ++ [conv; 0]) [a] t) as (st & E & Est);
    [lia|lia|lia|unfold INT_MAX; lia|unfold INT_MAX; lia|rewrite Ecap; lia|by apply format_formats|].
  exists (Z.of_nat (length t)), (o_buf st). split; [unfold snprintf, with_args; by rewrite E|].
  rewrite Est, Ecap. unfold stored. rewrite (proj2 (Z.leb_gt size 0)), (take_ge t) by lia. unfold overlay.
  rewrite drop_app_length' by (rewrite length_take; lia). rewrite <- app_assoc. cbn [app].
  split; intros Es w f Hf'; [exact (parse_unsigned w f conv num _ Hf' Hn Es)|exact (parse_signed w f conv num _ Hf' Hn Es)].
Qed.

Lemma print_parse_roundtrip_witness :
  exists n b', snprintf 0 (replicate 70 0) 1 68 [37; 108; 108; 100; 0] [A_llong (-5)] = Ok (n, b') /\
    kstrtoll (drop 1 b') 10 = Ok (0, Some (-5)).
Proof.
  destruct (print_parse_roundtrip 0 (replicate 70 0) 1 68 [108; 108] 76 100 (A_llong (-5)) (u64 (-5))) as (n & b' & E & _ & H);
    try (unfold INT_MAX; cbn; lia); try reflexivity.
  - by apply (bool_decide_unpack _).
  - by apply (bool_decide_unpack _).
  - exists n, b'. split; [exact E|]. apply (H eq_refl 64). by left.
Defined.

(** ** Where the code departs from C99 and from its comments *)

(** "%n" is printed, and no argument is skipped for it: "%n%u" of 7 is "%n7". *)
Theorem percent_n_printed : printed [37; 110; 37; 117; 0] [A_int 7] = Some (3, [37; 110; 55]).
Proof. by vm_compute. Qed.

(** C99 takes a negative precision argument as if it were omitted; here "%.*s" of -1
    and "abc" is empty. *)
Theorem negative_precision_is_zero :
  printed [37; 46; 42; 115; 0] [A_int (-1); A_str (Some [97; 98; 99; 0])] = Some (0, []).
Proof. by vm_compute. Qed.

(** C99 takes a "." alone as the precision 0 and prints no digits for 0 with the
    precision 0; here "%.s" of "abc" is "abc" and "%.0d" of 0 is "0". *)
Theorem zero_precision :
  printed [37; 46; 115; 0] [A_str (Some [97; 98; 99; 0])] = Some (3, [97; 98; 99]) /\
  printed [37; 46; 48; 100; 0] [A_int 0] = Some (1, [48]).
Proof. split; by vm_compute. Qed.
