(* ===== verification/KHex.v ===== *)
(** * lib/hexdump.c: hexadecimal text

    [hex_to_bin], [hex2bin], [bin2hex] and [hex_dump_to_buffer], which prints through
    [snprintf] of KFormat.v.  [print_hex_dump], which only logs lines, is not modelled. *)

From S2P Require Import Prelude KString Kstrtox KDecimal KFormat KPrintf.
Open Scope Z_scope.

(** ** Digits *)

Definition hex_asc : list Z := [48; 49; 50; 51; 52; 53; 54; 55; 56; 57; 97; 98; 99; 100; 101; 102; 0].

Definition hex_to_bin (ch : Z) : Z :=
  if (48 <=? ch) && (ch <=? 57) then ch - 48
  else
    let ch := tolower ch in
    if (97 <=? ch) && (ch <=? 102) then ch - 97 + 10 else -1.

(** [dst] is written from [i] on; what is returned is the result and the object. *)
Fixpoint hex2bin_loop (count : nat) (dst : list Z) (i : Z) (src : list Z) : res (Z * list Z) :=
  match count with
  | O => Ok (0, dst)
  | S count' =>
      c ← rd src;
      let hi := hex_to_bin c in
      c ← rd (tail src);
      let lo := hex_to_bin c in
      if (hi <? 0) || (lo <? 0) then Ok (-1, dst)
      else
        dst ← awrite dst i (u8 (Z.lor (Z.shiftl hi 4) lo));
        hex2bin_loop count' dst (i + 1) (tail (tail src))
  end.
Definition hex2bin (dst src : list Z) (count : Z) : res (Z * list Z) := hex2bin_loop (Z.to_nat count) dst 0 src.

Definition hex_asc_lo (x : Z) : res Z := aread hex_asc (Z.land x 0x0f).
Definition hex_asc_hi (x : Z) : res Z := aread hex_asc (Z.shiftr (Z.land x 0xf0) 4).
Definition hex_byte_pack (dst : list Z) (i byte : Z) : res (list Z * Z) :=
  h ← hex_asc_hi byte;
  dst ← awrite dst i h;
  l ← hex_asc_lo byte;
  dst ← awrite dst (i + 1) l;
  Ok (dst, i + 2).

Fixpoint bin2hex_loop (count : nat) (dst : list Z) (i : Z) (src : list Z) : res (list Z * Z) :=
  match count with
  | O => Ok (dst, i)
  | S count' =>
      c ← rd src;
      '(dst, i) ← hex_byte_pack dst i c;
      bin2hex_loop count' dst i (tail src)
  end.
(** The object and the offset of the pointer returned. *)
Definition bin2hex (dst src : list Z) (count : Z) : res (list Z * Z) := bin2hex_loop (Z.to_nat count) dst 0 src.

(** ** [hex_dump_to_buffer] *)

Definition isascii (c : Z) : bool := u8 c <=? 0x7f.
Definition isprint (c : Z) : bool :=
  negb (Z.land (__ismask c) (Z.lor _P (Z.lor _U (Z.lor _L (Z.lor _D _SP)))) =? 0).
Definition is_power_of_2 (n : Z) : bool := negb (n =? 0) && (Z.land n (u32 (n - 1)) =? 0).

(** Where a part of the function goes on: below, at [overflow1] or at [overflow2]; the
    line buffer and [lx]. *)
Inductive dump := Next (linebuf : list Z) (lx : Z) | Overflow1 (linebuf : list Z) | Overflow2 (linebuf : list Z) (lx : Z).

Section dump.
Context (addr linebuflen : Z).   (* the address of linebuf *)

(** "%s%16.16llx", "%s%8.8x" and "%s%4.4x". *)
Definition group_format (groupsize : Z) : list Z :=
  if groupsize =? 8 then [37; 115; 37; 49; 54; 46; 49; 54; 108; 108; 120; 0]
  else if groupsize =? 4 then [37; 115; 37; 56; 46; 56; 120; 0] else [37; 115; 37; 52; 46; 52; 120; 0].
Definition group_arg (groupsize v : Z) : arg := if groupsize =? 8 then A_llong v else A_int v.

(** The three loops over groups; [ptr] is [buf] advanced by [j] groups. *)
Fixpoint groups_loop (n : nat) (groupsize j : Z) (ptr linebuf : list Z) (lx : Z) : res dump :=
  match n with
  | O => Ok (Next linebuf lx)
  | S n' =>
      v ← load_le (Z.to_nat groupsize) ptr;
      '(ret, linebuf) ← snprintf addr linebuf lx (linebuflen -u lx)%cint (group_format groupsize)
                          [A_str (Some (if j =? 0 then [0] else [32; 0])); group_arg groupsize v];
      if (linebuflen -u lx)%cint <=? u32 ret then Ok (Overflow1 linebuf)
      else groups_loop n' groupsize (j + 1) (drop (Z.to_nat groupsize) ptr) linebuf (lx +i ret)%cint
  end.

(** Single bytes. *)
Fixpoint bytes_loop (n : nat) (ptr linebuf : list Z) (lx : Z) : res dump :=
  match n with
  | O => Ok (Next linebuf lx)
  | S n' =>
      if linebuflen <? u32 (lx + 3) then Ok (Overflow2 linebuf lx)
      else
        ch ← rd ptr;
        h ← hex_asc_hi ch; linebuf ← awrite linebuf lx h;
        l ← hex_asc_lo ch; linebuf ← awrite linebuf (lx + 1) l;
        linebuf ← awrite linebuf (lx + 2) 32;
        bytes_loop n' (tail ptr) linebuf (lx + 3)
  end.

(** [while (lx < ascii_column)]; [n] more columns. *)
Fixpoint columns_loop (n : nat) (linebuf : list Z) (lx : Z) : res dump :=
  match n with
  | O => Ok (Next linebuf lx)
  | S n' =>
      if linebuflen <? u32 (lx + 2) then Ok (Overflow2 linebuf lx)
      else linebuf ← awrite linebuf lx 32; columns_loop n' linebuf (lx + 1)
  end.
Fixpoint ascii_loop (n : nat) (ptr linebuf : list Z) (lx : Z) : res dump :=
  match n with
  | O => Ok (Next linebuf lx)
  | S n' =>
      if linebuflen <? u32 (lx + 2) then Ok (Overflow2 linebuf lx)
      else
        ch ← rd ptr;
        linebuf ← awrite linebuf lx (if isascii ch && isprint ch then ch else 46);
        ascii_loop n' (tail ptr) linebuf (lx + 1)
  end.

(** One part after another, up to the first overflow. *)
Definition and_then (d : res dump) (k : list Z -> Z -> res dump) : res dump :=
  r ← d; match r with Next linebuf lx => k linebuf lx | r => Ok r end.

Definition hex_dump_to_buffer (buf : list Z) (len rowsize groupsize : Z) (linebuf : list Z) (ascii : bool) :
    res (Z * list Z) :=
  let rowsize := if negb (rowsize =? 16) && negb (rowsize =? 32) then 16 else rowsize in
  let len := if rowsize <? len then rowsize else len in
  let groupsize := if negb (is_power_of_2 (u32 groupsize)) || (8 <? groupsize) then 1 else groupsize in
  let groupsize := if negb (len mod u32 groupsize =? 0) then 1 else groupsize in
  let ngroups := len / u32 groupsize in
  let ascii_column := (rowsize *i 2 +i Z.quot rowsize groupsize +i 1)%cint in
  let full := i32 (if ascii then ascii_column + len else (groupsize *i 2 +i 1) *i ngroups -i 1)%cint in
  if linebuflen =? 0 then Ok (full, linebuf)
  else
    d ← (if len =? 0 then Ok (Next linebuf 0)
         else
           and_then
             (if (groupsize =? 8) || (groupsize =? 4) || (groupsize =? 2)
              then groups_loop (Z.to_nat ngroups) groupsize 0 buf linebuf 0
              else and_then (bytes_loop (Z.to_nat len) buf linebuf 0)
                     (fun linebuf lx => Ok (Next linebuf (lx - 1))))
             (fun linebuf lx =>
                if negb ascii then Ok (Next linebuf lx)
                else and_then (columns_loop (Z.to_nat (ascii_column - lx)) linebuf lx)
                       (fun linebuf lx => ascii_loop (Z.to_nat len) buf linebuf lx)));
    match d with
    | Next linebuf lx => linebuf ← awrite linebuf lx 0; Ok (lx, linebuf)
    | Overflow1 linebuf => Ok (full, linebuf)
    | Overflow2 linebuf lx => linebuf ← awrite linebuf lx 0; Ok (full, linebuf)
    end.
End dump.

Example dump_runs :
  hex_dump_to_buffer 0 20 [64; 65; 0; 255] 4 16 1 (replicate 20 170) false =
    Ok (11, [52; 48; 32; 52; 49; 32; 48; 48; 32; 102; 102; 0; 170; 170; 170; 170; 170; 170; 170; 170]) /\
  hex_dump_to_buffer 0 20 [64; 65; 0; 255] 4 16 4 (replicate 20 170) false =
    Ok (8, [102; 102; 48; 48; 52; 49; 52; 48; 0; 170; 170; 170; 170; 170; 170; 170; 170; 170; 170; 170]) /\
  hex_dump_to_buffer 0 6 [64; 65; 0; 255] 4 16 2 (replicate 6 170) false =
    Ok (9, [52; 49; 52; 48; 32; 0]) /\
  hex_dump_to_buffer 0 6 [64; 65; 0; 255] 4 16 1 (replicate 6 170) false = Fault OutOfBounds.
Proof. by vm_compute. Qed.

(** * Specification *)

(** The two digits of a byte, and the bytes that pairs of digits stand for: those
    before the first pair that is not one, and whether all [n] pairs are. *)
Definition hex2 (b : Z) : list Z := [digit_char false (b / 16); digit_char false (b mod 16)].
Fixpoint decode (n : nat) (t : list Z) : list Z * bool :=
  match n, t with
  | O, _ => ([], true)
  | S n', h :: l :: t' =>
      match digit h, digit l with
      | Some h, Some l => let '(bs, ok) := decode n' t' in (16 * h + l :: bs, ok)
      | _, _ => ([], false)
      end
  | _, _ => ([], false)
  end.

(** A dump line: groups of [g] bytes, each the number in little-endian order. *)
Fixpoint groups_text (first : bool) (g n : nat) (data : list Z) : list Z :=
  match n with
  | O => []
  | S n' => (if first then [] else [32]) ++ flat_map hex2 (rev (take g data)) ++ groups_text false g n' (drop g data)
  end.
Definition shown (c : Z) : Z := if isascii c && isprint c then c else 46.
Definition row_of (rowsize : Z) : Z := if bool_decide (rowsize = 16 \/ rowsize = 32) then rowsize else 16.
Definition group_of (groupsize len : Z) : Z :=
  if bool_decide (groupsize ∈ [2; 4; 8] /\ len mod groupsize = 0) then groupsize else 1.
Definition column_of (row g : Z) : Z := row * 2 + row / g + 1.
(** The line for [data], which is not longer than the row. *)
Definition dump_line (row g : Z) (ascii : bool) (data : list Z) : list Z :=
  let hex := groups_text true (Z.to_nat g) (length data / Z.to_nat g) data in
  if ascii then hex ++ repeat (column_of row g - Z.of_nat (length hex)) 32 ++ map shown data else hex.

(** * Lemmas *)

Lemma overlay_cons b i c t : 0 <= i -> i + Z.of_nat (S (length t)) <= Z.of_nat (length b) ->
  overlay (<[Z.to_nat i := c]> b) (i + 1) t = overlay b i (c :: t).
Proof. intros Hi Hl. rewrite insert_overlay by lia. by apply (overlay_app b i [c] t); cbn; lia. Qed.

(** ** Digits *)

Lemma hex_to_bin_spec c : 0 <= c < 256 -> hex_to_bin c = default (-1) (digit c).
Proof.
  intros Hc. pose proof (forallb_below 256 (fun c => hex_to_bin c =? default (-1) (digit c)) c eq_refl Hc) as E.
  by apply Z.eqb_eq in E.
Qed.

Lemma hex_byte_spec b : 0 <= b < 256 ->
  hex_asc_hi b = Ok (digit_char false (b / 16)) /\ hex_asc_lo b = Ok (digit_char false (b mod 16)) /\
  digit (digit_char false (b / 16)) = Some (b / 16) /\ digit (digit_char false (b mod 16)) = Some (b mod 16).
Proof.
  intros Hb. pose proof (forallb_below 256 (fun b =>
    match hex_asc_hi b, hex_asc_lo b with
    | Ok h, Ok l => (h =? digit_char false (b / 16)) && (l =? digit_char false (b mod 16))
    | _, _ => false
    end && bool_decide (digit (digit_char false (b / 16)) = Some (b / 16))
    && bool_decide (digit (digit_char false (b mod 16)) = Some (b mod 16))) b eq_refl Hb) as E.
  cbv beta in E. apply andb_true_iff in E as [[E E1%bool_decide_eq_true]%andb_true_iff E2%bool_decide_eq_true].
  destruct (hex_asc_hi b), (hex_asc_lo b); try done. by apply andb_true_iff in E as [->%Z.eqb_eq ->%Z.eqb_eq].
Qed.

Lemma nibbles h l : 0 <= h < 16 -> 0 <= l < 16 -> u8 (Z.lor (Z.shiftl h 4) l) = 16 * h + l.
Proof.
  intros Hh Hl. pose proof (forallb_below 16 (fun h => forallb (fun l => u8 (Z.lor (Z.shiftl h 4) l) =? 16 * h + l) (seqZ 0 16)) h
    eq_refl Hh) as E. cbv beta in E. rewrite forallb_forall in E. apply Z.eqb_eq, E, list_elem_of_In, elem_of_seqZ. lia.
Qed.

Lemma hex2bin_loop_spec n dst i t : bytes t -> (2 * n <= length t)%nat -> 0 <= i -> i + Z.of_nat n <= Z.of_nat (length dst) ->
  hex2bin_loop n dst i t = Ok (if (decode n t).2 then 0 else -1, overlay dst i (decode n t).1).
Proof.
  revert dst i t. induction n as [|n IH]; intros dst i t Ht Hn Hi Hd; [by rewrite overlay_nil|].
  destruct t as [|h [|l t]]; cbn [length] in Hn; [lia|lia|].
  apply Forall_cons in Ht as [Hh Ht]. apply Forall_cons in Ht as [Hl Ht].
  cbn [hex2bin_loop rd mbind res_bind tail decode]. rewrite !hex_to_bin_spec by lia.
  pose proof (digit_range h) as Rh. pose proof (digit_range l) as Rl.
  destruct (digit h) as [vh|]; [|by rewrite overlay_nil]. specialize (Rh vh ltac:(lia) eq_refl). cbn [default].
  destruct (digit l) as [vl|]; unfold id; [|rewrite orb_true_r; by rewrite overlay_nil]. specialize (Rl vl ltac:(lia) eq_refl). cbn [default].
  unfold id. rewrite !(proj2 (Z.ltb_ge _ 0)) by lia. cbn [orb]. rewrite nibbles, awrite_in by lia. cbn [mbind res_bind].
  rewrite IH by (rewrite ?length_insert; done || lia). destruct (decode n t) as [bs ok] eqn:E. cbn [fst snd].
  rewrite overlay_cons; [done|lia|].
  assert (length bs <= n)%nat; [|lia]. clear -E. revert t bs ok E. induction n as [|n IH]; intros t bs ok E.
  { injection E as <- <-. cbn. lia. }
  cbn [decode] in E. destruct t as [|h [|l t]]; try (injection E as <- <-; cbn; lia).
  destruct (digit h), (digit l); try (injection E as <- <-; cbn; lia).
  destruct (decode n t) as [bs' ok'] eqn:E'. injection E as <- <-. specialize (IH _ _ _ E'). cbn. lia.
Qed.

Lemma bin2hex_loop_spec src dst i r : octets src -> 0 <= i -> i + 2 * Z.of_nat (length src) <= Z.of_nat (length dst) ->
  bin2hex_loop (length src) dst i (src ++ r) = Ok (overlay dst i (flat_map hex2 src), i + 2 * Z.of_nat (length src)).
Proof.
  intros Hs. revert dst i. induction Hs as [|b src Hb _ IH]; intros dst i Hi Hl.
  { cbn. rewrite overlay_nil. do 2 f_equal. lia. }
  cbn [length] in Hl. cbn [bin2hex_loop length app rd mbind res_bind tail]. unfold hex_byte_pack.
  destruct (hex_byte_spec b Hb) as (-> & -> & _). cbn [mbind res_bind].
  rewrite awrite_in by lia. cbn [mbind res_bind]. rewrite awrite_in by (rewrite length_insert; lia). cbn [mbind res_bind].
  rewrite IH by (rewrite ?length_insert; lia). replace (i + 2) with (i + 1 + 1) by lia.
  assert (length (flat_map hex2 src) = 2 * length src)%nat as Lf
    by (clear; induction src; cbn; [done|rewrite IHsrc; lia]).
  rewrite !overlay_cons by (rewrite ?length_insert; cbn [length]; lia). f_equal. f_equal. lia.
Qed.

Lemma hex2_length src : length (flat_map hex2 src) = (2 * length src)%nat.
Proof. induction src; cbn; [done|rewrite IHsrc; lia]. Qed.

Lemma digit_tolower c : 0 <= c < 256 -> digit (tolower c) = digit c.
Proof.
  intros Hc. pose proof (forallb_below 256 (fun c => bool_decide (digit (tolower c) = digit c)) c eq_refl Hc) as E.
  by apply bool_decide_eq_true in E.
Qed.

Lemma decode_hex2 src t : octets src -> bytes t -> Forall2 (fun a b => tolower a = b) t (flat_map hex2 src) ->
  decode (length src) t = (src, true).
Proof.
  intros Hs. revert t. induction Hs as [|b src Hb _ IH]; intros t Ht H2; [done|]. cbn [flat_map hex2 app] in H2.
  apply Forall2_cons_inv_r in H2 as (h & t1 & Eh & H2 & ->). apply Forall2_cons_inv_r in H2 as (l & t2 & El & H2 & ->).
  apply Forall_cons in Ht as [Hh Ht]. apply Forall_cons in Ht as [Hl Ht].
  destruct (hex_byte_spec b Hb) as (_ & _ & D1 & D2). cbn [length decode].
  rewrite <- Eh, digit_tolower in D1 by lia. rewrite <- El, digit_tolower in D2 by lia. rewrite D1, D2, (IH t2 Ht H2).
  do 2 f_equal. pose proof (Z.div_mod b 16). lia.
Qed.

(** ** Fixed-width numbers *)

Fixpoint fixed (n : nat) (v : Z) : list Z :=
  match n with O => [] | S n' => fixed n' (v / 16) ++ [digit_char false (v mod 16)] end.

Lemma fixed_zero n : fixed n 0 = replicate n 48.
Proof. induction n as [|n IH]; [done|]. cbn [fixed]. change (0 / 16) with 0. rewrite IH. by rewrite <- replicate_S_end. Qed.

Lemma render_fixed n v : 0 <= v < 2 ^ 64 -> v < 16 ^ Z.of_nat (S n) ->
  (length (render false 16 v) <= S n)%nat /\
  replicate (S n - length (render false 16 v)) 48 ++ render false 16 v = fixed (S n) v.
Proof.
  intros Hv. revert v Hv. induction n as [|n IH]; intros v Hv Hn.
  all: assert (render false 16 v = rev (rdigits false 16 v)) as -> by (unfold rdigits; by rewrite rev_involutive).
  - rewrite rdigits_small by lia. cbn [rev app length fixed Nat.sub replicate]. by rewrite Z.mod_small by lia.
  - destruct (Z.ltb_spec v 16).
    + rewrite rdigits_small by lia. cbn [rev app length]. split; [lia|]. change (fixed (S (S n)) v) with (fixed (S n) (v / 16) ++ [digit_char false (v mod 16)]).
      rewrite Z.div_small, Z.mod_small, fixed_zero by lia. done.
    + rewrite rdigits_step by lia. cbn [rev]. rewrite length_app. cbn [length].
      assert (0 <= v / 16 < 2 ^ 64) as Hq by dlia.
      assert (v / 16 < 16 ^ Z.of_nat (S n)) as Hq' by (rewrite Nat2Z.inj_succ, Z.pow_succ_r in Hn by lia; apply Z.div_lt_upper_bound; lia).
      destruct (IH (v / 16) Hq Hq') as [Hl E].
      assert (render false 16 (v / 16) = rev (rdigits false 16 (v / 16))) as Er by (unfold rdigits; by rewrite rev_involutive).
      rewrite Er in Hl, E. split; [lia|].
      change (fixed (S (S n)) v) with (fixed (S n) (v / 16) ++ [digit_char false (v mod 16)]). rewrite <- E, app_assoc.
      do 2 f_equal. f_equal. lia.
Qed.

Lemma fixed_bytes p : octets p -> fixed (2 * length p) (le_value p) = flat_map hex2 (rev p).
Proof.
  induction 1 as [|b p Hb _ IH]; [done|]. cbn [length rev le_value]. rewrite flat_map_app, <- IH.
  replace (2 * S (length p))%nat with (S (S (2 * length p))) by lia. cbn [fixed]. rewrite <- app_assoc.
  assert ((b + 256 * le_value p) / 16 / 16 = le_value p /\ (b + 256 * le_value p) / 16 mod 16 = b / 16 /\
    (b + 256 * le_value p) mod 16 = b mod 16) as (-> & -> & ->) by (split_and!; dlia). done.
Qed.

Lemma le_value_range p : octets p -> 0 <= le_value p < 256 ^ Z.of_nat (length p).
Proof.
  induction 1 as [|b p Hb _ IH]; [done|]. cbn [length le_value]. rewrite Nat2Z.inj_succ, Z.pow_succ_r by lia. lia.
Qed.

(** ** A group printed *)

Definition text_directive : directive :=
  {| d_flags := []; d_width := Unset; d_precision := Unset; d_qualifier := []; d_conv := 115 |}.
Definition hex_directive (g : Z) : directive :=
  {| d_flags := []; d_width := Fixed (2 * g); d_precision := Fixed (2 * g);
     d_qualifier := if g =? 8 then [108; 108] else []; d_conv := 120 |}.
Definition hex_q (g : Z) : Z := if g =? 8 then 76 else 255.

Lemma hex_number g p : g ∈ [2; 4; 8] -> octets p -> length p = Z.to_nat g ->
  number_text (le_value p) (directive_spec (hex_directive g) (hex_q g)) = flat_map hex2 (rev p).
Proof.
  intros Hg Hp Hl. pose proof (le_value_range p Hp) as Hr. rewrite Hl in Hr.
  assert (exists n, (2 * length p = S n)%nat /\ 2 * g = Z.of_nat (S n) /\ 256 ^ Z.of_nat (Z.to_nat g) = 16 ^ Z.of_nat (S n) /\
    256 ^ Z.of_nat (Z.to_nat g) <= 2 ^ 64) as (n & En & Eg & Ep & E64).
  { rewrite !elem_of_cons in Hg. destruct Hg as [->|[->|[->|[]%elem_of_nil]]]; [exists 3%nat|exists 7%nat|exists 15%nat];
      rewrite Hl; split_and!; by vm_compute. }
  rewrite <- fixed_bytes, En by done. rewrite Ep in *.
  destruct (render_fixed n (le_value p)) as [Lr <-]; [lia|lia|].
  unfold number_text, sign_text, magnitude, prefix_text.
  assert (forall k, 0 <= k < 8 -> k <> 5 -> has (2 ^ k) (directive_spec (hex_directive g) (hex_q g)) = false) as Hf.
  { intros k Hk H5. rewrite has_testbit by lia. cbn [directive_spec converted flags hex_directive d_flags d_width d_conv count_flags].
    change (Z.lor _ _) with (2 ^ 5). rewrite testbit_pow2 by lia. by apply bool_decide_eq_false_2. }
  change SIGN with (2 ^ 0). change SPECIAL with (2 ^ 6). change LEFT with (2 ^ 1). change ZEROPAD with (2 ^ 4).
  rewrite !Hf by lia. cbn [andb app length].
  assert (negb (has SMALL (directive_spec (hex_directive g) (hex_q g))) = false) as -> by (unfold has; done).
  cbn [directive_spec converted base field_width precision hex_directive d_conv d_width d_precision width_of precision_of base_of].
  change (base_of 120) with 16. rewrite Eg. set (ds := render false 16 (le_value p)) in *.
  pose proof (repeat_length (Z.of_nat (S n) - Z.of_nat (length ds)) 48) as Lz.
  rewrite (repeat_nonpos (_ - Z.of_nat (length (_ ++ _)))) by (rewrite length_app, Nat2Z.inj_add; lia). cbn [app].
  unfold repeat. do 2 f_equal. lia.
Qed.

Lemma hex_value g p : g ∈ [2; 4; 8] -> octets p -> length p = Z.to_nat g ->
  int_value (directive_spec (hex_directive g) (hex_q g)) (group_arg g (le_value p)) = Some (le_value p).
Proof.
  intros Hg Hp Hl. pose proof (le_value_range p Hp) as Hr. rewrite Hl in Hr.
  rewrite !elem_of_cons in Hg. destruct Hg as [->|[->|[->|[]%elem_of_nil]]].
  - change (Some (u32 (le_value p)) = Some (le_value p)). change (256 ^ _) with (2 ^ 16) in Hr. by rewrite u32_small by lia.
  - change (Some (u32 (le_value p)) = Some (le_value p)). change (256 ^ _) with (2 ^ 32) in Hr. by rewrite u32_small by lia.
  - change (Some (u64 (le_value p)) = Some (le_value p)). change (256 ^ _) with (2 ^ 64) in Hr.
    by rewrite (wrapu_small 64) by (unfold is_u; lia).
Qed.

Lemma group_formats g p first : g ∈ [2; 4; 8] -> octets p -> length p = Z.to_nat g ->
  formats (group_format g) zero_spec [A_str (Some (if first : bool then [0] else [32; 0])); group_arg g (le_value p)]
    ((if first then [] else [32]) ++ flat_map hex2 (rev p)).
Proof.
  intros Hg Hp Hl. apply format_formats; [|done]. set (sep := if first then [] else [32]).
  assert (group_format g = [] ++ 37 :: directive_text text_directive ++ [] ++ 37 :: directive_text (hex_directive g) ++ [] ++ [0]) as ->.
  { rewrite !elem_of_cons in Hg. destruct Hg as [->|[->|[->|[]%elem_of_nil]]]; reflexivity. }
  assert ((if first then [0] else [32; 0]) = cstr sep []) as -> by by destruct first.
  rewrite <- (app_nil_l (sep ++ _)).
  apply (G_directive [] text_directive 255 [A_str (Some (cstr sep []))] sep _ [group_arg g (le_value p)]); [constructor| | |].
  - unfold directive_ok. split_and!; by apply (bool_decide_unpack _).
  - assert (sep = string_text sep (directive_spec text_directive 255)) as Es by (by destruct first). rewrite Es at 2.
    apply (P_string _ _ _ []); try done. { unfold sep, text. destruct first; by repeat constructor. } by destruct first.
  - rewrite <- (app_nil_r (flat_map hex2 (rev p))), <- (app_nil_l (flat_map _ _ ++ _)).
    apply (G_directive [] (hex_directive g) (hex_q g) [group_arg g (le_value p)] _ [0] [] []); [constructor| | |].
    + rewrite !elem_of_cons in Hg. destruct Hg as [->|[->|[->|[]%elem_of_nil]]]; unfold directive_ok; split_and!; by apply (bool_decide_unpack _).
    + rewrite <- (hex_number g p) by done. apply P_integer; [| |].
      * rewrite !elem_of_cons in Hg. destruct Hg as [->|[->|[->|[]%elem_of_nil]]]; by vm_compute.
      * by apply hex_value.
      * rewrite !elem_of_cons in Hg. destruct Hg as [->|[->|[->|[]%elem_of_nil]]]; unfold spec_ok; split_and!; by apply (bool_decide_unpack _).
    + apply (G_end [] []). constructor.
Qed.

(** ** The line buffer *)

Lemma overlay_over b p s w : 0 <= p -> (length s <= length w)%nat -> p + Z.of_nat (length w) <= Z.of_nat (length b) ->
  overlay (overlay b p s) p w = overlay b p w.
Proof.
  intros Hp Hs Hw. unfold overlay. rewrite take_app_length' by (rewrite length_take; lia). do 2 f_equal.
  rewrite app_assoc, drop_app_ge by (rewrite length_app, length_take; lia). rewrite drop_drop, length_app, length_take.
  f_equal. lia.
Qed.

(** [u] has been written at [p], and at most one more byte. *)
Definition written (b : list Z) (p : Z) (u b' : list Z) : Prop :=
  exists s, (length s <= 1)%nat /\ b' = overlay b p (u ++ s) /\ p + Z.of_nat (length (u ++ s)) <= Z.of_nat (length b).

Lemma written_length b p u b' : 0 <= p -> written b p u b' -> length b' = length b.
Proof. intros Hp (s & _ & -> & Hl). by apply overlay_length. Qed.
Lemma written_refl b p u : p + Z.of_nat (length u) <= Z.of_nat (length b) -> written b p u (overlay b p u).
Proof. intros Hl. exists []. rewrite app_nil_r. split_and!; [cbn; lia|done|done]. Qed.
Lemma written_overlay b p u b' w : 0 <= p -> written b p u b' -> w <> [] ->
  p + Z.of_nat (length u) + Z.of_nat (length w) <= Z.of_nat (length b) -> overlay b' (p + Z.of_nat (length u)) w = overlay b p (u ++ w).
Proof.
  intros Hp (s & Hs & -> & Hl) Hw Hf. rewrite length_app in Hl. rewrite <- !overlay_app by (cbn [length] in *; lia).
  apply overlay_over; [lia| |rewrite overlay_length by lia; lia]. destruct w; [done|cbn; lia].
Qed.
Lemma written_app b p u b1 w b' : 0 <= p -> written b p u b1 -> written b1 (p + Z.of_nat (length u)) w b' -> written b p (u ++ w) b'.
Proof.
  intros Hp H1 (s & Hs & -> & Hl). rewrite (written_length b p u b1) in Hl by done.
  destruct (decide (w ++ s = [])) as [E|E].
  - apply app_eq_nil in E as [-> ->]. cbn [app]. rewrite overlay_nil. by rewrite app_nil_r.
  - exists s. rewrite <- app_assoc, length_app. split_and!; [done| |lia]. apply written_overlay; try done; lia.
Qed.

Section lines.
Context (addr L : Z) (Haddr : 0 <= addr) (HL : 0 < L <= INT_MAX) (Hend : addr + L < 2 ^ 32).

Lemma group_snprintf b lx g p first : g ∈ [2; 4; 8] -> octets p -> length p = Z.to_nat g ->
  0 <= lx < L -> L <= Z.of_nat (length b) ->
  let t := (if first : bool then [] else [32]) ++ flat_map hex2 (rev p) in
  snprintf addr b lx (L - lx) (group_format g) [A_str (Some (if first then [0] else [32; 0])); group_arg g (le_value p)] =
    Ok (Z.of_nat (length t), overlay b lx (take (Z.to_nat (L - lx - 1)) t ++ [0])).
Proof using Haddr HL Hend.
  intros Hg Hp Hl Hlx Hb t. unfold INT_MAX in HL.
  assert (length t <= 17)%nat as Lt.
  { unfold t. rewrite length_app, hex2_length, length_rev, Hl. rewrite !elem_of_cons in Hg.
    destruct Hg as [->|[->|[->|[]%elem_of_nil]]], first; cbn; lia. }
  assert (capacity addr lx (L - lx) = L - lx) as Ecap by (unfold capacity; lia).
  destruct (vsnprintf_formats addr b lx (L - lx) (group_format g)
    [A_str (Some (if first then [0] else [32; 0])); group_arg g (le_value p)] t) as (st & E & Est);
    [lia|lia|lia|unfold INT_MAX; lia|unfold INT_MAX; lia|rewrite Ecap; lia|by apply group_formats|].
  unfold snprintf, with_args. rewrite E. cbn [mbind res_bind]. rewrite Est, Ecap. unfold stored.
  by rewrite (proj2 (Z.leb_gt _ 0)) by lia.
Qed.

Lemma groups_text_length first g n data : (n * g <= length data)%nat ->
  Z.of_nat (length (groups_text first g n data)) =
    if (n =? 0)%nat then 0 else Z.of_nat n * (2 * Z.of_nat g + 1) - (if first then 1 else 0).
Proof using.
  revert first data. induction n as [|n IH]; intros first data Hn; [done|]. cbn [groups_text].
  rewrite !length_app, !Nat2Z.inj_add, hex2_length, length_rev, length_take, IH by (rewrite length_drop; lia).
  rewrite Nat.min_l by lia. cbn [Nat.eqb]. destruct first, (Nat.eqb_spec n 0); cbn [length]; lia.
Qed.

Lemma groups_loop_spec n g j ptr b lx : g ∈ [2; 4; 8] -> octets ptr -> (n * Z.to_nat g <= length ptr)%nat -> (n <= 16)%nat ->
  0 <= j -> 0 <= lx < L -> L <= Z.of_nat (length b) -> lx + 17 * Z.of_nat n < 2 ^ 30 ->
  let u := groups_text (j =? 0) (Z.to_nat g) n ptr in
  exists b', groups_loop addr L n g j ptr b lx =
      Ok (if lx + Z.of_nat (length u) <? L then Next b' (lx + Z.of_nat (length u))
          else Overflow1 (overlay b lx (take (Z.to_nat (L - lx - 1)) u ++ [0]))) /\
    (lx + Z.of_nat (length u) < L -> written b lx u b').
Proof using Haddr HL Hend.
  intros Hg. revert j ptr b lx. induction n as [|n IH]; intros j ptr b lx Hp Hn H16 Hj Hlx Hb H30 u.
  { exists b. unfold u. cbn. rewrite Z.add_0_r, (proj2 (Z.ltb_lt lx L)) by lia. split; [done|]. intros _.
    rewrite <- (overlay_nil b lx) at 2. apply written_refl. cbn. lia. }
  assert (0 < Z.to_nat g <= 8)%nat as Hg8.
  { rewrite !elem_of_cons in Hg. destruct Hg as [->|[->|[->|[]%elem_of_nil]]]; cbn; lia. }
  cbn [groups_loop]. rewrite load_le_spec by lia. cbn [mbind res_bind].
  set (p := take (Z.to_nat g) ptr). assert (length p = Z.to_nat g) as Lp by (unfold p; rewrite length_take; lia).
  unfold INT_MAX in HL. rewrite u32_small by lia. rewrite group_snprintf by (try done; by apply octets_take). cbn [mbind res_bind].
  set (t := (if j =? 0 then [] else [32]) ++ flat_map hex2 (rev p)).
  assert (u = t ++ groups_text false (Z.to_nat g) n (drop (Z.to_nat g) ptr)) as Eu by (unfold u, t; cbn [groups_text]; by rewrite <- app_assoc).
  set (u' := groups_text _ _ n _) in *. assert (length t <= 17)%nat as Lt.
  { unfold t. rewrite length_app, hex2_length, length_rev. destruct (j =? 0); cbn; lia. }
  rewrite u32_small by lia. destruct (Z.leb_spec (L - lx) (Z.of_nat (length t))).
  - exists b. rewrite Eu, length_app. rewrite (proj2 (Z.ltb_ge _ L)) by lia. split; [|lia]. rewrite take_app_le by lia. done.
  - rewrite (take_ge t) by lia. rewrite i32_small by lia. set (b1 := overlay b lx (t ++ [0])).
    assert (written b lx t b1) as Hw by (exists [0]; rewrite length_app; cbn [length]; split_and!; done || lia).
    pose proof (written_length _ _ _ _ (proj1 Hlx) Hw) as Lb.
    destruct (IH (j + 1) (drop (Z.to_nat g) ptr) b1 (lx + Z.of_nat (length t))) as (b' & E & Hb');
      [by apply octets_drop|rewrite length_drop; lia|lia|lia|lia|lia|lia|].
    rewrite (proj2 (Z.eqb_neq (j + 1) 0)) in E, Hb' by lia. fold u' in E, Hb'. exists b'. rewrite E, Eu, length_app, Nat2Z.inj_add, Z.add_assoc.
    destruct (Z.ltb_spec (lx + Z.of_nat (length t) + Z.of_nat (length u')) L) as [Hfit|Hfit].
    + split; [done|]. intros _. apply (written_app _ _ _ b1); [lia|done|]. apply Hb'. lia.
    + split; [|lia]. do 2 f_equal. assert (lx + Z.of_nat (length t) + Z.of_nat (length (take (Z.to_nat (L - (lx + Z.of_nat (length t)) - 1)) u' ++ [0])) <=
        Z.of_nat (length b)) by (rewrite length_app, length_take; cbn [length]; lia).
      rewrite (written_overlay b lx t b1); [|lia|done|by destruct (take _ u')|done].
      rewrite app_assoc. do 2 f_equal. rewrite take_app_ge by lia. do 2 f_equal. lia.
Qed.

(** Single bytes, each with a blank after it. *)
Definition bytes_text (data : list Z) : list Z := flat_map (fun c => hex2 c ++ [32]) data.
Lemma bytes_text_length data : length (bytes_text data) = (3 * length data)%nat.
Proof using. unfold bytes_text. induction data as [|c data IH]; [done|]. cbn [flat_map length]. rewrite !length_app, IH. cbn. lia. Qed.

Lemma bytes_loop_spec data r b lx : octets data -> (length data <= 32)%nat -> 0 <= lx <= L -> L <= Z.of_nat (length b) ->
  let k := 3 * ((L - lx) / 3) in
  bytes_loop L (length data) (data ++ r) b lx =
    Ok (if lx + 3 * Z.of_nat (length data) <=? L then Next (overlay b lx (bytes_text data)) (lx + 3 * Z.of_nat (length data))
        else Overflow2 (overlay b lx (take (Z.to_nat k) (bytes_text data))) (lx + k)).
Proof using HL Hend Haddr.
  intros Hp. unfold INT_MAX in HL. revert b lx. induction Hp as [|c data Hc _ IH]; intros b lx H32 Hlx Hb k.
  { cbn. rewrite Z.add_0_r, overlay_nil, (proj2 (Z.leb_le lx L)) by lia. done. }
  cbn [length bytes_loop app]. cbn [length] in H32. rewrite u32_small by lia.
  destruct (Z.ltb_spec L (lx + 3)).
  { rewrite (proj2 (Z.leb_gt _ L)) by lia. assert (k = 0) as -> by (unfold k; rewrite Z.div_small by lia; lia).
    by rewrite take_0, overlay_nil, Z.add_0_r. }
  cbn [rd mbind res_bind tail]. destruct (hex_byte_spec c Hc) as (-> & -> & _). cbn [mbind res_bind].
  rewrite awrite_in by lia. cbn [mbind res_bind]. rewrite awrite_in by (rewrite length_insert; lia). cbn [mbind res_bind].
  rewrite awrite_in by (rewrite !length_insert; lia). cbn [mbind res_bind]. rewrite IH by (rewrite ?length_insert; lia).
  assert (3 * ((L - (lx + 3)) / 3) = k - 3) as ->.
  { unfold k. replace (L - lx) with (L - (lx + 3) + 1 * 3) by lia. rewrite Z.div_add by lia. lia. }
  assert (3 <= k <= L - lx) as Hk by (unfold k; dlia). clearbody k. pose proof (bytes_text_length data) as Lt.
  assert (forall w, lx + 3 + Z.of_nat (length w) <= Z.of_nat (length b) ->
    overlay (<[Z.to_nat (lx + 2):=32]> (<[Z.to_nat (lx + 1):=digit_char false (c mod 16)]> (<[Z.to_nat lx:=digit_char false (c / 16)]> b)))
      (lx + 3) w = overlay b lx (hex2 c ++ [32] ++ w)) as Eo.
  { intros w Hw. replace (lx + 3) with (lx + 1 + 1 + 1) by lia. replace (lx + 2) with (lx + 1 + 1) by lia.
    rewrite !overlay_cons by (rewrite ?length_insert; cbn [length]; lia). done. }
  replace (lx + 3 + 3 * Z.of_nat (length data)) with (lx + 3 * Z.of_nat (S (length data))) by lia.
  destruct (Z.leb_spec (lx + 3 * Z.of_nat (S (length data))) L).
  - rewrite Eo by lia. done.
  - rewrite Eo by (rewrite length_take; lia). do 2 f_equal; [|lia]. f_equal.
    replace (Z.to_nat k) with (3 + Z.to_nat (k - 3))%nat by lia. done.
Qed.

(** Characters one by one, as the two loops of the ascii part write them. *)
Fixpoint put_chars (cs b : list Z) (lx : Z) : res dump :=
  match cs with
  | [] => Ok (Next b lx)
  | c :: cs' => if L <? u32 (lx + 2) then Ok (Overflow2 b lx) else b ← awrite b lx c; put_chars cs' b (lx + 1)
  end.
Lemma columns_loop_put n b lx : columns_loop L n b lx = put_chars (replicate n 32) b lx.
Proof using.
  revert b lx. induction n as [|n IH]; intros b lx; [done|]. cbn [columns_loop replicate put_chars].
  destruct (L <? u32 (lx + 2)); [done|]. destruct (awrite b lx 32); [apply IH|done].
Qed.
Lemma ascii_loop_put data r b lx : ascii_loop L (length data) (data ++ r) b lx = put_chars (map shown data) b lx.
Proof using.
  revert b lx. induction data as [|c data IH]; intros b lx; [done|]. cbn [ascii_loop length map put_chars app].
  destruct (L <? u32 (lx + 2)); [done|]. cbn [rd mbind res_bind tail]. fold (shown c).
  destruct (awrite b lx (shown c)); [apply IH|done].
Qed.
Lemma put_chars_app cs ds b lx : put_chars (cs ++ ds) b lx = and_then (put_chars cs b lx) (put_chars ds).
Proof using.
  revert b lx. induction cs as [|c cs IH]; intros b lx; [done|]. cbn [app put_chars].
  destruct (L <? u32 (lx + 2)); [done|]. destruct (awrite b lx c); [apply IH|done].
Qed.
Lemma put_chars_spec cs b lx : (length cs <= 1000)%nat -> 0 <= lx < L -> L <= Z.of_nat (length b) ->
  put_chars cs b lx =
    Ok (if lx + Z.of_nat (length cs) <? L then Next (overlay b lx cs) (lx + Z.of_nat (length cs))
        else Overflow2 (overlay b lx (take (Z.to_nat (L - 1 - lx)) cs)) (L - 1)).
Proof using HL Hend Haddr.
  unfold INT_MAX in HL. revert b lx. induction cs as [|c cs IH]; intros b lx H1 Hlx Hb.
  { cbn. rewrite Z.add_0_r, overlay_nil, (proj2 (Z.ltb_lt lx L)) by lia. done. }
  cbn [put_chars length]. cbn [length] in H1. rewrite u32_small by lia. destruct (Z.ltb_spec L (lx + 2)).
  { rewrite (proj2 (Z.ltb_ge _ L)) by lia. replace (L - 1) with lx by lia. replace (Z.to_nat (lx - lx)) with 0%nat by lia.
    by rewrite take_0, overlay_nil. }
  rewrite awrite_in by lia. cbn [mbind res_bind]. rewrite IH by (rewrite ?length_insert; lia).
  replace (lx + 1 + Z.of_nat (length cs)) with (lx + Z.of_nat (S (length cs))) by lia.
  destruct (Z.ltb_spec (lx + Z.of_nat (S (length cs))) L).
  - by rewrite overlay_cons by lia.
  - rewrite overlay_cons by (rewrite ?length_take; lia). do 3 f_equal.
    replace (Z.to_nat (L - 1 - lx)) with (S (Z.to_nat (L - 1 - (lx + 1)))) by lia. done.
Qed.

Lemma bytes_groups data : 32 :: bytes_text data = groups_text false 1 (length data) data ++ [32].
Proof using.
  induction data as [|c data IH]; [done|]. cbn [length groups_text]. change (take 1 (c :: data)) with [c].
  change (drop 1 (c :: data)) with data. rewrite <- !app_assoc, <- IH. done.
Qed.

(** The hex part of the line. *)
Definition hex_part (g : Z) (data r b : list Z) : res dump :=
  if (g =? 8) || (g =? 4) || (g =? 2) then groups_loop addr L (length data / Z.to_nat g) g 0 (data ++ r) b 0
  else and_then (bytes_loop L (length data) (data ++ r) b 0) (fun linebuf lx => Ok (Next linebuf (lx - 1))).
Lemma hex_part_spec g data r b : g ∈ [1; 2; 4; 8] -> octets (data ++ r) -> (0 < length data <= 32)%nat ->
  Z.of_nat (length data) mod g = 0 -> L <= Z.of_nat (length b) ->
  let H := groups_text true (Z.to_nat g) (length data / Z.to_nat g) data in
  exists b', hex_part g data r b =
      Ok (if Z.of_nat (length H) <? L then Next b' (Z.of_nat (length H))
          else if g =? 1 then Overflow2 (overlay b 0 (take (Z.to_nat (3 * (L / 3))) H)) (3 * (L / 3))
          else Overflow1 (overlay b 0 (take (Z.to_nat (L - 1)) H ++ [0]))) /\
    (Z.of_nat (length H) < L -> written b 0 H b').
Proof using HL Hend Haddr.
  intros Hg Hp Hd Hm Hb H. unfold hex_part. apply Forall_app in Hp as [Hp Hr].
  apply elem_of_cons in Hg as [->|Hg].
  - assert (H = groups_text true 1 (length data) data) as EH0 by (unfold H; change (Z.to_nat 1) with 1%nat; by rewrite Nat.div_1_r).
    clearbody H.
    destruct data as [|c data']; [cbn in Hd; lia|]. set (data := c :: data') in *.
    assert (bytes_text data = H ++ [32]) as EH.
    { rewrite EH0. change (bytes_text data) with (hex2 c ++ 32 :: bytes_text data'). rewrite bytes_groups. done. }
    pose proof (bytes_text_length data) as Lt. pose proof Lt as Lt'. rewrite EH, length_app in Lt'. cbn [length Nat.add] in Lt'.
    change ((1 =? 8) || (1 =? 4) || (1 =? 2)) with false. change (1 =? 1) with true. cbv iota.
    rewrite bytes_loop_spec by (done || lia). rewrite Z.sub_0_r, !Z.add_0_l.
    exists (overlay b 0 (bytes_text data)). unfold and_then. cbn [mbind res_bind].
    destruct (Z.leb_spec (3 * Z.of_nat (length data)) L).
    + rewrite (proj2 (Z.ltb_lt _ L)) by lia. split; [do 2 f_equal; lia|]. intros _. exists [32].
      split_and!; [done|by rewrite <- EH|rewrite <- EH; lia].
    + rewrite (proj2 (Z.ltb_ge _ L)) by lia. split; [|lia]. rewrite EH, take_app_le by dlia. done.
  - assert ((g =? 8) || (g =? 4) || (g =? 2) = true /\ (g =? 1) = false) as [-> ->].
    { rewrite !elem_of_cons in Hg. destruct Hg as [->|[->|[->|[]%elem_of_nil]]]; done. }
    assert (length data / Z.to_nat g * Z.to_nat g <= length data /\ length data / Z.to_nat g <= 16)%nat as [H1 H2].
    { rewrite !elem_of_cons in Hg. destruct Hg as [->|[->|[->|[]%elem_of_nil]]];
        match goal with |- context [Z.to_nat ?z] => let n := eval vm_compute in (Z.to_nat z) in change (Z.to_nat z) with n end;
        (split; [rewrite Nat.mul_comm; by apply Nat.Div0.mul_div_le|apply Nat.Div0.div_le_upper_bound; lia]). }
    assert (H = groups_text (0 =? 0) (Z.to_nat g) (length data / Z.to_nat g) (data ++ r)) as EH.
    { unfold H. change (0 =? 0) with true. generalize true, (length data / Z.to_nat g)%nat, H1. clear.
      intros first n. revert first data. induction n as [|n IH]; intros first data Hn; [done|]. cbn [groups_text].
      rewrite take_app_le, drop_app_le, IH by (rewrite ?length_drop; lia). done. }
    destruct (groups_loop_spec (length data / Z.to_nat g) g 0 (data ++ r) b 0) as (b' & E & Hw);
      [done|by apply Forall_app|rewrite length_app; lia|done|lia|lia|lia|lia|].
    rewrite <- EH in E, Hw. rewrite !Z.add_0_l, Z.sub_0_r in E. exists b'. split; [exact E|]. intros ?. apply Hw. lia.
Qed.
End lines.

(** ** The parameters *)

Lemma row_code rowsize : (if negb (rowsize =? 16) && negb (rowsize =? 32) then 16 else rowsize) = row_of rowsize /\
  (row_of rowsize = 16 \/ row_of rowsize = 32).
Proof.
  unfold row_of. case_bool_decide as H.
  - split; [|done]. destruct H as [-> | ->]; done.
  - split; [|by left]. by rewrite !(proj2 (Z.eqb_neq rowsize _)) by tauto.
Qed.

Lemma group_code groupsize len : is_s 32 groupsize -> 0 < len <= 32 ->
  let g := if negb (is_power_of_2 (u32 groupsize)) || (8 <? groupsize) then 1 else groupsize in
  (if negb (len mod u32 g =? 0) then 1 else g) = group_of groupsize len /\
  group_of groupsize len ∈ [1; 2; 4; 8] /\ len mod group_of groupsize len = 0.
Proof.
  intros Hg Hl. unfold is_s in Hg. change (2 ^ (32 - 1)) with (2 ^ 31) in Hg. cbv zeta.
  assert (group_of groupsize len ∈ [1; 2; 4; 8] /\ len mod group_of groupsize len = 0) as [H1 H2].
  { unfold group_of. case_bool_decide as H; [|split; [by apply (bool_decide_unpack _)|apply Z.mod_1_r]].
    destruct H as [H Hm]. split; [|exact Hm]. apply elem_of_cons. by right. }
  split_and!; [|done|done]. clear H1 H2. destruct (decide (0 <= groupsize <= 8)) as [Hs|Hs].
  - pose proof (forallb_below 9 (fun groupsize => forallb (fun len =>
      let g := if negb (is_power_of_2 (u32 groupsize)) || (8 <? groupsize) then 1 else groupsize in
      (if negb (len mod u32 g =? 0) then 1 else g) =? group_of groupsize len) (seqZ 0 33)) groupsize ltac:(by vm_compute) ltac:(lia)) as E.
    cbv beta in E. rewrite forallb_forall in E. apply Z.eqb_eq, E, list_elem_of_In, elem_of_seqZ. lia.
  - unfold group_of. rewrite bool_decide_eq_false_2 by (rewrite !elem_of_cons, elem_of_nil; lia).
    destruct (Z.ltb_spec 8 groupsize); [by rewrite orb_true_r, u32_small, Z.mod_1_r by lia|]. rewrite orb_false_r.
    destruct (is_power_of_2 (u32 groupsize)); cbn [negb]; [|by rewrite u32_small, Z.mod_1_r by lia].
    assert (u32 groupsize = groupsize + 2 ^ 32) as -> by (rewrite u32_neg by lia; lia).
    rewrite Z.mod_small by lia. by rewrite (proj2 (Z.eqb_neq len 0)) by lia.
Qed.

Ltac each_group H := rewrite !elem_of_cons in H; destruct H as [->|[->|[->|[->|[]%elem_of_nil]]]].

Lemma dump_hex_length row g data : g ∈ [1; 2; 4; 8] -> row = 16 \/ row = 32 ->
  (0 < length data)%nat -> Z.of_nat (length data) <= row -> Z.of_nat (length data) mod g = 0 ->
  let H := groups_text true (Z.to_nat g) (length data / Z.to_nat g) data in
  Z.of_nat (length H) = (g * 2 + 1) * (Z.of_nat (length data) / g) - 1 /\ Z.of_nat (length H) < column_of row g <= 100 /\
  0 < Z.of_nat (length data) / g <= 32.
Proof.
  intros Hg Hrow Hd Hl Hm H. unfold column_of, H.
  assert (0 < Z.to_nat g)%nat by (each_group Hg; cbn; lia).
  rewrite groups_text_length by (rewrite Nat.mul_comm; apply Nat.Div0.mul_div_le).
  rewrite Nat2Z.inj_div, Z2Nat.id by lia.
  assert (0 < Z.of_nat (length data) / g) as Hq by (each_group Hg; dlia).
  assert ((length data / Z.to_nat g =? 0)%nat = false) as ->.
  { apply Nat.eqb_neq. intros E0. apply (f_equal Z.of_nat) in E0. rewrite Nat2Z.inj_div, Z2Nat.id in E0; lia. }
  each_group Hg; destruct Hrow as [-> | ->]; dlia.
Qed.

Lemma full_code row g (ascii : bool) data : g ∈ [1; 2; 4; 8] -> row = 16 \/ row = 32 ->
  (0 < length data)%nat -> Z.of_nat (length data) <= row -> Z.of_nat (length data) mod g = 0 ->
  (row *i 2 +i Z.quot row g +i 1)%cint = column_of row g /\
  i32 (if ascii then column_of row g + Z.of_nat (length data) else (g *i 2 +i 1) *i (Z.of_nat (length data) / g) -i 1)%cint =
    Z.of_nat (length (dump_line row g ascii data)) /\ Z.of_nat (length (dump_line row g ascii data)) <= 200.
Proof.
  intros Hg Hrow Hd Hl Hm. destruct (dump_hex_length row g data Hg Hrow Hd Hl Hm) as (EH & HH & Hq).
  assert (1 <= g <= 8) by (each_group Hg; lia).
  split_and!.
  - each_group Hg; destruct Hrow as [-> | ->]; reflexivity.
  - unfold dump_line. destruct ascii; [rewrite !length_app, !Nat2Z.inj_add, repeat_length, length_map|rewrite EH].
    + rewrite i32_small by lia. lia.
    + rewrite (i32_small (g * 2)), (i32_small (g * 2 + 1)), (i32_small ((g * 2 + 1) * _)), (i32_small (_ - 1)), i32_small by nia. done.
  - unfold dump_line. destruct ascii; [rewrite !length_app, !Nat2Z.inj_add, repeat_length, length_map; lia|lia].
Qed.

(** How much of the line [t] is stored, before the terminator. *)
Definition kept (L g : Z) (data t : list Z) : Z :=
  if Z.of_nat (length t) <? L then Z.of_nat (length t)
  else if (g =? 1) && (L <? 3 * Z.of_nat (length data)) then 3 * (L / 3) else L - 1.

(** A terminator at the end of what has been written. *)
Lemma finish_at b b' u : written b 0 u b' -> Z.of_nat (length u) < Z.of_nat (length b) ->
  awrite b' (Z.of_nat (length u)) 0 = Ok (overlay b 0 (u ++ [0])).
Proof.
  intros Hw Hu. pose proof (written_length b 0 u b' ltac:(lia) Hw) as Lb. rewrite awrite_in by lia.
  rewrite insert_overlay by lia. f_equal. apply (written_overlay b 0 u b'); try done. cbn [length]. lia.
Qed.

Section main.
Context (addr L : Z) (Haddr : 0 <= addr) (HL : 0 < L <= INT_MAX) (Hend : addr + L < 2 ^ 32).
Context (row g : Z) (data r b : list Z) (ascii : bool).
Context (Hg : g ∈ [1; 2; 4; 8]) (Hrow : row = 16 \/ row = 32) (Hd : (0 < length data)%nat)
  (Hl : Z.of_nat (length data) <= row) (Hm : Z.of_nat (length data) mod g = 0)
  (Hp : octets (data ++ r)) (Hb : L <= Z.of_nat (length b)).
Let H := groups_text true (Z.to_nat g) (length data / Z.to_nat g) data.
Let T := dump_line row g ascii data.

(** From the hex part on. *)
Definition after_hex (linebuf : list Z) (lx : Z) : res dump :=
  if negb ascii then Ok (Next linebuf lx)
  else and_then (columns_loop L (Z.to_nat (column_of row g - lx)) linebuf lx)
         (fun linebuf lx => ascii_loop L (Z.to_nat (Z.of_nat (length data))) (data ++ r) linebuf lx).
Definition finish (full : Z) (d : dump) : res (Z * list Z) :=
  match d with
  | Next linebuf lx => linebuf ← awrite linebuf lx 0; Ok (lx, linebuf)
  | Overflow1 linebuf => Ok (full, linebuf)
  | Overflow2 linebuf lx => linebuf ← awrite linebuf lx 0; Ok (full, linebuf)
  end.

Definition dumped : res (Z * list Z) :=
  let k := kept L g data T in
  if k <? Z.of_nat (length b) then Ok (Z.of_nat (length T), overlay b 0 (take (Z.to_nat k) T ++ [0])) else Fault OutOfBounds.

Lemma after_hex_spec b' : written b 0 H b' -> Z.of_nat (length H) < L ->
  (d ← after_hex b' (Z.of_nat (length H)); finish (Z.of_nat (length T)) d) = dumped.
Proof using Haddr HL Hend Hg Hrow Hd Hl Hm Hb.
  intros Hw HH. destruct (dump_hex_length row g data Hg Hrow Hd Hl Hm) as (_ & Hcol & _). fold H in Hcol.
  pose proof (written_length b 0 H b' ltac:(lia) Hw) as Lb. unfold after_hex, dumped, T, dump_line. fold H.
  destruct ascii; cbn [negb].
  - rewrite columns_loop_put, Nat2Z.id. set (cs := repeat (column_of row g - Z.of_nat (length H)) 32 ++ map shown data).
    assert (and_then (put_chars L (replicate (Z.to_nat (column_of row g - Z.of_nat (length H))) 32) b' (Z.of_nat (length H)))
      (fun linebuf lx => ascii_loop L (length data) (data ++ r) linebuf lx) = put_chars L cs b' (Z.of_nat (length H))) as ->.
    { unfold cs. rewrite put_chars_app. unfold and_then, repeat. destruct (put_chars _ _ _ _) as [[]|]; try done.
      apply ascii_loop_put. }
    assert (length cs <= 1000)%nat as Lc.
    { unfold cs. rewrite length_app, length_map. pose proof (repeat_length (column_of row g - Z.of_nat (length H)) 32). lia. }
    rewrite (put_chars_spec addr) by (done || lia). cbn [mbind res_bind]. unfold kept. rewrite !length_app, !Nat2Z.inj_add.
    assert (Z.of_nat (length data) * 3 <= L \/ g <> 1) as Hk.
    { destruct (decide (g = 1)); [left|by right]. destruct (dump_hex_length row g data Hg Hrow Hd Hl Hm) as (EH & _).
      fold H in EH. subst g. rewrite Z.div_1_r in EH. lia. }
    destruct (Z.ltb_spec (Z.of_nat (length H) + Z.of_nat (length cs)) L); cbn [finish].
    + rewrite (proj2 (Z.ltb_lt _ (Z.of_nat (length b)))) by lia. rewrite awrite_in by (rewrite overlay_length by lia; lia).
      cbn [mbind res_bind]. rewrite insert_overlay by (rewrite overlay_length by lia; lia).
      rewrite overlay_app by lia. rewrite (written_overlay b 0 H b'); [|lia|done|by destruct cs|rewrite length_app; cbn [length]; lia].
      rewrite take_ge by (rewrite length_app; lia). by rewrite <- app_assoc.
    + assert ((g =? 1) && (L <? 3 * Z.of_nat (length data)) = false) as ->.
      { destruct (Z.eqb_spec g 1); [|done]. apply Z.ltb_ge. lia. }
      rewrite (proj2 (Z.ltb_lt _ (Z.of_nat (length b)))) by lia.
      set (w := take (Z.to_nat (L - 1 - Z.of_nat (length H))) cs).
      assert (Z.of_nat (length w) = L - 1 - Z.of_nat (length H)) as Lw by (unfold w; rewrite length_take; lia).
      replace (L - 1) with (Z.of_nat (length H) + Z.of_nat (length w)) at 1 by lia.
      rewrite awrite_in by (rewrite overlay_length by lia; lia). cbn [mbind res_bind].
      rewrite insert_overlay by (rewrite overlay_length by lia; lia). rewrite overlay_app by lia.
      rewrite (written_overlay b 0 H b'); [|lia|done|by destruct w|rewrite length_app; cbn [length]; lia].
      rewrite take_app_ge by lia. do 3 f_equal. rewrite <- app_assoc. do 2 f_equal. unfold w. f_equal. lia.
  - cbn [mbind res_bind finish]. rewrite (finish_at b) by (done || lia). cbn [mbind res_bind]. unfold kept.
    rewrite (proj2 (Z.ltb_lt _ L)), (proj2 (Z.ltb_lt _ (Z.of_nat (length b)))) by lia. by rewrite take_ge by lia.
Qed.

Lemma line_hex : exists u, T = H ++ u.
Proof using. unfold T, dump_line. fold H. destruct ascii; [by eexists|exists []; by rewrite app_nil_r]. Qed.

(** The hex part does not fit. *)
Lemma overflow_spec : L <= Z.of_nat (length H) ->
  finish (Z.of_nat (length T))
    (if g =? 1 then Overflow2 (overlay b 0 (take (Z.to_nat (3 * (L / 3))) H)) (3 * (L / 3))
     else Overflow1 (overlay b 0 (take (Z.to_nat (L - 1)) H ++ [0]))) = dumped.
Proof using HL Hg Hrow Hd Hl Hm Hb.
  intros HH. destruct line_hex as [u EL]. unfold dumped, kept.
  assert (Z.of_nat (length H) <= Z.of_nat (length T)) by (rewrite EL, length_app; lia).
  rewrite (proj2 (Z.ltb_ge (Z.of_nat (length T)) L)) by lia.
  destruct (dump_hex_length row g data Hg Hrow Hd Hl Hm) as (EH & _). fold H in EH.
  destruct (Z.eqb_spec g 1) as [->|]; cbn [finish andb].
  - rewrite Z.div_1_r in EH. rewrite (proj2 (Z.ltb_lt L (3 * _))) by lia.
    assert (0 <= 3 * (L / 3) <= L) as Hk by dlia. set (k := 3 * (L / 3)) in *. clearbody k.
    rewrite EL, take_app_le by lia. rewrite length_app, Nat2Z.inj_add.
    set (w := take (Z.to_nat k) H). assert (Z.of_nat (length w) = k) as Lw by (unfold w; rewrite length_take; lia).
    destruct (Z.ltb_spec k (Z.of_nat (length b))).
    + rewrite <- Lw. rewrite (finish_at b) by (first [apply written_refl|idtac]; lia). done.
    + rewrite awrite_oob by (rewrite overlay_length by lia; lia). done.
  - rewrite (proj2 (Z.ltb_lt (L - 1) _)) by lia. by rewrite EL, (take_app_le H u) by lia.
Qed.
End main.

(** The line, whole or cut. *)
Lemma hex_dump_line addr L buf len rowsize groupsize linebuf ascii :
  0 <= addr -> 0 < L <= INT_MAX -> addr + L < 2 ^ 32 -> L <= Z.of_nat (length linebuf) ->
  is_s 32 groupsize -> 0 < len -> octets buf ->
  let row := row_of rowsize in
  let n := Z.min len row in
  n <= Z.of_nat (length buf) ->
  let data := take (Z.to_nat n) buf in
  let g := group_of groupsize n in
  hex_dump_to_buffer addr L buf len rowsize groupsize linebuf ascii = dumped L row g data linebuf ascii.
Proof.
  intros Ha HL Hend Hb Hgs Hlen Hoct row n Hn data g. pose (line := dump_line row g ascii data).
  destruct (row_code rowsize) as [Erow Hrow]. fold row in Erow, Hrow.
  assert (0 < n <= 32) as Hn32 by lia.
  destruct (group_code groupsize n Hgs Hn32) as (Eg & Hg & Hm). fold g in Eg, Hg, Hm.
  assert (Z.of_nat (length data) = n) as Ld by (unfold data; rewrite length_take; lia).
  assert (1 <= g <= 8) as Hg8 by (clear -Hg; each_group Hg; lia).
  assert (buf = data ++ drop (Z.to_nat n) buf) as Ebuf by (unfold data; by rewrite take_drop).
  rewrite <- Ld in Hm. rewrite Ebuf in Hoct.
  destruct (full_code row g ascii data Hg Hrow) as (Ecol & Efull & _); [lia|lia|done|]. fold line in Efull.
  unfold hex_dump_to_buffer. rewrite Erow. cbv zeta.
  assert ((if row <? len then row else len) = n) as -> by (unfold n; destruct (Z.ltb_spec row len); lia).
  cbv zeta in Eg. rewrite Eg. rewrite (proj2 (Z.eqb_neq L 0)), (proj2 (Z.eqb_neq n 0)) by lia.
  rewrite Ecol, (u32_small g) by lia. rewrite <- Ld, Efull.
  pose proof (hex_part_spec addr L Ha HL Hend g data (drop (Z.to_nat n) buf) linebuf Hg Hoct ltac:(lia) Hm Hb) as (b' & EH & Hw).
  set (H := groups_text true (Z.to_nat g) (length data / Z.to_nat g) data) in *.
  destruct (dump_hex_length row g data Hg Hrow) as (LH & HH & _); [lia|lia|done|]. fold H in LH, HH.
  unfold line in *.
  set (r := drop (Z.to_nat n) buf) in *. clearbody data r. subst buf. rewrite Nat2Z.id.
  assert (Z.to_nat (Z.of_nat (length data) / g) = (length data / Z.to_nat g)%nat) as ->.
  { rewrite <- (Z2Nat.id g) at 1 by lia. by rewrite <- Nat2Z.inj_div, Nat2Z.id. }
  fold (hex_part addr L g data r linebuf). rewrite EH. unfold and_then at 1.
  destruct (Z.ltb_spec (Z.of_nat (length H)) L) as [Hfit|Hfit]; cbn [mbind res_bind].
  - rewrite <- (after_hex_spec addr L Ha HL Hend row g data r linebuf ascii Hg Hrow ltac:(lia) ltac:(lia) Hm Hb b' (Hw Hfit) Hfit).
    unfold after_hex. by rewrite Nat2Z.id.
  - rewrite <- (overflow_spec L HL row g data linebuf ascii Hg Hrow ltac:(lia) ltac:(lia) Hm Hb Hfit). by destruct (g =? 1).
Qed.

(** * Properties *)

(** C27: [hex_dump_to_buffer] on at least one byte and a buffer of [L] bytes: it returns
    the length of the line, which is the hex groups (numbers in little-endian order,
    one blank between groups), and with [ascii] blanks up to the column and the
    printable characters; the buffer receives the line, or the part of it that fits,
    and a terminator, and no other byte changes.  The exception is a dump byte by byte
    that is cut in its hex part when [L] is a multiple of three: the terminator is then
    stored at [linebuf + L], behind the buffer, a fault when the object ends there. *)
Theorem hex_dump_exact addr L buf len rowsize groupsize linebuf ascii :
  0 <= addr -> 0 < L <= INT_MAX -> addr + L < 2 ^ 32 -> L <= Z.of_nat (length linebuf) ->
  is_s 32 groupsize -> 0 < len -> octets buf ->
  let row := row_of rowsize in
  let n := Z.min len row in
  n <= Z.of_nat (length buf) ->
  let data := take (Z.to_nat n) buf in
  let g := group_of groupsize n in
  let line := dump_line row g ascii data in
  let k := kept L g data line in
  hex_dump_to_buffer addr L buf len rowsize groupsize linebuf ascii =
    if k <? Z.of_nat (length linebuf)
    then Ok (Z.of_nat (length line), overlay linebuf 0 (take (Z.to_nat k) line ++ [0]))
    else Fault OutOfBounds.
Proof. apply hex_dump_line. Qed.

(** "ABCD" into 12 bytes with the ascii column does not fit: cut in the ascii part's
    blanks. *)
Lemma hex_dump_exact_witness :
  hex_dump_to_buffer 4096 13 [65; 66; 67; 68; 0] 4 16 1 (replicate 16 170) true =
    Ok (53, [52; 49; 32; 52; 50; 32; 52; 51; 32; 52; 52; 32; 0; 170; 170; 170]).
Proof.
  refine (hex_dump_exact 4096 13 [65; 66; 67; 68; 0] 4 16 1 (replicate 16 170) true _ _ _ _ _ _ _ _);
    try (unfold INT_MAX, is_s; cbn; lia); by repeat constructor.
Defined.

(** The terminator stored behind the buffer: [3 * k] bytes of buffer for a dump of more
    than [k] bytes, byte by byte. *)
Theorem hex_dump_overruns addr k buf len rowsize linebuf ascii :
  0 <= addr -> 0 < k -> 3 * k <= INT_MAX -> addr + 3 * k < 2 ^ 32 -> Z.of_nat (length linebuf) = 3 * k ->
  octets buf -> k < Z.min len (row_of rowsize) <= Z.of_nat (length buf) ->
  hex_dump_to_buffer addr (3 * k) buf len rowsize 1 linebuf ascii = Fault OutOfBounds.
Proof.
  intros Ha Hk Hm He Hl Hp Hn. destruct (row_code rowsize) as [_ Hrow]. unfold INT_MAX in Hm.
  rewrite hex_dump_line by (try done; unfold INT_MAX, is_s; lia).
  set (n := Z.min len (row_of rowsize)) in *. set (data := take (Z.to_nat n) buf).
  assert (Z.of_nat (length data) = n) as Ld by (unfold data; rewrite length_take; lia).
  assert (group_of 1 n = 1) as -> by (unfold group_of; by case_bool_decide).
  unfold dumped. set (line := dump_line _ _ _ _). assert (3 * n - 1 <= Z.of_nat (length line)) as Hline.
  { destruct (dump_hex_length (row_of rowsize) 1 data) as (EH & HH & _);
      [by apply (bool_decide_unpack _)|done|lia|lia|apply Z.mod_1_r|]. rewrite Z.div_1_r in EH.
    destruct (line_hex (row_of rowsize) 1 data ascii) as [u Eu]. unfold line. rewrite Eu, length_app. lia. }
  unfold kept. rewrite (proj2 (Z.ltb_ge _ (3 * k))), (proj2 (Z.ltb_lt (3 * k) _)) by lia. cbn [Z.eqb Pos.eqb andb].
  assert (3 * (3 * k / 3) = 3 * k) as -> by dlia. by rewrite (proj2 (Z.ltb_ge _ (Z.of_nat (length linebuf)))) by lia.
Qed.

(** With no data and no room the length returned is not that of the empty line. *)
Theorem hex_dump_nothing :
  hex_dump_to_buffer 0 1 [] 0 16 1 [170] false = Ok (0, [0]) /\
  hex_dump_to_buffer 0 0 [] 0 16 1 [] false = Ok (-1, []) /\
  hex_dump_to_buffer 0 1 [] 0 16 1 [170] true = Ok (0, [0]) /\
  hex_dump_to_buffer 0 0 [] 0 16 1 [] true = Ok (49, []).
Proof. by vm_compute. Qed.

(** C28: Hexadecimal text and bytes: [bin2hex] stores two digits for each byte and nothing
    else and returns the end of what it stored; [hex2bin] of that text, in lower or
    upper case, gives the bytes back.  On any text of [2 * n] characters [hex2bin]
    stores the bytes before the first pair that is not two digits and returns -1 when
    there is such a pair. *)
Theorem hex_roundtrip src r dst out t :
  octets src -> 2 * Z.of_nat (length src) <= Z.of_nat (length dst) -> Z.of_nat (length src) <= Z.of_nat (length out) ->
  bytes t -> (2 * length src <= length t)%nat ->
  let n := Z.of_nat (length src) in
  bin2hex dst (src ++ r) n = Ok (overlay dst 0 (flat_map hex2 src), 2 * n) /\
  (Forall2 (fun a b => tolower a = b) t (flat_map hex2 src) -> hex2bin out t n = Ok (0, overlay out 0 src)) /\
  hex2bin out t n = Ok (if (decode (length src) t).2 then 0 else -1, overlay out 0 (decode (length src) t).1).
Proof.
  intros Hs Hd Ho Ht Hl n. unfold bin2hex, hex2bin, n. rewrite Nat2Z.id.
  assert (hex2bin_loop (length src) out 0 t =
    Ok (if (decode (length src) t).2 then 0 else -1, overlay out 0 (decode (length src) t).1)) as E
    by (apply hex2bin_loop_spec; done || lia).
  split_and!; [apply bin2hex_loop_spec; done || lia| |exact E].
  intros H2. rewrite E, (decode_hex2 src t) by done. done.
Qed.

(** 0x1f and 0xa0 as "1FA0". *)
Lemma hex_roundtrip_witness :
  bin2hex (replicate 5 0) [31; 160] 2 = Ok ([49; 102; 97; 48; 0], 4) /\
  hex2bin [7; 7; 7] [49; 70; 65; 48] 2 = Ok (0, [31; 160; 7]).
Proof.
  destruct (hex_roundtrip [31; 160] [] (replicate 5 0) [7; 7; 7] [49; 70; 65; 48]) as (E1 & E2 & _);
    [by repeat constructor|cbn; lia|cbn; lia|repeat constructor; lia|cbn; lia|].
  split; [exact E1|]. apply E2. by repeat constructor.
Defined.
