(* ===== verification/KSort.v ===== *)
(** * lib/sort.c and lib/bsearch.c: heap sort and binary search

    An array is the bytes of its object, as the code sees it: elements of [size]
    bytes at scaled offsets, compared through [cmp_func], which gets the bytes of
    the elements.  [int] and [size_t] have 32 bits, and an [int] meeting a [size_t]
    is converted to unsigned.  Loops carry a bound on their iterations; the theorems
    show that it is never reached. *)

From stdpp Require Import sorting.
From S2P Require Import Prelude.
Open Scope Z_scope.

(** ** Swapping *)

(** What a swap must do: exchange the [size] bytes at [a] and at [b]. *)
Definition exchange (m : list Z) (a b size : Z) : list Z :=
  imap (fun k x =>
    let k := Z.of_nat k in
    if decide (a <= k < a + size) then default x (m !! Z.to_nat (k - a + b))
    else if decide (b <= k < b + size) then default x (m !! Z.to_nat (k - b + a))
    else x) m.

(** A 32-bit word, as its four bytes. *)
Definition load32 (m : list Z) (a : Z) : res (list Z) :=
  if (0 <=? a) && (a + 4 <=? Z.of_nat (length m)) then Ok (take 4 (drop (Z.to_nat a) m)) else Fault OutOfBounds.
Definition store32 (m : list Z) (a : Z) (w : list Z) : res (list Z) :=
  if (0 <=? a) && (a + 4 <=? Z.of_nat (length m))
  then Ok (take (Z.to_nat a) m ++ w ++ drop (Z.to_nat a + 4) m) else Fault OutOfBounds.

Definition u32_swap (m : list Z) (a b _size : Z) : res (list Z) :=
  t ← load32 m a;
  v ← load32 m b;
  m ← store32 m a v;
  store32 m b t.

(** The body of the [do] loop, [n] times. *)
Fixpoint generic_swap_loop (n : nat) (m : list Z) (a b : Z) : res (list Z) :=
  match n with
  | O => Ok m
  | S n' =>
      t ← aread m a;
      v ← aread m b;
      m ← awrite m a v;
      m ← awrite m b t;
      generic_swap_loop n' m (a + 1) (b + 1)
  end.
(** [do ... while (--size > 0)] runs once at least. *)
Definition generic_swap (m : list Z) (a b size : Z) : res (list Z) :=
  generic_swap_loop (Z.to_nat (Z.max 1 size)) m a b.

(** ** Sorting *)

(** The element [cmp_func] reads at an offset. *)
Definition elem (m : list Z) (off size : Z) : res (list Z) :=
  if (0 <=? off) && (off + size <=? Z.of_nat (length m))
  then Ok (take (Z.to_nat size) (drop (Z.to_nat off) m)) else Fault OutOfBounds.

Section sort.
  Variable cmp_func : list Z -> list Z -> Z.
  Variable swap_func : list Z -> Z -> Z -> Z -> res (list Z).

(** The inner [for] of both phases; [n] is the end of the heap. *)
Fixpoint sift (fuel : nat) (m : list Z) (n size r : Z) : res (list Z) :=
  match fuel with
  | O => Fault NoFuel
  | S fuel' =>
      if u32 (u32 (r *i 2)%cint + size) <? u32 n then
        let c := i32 (u32 (u32 (r *i 2)%cint + size)) in
        c ← (if u32 c <? u32 (u32 n - size) then
               x ← elem m c size;
               y ← elem m (u32 (u32 c + size)) size;
               Ok (if cmp_func x y <? 0 then i32 (u32 (u32 c + size)) else c)
             else Ok c);
        x ← elem m r size;
        y ← elem m c size;
        if 0 <=? cmp_func x y then Ok m
        else
          m ← swap_func m r c size;
          sift fuel' m n size c
      else Ok m
  end.

Fixpoint heapify (fuel lfuel : nat) (m : list Z) (n size i : Z) : res (list Z) :=
  match lfuel with
  | O => Fault NoFuel
  | S lfuel' =>
      if 0 <=? i then
        m ← sift fuel m n size i;
        heapify fuel lfuel' m n size (i32 (u32 (u32 i - size)))
      else Ok m
  end.

Fixpoint sort_down (fuel lfuel : nat) (m : list Z) (size i : Z) : res (list Z) :=
  match lfuel with
  | O => Fault NoFuel
  | S lfuel' =>
      if 0 <? i then
        m ← swap_func m 0 i size;
        m ← sift fuel m i size 0;
        sort_down fuel lfuel' m size (i32 (u32 (u32 i - size)))
      else Ok m
  end.

Definition sort_with (m : list Z) (num size : Z) : res (list Z) :=
  let fuel := S (Z.to_nat num) in
  let i := i32 (u32 (u32 (num / 2 - 1) * size)) in
  let n := i32 (u32 (num * size)) in
  m ← heapify fuel fuel m n size i;
  sort_down fuel fuel m size (i32 (u32 (u32 n - size))).
End sort.

Definition sort (m : list Z) (num size : Z) (cmp_func : list Z -> list Z -> Z)
    (swap_func : option (list Z -> Z -> Z -> Z -> res (list Z))) : res (list Z) :=
  let swap := match swap_func with
              | Some f => f
              | None => if size =? 4 then u32_swap else generic_swap
              end in
  sort_with cmp_func swap m num size.

(** ** Searching *)

(** [cmp] is [cmp_func] with the key; the result is an offset or NULL. *)
Fixpoint bsearch_loop (fuel : nat) (cmp : list Z -> Z) (m : list Z) (size start end_ : Z) : res (option Z) :=
  match fuel with
  | O => Fault NoFuel
  | S fuel' =>
      if start <? end_ then
        let mid := u32 (start + (end_ - start) / 2) in
        x ← elem m (u32 (mid * size)) size;
        let result := cmp x in
        if result <? 0 then bsearch_loop fuel' cmp m size start mid
        else if 0 <? result then bsearch_loop fuel' cmp m size (u32 (mid + 1)) end_
        else Ok (Some (u32 (mid * size)))
      else Ok None
  end.
Definition bsearch (cmp : list Z -> Z) (m : list Z) (num size : Z) : res (option Z) :=
  bsearch_loop (S (Z.to_nat num)) cmp m size 0 num.

(** * Heap sort on a list of elements *)

(** A comparison function keeps its promise: the sign of a total preorder. *)
Class Comparator {A} (cmp : A -> A -> Z) := {
  cmp_sym : forall x y, Z.sgn (cmp y x) = - Z.sgn (cmp x y);
  cmp_trans : forall x y z, cmp x y <= 0 -> cmp y z <= 0 -> cmp x z <= 0;
}.

Section heap.
  Context {A : Type} (cmp : A -> A -> Z) `{!Comparator cmp}.

Definition le_cmp (x y : A) : Prop := cmp x y <= 0.

Lemma le_cmp_refl x : le_cmp x x.
Proof. unfold le_cmp. pose proof (cmp_sym x x). lia. Qed.
Lemma le_cmp_trans x y z : le_cmp x y -> le_cmp y z -> le_cmp x z.
Proof. apply cmp_trans. Qed.
Lemma le_cmp_total x y : le_cmp x y \/ le_cmp y x.
Proof. unfold le_cmp. pose proof (cmp_sym x y). lia. Qed.
Lemma cmp_neg x y : cmp x y < 0 -> le_cmp x y.
Proof. unfold le_cmp. lia. Qed.
Lemma cmp_nonneg x y : 0 <= cmp x y -> le_cmp y x.
Proof. unfold le_cmp. pose proof (cmp_sym x y). lia. Qed.

(** [c] is a child of [p] in the implicit tree. *)
Definition child (p c : nat) : Prop := c = (2 * p + 1)%nat \/ c = (2 * p + 2)%nat.

(** Every parent from [k] on is at least its children below [n]. *)
Definition heap (k n : nat) (l : list A) : Prop :=
    forall p c x y, (k <= p)%nat -> child p c -> (c < n)%nat -> l !! p = Some x -> l !! c = Some y -> le_cmp y x.

(** The same with a hole at [r]: its parent bounds its children. *)
Definition heap_hole (k n r : nat) (l : list A) : Prop :=
    (forall p c x y, (k <= p)%nat -> p <> r -> child p c -> (c < n)%nat ->
       l !! p = Some x -> l !! c = Some y -> le_cmp y x) /\
    (forall p c x y, (k <= p)%nat -> child p r -> child r c -> (c < n)%nat ->
       l !! p = Some x -> l !! c = Some y -> le_cmp y x).

Definition swapped (l : list A) (i j : nat) : list A :=
    match l !! i, l !! j with
    | Some x, Some y => <[i := y]> (<[j := x]> l)
    | _, _ => l
    end.

Lemma swapped_length l i j : length (swapped l i j) = length l.
Proof. unfold swapped. destruct (l !! i), (l !! j); rewrite ?length_insert; done. Qed.

Lemma swapped_lookup l i j k :
  (i < length l)%nat -> (j < length l)%nat ->
  swapped l i j !! k = if decide (k = i) then l !! j else if decide (k = j) then l !! i else l !! k.
Proof.
  intros Hi Hj. unfold swapped. apply lookup_lt_is_Some in Hi as [x Hx], Hj as [y Hy]. rewrite Hx, Hy.
  apply lookup_lt_Some in Hx as Hi, Hy as Hj.
  destruct (decide (k = i)) as [->|]; [by rewrite list_lookup_insert_eq by (rewrite length_insert; lia)|].
  rewrite list_lookup_insert_ne by done.
  destruct (decide (k = j)) as [->|]; [by rewrite list_lookup_insert_eq | by rewrite list_lookup_insert_ne].
Qed.

Lemma swapped_perm l i j : swapped l i j ≡ₚ l.
Proof.
  unfold swapped. destruct (l !! i) as [x|] eqn:Hx; [|done]. destruct (l !! j) as [y|] eqn:Hy; [|done].
  by apply Permutation_insert_swap.
Qed.

(** Sinking the hole one level restores every pair but those of the new hole. *)
Lemma heap_hole_step k n r c l x y :
  heap_hole k n r l -> (k <= r)%nat -> child r c -> (c < n)%nat -> (n <= length l)%nat ->
  l !! r = Some x -> l !! c = Some y -> le_cmp x y ->
  (forall c' z, child r c' -> (c' < n)%nat -> l !! c' = Some z -> le_cmp z y) ->
  heap_hole k n c (swapped l r c).
Proof.
  intros [Hp Hg] Hkr Hrc Hcn Hnl Hx Hy Hxy Hmax.
  assert (r < length l)%nat by (by eapply lookup_lt_Some). assert (c <> r) by (unfold child in *; lia).
  split.
  - intros p q u v Hkp Hpc Hpq Hqn Hu Hv. rewrite swapped_lookup in Hu, Hv by lia.
    rewrite Hx, Hy in Hu, Hv. destruct (decide (p = r)) as [->|Hpr].
    + injection Hu as <-. rewrite decide_False in Hv by (unfold child in *; lia).
      destruct (decide (q = c)) as [->|]; [by injection Hv as <- | by apply (Hmax q)].
    + rewrite decide_False in Hu by done. destruct (decide (q = r)) as [->|Hqr].
      * injection Hv as <-. by apply (Hg p c).
      * rewrite decide_False in Hv by (unfold child in *; lia). by apply (Hp p q).
  - intros p q u v Hkp Hpc Hcq Hqn Hu Hv. rewrite swapped_lookup in Hu, Hv by lia.
    assert (p = r) as -> by (unfold child in *; lia).
    rewrite decide_True, Hy in Hu by done. injection Hu as <-.
    rewrite !decide_False in Hv by (unfold child in *; lia). apply (Hp c q); unfold child in *; done || lia.
Qed.

(** When the hole bounds its children it is no hole. *)
Lemma heap_hole_done k n r l :
  heap_hole k n r l ->
  (forall c x y, child r c -> (c < n)%nat -> l !! r = Some x -> l !! c = Some y -> le_cmp y x) ->
  heap k n l.
Proof.
  intros [Hp _] Hr p c x y Hk Hpc Hcn Hx Hy. destruct (decide (p = r)) as [->|]; [by apply (Hr c) | by apply (Hp p c)].
Qed.

Lemma heap_root n l j x y :
  heap 0 n l -> (j < n)%nat -> l !! 0%nat = Some x -> l !! j = Some y -> (n <= length l)%nat -> le_cmp y x.
Proof.
  intros Hh Hj Hx. revert y Hj. induction j as [j IH] using lt_wf_ind. intros y Hj Hy Hn.
  destruct (decide (j = 0%nat)) as [->|]; [rewrite Hx in Hy; injection Hy as <-; apply le_cmp_refl|].
  set (p := ((j - 1) / 2)%nat).
  pose proof (Nat.div_mod_eq (j - 1) 2). pose proof (Nat.mod_upper_bound (j - 1) 2 ltac:(lia)).
  destruct (lookup_lt_is_Some_2 l p) as [z Hz]; [lia|].
  apply le_cmp_trans with z; [|apply (IH p); done || lia].
  apply (Hh p j); unfold child; done || lia.
Qed.

(** Exchanging the root with the last element leaves a heap with a hole at the
    root. *)
Lemma heap_pop n l :
  heap 0 (S n) l -> (S n <= length l)%nat -> (0 < n)%nat -> heap_hole 0 n 0 (swapped l 0 n).
Proof.
  intros Hh Hl Hn. split.
  - intros p c x y _ Hp Hpc Hc Hx Hy. rewrite swapped_lookup in Hx, Hy by lia.
    rewrite !decide_False in Hx by (unfold child in *; lia).
    rewrite !decide_False in Hy by (unfold child in *; lia). apply (Hh p c); done || lia.
  - unfold child. lia.
Qed.

(** From a heap up to [n] to one from [k] with a hole at [k]. *)
Lemma heap_extend k n l : heap (S k) n l -> heap_hole k n k l.
Proof.
  intros Hh. split.
  - intros p c x y Hk Hp. apply Hh. lia.
  - unfold child. lia.
Qed.

Lemma heap_leaves k n l : (n <= 2 * k + 1)%nat -> heap k n l.
Proof. unfold heap, child. lia. Qed.
End heap.

(** * Elements in memory *)

(** The bytes of an array of elements, and what follows it. *)
Abbreviation array l rest := (concat l ++ rest).
Abbreviation sized size := (Forall (fun x : list Z => length x = size)).

Lemma concat_size (l : list (list Z)) size : sized size l -> length (concat l) = (length l * size)%nat.
Proof.
  induction 1 as [|x l Hx _ IH]; [done|]. cbn. rewrite length_app, IH, Hx. lia.
Qed.

Lemma array_block l rest size i x :
  sized size l -> l !! i = Some x -> take size (drop (i * size) (array l rest)) = x.
Proof.
  intros Hl. revert l Hl. induction i as [|i IH]; intros [|y l] Hl Hi; try done;
    apply Forall_cons in Hl as [Hy Hl].
  - injection Hi as ->. cbn. rewrite <- app_assoc. by apply take_app_length'.
  - cbn. rewrite <- app_assoc, drop_app_ge by lia. rewrite <- (IH l) by done.
    f_equal. f_equal. lia.
Qed.

Lemma array_lookup l rest size i x k :
  sized size l -> l !! i = Some x -> (k < size)%nat -> array l rest !! (i * size + k)%nat = x !! k.
Proof.
  intros Hl Hi Hk. rewrite <- lookup_drop. pose proof (array_block l rest size i x Hl Hi) as E.
  apply (f_equal (.!! k)) in E. by rewrite lookup_take_lt in E.
Qed.

Lemma elem_array l rest size i x :
  sized (Z.to_nat size) l -> l !! i = Some x -> 1 <= size ->
  elem (array l rest) (Z.of_nat i * size) size = Ok x.
Proof.
  intros Hl Hi Hs. unfold elem. apply lookup_lt_Some in Hi as Hlt.
  rewrite length_app, (concat_size l (Z.to_nat size)) by done.
  rewrite (proj2 (Z.leb_le 0 _)), (proj2 (Z.leb_le _ _)) by nia. cbn [andb]. f_equal.
  replace (Z.to_nat (Z.of_nat i * size)) with (i * Z.to_nat size)%nat by nia. by apply array_block.
Qed.

Lemma exchange_length m a b size : length (exchange m a b size) = length m.
Proof. apply length_imap. Qed.

Lemma exchange_lookup m a b size k :
  0 <= a -> 0 <= b -> a + size <= Z.of_nat (length m) -> b + size <= Z.of_nat (length m) ->
  exchange m a b size !! k =
    if decide (a <= Z.of_nat k < a + size) then m !! Z.to_nat (Z.of_nat k - a + b)
    else if decide (b <= Z.of_nat k < b + size) then m !! Z.to_nat (Z.of_nat k - b + a)
    else m !! k.
Proof.
  intros Ha Hb Hla Hlb. unfold exchange. rewrite list_lookup_imap.
  destruct (m !! k) as [x|] eqn:Hk; cbn.
  - assert (forall j, (j < length m)%nat -> Some (default x (m !! j)) = m !! j) as Hd
      by (intros j Hj; apply lookup_lt_is_Some in Hj as [y ->]; done).
    case_decide; [apply Hd; lia|]. case_decide; [apply Hd; lia|]. done.
  - apply lookup_ge_None in Hk. rewrite !decide_False by lia. done.
Qed.

(** A swap function keeps its promise for elements of [size] bytes. *)
Class Swap (f : list Z -> Z -> Z -> Z -> res (list Z)) (size : Z) :=
  swap_exchanges m a b :
    0 <= a -> 0 <= b -> a + size <= Z.of_nat (length m) -> b + size <= Z.of_nat (length m) ->
    a + size <= b \/ b + size <= a -> f m a b size = Ok (exchange m a b size).

Lemma generic_swap_loop_spec n m a b :
  0 <= a -> 0 <= b -> a + Z.of_nat n <= Z.of_nat (length m) -> b + Z.of_nat n <= Z.of_nat (length m) ->
  a + Z.of_nat n <= b \/ b + Z.of_nat n <= a ->
  generic_swap_loop n m a b = Ok (exchange m a b (Z.of_nat n)).
Proof.
  revert m a b. induction n as [|n IH]; intros m a b Ha Hb Hla Hlb Hd; cbn [generic_swap_loop].
  { f_equal. apply list_eq. intros k. rewrite exchange_lookup by lia. by rewrite !decide_False by lia. }
  destruct (lookup_Z m a) as [x Hx]; [lia|]. destruct (lookup_Z m b) as [y Hy]; [lia|].
  rewrite (aread_lookup m a x), (aread_lookup m b y) by done. cbn [mbind res_bind].
  rewrite awrite_in by lia. cbn [mbind res_bind]. rewrite awrite_in by (rewrite length_insert; lia).
  cbn [mbind res_bind]. rewrite IH by (rewrite ?length_insert; lia). f_equal.
  apply list_eq. intros k. rewrite !exchange_lookup by (rewrite ?length_insert; lia).
  assert (forall j, (j <> Z.to_nat a)%nat -> (j <> Z.to_nat b)%nat ->
    <[Z.to_nat b := x]> (<[Z.to_nat a := y]> m) !! j = m !! j) as Hne
    by (intros; by rewrite !list_lookup_insert_ne by lia).
  destruct (decide (Z.of_nat k = a)) as [<-|Hka].
  { rewrite !(decide_False (P := _ <= _ < _ + Z.of_nat n)) by lia. rewrite decide_True by lia.
    rewrite Nat2Z.id in *. rewrite list_lookup_insert_ne, list_lookup_insert_eq by lia.
    rewrite Z.sub_diag, Z.add_0_l. done. }
  destruct (decide (Z.of_nat k = b)) as [<-|Hkb].
  { rewrite !(decide_False (P := _ <= _ < _ + Z.of_nat n)) by lia. rewrite decide_False, decide_True by lia.
    rewrite Nat2Z.id in *. rewrite list_lookup_insert_eq by (rewrite length_insert; lia).
    rewrite Z.sub_diag, Z.add_0_l. done. }
  repeat case_decide; try lia; rewrite Hne by lia; f_equal; lia.
Qed.

#[export] Instance generic_swap_ok size : 1 <= size -> Swap generic_swap size.
Proof.
  intros Hs m a b ?????. unfold generic_swap. rewrite Z.max_r by lia.
  rewrite generic_swap_loop_spec by lia. by rewrite Z2Nat.id by lia.
Qed.

Lemma load32_in m a : 0 <= a -> a + 4 <= Z.of_nat (length m) -> load32 m a = Ok (take 4 (drop (Z.to_nat a) m)).
Proof.
  intros Ha Hl. unfold load32. by rewrite (proj2 (Z.leb_le 0 a)), (proj2 (Z.leb_le _ _)) by lia.
Qed.
Lemma store32_in m a w :
  0 <= a -> a + 4 <= Z.of_nat (length m) -> length w = 4%nat ->
  exists m', store32 m a w = Ok m' /\ length m' = length m /\
    forall k, m' !! k = if decide (a <= Z.of_nat k < a + 4) then w !! (k - Z.to_nat a)%nat else m !! k.
Proof.
  intros Ha Hl Hw. unfold store32. rewrite (proj2 (Z.leb_le 0 a)), (proj2 (Z.leb_le _ _)) by lia.
  eexists. split; [done|]. split; [rewrite !length_app, length_take, length_drop; lia|]. intros k.
  destruct (decide (k < Z.to_nat a)%nat).
  - rewrite lookup_app_l by (rewrite length_take; lia). rewrite lookup_take_lt by lia. by rewrite decide_False by lia.
  - rewrite lookup_app_r, length_take, Nat.min_l by (rewrite ?length_take; lia). case_decide.
    + by rewrite lookup_app_l by lia.
    + rewrite lookup_app_r, lookup_drop by lia. f_equal. lia.
Qed.

#[export] Instance u32_swap_ok : Swap u32_swap 4.
Proof.
  intros m a b Ha Hb Hla Hlb Hd. unfold u32_swap. rewrite !load32_in by done. cbn [mbind res_bind].
  assert (forall z, 0 <= z -> z + 4 <= Z.of_nat (length m) -> length (take 4 (drop (Z.to_nat z) m)) = 4%nat) as Hlen
    by (intros; rewrite length_take, length_drop; lia).
  destruct (store32_in m a (take 4 (drop (Z.to_nat b) m))) as (m1 & -> & Hl1 & E1); [done | done | by apply Hlen |].
  cbn [mbind res_bind].
  destruct (store32_in m1 b (take 4 (drop (Z.to_nat a) m))) as (m2 & -> & Hl2 & E2); [done | lia | by apply Hlen |].
  f_equal. apply list_eq. intros k. rewrite E2, E1, exchange_lookup by done.
  repeat case_decide; try lia; try done; rewrite lookup_take_lt, lookup_drop by lia; f_equal; lia.
Qed.

(** On an array, exchanging two elements' bytes exchanges the elements. *)
Lemma exchange_array (l : list (list Z)) rest size i j :
  sized (Z.to_nat size) l -> 1 <= size -> (i < length l)%nat -> (j < length l)%nat -> i <> j ->
  exchange (array l rest) (Z.of_nat i * size) (Z.of_nat j * size) size = array (swapped l i j) rest.
Proof.
  intros Hl Hs Hi Hj Hij.
  assert (sized (Z.to_nat size) (swapped l i j)) as Hl' by (by rewrite swapped_perm).
  pose proof (concat_size l _ Hl) as El. pose proof (concat_size _ _ Hl') as El'. rewrite swapped_length in El'.
  assert (forall i, (i < length l)%nat -> Z.of_nat i * size + size <= Z.of_nat (length (array l rest))) as Hin
    by (intros; rewrite length_app, El; nia).
  apply list_eq. intros k. rewrite exchange_lookup by (try apply Hin; lia).
  destruct (decide (k < length l * Z.to_nat size)%nat) as [Hk|Hk].
  2:{ rewrite !decide_False by nia. rewrite !lookup_app_r by lia. by rewrite El, El'. }
  pose proof (Nat.div_mod_eq k (Z.to_nat size)) as Edm.
  pose proof (Nat.mod_upper_bound k (Z.to_nat size) ltac:(lia)) as Hm.
  set (q := (k / Z.to_nat size)%nat) in *. set (d := (k mod Z.to_nat size)%nat) in *.
  assert (q < length l)%nat as Hq by nia. replace k with (q * Z.to_nat size + d)%nat in * by lia. clear Edm.
  destruct (lookup_lt_is_Some_2 l q Hq) as [x Hx], (lookup_lt_is_Some_2 l i Hi) as [u Hu],
    (lookup_lt_is_Some_2 l j Hj) as [v Hv].
  pose proof (swapped_lookup l i j q Hi Hj) as Es. rewrite Hx, Hu, Hv in Es.
  destruct (decide (q = i)) as [->|Hqi].
  { rewrite decide_True by nia. rewrite (array_lookup (swapped l i j) rest _ i v) by done.
    rewrite <- (array_lookup l rest (Z.to_nat size) j v d) by done. f_equal. nia. }
  destruct (decide (q = j)) as [->|Hqj].
  { rewrite decide_False by nia. rewrite decide_True by nia. rewrite (array_lookup (swapped l i j) rest _ j u) by done.
    rewrite <- (array_lookup l rest (Z.to_nat size) i u d) by done. f_equal. nia. }
  rewrite !decide_False by nia. rewrite (array_lookup (swapped l i j) rest _ q x) by done.
  by apply array_lookup.
Qed.

(** * The loops *)

Lemma i32_of_u32 z : -2147483648 <= z < 2147483648 -> i32 (u32 z) = z.
Proof. intros. rewrite wraps_wrapu by lia. by apply i32_small. Qed.
Lemma u32_sub_idemp a b : u32 (u32 a - b) = u32 (a - b).
Proof. apply Zminus_mod_idemp_l. Qed.
Lemma u32_add_idemp a b : u32 (u32 a + b) = u32 (a + b).
Proof. apply Zplus_mod_idemp_l. Qed.

Section loops.
  Context (cmp : list Z -> list Z -> Z) `{!Comparator cmp}.
  Context (swap : list Z -> Z -> Z -> Z -> res (list Z)) (size : Z) `{!Swap swap size}.
  Context (Hsize : 1 <= size) (rest : list Z).
  Implicit Types l : list (list Z).

Abbreviation elements := (sized (Z.to_nat size)).
(** The array's bytes are addressable by an [int]. *)
Abbreviation fits l := (Z.of_nat (length l) * size < 2 ^ 31).
Abbreviation bytes_of l := (array l rest).

Lemma swap_array l i j :
  elements l -> (i < length l)%nat -> (j < length l)%nat -> i <> j ->
  swap (bytes_of l) (Z.of_nat i * size) (Z.of_nat j * size) size = Ok (bytes_of (swapped l i j)).
Proof.
  intros Hl Hi Hj Hij.
  assert (length (bytes_of l) = length l * Z.to_nat size + length rest)%nat as El
    by (by rewrite length_app, (concat_size l (Z.to_nat size))).
  rewrite swap_exchanges by nia. f_equal. by apply exchange_array.
Qed.

(** The larger child, as the code finds it. *)
Lemma larger_child l n r x :
  elements l -> (n <= length l)%nat -> fits l -> (2 * r + 1 < n)%nat -> l !! (2 * r + 1)%nat = Some x ->
  exists c y,
    (let c := Z.of_nat (2 * r + 1) * size in
     if c <? u32 (Z.of_nat n * size - size) then
       x ← elem (bytes_of l) c size;
       y ← elem (bytes_of l) (u32 (c + size)) size;
       Ok (if cmp x y <? 0 then i32 (u32 (c + size)) else c)
     else Ok c) = Ok (Z.of_nat c * size) /\
    child r c /\ (c < n)%nat /\ l !! c = Some y /\
    forall c' z, child r c' -> (c' < n)%nat -> l !! c' = Some z -> le_cmp cmp z y.
Proof.
  intros Hl Hn Hf Hr Hx. cbv zeta. rewrite (u32_small (Z.of_nat n * size - size)) by nia.
  destruct (decide (2 * r + 2 < n)%nat) as [H2|H2].
  - rewrite (proj2 (Z.ltb_lt _ _)) by nia.
    replace (Z.of_nat (2 * r + 1) * size + size) with (Z.of_nat (2 * r + 2) * size) by lia.
    rewrite (u32_small (Z.of_nat (2 * r + 2) * size)), i32_small by nia.
    destruct (lookup_lt_is_Some_2 l (2 * r + 2)) as [y Hy]; [lia|].
    rewrite (elem_array l rest size (2 * r + 1) x), (elem_array l rest size (2 * r + 2) y) by done.
    cbn [mbind res_bind]. destruct (Z.ltb_spec (cmp x y) 0) as [Hlt|Hge].
    + exists (2 * r + 2)%nat, y. split_and!; [done | by right | done | done |].
      intros c' z [-> | ->] _ Hz; [|rewrite Hy in Hz; injection Hz as <-; apply le_cmp_refl, _].
      rewrite Hx in Hz. injection Hz as <-. by apply cmp_neg.
    + exists (2 * r + 1)%nat, x. split_and!; [done | by left | lia | done |].
      intros c' z [-> | ->] _ Hz; [rewrite Hx in Hz; injection Hz as <-; apply le_cmp_refl, _|].
      rewrite Hy in Hz. injection Hz as <-. by apply cmp_nonneg.
  - rewrite (proj2 (Z.ltb_ge _ _)) by nia. exists (2 * r + 1)%nat, x. split_and!; [done | by left | lia | done |].
    intros c' z [-> | ->] Hc Hz; [|lia]. rewrite Hx in Hz. injection Hz as <-. apply le_cmp_refl, _.
Qed.

(** Sifting ends within the bound and turns a heap with a hole into a heap, moving
    elements only between the hole and the end of the heap. *)
Lemma sift_spec fuel l n k r :
  elements l -> (n <= length l)%nat -> fits l -> (k <= r < n)%nat -> (n - r < fuel)%nat ->
  heap_hole cmp k n r l ->
  exists l', sift cmp swap fuel (bytes_of l) (Z.of_nat n * size) size (Z.of_nat r * size) = Ok (bytes_of l') /\
    l' ≡ₚ l /\ heap cmp k n l' /\ forall j, (j < r \/ n <= j)%nat -> l' !! j = l !! j.
Proof.
  revert l r. induction fuel as [|fuel IH]; intros l r Hl Hn Hf Hr Hfuel Hh; [lia|]. cbn [sift].
  rewrite wrapu_wraps, u32_add_idemp by lia.
  replace (Z.of_nat r * size * 2 + size) with (Z.of_nat (2 * r + 1) * size) by lia.
  rewrite (u32_small (Z.of_nat n * size)), (u32_small (Z.of_nat (2 * r + 1) * size)) by nia.
  destruct (Z.ltb_spec (Z.of_nat (2 * r + 1) * size) (Z.of_nat n * size)) as [Hlt|Hge].
  2:{ exists l. split_and!; try done. apply (heap_hole_done _ _ _ r); [done|]. unfold child. nia. }
  rewrite i32_small, (u32_small (Z.of_nat (2 * r + 1) * size)) by nia. assert (2 * r + 1 < n)%nat by nia.
  destruct (lookup_lt_is_Some_2 l (2 * r + 1)) as [x0 Hx0]; [lia|].
  destruct (larger_child l n r x0) as (c & y & E & Hrc & Hcn & Hy & Hmax); [done..|].
  cbv zeta in E. rewrite E. cbn [mbind res_bind]. clear E.
  destruct (lookup_lt_is_Some_2 l r) as [x Hx]; [lia|].
  rewrite (elem_array l rest size r x), (elem_array l rest size c y) by done. cbn [mbind res_bind].
  destruct (Z.leb_spec 0 (cmp x y)) as [Hxy|Hxy].
  { exists l. split_and!; try done. apply (heap_hole_done _ _ _ r); [done|]. intros c' u z Hc' Hlt' Hu Hz.
    rewrite Hx in Hu. injection Hu as <-. apply le_cmp_trans with y; [done | by apply (Hmax c') | by apply cmp_nonneg]. }
  assert (c <> r /\ r < c)%nat as [Hne Hrc'] by (unfold child in Hrc; lia).
  rewrite swap_array by (done || lia). cbn [mbind res_bind].
  destruct (IH (swapped l r c) c) as (l' & E & Hp & Hh' & Hsame); rewrite ?swapped_length; try lia.
  - by rewrite swapped_perm.
  - apply heap_hole_step with x y; try done; try lia. by apply cmp_neg.
  - exists l'. split_and!; [done | by rewrite Hp, swapped_perm | done |].
    intros j Hj. rewrite Hsame by lia. rewrite swapped_lookup by lia. by rewrite !decide_False by lia.
Qed.

(** A downward counter of scaled offsets. *)
Lemma step_down i : 0 <= i -> i * size < 2 ^ 31 -> size < 2 ^ 31 -> i32 (u32 (u32 (i * size) - size)) = (i - 1) * size.
Proof. intros. rewrite u32_sub_idemp, i32_of_u32 by nia. lia. Qed.

(** The first phase: [k] elements remain to be sunk. *)
Lemma heapify_spec fuel lfuel l k :
  elements l -> fits l -> size < 2 ^ 31 -> (length l < fuel)%nat -> (k < lfuel)%nat -> (2 * k <= length l)%nat ->
  heap cmp k (length l) l ->
  exists l', heapify cmp swap fuel lfuel (bytes_of l) (Z.of_nat (length l) * size) size ((Z.of_nat k - 1) * size) =
      Ok (bytes_of l') /\ l' ≡ₚ l /\ heap cmp 0 (length l) l'.
Proof.
  revert l k. induction lfuel as [|lfuel IH]; intros l k Hl Hf Hs Hfuel Hlf Hk Hh; [lia|]. cbn [heapify].
  destruct k as [|k].
  { rewrite (proj2 (Z.leb_gt 0 _)) by lia. by exists l. }
  rewrite (proj2 (Z.leb_le 0 _)) by nia.
  replace (Z.of_nat (S k) - 1) with (Z.of_nat k) by lia.
  destruct (sift_spec fuel l (length l) k k) as (l1 & E & Hp & Hh1 & _); try done; try lia.
  { by apply heap_extend. }
  rewrite E. cbn [mbind res_bind]. rewrite step_down by nia. pose proof (Permutation_length Hp) as El.
  destruct (IH l1 k) as (l2 & E2 & Hp2 & Hh2); try lia.
  - by rewrite Hp.
  - by rewrite El.
  - exists l2. rewrite <- El. split_and!; [done | by rewrite Hp2 | done].
Qed.

(** The state between two rounds of the second phase: a heap in front, the sorted
    largest elements behind it. *)
Definition sorting (i : nat) l : Prop :=
  heap cmp 0 i l /\
  (forall a b x y, (a < i <= b)%nat -> l !! a = Some x -> l !! b = Some y -> le_cmp cmp x y) /\
  (forall a b x y, (i <= a <= b)%nat -> l !! a = Some x -> l !! b = Some y -> le_cmp cmp x y).

(** What a permutation of the front preserves. *)
Lemma front_bounded i l l' y :
  l' ≡ₚ l -> (forall j, (i <= j)%nat -> l' !! j = l !! j) ->
  (forall a x, (a < i)%nat -> l !! a = Some x -> le_cmp cmp x y) ->
  forall a x, (a < i)%nat -> l' !! a = Some x -> le_cmp cmp x y.
Proof.
  intros Hp Hsame Hb a x Ha Hx.
  assert (drop i l' = drop i l) as Ed by (apply list_eq; intros j; rewrite !lookup_drop; apply Hsame; lia).
  rewrite <- (take_drop i l'), <- (take_drop i l), Ed in Hp. apply Permutation_app_inv_r in Hp.
  assert (x ∈ take i l) as Hin.
  { rewrite <- Hp. apply list_elem_of_lookup. exists a. by rewrite lookup_take_lt. }
  apply list_elem_of_lookup in Hin as [b Hb']. apply lookup_take_Some in Hb' as [Hb' Hlt]. by apply (Hb b).
Qed.

Lemma sorting_step i l l' :
  sorting (S i) l -> (S i <= length l)%nat ->
  l' ≡ₚ swapped l 0 i -> heap cmp 0 i l' -> (forall j, (i <= j)%nat -> l' !! j = swapped l 0 i !! j) ->
  sorting i l'.
Proof.
  intros (Hh & Hfb & Hbb) Hl Hp Hh' Hsame.
  assert (forall j, swapped l 0 i !! j = if decide (j = 0)%nat then l !! i else if decide (j = i) then l !! 0%nat else l !! j) as Es
    by (intros; apply swapped_lookup; lia).
  destruct (lookup_lt_is_Some_2 l 0) as [m Hm]; [lia|].
  assert (l' !! i = Some m) as Hi.
  { rewrite Hsame, Es by lia. destruct (decide (i = 0)%nat) as [->|]; [done|]. by rewrite decide_True. }
  assert (forall j, (i < j)%nat -> l' !! j = l !! j) as Hback
    by (intros; rewrite Hsame, Es by lia; by rewrite !decide_False by lia).
  (* every element up to [i] was in the heap, hence at most its root *)
  assert (forall a x, (a < i)%nat -> swapped l 0 i !! a = Some x -> exists b, (b <= i)%nat /\ l !! b = Some x) as Hfrom.
  { intros a x Ha. rewrite Es. repeat case_decide; subst; intros; [exists i | lia | exists a]; split; done || lia. }
  split_and!; [done | |].
  - intros a b x y Hab Hx Hy. revert a x Hab Hx. intros a x Hab Hx.
    apply (front_bounded i (swapped l 0 i) l' y) with a; [done | done | | lia | done].
    intros a' x' Ha' Hx'. destruct (Hfrom a' x' Ha' Hx') as (b' & Hb' & Hx0).
    destruct (decide (b = i)) as [->|].
    + rewrite Hi in Hy. injection Hy as <-. by apply (heap_root cmp (S i) l b'); try lia.
    + rewrite Hback in Hy by lia. apply (Hfb b' b); done || lia.
  - intros a b x y Hab Hx Hy. destruct (decide (a = i)) as [->|].
    + rewrite Hi in Hx. injection Hx as <-. destruct (decide (b = i)) as [->|].
      * rewrite Hi in Hy. injection Hy as <-. by apply le_cmp_refl.
      * rewrite Hback in Hy by lia. apply (Hfb 0%nat b); done || lia.
    + rewrite Hback in Hx, Hy by lia. apply (Hbb a b); done || lia.
Qed.

Lemma sort_down_spec fuel lfuel l i :
  elements l -> fits l -> size < 2 ^ 31 -> (length l < fuel)%nat -> (i <= lfuel)%nat -> (0 < lfuel)%nat ->
  (i <= length l)%nat -> sorting i l ->
  exists l', sort_down cmp swap fuel lfuel (bytes_of l) size ((Z.of_nat i - 1) * size) = Ok (bytes_of l') /\
    l' ≡ₚ l /\ sorting (min i 1) l'.
Proof.
  revert l i. induction lfuel as [|lfuel IH]; intros l i Hl Hf Hs Hfuel Hlf Hlf0 Hi Hst; [lia|]. cbn [sort_down].
  destruct i as [|[|i]].
  { rewrite (proj2 (Z.ltb_ge 0 _)) by nia. by exists l. }
  { rewrite (proj2 (Z.ltb_ge 0 _)) by nia. by exists l. }
  rewrite (proj2 (Z.ltb_lt 0 _)) by nia. replace (Z.of_nat (S (S i)) - 1) with (Z.of_nat (S i)) by lia.
  pose proof (swap_array l 0 (S i) Hl ltac:(lia) ltac:(lia) ltac:(lia)) as Esw. rewrite Z.mul_0_l in Esw.
  rewrite Esw. cbn [mbind res_bind]. clear Esw.
  destruct (sift_spec fuel (swapped l 0 (S i)) (S i) 0 0) as (l1 & E & Hp & Hh1 & Hsame);
    rewrite ?swapped_length; try done; try lia.
  { by rewrite swapped_perm. }
  { apply heap_pop; [apply Hst|lia|lia]. }
  rewrite Z.mul_0_l in E. rewrite E. cbn [mbind res_bind]. rewrite step_down by nia.
  pose proof (Permutation_length Hp) as El. rewrite swapped_length in El.
  destruct (IH l1 (S i)) as (l2 & E2 & Hp2 & Hs2); try lia.
  - by rewrite Hp, swapped_perm.
  - apply (sorting_step (S i) l); try done. intros j Hj. apply Hsame. lia.
  - exists l2. split_and!; [done | by rewrite Hp2, Hp, swapped_perm |]. by replace (S (S i) `min` 1)%nat with (S i `min` 1)%nat by lia.
Qed.

Lemma sorting_sorted i l : (i <= 1)%nat -> sorting i l -> StronglySorted (le_cmp cmp) l.
Proof.
  intros Hi (_ & Hfb & Hbb).
  assert (forall a b x y, (a < b)%nat -> l !! a = Some x -> l !! b = Some y -> le_cmp cmp x y) as Hs.
  { intros a b x y Hab. destruct (decide (a < i)%nat); [apply Hfb; lia | apply Hbb; lia]. }
  clear Hfb Hbb. induction l as [|x l IH]; constructor.
  - apply IH. intros a b u v Hab Hu Hv. apply (Hs (S a) (S b)); done || lia.
  - apply Forall_lookup. intros j y Hy. apply (Hs 0%nat (S j)); done || lia.
Qed.

Lemma sort_with_spec l :
  elements l -> fits l -> size < 2 ^ 31 ->
  exists l', sort_with cmp swap (bytes_of l) (Z.of_nat (length l)) size = Ok (bytes_of l') /\
    l' ≡ₚ l /\ StronglySorted (le_cmp cmp) l'.
Proof.
  intros Hl Hf Hs. unfold sort_with. rewrite Nat2Z.id.
  set (n := length l) in *. set (h := (n / 2)%nat).
  assert (Z.of_nat n / 2 = Z.of_nat h) as -> by (symmetry; apply (Nat2Z.inj_div n 2)).
  pose proof (Nat.div_mod_eq n 2). pose proof (Nat.mod_upper_bound n 2 ltac:(lia)). fold h in H.
  assert (i32 (u32 (u32 (Z.of_nat h - 1) * size)) = (Z.of_nat h - 1) * size) as ->.
  { unfold wrapu at 2. unfold wrapu. rewrite Zmult_mod_idemp_l. apply i32_of_u32. nia. }
  rewrite (i32_of_u32 (Z.of_nat n * size)) by nia. rewrite step_down by nia.
  destruct (heapify_spec (S n) (S n) l h) as (l1 & E & Hp & Hh); try done; try lia.
  { apply heap_leaves. lia. }
  fold n in E. rewrite E. cbn [mbind res_bind]. pose proof (Permutation_length Hp) as El. fold n in El.
  destruct (sort_down_spec (S n) (S n) l1 n) as (l2 & E2 & Hp2 & Hs2); try lia.
  - by rewrite Hp.
  - split_and!; [done | |]; intros a b x y Hab Hx Hy; apply lookup_lt_Some in Hy; lia.
  - exists l2. split_and!; [done | by rewrite Hp2 | by eapply sorting_sorted; [|done]; lia].
Qed.
End loops.

(** * Binary search *)

(** The key's comparison is consistent with ascending order. *)
Definition ascending (cmp : list Z -> Z) (l : list (list Z)) : Prop :=
  forall i j x y, (i < j)%nat -> l !! i = Some x -> l !! j = Some y ->
    (cmp x <= 0 -> cmp y <= 0) /\ (cmp x < 0 -> cmp y < 0).

Lemma bsearch_loop_spec fuel cmp l rest size s e :
  sized (Z.to_nat size) l -> 1 <= size -> Z.of_nat (length l) * size < 2 ^ 32 ->
  ascending cmp l -> (s <= e <= length l)%nat -> (e - s < fuel)%nat ->
  (forall i x, (i < s)%nat -> l !! i = Some x -> 0 < cmp x) ->
  (forall i x, (e <= i)%nat -> l !! i = Some x -> cmp x < 0) ->
  exists o, bsearch_loop fuel cmp (array l rest) size (Z.of_nat s) (Z.of_nat e) = Ok o /\
    match o with
    | Some k => exists i x, k = Z.of_nat i * size /\ l !! i = Some x /\ cmp x = 0
    | None => Forall (fun x => cmp x <> 0) l
    end.
Proof.
  intros Hl Hs Hf Hasc. revert s e. induction fuel as [|fuel IH]; intros s e Hse Hfuel Hlo Hhi; [lia|].
  cbn [bsearch_loop]. destruct (Z.ltb_spec (Z.of_nat s) (Z.of_nat e)) as [Hlt|Hge].
  2:{ exists None. split; [done|]. apply Forall_lookup. intros i x Hx.
      destruct (decide (i < s)%nat); [specialize (Hlo i x ltac:(done) Hx) | specialize (Hhi i x ltac:(lia) Hx)]; lia. }
  set (m := (s + (e - s) / 2)%nat).
  assert (s <= m < e)%nat as Hm by (pose proof (Nat.div_lt (e - s) 2); unfold m; lia).
  assert (Z.of_nat s + (Z.of_nat e - Z.of_nat s) / 2 = Z.of_nat m) as ->.
  { unfold m. rewrite Nat2Z.inj_add, Nat2Z.inj_div, Nat2Z.inj_sub by lia. done. }
  rewrite (u32_small (Z.of_nat m)), (u32_small (Z.of_nat m * size)) by nia.
  destruct (lookup_lt_is_Some_2 l m) as [x Hx]; [lia|].
  rewrite (elem_array l rest size m x) by done. cbn [mbind res_bind].
  destruct (Z.ltb_spec (cmp x) 0) as [Hneg|Hpos].
  { apply IH; try lia; try done. intros i y Hi Hy. destruct (decide (i = m)) as [->|].
    - rewrite Hx in Hy. by injection Hy as <-.
    - by apply (Hasc m i x y); [lia|..]. }
  destruct (Z.ltb_spec 0 (cmp x)) as [Hgt|Hle].
  - rewrite u32_small by nia. replace (Z.of_nat m + 1) with (Z.of_nat (S m)) by lia.
    apply IH; try lia; try done. intros i y Hi Hy. destruct (decide (i = m)) as [->|].
    + rewrite Hx in Hy. by injection Hy as <-.
    + destruct (Z.lt_ge_cases 0 (cmp y)); [done|]. destruct (Hasc i m y x) as [Hc _]; try done; lia.
  - exists (Some (Z.of_nat m * size)). split; [done|]. exists m, x. split_and!; [done | done | lia].
Qed.

Lemma StronglySorted_lookup {A} (R : A -> A -> Prop) (l : list A) i j x y :
  StronglySorted R l -> (i < j)%nat -> l !! i = Some x -> l !! j = Some y -> R x y.
Proof.
  intros Hs. revert i j. induction Hs as [|a l _ IH Ha]; intros i j Hij Hx Hy; [done|].
  destruct j as [|j]; [lia|]. destruct i as [|i].
  - injection Hx as ->. eapply Forall_lookup_1; [exact Ha|exact Hy].
  - apply (IH i j); done || lia.
Qed.

(** A table sorted by a comparison is ascending for every key compared by it. *)
Lemma sorted_ascending cmp `{!Comparator cmp} key l :
  StronglySorted (le_cmp cmp) l -> ascending (cmp key) l.
Proof.
  intros Hs i j x y Hij Hx Hy. pose proof (StronglySorted_lookup _ _ _ _ _ _ Hs Hij Hx Hy) as Hxy.
  split; intros H.
  - by apply le_cmp_trans with x.
  - destruct (Z.lt_ge_cases (cmp key y) 0) as [|Hge]; [done|]. exfalso.
    apply cmp_nonneg in Hge; [|done]. pose proof (le_cmp_trans _ _ _ _ Hxy Hge) as Hle.
    unfold le_cmp in Hle. pose proof (cmp_sym x key). lia.
Qed.

(** * Properties *)

(** C36: [sort] sorts in place: for every total preorder [cmp_func] and every element
    size, with the default swap functions or any that exchanges two elements, it
    ends (each loop within [num + 1] rounds), touches no byte outside the array, and
    leaves a permutation of the elements in ascending order, for arrays of less than
    2^31 bytes.  [bsearch] with a key compared by the same function then returns the
    offset of an equal element exactly when there is one. *)
Theorem sort_and_search cmp swap_func size (l : list (list Z)) rest key :
  Comparator cmp -> 1 <= size < 2 ^ 31 ->
  match swap_func with Some f => Swap f size | None => True end ->
  Forall (fun x => length x = Z.to_nat size) l -> Z.of_nat (length l) * size < 2 ^ 31 ->
  exists l', sort (array l rest) (Z.of_nat (length l)) size cmp swap_func = Ok (array l' rest) /\
    l' ≡ₚ l /\ StronglySorted (le_cmp cmp) l' /\
    exists o, bsearch (cmp key) (array l' rest) (Z.of_nat (length l)) size = Ok o /\
      match o with
      | Some k => exists i x, k = Z.of_nat i * size /\ l' !! i = Some x /\ cmp key x = 0
      | None => Forall (fun x => cmp key x <> 0) l
      end.
Proof.
  intros Hc Hs Hsw Hl Hf.
  assert (Swap (match swap_func with Some f => f | None => if size =? 4 then u32_swap else generic_swap end) size).
  { destruct swap_func; [done|]. destruct (Z.eqb_spec size 4) as [->|]; [apply _ | apply generic_swap_ok; lia]. }
  destruct (sort_with_spec cmp _ size (proj1 Hs) rest l Hl Hf (proj2 Hs)) as (l' & E & Hp & Hsort).
  exists l'. split_and!; [exact E | done | done |]. pose proof (Permutation_length Hp) as El.
  destruct (bsearch_loop_spec (S (length l)) (cmp key) l' rest size 0 (length l)) as (o & Eo & Ho); try lia.
  - by rewrite Hp.
  - by apply sorted_ascending.
  - intros i x Hi Hx. apply lookup_lt_Some in Hx. lia.
  - exists o. split; [unfold bsearch; by rewrite Nat2Z.id|]. destruct o; [done|]. by rewrite <- Hp.
Qed.

(** A comparison of single bytes, for the example. *)
Definition byte_cmp (a b : list Z) : Z := default 0 (head a) - default 0 (head b).

#[export] Instance byte_cmp_ok : Comparator byte_cmp.
Proof. split; intros; unfold byte_cmp in *; lia. Qed.

Lemma sort_and_search_witness :
  exists l', sort [3; 1; 2; 9] 3 1 byte_cmp None = Ok (concat l' ++ [9]) /\ l' ≡ₚ [[3]; [1]; [2]].
Proof.
  destruct (sort_and_search byte_cmp None 1 [[3]; [1]; [2]] [9] [2]) as (l' & E & Hp & _).
  - apply byte_cmp_ok.
  - lia.
  - done.
  - by repeat constructor.
  - cbn. lia.
  - exists l'. split; [exact E | exact Hp].
Defined.
