(* ===== verification/KCrc.v ===== *)
(** * lib/crc7.c, crc8.c, crc16.c, crc-ccitt.c, crc-itu-t.c and bitrev.c

    The cyclic redundancy checks, each driven by a table of 256 entries, and the
    reversal of bits.  A buffer is the list of its bytes from the pointer on; the
    loops run over [len] of them. *)

From S2P Require Import Prelude KString.
Open Scope Z_scope.

(** ** Tables *)

Definition crc7_be_syndrome_table : list Z :=
  [0x00; 0x12; 0x24; 0x36; 0x48; 0x5a; 0x6c; 0x7e; 0x90; 0x82; 0xb4; 0xa6; 0xd8; 0xca; 0xfc; 0xee;
   0x32; 0x20; 0x16; 0x04; 0x7a; 0x68; 0x5e; 0x4c; 0xa2; 0xb0; 0x86; 0x94; 0xea; 0xf8; 0xce; 0xdc;
   0x64; 0x76; 0x40; 0x52; 0x2c; 0x3e; 0x08; 0x1a; 0xf4; 0xe6; 0xd0; 0xc2; 0xbc; 0xae; 0x98; 0x8a;
   0x56; 0x44; 0x72; 0x60; 0x1e; 0x0c; 0x3a; 0x28; 0xc6; 0xd4; 0xe2; 0xf0; 0x8e; 0x9c; 0xaa; 0xb8;
   0xc8; 0xda; 0xec; 0xfe; 0x80; 0x92; 0xa4; 0xb6; 0x58; 0x4a; 0x7c; 0x6e; 0x10; 0x02; 0x34; 0x26;
   0xfa; 0xe8; 0xde; 0xcc; 0xb2; 0xa0; 0x96; 0x84; 0x6a; 0x78; 0x4e; 0x5c; 0x22; 0x30; 0x06; 0x14;
   0xac; 0xbe; 0x88; 0x9a; 0xe4; 0xf6; 0xc0; 0xd2; 0x3c; 0x2e; 0x18; 0x0a; 0x74; 0x66; 0x50; 0x42;
   0x9e; 0x8c; 0xba; 0xa8; 0xd6; 0xc4; 0xf2; 0xe0; 0x0e; 0x1c; 0x2a; 0x38; 0x46; 0x54; 0x62; 0x70;
   0x82; 0x90; 0xa6; 0xb4; 0xca; 0xd8; 0xee; 0xfc; 0x12; 0x00; 0x36; 0x24; 0x5a; 0x48; 0x7e; 0x6c;
   0xb0; 0xa2; 0x94; 0x86; 0xf8; 0xea; 0xdc; 0xce; 0x20; 0x32; 0x04; 0x16; 0x68; 0x7a; 0x4c; 0x5e;
   0xe6; 0xf4; 0xc2; 0xd0; 0xae; 0xbc; 0x8a; 0x98; 0x76; 0x64; 0x52; 0x40; 0x3e; 0x2c; 0x1a; 0x08;
   0xd4; 0xc6; 0xf0; 0xe2; 0x9c; 0x8e; 0xb8; 0xaa; 0x44; 0x56; 0x60; 0x72; 0x0c; 0x1e; 0x28; 0x3a;
   0x4a; 0x58; 0x6e; 0x7c; 0x02; 0x10; 0x26; 0x34; 0xda; 0xc8; 0xfe; 0xec; 0x92; 0x80; 0xb6; 0xa4;
   0x78; 0x6a; 0x5c; 0x4e; 0x30; 0x22; 0x14; 0x06; 0xe8; 0xfa; 0xcc; 0xde; 0xa0; 0xb2; 0x84; 0x96;
   0x2e; 0x3c; 0x0a; 0x18; 0x66; 0x74; 0x42; 0x50; 0xbe; 0xac; 0x9a; 0x88; 0xf6; 0xe4; 0xd2; 0xc0;
   0x1c; 0x0e; 0x38; 0x2a; 0x54; 0x46; 0x70; 0x62; 0x8c; 0x9e; 0xa8; 0xba; 0xc4; 0xd6; 0xe0; 0xf2].

Definition crc16_table : list Z :=
  [0x0000; 0xc0c1; 0xc181; 0x0140; 0xc301; 0x03c0; 0x0280; 0xc241; 0xc601; 0x06c0; 0x0780; 0xc741; 0x0500; 0xc5c1; 0xc481; 0x0440;
   0xcc01; 0x0cc0; 0x0d80; 0xcd41; 0x0f00; 0xcfc1; 0xce81; 0x0e40; 0x0a00; 0xcac1; 0xcb81; 0x0b40; 0xc901; 0x09c0; 0x0880; 0xc841;
   0xd801; 0x18c0; 0x1980; 0xd941; 0x1b00; 0xdbc1; 0xda81; 0x1a40; 0x1e00; 0xdec1; 0xdf81; 0x1f40; 0xdd01; 0x1dc0; 0x1c80; 0xdc41;
   0x1400; 0xd4c1; 0xd581; 0x1540; 0xd701; 0x17c0; 0x1680; 0xd641; 0xd201; 0x12c0; 0x1380; 0xd341; 0x1100; 0xd1c1; 0xd081; 0x1040;
   0xf001; 0x30c0; 0x3180; 0xf141; 0x3300; 0xf3c1; 0xf281; 0x3240; 0x3600; 0xf6c1; 0xf781; 0x3740; 0xf501; 0x35c0; 0x3480; 0xf441;
   0x3c00; 0xfcc1; 0xfd81; 0x3d40; 0xff01; 0x3fc0; 0x3e80; 0xfe41; 0xfa01; 0x3ac0; 0x3b80; 0xfb41; 0x3900; 0xf9c1; 0xf881; 0x3840;
   0x2800; 0xe8c1; 0xe981; 0x2940; 0xeb01; 0x2bc0; 0x2a80; 0xea41; 0xee01; 0x2ec0; 0x2f80; 0xef41; 0x2d00; 0xedc1; 0xec81; 0x2c40;
   0xe401; 0x24c0; 0x2580; 0xe541; 0x2700; 0xe7c1; 0xe681; 0x2640; 0x2200; 0xe2c1; 0xe381; 0x2340; 0xe101; 0x21c0; 0x2080; 0xe041;
   0xa001; 0x60c0; 0x6180; 0xa141; 0x6300; 0xa3c1; 0xa281; 0x6240; 0x6600; 0xa6c1; 0xa781; 0x6740; 0xa501; 0x65c0; 0x6480; 0xa441;
   0x6c00; 0xacc1; 0xad81; 0x6d40; 0xaf01; 0x6fc0; 0x6e80; 0xae41; 0xaa01; 0x6ac0; 0x6b80; 0xab41; 0x6900; 0xa9c1; 0xa881; 0x6840;
   0x7800; 0xb8c1; 0xb981; 0x7940; 0xbb01; 0x7bc0; 0x7a80; 0xba41; 0xbe01; 0x7ec0; 0x7f80; 0xbf41; 0x7d00; 0xbdc1; 0xbc81; 0x7c40;
   0xb401; 0x74c0; 0x7580; 0xb541; 0x7700; 0xb7c1; 0xb681; 0x7640; 0x7200; 0xb2c1; 0xb381; 0x7340; 0xb101; 0x71c0; 0x7080; 0xb041;
   0x5000; 0x90c1; 0x9181; 0x5140; 0x9301; 0x53c0; 0x5280; 0x9241; 0x9601; 0x56c0; 0x5780; 0x9741; 0x5500; 0x95c1; 0x9481; 0x5440;
   0x9c01; 0x5cc0; 0x5d80; 0x9d41; 0x5f00; 0x9fc1; 0x9e81; 0x5e40; 0x5a00; 0x9ac1; 0x9b81; 0x5b40; 0x9901; 0x59c0; 0x5880; 0x9841;
   0x8801; 0x48c0; 0x4980; 0x8941; 0x4b00; 0x8bc1; 0x8a81; 0x4a40; 0x4e00; 0x8ec1; 0x8f81; 0x4f40; 0x8d01; 0x4dc0; 0x4c80; 0x8c41;
   0x4400; 0x84c1; 0x8581; 0x4540; 0x8701; 0x47c0; 0x4680; 0x8641; 0x8201; 0x42c0; 0x4380; 0x8341; 0x4100; 0x81c1; 0x8081; 0x4040].

Definition crc_ccitt_table : list Z :=
  [0x0000; 0x1189; 0x2312; 0x329b; 0x4624; 0x57ad; 0x6536; 0x74bf; 0x8c48; 0x9dc1; 0xaf5a; 0xbed3; 0xca6c; 0xdbe5; 0xe97e; 0xf8f7;
   0x1081; 0x0108; 0x3393; 0x221a; 0x56a5; 0x472c; 0x75b7; 0x643e; 0x9cc9; 0x8d40; 0xbfdb; 0xae52; 0xdaed; 0xcb64; 0xf9ff; 0xe876;
   0x2102; 0x308b; 0x0210; 0x1399; 0x6726; 0x76af; 0x4434; 0x55bd; 0xad4a; 0xbcc3; 0x8e58; 0x9fd1; 0xeb6e; 0xfae7; 0xc87c; 0xd9f5;
   0x3183; 0x200a; 0x1291; 0x0318; 0x77a7; 0x662e; 0x54b5; 0x453c; 0xbdcb; 0xac42; 0x9ed9; 0x8f50; 0xfbef; 0xea66; 0xd8fd; 0xc974;
   0x4204; 0x538d; 0x6116; 0x709f; 0x0420; 0x15a9; 0x2732; 0x36bb; 0xce4c; 0xdfc5; 0xed5e; 0xfcd7; 0x8868; 0x99e1; 0xab7a; 0xbaf3;
   0x5285; 0x430c; 0x7197; 0x601e; 0x14a1; 0x0528; 0x37b3; 0x263a; 0xdecd; 0xcf44; 0xfddf; 0xec56; 0x98e9; 0x8960; 0xbbfb; 0xaa72;
   0x6306; 0x728f; 0x4014; 0x519d; 0x2522; 0x34ab; 0x0630; 0x17b9; 0xef4e; 0xfec7; 0xcc5c; 0xddd5; 0xa96a; 0xb8e3; 0x8a78; 0x9bf1;
   0x7387; 0x620e; 0x5095; 0x411c; 0x35a3; 0x242a; 0x16b1; 0x0738; 0xffcf; 0xee46; 0xdcdd; 0xcd54; 0xb9eb; 0xa862; 0x9af9; 0x8b70;
   0x8408; 0x9581; 0xa71a; 0xb693; 0xc22c; 0xd3a5; 0xe13e; 0xf0b7; 0x0840; 0x19c9; 0x2b52; 0x3adb; 0x4e64; 0x5fed; 0x6d76; 0x7cff;
   0x9489; 0x8500; 0xb79b; 0xa612; 0xd2ad; 0xc324; 0xf1bf; 0xe036; 0x18c1; 0x0948; 0x3bd3; 0x2a5a; 0x5ee5; 0x4f6c; 0x7df7; 0x6c7e;
   0xa50a; 0xb483; 0x8618; 0x9791; 0xe32e; 0xf2a7; 0xc03c; 0xd1b5; 0x2942; 0x38cb; 0x0a50; 0x1bd9; 0x6f66; 0x7eef; 0x4c74; 0x5dfd;
   0xb58b; 0xa402; 0x9699; 0x8710; 0xf3af; 0xe226; 0xd0bd; 0xc134; 0x39c3; 0x284a; 0x1ad1; 0x0b58; 0x7fe7; 0x6e6e; 0x5cf5; 0x4d7c;
   0xc60c; 0xd785; 0xe51e; 0xf497; 0x8028; 0x91a1; 0xa33a; 0xb2b3; 0x4a44; 0x5bcd; 0x6956; 0x78df; 0x0c60; 0x1de9; 0x2f72; 0x3efb;
   0xd68d; 0xc704; 0xf59f; 0xe416; 0x90a9; 0x8120; 0xb3bb; 0xa232; 0x5ac5; 0x4b4c; 0x79d7; 0x685e; 0x1ce1; 0x0d68; 0x3ff3; 0x2e7a;
   0xe70e; 0xf687; 0xc41c; 0xd595; 0xa12a; 0xb0a3; 0x8238; 0x93b1; 0x6b46; 0x7acf; 0x4854; 0x59dd; 0x2d62; 0x3ceb; 0x0e70; 0x1ff9;
   0xf78f; 0xe606; 0xd49d; 0xc514; 0xb1ab; 0xa022; 0x92b9; 0x8330; 0x7bc7; 0x6a4e; 0x58d5; 0x495c; 0x3de3; 0x2c6a; 0x1ef1; 0x0f78].

Definition crc_itu_t_table : list Z :=
  [0x0000; 0x1021; 0x2042; 0x3063; 0x4084; 0x50a5; 0x60c6; 0x70e7; 0x8108; 0x9129; 0xa14a; 0xb16b; 0xc18c; 0xd1ad; 0xe1ce; 0xf1ef;
   0x1231; 0x0210; 0x3273; 0x2252; 0x52b5; 0x4294; 0x72f7; 0x62d6; 0x9339; 0x8318; 0xb37b; 0xa35a; 0xd3bd; 0xc39c; 0xf3ff; 0xe3de;
   0x2462; 0x3443; 0x0420; 0x1401; 0x64e6; 0x74c7; 0x44a4; 0x5485; 0xa56a; 0xb54b; 0x8528; 0x9509; 0xe5ee; 0xf5cf; 0xc5ac; 0xd58d;
   0x3653; 0x2672; 0x1611; 0x0630; 0x76d7; 0x66f6; 0x5695; 0x46b4; 0xb75b; 0xa77a; 0x9719; 0x8738; 0xf7df; 0xe7fe; 0xd79d; 0xc7bc;
   0x48c4; 0x58e5; 0x6886; 0x78a7; 0x0840; 0x1861; 0x2802; 0x3823; 0xc9cc; 0xd9ed; 0xe98e; 0xf9af; 0x8948; 0x9969; 0xa90a; 0xb92b;
   0x5af5; 0x4ad4; 0x7ab7; 0x6a96; 0x1a71; 0x0a50; 0x3a33; 0x2a12; 0xdbfd; 0xcbdc; 0xfbbf; 0xeb9e; 0x9b79; 0x8b58; 0xbb3b; 0xab1a;
   0x6ca6; 0x7c87; 0x4ce4; 0x5cc5; 0x2c22; 0x3c03; 0x0c60; 0x1c41; 0xedae; 0xfd8f; 0xcdec; 0xddcd; 0xad2a; 0xbd0b; 0x8d68; 0x9d49;
   0x7e97; 0x6eb6; 0x5ed5; 0x4ef4; 0x3e13; 0x2e32; 0x1e51; 0x0e70; 0xff9f; 0xefbe; 0xdfdd; 0xcffc; 0xbf1b; 0xaf3a; 0x9f59; 0x8f78;
   0x9188; 0x81a9; 0xb1ca; 0xa1eb; 0xd10c; 0xc12d; 0xf14e; 0xe16f; 0x1080; 0x00a1; 0x30c2; 0x20e3; 0x5004; 0x4025; 0x7046; 0x6067;
   0x83b9; 0x9398; 0xa3fb; 0xb3da; 0xc33d; 0xd31c; 0xe37f; 0xf35e; 0x02b1; 0x1290; 0x22f3; 0x32d2; 0x4235; 0x5214; 0x6277; 0x7256;
   0xb5ea; 0xa5cb; 0x95a8; 0x8589; 0xf56e; 0xe54f; 0xd52c; 0xc50d; 0x34e2; 0x24c3; 0x14a0; 0x0481; 0x7466; 0x6447; 0x5424; 0x4405;
   0xa7db; 0xb7fa; 0x8799; 0x97b8; 0xe75f; 0xf77e; 0xc71d; 0xd73c; 0x26d3; 0x36f2; 0x0691; 0x16b0; 0x6657; 0x7676; 0x4615; 0x5634;
   0xd94c; 0xc96d; 0xf90e; 0xe92f; 0x99c8; 0x89e9; 0xb98a; 0xa9ab; 0x5844; 0x4865; 0x7806; 0x6827; 0x18c0; 0x08e1; 0x3882; 0x28a3;
   0xcb7d; 0xdb5c; 0xeb3f; 0xfb1e; 0x8bf9; 0x9bd8; 0xabbb; 0xbb9a; 0x4a75; 0x5a54; 0x6a37; 0x7a16; 0x0af1; 0x1ad0; 0x2ab3; 0x3a92;
   0xfd2e; 0xed0f; 0xdd6c; 0xcd4d; 0xbdaa; 0xad8b; 0x9de8; 0x8dc9; 0x7c26; 0x6c07; 0x5c64; 0x4c45; 0x3ca2; 0x2c83; 0x1ce0; 0x0cc1;
   0xef1f; 0xff3e; 0xcf5d; 0xdf7c; 0xaf9b; 0xbfba; 0x8fd9; 0x9ff8; 0x6e17; 0x7e36; 0x4e55; 0x5e74; 0x2e93; 0x3eb2; 0x0ed1; 0x1ef0].

Definition byte_rev_table : list Z :=
  [0x00; 0x80; 0x40; 0xc0; 0x20; 0xa0; 0x60; 0xe0; 0x10; 0x90; 0x50; 0xd0; 0x30; 0xb0; 0x70; 0xf0;
   0x08; 0x88; 0x48; 0xc8; 0x28; 0xa8; 0x68; 0xe8; 0x18; 0x98; 0x58; 0xd8; 0x38; 0xb8; 0x78; 0xf8;
   0x04; 0x84; 0x44; 0xc4; 0x24; 0xa4; 0x64; 0xe4; 0x14; 0x94; 0x54; 0xd4; 0x34; 0xb4; 0x74; 0xf4;
   0x0c; 0x8c; 0x4c; 0xcc; 0x2c; 0xac; 0x6c; 0xec; 0x1c; 0x9c; 0x5c; 0xdc; 0x3c; 0xbc; 0x7c; 0xfc;
   0x02; 0x82; 0x42; 0xc2; 0x22; 0xa2; 0x62; 0xe2; 0x12; 0x92; 0x52; 0xd2; 0x32; 0xb2; 0x72; 0xf2;
   0x0a; 0x8a; 0x4a; 0xca; 0x2a; 0xaa; 0x6a; 0xea; 0x1a; 0x9a; 0x5a; 0xda; 0x3a; 0xba; 0x7a; 0xfa;
   0x06; 0x86; 0x46; 0xc6; 0x26; 0xa6; 0x66; 0xe6; 0x16; 0x96; 0x56; 0xd6; 0x36; 0xb6; 0x76; 0xf6;
   0x0e; 0x8e; 0x4e; 0xce; 0x2e; 0xae; 0x6e; 0xee; 0x1e; 0x9e; 0x5e; 0xde; 0x3e; 0xbe; 0x7e; 0xfe;
   0x01; 0x81; 0x41; 0xc1; 0x21; 0xa1; 0x61; 0xe1; 0x11; 0x91; 0x51; 0xd1; 0x31; 0xb1; 0x71; 0xf1;
   0x09; 0x89; 0x49; 0xc9; 0x29; 0xa9; 0x69; 0xe9; 0x19; 0x99; 0x59; 0xd9; 0x39; 0xb9; 0x79; 0xf9;
   0x05; 0x85; 0x45; 0xc5; 0x25; 0xa5; 0x65; 0xe5; 0x15; 0x95; 0x55; 0xd5; 0x35; 0xb5; 0x75; 0xf5;
   0x0d; 0x8d; 0x4d; 0xcd; 0x2d; 0xad; 0x6d; 0xed; 0x1d; 0x9d; 0x5d; 0xdd; 0x3d; 0xbd; 0x7d; 0xfd;
   0x03; 0x83; 0x43; 0xc3; 0x23; 0xa3; 0x63; 0xe3; 0x13; 0x93; 0x53; 0xd3; 0x33; 0xb3; 0x73; 0xf3;
   0x0b; 0x8b; 0x4b; 0xcb; 0x2b; 0xab; 0x6b; 0xeb; 0x1b; 0x9b; 0x5b; 0xdb; 0x3b; 0xbb; 0x7b; 0xfb;
   0x07; 0x87; 0x47; 0xc7; 0x27; 0xa7; 0x67; 0xe7; 0x17; 0x97; 0x57; 0xd7; 0x37; 0xb7; 0x77; 0xf7;
   0x0f; 0x8f; 0x4f; 0xcf; 0x2f; 0xaf; 0x6f; 0xef; 0x1f; 0x9f; 0x5f; 0xdf; 0x3f; 0xbf; 0x7f; 0xff].

(** ** Updates by one byte *)

Definition crc7_be_byte (crc data : Z) : res Z := aread crc7_be_syndrome_table (Z.lxor crc data).
Definition crc16_byte (crc data : Z) : res Z :=
  t ← aread crc16_table (Z.land (Z.lxor crc data) 0xff);
  Ok (u16 (Z.lxor (Z.shiftr crc 8) t)).
Definition crc_ccitt_byte (crc c : Z) : res Z :=
  t ← aread crc_ccitt_table (Z.land (Z.lxor crc c) 0xff);
  Ok (u16 (Z.lxor (Z.shiftr crc 8) t)).
Definition crc_itu_t_byte (crc data : Z) : res Z :=
  t ← aread crc_itu_t_table (Z.land (Z.lxor (Z.shiftr crc 8) data) 0xff);
  Ok (u16 (Z.lxor (Z.shiftl crc 8) t)).

(** ** Buffers *)

(** [while (len--) crc = byte(crc, *buffer++);] *)
Fixpoint crc_loop (byte : Z -> Z -> res Z) (len : nat) (crc : Z) (buffer : list Z) : res Z :=
  match len with
  | O => Ok crc
  | S len' =>
      c ← rd buffer;
      crc ← byte crc c;
      crc_loop byte len' crc (tail buffer)
  end.
Definition crc7_be (crc : Z) (buffer : list Z) (len : Z) : res Z := crc_loop crc7_be_byte (Z.to_nat len) crc buffer.
Definition crc16 (crc : Z) (buffer : list Z) (len : Z) : res Z := crc_loop crc16_byte (Z.to_nat len) crc buffer.
Definition crc_ccitt (crc : Z) (buffer : list Z) (len : Z) : res Z := crc_loop crc_ccitt_byte (Z.to_nat len) crc buffer.
Definition crc_itu_t (crc : Z) (buffer : list Z) (len : Z) : res Z := crc_loop crc_itu_t_byte (Z.to_nat len) crc buffer.

(** ** CRC-8 with a table made at run time *)

Definition CRC8_TABLE_SIZE : Z := 256.

(** [for (j = 0; j < i; j++) table[i+j] = table[j] ^ t;] *)
Fixpoint msb_fill (n : nat) (i j t : Z) (table : list Z) : res (list Z) :=
  match n with
  | O => Ok table
  | S n' =>
      x ← aread table j;
      table ← awrite table (i + j) (Z.lxor x t);
      msb_fill n' i (j + 1) t table
  end.
(** [i] doubles from 1 while it is below the size: eight rounds. *)
Fixpoint msb_loop (fuel : nat) (i t polynomial : Z) (table : list Z) : res (list Z) :=
  match fuel with
  | O => Fault NoFuel
  | S fuel' =>
      if i <? CRC8_TABLE_SIZE then
        let t := u8 (Z.lxor (Z.shiftl t 1) (if negb (Z.land t 0x80 =? 0) then polynomial else 0)) in
        table ← msb_fill (Z.to_nat i) i 0 t table;
        msb_loop fuel' (i * 2) t polynomial table
      else Ok table
  end.
Definition crc8_populate_msb (table : list Z) (polynomial : Z) : res (list Z) :=
  table ← awrite table 0 0;
  msb_loop 9 1 0x80 polynomial table.

(** [for (j = 0; j < CRC8_TABLE_SIZE; j += 2*i) table[i+j] = table[j] ^ t;] *)
Fixpoint lsb_fill (fuel : nat) (i j t : Z) (table : list Z) : res (list Z) :=
  match fuel with
  | O => Fault NoFuel
  | S fuel' =>
      if j <? CRC8_TABLE_SIZE then
        x ← aread table j;
        table ← awrite table (i + j) (Z.lxor x t);
        lsb_fill fuel' i (j + 2 * i) t table
      else Ok table
  end.
Fixpoint lsb_loop (fuel : nat) (i t polynomial : Z) (table : list Z) : res (list Z) :=
  match fuel with
  | O => Fault NoFuel
  | S fuel' =>
      if i =? 0 then Ok table
      else
        let t := u8 (Z.lxor (Z.shiftr t 1) (if negb (Z.land t 1 =? 0) then polynomial else 0)) in
        table ← lsb_fill 129 i 0 t table;
        lsb_loop fuel' (Z.shiftr i 1) t polynomial table
  end.
Definition crc8_populate_lsb (table : list Z) (polynomial : Z) : res (list Z) :=
  table ← awrite table 0 0;
  lsb_loop 9 (Z.shiftr CRC8_TABLE_SIZE 1) 1 polynomial table.

Definition crc8_byte (table : list Z) (crc data : Z) : res Z := aread table (Z.land (Z.lxor crc data) 0xff).
Definition crc8 (table pdata : list Z) (nbytes crc : Z) : res Z := crc_loop (crc8_byte table) (Z.to_nat nbytes) crc pdata.

(** ** Reversing bits *)

Definition __bitrev8 (byte : Z) : res Z := aread byte_rev_table byte.
Definition __bitrev16 (x : Z) : res Z :=
  lo ← __bitrev8 (Z.land x 0xff);
  hi ← __bitrev8 (Z.shiftr x 8);
  Ok (u16 (Z.lor (Z.shiftl lo 8) hi)).
Definition __bitrev32 (x : Z) : res Z :=
  lo ← __bitrev16 (Z.land x 0xffff);
  hi ← __bitrev16 (Z.shiftr x 16);
  Ok (u32 (Z.lor (Z.shiftl lo 16) hi)).

(** * Reference: division by the polynomial, one bit at a time *)

Section reference.
  Variable w : Z.
  Variable poly : Z.

(** Least significant bit first (the polynomial reflected). *)
Definition lsb_bit (c : Z) : Z := Z.lxor (Z.shiftr c 1) (if Z.testbit c 0 then poly else 0).
(** Most significant bit first, in a register of [w] bits. *)
Definition msb_bit (c : Z) : Z := Z.lxor (wrapu w (Z.shiftl c 1)) (if Z.testbit c (w - 1) then poly else 0).

Definition lsb_step (c d : Z) : Z := Nat.iter 8 lsb_bit (Z.lxor c d).
Definition msb_step (c d : Z) : Z := Nat.iter 8 msb_bit (Z.lxor c (Z.shiftl d (w - 8))).
End reference.

(** * Lemmas *)

Lemma iter_xor (f : Z -> Z) n a b :
  (forall a b, f (Z.lxor a b) = Z.lxor (f a) (f b)) ->
  Nat.iter n f (Z.lxor a b) = Z.lxor (Nat.iter n f a) (Nat.iter n f b).
Proof. intros Hf. induction n as [|n IH]; [done|]. by rewrite !Nat.iter_succ, IH, Hf. Qed.

(** Exclusive or commutes with the conditional polynomial. *)
Lemma xor_if (p q : bool) (poly : Z) :
  (if xorb p q then poly else 0) = Z.lxor (if p then poly else 0) (if q then poly else 0).
Proof. destruct p, q; cbn; by rewrite ?Z.lxor_nilpotent, ?Z.lxor_0_r, ?Z.lxor_0_l. Qed.

Lemma xor_swap a b c d : Z.lxor (Z.lxor a b) (Z.lxor c d) = Z.lxor (Z.lxor a c) (Z.lxor b d).
Proof.
  apply Z.bits_inj'. intros i _. rewrite !Z.lxor_spec.
  by destruct (Z.testbit a i), (Z.testbit b i), (Z.testbit c i), (Z.testbit d i).
Qed.

Lemma lsb_bit_xor poly a b : lsb_bit poly (Z.lxor a b) = Z.lxor (lsb_bit poly a) (lsb_bit poly b).
Proof. unfold lsb_bit. by rewrite Z.shiftr_lxor, Z.lxor_spec, xor_if, xor_swap. Qed.

Lemma wrapu_lxor w a b : 0 <= w -> wrapu w (Z.lxor a b) = Z.lxor (wrapu w a) (wrapu w b).
Proof.
  intros Hw. apply Z.bits_inj'. intros i _. rewrite Z.lxor_spec, !wrapu_testbit, Z.lxor_spec by done.
  by case_bool_decide.
Qed.

Lemma msb_bit_xor w poly a b : 0 <= w -> msb_bit w poly (Z.lxor a b) = Z.lxor (msb_bit w poly a) (msb_bit w poly b).
Proof.
  intros Hw. unfold msb_bit. by rewrite Z.shiftl_lxor, wrapu_lxor, Z.lxor_spec, xor_if, xor_swap.
Qed.

(** Bits that have not reached the end of the register only move. *)
Lemma lsb_iter_high poly n c :
  (forall i, 0 <= i < Z.of_nat n -> Z.testbit c i = false) -> Nat.iter n (lsb_bit poly) c = Z.shiftr c (Z.of_nat n).
Proof.
  induction n as [|n IH]; intros Hc; [done|]. rewrite Nat.iter_succ.
  rewrite IH by (intros; apply Hc; lia). unfold lsb_bit. rewrite Z.shiftr_shiftr by lia.
  rewrite Z.shiftr_spec by lia. rewrite Hc by lia. rewrite Z.lxor_0_r. f_equal. lia.
Qed.

Lemma msb_iter_low w poly n c :
  0 <= c < 2 ^ (w - Z.of_nat n) -> Z.of_nat n <= w -> Nat.iter n (msb_bit w poly) c = Z.shiftl c (Z.of_nat n).
Proof.
  intros Hc Hn. revert Hc. induction n as [|n IH]; intros Hc; [by rewrite Z.shiftl_0_r|].
  rewrite Nat.iter_succ.
  assert (2 ^ (w - Z.of_nat (S n)) <= 2 ^ (w - Z.of_nat n)) by (apply Z.pow_le_mono_r; lia).
  rewrite IH by lia. unfold msb_bit. rewrite Z.shiftl_shiftl by lia.
  replace (Z.of_nat n + 1) with (Z.of_nat (S n)) by lia.
  assert (Z.shiftl c (Z.of_nat (S n)) < 2 ^ w) as Hlt.
  { rewrite Z.shiftl_mul_pow2 by lia. replace (2 ^ w) with (2 ^ (w - Z.of_nat (S n)) * 2 ^ Z.of_nat (S n))
      by (rewrite <- Z.pow_add_r by lia; f_equal; lia). apply Z.mul_lt_mono_pos_r; [apply pow2_pos; lia|lia]. }
  rewrite Z.shiftl_spec by lia.
  rewrite (testbit_high (w - Z.of_nat (S n)) c) by (done || lia || (unfold is_u; lia)).
  rewrite Z.lxor_0_r. apply wrapu_small. split; [apply Z.shiftl_nonneg; lia|done].
Qed.

(** A register is its low byte and the rest. *)
Lemma low_byte_split c : c = Z.lxor (Z.shiftl (Z.shiftr c 8) 8) (Z.land c 0xff).
Proof.
  apply Z.bits_inj'. intros i Hi. rewrite Z.lxor_spec, Z.land_spec, Z.shiftl_spec by lia.
  change 0xff with (Z.ones 8). destruct (decide (i < 8)).
  - rewrite Z.ones_spec_low, (Z.testbit_neg_r _ (i - 8)), andb_true_r by lia. by destruct (Z.testbit c i).
  - rewrite Z.ones_spec_high, andb_false_r, xorb_false_r, Z.shiftr_spec by lia. f_equal. lia.
Qed.

Lemma low_byte_range c : 0 <= Z.land c 0xff < 256.
Proof. change 0xff with (Z.ones 8). rewrite Z.land_ones by lia. by apply Z.mod_pos_bound. Qed.

(** A table of the remainders of all bytes. *)
Definition remainders (f : Z -> Z) (table : list Z) : Prop := f <$> seqZ 0 256 = table.

Lemma remainders_read f table i : remainders f table -> 0 <= i < 256 -> aread table i = Ok (f i).
Proof.
  intros <- Hi. apply aread_lookup; [lia|]. rewrite list_lookup_fmap, lookup_seqZ_lt by lia.
  cbn. do 2 f_equal. lia.
Qed.

Lemma lsb_byte poly table c d :
  remainders (Nat.iter 8 (lsb_bit poly)) table -> 0 <= d < 256 ->
  (t ← aread table (Z.land (Z.lxor c d) 0xff); Ok (Z.lxor (Z.shiftr c 8) t)) = Ok (lsb_step poly c d).
Proof.
  intros Ht Hd. rewrite (remainders_read _ _ _ Ht) by apply low_byte_range. cbn [mbind res_bind]. f_equal.
  unfold lsb_step. rewrite (low_byte_split (Z.lxor c d)) at 2. rewrite iter_xor by apply lsb_bit_xor. f_equal.
  rewrite lsb_iter_high.
  - change (Z.of_nat 8) with 8. rewrite Z.shiftr_shiftl_l, Z.shiftl_0_r by lia. rewrite Z.shiftr_lxor.
    by rewrite (Z.shiftr_eq_0 d 8), Z.lxor_0_r by (lia || (destruct (decide (d = 0)) as [->|]; [done|apply Z.log2_lt_pow2; lia])).
  - intros i Hi. rewrite Z.shiftl_spec by lia. apply Z.testbit_neg_r. lia.
Qed.

Lemma msb_byte poly table c d :
  remainders (fun h => Nat.iter 8 (msb_bit 16 poly) (Z.shiftl h 8)) table -> is_u 16 c -> 0 <= d < 256 ->
  (t ← aread table (Z.land (Z.lxor (Z.shiftr c 8) d) 0xff); Ok (u16 (Z.lxor (Z.shiftl c 8) t))) =
    Ok (u16 (msb_step 16 poly c d)).
Proof.
  intros Ht Hc Hd. rewrite (remainders_read _ _ _ Ht) by apply low_byte_range. cbn [mbind res_bind]. f_equal.
  unfold msb_step. change (16 - 8) with 8.
  assert (Z.lxor c (Z.shiftl d 8) = Z.lxor (Z.shiftl (Z.land (Z.lxor (Z.shiftr c 8) d) 0xff) 8) (Z.land c 0xff)) as ->.
  { rewrite (low_byte_split (Z.lxor c (Z.shiftl d 8))). f_equal.
    - f_equal. change 0xff with (Z.ones 8). rewrite Z.shiftr_lxor, Z.shiftr_shiftl_l, Z.shiftl_0_r by lia.
      rewrite Z.land_ones by lia. rewrite Z.mod_small; [done|]. apply (is_u_lxor 8); [done | | done].
      unfold is_u in *. rewrite Z.shiftr_div_pow2 by lia. change (2 ^ 8) with 256 in *. dlia.
    - apply Z.bits_inj'. intros i Hi. rewrite !Z.land_spec, Z.lxor_spec, Z.shiftl_spec by lia.
      change 0xff with (Z.ones 8). destruct (decide (i < 8)).
      + by rewrite (Z.testbit_neg_r _ (i - 8)), xorb_false_r by lia.
      + by rewrite Z.ones_spec_high, !andb_false_r by lia. }
  rewrite iter_xor by (intros; by apply msb_bit_xor). pose proof (low_byte_range c).
  rewrite (msb_iter_low 16 poly 8 (Z.land c 0xff)) by (done || (change (2 ^ (16 - Z.of_nat 8)) with 256; lia)).
  rewrite Z.lxor_comm, !(wrapu_lxor 16) by lia. f_equal.
  (* only the low byte of the register survives the shift *)
  apply Z.bits_inj'. intros i Hi. rewrite !wrapu_testbit by lia. case_bool_decide; [|done]. cbn [andb].
  change (Z.of_nat 8) with 8. rewrite !Z.shiftl_spec, Z.land_spec by lia. destruct (decide (i < 8)).
  - by rewrite !(Z.testbit_neg_r _ (i - 8)) by lia.
  - change 0xff with (Z.ones 8). by rewrite Z.ones_spec_low, andb_true_r by lia.
Qed.

(** A loop whose step keeps its register within [w] bits folds it over the bytes. *)
Lemma crc_loop_spec (byte : Z -> Z -> res Z) (step : Z -> Z -> Z) w n c buffer :
  (forall c d, is_u w c -> 0 <= d < 256 -> byte c d = Ok (step c d) /\ is_u w (step c d)) ->
  octets buffer -> is_u w c -> (n <= length buffer)%nat ->
  crc_loop byte n c buffer = Ok (foldl step c (take n buffer)) /\ is_u w (foldl step c (take n buffer)).
Proof.
  intros Hb. revert c buffer. induction n as [|n IH]; intros c buffer Ho Hc Hn; [by rewrite take_0|].
  destruct buffer as [|d buffer]; [cbn in Hn; lia|]. apply Forall_cons in Ho as [Hd Ho].
  cbn [crc_loop rd mbind res_bind tail take foldl length] in *. destruct (Hb c d Hc Hd) as [-> Hr].
  cbn [mbind res_bind]. apply IH; done || lia.
Qed.

(** The bytewise steps, as the code takes them. *)
Lemma lsb16_byte poly table c d :
  remainders (Nat.iter 8 (lsb_bit poly)) table -> is_u 16 c -> 0 <= d < 256 -> Forall (is_u 16) table ->
  (t ← aread table (Z.land (Z.lxor c d) 0xff); Ok (u16 (Z.lxor (Z.shiftr c 8) t))) = Ok (lsb_step poly c d) /\
  is_u 16 (lsb_step poly c d).
Proof.
  intros Ht Hc Hd Hr. pose proof (lsb_byte poly table c d Ht Hd) as E.
  destruct (aread table _) as [t|] eqn:Et; [|done]. cbn [mbind res_bind] in *. injection E as E.
  apply aread_ok in Et as [_ Et]. eapply Forall_lookup_1 in Hr; [|exact Et].
  assert (is_u 16 (Z.lxor (Z.shiftr c 8) t)).
  { apply is_u_lxor; [done| |done]. unfold is_u in *. rewrite Z.shiftr_div_pow2 by lia. change (2 ^ 8) with 256. dlia. }
  rewrite <- E. split; [|done]. by rewrite wrapu_small.
Qed.

(** The bit-at-a-time register stays in its width. *)
Lemma msb_bit_range w poly c : 0 <= w -> is_u w poly -> is_u w (msb_bit w poly c).
Proof.
  intros Hw Hp. unfold msb_bit. apply is_u_lxor; [done | by apply wrapu_range|].
  destruct (Z.testbit _ _); [done|]. split; [lia|]. by apply pow2_pos.
Qed.

Lemma msb_step_range w poly c d : 0 <= w -> is_u w poly -> is_u w (msb_step w poly c d).
Proof. intros Hw Hp. unfold msb_step. rewrite Nat.iter_succ. by apply msb_bit_range. Qed.

Lemma lsb_bit_range w poly c : 1 <= w -> is_u w poly -> is_u w c -> is_u w (lsb_bit poly c).
Proof.
  intros Hw Hp Hc. unfold lsb_bit. apply is_u_lxor; [lia| |].
  - unfold is_u in *. rewrite Z.shiftr_div_pow2 by lia. change (2 ^ 1) with 2. dlia.
  - destruct (Z.testbit _ _); [done|]. split; [lia|]. apply pow2_pos. lia.
Qed.

Lemma lsb_iter_range w poly n c : 1 <= w -> is_u w poly -> is_u w c -> is_u w (Nat.iter n (lsb_bit poly) c).
Proof.
  intros Hw Hp Hc. induction n as [|n IH]; [done|]. rewrite Nat.iter_succ. by apply lsb_bit_range.
Qed.

(** ** The two CRC-8 tables *)

Lemma msb_iter_range w poly n c : 0 <= w -> is_u w poly -> is_u w c -> is_u w (Nat.iter n (msb_bit w poly) c).
Proof.
  intros Hw Hp Hc. induction n as [|n IH]; [done|]. rewrite Nat.iter_succ. by apply msb_bit_range.
Qed.

(** The code's update of [t] is the step of the reference. *)
Lemma msb_update poly t :
  0 <= poly < 256 -> is_u 8 t ->
  u8 (Z.lxor (Z.shiftl t 1) (if negb (Z.land t 0x80 =? 0) then poly else 0)) = msb_bit 8 poly t.
Proof.
  intros Hp Ht. unfold msb_bit. rewrite wrapu_lxor by lia.
  assert (negb (Z.land t 128 =? 0) = Z.testbit t (8 - 1)) as ->.
  { apply eq_true_iff_eq. rewrite negb_true_iff, Z.eqb_neq.
    change 128 with (2 ^ 7). rewrite land_pow2_nz by lia. done. }
  f_equal. destruct (Z.testbit t (8 - 1)); by rewrite wrapu_small.
Qed.

Lemma lsb_update poly t :
  0 <= poly < 256 -> is_u 8 t ->
  u8 (Z.lxor (Z.shiftr t 1) (if negb (Z.land t 1 =? 0) then poly else 0)) = lsb_bit poly t.
Proof.
  intros Hp Ht.
  assert (negb (Z.land t 1 =? 0) = Z.testbit t 0) as ->.
  { apply eq_true_iff_eq. rewrite negb_true_iff, Z.eqb_neq.
    change 1 with (2 ^ 0). rewrite land_pow2_nz by lia. done. }
  apply wrapu_small. by apply (lsb_bit_range 8).
Qed.

(** Entry [j] is the remainder of [j]. *)
Definition entry (f : Z -> Z) (table : list Z) (j : Z) : Prop :=
  table !! Z.to_nat j = Some (Nat.iter 8 f j).

Lemma entry_read f table j : 0 <= j -> entry f table j -> aread table j = Ok (Nat.iter 8 f j).
Proof. intros Hj He. by apply aread_lookup. Qed.

(** An entry is the sum of the entries of its disjoint parts. *)
Lemma entry_sum f table i j :
  (forall a b, f (Z.lxor a b) = Z.lxor (f a) (f b)) -> Z.land i j = 0 -> 0 <= i -> 0 <= j ->
  i + j < Z.of_nat (length table) ->
  awrite table (i + j) (Z.lxor (Nat.iter 8 f j) (Nat.iter 8 f i)) =
    Ok (<[Z.to_nat (i + j) := Nat.iter 8 f (i + j)]> table).
Proof.
  intros Hf Hd Hi Hj Hl. rewrite awrite_in by lia. do 2 f_equal.
  rewrite <- iter_xor, Z.lxor_comm by done. f_equal. symmetry. by apply Z.add_nocarry_lxor.
Qed.

(** The whole table from its entries. *)
Lemma entries_table f table :
  length table = 256%nat -> (forall j, 0 <= j < 256 -> entry f table j) -> table = Nat.iter 8 f <$> seqZ 0 256.
Proof.
  intros Hl He. apply list_eq. intros k. destruct (decide (k < 256)%nat) as [Hk|Hk].
  - specialize (He (Z.of_nat k) ltac:(lia)). unfold entry in He. rewrite Nat2Z.id in He.
    rewrite He, list_lookup_fmap, lookup_seqZ_lt by lia. done.
  - rewrite !lookup_ge_None_2; [done | rewrite length_fmap, length_seqZ; lia | lia].
Qed.

Lemma entry_insert f table i j :
  0 <= i < Z.of_nat (length table) -> 0 <= j -> j = i \/ entry f table j ->
  entry f (<[Z.to_nat i := Nat.iter 8 f i]> table) j.
Proof.
  intros Hi Hj He. unfold entry in *. destruct (decide (j = i)) as [->|Hne].
  - by rewrite list_lookup_insert_eq by lia.
  - rewrite list_lookup_insert_ne by lia. by destruct He.
Qed.

(** Numbers whose set bits cannot meet. *)
Lemma land_pow2_low k j : 0 <= k -> 0 <= j < 2 ^ k -> Z.land (2 ^ k) j = 0.
Proof. intros Hk Hj. by rewrite Z.land_comm, land_pow2, (testbit_high k). Qed.
Lemma land_pow2_multiple k q : 0 <= k -> Z.land (2 ^ k) (q * 2 ^ (k + 1)) = 0.
Proof. intros Hk. by rewrite Z.land_comm, land_pow2, Z.mul_pow2_bits_low by lia. Qed.

Lemma msb_fill_spec f n k j table :
  (forall a b, f (Z.lxor a b) = Z.lxor (f a) (f b)) -> 0 <= k < 8 -> length table = 256%nat ->
  0 <= j -> j + Z.of_nat n = 2 ^ k ->
  (forall i, 0 <= i < 2 ^ k + j -> entry f table i) ->
  exists table', msb_fill n (2 ^ k) j (Nat.iter 8 f (2 ^ k)) table = Ok table' /\ length table' = 256%nat /\
    forall i, 0 <= i < 2 ^ (k + 1) -> entry f table' i.
Proof.
  intros Hf Hk. revert j table. induction n as [|n IH]; intros j table Hl Hj Hn He; cbn [msb_fill].
  { exists table. split_and!; [done | done|]. rewrite Z.pow_add_r by lia. intros i Hi. apply He. lia. }
  assert (2 ^ k <= 2 ^ 7) by (apply Z.pow_le_mono_r; lia).
  rewrite (entry_read f) by (lia || (apply He; lia)). cbn [mbind res_bind].
  rewrite entry_sum by (done || lia || (apply land_pow2_low; lia)). cbn [mbind res_bind].
  apply IH; try (rewrite ?length_insert; lia).
  intros i Hi. apply entry_insert; [lia | lia|]. destruct (decide (i = 2 ^ k + j)); [by left|].
  right. apply He. lia.
Qed.

Lemma msb_loop_spec poly fuel k table t :
  let f := msb_bit 8 poly in
  0 <= poly < 256 -> 0 <= k <= 8 -> (8 - k < Z.of_nat fuel) -> length table = 256%nat ->
  (k < 8 -> u8 (Z.lxor (Z.shiftl t 1) (if negb (Z.land t 0x80 =? 0) then poly else 0)) = Nat.iter 8 f (2 ^ k)) ->
  (forall i, 0 <= i < 2 ^ k -> entry f table i) ->
  msb_loop fuel (2 ^ k) t poly table = Ok (Nat.iter 8 f <$> seqZ 0 256).
Proof.
  intros f Hp. revert k table t. induction fuel as [|fuel IH]; intros k table t Hk Hfuel Hl Ht He; [lia|].
  cbn [msb_loop]. unfold CRC8_TABLE_SIZE. destruct (decide (k = 8)) as [->|Hk8].
  { cbn [Z.ltb]. change (2 ^ 8 <? 256) with false. cbv iota. f_equal. by apply entries_table. }
  assert (2 ^ k <= 2 ^ 7) by (apply Z.pow_le_mono_r; lia). rewrite (proj2 (Z.ltb_lt _ _)) by lia.
  rewrite Ht by lia.
  destruct (msb_fill_spec f (Z.to_nat (2 ^ k)) k 0 table) as (table' & -> & Hl' & He');
    [intros; by apply msb_bit_xor | lia | done | lia | pose proof (pow2_pos k); lia | by rewrite Z.add_0_r |].
  cbn [mbind res_bind]. replace (2 ^ k * 2) with (2 ^ (k + 1)) by (rewrite Z.pow_add_r by lia; lia).
  apply IH; try done; try lia. intros Hk'.
  rewrite msb_update by (done || (apply (msb_iter_range 8); [lia | done | pose proof (pow2_pos k); unfold is_u; lia])).
  change (f (Nat.iter 8 f (2 ^ k)) = Nat.iter 8 f (2 ^ (k + 1))).
  rewrite <- Nat.iter_swap. f_equal. unfold f, msb_bit.
  rewrite testbit_pow2, bool_decide_eq_false_2, Z.lxor_0_r, Z.shiftl_mul_pow2 by lia.
  change (2 ^ 1) with 2. rewrite wrapu_small; [rewrite Z.pow_add_r by lia; lia|].
  assert (2 ^ k <= 2 ^ 6) by (apply Z.pow_le_mono_r; lia). unfold is_u. pose proof (pow2_pos k). lia.
Qed.

Lemma lsb_fill_spec f fuel k q table :
  (forall a b, f (Z.lxor a b) = Z.lxor (f a) (f b)) -> 0 <= k < 8 -> length table = 256%nat ->
  0 <= q <= 2 ^ (7 - k) -> 2 ^ (7 - k) - q < Z.of_nat fuel ->
  (forall p, 0 <= p < 2 ^ (7 - k) -> entry f table (p * 2 ^ (k + 1))) ->
  (forall p, 0 <= p < 2 * q -> entry f table (p * 2 ^ k)) ->
  exists table', lsb_fill fuel (2 ^ k) (q * 2 ^ (k + 1)) (Nat.iter 8 f (2 ^ k)) table = Ok table' /\
    length table' = 256%nat /\ forall p, 0 <= p < 2 ^ (7 - (k - 1)) -> entry f table' (p * 2 ^ k).
Proof.
  intros Hf Hk. pose proof (pow2_pos k ltac:(lia)) as Hpos.
  assert (2 ^ (k + 1) = 2 * 2 ^ k) as E2 by (rewrite Z.pow_add_r by lia; lia).
  assert (2 ^ (7 - (k - 1)) = 2 * 2 ^ (7 - k)) as E3 by (rewrite <- Z.pow_succ_r by lia; f_equal; lia).
  assert (2 ^ (7 - k) * 2 ^ (k + 1) = 256) as E256
    by (rewrite <- Z.pow_add_r by lia; replace (7 - k + (k + 1)) with 8 by lia; done).
  revert q table. induction fuel as [|fuel IH]; intros q table Hl Hq Hfuel Heven Hlow; [lia|].
  cbn [lsb_fill]. unfold CRC8_TABLE_SIZE.
  destruct (Z.ltb_spec (q * 2 ^ (k + 1)) 256) as [Hlt|Hge].
  - assert (q < 2 ^ (7 - k)) by nia.
    rewrite (entry_read f) by (nia || (apply Heven; lia)). cbn [mbind res_bind].
    rewrite entry_sum by (done || nia || (apply land_pow2_multiple; lia)). cbn [mbind res_bind].
    replace (q * 2 ^ (k + 1) + 2 * 2 ^ k) with ((q + 1) * 2 ^ (k + 1)) by lia.
    apply IH; try (rewrite ?length_insert; lia); intros p Hp; (apply entry_insert; [nia | nia |]).
    + right. by apply Heven.
    + destruct (decide (p = 2 * q + 1)) as [->|]; [left; lia|]. right.
      destruct (decide (p = 2 * q)) as [->|]; [|apply Hlow; lia].
      replace (2 * q * 2 ^ k) with (q * 2 ^ (k + 1)) by lia. apply Heven. lia.
  - assert (q = 2 ^ (7 - k)) as -> by nia. exists table. split_and!; [done | done|].
    intros p Hp. apply Hlow. lia.
Qed.

Lemma lsb_loop_spec poly n table t :
  let f := lsb_bit poly in
  let k := Z.of_nat n - 1 in
  0 <= poly < 256 -> (n <= 8)%nat -> length table = 256%nat ->
  ((0 < n)%nat -> u8 (Z.lxor (Z.shiftr t 1) (if negb (Z.land t 1 =? 0) then poly else 0)) = Nat.iter 8 f (2 ^ k)) ->
  (forall p, 0 <= p < 2 ^ (7 - k) -> entry f table (p * 2 ^ (k + 1))) ->
  lsb_loop (S n) (if decide (n = 0%nat) then 0 else 2 ^ k) t poly table = Ok (Nat.iter 8 f <$> seqZ 0 256).
Proof.
  intros f. revert table t. induction n as [|n IH]; intros table t k Hp Hn Hl Ht He.
  { cbn [lsb_loop]. cbn. f_equal. apply entries_table; [done|]. intros j Hj.
    specialize (He j Hj). by rewrite Z.mul_1_r in He. }
  rewrite decide_False by lia. remember (S n) as m eqn:Em. cbn [lsb_loop]. subst m.
  pose proof (pow2_pos k ltac:(lia)). rewrite (proj2 (Z.eqb_neq (2 ^ k) 0)), Ht by lia.
  assert (2 ^ (7 - k) <= 2 ^ 7) by (apply Z.pow_le_mono_r; lia).
  destruct (lsb_fill_spec f 129 k 0 table) as (table' & E & Hl' & He');
    [apply lsb_bit_xor | lia | done | lia | lia | done | lia |].
  rewrite Z.mul_0_l in E. rewrite E. cbn [mbind res_bind].
  replace (Z.shiftr (2 ^ k) 1) with (if decide (n = 0%nat) then 0 else 2 ^ (Z.of_nat n - 1)).
  2:{ rewrite Z.shiftr_div_pow2 by lia. destruct (decide (n = 0%nat)) as [->|]; [done|].
      unfold k. replace (Z.of_nat (S n) - 1) with (Z.of_nat n - 1 + 1) by lia.
      rewrite Z.pow_add_r by lia. by rewrite Z.div_mul. }
  apply IH; try done; try lia.
  - intros Hn'. rewrite lsb_update by (done || (apply (lsb_iter_range 8); [lia | done | split; [lia|]; apply Z.pow_lt_mono_r; lia])).
    change (f (Nat.iter 8 f (2 ^ k)) = Nat.iter 8 f (2 ^ (Z.of_nat n - 1))).
    rewrite <- Nat.iter_swap. f_equal. unfold f, lsb_bit. rewrite testbit_pow2, bool_decide_eq_false_2, Z.lxor_0_r by lia.
    rewrite Z.shiftr_div_pow2 by lia. unfold k. replace (Z.of_nat (S n) - 1) with (Z.of_nat n - 1 + 1) by lia.
    rewrite Z.pow_add_r by lia. by rewrite Z.div_mul.
  - intros p. replace (Z.of_nat n - 1) with (k - 1) by lia. intros Hp'. replace (k - 1 + 1) with k by lia. by apply He'.
Qed.

Lemma crc8_tables poly table :
  0 <= poly < 256 -> length table = 256%nat ->
  crc8_populate_msb table poly = Ok (Nat.iter 8 (msb_bit 8 poly) <$> seqZ 0 256) /\
  crc8_populate_lsb table poly = Ok (Nat.iter 8 (lsb_bit poly) <$> seqZ 0 256).
Proof.
  intros Hp Hl.
  assert (forall f, f 0 = 0 -> entry f (<[0%nat := 0]> table) 0) as H0.
  { intros f Hf. unfold entry. change (Z.to_nat 0) with 0%nat. rewrite list_lookup_insert_eq by lia. cbn. by rewrite !Hf. }
  unfold crc8_populate_msb, crc8_populate_lsb. rewrite !awrite_in by lia. cbn [mbind res_bind]. split.
  - apply (msb_loop_spec poly 9 0); try done; [by rewrite length_insert | |].
    + intros _. rewrite msb_update by done. change (msb_bit 8 poly 128 = Nat.iter (1 + 7) (msb_bit 8 poly) 1).
      rewrite Nat.iter_add. by rewrite (msb_iter_low 8 poly 7 1).
    + intros i Hi. assert (i = 0) as -> by (change (2 ^ 0) with 1 in Hi; lia). by apply H0.
  - apply (lsb_loop_spec poly 8); try done; [by rewrite length_insert | |].
    + intros _. rewrite lsb_update by done. change (lsb_bit poly 1 = Nat.iter (1 + 7) (lsb_bit poly) (2 ^ 7)).
      rewrite Nat.iter_add. rewrite (lsb_iter_high poly 7); [done|].
      intros i Hi. rewrite testbit_pow2, bool_decide_eq_false_2 by lia. done.
    + intros p Hp'. assert (p = 0) as -> by (change (2 ^ (7 - (Z.of_nat 8 - 1))) with 1 in Hp'; lia). by apply H0.
Qed.

Lemma crc8_byte_spec f c d :
  is_u 8 c -> 0 <= d < 256 -> crc8_byte (f <$> seqZ 0 256) c d = Ok (f (Z.lxor c d)).
Proof.
  intros Hc Hd. unfold crc8_byte. change 0xff with (Z.ones 8). rewrite Z.land_ones by lia.
  assert (is_u 8 (Z.lxor c d)) as Hr by (by apply is_u_lxor).
  rewrite Z.mod_small by done. by apply remainders_read.
Qed.

(** The precomputed tables hold the remainders. *)
Lemma crc16_remainders : remainders (Nat.iter 8 (lsb_bit 0xA001)) crc16_table.
Proof. vm_compute. reflexivity. Qed.
Lemma ccitt_remainders : remainders (Nat.iter 8 (lsb_bit 0x8408)) crc_ccitt_table.
Proof. vm_compute. reflexivity. Qed.
Lemma itu_t_remainders : remainders (fun h => Nat.iter 8 (msb_bit 16 0x1021) (Z.shiftl h 8)) crc_itu_t_table.
Proof. vm_compute. reflexivity. Qed.
Lemma crc7_remainders : remainders (Nat.iter 8 (msb_bit 8 0x12)) crc7_be_syndrome_table.
Proof. vm_compute. reflexivity. Qed.

Lemma table16_range table : forallb (fun t => bool_decide (is_u 16 t)) table = true -> Forall (is_u 16) table.
Proof.
  intros Hf. apply Forall_forall. intros t Ht. rewrite forallb_forall in Hf.
  apply list_elem_of_In, Hf in Ht. by apply bool_decide_eq_true in Ht.
Qed.

Lemma crc16_byte_spec c d : is_u 16 c -> 0 <= d < 256 -> crc16_byte c d = Ok (lsb_step 0xA001 c d) /\ is_u 16 (lsb_step 0xA001 c d).
Proof. intros. apply (lsb16_byte _ crc16_table); [apply crc16_remainders | done | done | by apply table16_range]. Qed.
Lemma ccitt_byte_spec c d : is_u 16 c -> 0 <= d < 256 -> crc_ccitt_byte c d = Ok (lsb_step 0x8408 c d) /\ is_u 16 (lsb_step 0x8408 c d).
Proof. intros. apply (lsb16_byte _ crc_ccitt_table); [apply ccitt_remainders | done | done | by apply table16_range]. Qed.
Lemma itu_t_byte_spec c d : is_u 16 c -> 0 <= d < 256 -> crc_itu_t_byte c d = Ok (msb_step 16 0x1021 c d) /\ is_u 16 (msb_step 16 0x1021 c d).
Proof.
  intros Hc Hd. assert (is_u 16 (msb_step 16 0x1021 c d)) as Hr by (by apply msb_step_range).
  split; [|done]. unfold crc_itu_t_byte. rewrite (msb_byte 0x1021) by (done || apply itu_t_remainders). by rewrite wrapu_small.
Qed.
Lemma crc7_byte_spec c d : is_u 8 c -> 0 <= d < 256 -> crc7_be_byte c d = Ok (msb_step 8 0x12 c d) /\ is_u 8 (msb_step 8 0x12 c d).
Proof.
  intros Hc Hd. split; [|by apply msb_step_range]. unfold crc7_be_byte, msb_step.
  rewrite (remainders_read _ _ _ crc7_remainders) by (by apply (is_u_lxor 8)). by rewrite Z.sub_diag, Z.shiftl_0_r.
Qed.

(** A checksum behind its message, low byte first, cancels the register. *)
Lemma lsb_residue poly c : is_u 16 c -> foldl (lsb_step poly) c [Z.land c 0xff; Z.shiftr c 8] = 0.
Proof.
  intros Hc. cbn [foldl].
  assert (lsb_step poly c (Z.land c 0xff) = Z.shiftr c 8) as ->.
  { unfold lsb_step. rewrite (low_byte_split c) at 1. rewrite Z.lxor_assoc, Z.lxor_nilpotent, Z.lxor_0_r.
    rewrite lsb_iter_high; [by rewrite Z.shiftr_shiftl_l, Z.shiftl_0_r by lia|].
    intros i Hi. rewrite Z.shiftl_spec by lia. apply Z.testbit_neg_r. lia. }
  unfold lsb_step. rewrite Z.lxor_nilpotent. rewrite lsb_iter_high; [done|]. intros. apply Z.testbit_0_l.
Qed.

Lemma appended_residue byte poly buffer len crc :
  (forall c d, is_u 16 c -> 0 <= d < 256 -> byte c d = Ok (lsb_step poly c d) /\ is_u 16 (lsb_step poly c d)) ->
  octets buffer -> 0 <= len <= Z.of_nat (length buffer) -> is_u 16 crc ->
  let data := take (Z.to_nat len) buffer in
  let c := foldl (lsb_step poly) crc data in
  crc_loop byte (Z.to_nat (len + 2)) crc (data ++ [Z.land c 0xff; Z.shiftr c 8]) = Ok 0.
Proof.
  intros Hb Ho Hlen Hc data c.
  destruct (crc_loop_spec byte _ 16 (Z.to_nat len) crc buffer Hb Ho Hc ltac:(lia)) as [_ Hr]. fold data c in Hr.
  assert (Z.to_nat (len + 2) = length (data ++ [Z.land c 0xff; Z.shiftr c 8])) as El
    by (unfold data; rewrite length_app, length_take; cbn [length]; lia).
  destruct (crc_loop_spec byte _ 16 (Z.to_nat (len + 2)) crc (data ++ [Z.land c 0xff; Z.shiftr c 8]) Hb) as [-> _].
  - apply Forall_app. split; [by apply Forall_take|]. repeat constructor; try apply low_byte_range;
      unfold is_u in Hr; rewrite Z.shiftr_div_pow2 by lia; change (2 ^ 8) with 256; change (2 ^ 16) with 65536 in Hr; dlia.
  - done.
  - lia.
  - rewrite El, take_ge, foldl_app by lia. fold c. by rewrite lsb_residue.
Qed.

(** ** Bit reversal *)

Definition reversed (w x y : Z) : Prop := is_u w y /\ forall i, 0 <= i < w -> Z.testbit y i = Z.testbit x (w - 1 - i).

Lemma bitrev8_spec b : 0 <= b < 256 -> exists y, __bitrev8 b = Ok y /\ reversed 8 b y.
Proof.
  intros Hb.
  pose proof (forallb_below 256 (fun b => match __bitrev8 b with
    | Ok y => (0 <=? y) && (y <? 256) && forallb (fun i => eqb (Z.testbit y i) (Z.testbit b (8 - 1 - i))) (seqZ 0 8)
    | Fault _ => false end) b ltac:(vm_compute; reflexivity) Hb) as E.
  cbv beta in E. destruct (__bitrev8 b) as [y|]; [|done]. exists y. split; [done|].
  apply andb_true_iff in E as [E1 E2]. split; [unfold is_u; lia|]. intros i Hi.
  pose proof (forallb_below 8 _ i E2 Hi) as E. cbv beta in E. by apply eqb_prop in E.
Qed.

(** Two halves reversed and exchanged are the whole reversed. *)
Lemma reversed_halves w x lo hi :
  0 < w -> is_u (2 * w) x -> reversed w (Z.land x (Z.ones w)) lo -> reversed w (Z.shiftr x w) hi ->
  reversed (2 * w) x (wrapu (2 * w) (Z.lor (Z.shiftl lo w) hi)).
Proof.
  intros Hw Hx [Hlo Elo] [Hhi Ehi]. split; [apply wrapu_range; lia|]. intros i Hi.
  rewrite wrapu_testbit, bool_decide_eq_true_2, Z.lor_spec, Z.shiftl_spec by lia. cbn [andb].
  destruct (decide (i < w)).
  - rewrite (Z.testbit_neg_r _ (i - w)), Ehi, Z.shiftr_spec by lia. cbn [orb]. f_equal. lia.
  - rewrite (testbit_high w hi) by (done || lia). rewrite orb_false_r, Elo, Z.land_spec, Z.ones_spec_low by lia.
    rewrite andb_true_r. f_equal. lia.
Qed.

Theorem bitrev_reverses x :
  (0 <= x < 2 ^ 16 -> exists y, __bitrev16 x = Ok y /\ reversed 16 x y) /\
  (0 <= x < 2 ^ 32 -> exists y, __bitrev32 x = Ok y /\ reversed 32 x y).
Proof.
  assert (forall x, 0 <= x < 2 ^ 16 -> exists y, __bitrev16 x = Ok y /\ reversed 16 x y) as H16.
  { intros z Hz. unfold __bitrev16. change 0xff with (Z.ones 8).
    destruct (bitrev8_spec (Z.land z (Z.ones 8))) as (lo & -> & Hlo); [apply (low_byte_range z)|].
    destruct (bitrev8_spec (Z.shiftr z 8)) as (hi & -> & Hhi);
      [rewrite Z.shiftr_div_pow2 by lia; change (2 ^ 8) with 256; dlia|].
    eexists. split; [reflexivity|]. by apply (reversed_halves 8). }
  split; [apply H16|]. intros Hx. unfold __bitrev32. change 0xffff with (Z.ones 16).
  destruct (H16 (Z.land x (Z.ones 16))) as (lo & -> & Hlo); [rewrite Z.land_ones by lia; by apply Z.mod_pos_bound|].
  destruct (H16 (Z.shiftr x 16)) as (hi & -> & Hhi);
    [rewrite Z.shiftr_div_pow2 by lia; change (2 ^ 16) with 65536; dlia|].
  eexists. split; [reflexivity|]. by apply (reversed_halves 16).
Qed.

(** * Properties *)

(** C40: Each table-driven checksum is the division by its polynomial one bit at a
    time, over any buffer and from any register: CRC-16 (0x8005 reflected), CCITT
    (0x1021 reflected), ITU-T (0x1021), CRC-7 (x^7 + x^3 + 1, left-aligned), and CRC-8
    for each of the 256 polynomials in both bit orders with the tables
    [crc8_populate_msb] and [crc8_populate_lsb] make, whatever was in them; and a
    message followed by its own CRC-16 or CCITT checksum has checksum 0. *)
Theorem crc_bitwise buffer len crc poly table :
  octets buffer -> 0 <= len <= Z.of_nat (length buffer) -> is_u 16 crc -> 0 <= poly < 256 -> length table = 256%nat ->
  let data := take (Z.to_nat len) buffer in
  crc16 crc buffer len = Ok (foldl (lsb_step 0xA001) crc data) /\
  crc_ccitt crc buffer len = Ok (foldl (lsb_step 0x8408) crc data) /\
  crc_itu_t crc buffer len = Ok (foldl (msb_step 16 0x1021) crc data) /\
  (is_u 8 crc ->
     crc7_be crc buffer len = Ok (foldl (msb_step 8 0x12) crc data) /\
     (t ← crc8_populate_msb table poly; crc8 t buffer len crc) = Ok (foldl (msb_step 8 poly) crc data) /\
     (t ← crc8_populate_lsb table poly; crc8 t buffer len crc) = Ok (foldl (lsb_step poly) crc data)) /\
  (forall c, crc16 crc buffer len = Ok c ->
     crc16 crc (data ++ [Z.land c 0xff; Z.shiftr c 8]) (len + 2) = Ok 0) /\
  (forall c, crc_ccitt crc buffer len = Ok c ->
     crc_ccitt crc (data ++ [Z.land c 0xff; Z.shiftr c 8]) (len + 2) = Ok 0).
Proof.
  intros Ho Hlen Hc Hp Ht data.
  destruct (crc_loop_spec _ _ 16 (Z.to_nat len) crc buffer crc16_byte_spec Ho Hc ltac:(lia)) as [E16 R16].
  destruct (crc_loop_spec _ _ 16 (Z.to_nat len) crc buffer ccitt_byte_spec Ho Hc ltac:(lia)) as [Ecc Rcc].
  split_and!; [exact E16 | exact Ecc | | | |].
  - by apply (crc_loop_spec _ _ 16 (Z.to_nat len) crc buffer itu_t_byte_spec Ho Hc ltac:(lia)).
  - intros Hc8. destruct (crc8_tables poly table Hp Ht) as [-> ->]. cbn [mbind res_bind].
    split_and!; (eapply (crc_loop_spec _ _ 8); [| done | done | lia]).
    + apply crc7_byte_spec.
    + intros c d Hc' Hd. split; [|by apply msb_step_range]. rewrite crc8_byte_spec by done.
      unfold msb_step. by rewrite Z.sub_diag, Z.shiftl_0_r.
    + intros c d Hc' Hd. split; [exact (crc8_byte_spec _ c d Hc' Hd)|].
      apply lsb_iter_range; [done | done | by apply is_u_lxor].
  - intros c Ec. unfold crc16 in Ec. rewrite E16 in Ec. injection Ec as <-.
    apply (appended_residue crc16_byte 0xA001 buffer len crc crc16_byte_spec); done || lia.
  - intros c Ec. unfold crc_ccitt in Ec. rewrite Ecc in Ec. injection Ec as <-.
    apply (appended_residue crc_ccitt_byte 0x8408 buffer len crc ccitt_byte_spec); done || lia.
Qed.

Lemma crc_bitwise_witness :
  crc16 0 [49; 50; 51; 52; 53; 54; 55; 56; 57] 9 = Ok 0xBB3D.
Proof.
  refine (eq_trans (proj1 (crc_bitwise [49; 50; 51; 52; 53; 54; 55; 56; 57] 9 0 7 (replicate 256 0) _ _ _ _ _)) _).
  - repeat constructor; lia.
  - cbn. lia.
  - done.
  - lia.
  - done.
  - vm_compute. reflexivity.
Defined.
