(* ===== verification/KBits.v ===== *)
(** * Bit primitives of the kernel library

    The bit operations of arch/arm/include/asm/bitops.h ([ffs] and its kin around
    [fls], [set_bit] and [clear_bit]), include/linux/bitops.h, lib/hweight.c
    (counting ones) and lib/find_bit.c (searching an array of words).
    [unsigned long] has 32 bits.  A bitmap is the list of its words; bit [n] is
    bit [n mod 32] of word [n / 32]. *)

From S2P Require Import Prelude KMath.
Open Scope Z_scope.

(** ** Single words *)

Definition BITS_PER_LONG : Z := 32.
Definition ULONG_MAX : Z := 0xffffffff.
Definition not32 (x : Z) : Z := u32 (Z.lnot x).

Definition ffs (x : Z) : Z := let x := i32 x in fls (Z.land x (i32 (- x))).
Definition __ffs (x : Z) : Z := u32 (ffs x - 1).
Definition __fls (x : Z) : Z := u32 (fls x - 1).
Definition ffz (x : Z) : Z := __ffs (not32 x).

Definition BIT_WORD (nr : Z) : Z := nr / BITS_PER_LONG.
Definition BITMAP_FIRST_WORD_MASK (start : Z) : Z :=
  u32 (Z.shiftl ULONG_MAX (Z.land start (BITS_PER_LONG - 1))).
Definition BITMAP_LAST_WORD_MASK (nbits : Z) : Z :=
  Z.shiftr ULONG_MAX (Z.land (u32 (- nbits)) (BITS_PER_LONG - 1)).
Definition BITS_TO_LONGS (nr : Z) : Z := u32 (nr + 31) / 32.

(** [1UL & (addr[BIT_WORD(nr)] >> (nr & 31))] *)
Definition test_bit (nr : Z) (addr : list Z) : res Z :=
  w ← aread addr (Z.quot nr BITS_PER_LONG);
  Ok (Z.land 1 (Z.shiftr w (Z.land nr (BITS_PER_LONG - 1)))).

(** The word of [bit] or-ed with, or cleared of, its mask, interrupts off. *)
Definition set_bit (bit : Z) (p : list Z) : res (list Z) :=
  let bit := u32 bit in
  let mask := u32 (Z.shiftl 1 (Z.land bit 31)) in
  w ← aread p (Z.shiftr bit 5); awrite p (Z.shiftr bit 5) (Z.lor w mask).
Definition clear_bit (bit : Z) (p : list Z) : res (list Z) :=
  let bit := u32 bit in
  let mask := u32 (Z.shiftl 1 (Z.land bit 31)) in
  w ← aread p (Z.shiftr bit 5); awrite p (Z.shiftr bit 5) (Z.land w (not32 mask)).

(** ** Counting ones *)

Definition __sw_hweight32 (w : Z) : Z :=
  let res := (w -u Z.land (Z.shiftr w 1) 0x55555555)%cint in
  let res := (Z.land res 0x33333333 +u Z.land (Z.shiftr res 2) 0x33333333)%cint in
  let res := Z.land (res +u Z.shiftr res 4)%cint 0x0F0F0F0F in
  let res := (res +u Z.shiftr res 8)%cint in
  Z.land (res +u Z.shiftr res 16)%cint 0x000000FF.
Definition __sw_hweight16 (w : Z) : Z :=
  let res := (w -u Z.land (Z.shiftr w 1) 0x5555)%cint in
  let res := (Z.land res 0x3333 +u Z.land (Z.shiftr res 2) 0x3333)%cint in
  let res := Z.land (res +u Z.shiftr res 4)%cint 0x0F0F in
  Z.land (res +u Z.shiftr res 8)%cint 0x00FF.
Definition __sw_hweight8 (w : Z) : Z :=
  let res := (w -u Z.land (Z.shiftr w 1) 0x55)%cint in
  let res := (Z.land res 0x33 +u Z.land (Z.shiftr res 2) 0x33)%cint in
  Z.land (res +u Z.shiftr res 4)%cint 0x0F.
Definition __sw_hweight64 (w : Z) : Z :=
  (__sw_hweight32 (u32 (Z.shiftr w 32)) +u __sw_hweight32 (u32 w))%cint.
Definition hweight_long (w : Z) : Z := __sw_hweight32 w.

(** ** Searching *)

(** The loop of [_find_next_bit]; [start] is at a word boundary. *)
Fixpoint find_next_loop (fuel : nat) (addr : list Z) (nbits start invert tmp : Z) : res Z :=
  match fuel with
  | O => Fault NoFuel
  | S fuel' =>
      if tmp =? 0 then
        let start := (start +u BITS_PER_LONG)%cint in
        if nbits <=? start then Ok nbits
        else w ← aread addr (start / BITS_PER_LONG);
             find_next_loop fuel' addr nbits start invert (Z.lxor w invert)
      else Ok (Z.min (start +u __ffs tmp)%cint nbits)
  end.
Definition _find_next_bit (addr : list Z) (nbits start invert : Z) : res Z :=
  if (nbits =? 0) || (nbits <=? start) then Ok nbits
  else
    w ← aread addr (start / BITS_PER_LONG);
    let tmp := Z.land (Z.lxor w invert) (BITMAP_FIRST_WORD_MASK start) in
    let start := Z.land start (not32 (BITS_PER_LONG - 1)) in
    find_next_loop (S (length addr)) addr nbits start invert tmp.
Definition find_next_bit (addr : list Z) (size offset : Z) : res Z := _find_next_bit addr size offset 0.
Definition find_next_zero_bit (addr : list Z) (size offset : Z) : res Z :=
  _find_next_bit addr size offset ULONG_MAX.

Fixpoint find_first_loop (fuel : nat) (addr : list Z) (size idx : Z) : res Z :=
  match fuel with
  | O => Fault NoFuel
  | S fuel' =>
      if (idx *u BITS_PER_LONG)%cint <? size then
        w ← aread addr idx;
        if negb (w =? 0) then Ok (Z.min (idx * BITS_PER_LONG +u __ffs w)%cint size)
        else find_first_loop fuel' addr size (idx +u 1)%cint
      else Ok size
  end.
Definition find_first_bit (addr : list Z) (size : Z) : res Z :=
  find_first_loop (S (length addr)) addr size 0.

Fixpoint find_first_zero_loop (fuel : nat) (addr : list Z) (size idx : Z) : res Z :=
  match fuel with
  | O => Fault NoFuel
  | S fuel' =>
      if (idx *u BITS_PER_LONG)%cint <? size then
        w ← aread addr idx;
        if negb (w =? ULONG_MAX) then Ok (Z.min (idx * BITS_PER_LONG +u ffz w)%cint size)
        else find_first_zero_loop fuel' addr size (idx +u 1)%cint
      else Ok size
  end.
Definition find_first_zero_bit (addr : list Z) (size : Z) : res Z :=
  find_first_zero_loop (S (length addr)) addr size 0.

(** [do { ... } while (idx--)] *)
Fixpoint find_last_loop (addr : list Z) (size : Z) (idx : nat) (val : Z) : res Z :=
  w ← aread addr (Z.of_nat idx);
  let val := Z.land val w in
  if negb (val =? 0) then Ok (Z.of_nat idx * BITS_PER_LONG +u __fls val)%cint
  else match idx with O => Ok size | S idx' => find_last_loop addr size idx' ULONG_MAX end.
Definition find_last_bit (addr : list Z) (size : Z) : res Z :=
  if negb (size =? 0)
  then find_last_loop addr size (Z.to_nat ((size - 1) / BITS_PER_LONG)) (BITMAP_LAST_WORD_MASK size)
  else Ok size.

(** ** Specification vocabulary *)

(** Bit [n] of a bitmap. *)
Definition tb (l : list Z) (n : Z) : bool := Z.testbit (l !!! Z.to_nat (n / 32)) (n mod 32).
(** An array of words that holds [n] bits. *)
Definition bitmap (l : list Z) (n : Z) : Prop :=
  Forall (is_u 32) l /\ 0 <= n <= 32 * Z.of_nat (length l) /\ n <= 2 ^ 32 - 32.
(** The number of ones among the low [w] bits. *)
Definition popcount (w x : Z) : Z := Z.of_nat (length (filter (fun i => Z.testbit x i = true) (seqZ 0 w))).
(** [r] is the first place of [lo, hi) where [P] holds, or [hi]. *)
Definition first_in (P : Z -> bool) (lo hi r : Z) : Prop :=
  lo <= r <= hi /\ (forall i, lo <= i < r -> P i = false) /\ (r < hi -> P r = true).

(** ** Digits of a number *)

Lemma testbit_digit k q d i : 0 <= k -> 0 <= d < 2 ^ k -> 0 <= i ->
  Z.testbit (2 ^ k * q + d) i = if decide (i < k) then Z.testbit d i else Z.testbit q (i - k).
Proof.
  intros Hk Hd Hi. case_decide.
  - rewrite <- (Z.mod_pow2_bits_low _ k i) by lia.
    replace ((2 ^ k * q + d) mod 2 ^ k) with d; [done|].
    rewrite Z.add_comm, Z.mul_comm, Z.mod_add by (pose proof (pow2_pos k Hk); lia). by rewrite Z.mod_small.
  - assert (q = Z.shiftr (2 ^ k * q + d) k) as E.
    { rewrite Z.shiftr_div_pow2 by lia.
      apply (Zdiv_unique _ _ _ d); lia. }
    rewrite E at 2. rewrite Z.shiftr_spec by lia. f_equal. lia.
Qed.

Lemma land_digit k q d m e : 0 <= k -> 0 <= d < 2 ^ k -> 0 <= e < 2 ^ k ->
  Z.land (2 ^ k * q + d) (2 ^ k * m + e) = 2 ^ k * Z.land q m + Z.land d e.
Proof.
  intros Hk Hd He. apply Z.bits_inj'. intros i Hi.
  assert (0 <= Z.land d e < 2 ^ k) by (apply (is_u_land_l k); [done|done|lia]).
  rewrite Z.land_spec, !testbit_digit by done. case_decide; by rewrite Z.land_spec.
Qed.

(** ** [ffs] *)

Lemma u32_testbit x i : 0 <= i < 32 -> Z.testbit (u32 x) i = Z.testbit x i.
Proof. intros Hi. rewrite wrapu_testbit by lia. by rewrite bool_decide_eq_true_2 by lia. Qed.
Lemma i32_testbit x i : 0 <= i < 32 -> Z.testbit (i32 x) i = Z.testbit x i.
Proof. intros Hi. rewrite <- u32_testbit, wrapu_wraps, u32_testbit by lia. done. Qed.
Lemma u32_ext x y : (forall i, 0 <= i < 32 -> Z.testbit x i = Z.testbit y i) -> u32 x = u32 y.
Proof.
  intros He. apply Z.bits_inj'. intros i Hi. rewrite !wrapu_testbit by lia.
  case_bool_decide; [|done]. cbn. apply He. lia.
Qed.
Lemma word_eq x y : is_u 32 x -> is_u 32 y ->
  (forall i, 0 <= i < 32 -> Z.testbit x i = Z.testbit y i) -> x = y.
Proof. intros Hx Hy He. rewrite <- (wrapu_small 32 x), <- (wrapu_small 32 y) by done. by apply u32_ext. Qed.
Lemma word_zero x : is_u 32 x -> x <> 0 -> exists i, 0 <= i < 32 /\ Z.testbit x i = true.
Proof.
  intros Hx Hz. exists (Z.log2 x). unfold is_u in Hx. split.
  - split; [apply Z.log2_nonneg|]. apply Z.log2_lt_pow2; lia.
  - apply Z.bit_log2. lia.
Qed.

(** The lowest one of a word. *)
Lemma lowest_bit x : is_u 32 x -> x <> 0 ->
  exists i, 0 <= i < 32 /\ Z.testbit x i = true /\ forall j, 0 <= j < i -> Z.testbit x j = false.
Proof.
  intros Hx Hz. destruct (word_zero x Hx Hz) as (k & Hk & Hb).
  assert (forall n, (exists i, 0 <= i < 32 /\ Z.testbit x i = true /\ forall j, 0 <= j < i -> Z.testbit x j = false)
    \/ forall j, 0 <= j < Z.of_nat n -> Z.testbit x j = false) as Hs.
  { intros n. induction n as [|n [IH|IH]]; [right; lia|by left|].
    destruct (decide (Z.of_nat n < 32)); [|right; intros j Hj; destruct (decide (j < Z.of_nat n)); [apply IH; lia|apply (testbit_high 32); [lia|done|lia]]].
    destruct (Z.testbit x (Z.of_nat n)) eqn:E.
    - left. exists (Z.of_nat n). split; [lia|]. split; [done|]. intros j Hj. apply IH. lia.
    - right. intros j Hj. destruct (decide (j = Z.of_nat n)) as [->|]; [done|]. apply IH. lia. }
  destruct (Hs 32%nat) as [?|Hn]; [done|]. rewrite (Hn k) in Hb by lia. done.
Qed.

Lemma odd_land_opp m : Z.land (2 * m + 1) (- (2 * m + 1)) = 1.
Proof.
  replace (- (2 * m + 1)) with (2 * Z.lnot m + 1) by (unfold Z.lnot; lia).
  change 2 with (2 ^ 1) at 1 2. rewrite land_digit by lia. rewrite Z.land_lnot_diag. done.
Qed.

Lemma land_opp x i : 0 <= i -> Z.testbit x i = true -> (forall j, 0 <= j < i -> Z.testbit x j = false) ->
  Z.land x (- x) = 2 ^ i.
Proof.
  intros Hi Hb Hl. assert (x = 2 ^ i * (2 * (x / 2 ^ i / 2) + 1)) as E.
  { pose proof (pow2_pos i Hi). assert (x mod 2 ^ i = 0) as Hm.
    { apply Z.bits_inj'. intros j Hj. rewrite Z.testbit_0_l.
      destruct (decide (j < i)); [rewrite Z.mod_pow2_bits_low by lia; apply Hl; lia|].
      by rewrite Z.mod_pow2_bits_high by lia. }
    assert ((x / 2 ^ i) mod 2 = 1) as Ho.
    { rewrite Z.testbit_odd, Z.shiftr_div_pow2 in Hb by lia. rewrite Zmod_odd, Hb. done. }
    pose proof (Z.div_mod x (2 ^ i) ltac:(lia)). pose proof (Z.div_mod (x / 2 ^ i) 2 ltac:(lia)). nia. }
  rewrite E at 1 2. set (m := x / 2 ^ i / 2). replace (- (2 ^ i * (2 * m + 1))) with (2 ^ i * - (2 * m + 1)) by lia.
  rewrite <- (Z.add_0_r (2 ^ i * (2 * m + 1))), <- (Z.add_0_r (2 ^ i * - (2 * m + 1))).
  pose proof (pow2_pos i Hi). rewrite land_digit by lia. rewrite odd_land_opp. rewrite Z.land_0_l. lia.
Qed.

Lemma __ffs_spec x : is_u 32 x -> x <> 0 ->
  0 <= __ffs x < 32 /\ Z.testbit x (__ffs x) = true /\ forall j, 0 <= j < __ffs x -> Z.testbit x j = false.
Proof.
  intros Hx Hz. destruct (lowest_bit x Hx Hz) as (i & Hi & Hb & Hl).
  assert (__ffs x = i) as ->; [|done].
  unfold __ffs, ffs. assert (2 ^ i < 2 ^ 32) by (apply Z.pow_lt_mono_r; lia).
  pose proof (pow2_pos i ltac:(lia)).
  assert (fls (Z.land (i32 x) (i32 (- i32 x))) = fls (2 ^ i)) as ->.
  { unfold fls, __clz. replace (u32 (Z.land (i32 x) (i32 (- i32 x)))) with (u32 (2 ^ i)); [done|].
    rewrite <- (land_opp x i) by (done || lia). apply u32_ext. intros j Hj.
    rewrite !Z.land_spec, !i32_testbit by lia. f_equal.
    assert (u32 (- i32 x) = u32 (- x)) as Eo.
    { rewrite <- (wrapu_wraps 32 (- x)), <- (wrapu_wraps 32 (- i32 x)) by lia. f_equal. unfold wraps.
      f_equal. rewrite <- (Zplus_mod_idemp_l (- i32 x)), <- (Zplus_mod_idemp_l (- x)). f_equal. f_equal.
      rewrite <- (Z.sub_0_l (i32 x)), <- (Z.sub_0_l x). rewrite <- Zminus_mod_idemp_r, <- (Zminus_mod_idemp_r 0 x).
      f_equal. f_equal. exact (wrapu_wraps 32 x ltac:(lia)). }
    rewrite <- (u32_testbit (- x)), <- (u32_testbit (- i32 x)) by lia. by rewrite Eo. }
  destruct (fls_spec (2 ^ i) ltac:(lia)) as (-> & _). rewrite Z.log2_pow2 by lia. rewrite u32_small; lia.
Qed.

Lemma __fls_spec x : is_u 32 x -> x <> 0 -> __fls x = Z.log2 x /\ 0 <= __fls x < 32.
Proof.
  intros Hx Hz. unfold is_u in Hx. unfold __fls. destruct (fls_spec x ltac:(lia)) as (-> & _).
  assert (0 <= Z.log2 x < 32) by (split; [apply Z.log2_nonneg|apply Z.log2_lt_pow2; lia]).
  rewrite u32_small; lia.
Qed.

(** [ffz]: the lowest clear bit of a word that has one. *)
Lemma ffz_spec w : is_u 32 w -> w <> ULONG_MAX ->
  0 <= ffz w < 32 /\ Z.testbit w (ffz w) = false /\ forall j, 0 <= j < ffz w -> Z.testbit w j = true.
Proof.
  intros Hw Hne.
  assert (forall j, 0 <= j < 32 -> Z.testbit (not32 w) j = negb (Z.testbit w j)) as Hbit
    by (intros j Hj; unfold not32; by rewrite u32_testbit, Z.lnot_spec by lia).
  unfold ffz. destruct (__ffs_spec (not32 w)) as (Hr & Hset & Hlow); [apply (wrapu_range 32); lia| |].
  - intros E. apply Hne. apply word_eq; [done|done|]. intros i Hi. specialize (Hbit i Hi).
    rewrite E, Z.testbit_0_l in Hbit. change ULONG_MAX with (Z.ones 32). rewrite Z.ones_spec_low by lia.
    by destruct (Z.testbit w i).
  - rewrite Hbit in Hset by lia. split; [done|]. split; [by apply negb_true_iff|]. intros j Hj.
    specialize (Hlow j Hj). rewrite Hbit in Hlow by lia. by apply negb_false_iff.
Qed.

(** ** Counting ones *)

Lemma popcount_add a b x : 0 <= a -> 0 <= b -> popcount (a + b) x = popcount a x + popcount b (Z.shiftr x a).
Proof.
  intros Ha Hb. unfold popcount. rewrite seqZ_app, filter_app, length_app by lia.
  rewrite Nat2Z.inj_add. f_equal. f_equal. rewrite (Z.add_comm 0 a), <- (fmap_add_seqZ a 0 b), list_filter_fmap, length_fmap.
  f_equal. apply list_filter_strong. intros i Hi%elem_of_seqZ.
  rewrite Z.shiftr_spec by lia. by rewrite Z.add_comm.
Qed.

Lemma popcount_ext w x y : (forall i, 0 <= i < w -> Z.testbit x i = Z.testbit y i) -> popcount w x = popcount w y.
Proof.
  intros He. unfold popcount. do 2 f_equal. apply list_filter_strong.
  intros i Hi%elem_of_seqZ. by rewrite He by lia.
Qed.

Lemma popcount_digit k w q d : 0 <= k -> 0 <= w -> 0 <= d < 2 ^ k ->
  popcount (k + w) (2 ^ k * q + d) = popcount k d + popcount w q.
Proof.
  intros Hk Hw Hd. rewrite popcount_add by lia. f_equal.
  - apply popcount_ext. intros i Hi. rewrite testbit_digit by lia. by rewrite decide_True by lia.
  - f_equal. apply Z.bits_inj'. intros i Hi. rewrite Z.shiftr_spec, testbit_digit by lia.
    rewrite decide_False by lia. f_equal. lia.
Qed.

(** Hexadecimal digits, the lowest first. *)
Definition undig (l : list Z) : Z := foldr (fun d a => 16 * a + d) 0 l.
Definition digit (d : Z) : Prop := 0 <= d < 16.

Lemma digits_of n x : 0 <= x < 16 ^ Z.of_nat n -> exists l, length l = n /\ Forall digit l /\ undig l = x.
Proof.
  revert x. induction n as [|n IH]; intros x Hx.
  - exists []. split_and!; [done|constructor|]. cbn in *. lia.
  - destruct (IH (x / 16)) as (l & Hl & Hf & Hu).
    { rewrite Nat2Z.inj_succ, Z.pow_succ_r in Hx by lia. split; [apply Z.div_pos; lia|].
      apply Z.div_lt_upper_bound; lia. }
    exists (x mod 16 :: l). split_and!; [cbn; lia| |].
    + constructor; [|done]. apply Z.mod_pos_bound. lia.
    + change (16 * undig l + x mod 16 = x). rewrite Hu. pose proof (Z.div_mod x 16). lia.
Qed.

Lemma popcount_undig l : Forall digit l ->
  popcount (4 * Z.of_nat (length l)) (undig l) = foldr Z.add 0 (popcount 4 <$> l).
Proof.
  induction 1 as [|d l Hd _ IH]; [done|]. unfold digit in Hd. cbn [length undig foldr fmap list_fmap].
  replace (4 * Z.of_nat (S (length l))) with (4 + 4 * Z.of_nat (length l)) by lia.
  change 16 with (2 ^ 4). rewrite popcount_digit by lia. f_equal. exact IH.
Qed.

(** The first two statements, on numbers that do not overflow. *)
Definition ones2 (m w : Z) : Z := w - Z.land (Z.shiftr w 1) m.
Definition ones4 (m w : Z) : Z := Z.land w m + Z.land (Z.shiftr w 2) m.

Lemma shiftr_digit s q d : 0 <= s <= 4 -> digit d ->
  Z.shiftr (16 * q + d) s = 16 * Z.shiftr q s + Z.shiftr (16 * (q mod 2 ^ s) + d) s /\
  digit (Z.shiftr (16 * (q mod 2 ^ s) + d) s).
Proof.
  intros Hs Hd. unfold digit in *. pose proof (pow2_pos s ltac:(lia)).
  pose proof (Z.mod_pos_bound q (2 ^ s) ltac:(lia)). rewrite !Z.shiftr_div_pow2 by lia.
  assert (16 * q + d = (16 * (q / 2 ^ s)) * 2 ^ s + (16 * (q mod 2 ^ s) + d)) as ->.
  { pose proof (Z.div_mod q (2 ^ s) ltac:(lia)). lia. }
  rewrite Z.div_add_l by lia. split; [done|].
  split; [apply Z.div_pos; lia|]. apply Z.div_lt_upper_bound; lia.
Qed.

(** What falls into a digit from the one above is masked off. *)
Definition masked (s m d : Z) : bool :=
  forallb (fun c => Z.land (Z.shiftr (16 * c + d) s) m =? Z.land (Z.shiftr d s) m) (seqZ 0 (2 ^ s)).

Lemma land_shiftr_digit s q d m e : 0 <= s <= 4 -> digit d -> digit e -> masked s e d = true ->
  Z.land (Z.shiftr (16 * q + d) s) (16 * m + e) = 16 * Z.land (Z.shiftr q s) m + Z.land (Z.shiftr d s) e.
Proof.
  intros Hs Hd He Hm. destruct (shiftr_digit s q d Hs Hd) as [-> Hdig].
  change 16 with (2 ^ 4) at 1 3 4. rewrite land_digit by (unfold digit in *; cbn in *; lia).
  f_equal. unfold masked in Hm. pose proof (pow2_pos s ltac:(lia)).
  apply Z.eqb_eq. apply (forallb_below (2 ^ s) _ (q mod 2 ^ s)) in Hm; [done|].
  apply Z.mod_pos_bound. lia.
Qed.

Lemma digit_cases (P : Z -> bool) d : forallb P (seqZ 0 16) = true -> digit d -> P d = true.
Proof. intros Hf Hd. by apply (forallb_below 16). Qed.

Lemma ones2_digit m q d : digit d -> ones2 (16 * m + 5) (16 * q + d) = 16 * ones2 m q + ones2 5 d.
Proof.
  intros Hd. unfold ones2. rewrite land_shiftr_digit; [lia|lia|done|done|].
  by apply (digit_cases (masked 1 5)).
Qed.
Lemma ones4_digit m q d : digit d -> ones4 (16 * m + 3) (16 * q + d) = 16 * ones4 m q + ones4 3 d.
Proof.
  intros Hd. unfold ones4. rewrite land_shiftr_digit; [|lia|done|done|by apply (digit_cases (masked 2 3))].
  change 16 with (2 ^ 4) at 1 2. rewrite land_digit by (unfold digit in *; cbn; lia). lia.
Qed.

Lemma ones_digit d : digit d -> digit (ones2 5 d) /\ ones4 3 (ones2 5 d) = popcount 4 d /\ 0 <= popcount 4 d <= 4.
Proof.
  intros Hd.
  assert (forallb (fun d => (0 <=? ones2 5 d) && (ones2 5 d <? 16) && (ones4 3 (ones2 5 d) =? popcount 4 d) &&
    (popcount 4 d <=? 4)) (seqZ 0 16) = true) as Hc by (vm_compute; reflexivity).
  apply (digit_cases _ d Hc) in Hd. rewrite !andb_true_iff, !Z.leb_le, Z.ltb_lt, Z.eqb_eq in Hd.
  unfold digit, popcount in *. lia.
Qed.

(** The two statements leave in each digit its number of ones. *)
Lemma ones2_undig l : Forall digit l ->
  ones2 (undig (replicate (length l) 5)) (undig l) = undig (ones2 5 <$> l) /\ Forall digit (ones2 5 <$> l).
Proof.
  induction 1 as [|d l Hd _ [IH1 IH2]]; [by split|]. cbn [length replicate undig foldr fmap list_fmap].
  destruct (ones_digit d Hd) as (H1 & _ & _). split; [|by constructor].
  rewrite ones2_digit by done. f_equal. f_equal. exact IH1.
Qed.
Lemma ones4_undig l : Forall digit l ->
  ones4 (undig (replicate (length l) 3)) (undig (ones2 5 <$> l)) = undig (popcount 4 <$> l).
Proof.
  induction 1 as [|d l Hd _ IH]; [done|]. cbn [length replicate undig foldr fmap list_fmap].
  destruct (ones_digit d Hd) as (H1 & H2 & _). rewrite ones4_digit, H2 by done.
  f_equal. f_equal. exact IH.
Qed.

Lemma undig_bound l : Forall digit l -> 0 <= undig l < 16 ^ Z.of_nat (length l).
Proof.
  induction 1 as [|d l Hd _ IH]; [done|]. unfold digit in Hd. cbn [length undig foldr].
  fold (undig l). rewrite Nat2Z.inj_succ, Z.pow_succ_r by lia. lia.
Qed.

Lemma counts_bound l : Forall digit l -> Forall (fun p => 0 <= p <= 4) (popcount 4 <$> l).
Proof.
  intros Hl. apply Forall_fmap. eapply Forall_impl; [exact Hl|]. intros d Hd. by apply ones_digit.
Qed.

(** One step down the digits of a mask. *)
Lemma land16 q d m e : digit d -> digit e -> Z.land (16 * q + d) (16 * m + e) = 16 * Z.land q m + Z.land d e.
Proof. intros. apply (land_digit 4); [lia|done|done]. Qed.

(** A mask that keeps whole digits. *)
Definition keep (b : bool) : Z := if b then 15 else 0.
Lemma land_keep l bs : Forall digit l -> length l = length bs ->
  Z.land (undig l) (undig (keep <$> bs)) = undig (zip_with (fun d (b : bool) => if b then d else 0) l bs).
Proof.
  intros Hl. revert bs. induction Hl as [|d l Hd _ IH]; intros [|b bs] Hlen; try done.
  cbn [undig foldr fmap list_fmap zip_with]. rewrite land16 by (destruct b; done).
  f_equal; [f_equal; apply IH; by injection Hlen|].
  destruct b; [|by rewrite Z.land_0_r]. change (keep true) with (Z.ones 4).
  rewrite Z.land_ones by lia. by apply Z.mod_small.
Qed.

Lemma land_low8 x : Z.land x 255 = x mod 256.
Proof. change 255 with (Z.ones 8). by rewrite Z.land_ones by lia. Qed.

Lemma shiftr4_undig d l : digit d -> Z.shiftr (undig (d :: l)) 4 = undig l.
Proof.
  intros Hd. unfold digit in Hd. rewrite Z.shiftr_div_pow2 by lia. cbn [undig foldr]. fold (undig l).
  symmetry. apply (Zdiv_unique _ _ _ d); lia.
Qed.

(** ** The software counts *)

Ltac count_lia := unfold digit in *; cbn [undig foldr length]; lia.
(** The last additions, over bytes. *)
Lemma last32 a b c d : 0 <= a <= 8 -> 0 <= b <= 8 -> 0 <= c <= 8 -> 0 <= d <= 8 ->
  let x := undig [a; 0; b; 0; c; 0; d; 0] in
  let res := (x +u Z.shiftr x 8)%cint in
  Z.land (res +u Z.shiftr res 16)%cint 0xFF = a + b + c + d.
Proof.
  intros Ha Hb Hc Hd. cbn [undig foldr]. cbv zeta. rewrite land_low8, !Z.shiftr_div_pow2 by lia.
  change (2 ^ 8) with 256. change (2 ^ 16) with 65536. rewrite (u32_small (_ + _ / 256)) by dlia.
  rewrite u32_small by dlia. dlia.
Qed.
Lemma last16 a b : 0 <= a <= 8 -> 0 <= b <= 8 ->
  let x := undig [a; 0; b; 0] in Z.land (x +u Z.shiftr x 8)%cint 0xFF = a + b.
Proof.
  intros Ha Hb. cbn [undig foldr]. cbv zeta. rewrite land_low8, !Z.shiftr_div_pow2 by lia.
  change (2 ^ 8) with 256. rewrite u32_small by dlia. dlia.
Qed.

Lemma hweight32_popcount w : is_u 32 w -> __sw_hweight32 w = popcount 32 w.
Proof.
  intros Hw. destruct (digits_of 8 w Hw) as (l & Hlen & Hl & <-).
  pose proof (popcount_undig l Hl) as Hp. rewrite Hlen in Hp. change (4 * Z.of_nat 8) with 32 in Hp. rewrite Hp.
  destruct (ones2_undig l Hl) as [E2 D2]. pose proof (ones4_undig l Hl) as E4. rewrite Hlen in E2, E4.
  pose proof (undig_bound _ D2) as B2. rewrite length_fmap, Hlen in B2. pose proof (counts_bound l Hl) as C.
  unfold __sw_hweight32.
  change (undig l - Z.land (Z.shiftr (undig l) 1) 0x55555555) with (ones2 (undig (replicate 8 5)) (undig l)).
  rewrite E2, (u32_small (undig (ones2 5 <$> l))) by (cbn in B2; lia).
  change (Z.land (undig (ones2 5 <$> l)) 0x33333333 + Z.land (Z.shiftr (undig (ones2 5 <$> l)) 2) 0x33333333)
    with (ones4 (undig (replicate 8 3)) (undig (ones2 5 <$> l))). rewrite E4. clear -C Hlen.
  destruct l as [|d0 [|d1 [|d2 [|d3 [|d4 [|d5 [|d6 [|d7 [|]]]]]]]]]; try done. cbn [fmap list_fmap] in C |- *. revert C.
  generalize (popcount 4 d0) (popcount 4 d1) (popcount 4 d2) (popcount 4 d3) (popcount 4 d4) (popcount 4 d5) (popcount 4 d6) (popcount 4 d7). clear.
  intros p0 p1 p2 p3 p4 p5 p6 p7 C. rewrite !Forall_cons in C. destruct C as (? & ? & ? & ? & ? & ? & ? & ? & _).
  rewrite (u32_small (undig [p0; p1; p2; p3; p4; p5; p6; p7])), shiftr4_undig by count_lia.
  replace (undig [p0; p1; p2; p3; p4; p5; p6; p7] + undig [p1; p2; p3; p4; p5; p6; p7]) with (undig [p0 + p1; p1 + p2; p2 + p3; p3 + p4; p4 + p5; p5 + p6; p6 + p7; p7]) by count_lia.
  rewrite (u32_small (undig [p0 + p1; p1 + p2; p2 + p3; p3 + p4; p4 + p5; p5 + p6; p6 + p7; p7])) by count_lia.
  change 0x0F0F0F0F with (undig (keep <$> [true; false; true; false; true; false; true; false])). rewrite land_keep by (repeat constructor; count_lia).
  cbn [zip_with]. rewrite last32 by lia. cbn; lia.
Qed.

Lemma hweight16_popcount w : is_u 16 w -> __sw_hweight16 w = popcount 16 w.
Proof.
  intros Hw. destruct (digits_of 4 w Hw) as (l & Hlen & Hl & <-).
  pose proof (popcount_undig l Hl) as Hp. rewrite Hlen in Hp. change (4 * Z.of_nat 4) with 16 in Hp. rewrite Hp.
  destruct (ones2_undig l Hl) as [E2 D2]. pose proof (ones4_undig l Hl) as E4. rewrite Hlen in E2, E4.
  pose proof (undig_bound _ D2) as B2. rewrite length_fmap, Hlen in B2. pose proof (counts_bound l Hl) as C.
  unfold __sw_hweight16.
  change (undig l - Z.land (Z.shiftr (undig l) 1) 0x5555) with (ones2 (undig (replicate 4 5)) (undig l)).
  rewrite E2, (u32_small (undig (ones2 5 <$> l))) by (cbn in B2; lia).
  change (Z.land (undig (ones2 5 <$> l)) 0x3333 + Z.land (Z.shiftr (undig (ones2 5 <$> l)) 2) 0x3333)
    with (ones4 (undig (replicate 4 3)) (undig (ones2 5 <$> l))). rewrite E4. clear -C Hlen.
  destruct l as [|d0 [|d1 [|d2 [|d3 [|]]]]]; try done. cbn [fmap list_fmap] in C |- *. revert C.
  generalize (popcount 4 d0) (popcount 4 d1) (popcount 4 d2) (popcount 4 d3). clear.
  intros p0 p1 p2 p3 C. rewrite !Forall_cons in C. destruct C as (? & ? & ? & ? & _).
  rewrite (u32_small (undig [p0; p1; p2; p3])), shiftr4_undig by count_lia.
  replace (undig [p0; p1; p2; p3] + undig [p1; p2; p3]) with (undig [p0 + p1; p1 + p2; p2 + p3; p3]) by count_lia.
  rewrite (u32_small (undig [p0 + p1; p1 + p2; p2 + p3; p3])) by count_lia.
  change 0x0F0F with (undig (keep <$> [true; false; true; false])). rewrite land_keep by (repeat constructor; count_lia).
  cbn [zip_with]. rewrite last16 by lia. cbn; lia.
Qed.

Lemma hweight8_popcount w : is_u 8 w -> __sw_hweight8 w = popcount 8 w.
Proof.
  intros Hw. destruct (digits_of 2 w Hw) as (l & Hlen & Hl & <-).
  pose proof (popcount_undig l Hl) as Hp. rewrite Hlen in Hp. change (4 * Z.of_nat 2) with 8 in Hp. rewrite Hp.
  destruct (ones2_undig l Hl) as [E2 D2]. pose proof (ones4_undig l Hl) as E4. rewrite Hlen in E2, E4.
  pose proof (undig_bound _ D2) as B2. rewrite length_fmap, Hlen in B2. pose proof (counts_bound l Hl) as C.
  unfold __sw_hweight8.
  change (undig l - Z.land (Z.shiftr (undig l) 1) 0x55) with (ones2 (undig (replicate 2 5)) (undig l)).
  rewrite E2, (u32_small (undig (ones2 5 <$> l))) by (cbn in B2; lia).
  change (Z.land (undig (ones2 5 <$> l)) 0x33 + Z.land (Z.shiftr (undig (ones2 5 <$> l)) 2) 0x33)
    with (ones4 (undig (replicate 2 3)) (undig (ones2 5 <$> l))). rewrite E4. clear -C Hlen.
  destruct l as [|d0 [|d1 [|]]]; try done. cbn [fmap list_fmap] in C |- *. revert C.
  generalize (popcount 4 d0) (popcount 4 d1). clear.
  intros p0 p1 C. rewrite !Forall_cons in C. destruct C as (? & ? & _).
  rewrite (u32_small (undig [p0; p1])), shiftr4_undig by count_lia.
  replace (undig [p0; p1] + undig [p1]) with (undig [p0 + p1; p1]) by count_lia.
  rewrite (u32_small (undig [p0 + p1; p1])) by count_lia.
  change 0x0F with (undig (keep <$> [true; false])). rewrite land_keep by (repeat constructor; count_lia).
  cbn [zip_with]. cbn; lia.
Qed.

Lemma popcount_range w x : 0 <= w -> 0 <= popcount w x <= w.
Proof.
  intros Hw. unfold popcount. split; [lia|].
  pose proof (length_filter (fun i => Z.testbit x i = true) (seqZ 0 w)). rewrite length_seqZ in H. lia.
Qed.

Lemma hweight64_popcount w : is_u 64 w -> __sw_hweight64 w = popcount 64 w.
Proof.
  intros Hw. unfold __sw_hweight64, is_u in *.
  assert (is_u 32 (Z.shiftr w 32)) as Hh.
  { rewrite Z.shiftr_div_pow2 by lia. split; [apply Z.div_pos; lia|apply Z.div_lt_upper_bound; lia]. }
  assert (is_u 32 (u32 w)) as Hl by (apply (wrapu_range 32); lia).
  rewrite (wrapu_small 32 (Z.shiftr w 32)) by done. rewrite !hweight32_popcount by done.
  replace (popcount 64 w) with (popcount 32 (Z.shiftr w 32) + popcount 32 (u32 w)).
  - pose proof (popcount_range 32 (Z.shiftr w 32)). pose proof (popcount_range 32 (u32 w)). rewrite u32_small; lia.
  - change 64 with (32 + 32). rewrite popcount_add by lia. rewrite Z.add_comm. f_equal.
    apply popcount_ext. intros i Hi. by rewrite u32_testbit by lia.
Qed.

(** ** Words and bits of a bitmap *)

Lemma tb_word l n j : 0 <= n -> 0 <= j < 32 -> tb l (32 * n + j) = Z.testbit (l !!! Z.to_nat n) j.
Proof.
  intros Hn Hj. unfold tb. rewrite (Z.mul_comm 32), Z.div_add_l, Z.div_small, Z.add_0_r by lia.
  by rewrite Z.add_comm, Z.mod_add, Z.mod_small by lia.
Qed.

Lemma bitmap_read l n i : bitmap l n -> 0 <= i -> 32 * i < n ->
  exists w, aread l i = Ok w /\ l !!! Z.to_nat i = w /\ is_u 32 w.
Proof.
  intros (Hf & Hn & _) Hi Hlt. destruct (lookup_Z l i) as [w Hw]; [lia|]. exists w.
  split; [by apply aread_lookup|]. split; [by apply list_lookup_total_correct|].
  by eapply Forall_lookup_1.
Qed.

Lemma word_split i : i = 32 * (i / 32) + i mod 32 /\ 0 <= i mod 32 < 32.
Proof. pose proof (Z.div_mod i 32). pose proof (Z.mod_pos_bound i 32). lia. Qed.

Lemma land31 x : Z.land x 31 = x mod 32.
Proof. change 31 with (Z.ones 5). by rewrite Z.land_ones by lia. Qed.

Lemma first_mask_testbit s j : 0 <= j < 32 ->
  Z.testbit (BITMAP_FIRST_WORD_MASK s) j = bool_decide (s mod 32 <= j).
Proof.
  intros Hj. unfold BITMAP_FIRST_WORD_MASK, BITS_PER_LONG. rewrite u32_testbit by lia.
  change (32 - 1) with 31. rewrite land31. pose proof (Z.mod_pos_bound s 32).
  rewrite Z.shiftl_spec by lia. change ULONG_MAX with (Z.ones 32). case_bool_decide.
  - apply Z.ones_spec_low. lia.
  - apply Z.testbit_neg_r. lia.
Qed.

Lemma last_mask_testbit n j : 0 <= j < 32 ->
  Z.testbit (BITMAP_LAST_WORD_MASK n) j = bool_decide (n mod 32 = 0 \/ j < n mod 32).
Proof.
  intros Hj. unfold BITMAP_LAST_WORD_MASK, BITS_PER_LONG. change (32 - 1) with 31. rewrite land31.
  assert (u32 (- n) mod 32 = (- n) mod 32) as ->.
  { unfold wrapu. apply Z.mod_mod_divide. by exists (2 ^ 27). }
  rewrite Z.shiftr_spec by lia. change ULONG_MAX with (Z.ones 32).
  pose proof (Z.mod_pos_bound n 32). pose proof (Z.mod_pos_bound (- n) 32).
  assert ((- n) mod 32 = if decide (n mod 32 = 0) then 0 else 32 - n mod 32) as ->.
  { case_decide; [by apply Z.mod_opp_l_z|by apply Z.mod_opp_l_nz]. }
  case_bool_decide as Hd; [apply Z.ones_spec_low|apply Z.ones_spec_high]; case_decide; lia.
Qed.

Lemma last_mask_range n : is_u 32 (BITMAP_LAST_WORD_MASK n).
Proof.
  unfold BITMAP_LAST_WORD_MASK. set (k := Z.land _ _).
  assert (0 <= k < 32) by (subst k; change (BITS_PER_LONG - 1) with 31; rewrite land31; by apply Z.mod_pos_bound).
  rewrite Z.shiftr_div_pow2 by lia. unfold ULONG_MAX. pose proof (pow2_pos k ltac:(lia)).
  split; [apply Z.div_pos; lia|]. apply Z.div_lt_upper_bound; lia.
Qed.

(** ** The searches *)

(** The words that [invert] leaves and complements. *)
Definition flip_of (inv : bool) : Z := if inv then ULONG_MAX else 0.
Lemma flip_testbit w inv j : 0 <= j < 32 -> Z.testbit (Z.lxor w (flip_of inv)) j = xorb (Z.testbit w j) inv.
Proof.
  intros Hj. rewrite Z.lxor_spec. f_equal. destruct inv; [|by rewrite Z.testbit_0_l].
  change (flip_of true) with (Z.ones 32). apply Z.ones_spec_low. lia.
Qed.
Lemma flip_range w inv : is_u 32 w -> is_u 32 (Z.lxor w (flip_of inv)).
Proof. intros. apply is_u_lxor; [lia|done|]. by destruct inv. Qed.

Lemma first_in_min P lo hi b r : first_in P lo b r -> lo <= hi -> hi <= b -> first_in P lo hi (Z.min r hi).
Proof.
  intros (Hr & Hn & Hp) Hl Hb. split; [lia|]. split; [intros i Hi; apply Hn; lia|].
  intros Hlt. replace (Z.min r hi) with r by lia. apply Hp. lia.
Qed.

(** The loop: no bit before the present word, whose wanted bits are [tmp]. *)
Lemma find_next_loop_spec fuel l n inv lo k tmp :
  bitmap l n -> 0 <= k -> 32 * k < n -> 0 <= lo < n -> (Z.to_nat (n / 32 - k) < fuel)%nat -> is_u 32 tmp ->
  (forall i, lo <= i < 32 * k -> xorb (tb l i) inv = false) ->
  (forall j, 0 <= j < 32 -> Z.testbit tmp j = bool_decide (lo <= 32 * k + j) && xorb (tb l (32 * k + j)) inv) ->
  lo < 32 * k + 32 ->
  exists r, find_next_loop fuel l n (32 * k) (flip_of inv) tmp = Ok r /\ first_in (fun i => xorb (tb l i) inv) lo n r.
Proof.
  revert k tmp. induction fuel as [|fuel IH]; intros k tmp Hb Hk Hkn Hlo Hf Htmp Hbefore Hbits Hlk; [lia|].
  pose proof Hb as (_ & Hn & Hbig). cbn [find_next_loop]. destruct (Z.eqb_spec tmp 0) as [->|Hz].
  - unfold BITS_PER_LONG. rewrite u32_small by lia.
    assert (forall i, lo <= i < 32 * k + 32 -> xorb (tb l i) inv = false) as Hb'.
    { intros i Hi. destruct (decide (i < 32 * k)); [apply Hbefore; lia|].
      specialize (Hbits (i - 32 * k) ltac:(lia)). rewrite Z.testbit_0_l in Hbits.
      replace (32 * k + (i - 32 * k)) with i in Hbits by lia. by rewrite bool_decide_eq_true_2 in Hbits by lia. }
    destruct (Z.leb_spec n (32 * k + 32)).
    + exists n. split; [done|]. split; [lia|]. split; [|lia]. intros i Hi. apply Hb'. lia.
    + replace (32 * k + 32) with (32 * (k + 1)) by lia.
      replace (32 * (k + 1) / 32) with (k + 1) by (rewrite Z.mul_comm, Z.div_mul; lia).
      destruct (bitmap_read l n (k + 1) Hb) as (w & -> & Hw & Hwr); [lia|lia|]. cbn [mbind res_bind].
      apply IH; try done; try lia.
      * assert (k + 1 <= n / 32) by (apply Z.div_le_lower_bound; lia). lia.
      * by apply flip_range.
      * intros i Hi. apply Hb'. lia.
      * intros j Hj. rewrite flip_testbit, bool_decide_eq_true_2 by lia. cbn [andb].
        by rewrite tb_word, Hw by lia.
  - destruct (__ffs_spec tmp Htmp Hz) as (Hr & Hset & Hlow). unfold BITS_PER_LONG in *.
    eexists. split; [done|]. rewrite u32_small by lia.
    apply (first_in_min _ lo n (32 * k + 32 + n)); [|lia|lia].
    rewrite Hbits in Hset by lia. apply andb_true_iff in Hset as [Hge%bool_decide_eq_true_1 Hset].
    split; [lia|]. split; [|done]. intros i Hi. destruct (decide (i < 32 * k)); [apply Hbefore; lia|].
    specialize (Hlow (i - 32 * k) ltac:(lia)). rewrite Hbits in Hlow by lia.
    replace (32 * k + (i - 32 * k)) with i in Hlow by lia. by rewrite bool_decide_eq_true_2 in Hlow by lia.
Qed.

Lemma _find_next_bit_spec l n start inv :
  bitmap l n -> 0 <= start ->
  exists r, _find_next_bit l n start (flip_of inv) = Ok r /\
    first_in (fun i => xorb (tb l i) inv) (Z.min start n) n r.
Proof.
  intros Hb Hs. pose proof Hb as (Hf & Hn & Hbig). unfold _find_next_bit.
  destruct (Z.eqb_spec n 0) as [->|Hn0]; cbn [orb].
  { exists 0. split; [done|]. split; [lia|]. split; [intros; lia|lia]. }
  destruct (Z.leb_spec n start).
  { exists n. split; [done|]. split; [lia|]. split; [intros; lia|lia]. }
  destruct (word_split start) as [Es Hm]. set (k := start / 32) in *.
  assert (0 <= k) by (apply Z.div_pos; lia).
  unfold BITS_PER_LONG. fold k. destruct (bitmap_read l n k Hb) as (w & -> & Hw & Hwr); [done|lia|].
  cbn [mbind res_bind]. replace (Z.min start n) with start by lia.
  assert (Z.land start (not32 (32 - 1)) = 32 * k) as ->.
  { subst k. change (not32 (32 - 1)) with (2 ^ 5 * (2 ^ 27 - 1) + 0). rewrite Es at 1. change 32 with (2 ^ 5) at 1.
    rewrite land_digit by lia. rewrite Z.land_0_r, Z.add_0_r. change (2 ^ 5) with 32. f_equal.
    change (2 ^ 27 - 1) with (Z.ones 27). rewrite Z.land_ones by lia. apply Z.mod_small.
    split; [done|]. apply Z.div_lt_upper_bound; lia. }
  apply find_next_loop_spec; try done; try lia.
  - assert (n / 32 <= Z.of_nat (length l)) by (apply Z.div_le_upper_bound; lia). lia.
  - apply is_u_land_l; [lia|by apply flip_range|]. apply (wrapu_range 32). lia.
  - intros j Hj. rewrite Z.land_spec, flip_testbit, first_mask_testbit by lia.
    rewrite tb_word, Hw, andb_comm by lia. f_equal. apply bool_decide_ext. lia.
Qed.

Lemma find_next_bit_spec l n start : bitmap l n -> 0 <= start ->
  exists r, find_next_bit l n start = Ok r /\ first_in (tb l) (Z.min start n) n r.
Proof.
  intros Hb Hs. destruct (_find_next_bit_spec l n start false Hb Hs) as (r & Hr & H1 & H2 & H3).
  exists r. split; [exact Hr|]. split; [done|].
  split; [intros i Hi; specialize (H2 i Hi)|intros Hi; specialize (H3 Hi)]; by rewrite xorb_false_r in *.
Qed.
Lemma find_next_zero_bit_spec l n start : bitmap l n -> 0 <= start ->
  exists r, find_next_zero_bit l n start = Ok r /\ first_in (fun i => negb (tb l i)) (Z.min start n) n r.
Proof.
  intros Hb Hs. destruct (_find_next_bit_spec l n start true Hb Hs) as (r & Hr & H1 & H2 & H3).
  exists r. split; [exact Hr|]. split; [done|].
  split; [intros i Hi; specialize (H2 i Hi)|intros Hi; specialize (H3 Hi)]; by rewrite xorb_true_r in *.
Qed.

(** A word without the wanted bits, and the first wanted bit of a word. *)
Lemma first_in_skip P k n r :
  (forall i, 32 * k <= i < 32 * (k + 1) -> P i = false) -> 32 * k < n ->
  first_in P (Z.min (32 * (k + 1)) n) n r -> first_in P (32 * k) n r.
Proof.
  intros Hw Hk (H1 & H2 & H3). split; [lia|]. split; [|done]. intros i Hi.
  destruct (decide (i < 32 * (k + 1))); [apply Hw; lia|apply H2; lia].
Qed.
Lemma first_in_word P k j n :
  0 <= k -> 0 <= j < 32 -> P (32 * k + j) = true -> (forall i, 0 <= i < j -> P (32 * k + i) = false) -> 32 * k < n ->
  first_in P (32 * k) n (Z.min (32 * k + j) n).
Proof.
  intros Hk Hj Hp Hl Hn. split; [lia|]. split.
  - intros i Hi. replace i with (32 * k + (i - 32 * k)) by lia. apply Hl. lia.
  - intros Hlt. replace (Z.min (32 * k + j) n) with (32 * k + j) by lia. done.
Qed.

Lemma find_first_loop_spec fuel l n k :
  bitmap l n -> 0 <= k -> (Z.to_nat ((n + 31) / 32 - k) < fuel)%nat -> k <= (n + 31) / 32 ->
  exists r, find_first_loop fuel l n k = Ok r /\ first_in (tb l) (Z.min (32 * k) n) n r.
Proof.
  revert k. induction fuel as [|fuel IH]; intros k Hb Hk Hf Hkn; [lia|].
  pose proof Hb as (_ & Hn & Hbig). cbn [find_first_loop]. unfold BITS_PER_LONG.
  assert (32 * ((n + 31) / 32) <= n + 31) by (apply Z.mul_div_le; lia).
  rewrite (u32_small (k * 32)) by lia. destruct (Z.ltb_spec (k * 32) n).
  2: { exists n. split; [done|]. split; [lia|]. split; [intros; lia|lia]. }
  destruct (bitmap_read l n k Hb) as (w & -> & Hw & Hwr); [done|lia|]. cbn [mbind res_bind].
  replace (Z.min (32 * k) n) with (32 * k) by lia.
  destruct (Z.eqb_spec w 0) as [Hz|Hz]; cbn [negb].
  - rewrite u32_small by lia.
    assert (k + 1 <= (n + 31) / 32) by (apply Z.div_le_lower_bound; lia).
    destruct (IH (k + 1)) as (r & -> & Hr); [done|lia|lia|lia|]. exists r. split; [done|].
    apply first_in_skip; [|lia|done]. intros i Hi. replace i with (32 * k + (i - 32 * k)) by lia.
    by rewrite tb_word, Hw, Hz, Z.testbit_0_l by lia.
  - destruct (__ffs_spec w Hwr Hz) as (Hr & Hset & Hlow). rewrite u32_small by lia.
    eexists. split; [done|]. rewrite (Z.mul_comm k). apply first_in_word; try done; try lia.
    + by rewrite tb_word, Hw by lia.
    + intros i Hi. rewrite tb_word, Hw by lia. by apply Hlow.
Qed.

Lemma find_first_zero_loop_spec fuel l n k :
  bitmap l n -> 0 <= k -> (Z.to_nat ((n + 31) / 32 - k) < fuel)%nat -> k <= (n + 31) / 32 ->
  exists r, find_first_zero_loop fuel l n k = Ok r /\ first_in (fun i => negb (tb l i)) (Z.min (32 * k) n) n r.
Proof.
  revert k. induction fuel as [|fuel IH]; intros k Hb Hk Hf Hkn; [lia|].
  pose proof Hb as (_ & Hn & Hbig). cbn [find_first_zero_loop]. unfold BITS_PER_LONG.
  assert (32 * ((n + 31) / 32) <= n + 31) by (apply Z.mul_div_le; lia).
  rewrite (u32_small (k * 32)) by lia. destruct (Z.ltb_spec (k * 32) n).
  2: { exists n. split; [done|]. split; [lia|]. split; [intros; lia|lia]. }
  destruct (bitmap_read l n k Hb) as (w & -> & Hw & Hwr); [done|lia|]. cbn [mbind res_bind].
  replace (Z.min (32 * k) n) with (32 * k) by lia.
  destruct (Z.eqb_spec w ULONG_MAX) as [Hz|Hz]; cbn [negb].
  - rewrite u32_small by lia.
    assert (k + 1 <= (n + 31) / 32) by (apply Z.div_le_lower_bound; lia).
    destruct (IH (k + 1)) as (r & -> & Hr); [done|lia|lia|lia|]. exists r. split; [done|].
    apply first_in_skip; [|lia|done]. intros i Hi. replace i with (32 * k + (i - 32 * k)) by lia.
    rewrite tb_word, Hw, Hz by lia. change ULONG_MAX with (Z.ones 32). by rewrite Z.ones_spec_low by lia.
  - destruct (ffz_spec w Hwr Hz) as (Hr & Hset & Hlow). rewrite u32_small by lia.
    eexists. split; [done|]. rewrite (Z.mul_comm k). apply first_in_word; try done; try lia.
    + by rewrite tb_word, Hw, Hset by lia.
    + intros i Hi. by rewrite tb_word, Hw, Hlow by lia.
Qed.

Lemma find_fuel l n : bitmap l n -> (Z.to_nat ((n + 31) / 32 - 0) < S (length l))%nat /\ 0 <= (n + 31) / 32.
Proof.
  intros (_ & Hn & _). assert ((n + 31) / 32 < Z.of_nat (length l) + 1) by (apply Z.div_lt_upper_bound; lia).
  assert (0 <= (n + 31) / 32) by (apply Z.div_pos; lia). lia.
Qed.

Lemma find_first_bit_spec l n : bitmap l n -> exists r, find_first_bit l n = Ok r /\ first_in (tb l) 0 n r.
Proof.
  intros Hb. destruct (find_fuel l n Hb). pose proof Hb as (_ & Hn & _).
  destruct (find_first_loop_spec (S (length l)) l n 0 Hb) as (r & Hr & Hf); [lia..|].
  exists r. replace (Z.min (32 * 0) n) with 0 in Hf by lia. done.
Qed.
Lemma find_first_zero_bit_spec l n : bitmap l n ->
  exists r, find_first_zero_bit l n = Ok r /\ first_in (fun i => negb (tb l i)) 0 n r.
Proof.
  intros Hb. destruct (find_fuel l n Hb). pose proof Hb as (_ & Hn & _).
  destruct (find_first_zero_loop_spec (S (length l)) l n 0 Hb) as (r & Hr & Hf); [lia..|].
  exists r. replace (Z.min (32 * 0) n) with 0 in Hf by lia. done.
Qed.

(** The last set bit below [hi], if there is one, or [n]. *)
Definition last_in (P : Z -> bool) (hi n r : Z) : Prop :=
  (r = n /\ forall i, 0 <= i < hi -> P i = false) \/
  (0 <= r < hi /\ P r = true /\ forall i, r < i < hi -> P i = false).

Lemma find_last_loop_spec l n k val : let hi := Z.min (32 * (Z.of_nat k + 1)) n in
  bitmap l n -> 32 * Z.of_nat k < n -> is_u 32 val ->
  (forall j, 0 <= j < 32 -> Z.testbit val j = bool_decide (32 * Z.of_nat k + j < n)) ->
  exists r, find_last_loop l n k val = Ok r /\ last_in (tb l) hi n r.
Proof.
  cbv zeta. revert val. induction k as [|k IH]; intros val Hb Hk Hv Hbits; cbn [find_last_loop];
    destruct (bitmap_read l n _ Hb (Nat2Z.is_nonneg _) Hk) as (w & -> & Hw & Hwr); cbn [mbind res_bind].
  all: assert (is_u 32 (Z.land val w)) as Hr by (apply is_u_land_l; [lia|done|unfold is_u in Hwr; lia]).
  all: match goal with |- context [Z.of_nat ?m * _] => set (kk := m) in * end.
  all: assert (forall i, 32 * Z.of_nat kk <= i < n -> i < 32 * (Z.of_nat kk + 1) ->
         tb l i = Z.testbit (Z.land val w) (i - 32 * Z.of_nat kk)) as Hin by
       (intros i Hi Hi2; replace i with (32 * Z.of_nat kk + (i - 32 * Z.of_nat kk)) at 1 by lia;
        rewrite tb_word, Hw, Z.land_spec, Hbits by lia; by rewrite bool_decide_eq_true_2 by lia).
  all: destruct (Z.eqb_spec (Z.land val w) 0) as [Hz|Hz]; cbn [negb].
  2, 4: destruct (__fls_spec _ Hr Hz) as [-> Hl]; unfold BITS_PER_LONG; pose proof Hb as (_ & Hn & Hbig);
    pose proof (Z.bit_log2 (Z.land val w) ltac:(unfold is_u in Hr; lia)) as Hbit;
    pose proof Hbit as Hbit'; rewrite Z.land_spec, Hbits in Hbit' by lia;
    apply andb_true_iff in Hbit' as [Hlt%bool_decide_eq_true_1 _];
    rewrite u32_small by lia; eexists; split; [done|]; right; split; [lia|];
    split; [rewrite Hin by lia; by replace (Z.of_nat kk * 32 + _ - 32 * Z.of_nat kk) with (Z.log2 (Z.land val w)) by lia|];
    intros i Hi; rewrite Hin by lia; apply Z.bits_above_log2; [unfold is_u in Hr; lia|lia].
  - exists n. split; [done|]. left. split; [done|]. intros i Hi. by rewrite Hin, Hz, Z.testbit_0_l by lia.
  - destruct (IH ULONG_MAX) as (r & -> & Hlast); [done|lia|done| |].
    { intros j Hj. change ULONG_MAX with (Z.ones 32). rewrite Z.ones_spec_low by lia.
      by rewrite bool_decide_eq_true_2 by lia. }
    exists r. split; [done|]. subst kk.
    assert (forall i, Z.min (32 * (Z.of_nat k + 1)) n <= i < Z.min (32 * (Z.of_nat (S k) + 1)) n -> tb l i = false) as Hgap.
    { intros i Hi. by rewrite Hin, Hz, Z.testbit_0_l by lia. }
    destruct Hlast as [[-> Hno]|(Hrr & Hp & Hno)]; [left|right].
    + split; [done|]. intros i Hi. destruct (decide (i < Z.min (32 * (Z.of_nat k + 1)) n)); [apply Hno|apply Hgap]; lia.
    + split; [lia|]. split; [done|]. intros i Hi.
      destruct (decide (i < Z.min (32 * (Z.of_nat k + 1)) n)); [apply Hno|apply Hgap]; lia.
Qed.

Lemma find_last_bit_spec l n : bitmap l n -> exists r, find_last_bit l n = Ok r /\ last_in (tb l) n n r.
Proof.
  intros Hb. pose proof Hb as (_ & Hn & _). unfold find_last_bit.
  destruct (Z.eqb_spec n 0) as [->|Hz]; cbn [negb]; [exists 0; split; [done|]; left; split; [done|lia]|].
  unfold BITS_PER_LONG. set (k := (n - 1) / 32).
  assert (0 <= k) by (apply Z.div_pos; lia).
  assert (n - 1 = 32 * k + (n - 1) mod 32) by (apply Z.div_mod; lia).
  pose proof (Z.mod_pos_bound (n - 1) 32 ltac:(lia)).
  destruct (find_last_loop_spec l n (Z.to_nat k) (BITMAP_LAST_WORD_MASK n) Hb) as (r & Hr & Hl).
  - lia.
  - apply last_mask_range.
  - intros j Hj. rewrite last_mask_testbit by lia. apply bool_decide_ext. rewrite Z2Nat.id by lia.
    assert (n mod 32 = ((n - 1) mod 32 + 1) mod 32) as ->.
    { rewrite Z.add_mod_idemp_l by lia. f_equal. lia. }
    destruct (decide ((n - 1) mod 32 = 31)) as [E|]; [rewrite E; change ((31 + 1) mod 32) with 0; lia|].
    rewrite (Z.mod_small ((n - 1) mod 32 + 1)) by lia. lia.
  - exists r. split; [done|]. rewrite Z2Nat.id in Hl by lia.
    by replace (Z.min (32 * (k + 1)) n) with n in Hl by lia.
Qed.

(** ** Single bits of an array *)

Lemma bitmap_insert l n k v : bitmap l n -> is_u 32 v -> bitmap (<[Z.to_nat k := v]> l) n.
Proof.
  intros (Hf & Hn) Hv. split; [by apply Forall_insert|]. by rewrite length_insert.
Qed.

Lemma tb_insert l k v j : 0 <= k -> 0 <= j < 32 * Z.of_nat (length l) ->
  tb (<[Z.to_nat k := v]> l) j = if decide (j / 32 = k) then Z.testbit v (j mod 32) else tb l j.
Proof.
  intros Hk Hj. assert (0 <= j / 32 < Z.of_nat (length l)) by (split; [apply Z.div_pos|apply Z.div_lt_upper_bound]; lia).
  unfold tb. case_decide as E.
  - subst k. by rewrite list_lookup_total_insert_eq by lia.
  - by rewrite list_lookup_total_insert_ne by lia.
Qed.

Lemma test_bit_spec l n i : bitmap l n -> 0 <= i < n -> test_bit i l = Ok (if tb l i then 1 else 0).
Proof.
  intros Hb Hi. destruct (word_split i) as [Ei Hm]. assert (0 <= i / 32) by (apply Z.div_pos; lia).
  unfold test_bit, BITS_PER_LONG. rewrite quot_div by lia.
  destruct (bitmap_read l n (i / 32) Hb) as (w & -> & Hw & _); [done|lia|]. cbn [mbind res_bind].
  change (32 - 1) with 31. rewrite land31, Z.land_comm. change 1 with (Z.ones 1) at 1.
  rewrite Z.land_ones by lia. change (2 ^ 1) with 2. rewrite <- Z.bit0_mod, Z.shiftr_spec by lia.
  unfold tb. rewrite Hw, Z.add_0_l. by destruct (Z.testbit w (i mod 32)).
Qed.

(** The word and the mask of a bit. *)
Lemma bit_place i : 0 <= i < 2 ^ 32 ->
  Z.shiftr (u32 i) 5 = i / 32 /\ u32 (Z.shiftl 1 (Z.land (u32 i) 31)) = 2 ^ (i mod 32).
Proof.
  intros Hi. rewrite u32_small by lia. rewrite Z.shiftr_div_pow2, land31, Z.shiftl_1_l by lia. split; [done|].
  pose proof (Z.mod_pos_bound i 32 ltac:(lia)). apply wrapu_small.
  split; [apply Z.pow_nonneg; lia|apply Z.pow_lt_mono_r; lia].
Qed.

Lemma pow2_word j : 0 <= j < 32 -> is_u 32 (2 ^ j).
Proof. intros Hj. split; [apply Z.pow_nonneg; lia|apply Z.pow_lt_mono_r; lia]. Qed.

Lemma same_bit i j : 0 <= i -> 0 <= j -> j / 32 = i / 32 -> bool_decide (i mod 32 = j mod 32) = (j =? i).
Proof.
  intros Hi Hj E. destruct (word_split i), (word_split j).
  case_bool_decide; symmetry; [apply Z.eqb_eq|apply Z.eqb_neq]; lia.
Qed.

Lemma set_bit_spec l n i : bitmap l n -> 0 <= i < n ->
  exists l', set_bit i l = Ok l' /\ bitmap l' n /\ length l' = length l /\
    forall j, 0 <= j < 32 * Z.of_nat (length l) -> tb l' j = tb l j || (j =? i).
Proof.
  intros Hb Hi. pose proof Hb as (_ & Hn & Hbig). destruct (word_split i) as [Ei Hm].
  assert (0 <= i / 32) by (apply Z.div_pos; lia). unfold set_bit. destruct (bit_place i) as [-> ->]; [lia|].
  destruct (bitmap_read l n (i / 32) Hb) as (w & -> & Hw & Hwr); [done|lia|]. cbn [mbind res_bind].
  rewrite awrite_in by lia. eexists. split; [done|].
  split; [apply bitmap_insert; [done|]; apply is_u_lor; [lia|done|by apply pow2_word]|].
  split; [apply length_insert|]. intros j Hj. rewrite tb_insert by lia. case_decide as E.
  - rewrite Z.lor_spec, testbit_pow2, same_bit by lia. unfold tb. by rewrite E, Hw.
  - rewrite (proj2 (Z.eqb_neq j i)), orb_false_r; [done|]. by intros ->.
Qed.

Lemma clear_bit_spec l n i : bitmap l n -> 0 <= i < n ->
  exists l', clear_bit i l = Ok l' /\ bitmap l' n /\ length l' = length l /\
    forall j, 0 <= j < 32 * Z.of_nat (length l) -> tb l' j = tb l j && negb (j =? i).
Proof.
  intros Hb Hi. pose proof Hb as (_ & Hn & Hbig). destruct (word_split i) as [Ei Hm].
  assert (0 <= i / 32) by (apply Z.div_pos; lia). unfold clear_bit. destruct (bit_place i) as [-> ->]; [lia|].
  destruct (bitmap_read l n (i / 32) Hb) as (w & -> & Hw & Hwr); [done|lia|]. cbn [mbind res_bind].
  rewrite awrite_in by lia. eexists. split; [done|].
  split; [apply bitmap_insert; [done|]; apply is_u_land_l; [lia|done|apply (wrapu_range 32); lia]|].
  split; [apply length_insert|]. intros j Hj. rewrite tb_insert by lia. destruct (word_split j). case_decide as E.
  - unfold not32. rewrite Z.land_spec, u32_testbit, Z.lnot_spec, testbit_pow2, same_bit by lia. unfold tb. by rewrite E, Hw.
  - rewrite (proj2 (Z.eqb_neq j i)), andb_true_r; [done|]. by intros ->.
Qed.

(** * Properties *)

(** Counting ones.  The four software routines, which add up neighbouring
    fields of a word in parallel, return the number of ones of every word of
    their width; no intermediate sum overflows a field. *)
Theorem hweight_exact w :
  (is_u 32 w -> __sw_hweight32 w = popcount 32 w) /\ (is_u 16 w -> __sw_hweight16 w = popcount 16 w) /\
  (is_u 8 w -> __sw_hweight8 w = popcount 8 w) /\ (is_u 64 w -> __sw_hweight64 w = popcount 64 w).
Proof.
  split_and!; [apply hweight32_popcount | apply hweight16_popcount | apply hweight8_popcount
              | apply hweight64_popcount].
Qed.

(** C33: Searching a bitmap.  On an array of at least [n] bits the searches return:
    [find_next_bit] and [find_next_zero_bit] the first set or clear bit from
    [start] on, [find_first_bit] and [find_first_zero_bit] the first of all,
    [find_last_bit] the last set one; each [n] when there is none, and none reads
    outside the array, whatever the bits after the [n]-th. *)
Theorem find_bits_exact l n start :
  bitmap l n -> 0 <= start ->
  (exists r, find_next_bit l n start = Ok r /\ first_in (tb l) (Z.min start n) n r) /\
  (exists r, find_next_zero_bit l n start = Ok r /\
     first_in (fun i => negb (tb l i)) (Z.min start n) n r) /\
  (exists r, find_first_bit l n = Ok r /\ first_in (tb l) 0 n r) /\
  (exists r, find_first_zero_bit l n = Ok r /\ first_in (fun i => negb (tb l i)) 0 n r) /\
  (exists r, find_last_bit l n = Ok r /\ last_in (tb l) n n r).
Proof.
  intros Hb Hs. split_and!; [by apply find_next_bit_spec | by apply find_next_zero_bit_spec
    | by apply find_first_bit_spec | by apply find_first_zero_bit_spec | by apply find_last_bit_spec].
Qed.

(** * Concrete runs *)

Definition ex_bits : list Z := [0; 0x80000000; 0x00000005; 0].

Lemma find_bits_exact_witness :
  (exists r, find_next_bit ex_bits 100 64 = Ok r /\ first_in (tb ex_bits) (Z.min 64 100) 100 r) /\
  (exists r, find_next_zero_bit ex_bits 100 64 = Ok r /\
     first_in (fun i => negb (tb ex_bits i)) (Z.min 64 100) 100 r) /\
  (exists r, find_first_bit ex_bits 100 = Ok r /\ first_in (tb ex_bits) 0 100 r) /\
  (exists r, find_first_zero_bit ex_bits 100 = Ok r /\ first_in (fun i => negb (tb ex_bits i)) 0 100 r) /\
  (exists r, find_last_bit ex_bits 100 = Ok r /\ last_in (tb ex_bits) 100 100 r).
Proof.
  apply find_bits_exact; [|lia]. unfold ex_bits. split; [|cbn; lia].
  repeat constructor; unfold is_u; lia.
Defined.

Lemma hweight_exact_witness :
  (is_u 32 0x80000005 -> __sw_hweight32 0x80000005 = popcount 32 0x80000005) /\
  (is_u 16 0x80000005 -> __sw_hweight16 0x80000005 = popcount 16 0x80000005) /\
  (is_u 8 0x80000005 -> __sw_hweight8 0x80000005 = popcount 8 0x80000005) /\
  (is_u 64 0x80000005 -> __sw_hweight64 0x80000005 = popcount 64 0x80000005).
Proof. apply (hweight_exact 0x80000005). Defined.

Example find_next_64 : find_next_bit ex_bits 100 64 = Ok 64 /\ find_last_bit ex_bits 100 = Ok 66.
Proof. split; reflexivity. Qed.
