(* ===== verification/KBitOps.v ===== *)
(** * Bit operations on words in memory, and rotations

    The read-modify-write operations on one bit of an array, in the versions that
    run with the interrupts off (arch/arm/include/asm/bitops.h) and the plain ones
    (include/asm-generic/bitops/non-atomic.h), and the rotations, the sign
    extension and the 64-bit searches of include/linux/bitops.h and
    asm-generic/bitops/fls64.h. *)

From S2P Require Import Prelude KMath KBits.
Open Scope Z_scope.

(** ** One bit of an array *)

(** With the interrupts off: [bit] is [unsigned].  [KBits] has [set_bit] and
    [clear_bit]. *)
Definition atomic_rmw (f : Z -> Z -> Z) (bit : Z) (p : list Z) : res (Z * list Z) :=
  let bit := u32 bit in
  let mask := u32 (Z.shiftl 1 (Z.land bit 31)) in
  w ← aread p (Z.shiftr bit 5);
  p' ← awrite p (Z.shiftr bit 5) (f w mask);
  Ok ((if Z.land w mask =? 0 then 0 else 1), p').
Definition ____atomic_change_bit (bit : Z) (p : list Z) : res (list Z) :=
  r ← atomic_rmw (fun w m => Z.lxor w m) bit p; Ok (snd r).
Definition ____atomic_test_and_set_bit (bit : Z) (p : list Z) : res (Z * list Z) :=
  atomic_rmw (fun w m => Z.lor w m) bit p.
Definition ____atomic_test_and_clear_bit (bit : Z) (p : list Z) : res (Z * list Z) :=
  atomic_rmw (fun w m => Z.land w (not32 m)) bit p.
Definition ____atomic_test_and_change_bit (bit : Z) (p : list Z) : res (Z * list Z) :=
  atomic_rmw (fun w m => Z.lxor w m) bit p.

(** Without: [nr] is an [int], so [BIT_WORD] divides and [BIT_MASK] takes the
    remainder with the sign of [nr]. *)
Definition BIT_MASK (nr : Z) : res Z := shlu 32 1 (Z.rem nr BITS_PER_LONG).
Definition plain_rmw (f : Z -> Z -> Z) (nr : Z) (addr : list Z) : res (Z * list Z) :=
  mask ← BIT_MASK nr;
  old ← aread addr (Z.quot nr BITS_PER_LONG);
  addr' ← awrite addr (Z.quot nr BITS_PER_LONG) (f old mask);
  Ok ((if Z.land old mask =? 0 then 0 else 1), addr').
Definition __set_bit (nr : Z) (addr : list Z) : res (list Z) :=
  r ← plain_rmw (fun w m => Z.lor w m) nr addr; Ok (snd r).
Definition __clear_bit (nr : Z) (addr : list Z) : res (list Z) :=
  r ← plain_rmw (fun w m => Z.land w (not32 m)) nr addr; Ok (snd r).
Definition __change_bit (nr : Z) (addr : list Z) : res (list Z) :=
  r ← plain_rmw (fun w m => Z.lxor w m) nr addr; Ok (snd r).
Definition __test_and_set_bit (nr : Z) (addr : list Z) : res (Z * list Z) :=
  plain_rmw (fun w m => Z.lor w m) nr addr.
Definition __test_and_clear_bit (nr : Z) (addr : list Z) : res (Z * list Z) :=
  plain_rmw (fun w m => Z.land w (not32 m)) nr addr.
Definition __test_and_change_bit (nr : Z) (addr : list Z) : res (Z * list Z) :=
  plain_rmw (fun w m => Z.lxor w m) nr addr.

(** ** Words *)

(** [word >> n] on a [w]-bit unsigned operand. *)
Definition shru (w a n : Z) : res Z := if (0 <=? n) && (n <? w) then Ok (Z.shiftr a n) else Fault ShiftRange.

(** The operands of the 16- and 8-bit versions are promoted to [int], where the
    shift to the left keeps the bits above the word until the result is
    converted. *)
Definition rol64 (word shift : Z) : res Z :=
  a ← shlu 64 word shift; b ← shru 64 word (64 -u shift)%cint; Ok (Z.lor a b).
Definition ror64 (word shift : Z) : res Z :=
  a ← shru 64 word shift; b ← shlu 64 word (64 -u shift)%cint; Ok (Z.lor a b).
Definition rol32 (word shift : Z) : res Z :=
  a ← shlu 32 word shift; b ← shru 32 word (32 -u shift)%cint; Ok (Z.lor a b).
Definition ror32 (word shift : Z) : res Z :=
  a ← shru 32 word shift; b ← shlu 32 word (32 -u shift)%cint; Ok (Z.lor a b).
Definition rol16 (word shift : Z) : res Z :=
  a ← shl32 word shift; b ← shru 32 word (16 -u shift)%cint; Ok (wrapu 16 (Z.lor a b)).
Definition ror16 (word shift : Z) : res Z :=
  a ← shru 32 word shift; b ← shl32 word (16 -u shift)%cint; Ok (wrapu 16 (Z.lor a b)).
Definition rol8 (word shift : Z) : res Z :=
  a ← shl32 word shift; b ← shru 32 word (8 -u shift)%cint; Ok (u8 (Z.lor a b)).
Definition ror8 (word shift : Z) : res Z :=
  a ← shru 32 word shift; b ← shl32 word (8 -u shift)%cint; Ok (u8 (Z.lor a b)).

(** [shift] is a [u8]; the shift to the right is arithmetic. *)
Definition sign_extend32 (value index : Z) : res Z :=
  let shift := u8 (31 - index) in
  a ← shlu 32 value shift; shru 32 (i32 a) shift.

Definition fls64 (x : Z) : Z :=
  let h := u32 (Z.shiftr x 32) in if negb (h =? 0) then fls h + 32 else fls (i32 x).
Definition fls_long (l : Z) : Z := u32 (fls l).
Definition __ffs64 (word : Z) : Z :=
  if u32 word =? 0 then (__ffs (u32 (Z.shiftr word 32)) +u 32)%cint else __ffs (u32 word).
Definition get_bitmask_order (count : Z) : Z := fls count.
Definition get_count_order (count : Z) : Z :=
  let order := (fls count -i 1)%cint in
  if negb (Z.land count (u32 (count - 1)) =? 0) then (order +i 1)%cint else order.

(** ** One bit changes *)

(** [l'] is [l] with bit [i] replaced by [g] of it. *)
Definition rewritten (l : list Z) (n i : Z) (g : bool -> bool) (l' : list Z) : Prop :=
  bitmap l' n /\ length l' = length l /\
  forall j, 0 <= j < 32 * Z.of_nat (length l) -> tb l' j = if j =? i then g (tb l i) else tb l j.

Section rmw.
Variables (f : Z -> Z -> Z) (g : bool -> bool).
Hypothesis f_bits : forall w k j, 0 <= k < 32 -> 0 <= j < 32 ->
  Z.testbit (f w (2 ^ k)) j = if k =? j then g (Z.testbit w j) else Z.testbit w j.
Hypothesis f_range : forall w k, is_u 32 w -> is_u 32 k -> is_u 32 (f w k).

Lemma rmw_spec l n i : bitmap l n -> 0 <= i < n -> n <= 2 ^ 31 ->
  exists l', atomic_rmw f i l = Ok (Z.b2z (tb l i), l') /\ plain_rmw f i l = Ok (Z.b2z (tb l i), l') /\
    rewritten l n i g l'.
Proof.
  intros Hb Hi H31. pose proof Hb as (_ & Hn & Hbig). destruct (word_split i) as [Ei Hm].
  assert (0 <= i / 32) by (apply Z.div_pos; lia). unfold atomic_rmw, plain_rmw, BIT_MASK, BITS_PER_LONG.
  destruct (bit_place i) as [-> ->]; [lia|]. rewrite quot_div, Z.rem_mod_nonneg by lia.
  unfold shlu. rewrite (proj2 (Z.leb_le 0 _)), (proj2 (Z.ltb_lt _ 32)) by lia. cbn [andb].
  rewrite Z.shiftl_1_l, (wrapu_small 32 (2 ^ _)) by (by apply pow2_word). cbn [mbind res_bind].
  destruct (bitmap_read l n (i / 32) Hb) as (w & -> & Hw & Hwr); [done|lia|]. cbn [mbind res_bind].
  rewrite awrite_in by lia. cbn [mbind res_bind]. exists (<[Z.to_nat (i / 32) := f w (2 ^ (i mod 32))]> l).
  assert ((if Z.land w (2 ^ (i mod 32)) =? 0 then 0 else 1) = Z.b2z (tb l i)) as ->.
  { unfold tb. rewrite Hw, land_pow2 by lia. pose proof (pow2_pos (i mod 32) ltac:(lia)).
    destruct (Z.testbit w (i mod 32)); [by rewrite (proj2 (Z.eqb_neq _ 0)) by lia|done]. }
  unfold rewritten. split_and!; [done|done|apply bitmap_insert; [done|]; apply f_range; [done|by apply pow2_word]|apply length_insert|].
  intros j Hj. rewrite tb_insert by lia. destruct (word_split j). case_decide as E.
  - rewrite f_bits by lia. unfold tb. rewrite E, Hw.
    destruct (Z.eqb_spec (i mod 32) (j mod 32)) as [E'|E'], (Z.eqb_spec j i); try lia; [by rewrite E'|done].
  - destruct (Z.eqb_spec j i) as [->|]; done.
Qed.
End rmw.

Lemma set_bits k w j : 0 <= k < 32 -> 0 <= j < 32 ->
  Z.testbit (Z.lor w (2 ^ k)) j = if k =? j then true else Z.testbit w j.
Proof.
  intros Hk Hj. rewrite Z.lor_spec, testbit_pow2 by lia.
  destruct (Z.eqb_spec k j); [by rewrite bool_decide_eq_true_2, orb_true_r|by rewrite bool_decide_eq_false_2, orb_false_r].
Qed.
Lemma clear_bits k w j : 0 <= k < 32 -> 0 <= j < 32 ->
  Z.testbit (Z.land w (not32 (2 ^ k))) j = if k =? j then false else Z.testbit w j.
Proof.
  intros Hk Hj. unfold not32. rewrite Z.land_spec, u32_testbit, Z.lnot_spec, testbit_pow2 by lia.
  destruct (Z.eqb_spec k j); [by rewrite bool_decide_eq_true_2, andb_false_r|by rewrite bool_decide_eq_false_2, andb_true_r].
Qed.
Lemma change_bits k w j : 0 <= k < 32 -> 0 <= j < 32 ->
  Z.testbit (Z.lxor w (2 ^ k)) j = if k =? j then negb (Z.testbit w j) else Z.testbit w j.
Proof.
  intros Hk Hj. rewrite Z.lxor_spec, testbit_pow2 by lia.
  destruct (Z.eqb_spec k j); [by rewrite bool_decide_eq_true_2, xorb_true_r|by rewrite bool_decide_eq_false_2, xorb_false_r].
Qed.

(** ** Rotations *)

Section rotate.
Variable w : Z.
Hypothesis Hw : 0 < w.

Lemma rol_bits x s j : is_u w x -> 0 <= s <= w -> 0 <= j < w ->
  Z.testbit (Z.lor (Z.shiftl x s) (Z.shiftr x (w - s))) j = Z.testbit x ((j - s) mod w).
Proof.
  intros Hx Hs Hj. rewrite Z.lor_spec, Z.shiftl_spec, Z.shiftr_spec by lia. destruct (decide (s <= j)).
  - rewrite (testbit_high w x (j + (w - s))), orb_false_r by (done || lia). by rewrite Z.mod_small by lia.
  - rewrite Z.testbit_neg_r by lia. cbn. f_equal. apply (Z.mod_unique_pos _ _ (-1)); lia.
Qed.
Lemma ror_bits x s j : is_u w x -> 0 <= s <= w -> 0 <= j < w ->
  Z.testbit (Z.lor (Z.shiftr x s) (Z.shiftl x (w - s))) j = Z.testbit x ((j + s) mod w).
Proof.
  intros Hx Hs Hj. rewrite Z.lor_spec, Z.shiftl_spec, Z.shiftr_spec by lia. destruct (decide (j + s < w)).
  - rewrite (Z.testbit_neg_r x (j - (w - s))), orb_false_r by lia. by rewrite Z.mod_small by lia.
  - rewrite (testbit_high w x (j + s)) by (done || lia). cbn. f_equal. apply (Z.mod_unique_pos _ _ 1); lia.
Qed.

(** What each pair of rotations returns. *)
Definition rotated_left (x s : Z) : Z := wrapu w (Z.lor (Z.shiftl x s) (Z.shiftr x (w - s))).
Definition rotated_right (x s : Z) : Z := wrapu w (Z.lor (Z.shiftr x s) (Z.shiftl x (w - s))).

Lemma rotate_back x s : is_u w x -> 0 <= s <= w ->
  is_u w (rotated_left x s) /\ rotated_right (rotated_left x s) s = x /\
  forall i, 0 <= i < w -> Z.testbit (rotated_left x s) ((i + s) mod w) = Z.testbit x i.
Proof.
  intros Hx Hs. assert (is_u w (rotated_left x s)) as Hy by (apply wrapu_range; lia).
  assert (forall i, 0 <= i < w -> Z.testbit (rotated_left x s) ((i + s) mod w) = Z.testbit x i) as Hbits.
  { intros i Hi. pose proof (Z.mod_pos_bound (i + s) w Hw). unfold rotated_left at 1.
    rewrite wrapu_testbit, bool_decide_eq_true_2 by lia. cbn [andb]. rewrite rol_bits by done. f_equal.
    rewrite Zminus_mod_idemp_l. replace (i + s - s) with i by lia. by apply Z.mod_small. }
  split; [done|]. split; [|done]. apply Z.bits_inj'. intros i Hi. unfold rotated_right.
  rewrite wrapu_testbit by lia. case_bool_decide; cbn [andb].
  - rewrite ror_bits by (done || lia). apply Hbits. lia.
  - symmetry. apply (testbit_high w); [lia|done|lia].
Qed.
End rotate.

Lemma shlu_ok w x s : 0 <= s < w -> shlu w x s = Ok (wrapu w (Z.shiftl x s)).
Proof. intros Hs. unfold shlu. by rewrite (proj2 (Z.leb_le 0 _)), (proj2 (Z.ltb_lt _ w)) by lia. Qed.
Lemma shru_ok w x s : 0 <= s < w -> shru w x s = Ok (Z.shiftr x s).
Proof. intros Hs. unfold shru. by rewrite (proj2 (Z.leb_le 0 _)), (proj2 (Z.ltb_lt _ w)) by lia. Qed.

(** Converting the operands first changes nothing in the low bits. *)
Lemma wrapu_lor_l w v a b : 0 <= w <= v -> wrapu w (Z.lor (wrapu v a) b) = wrapu w (Z.lor a b).
Proof.
  intros Hw. apply Z.bits_inj'. intros i Hi. rewrite !wrapu_testbit by lia. case_bool_decide; [|done]. cbn.
  rewrite !Z.lor_spec, wrapu_testbit by lia. by rewrite bool_decide_eq_true_2 by lia.
Qed.
Lemma wrapu_lor_s w a b : 0 <= w <= 32 -> wrapu w (Z.lor (i32 a) b) = wrapu w (Z.lor a b).
Proof.
  intros Hw. rewrite <- (wrapu_lor_l w 32 (i32 a)), <- (wrapu_lor_l w 32 a) by lia. f_equal. f_equal.
  by apply wrapu_wraps.
Qed.
Lemma shiftr_is_u w x s : 0 <= s -> is_u w x -> is_u w (Z.shiftr x s).
Proof.
  intros Hs Hx. unfold is_u in *. rewrite Z.shiftr_div_pow2 by done. pose proof (pow2_pos s Hs).
  split; [apply Z.div_pos; lia|]. apply Z.div_lt_upper_bound; nia.
Qed.

Lemma rol_wide w x s : 0 < w -> 0 < s < w -> is_u w x ->
  Z.lor (wrapu w (Z.shiftl x s)) (Z.shiftr x (w - s)) = rotated_left w x s.
Proof.
  intros Hw Hs Hx. unfold rotated_left. rewrite <- (wrapu_lor_l w w) by lia. symmetry. apply wrapu_small.
  apply is_u_lor; [lia|apply wrapu_range; lia|apply shiftr_is_u; [lia|done]].
Qed.
Lemma ror_wide w x s : 0 < w -> 0 < s < w -> is_u w x ->
  Z.lor (Z.shiftr x s) (wrapu w (Z.shiftl x (w - s))) = rotated_right w x s.
Proof.
  intros Hw Hs Hx. unfold rotated_right. rewrite Z.lor_comm, (Z.lor_comm (Z.shiftr x s)).
  rewrite <- (wrapu_lor_l w w) by lia. symmetry. apply wrapu_small.
  apply is_u_lor; [lia|apply wrapu_range; lia|apply shiftr_is_u; [lia|done]].
Qed.

Lemma rotations_wide w x s : 0 < w < 2 ^ 32 -> 0 < s < w -> is_u w x ->
  (a ← shlu w x s; b ← shru w x (w -u s)%cint; Ok (Z.lor a b)) = Ok (rotated_left w x s) /\
  (a ← shru w x s; b ← shlu w x (w -u s)%cint; Ok (Z.lor a b)) = Ok (rotated_right w x s).
Proof.
  intros Hw Hs Hx. rewrite u32_small, !shlu_ok, !shru_ok by lia. cbn [mbind res_bind].
  by rewrite rol_wide, ror_wide by (done || lia).
Qed.
Lemma rotations_narrow w x s : 0 < w < 32 -> 0 <= s <= w -> is_u w x ->
  (a ← shl32 x s; b ← shru 32 x (w -u s)%cint; Ok (wrapu w (Z.lor a b))) = Ok (rotated_left w x s) /\
  (a ← shru 32 x s; b ← shl32 x (w -u s)%cint; Ok (wrapu w (Z.lor a b))) = Ok (rotated_right w x s).
Proof.
  intros Hw Hs Hx. rewrite u32_small, !shl32_ok, !shru_ok by lia. cbn [mbind res_bind].
  unfold rotated_left, rotated_right. rewrite wrapu_lor_s by lia.
  by rewrite (Z.lor_comm _ (i32 _)), wrapu_lor_s, (Z.lor_comm (Z.shiftl x (w - s))) by lia.
Qed.

(** [rol] moves bit [i] to bit [i + s] modulo the width, and [ror] undoes it. *)
Definition rotates (w : Z) (rol ror : Z -> Z -> res Z) (x s : Z) : Prop :=
  exists y, rol x s = Ok y /\ is_u w y /\ ror y s = Ok x /\
    forall i, 0 <= i < w -> Z.testbit y ((i + s) mod w) = Z.testbit x i.

Lemma rotates_intro w rol ror x s : 0 < w -> 0 <= s <= w -> is_u w x ->
  (forall y, is_u w y -> rol y s = Ok (rotated_left w y s) /\ ror y s = Ok (rotated_right w y s)) ->
  rotates w rol ror x s.
Proof.
  intros Hw Hs Hx Hr. destruct (rotate_back w Hw x s Hx Hs) as (Hy & Hback & Hbits).
  exists (rotated_left w x s). split_and!; [by apply Hr|done| |done].
  rewrite (proj2 (Hr _ Hy)). by rewrite Hback.
Qed.

(** ** Sign extension and searches *)

Lemma wraps_shift w s v : 0 <= s < w -> wraps w (v * 2 ^ s) = 2 ^ s * wraps (w - s) v.
Proof.
  intros Hs. unfold wraps. assert (2 ^ (w - 1) = 2 ^ s * 2 ^ (w - s - 1)) as E1
    by (rewrite <- Z.pow_add_r by lia; f_equal; lia).
  assert (2 ^ w = 2 ^ s * 2 ^ (w - s)) as E2 by (rewrite <- Z.pow_add_r by lia; f_equal; lia).
  rewrite E1, E2. replace (v * 2 ^ s + 2 ^ s * 2 ^ (w - s - 1)) with (2 ^ s * (v + 2 ^ (w - s - 1))) by lia.
  rewrite Z.mul_mod_distr_l; [lia| |]; pose proof (pow2_pos s ltac:(lia)); pose proof (pow2_pos (w - s) ltac:(lia)); lia.
Qed.

Lemma sign_extend32_spec value index : 0 <= index < 32 -> sign_extend32 value index = Ok (wraps (index + 1) value).
Proof.
  intros Hi. unfold sign_extend32. cbv zeta. rewrite (wrapu_small 8) by (unfold is_u; lia).
  rewrite shlu_ok by lia. cbn [mbind res_bind]. rewrite shru_ok by lia. f_equal.
  change (i32 (u32 (Z.shiftl value (31 - index)))) with (wraps 32 (wrapu 32 (Z.shiftl value (31 - index)))).
  rewrite wraps_wrapu, Z.shiftl_mul_pow2, wraps_shift, Z.shiftr_div_pow2 by lia.
  rewrite Z.mul_comm, Z.div_mul by (pose proof (pow2_pos (31 - index) ltac:(lia)); lia). f_equal. lia.
Qed.

Lemma high_low x : is_u 64 x -> let h := u32 (Z.shiftr x 32) in
  is_u 32 h /\ x = 2 ^ 32 * h + u32 x /\ 0 <= u32 x < 2 ^ 32.
Proof.
  intros Hx. unfold is_u in Hx. rewrite Z.shiftr_div_pow2 by lia.
  assert (0 <= x / 2 ^ 32 < 2 ^ 32) by (split; [apply Z.div_pos; lia|apply Z.div_lt_upper_bound; lia]).
  rewrite u32_small by lia. split; [done|]. pose proof (Z.div_mod x (2 ^ 32) ltac:(lia)). pose proof (u32_range x).
  split; [|lia]. by rewrite <- Z.div_mod by lia.
Qed.

Lemma fls64_spec x : is_u 64 x -> fls64 x = (if decide (x = 0) then 0 else Z.log2 x + 1).
Proof.
  intros Hx. destruct (high_low x Hx) as (Hh & E & Hl). unfold fls64. set (h := u32 (Z.shiftr x 32)) in *.
  unfold is_u in Hh. destruct (Z.eqb_spec h 0) as [Hz|Hz]; cbn [negb].
  - assert (fls (i32 x) = fls (u32 x)) as ->.
    { unfold fls, __clz. rewrite (wrapu_wraps 32 x), (wrapu_idemp 32 x) by lia. done. }
    assert (x = u32 x) as <- by lia. destruct (decide (x = 0)) as [->|]; [done|].
    destruct (fls_spec x ltac:(lia)) as [-> _]. done.
  - destruct (fls_spec h ltac:(lia)) as (-> & _ & _). rewrite decide_False by lia.
    assert (Z.log2 x = Z.log2 h + 32); [|lia]. apply Z.log2_unique; [pose proof (Z.log2_nonneg h); lia|].
    destruct (Z.log2_spec h ltac:(lia)) as [H1 H2]. pose proof (Z.log2_nonneg h).
    rewrite Z.pow_succ_r, !Z.pow_add_r by lia. rewrite Z.pow_succ_r in H2 by lia. lia.
Qed.

Lemma __ffs64_spec x : is_u 64 x -> x <> 0 ->
  0 <= __ffs64 x < 64 /\ Z.testbit x (__ffs64 x) = true /\ forall j, 0 <= j < __ffs64 x -> Z.testbit x j = false.
Proof.
  intros Hx Hnz. destruct (high_low x Hx) as (Hh & E & Hl). unfold __ffs64. set (h := u32 (Z.shiftr x 32)) in *.
  assert (forall j, 0 <= j -> Z.testbit x j = if decide (j < 32) then Z.testbit (u32 x) j else Z.testbit h (j - 32)) as Hb
    by (intros j Hj; rewrite E at 1; by apply testbit_digit).
  destruct (Z.eqb_spec (u32 x) 0) as [Hz|Hz].
  - destruct (__ffs_spec h Hh ltac:(lia)) as (Hr & Hset & Hlow). rewrite u32_small by lia. split; [lia|]. split.
    + rewrite Hb, decide_False by lia. by replace (__ffs h + 32 - 32) with (__ffs h) by lia.
    + intros j Hj. rewrite Hb by lia. case_decide; [by rewrite Hz, Z.testbit_0_l|]. apply Hlow. lia.
  - destruct (__ffs_spec (u32 x) ltac:(by unfold is_u; lia) Hz) as (Hr & Hset & Hlow). split; [lia|]. split.
    + by rewrite Hb, decide_True by lia.
    + intros j Hj. rewrite Hb, decide_True by lia. apply Hlow. lia.
Qed.

(** The least power of two that is not below [count]. *)
Lemma get_count_order_spec count : 0 < count < 2 ^ 32 ->
  0 <= get_count_order count <= 32 /\ count <= 2 ^ get_count_order count /\
  (count = 1 \/ 2 ^ (get_count_order count - 1) < count).
Proof.
  intros Hc. destruct (fls_spec count Hc) as (El & Hr & Hlo & Hhi). unfold get_count_order. set (k := fls count) in *.
  rewrite !(i32_small (k - 1)), (u32_small (count - 1)) by lia.
  assert (2 ^ k = 2 * 2 ^ (k - 1)) as E2 by (rewrite <- Z.pow_succ_r by lia; f_equal; lia).
  assert (Z.land count (count - 1) = 0 <-> count = 2 ^ (k - 1)) as Hp.
  { split.
    - intros Hz. destruct (decide (count = 2 ^ (k - 1))) as [|Hne]; [done|]. exfalso.
      assert (Z.testbit (Z.land count (count - 1)) (k - 1) = true) as Ht; [|by rewrite Hz, Z.testbit_0_l in Ht].
      assert (forall y, 2 ^ (k - 1) <= y < 2 * 2 ^ (k - 1) -> Z.testbit y (k - 1) = true) as Hy.
      { intros y Hy. pose proof (Z.bit_log2 y ltac:(pose proof (pow2_pos (k - 1) ltac:(lia)); lia)) as Hb.
        replace (Z.log2 y) with (k - 1) in Hb; [done|]. symmetry. apply Z.log2_unique; [lia|].
        rewrite Z.pow_succ_r by lia. lia. }
      rewrite Z.land_spec, !Hy by lia. done.
    - intros Ec. rewrite Ec at 1 2. rewrite (Z.sub_1_r (2 ^ (k - 1))), <- Z.ones_equiv, Z.land_ones by lia. apply Z.mod_same.
      pose proof (pow2_pos (k - 1) ltac:(lia)). lia. }
  destruct (Z.eqb_spec (Z.land count (count - 1)) 0) as [Hz|Hz]; cbn [negb].
  - apply Hp in Hz. split; [lia|]. split; [lia|]. destruct (decide (k = 1)) as [Ek|Ek]; [left; rewrite Ek in Hz; done|].
    right. assert (2 ^ (k - 1 - 1) < 2 ^ (k - 1)); [|lia]. apply Z.pow_lt_mono_r; lia.
  - rewrite i32_small by lia. replace (k - 1 + 1) with k by lia. split; [lia|]. split; [lia|]. right.
    assert (count <> 2 ^ (k - 1)) by (by intros ?%Hp). lia.
Qed.

(** * Properties *)

(** One bit of an array: the versions with the interrupts off and the plain ones
    agree, write the bit they are named for and no other, and the testing ones
    return its old value. *)
Theorem bit_ops_exact l n i : bitmap l n -> 0 <= i < n -> n <= 2 ^ 31 ->
  let old := Z.b2z (tb l i) in
  (exists l', set_bit i l = Ok l' /\ __set_bit i l = Ok l' /\ ____atomic_test_and_set_bit i l = Ok (old, l') /\
     __test_and_set_bit i l = Ok (old, l') /\ rewritten l n i (fun _ => true) l') /\
  (exists l', clear_bit i l = Ok l' /\ __clear_bit i l = Ok l' /\ ____atomic_test_and_clear_bit i l = Ok (old, l') /\
     __test_and_clear_bit i l = Ok (old, l') /\ rewritten l n i (fun _ => false) l') /\
  (exists l', ____atomic_change_bit i l = Ok l' /\ __change_bit i l = Ok l' /\
     ____atomic_test_and_change_bit i l = Ok (old, l') /\ __test_and_change_bit i l = Ok (old, l') /\
     rewritten l n i negb l').
Proof.
  intros Hb Hi H31. assert (forall w k, is_u 32 w -> is_u 32 k -> is_u 32 (Z.land w (not32 k))) as Hclr
    by (intros; apply is_u_land_l; [lia|done|apply (wrapu_range 32); lia]).
  split_and!.
  - destruct (rmw_spec (fun w m => Z.lor w m) (fun _ => true) (fun w k => set_bits k w) (fun w k => is_u_lor 32 w k ltac:(lia)) l n i Hb Hi H31)
      as (l' & E1 & E2 & Hr). exists l'.
    unfold __set_bit, ____atomic_test_and_set_bit, __test_and_set_bit. rewrite E1, E2. split; [|done].
    unfold atomic_rmw in E1. unfold set_bit. destruct (aread l _) as [w|]; [|done]. cbn [mbind res_bind] in *.
    destruct (awrite _ _ _); [|done]. cbn [mbind res_bind] in *. by injection E1 as _ ->.
  - destruct (rmw_spec (fun w m => Z.land w (not32 m)) (fun _ => false) (fun w k => clear_bits k w) Hclr l n i Hb Hi H31)
      as (l' & E1 & E2 & Hr). exists l'.
    unfold __clear_bit, ____atomic_test_and_clear_bit, __test_and_clear_bit. rewrite E1, E2. split; [|done].
    unfold atomic_rmw in E1. unfold clear_bit. destruct (aread l _) as [w|]; [|done]. cbn [mbind res_bind] in *.
    destruct (awrite _ _ _); [|done]. cbn [mbind res_bind] in *. by injection E1 as _ ->.
  - destruct (rmw_spec (fun w m => Z.lxor w m) negb (fun w k => change_bits k w) (fun w k => is_u_lxor 32 w k ltac:(lia)) l n i Hb Hi H31)
      as (l' & E1 & E2 & Hr). exists l'.
    unfold ____atomic_change_bit, __change_bit, ____atomic_test_and_change_bit, __test_and_change_bit.
    by rewrite E1, E2.
Qed.

(** Rotations.  At every width [rol] moves bit [i] to bit [i + s] modulo the
    width and [ror] by the same amount gives the word back.  A rotation by 0 of
    the 64- and 32-bit versions shifts by the width, which C does not define; the
    16- and 8-bit ones, whose operands are promoted, allow it. *)
Theorem rotations_roundtrip x s :
  (is_u 64 x -> 0 < s < 64 -> rotates 64 rol64 ror64 x s) /\
  (is_u 32 x -> 0 < s < 32 -> rotates 32 rol32 ror32 x s) /\
  (is_u 16 x -> 0 <= s <= 16 -> rotates 16 rol16 ror16 x s) /\
  (is_u 8 x -> 0 <= s <= 8 -> rotates 8 rol8 ror8 x s) /\
  rol64 x 0 = Fault ShiftRange /\ ror64 x 0 = Fault ShiftRange /\
  rol32 x 0 = Fault ShiftRange /\ ror32 x 0 = Fault ShiftRange.
Proof.
  split_and!; try done; intros Hx Hs; apply rotates_intro; try lia; try done; intros y Hy.
  - apply (rotations_wide 64); done || lia.
  - apply (rotations_wide 32); done || lia.
  - apply (rotations_narrow 16); done || lia.
  - apply (rotations_narrow 8); done || lia.
Qed.

(** The 64-bit searches, the orders and the sign extension. *)
Theorem word_ops_exact x index :
  (is_u 64 x -> fls64 x = if decide (x = 0) then 0 else Z.log2 x + 1) /\
  (is_u 64 x -> x <> 0 -> 0 <= __ffs64 x < 64 /\ Z.testbit x (__ffs64 x) = true /\
     forall j, 0 <= j < __ffs64 x -> Z.testbit x j = false) /\
  (0 < x < 2 ^ 32 -> 0 <= get_count_order x <= 32 /\ x <= 2 ^ get_count_order x /\
     (x = 1 \/ 2 ^ (get_count_order x - 1) < x)) /\
  (0 <= index < 32 -> sign_extend32 x index = Ok (wraps (index + 1) x)).
Proof.
  split_and!; [apply fls64_spec|apply __ffs64_spec|apply get_count_order_spec|apply sign_extend32_spec].
Qed.

(** * Concrete runs *)

Lemma rotations_roundtrip_witness :
  (is_u 64 0x80000001 -> 0 < 5 < 64 -> rotates 64 rol64 ror64 0x80000001 5) /\
  (is_u 32 0x80000001 -> 0 < 5 < 32 -> rotates 32 rol32 ror32 0x80000001 5) /\
  (is_u 16 0x80000001 -> 0 <= 5 <= 16 -> rotates 16 rol16 ror16 0x80000001 5) /\
  (is_u 8 0x80000001 -> 0 <= 5 <= 8 -> rotates 8 rol8 ror8 0x80000001 5) /\
  rol64 0x80000001 0 = Fault ShiftRange /\ ror64 0x80000001 0 = Fault ShiftRange /\
  rol32 0x80000001 0 = Fault ShiftRange /\ ror32 0x80000001 0 = Fault ShiftRange.
Proof. exact (rotations_roundtrip 0x80000001 5). Defined.

Example rotate_runs : rol32 0x80000001 5 = Ok 0x30 /\ ror8 0x81 1 = Ok 0xC0 /\ sign_extend32 0x1F5 8 = Ok (-11).
Proof. split_and!; reflexivity. Qed.
