(* ===== verification/KBitmap.v ===== *)
(** * lib/bitmap.c: bitmaps as sets of bit numbers

    Bitmaps live in a store, each object the list of its words, so an operation
    whose destination is one of its sources is modelled as it runs.  The functions
    are translated loop by loop; the theorems say that on the bits in use they
    compute the operations of finite sets ([bits_of]).  [unsigned long] has 32
    bits; the compile-time cases of include/linux/bitmap.h for bitmaps of one
    word are left out. *)

From S2P Require Import Prelude Ioctl KBits.
Open Scope Z_scope.

(** ** The store *)

(** The objects in memory, by address. *)
Abbreviation mem := (gmap Z (list Z)).
Abbreviation B := (M mem).

Definition obj (p : Z) : B (list Z) := m ← get; lift (need (m !! p) NullDeref).
(** [p[k]] and [p[k] = v] *)
Definition rd (p k : Z) : B Z := l ← obj p; lift (aread l k).
Definition wr (p k v : Z) : B unit :=
  l ← obj p; l' ← lift (awrite l k v); modify (<[p := l']>).

(** [for (k = i; k < i + n; k++) acc = f(k, acc)]; the same with an early
    [return]; and [for (k = n - 1; k >= 0; k--) f(k)] *)
Fixpoint for_up {A} (n : nat) (i : Z) (acc : A) (f : Z -> A -> B A) : B A :=
  match n with
  | O => mret acc
  | S n' => a ← f i acc; for_up n' (i + 1) a f
  end.
Fixpoint for_return {A} (n : nat) (i : Z) (f : Z -> B (option A)) : B (option A) :=
  match n with
  | O => mret None
  | S n' => o ← f i; match o with Some a => mret (Some a) | None => for_return n' (i + 1) f end
  end.
Fixpoint for_down (n : nat) (f : Z -> B unit) : B unit :=
  match n with
  | O => mret tt
  | S n' => f (Z.of_nat n');; for_down n' f
  end.

(** ** Comparisons *)

Definition __bitmap_equal (bitmap1 bitmap2 bits : Z) : B Z :=
  let lim := bits / BITS_PER_LONG in
  r ← for_return (Z.to_nat lim) 0 (fun k =>
    a ← rd bitmap1 k; b ← rd bitmap2 k; mret (if negb (a =? b) then Some 0 else None));
  match r with
  | Some v => mret v
  | None =>
      if negb (bits mod BITS_PER_LONG =? 0) then
        a ← rd bitmap1 lim; b ← rd bitmap2 lim;
        mret (if negb (Z.land (Z.lxor a b) (BITMAP_LAST_WORD_MASK bits) =? 0) then 0 else 1)
      else mret 1
  end.

Definition __bitmap_intersects (bitmap1 bitmap2 bits : Z) : B Z :=
  let lim := bits / BITS_PER_LONG in
  r ← for_return (Z.to_nat lim) 0 (fun k =>
    a ← rd bitmap1 k; b ← rd bitmap2 k; mret (if negb (Z.land a b =? 0) then Some 1 else None));
  match r with
  | Some v => mret v
  | None =>
      if negb (bits mod BITS_PER_LONG =? 0) then
        a ← rd bitmap1 lim; b ← rd bitmap2 lim;
        mret (if negb (Z.land (Z.land a b) (BITMAP_LAST_WORD_MASK bits) =? 0) then 1 else 0)
      else mret 0
  end.

Definition __bitmap_subset (bitmap1 bitmap2 bits : Z) : B Z :=
  let lim := bits / BITS_PER_LONG in
  r ← for_return (Z.to_nat lim) 0 (fun k =>
    a ← rd bitmap1 k; b ← rd bitmap2 k; mret (if negb (Z.land a (not32 b) =? 0) then Some 0 else None));
  match r with
  | Some v => mret v
  | None =>
      if negb (bits mod BITS_PER_LONG =? 0) then
        a ← rd bitmap1 lim; b ← rd bitmap2 lim;
        mret (if negb (Z.land (Z.land a (not32 b)) (BITMAP_LAST_WORD_MASK bits) =? 0) then 0 else 1)
      else mret 1
  end.

Definition __bitmap_weight (bitmap bits : Z) : B Z :=
  let lim := bits / BITS_PER_LONG in
  w ← for_up (Z.to_nat lim) 0 0 (fun k w => x ← rd bitmap k; mret (w +i hweight_long x)%cint);
  if negb (bits mod BITS_PER_LONG =? 0) then
    x ← rd bitmap lim; mret (w +i hweight_long (Z.land x (BITMAP_LAST_WORD_MASK bits)))%cint
  else mret w.

(** ** Operations on whole bitmaps *)

Definition bitmap_zero (dst nbits : Z) : B unit :=
  for_up (Z.to_nat (BITS_TO_LONGS nbits)) 0 tt (fun k _ => wr dst k 0).

Definition __bitmap_complement (dst src bits : Z) : B unit :=
  let lim := bits / BITS_PER_LONG in
  for_up (Z.to_nat lim) 0 tt (fun k _ => a ← rd src k; wr dst k (not32 a));;
  if negb (bits mod BITS_PER_LONG =? 0) then a ← rd src lim; wr dst lim (not32 a) else mret tt.

Definition __bitmap_and (dst bitmap1 bitmap2 bits : Z) : B Z :=
  let lim := bits / BITS_PER_LONG in
  result ← for_up (Z.to_nat lim) 0 0 (fun k result =>
    a ← rd bitmap1 k; b ← rd bitmap2 k;
    wr dst k (Z.land a b);; mret (Z.lor result (Z.land a b)));
  result ← (if negb (bits mod BITS_PER_LONG =? 0) then
    a ← rd bitmap1 lim; b ← rd bitmap2 lim;
    let v := Z.land (Z.land a b) (BITMAP_LAST_WORD_MASK bits) in
    wr dst lim v;; mret (Z.lor result v) else mret result);
  mret (if negb (result =? 0) then 1 else 0).

Definition __bitmap_andnot (dst bitmap1 bitmap2 bits : Z) : B Z :=
  let lim := bits / BITS_PER_LONG in
  result ← for_up (Z.to_nat lim) 0 0 (fun k result =>
    a ← rd bitmap1 k; b ← rd bitmap2 k;
    wr dst k (Z.land a (not32 b));; mret (Z.lor result (Z.land a (not32 b))));
  result ← (if negb (bits mod BITS_PER_LONG =? 0) then
    a ← rd bitmap1 lim; b ← rd bitmap2 lim;
    let v := Z.land (Z.land a (not32 b)) (BITMAP_LAST_WORD_MASK bits) in
    wr dst lim v;; mret (Z.lor result v) else mret result);
  mret (if negb (result =? 0) then 1 else 0).

Definition __bitmap_or (dst bitmap1 bitmap2 bits : Z) : B unit :=
  for_up (Z.to_nat (BITS_TO_LONGS bits)) 0 tt (fun k _ =>
    a ← rd bitmap1 k; b ← rd bitmap2 k; wr dst k (Z.lor a b)).
Definition __bitmap_xor (dst bitmap1 bitmap2 bits : Z) : B unit :=
  for_up (Z.to_nat (BITS_TO_LONGS bits)) 0 tt (fun k _ =>
    a ← rd bitmap1 k; b ← rd bitmap2 k; wr dst k (Z.lxor a b)).

(** ** Shifts *)

(** [memset(&p[k], 0, n * sizeof(unsigned long))] *)
Definition clear_words (p k n : Z) : B unit := for_up (Z.to_nat n) k tt (fun i _ => wr p i 0).

(** The loop runs while [off + k < lim]. *)
Definition __bitmap_shift_right (dst src shift nbits : Z) : B unit :=
  let lim := BITS_TO_LONGS nbits in
  let off := shift / BITS_PER_LONG in
  let rem := shift mod BITS_PER_LONG in
  let mask := BITMAP_LAST_WORD_MASK nbits in
  for_up (Z.to_nat (lim - off)) 0 tt (fun k _ =>
    upper ← (if (rem =? 0) || (lim <=? off + k + 1) then mret 0
             else u ← rd src (off + k + 1);
                  let u := if off + k + 1 =? lim - 1 then Z.land u mask else u in
                  mret (u32 (Z.shiftl u (BITS_PER_LONG - rem))));
    l ← rd src (off + k);
    let lower := if off + k =? lim - 1 then Z.land l mask else l in
    let lower := Z.shiftr lower rem in
    wr dst k (Z.lor lower upper));;
  if negb (off =? 0) then clear_words dst (lim -u off)%cint off else mret tt.

Definition __bitmap_shift_left (dst src shift nbits : Z) : B unit :=
  let lim := BITS_TO_LONGS nbits in
  let off := shift / BITS_PER_LONG in
  let rem := shift mod BITS_PER_LONG in
  for_down (Z.to_nat (lim - off)) (fun k =>
    lower ← (if negb (rem =? 0) && (0 <? k)
             then l ← rd src (k - 1); mret (Z.shiftr l (BITS_PER_LONG - rem)) else mret 0);
    u ← rd src k;
    let upper := u32 (Z.shiftl u rem) in
    wr dst (k + off) (Z.lor lower upper));;
  if negb (off =? 0) then clear_words dst 0 off else mret tt.

(** ** Loops *)

Section loops.
Implicit Types (m : mem).

Lemma for_up_inv {A} (I : nat -> A -> mem -> Prop) n i acc (f : Z -> A -> B A) m :
  I 0%nat acc m ->
  (forall j a m', (j < n)%nat -> I j a m' ->
     exists a' m'', f (i + Z.of_nat j) a m' = Ok (a', m'') /\ I (S j) a' m'') ->
  exists a m', for_up n i acc f m = Ok (a, m') /\ I n a m'.
Proof.
  revert i acc m I. induction n as [|n IH]; intros i acc m I H0 Hs; [by exists acc, m|].
  destruct (Hs 0%nat acc m ltac:(lia) H0) as (a1 & m1 & E & H1). rewrite Z.add_0_r in E.
  cbn [for_up]. rewrite (Mbind_run _ _ _ _ _ E).
  apply (IH (i + 1) a1 m1 (fun j => I (S j))); [done|]. intros j a m' Hj Hi.
  destruct (Hs (S j) a m' ltac:(lia) Hi) as (a' & m'' & E' & H'). exists a', m''. split; [|done].
  by replace (i + 1 + Z.of_nat j) with (i + Z.of_nat (S j)) by lia.
Qed.

Lemma for_down_inv (I : nat -> mem -> Prop) n (f : Z -> B unit) m :
  I n m ->
  (forall j m', (j < n)%nat -> I (S j) m' -> exists m'', f (Z.of_nat j) m' = Ok (tt, m'') /\ I j m'') ->
  exists m', for_down n f m = Ok (tt, m') /\ I 0%nat m'.
Proof.
  revert m. induction n as [|n IH]; intros m Hn Hs; [by exists m|].
  destruct (Hs n m ltac:(lia) Hn) as (m1 & E & H1). cbn [for_down]. rewrite (Mbind_run _ _ _ _ _ E).
  apply IH; [done|]. intros j m' Hj. apply Hs. lia.
Qed.

(** A loop that only looks: it returns at the first iteration that decides. *)
Lemma for_return_spec {A} n i (f : Z -> B (option A)) m (g : Z -> option A) :
  (forall j, i <= j < i + Z.of_nat n -> f j m = Ok (g j, m)) ->
  for_return n i f m = Ok (list_find (fun o => is_Some o) (g <$> seqZ i (Z.of_nat n)) ≫= snd, m).
Proof.
  revert i. induction n as [|n IH]; intros i Hf; [done|]. cbn [for_return].
  rewrite (Mbind_run _ _ _ _ _ (Hf i ltac:(lia))).
  rewrite seqZ_cons by lia. rewrite fmap_cons. cbn [list_find].
  replace (Z.pred (Z.of_nat (S n))) with (Z.of_nat n) by lia.
  destruct (g i) as [a|]; [by rewrite decide_True by eauto|].
  rewrite decide_False by (by intros []). rewrite IH by (intros j Hj; apply Hf; lia).
  destruct (list_find _ _) as [[k o]|]; done.
Qed.
End loops.

(** ** Words of a partly written object *)

Section words.
Implicit Types (l : list Z) (m : mem) (F : Z -> Z).

(** [l] with the words [lo, hi) replaced by those of [F]. *)
Definition upd (lo hi : Z) F l : list Z :=
  imap (fun k x => if decide (lo <= Z.of_nat k < hi) then F (Z.of_nat k) else x) l.

Lemma upd_length lo hi F l : length (upd lo hi F l) = length l.
Proof. apply length_imap. Qed.

Lemma upd_lookup lo hi F l k : 0 <= k < Z.of_nat (length l) ->
  upd lo hi F l !!! Z.to_nat k = if decide (lo <= k < hi) then F k else l !!! Z.to_nat k.
Proof.
  intros Hk. destruct (lookup_Z l k Hk) as [x Hx]. rewrite (list_lookup_total_correct l _ x) by done.
  apply list_lookup_total_correct. unfold upd. rewrite list_lookup_imap, Hx. cbn.
  by rewrite Z2Nat.id by lia.
Qed.

Lemma upd_none lo hi F l : hi <= lo -> upd lo hi F l = l.
Proof.
  intros Hh. apply list_eq. intros k. unfold upd. rewrite list_lookup_imap.
  destruct (l !! k); cbn; [|done]. by rewrite decide_False by lia.
Qed.

Lemma words_eq l l' : length l = length l' ->
  (forall k, 0 <= k < Z.of_nat (length l) -> l !!! Z.to_nat k = l' !!! Z.to_nat k) -> l = l'.
Proof.
  intros Hl He. apply list_eq. intros k. destruct (decide (k < length l)%nat) as [Hk|Hk].
  - specialize (He (Z.of_nat k) ltac:(lia)). rewrite !Nat2Z.id in He.
    destruct (lookup_lt_is_Some_2 l k Hk) as [x Hx]. destruct (lookup_lt_is_Some_2 l' k) as [y Hy]; [lia|].
    rewrite !list_lookup_total_alt, Hx, Hy in He. cbn in He. by rewrite Hx, Hy, He.
  - rewrite !lookup_ge_None_2 by lia. done.
Qed.

(** One more word, above or below. *)
Lemma upd_up lo hi F l : lo <= hi -> 0 <= hi < Z.of_nat (length l) ->
  <[Z.to_nat hi := F hi]> (upd lo hi F l) = upd lo (hi + 1) F l.
Proof.
  intros Hlo Hh. apply words_eq; [by rewrite length_insert, !upd_length|].
  rewrite length_insert, upd_length. intros k Hk. destruct (decide (k = hi)) as [->|Hne].
  - rewrite list_lookup_total_insert_eq by (rewrite upd_length; lia).
    by rewrite upd_lookup, decide_True by lia.
  - rewrite list_lookup_total_insert_ne by lia. rewrite !upd_lookup by lia.
    repeat case_decide; done || lia.
Qed.
Lemma upd_down lo hi F l : lo <= hi -> 0 <= lo < Z.of_nat (length l) ->
  <[Z.to_nat lo := F lo]> (upd (lo + 1) hi F l) = upd lo (Z.max hi (lo + 1)) F l.
Proof.
  intros Hlo Hh. apply words_eq; [by rewrite length_insert, !upd_length|].
  rewrite length_insert, upd_length. intros k Hk. destruct (decide (k = lo)) as [->|Hne].
  - rewrite list_lookup_total_insert_eq by (rewrite upd_length; lia).
    by rewrite upd_lookup, decide_True by lia.
  - rewrite list_lookup_total_insert_ne by lia. rewrite !upd_lookup by lia.
    repeat case_decide; done || lia.
Qed.

(** Reading and writing while [dst] is being written. *)
Lemma obj_run m p l : m !! p = Some l -> obj p m = Ok (l, m).
Proof. intros Hp. unfold obj. by rewrite Mbind_get, Hp. Qed.

Lemma rd_run m p l k : m !! p = Some l -> 0 <= k < Z.of_nat (length l) ->
  rd p k m = Ok (l !!! Z.to_nat k, m).
Proof.
  intros Hp Hk. unfold rd. rewrite (Mbind_run _ _ _ _ _ (obj_run m p l Hp)).
  destruct (lookup_Z l k Hk) as [x Hx].
  by rewrite (aread_lookup l k x), (list_lookup_total_correct l _ x) by (done || lia).
Qed.

Lemma wr_run m p l k v : m !! p = Some l -> 0 <= k < Z.of_nat (length l) ->
  wr p k v m = Ok (tt, <[p := <[Z.to_nat k := v]> l]> m).
Proof.
  intros Hp Hk. unfold wr. rewrite (Mbind_run _ _ _ _ _ (obj_run m p l Hp)).
  by rewrite awrite_in, Mbind_lift by lia.
Qed.

Lemma rd_upd m dst dl lo hi F p l k :
  m !! dst = Some dl -> m !! p = Some l -> 0 <= k < Z.of_nat (length l) -> ~ lo <= k < hi ->
  rd p k (<[dst := upd lo hi F dl]> m) = Ok (l !!! Z.to_nat k, <[dst := upd lo hi F dl]> m).
Proof.
  intros Hd Hp Hk Hn. destruct (decide (p = dst)) as [->|Hne].
  - rewrite Hp in Hd. injection Hd as <-.
    rewrite (rd_run _ _ (upd lo hi F l)) by (rewrite ?lookup_insert_eq, ?upd_length; done || lia).
    by rewrite upd_lookup, decide_False by done.
  - apply rd_run; [by rewrite lookup_insert_ne|done].
Qed.

Lemma wr_upd_up m dst dl lo hi F v :
  m !! dst = Some dl -> lo <= hi -> 0 <= hi < Z.of_nat (length dl) -> v = F hi ->
  wr dst hi v (<[dst := upd lo hi F dl]> m) = Ok (tt, <[dst := upd lo (hi + 1) F dl]> m).
Proof.
  intros Hd Hl Hh ->. rewrite (wr_run _ _ (upd lo hi F dl)) by (rewrite ?lookup_insert_eq, ?upd_length; done || lia).
  by rewrite insert_insert_eq, upd_up.
Qed.
Lemma wr_upd_down m dst dl lo hi F v :
  m !! dst = Some dl -> lo < hi -> 0 <= lo < Z.of_nat (length dl) -> v = F lo ->
  wr dst lo v (<[dst := upd (lo + 1) hi F dl]> m) = Ok (tt, <[dst := upd lo hi F dl]> m).
Proof.
  intros Hd Hl Hh ->. rewrite (wr_run _ _ (upd (lo + 1) hi F dl)) by (rewrite ?lookup_insert_eq, ?upd_length; done || lia).
  rewrite insert_insert_eq, upd_down by lia. by replace (Z.max hi (lo + 1)) with hi by lia.
Qed.

(** Before anything is written, and after a word has been. *)
Lemma upd_start m dst dl lo F : m !! dst = Some dl -> <[dst := upd lo lo F dl]> m = m.
Proof. intros Hd. rewrite upd_none by lia. by apply insert_id. Qed.

Lemma upd_ext lo hi F F' l : (forall k, lo <= k < hi -> F k = F' k) -> upd lo hi F l = upd lo hi F' l.
Proof.
  intros He. apply words_eq; [by rewrite !upd_length|]. rewrite upd_length. intros k Hk.
  rewrite !upd_lookup by done. case_decide; [by apply He|done].
Qed.

(** The bits of the result. *)
Lemma upd_tb lo hi F l n : 0 <= n < 32 * Z.of_nat (length l) ->
  tb (upd lo hi F l) n =
    if decide (lo <= n / 32 < hi) then Z.testbit (F (n / 32)) (n mod 32) else tb l n.
Proof.
  intros Hn. unfold tb. rewrite upd_lookup; [by case_decide|].
  split; [apply Z.div_pos; lia|apply Z.div_lt_upper_bound; lia].
Qed.
End words.

(** ** Sets of bit numbers *)

(** The set bits below [n], in order and as a set. *)
Definition positions (l : list Z) (n : Z) : list Z := filter (fun i => tb l i = true) (seqZ 0 n).
Definition bits_of (l : list Z) (n : Z) : gset Z := list_to_set (positions l n).

Lemma elem_positions l n i : i ∈ positions l n <-> 0 <= i < n /\ tb l i = true.
Proof. unfold positions. rewrite list_elem_of_filter, elem_of_seqZ. intuition lia. Qed.
Lemma elem_bits_of l n i : i ∈ bits_of l n <-> 0 <= i < n /\ tb l i = true.
Proof. unfold bits_of. by rewrite elem_of_list_to_set, elem_positions. Qed.
Lemma positions_NoDup l n : NoDup (positions l n).
Proof. apply NoDup_filter, NoDup_seqZ. Qed.
Lemma bits_of_ext l l' n : (forall i, 0 <= i < n -> tb l i = tb l' i) -> bits_of l n = bits_of l' n.
Proof.
  intros He. apply set_eq. intros i. rewrite !elem_bits_of. split; intros [Hi Ht]; (split; [done|]).
  - by rewrite <- He.
  - by rewrite He.
Qed.

Lemma tb_spec l n i : 0 <= i < n -> tb l i = bool_decide (i ∈ bits_of l n).
Proof.
  intros Hi. case_bool_decide as Hd; rewrite elem_bits_of in Hd; [tauto|].
  destruct (tb l i); [|done]. exfalso. auto.
Qed.

(** An object that holds a bitmap of [n] bits. *)
Definition holds (m : mem) (p : Z) (l : list Z) (n : Z) : Prop := m !! p = Some l /\ bitmap l n.

Section sets.
Implicit Types (m : mem) (l la lb : list Z) (n : Z).

Lemma word_range l n k : bitmap l n -> 0 <= k < Z.of_nat (length l) -> is_u 32 (l !!! Z.to_nat k).
Proof.
  intros (Hf & _) Hk. destruct (lookup_Z l k Hk) as [x Hx].
  rewrite (list_lookup_total_correct l _ x) by done. by eapply Forall_lookup_1.
Qed.
Lemma bitmap_words l n : bitmap l n ->
  n / 32 <= Z.of_nat (length l) /\ (n mod 32 <> 0 -> n / 32 < Z.of_nat (length l)) /\ 0 <= n / 32 /\
  n = 32 * (n / 32) + n mod 32 /\ 0 <= n mod 32 < 32 /\
  BITS_TO_LONGS n = n / 32 + (if decide (n mod 32 = 0) then 0 else 1).
Proof.
  intros (_ & Hn & Hbig). destruct (word_split n) as [E Hm].
  assert (n / 32 <= Z.of_nat (length l)) by (apply Z.div_le_upper_bound; lia).
  assert (0 <= n / 32) by (apply Z.div_pos; lia).
  split_and!; try lia. unfold BITS_TO_LONGS. rewrite u32_small by lia.
  rewrite E at 1. case_decide as Hd.
  - rewrite Hd. replace (32 * (n / 32) + 0 + 31) with ((n / 32) * 32 + 31) by lia.
    rewrite Z.div_add_l by lia. change (31 / 32) with 0. lia.
  - replace (32 * (n / 32) + n mod 32 + 31) with ((n / 32 + 1) * 32 + (n mod 32 - 1)) by lia.
    rewrite Z.div_add_l, (Z.div_small (_ - 1)) by lia. lia.
Qed.

(** The last word under its mask. *)
Lemma last_word_zero w n : is_u 32 w -> n mod 32 <> 0 ->
  Z.land w (BITMAP_LAST_WORD_MASK n) = 0 <-> forall j, 0 <= j < n mod 32 -> Z.testbit w j = false.
Proof.
  intros Hw Hn. pose proof (Z.mod_pos_bound n 32 ltac:(lia)). split.
  - intros Hz j Hj. assert (Z.testbit (Z.land w (BITMAP_LAST_WORD_MASK n)) j = false) as Hb by (by rewrite Hz, Z.testbit_0_l).
    rewrite Z.land_spec, last_mask_testbit, bool_decide_eq_true_2, andb_true_r in Hb by lia. done.
  - intros Hj. apply word_eq; [|done|].
    { apply is_u_land_l; [lia|done|]. pose proof (last_mask_range n) as Hr. unfold is_u in Hr. lia. }
    intros i Hi. rewrite Z.land_spec, last_mask_testbit, Z.testbit_0_l by lia. case_bool_decide as Hd.
    + rewrite andb_true_r. apply Hj. lia.
    + by rewrite andb_false_r.
Qed.
Lemma word_zero_iff w : is_u 32 w -> w = 0 <-> forall j, 0 <= j < 32 -> Z.testbit w j = false.
Proof.
  intros Hw. split; [intros ->; by intros; rewrite Z.testbit_0_l|].
  intros Hj. apply word_eq; [done|done|]. intros i Hi. rewrite Z.testbit_0_l. by apply Hj.
Qed.

(** The common shape of the three comparisons: [t] combines words bitwise by
    [c], [full] is the test of a whole word. *)
Section scan.
Variables (t : Z -> Z -> Z) (c : bool -> bool -> bool) (full : Z -> Z -> bool) (hit miss : Z).
Hypothesis t_bits : forall a b j, 0 <= j < 32 -> Z.testbit (t a b) j = c (Z.testbit a j) (Z.testbit b j).
Hypothesis t_range : forall a b, is_u 32 a -> is_u 32 b -> is_u 32 (t a b).
Hypothesis full_spec : forall a b, is_u 32 a -> is_u 32 b -> full a b = negb (t a b =? 0).

Definition clear_all la lb n : Prop := forall i, 0 <= i < n -> c (tb la i) (tb lb i) = false.

Definition word_scan (p q bits : Z) : B Z :=
  let lim := bits / BITS_PER_LONG in
  r ← for_return (Z.to_nat lim) 0 (fun k =>
    a ← rd p k; b ← rd q k; mret (if full a b then Some hit else None));
  match r with
  | Some v => mret v
  | None =>
      if negb (bits mod BITS_PER_LONG =? 0) then
        a ← rd p lim; b ← rd q lim;
        mret (if negb (Z.land (t a b) (BITMAP_LAST_WORD_MASK bits) =? 0) then hit else miss)
      else mret miss
  end.

Lemma word_clear la lb n k : bitmap la n -> bitmap lb n -> 0 <= k -> 32 * k + 32 <= n ->
  full (la !!! Z.to_nat k) (lb !!! Z.to_nat k) = false <->
  forall i, 32 * k <= i < 32 * k + 32 -> c (tb la i) (tb lb i) = false.
Proof.
  intros Ha Hb Hk Hn. pose proof Ha as (_ & Hla & _). pose proof Hb as (_ & Hlb & _).
  rewrite full_spec by (eapply word_range; [done|lia]). rewrite negb_false_iff, Z.eqb_eq.
  rewrite word_zero_iff by (apply t_range; (eapply word_range; [done|lia])). split.
  - intros Hj i Hi. specialize (Hj (i - 32 * k) ltac:(lia)). rewrite t_bits in Hj by lia.
    rewrite <- !tb_word in Hj by lia. by replace (32 * k + (i - 32 * k)) with i in Hj by lia.
  - intros Hi j Hj. rewrite t_bits by lia. rewrite <- !tb_word by lia. apply Hi. lia.
Qed.

Lemma word_scan_spec m p q la lb n :
  holds m p la n -> holds m q lb n ->
  exists v, word_scan p q n m = Ok (v, m) /\
    ((v = miss /\ clear_all la lb n) \/ (v = hit /\ ~ clear_all la lb n)).
Proof.
  intros [Hp Ha] [Hq Hb]. destruct (bitmap_words la n Ha) as (Hla & Hla' & Hk0 & En & Hm & _).
  destruct (bitmap_words lb n Hb) as (Hlb & Hlb' & _). unfold word_scan, BITS_PER_LONG.
  erewrite Mbind_run.
  2: { apply (for_return_spec _ _ _ _
         (fun k => if full (la !!! Z.to_nat k) (lb !!! Z.to_nat k) then Some hit else None)).
       intros j Hj. rewrite (Mbind_run _ _ _ _ _ (rd_run m p la j Hp ltac:(lia))).
       by rewrite (Mbind_run _ _ _ _ _ (rd_run m q lb j Hq ltac:(lia))). }
  rewrite Z2Nat.id by done. destruct (list_find _ _) as [[k o]|] eqn:E.
  - apply list_find_Some in E as (E & [v ->] & _). rewrite list_lookup_fmap in E.
    destruct (seqZ 0 (n / 32) !! k) as [kz|] eqn:Ek; [|done]. apply lookup_seqZ in Ek as [-> Hk]. cbn in E.
    destruct (full _ _) eqn:Ef; [|done]. injection E as <-. exists hit. split; [done|]. right. split; [done|].
    intros Hc. apply not_false_iff_true in Ef. apply Ef. apply (word_clear la lb n (0 + Z.of_nat k)); try done; try lia.
    intros i Hi. apply Hc. lia.
  - apply list_find_None in E. rewrite Forall_fmap, Forall_forall in E.
    assert (forall i, 0 <= i < 32 * (n / 32) -> c (tb la i) (tb lb i) = false) as Hlow.
    { intros i Hi. destruct (word_split i) as [Ei Hi']. specialize (E (i / 32)).
      destruct (full (la !!! Z.to_nat (i / 32)) (lb !!! Z.to_nat (i / 32))) eqn:Ef.
      - exfalso. apply E; [apply elem_of_seqZ; split; [apply Z.div_pos; lia|apply Z.div_lt_upper_bound; lia]|].
        cbn. rewrite Ef. eauto.
      - assert (i / 32 < n / 32) by (apply Z.div_lt_upper_bound; lia).
        apply (word_clear la lb n (i / 32)) with (i := i) in Ef; try done; lia. }
    cbn. destruct (Z.eqb_spec (n mod 32) 0) as [Hz|Hz]; cbn [negb].
    + exists miss. split; [done|]. left. split; [done|]. intros i Hi. apply Hlow. lia.
    + specialize (Hla' Hz). specialize (Hlb' Hz). rewrite (Mbind_run _ _ _ _ _ (rd_run m p la (n / 32) Hp ltac:(lia))).
      rewrite (Mbind_run _ _ _ _ _ (rd_run m q lb (n / 32) Hq ltac:(lia))).
      eexists. split; [done|]. set (w := t _ _).
      assert (is_u 32 w) as Hw by (apply t_range; (eapply word_range; [done|lia])).
      pose proof (last_word_zero w n Hw Hz) as Hl.
      assert (clear_all la lb n <-> Z.land w (BITMAP_LAST_WORD_MASK n) = 0) as Hc.
      { rewrite Hl. split.
        - intros Hc j Hj. unfold w. rewrite t_bits by lia. rewrite <- !tb_word by lia. apply Hc. lia.
        - intros Hj i Hi. destruct (decide (i < 32 * (n / 32))); [apply Hlow; lia|].
          specialize (Hj (i - 32 * (n / 32)) ltac:(lia)). unfold w in Hj. rewrite t_bits in Hj by lia.
          rewrite <- !tb_word in Hj by lia. by replace (32 * (n / 32) + (i - 32 * (n / 32))) with i in Hj by lia. }
      destruct (Z.eqb_spec (Z.land w (BITMAP_LAST_WORD_MASK n)) 0); cbn [negb]; [left|right]; tauto.
Qed.
End scan.
End sets.

(** ** The comparisons *)

Lemma not32_testbit w j : 0 <= j < 32 -> Z.testbit (not32 w) j = negb (Z.testbit w j).
Proof. intros Hj. unfold not32. by rewrite u32_testbit, Z.lnot_spec by lia. Qed.
Lemma not32_range w : is_u 32 (not32 w).
Proof. apply (wrapu_range 32). lia. Qed.
Lemma land_word a b : is_u 32 a -> is_u 32 b -> is_u 32 (Z.land a b).
Proof. intros Ha Hb. apply is_u_land_l; [lia|done|]. unfold is_u in Hb. lia. Qed.
Lemma lor_word a b : is_u 32 a -> is_u 32 b -> is_u 32 (Z.lor a b).
Proof. apply is_u_lor. lia. Qed.
Lemma lxor_word a b : is_u 32 a -> is_u 32 b -> is_u 32 (Z.lxor a b).
Proof. apply is_u_lxor. lia. Qed.
#[export] Hint Resolve land_word lor_word lxor_word not32_range last_mask_range : core.

Section comparisons.
Variables (m : mem) (p q : Z) (la lb : list Z) (n : Z).
Hypotheses (Hp : holds m p la n) (Hq : holds m q lb n).

Lemma bitmap_equal_spec :
  __bitmap_equal p q n m = Ok (if decide (bits_of la n = bits_of lb n) then 1 else 0, m).
Proof.
  destruct (word_scan_spec Z.lxor xorb (fun a b => negb (a =? b)) 0 1) with (m := m) (p := p) (q := q)
    (la := la) (lb := lb) (n := n) as (v & E & Hv); try done; [intros; apply Z.lxor_spec|auto| |].
  { intros a b _ _. f_equal. apply eq_true_iff_eq. by rewrite !Z.eqb_eq, Z.lxor_eq_0_iff. }
  unfold word_scan in E. unfold __bitmap_equal. rewrite E. clear E. do 2 f_equal.
  assert (clear_all xorb la lb n <-> bits_of la n = bits_of lb n) as Hc.
  { split; [intros Hc; apply bits_of_ext; intros i Hi; by apply xorb_eq, Hc|].
    intros He i Hi. rewrite !(tb_spec _ n) by done. by rewrite He, xorb_nilpotent. }
  destruct Hv as [[-> Hv]|[-> Hv]]; case_decide; tauto.
Qed.

Lemma bitmap_intersects_spec :
  __bitmap_intersects p q n m = Ok (if decide (bits_of la n ∩ bits_of lb n = ∅) then 0 else 1, m).
Proof.
  destruct (word_scan_spec Z.land andb (fun a b => negb (Z.land a b =? 0)) 1 0) with (m := m) (p := p) (q := q)
    (la := la) (lb := lb) (n := n) as (v & E & Hv); try done; [intros; apply Z.land_spec|auto|].
  unfold word_scan in E. unfold __bitmap_intersects. rewrite E. clear E. do 2 f_equal.
  assert (clear_all andb la lb n <-> bits_of la n ∩ bits_of lb n = ∅) as Hc.
  { split.
    - intros Hc. apply set_eq. intros i. rewrite elem_of_intersection, !elem_bits_of.
      split; [|set_solver]. intros [[Hi Ha] [_ Hb]]. specialize (Hc i Hi). by rewrite Ha, Hb in Hc.
    - intros He i Hi. apply andb_false_iff. destruct (tb la i) eqn:Ea, (tb lb i) eqn:Eb; try tauto.
      assert (i ∈ bits_of la n ∩ bits_of lb n) by (rewrite elem_of_intersection, !elem_bits_of; auto). set_solver. }
  destruct Hv as [[-> Hv]|[-> Hv]]; case_decide; tauto.
Qed.

Lemma bitmap_subset_spec :
  __bitmap_subset p q n m = Ok (if decide (bits_of la n ⊆ bits_of lb n) then 1 else 0, m).
Proof.
  destruct (word_scan_spec (fun a b => Z.land a (not32 b)) (fun a b => a && negb b)
    (fun a b => negb (Z.land a (not32 b) =? 0)) 0 1) with (m := m) (p := p) (q := q)
    (la := la) (lb := lb) (n := n) as (v & E & Hv); try done; [|auto|].
  { intros a b j Hj. by rewrite Z.land_spec, not32_testbit. }
  unfold word_scan in E. unfold __bitmap_subset. rewrite E. clear E. do 2 f_equal.
  assert (clear_all (fun a b => a && negb b) la lb n <-> bits_of la n ⊆ bits_of lb n) as Hc.
  { split.
    - intros Hc i. rewrite !elem_bits_of. intros [Hi Ha]. split; [done|]. specialize (Hc i Hi).
      rewrite Ha in Hc. by destruct (tb lb i).
    - intros He i Hi. destruct (tb la i) eqn:Ea; [|done]. specialize (He i). rewrite !elem_bits_of in He.
      destruct He as [_ Hb]; [auto|]. by rewrite Hb. }
  destruct Hv as [[-> Hv]|[-> Hv]]; case_decide; tauto.
Qed.
End comparisons.

(** ** The number of set bits *)

Lemma positions_split l a b : 0 <= a -> 0 <= b ->
  positions l (a + b) = positions l a ++ filter (fun i => tb l i = true) (seqZ a b).
Proof. intros Ha Hb. unfold positions. by rewrite seqZ_app, filter_app, Z.add_0_l by lia. Qed.

Lemma count_word l k r : 0 <= k -> 0 <= r <= 32 ->
  Z.of_nat (length (filter (fun i => tb l i = true) (seqZ (32 * k) r))) = popcount r (l !!! Z.to_nat k).
Proof.
  intros Hk Hr. unfold popcount. rewrite <- (Z.add_0_r (32 * k)), <- (fmap_add_seqZ (32 * k) 0 r).
  rewrite list_filter_fmap, length_fmap. do 2 f_equal. apply list_filter_strong.
  intros i Hi%elem_of_seqZ. by rewrite tb_word by lia.
Qed.

Lemma popcount_last w n : is_u 32 w -> n mod 32 <> 0 ->
  popcount 32 (Z.land w (BITMAP_LAST_WORD_MASK n)) = popcount (n mod 32) w.
Proof.
  intros Hw Hn. pose proof (Z.mod_pos_bound n 32 ltac:(lia)). set (r := n mod 32) in *.
  replace 32 with (r + (32 - r)) by lia. rewrite popcount_add by lia.
  rewrite (popcount_ext r _ w), (popcount_ext (32 - r) _ 0).
  - replace (popcount (32 - r) 0) with 0; [lia|]. unfold popcount.
    rewrite (elem_of_nil_inv (filter _ _)); [done|].
    intros x. rewrite list_elem_of_filter, Z.testbit_0_l. naive_solver.
  - intros i Hi. rewrite Z.shiftr_spec, Z.land_spec, last_mask_testbit, Z.testbit_0_l by lia.
    by rewrite bool_decide_eq_false_2, andb_false_r by lia.
  - intros i Hi. rewrite Z.land_spec, last_mask_testbit, bool_decide_eq_true_2 by lia. apply andb_true_r.
Qed.

Lemma positions_length l k : Z.of_nat (length (positions l k)) <= Z.max 0 k.
Proof.
  pose proof (length_filter (fun i => tb l i = true) (seqZ 0 k)) as H.
  rewrite length_seqZ in H. unfold positions. lia.
Qed.
Lemma size_bits_of l n : size (bits_of l n) = length (positions l n).
Proof. unfold bits_of. by rewrite size_list_to_set by apply positions_NoDup. Qed.

Lemma bitmap_weight_spec m p l n : holds m p l n -> n < 2 ^ 31 ->
  __bitmap_weight p n m = Ok (Z.of_nat (size (bits_of l n)), m).
Proof.
  intros [Hp Hb] H31. destruct (bitmap_words l n Hb) as (Hl & Hl' & Hk0 & En & Hm & _). pose proof Hb as (_ & Hn & Hbig).
  rewrite size_bits_of. unfold __bitmap_weight, BITS_PER_LONG, hweight_long.
  destruct (for_up_inv (fun j w m' => m' = m /\ w = Z.of_nat (length (positions l (32 * Z.of_nat j))))
    (Z.to_nat (n / 32)) 0 0 (fun k w => x ← rd p k; mret (w +i __sw_hweight32 x)%cint) m) as (w & m' & E & -> & ->).
  - done.
  - intros j w m' Hj [-> ->]. rewrite Z.add_0_l. rewrite (Mbind_run _ _ _ _ _ (rd_run m p l (Z.of_nat j) Hp ltac:(lia))).
    eexists _, _. split; [done|]. split; [done|].
    rewrite hweight32_popcount by (eapply word_range; [done|lia]).
    replace (32 * Z.of_nat (S j)) with (32 * Z.of_nat j + 32) by lia.
    rewrite positions_split, length_app, Nat2Z.inj_add, count_word by lia.
    pose proof (positions_length l (32 * Z.of_nat j)).
    pose proof (popcount_range 32 (l !!! Z.to_nat (Z.of_nat j)) ltac:(lia)).
    apply i32_small. lia.
  - rewrite (Mbind_run _ _ _ _ _ E). rewrite Z2Nat.id by done.
    destruct (Z.eqb_spec (n mod 32) 0) as [Hz|Hz]; cbn [negb].
    + replace (32 * (n / 32)) with n by lia. done.
    + specialize (Hl' Hz). rewrite (Mbind_run _ _ _ _ _ (rd_run m p l (n / 32) Hp ltac:(lia))).
      unfold mret, M_ret. do 2 f_equal.
      assert (is_u 32 (l !!! Z.to_nat (n / 32))) as Hw by (eapply word_range; [done|lia]).
      rewrite hweight32_popcount, popcount_last by auto. rewrite En at 4.
      rewrite positions_split, length_app, Nat2Z.inj_add, count_word by lia.
      pose proof (positions_length l (32 * (n / 32))).
      pose proof (popcount_range (n mod 32) (l !!! Z.to_nat (n / 32)) ltac:(lia)).
      apply i32_small. lia.
Qed.

(** ** Operations that write a bitmap *)

(** After an operation the object at [dst] holds the set [X] in its first [n]
    bits; nothing else changed but, possibly, the unused bits of the last word. *)
Definition writes_set (m : mem) (dst : Z) (dl : list Z) (n : Z) (X : gset Z) (m' : mem) : Prop :=
  exists dl', m' = <[dst := dl']> m /\ bitmap dl' n /\ length dl' = length dl /\ bits_of dl' n = X /\
    forall i, 32 * BITS_TO_LONGS n <= i < 32 * Z.of_nat (length dl) -> tb dl' i = tb dl i.

(** The numbers below [n]. *)
Definition below (n : Z) : gset Z := list_to_set (seqZ 0 n).
Lemma elem_below n i : i ∈ below n <-> 0 <= i < n.
Proof. unfold below. rewrite elem_of_list_to_set, elem_of_seqZ. lia. Qed.

Lemma word_of_bit l n i : bitmap l n -> 0 <= i < n -> 0 <= i / 32 < BITS_TO_LONGS n.
Proof.
  intros Hb Hi. destruct (bitmap_words l n Hb) as (_ & _ & Hk0 & En & Hm & ->). destruct (word_split i).
  assert (0 <= i / 32) by (apply Z.div_pos; lia). case_decide; lia.
Qed.

Lemma upd_bitmap lo hi F l n : bitmap l n -> (forall k, lo <= k < hi -> is_u 32 (F k)) -> bitmap (upd lo hi F l) n.
Proof.
  intros (Hf & Hn) HF. split; [|by rewrite upd_length]. apply Forall_lookup_2. intros k x.
  unfold upd. rewrite list_lookup_imap. destruct (l !! k) as [y|] eqn:E; [|done]. cbn. intros [= <-].
  case_decide; [by apply HF|]. by eapply Forall_lookup_1.
Qed.

Lemma writes_upd m dst dl n F X :
  holds m dst dl n -> (forall k, 0 <= k < BITS_TO_LONGS n -> is_u 32 (F k)) -> X ⊆ below n ->
  (forall i, 0 <= i < n -> Z.testbit (F (i / 32)) (i mod 32) = bool_decide (i ∈ X)) ->
  writes_set m dst dl n X (<[dst := upd 0 (BITS_TO_LONGS n) F dl]> m).
Proof.
  intros [Hd Hb] HF Hsub HX. destruct (bitmap_words dl n Hb) as (Hl & Hl' & Hk0 & En & Hm & Enr).
  pose proof Hb as (_ & Hn & _). exists (upd 0 (BITS_TO_LONGS n) F dl).
  split_and!; [done|by apply upd_bitmap|apply upd_length| |].
  - apply set_eq. intros i. rewrite elem_bits_of. split.
    + intros [Hi Ht]. pose proof (word_of_bit dl n i Hb Hi).
      rewrite upd_tb, decide_True, HX in Ht by lia. by apply bool_decide_eq_true_1 in Ht.
    + intros HiX. apply Hsub in HiX as Hi. apply elem_below in Hi. split; [done|].
      pose proof (word_of_bit dl n i Hb Hi). rewrite upd_tb, decide_True, HX by lia. by apply bool_decide_eq_true_2.
  - intros i Hi. assert (0 <= BITS_TO_LONGS n) by (rewrite Enr; case_decide; lia).
    rewrite upd_tb by lia. rewrite decide_False; [done|]. intros [_ Hlt].
    destruct (word_split i). lia.
Qed.

(** The element-wise loops: [f] of the words of the sources, and the "or" of
    what was written. *)
Section elementwise.
Variables (m : mem) (dst p q : Z) (dl la lb : list Z) (n : Z) (f : Z -> Z -> Z).
Hypotheses (Hd : holds m dst dl n) (Hp : holds m p la n) (Hq : holds m q lb n).
Hypothesis f_range : forall a b, is_u 32 a -> is_u 32 b -> is_u 32 (f a b).
Let F (k : Z) : Z := f (la !!! Z.to_nat k) (lb !!! Z.to_nat k).

Lemma words_le k : k <= BITS_TO_LONGS n ->
  k <= Z.of_nat (length dl) /\ k <= Z.of_nat (length la) /\ k <= Z.of_nat (length lb).
Proof.
  destruct Hd as [_ H1], Hp as [_ H2], Hq as [_ H3].
  destruct (bitmap_words dl n H1) as (?&?&?&?&?&E1). destruct (bitmap_words la n H2) as (?&?&?&?&?&E2).
  destruct (bitmap_words lb n H3) as (?&?&?&?&?&E3). rewrite E1. case_decide; lia.
Qed.

Lemma F_range k : 0 <= k < BITS_TO_LONGS n -> is_u 32 (F k).
Proof.
  intros Hk. destruct (words_le (k + 1)) as (? & ? & ?); [lia|]. destruct Hp as [_ H2], Hq as [_ H3].
  apply f_range; (eapply word_range; [done|lia]).
Qed.

Lemma elementwise_loop k : 0 <= k <= BITS_TO_LONGS n ->
  for_up (Z.to_nat k) 0 tt (fun k _ => a ← rd p k; b ← rd q k; wr dst k (f a b)) m =
    Ok (tt, <[dst := upd 0 k F dl]> m).
Proof.
  intros Hk. destruct (for_up_inv (fun j (_ : unit) m' => m' = <[dst := upd 0 (Z.of_nat j) F dl]> m)
    (Z.to_nat k) 0 tt (fun k _ => a ← rd p k; b ← rd q k; wr dst k (f a b)) m) as ([] & m' & E & ->).
  - symmetry. apply upd_start. apply Hd.
  - intros j [] m' Hj ->. exists tt, (<[dst := upd 0 (Z.of_nat j + 1) F dl]> m).
    rewrite Z.add_0_l. split; [|by replace (Z.of_nat (S j)) with (Z.of_nat j + 1) by lia].
    destruct (words_le (Z.of_nat j + 1)) as (? & ? & ?); [lia|]. destruct Hd as [Md _], Hp as [Mp _], Hq as [Mq _].
    rewrite (Mbind_run _ _ _ _ _ (rd_upd m dst dl 0 (Z.of_nat j) F p la (Z.of_nat j) Md Mp ltac:(lia) ltac:(lia))).
    rewrite (Mbind_run _ _ _ _ _ (rd_upd m dst dl 0 (Z.of_nat j) F q lb (Z.of_nat j) Md Mq ltac:(lia) ltac:(lia))).
    apply wr_upd_up; done || lia.
  - rewrite E. by rewrite Z2Nat.id by lia.
Qed.

Lemma elementwise_result k : 0 <= k <= BITS_TO_LONGS n ->
  exists r, for_up (Z.to_nat k) 0 0 (fun k result =>
      a ← rd p k; b ← rd q k; wr dst k (f a b);; mret (Z.lor result (f a b))) m =
    Ok (r, <[dst := upd 0 k F dl]> m) /\ (r = 0 <-> forall j, 0 <= j < k -> F j = 0).
Proof.
  intros Hk. destruct (for_up_inv (fun j r m' => m' = <[dst := upd 0 (Z.of_nat j) F dl]> m /\
      (r = 0 <-> forall i, 0 <= i < Z.of_nat j -> F i = 0))
    (Z.to_nat k) 0 0 (fun k result => a ← rd p k; b ← rd q k; wr dst k (f a b);; mret (Z.lor result (f a b))) m)
    as (r & m' & E & -> & Hr).
  - split; [symmetry; apply upd_start, Hd|]. split; [|done]. intros _ i Hi. lia.
  - intros j r m' Hj [-> Hr]. rewrite Z.add_0_l. set (jz := Z.of_nat j) in *.
    exists (Z.lor r (F jz)), (<[dst := upd 0 (jz + 1) F dl]> m).
    destruct (words_le (jz + 1)) as (? & ? & ?); [lia|]. destruct Hd as [Md _], Hp as [Mp _], Hq as [Mq _].
    split; [|split; [by replace (Z.of_nat (S j)) with (jz + 1) by lia|]].
    + rewrite (Mbind_run _ _ _ _ _ (rd_upd m dst dl 0 jz F p la jz Md Mp ltac:(lia) ltac:(lia))).
      rewrite (Mbind_run _ _ _ _ _ (rd_upd m dst dl 0 jz F q lb jz Md Mq ltac:(lia) ltac:(lia))).
      by rewrite (Mbind_run _ _ _ _ _ (wr_upd_up m dst dl 0 jz F _ Md ltac:(lia) ltac:(lia) eq_refl)).
    + rewrite Z.lor_eq_0_iff, Hr. split.
      * intros [Hlow Hj0] i Hi. destruct (decide (i = jz)) as [->|]; [done|]. apply Hlow. lia.
      * intros Hall. split; [intros i Hi|]; apply Hall; lia.
  - exists r. rewrite E. rewrite Z2Nat.id in * by lia. done.
Qed.
End elementwise.

(** ** The set operations *)

Section operations.
Variables (m : mem) (dst p q : Z) (dl la lb : list Z) (n : Z).
Hypotheses (Hd : holds m dst dl n) (Hp : holds m p la n) (Hq : holds m q lb n).

Lemma nwords_le : 0 <= BITS_TO_LONGS n /\ BITS_TO_LONGS n <= Z.of_nat (length dl) /\
  BITS_TO_LONGS n <= Z.of_nat (length la) /\ BITS_TO_LONGS n <= Z.of_nat (length lb).
Proof.
  destruct (words_le m dst p q dl la lb n Hd Hp Hq (BITS_TO_LONGS n)) as (? & ? & ?); [lia|].
  destruct Hd as [_ Hb]. destruct (bitmap_words dl n Hb) as (_ & _ & ? & _ & _ & E). split; [|lia].
  rewrite E. case_decide; lia.
Qed.

Lemma tb_at l i : tb l i = Z.testbit (l !!! Z.to_nat (i / 32)) (i mod 32).
Proof. done. Qed.

(** A whole-word loop that combines bits by [c] writes a set. *)
Lemma elementwise_set f (c : bool -> bool -> bool) X :
  (forall a b, is_u 32 a -> is_u 32 b -> is_u 32 (f a b)) ->
  (forall a b j, 0 <= j < 32 -> Z.testbit (f a b) j = c (Z.testbit a j) (Z.testbit b j)) ->
  X ⊆ below n -> (forall i, 0 <= i < n -> c (tb la i) (tb lb i) = bool_decide (i ∈ X)) ->
  exists m', for_up (Z.to_nat (BITS_TO_LONGS n)) 0 tt (fun k _ => a ← rd p k; b ← rd q k; wr dst k (f a b)) m =
    Ok (tt, m') /\ writes_set m dst dl n X m'.
Proof.
  intros Hf Hc Hsub HX. destruct nwords_le as (? & _).
  eexists. split; [by apply (elementwise_loop m dst p q dl la lb n f Hd Hp Hq); [lia]|].
  apply writes_upd; [done| |done|].
  - by apply (F_range m dst p q dl la lb n).
  - intros i Hi. destruct (word_split i). rewrite Hc by lia. rewrite <- HX, !tb_at by done. done.
Qed.

Lemma bitmap_or_spec : exists m', __bitmap_or dst p q n m = Ok (tt, m') /\
  writes_set m dst dl n (bits_of la n ∪ bits_of lb n) m'.
Proof.
  apply (elementwise_set Z.lor orb); [auto|intros; apply Z.lor_spec| |].
  - intros i. rewrite elem_of_union, !elem_bits_of, elem_below. tauto.
  - intros i Hi. rewrite !(tb_spec _ n) by done. rewrite <- bool_decide_or.
    apply bool_decide_ext. by rewrite elem_of_union.
Qed.

Lemma bitmap_xor_spec : exists m', __bitmap_xor dst p q n m = Ok (tt, m') /\
  writes_set m dst dl n ((bits_of la n ∖ bits_of lb n) ∪ (bits_of lb n ∖ bits_of la n)) m'.
Proof.
  apply (elementwise_set Z.lxor xorb); [auto|intros; apply Z.lxor_spec| |].
  - intros i. rewrite elem_of_union, !elem_of_difference, !elem_bits_of, elem_below. tauto.
  - intros i Hi. rewrite !(tb_spec _ n) by done. repeat case_bool_decide; cbn; set_solver.
Qed.

(** The words of a set: all zero when it is empty. *)
Lemma words_empty (G : Z -> Z) X :
  X ⊆ below n -> (forall j, 0 <= j < BITS_TO_LONGS n -> is_u 32 (G j)) ->
  (forall i, 0 <= i < 32 * BITS_TO_LONGS n -> Z.testbit (G (i / 32)) (i mod 32) = bool_decide (i ∈ X)) ->
  X = ∅ <-> forall j, 0 <= j < BITS_TO_LONGS n -> G j = 0.
Proof.
  intros Hsub HG HX. split.
  - intros HX0 j Hj. apply word_eq; [by apply HG|done|]. intros i Hi. rewrite Z.testbit_0_l.
    specialize (HX (32 * j + i) ltac:(lia)). rewrite (Z.mul_comm 32), Z.div_add_l, Z.div_small, Z.add_0_r in HX by lia.
    rewrite Z.add_comm, Z.mod_add, Z.mod_small in HX by lia. rewrite HX. apply bool_decide_eq_false_2. set_solver.
  - intros Hz. apply set_eq. intros i. split; [|set_solver]. intros Hi. apply Hsub in Hi as Hb.
    apply elem_below in Hb. pose proof (word_of_bit dl n i (proj2 Hd) Hb) as Hw. destruct (word_split i).
    specialize (HX i ltac:(lia)). rewrite Hz, Z.testbit_0_l in HX by done. by rewrite bool_decide_eq_true_2 in HX.
Qed.

(** [F] word by word, the last word, if only part of it is used, under the mask. *)
Definition masked_words (F : Z -> Z) (j : Z) : Z :=
  if decide (j = n / 32 /\ n mod 32 <> 0) then Z.land (F j) (BITMAP_LAST_WORD_MASK n) else F j.

Lemma masked_low F j : j < n / 32 -> masked_words F j = F j.
Proof. intros Hj. unfold masked_words. by rewrite decide_False by lia. Qed.

Lemma masked_words_bits F X :
  (forall j, 0 <= j < BITS_TO_LONGS n -> is_u 32 (F j)) -> X ⊆ below n ->
  (forall i, 0 <= i < n -> Z.testbit (F (i / 32)) (i mod 32) = bool_decide (i ∈ X)) ->
  (forall j, 0 <= j < BITS_TO_LONGS n -> is_u 32 (masked_words F j)) /\
  forall i, 0 <= i < 32 * BITS_TO_LONGS n -> Z.testbit (masked_words F (i / 32)) (i mod 32) = bool_decide (i ∈ X).
Proof.
  intros HF Hsub HX. destruct (bitmap_words dl n (proj2 Hd)) as (_ & _ & Hk0 & En & Hm & Enr).
  split; unfold masked_words; [intros j Hj; destruct (decide (j = n / 32 /\ _)); auto|]. intros i Hi. destruct (word_split i) as [Ei Hi'].
  destruct (decide (i / 32 = n / 32 /\ n mod 32 <> 0)) as [[Ek Hz]|Hno].
  - rewrite Z.land_spec, last_mask_testbit by lia. destruct (decide (i < n)) as [Hlt|Hge].
    + rewrite bool_decide_eq_true_2, andb_true_r by lia. apply HX. lia.
    + rewrite bool_decide_eq_false_2, andb_false_r by lia. symmetry. apply bool_decide_eq_false_2.
      intros Hin. apply Hsub, elem_below in Hin. lia.
  - apply HX. rewrite Enr in Hi. destruct (decide (n mod 32 = 0)); lia.
Qed.

(** The same with a masked last word and the "or" of the words returned. *)
Lemma elementwise_masked f (c : bool -> bool -> bool) X :
  (forall a b, is_u 32 a -> is_u 32 b -> is_u 32 (f a b)) ->
  (forall a b j, 0 <= j < 32 -> Z.testbit (f a b) j = c (Z.testbit a j) (Z.testbit b j)) ->
  X ⊆ below n -> (forall i, 0 <= i < n -> c (tb la i) (tb lb i) = bool_decide (i ∈ X)) ->
  exists m', (result ← for_up (Z.to_nat (n / BITS_PER_LONG)) 0 0 (fun k result =>
      a ← rd p k; b ← rd q k; wr dst k (f a b);; mret (Z.lor result (f a b)));
    result ← (if negb (n mod BITS_PER_LONG =? 0) then
      a ← rd p (n / BITS_PER_LONG); b ← rd q (n / BITS_PER_LONG);
      let v := Z.land (f a b) (BITMAP_LAST_WORD_MASK n) in
      wr dst (n / BITS_PER_LONG) v;; mret (Z.lor result v) else mret result);
    mret (if negb (result =? 0) then 1 else 0)) m =
    Ok (if decide (X = ∅) then 0 else 1, m') /\ writes_set m dst dl n X m'.
Proof.
  intros Hf Hc Hsub HX. destruct nwords_le as (Hnw & Hnd & Hna & Hnb). unfold BITS_PER_LONG.
  destruct (bitmap_words dl n (proj2 Hd)) as (_ & _ & Hk0 & En & Hm & Enr).
  set (F k := f (la !!! Z.to_nat k) (lb !!! Z.to_nat k)).
  assert (n / 32 <= BITS_TO_LONGS n) as Hkn by (rewrite Enr; destruct (decide _); lia).
  destruct (elementwise_result m dst p q dl la lb n f Hd Hp Hq (n / 32)) as (r & E & Hr); [lia|].
  rewrite (Mbind_run _ _ _ _ _ E). fold F in Hr |- *.
  destruct (masked_words_bits F X) as [HG HGX]; [by apply (F_range m dst p q dl la lb n)|done| |].
  { intros i Hi. destruct (word_split i). rewrite <- HX by done. unfold F. by rewrite Hc, !tb_at. }
  set (G := masked_words F) in *.
  rewrite (upd_ext 0 (n / 32) F G) by (intros j Hj; symmetry; apply masked_low; lia).
  assert (writes_set m dst dl n X (<[dst := upd 0 (BITS_TO_LONGS n) G dl]> m)) as Hw.
  { apply writes_upd; [done..|]. intros i Hi. apply HGX. pose proof (word_of_bit dl n i (proj2 Hd) Hi).
    destruct (word_split i). lia. }
  pose proof (words_empty G X Hsub HG HGX) as Hempty.
  assert (r = 0 <-> forall j, 0 <= j < n / 32 -> G j = 0) as Hr'.
  { rewrite Hr. split; intros Hj j Hjj; specialize (Hj j Hjj); revert Hj; unfold G; by rewrite masked_low by lia. }
  clear Hr. destruct (Z.eqb_spec (n mod 32) 0) as [Hz|Hz]; cbn [negb].
  - assert (BITS_TO_LONGS n = n / 32) as Ek by (rewrite Enr, decide_True by done; lia). rewrite Ek in Hw, Hempty.
    rewrite Mbind_ret. eexists. split; [|exact Hw]. unfold mret, M_ret. do 2 f_equal.
    destruct (Z.eqb_spec r 0); cbn [negb]; destruct (decide (X = ∅)); tauto.
  - assert (BITS_TO_LONGS n = n / 32 + 1) as Ek by (rewrite Enr, decide_False by done; lia). rewrite Ek in *.
    assert (G (n / 32) = Z.land (F (n / 32)) (BITMAP_LAST_WORD_MASK n)) as Gk
      by (unfold G, masked_words; by rewrite decide_True).
    destruct Hd as [Md _], Hp as [Mp _], Hq as [Mq _].
    rewrite Mbind_assoc, (Mbind_run _ _ _ _ _ (rd_upd m dst dl 0 (n / 32) G p la (n / 32) Md Mp ltac:(lia) ltac:(lia))).
    rewrite Mbind_assoc, (Mbind_run _ _ _ _ _ (rd_upd m dst dl 0 (n / 32) G q lb (n / 32) Md Mq ltac:(lia) ltac:(lia))).
    rewrite Mbind_assoc. fold (F (n / 32)). rewrite <- Gk.
    rewrite (Mbind_run _ _ _ _ _ (wr_upd_up m dst dl 0 (n / 32) G _ Md ltac:(lia) ltac:(lia) eq_refl)).
    rewrite Mbind_ret. eexists. split; [|exact Hw]. unfold mret, M_ret. do 2 f_equal.
    assert (Z.lor r (G (n / 32)) = 0 <-> X = ∅) as Hrx.
    { rewrite Z.lor_eq_0_iff, Hr', Hempty. split; [|intros Hall; split; [intros j Hj|]; apply Hall; lia].
      intros [Hlow Hj0] j Hj. destruct (decide (j = n / 32)) as [->|]; [done|apply Hlow; lia]. }
    destruct (Z.eqb_spec (Z.lor r (G (n / 32))) 0); cbn [negb]; destruct (decide (X = ∅)); tauto.
Qed.

Lemma bitmap_and_spec : exists m', __bitmap_and dst p q n m =
    Ok (if decide (bits_of la n ∩ bits_of lb n = ∅) then 0 else 1, m') /\
  writes_set m dst dl n (bits_of la n ∩ bits_of lb n) m'.
Proof.
  apply (elementwise_masked Z.land andb); [auto|intros; apply Z.land_spec| |].
  - intros i. rewrite elem_of_intersection, !elem_bits_of, elem_below. tauto.
  - intros i Hi. rewrite !(tb_spec _ n) by done. repeat case_bool_decide; cbn; set_solver.
Qed.

Lemma bitmap_andnot_spec : exists m', __bitmap_andnot dst p q n m =
    Ok (if decide (bits_of la n ∖ bits_of lb n = ∅) then 0 else 1, m') /\
  writes_set m dst dl n (bits_of la n ∖ bits_of lb n) m'.
Proof.
  apply (elementwise_masked (fun a b => Z.land a (not32 b)) (fun a b => a && negb b)); [auto| | |].
  - intros a b j Hj. by rewrite Z.land_spec, not32_testbit.
  - intros i. rewrite elem_of_difference, !elem_bits_of, elem_below. tauto.
  - intros i Hi. rewrite !(tb_spec _ n) by done. repeat case_bool_decide; cbn; set_solver.
Qed.

(** Two whole-word loops of one source are the loop of two with the source twice. *)
Lemma bitmap_complement_spec : exists m', __bitmap_complement dst p n m = Ok (tt, m') /\
  writes_set m dst dl n (below n ∖ bits_of la n) m'.
Proof.
  destruct nwords_le as (Hnw & Hnd & Hna & _). unfold __bitmap_complement, BITS_PER_LONG.
  destruct (bitmap_words dl n (proj2 Hd)) as (_ & _ & Hk0 & En & Hm & Enr).
  set (F k := not32 (la !!! Z.to_nat k)). destruct Hd as [Md Hbd], Hp as [Mp Hbp].
  assert (n / 32 <= BITS_TO_LONGS n) as Hkn by (rewrite Enr; destruct (decide _); lia).
  destruct (for_up_inv (fun j (_ : unit) m' => m' = <[dst := upd 0 (Z.of_nat j) F dl]> m)
    (Z.to_nat (n / 32)) 0 tt (fun k _ => a ← rd p k; wr dst k (not32 a)) m) as ([] & m' & E & ->).
  - symmetry. by apply upd_start.
  - intros j [] m' Hj ->. rewrite Z.add_0_l. exists tt, (<[dst := upd 0 (Z.of_nat j + 1) F dl]> m).
    split; [|by replace (Z.of_nat (S j)) with (Z.of_nat j + 1) by lia].
    rewrite (Mbind_run _ _ _ _ _ (rd_upd m dst dl 0 (Z.of_nat j) F p la (Z.of_nat j) Md Mp ltac:(lia) ltac:(lia))).
    by apply wr_upd_up; [|lia|lia|].
  - rewrite (Mbind_run _ _ _ _ _ E), Z2Nat.id by done.
    assert (writes_set m dst dl n (below n ∖ bits_of la n) (<[dst := upd 0 (BITS_TO_LONGS n) F dl]> m)) as Hw.
    { apply writes_upd; [done|intros; apply not32_range|set_solver|]. intros i Hi. destruct (word_split i).
      unfold F. rewrite not32_testbit, <- tb_at, (tb_spec _ n) by (done || lia). rewrite <- bool_decide_not.
      apply bool_decide_ext. rewrite elem_of_difference, elem_below. tauto. }
    destruct (Z.eqb_spec (n mod 32) 0) as [Hz|Hz]; cbn [negb].
    + assert (BITS_TO_LONGS n = n / 32) as Ek by (rewrite Enr, decide_True by done; lia). rewrite Ek in Hw.
      eexists. by split; [|exact Hw].
    + assert (BITS_TO_LONGS n = n / 32 + 1) as Ek by (rewrite Enr, decide_False by done; lia). rewrite Ek in *.
      rewrite (Mbind_run _ _ _ _ _ (rd_upd m dst dl 0 (n / 32) F p la (n / 32) Md Mp ltac:(lia) ltac:(lia))).
      eexists. split; [by apply wr_upd_up; [|lia|lia|]|exact Hw].
Qed.

Lemma bitmap_zero_spec : exists m', bitmap_zero dst n m = Ok (tt, m') /\ writes_set m dst dl n ∅ m'.
Proof.
  destruct nwords_le as (Hnw & Hnd & _). unfold bitmap_zero. destruct Hd as [Md Hbd].
  destruct (for_up_inv (fun j (_ : unit) m' => m' = <[dst := upd 0 (Z.of_nat j) (fun _ => 0) dl]> m)
    (Z.to_nat (BITS_TO_LONGS n)) 0 tt (fun k _ => wr dst k 0) m) as ([] & m' & E & ->).
  - symmetry. by apply upd_start.
  - intros j [] m' Hj ->. rewrite Z.add_0_l. exists tt, (<[dst := upd 0 (Z.of_nat j + 1) (fun _ => 0) dl]> m).
    split; [|by replace (Z.of_nat (S j)) with (Z.of_nat j + 1) by lia]. by apply wr_upd_up; [|lia|lia|].
  - rewrite Z2Nat.id in E by lia. eexists. split; [exact E|].
    apply writes_upd; [done|done|set_solver|]. intros i Hi. rewrite Z.testbit_0_l.
    symmetry. apply bool_decide_eq_false_2. set_solver.
Qed.
End operations.

(** ** Shifts *)

Lemma clear_words_run m p l k n : m !! p = Some l -> 0 <= k -> 0 <= n -> k + n <= Z.of_nat (length l) ->
  clear_words p k n m = Ok (tt, <[p := upd k (k + n) (fun _ => 0) l]> m).
Proof.
  intros Hp Hk Hn Hl. unfold clear_words.
  destruct (for_up_inv (fun j (_ : unit) m' => m' = <[p := upd k (k + Z.of_nat j) (fun _ => 0) l]> m)
    (Z.to_nat n) k tt (fun i _ => wr p i 0) m) as ([] & m' & E & ->).
  - rewrite Z.add_0_r. symmetry. by apply upd_start.
  - intros j [] m' Hj ->. exists tt, (<[p := upd k (k + Z.of_nat j + 1) (fun _ => 0) l]> m).
    split; [by apply wr_upd_up; [|lia|lia|]|]. by replace (k + Z.of_nat (S j)) with (k + Z.of_nat j + 1) by lia.
  - rewrite Z2Nat.id in E by done. exact E.
Qed.

(** Clearing after a partial write. *)
Lemma upd_upd lo1 hi1 F1 lo2 hi2 F2 l lo hi :
  (forall k, lo <= k < hi <-> lo1 <= k < hi1 \/ lo2 <= k < hi2) ->
  upd lo2 hi2 F2 (upd lo1 hi1 F1 l) = upd lo hi (fun k => if decide (lo2 <= k < hi2) then F2 k else F1 k) l.
Proof.
  intros Hr. apply words_eq; [by rewrite !upd_length|]. rewrite !upd_length. intros k Hk.
  rewrite !upd_lookup by (rewrite ?upd_length; done). specialize (Hr k).
  repeat destruct (decide _); tauto || done.
Qed.

Section shifts.
Variables (m : mem) (dst p : Z) (dl la : list Z) (n shift : Z).
Hypotheses (Hd : holds m dst dl n) (Hp : holds m p la n) (Hs : 0 <= shift <= n).
Let lim := BITS_TO_LONGS n.
Let off := shift / 32.
Let rem := shift mod 32.

Lemma shift_facts : 0 <= off <= lim /\ 0 <= rem < 32 /\ shift = 32 * off + rem /\
  lim <= Z.of_nat (length dl) /\ lim <= Z.of_nat (length la) /\ 32 * lim - 32 < n <= 32 * lim.
Proof.
  destruct (nwords_le m dst p p dl la la n Hd Hp Hp) as (H0 & H1 & H2 & _).
  destruct (bitmap_words dl n (proj2 Hd)) as (_ & _ & Hk0 & En & Hm & Enr).
  destruct (word_split shift) as [Es Hr]. unfold off, rem, lim in *.
  assert (shift / 32 <= n / 32) by (apply Z.div_le_mono; lia).
  assert (0 <= shift / 32) by (apply Z.div_pos; lia).
  rewrite Enr in *. destruct (decide _); lia.
Qed.

(** Bit [x] of the source, none beyond [n]. *)
Definition src_bit (x : Z) : bool := bool_decide (x ∈ bits_of la n).

Lemma src_bit_tb x : 0 <= x < n -> tb la x = src_bit x.
Proof. apply tb_spec. Qed.
Lemma src_bit_out x : ~ 0 <= x < n -> src_bit x = false.
Proof. intros Hx. apply bool_decide_eq_false_2. rewrite elem_bits_of. tauto. Qed.

Definition masked_word (j : Z) : Z :=
  if j =? lim - 1 then Z.land (la !!! Z.to_nat j) (BITMAP_LAST_WORD_MASK n) else la !!! Z.to_nat j.

Lemma masked_word_spec j b : 0 <= j < lim -> 0 <= b < 32 ->
  is_u 32 (masked_word j) /\ Z.testbit (masked_word j) b = src_bit (32 * j + b).
Proof.
  intros Hj Hb. destruct shift_facts as (_ & _ & _ & _ & Hla & Hn). pose proof (word_split n) as [En Hm].
  assert (is_u 32 (la !!! Z.to_nat j)) as Hw by (eapply word_range; [apply Hp|lia]).
  unfold masked_word. split; [destruct (_ =? _); auto|]. destruct (Z.eqb_spec j (lim - 1)) as [->|Hne].
  - rewrite Z.land_spec, last_mask_testbit, <- tb_word by lia. destruct (decide (32 * (lim - 1) + b < n)).
    + rewrite bool_decide_eq_true_2, andb_true_r by lia. apply src_bit_tb. lia.
    + rewrite bool_decide_eq_false_2, andb_false_r by lia. symmetry. apply src_bit_out. lia.
  - rewrite <- tb_word by lia. apply src_bit_tb. lia.
Qed.

(** A word put together from two neighbours, shifted right by [rem]. *)
Definition right_word (k : Z) : Z :=
  Z.lor (Z.shiftr (masked_word (off + k)) rem)
    (if (rem =? 0) || (lim <=? off + k + 1) then 0
     else u32 (Z.shiftl (masked_word (off + k + 1)) (32 - rem))).

Lemma shiftr_word w s : 0 <= s -> is_u 32 w -> is_u 32 (Z.shiftr w s).
Proof.
  intros Hs0 Hw. unfold is_u in *. rewrite Z.shiftr_div_pow2 by done. pose proof (pow2_pos s Hs0).
  split; [apply Z.div_pos; lia|]. apply Z.div_lt_upper_bound; nia.
Qed.

Lemma right_word_spec k b : 0 <= k < lim - off -> 0 <= b < 32 ->
  is_u 32 (right_word k) /\ Z.testbit (right_word k) b = src_bit (32 * k + b + shift).
Proof.
  intros Hk Hb. destruct shift_facts as (Ho & Hr & Es & _ & _ & Hn).
  destruct (masked_word_spec (off + k) 0) as [Hw _]; [lia|lia|].
  unfold right_word. split.
  { apply lor_word; [by apply shiftr_word; [lia|]|]. destruct (_ || _); [done|]. apply (wrapu_range 32). lia. }
  rewrite Z.lor_spec, Z.shiftr_spec by lia.
  assert (Z.testbit (masked_word (off + k)) (b + rem) =
    if decide (b + rem < 32) then src_bit (32 * k + b + shift) else false) as ->.
  { case_decide.
    - destruct (masked_word_spec (off + k) (b + rem)) as [_ ->]; [lia|lia|]. f_equal. lia.
    - apply (testbit_high 32); [lia|done|lia]. }
  destruct (Z.eqb_spec rem 0) as [Hz|Hz]; cbn [orb].
  { rewrite decide_True, Z.testbit_0_l, orb_false_r by lia. done. }
  destruct (Z.leb_spec lim (off + k + 1)).
  - rewrite Z.testbit_0_l, orb_false_r. case_decide; [done|]. symmetry. apply src_bit_out. lia.
  - rewrite u32_testbit, Z.shiftl_spec by lia. case_decide.
    + rewrite Z.testbit_neg_r by lia. by rewrite orb_false_r.
    + destruct (masked_word_spec (off + k + 1) (b - (32 - rem))) as [_ ->]; [lia|lia|]. cbn. f_equal. lia.
Qed.

Definition shifted_right : gset Z := filter (fun i => i + shift ∈ bits_of la n) (below n).

Lemma bitmap_shift_right_spec : exists m', __bitmap_shift_right dst p shift n m = Ok (tt, m') /\
  writes_set m dst dl n shifted_right m'.
Proof.
  destruct shift_facts as (Ho & Hr & Es & Hdl & Hla & Hn). unfold __bitmap_shift_right, BITS_PER_LONG.
  fold lim off rem. pose proof (proj1 Hd) as Md. pose proof (proj1 Hp) as Mp.
  match goal with |- context [for_up _ 0 tt ?body] =>
    destruct (for_up_inv (fun j (_ : unit) m' => m' = <[dst := upd 0 (Z.of_nat j) right_word dl]> m)
      (Z.to_nat (lim - off)) 0 tt body m) as ([] & m' & E & ->) end.
  - symmetry. by apply upd_start.
  - intros j [] m' Hj ->. rewrite Z.add_0_l. set (k := Z.of_nat j).
    exists tt, (<[dst := upd 0 (k + 1) right_word dl]> m).
    split; [|by replace (Z.of_nat (S j)) with (k + 1) by lia].
    assert (forall x, off + k <= x < lim ->
      rd p x (<[dst := upd 0 k right_word dl]> m) = Ok (la !!! Z.to_nat x, <[dst := upd 0 k right_word dl]> m)) as Hrd.
    { intros x Hx. apply rd_upd; done || lia. }
    erewrite Mbind_run.
    2: { instantiate (2 := if (rem =? 0) || (lim <=? off + k + 1) then 0
                           else u32 (Z.shiftl (masked_word (off + k + 1)) (32 - rem))).
         destruct (Z.eqb_spec rem 0); cbn [orb]; [done|]. destruct (Z.leb_spec lim (off + k + 1)); [done|].
         by rewrite (Mbind_run _ _ _ _ _ (Hrd (off + k + 1) ltac:(lia))). }
    rewrite (Mbind_run _ _ _ _ _ (Hrd (off + k) ltac:(lia))).
    by apply wr_upd_up; [|lia|lia|].
  - rewrite (Mbind_run _ _ _ _ _ E). clear E. rewrite Z2Nat.id by lia.
    set (G k := if decide (lim - off <= k < lim) then 0 else right_word k).
    assert (writes_set m dst dl n shifted_right (<[dst := upd 0 lim G dl]> m)) as Hw.
    { apply writes_upd; [done| | |].
      - intros k Hk. unfold G. fold lim in Hk. destruct (decide _); [done|].
        destruct (right_word_spec k 0) as [? _]; [lia|lia|done].
      - intros i. unfold shifted_right. rewrite elem_of_filter. tauto.
      - intros i Hi. destruct (word_split i) as [Ei Hi']. pose proof (word_of_bit dl n i (proj2 Hd) Hi) as Hwi.
        fold lim in Hwi. assert (bool_decide (i ∈ shifted_right) = src_bit (i + shift)) as ->.
        { unfold src_bit. apply bool_decide_ext. unfold shifted_right. rewrite elem_of_filter, elem_below. tauto. }
        unfold G. destruct (decide _).
        + rewrite Z.testbit_0_l. symmetry. apply src_bit_out. lia.
        + destruct (right_word_spec (i / 32) (i mod 32)) as [_ ->]; [lia|lia|]. f_equal. lia. }
    destruct (Z.eqb_spec off 0) as [Hz|Hz]; cbn [negb].
    + eexists. split; [done|]. replace (lim - off) with lim by lia.
      rewrite (upd_ext 0 lim right_word G); [done|]. intros k Hk. unfold G. by rewrite decide_False by lia.
    + assert (lim < 2 ^ 32).
      { destruct Hd as [_ (_ & _ & Hbig)]. lia. }
      rewrite u32_small by lia. rewrite (clear_words_run _ dst (upd 0 (lim - off) right_word dl))
        by (rewrite ?lookup_insert_eq, ?upd_length; done || lia).
      eexists. split; [done|]. rewrite insert_insert_eq.
      rewrite (upd_upd 0 (lim - off) right_word (lim - off) (lim - off + off) (fun _ => 0) dl 0 lim) by lia.
      replace (lim - off + off) with lim by lia. done.
Qed.

(** A word put together from two neighbours, shifted left by [rem]; its place is
    [k + off]. *)
Definition left_word (w : Z) : Z :=
  let k := w - off in
  Z.lor (if negb (rem =? 0) && (0 <? k) then Z.shiftr (la !!! Z.to_nat (k - 1)) (32 - rem) else 0)
    (u32 (Z.shiftl (la !!! Z.to_nat k) rem)).

Lemma left_word_spec w b : off <= w < lim -> 0 <= b < 32 ->
  is_u 32 (left_word w) /\
  (32 * w + b < n -> Z.testbit (left_word w) b = src_bit (32 * w + b - shift)).
Proof.
  intros Hk Hb. destruct shift_facts as (Ho & Hr & Es & _ & Hla & Hn).
  assert (forall k, 0 <= k < lim -> is_u 32 (la !!! Z.to_nat k)) as Hw
    by (intros; eapply word_range; [apply Hp|lia]).
  unfold left_word. cbv zeta. set (k := w - off). assert (0 <= k < lim) by lia. split.
  { apply lor_word; [|apply (wrapu_range 32); lia]. destruct (Z.ltb_spec 0 k); [|by rewrite andb_false_r].
    destruct (negb _); [|done]. apply shiftr_word; [lia|]. apply Hw. lia. }
  intros Hlt. rewrite Z.lor_spec, u32_testbit, Z.shiftl_spec by lia.
  destruct (decide (rem <= b)) as [Hrb|Hrb].
  - rewrite <- (tb_word la k (b - rem)), src_bit_tb by lia. replace (32 * k + (b - rem)) with (32 * w + b - shift) by lia.
    destruct (negb (rem =? 0) && (0 <? k)) eqn:Ec; [|by rewrite Z.testbit_0_l].
    apply andb_true_iff in Ec as [_ Hk0%Z.ltb_lt].
    rewrite Z.shiftr_spec, (testbit_high 32) by (lia || (apply Hw; lia)). done.
  - rewrite (Z.testbit_neg_r _ (b - rem)), orb_false_r by lia.
    rewrite (proj2 (Z.eqb_neq rem 0)) by lia. cbn [negb andb]. destruct (Z.ltb_spec 0 k).
    + rewrite Z.shiftr_spec by lia. rewrite <- (tb_word la (k - 1)) by lia. rewrite src_bit_tb by lia. f_equal. lia.
    + rewrite Z.testbit_0_l. symmetry. apply src_bit_out. lia.
Qed.

Definition shifted_left : gset Z := filter (fun i => i - shift ∈ bits_of la n) (below n).

Lemma bitmap_shift_left_spec : exists m', __bitmap_shift_left dst p shift n m = Ok (tt, m') /\
  writes_set m dst dl n shifted_left m'.
Proof.
  destruct shift_facts as (Ho & Hr & Es & Hdl & Hla & Hn). unfold __bitmap_shift_left, BITS_PER_LONG.
  fold lim off rem. pose proof (proj1 Hd) as Md. pose proof (proj1 Hp) as Mp.
  match goal with |- context [for_down _ ?body] =>
    destruct (for_down_inv (fun j m' => m' = <[dst := upd (off + Z.of_nat j) lim left_word dl]> m)
      (Z.to_nat (lim - off)) body m) as (m' & E & ->) end.
  - rewrite Z2Nat.id by lia. replace (off + (lim - off)) with lim by lia. symmetry. by apply upd_start.
  - intros j m' Hj ->. set (k := Z.of_nat j). replace (off + Z.of_nat (S j)) with (off + k + 1) by lia.
    exists (<[dst := upd (off + k) lim left_word dl]> m). split; [|done].
    assert (forall x, 0 <= x <= k ->
      rd p x (<[dst := upd (off + k + 1) lim left_word dl]> m) =
        Ok (la !!! Z.to_nat x, <[dst := upd (off + k + 1) lim left_word dl]> m)) as Hrd.
    { intros x Hx. apply rd_upd; done || lia. }
    erewrite Mbind_run.
    2: { instantiate (2 := if negb (rem =? 0) && (0 <? k) then Z.shiftr (la !!! Z.to_nat (k - 1)) (32 - rem) else 0).
         destruct (Z.ltb_spec 0 k); [|by rewrite andb_false_r]. destruct (negb _); [|done]. cbn [andb].
         by rewrite (Mbind_run _ _ _ _ _ (Hrd (k - 1) ltac:(lia))). }
    rewrite (Mbind_run _ _ _ _ _ (Hrd k ltac:(lia))). replace (k + off) with (off + k) by lia.
    apply wr_upd_down; [done|lia|lia|]. unfold left_word. by replace (off + k - off) with k by lia.
  - rewrite (Mbind_run _ _ _ _ _ E). clear E. rewrite Z.add_0_r.
    set (G k := if decide (0 <= k < off) then 0 else left_word k).
    assert (writes_set m dst dl n shifted_left (<[dst := upd 0 lim G dl]> m)) as Hw.
    { apply writes_upd; [done| | |].
      - intros k Hk. unfold G. fold lim in Hk. destruct (decide _); [done|].
        destruct (left_word_spec k 0) as [? _]; [lia|lia|done].
      - intros i. unfold shifted_left. rewrite elem_of_filter. tauto.
      - intros i Hi. destruct (word_split i) as [Ei Hi']. pose proof (word_of_bit dl n i (proj2 Hd) Hi) as Hwi.
        fold lim in Hwi. assert (bool_decide (i ∈ shifted_left) = src_bit (i - shift)) as ->.
        { unfold src_bit. apply bool_decide_ext. unfold shifted_left. rewrite elem_of_filter, elem_below. tauto. }
        unfold G. destruct (decide _).
        + rewrite Z.testbit_0_l. symmetry. apply src_bit_out. lia.
        + destruct (left_word_spec (i / 32) (i mod 32)) as [_ ->]; [lia|lia| |lia]. f_equal. lia. }
    destruct (Z.eqb_spec off 0) as [Hz|Hz]; cbn [negb].
    + eexists. split; [done|]. rewrite Hz.
      rewrite (upd_ext 0 lim left_word G); [done|]. intros k Hk. unfold G. by rewrite decide_False by lia.
    + rewrite (clear_words_run _ dst (upd off lim left_word dl))
        by (rewrite ?lookup_insert_eq, ?upd_length; done || lia).
      eexists. split; [done|]. rewrite insert_insert_eq.
      by rewrite (upd_upd off lim left_word 0 (0 + off) (fun _ => 0) dl 0 lim) by lia.
Qed.
End shifts.

(** * Properties *)

(** C30: Bitmaps refine finite sets.  On objects of at least [n] bits, [n] below
    2^31, where the destination may be one of the sources, every operation of the file
    computes the set operation on the bit numbers below [n]: the comparisons return
    equality, disjointness and inclusion, the weight is the size, [and] and [andnot]
    return whether the result is not empty, and the writing operations leave the
    complement, intersection, union, symmetric difference, difference and the
    sets shifted by 0 to [n] places in the destination and change nothing else but, at
    most, the unused bits of its last word. *)
Theorem bitmap_refines_sets m dst p q dl la lb n shift :
  holds m dst dl n -> holds m p la n -> holds m q lb n -> n < 2 ^ 31 -> 0 <= shift <= n ->
  let A := bits_of la n in let C := bits_of lb n in
  __bitmap_equal p q n m = Ok (if decide (A = C) then 1 else 0, m) /\
  __bitmap_intersects p q n m = Ok (if decide (A ∩ C = ∅) then 0 else 1, m) /\
  __bitmap_subset p q n m = Ok (if decide (A ⊆ C) then 1 else 0, m) /\
  __bitmap_weight p n m = Ok (Z.of_nat (size A), m) /\
  (exists m', bitmap_zero dst n m = Ok (tt, m') /\ writes_set m dst dl n ∅ m') /\
  (exists m', __bitmap_complement dst p n m = Ok (tt, m') /\ writes_set m dst dl n (below n ∖ A) m') /\
  (exists m', __bitmap_and dst p q n m = Ok (if decide (A ∩ C = ∅) then 0 else 1, m') /\
     writes_set m dst dl n (A ∩ C) m') /\
  (exists m', __bitmap_or dst p q n m = Ok (tt, m') /\ writes_set m dst dl n (A ∪ C) m') /\
  (exists m', __bitmap_xor dst p q n m = Ok (tt, m') /\ writes_set m dst dl n ((A ∖ C) ∪ (C ∖ A)) m') /\
  (exists m', __bitmap_andnot dst p q n m = Ok (if decide (A ∖ C = ∅) then 0 else 1, m') /\
     writes_set m dst dl n (A ∖ C) m') /\
  (exists m', __bitmap_shift_right dst p shift n m = Ok (tt, m') /\
     writes_set m dst dl n (filter (fun i => i + shift ∈ A) (below n)) m') /\
  (exists m', __bitmap_shift_left dst p shift n m = Ok (tt, m') /\
     writes_set m dst dl n (filter (fun i => i - shift ∈ A) (below n)) m').
Proof.
  intros Hd Hp Hq Hn Hs. split_and!.
  - by apply bitmap_equal_spec.
  - by apply bitmap_intersects_spec.
  - by apply bitmap_subset_spec.
  - by apply bitmap_weight_spec.
  - by apply (bitmap_zero_spec m dst p q dl la lb).
  - by apply (bitmap_complement_spec m dst p q dl la lb).
  - by apply bitmap_and_spec.
  - by apply bitmap_or_spec.
  - by apply bitmap_xor_spec.
  - by apply bitmap_andnot_spec.
  - by apply (bitmap_shift_right_spec m dst p dl la n shift).
  - by apply (bitmap_shift_left_spec m dst p dl la n shift).
Qed.

(** The header comment says that no operation sets an unused bit of its result
    when no unused bit of its sources is set; a left shift and a complement do. *)
Theorem unused_bits_set :
  __bitmap_shift_left 1 1 1 4 {[1 := [15]]} = Ok (tt, {[1 := [30]]}) /\
  __bitmap_complement 1 1 4 {[1 := [15]]} = Ok (tt, {[1 := [0xFFFFFFF0]]}).
Proof. split; vm_compute; reflexivity. Qed.

(** * Concrete runs *)

(** Two bitmaps of 70 bits; the destination is the first. *)
Definition ex_mem : mem := {[1 := [0xF0; 0; 0x3F]; 2 := [0x30; 0x80000000; 0x21]]}.

Lemma ex_holds1 : holds ex_mem 1 [0xF0; 0; 0x3F] 70.
Proof. split; [vm_compute; reflexivity|]. split; [|cbn; lia]. repeat constructor; unfold is_u; lia. Qed.
Lemma ex_holds2 : holds ex_mem 2 [0x30; 0x80000000; 0x21] 70.
Proof. split; [vm_compute; reflexivity|]. split; [|cbn; lia]. repeat constructor; unfold is_u; lia. Qed.

Lemma bitmap_refines_sets_witness :
  let A := bits_of [0xF0; 0; 0x3F] 70 in let C := bits_of [0x30; 0x80000000; 0x21] 70 in
  __bitmap_equal 1 2 70 ex_mem = Ok (if decide (A = C) then 1 else 0, ex_mem) /\
  __bitmap_intersects 1 2 70 ex_mem = Ok (if decide (A ∩ C = ∅) then 0 else 1, ex_mem) /\
  __bitmap_subset 1 2 70 ex_mem = Ok (if decide (A ⊆ C) then 1 else 0, ex_mem) /\
  __bitmap_weight 1 70 ex_mem = Ok (Z.of_nat (size A), ex_mem) /\
  (exists m', bitmap_zero 1 70 ex_mem = Ok (tt, m') /\ writes_set ex_mem 1 [0xF0; 0; 0x3F] 70 ∅ m') /\
  (exists m', __bitmap_complement 1 1 70 ex_mem = Ok (tt, m') /\
     writes_set ex_mem 1 [0xF0; 0; 0x3F] 70 (below 70 ∖ A) m') /\
  (exists m', __bitmap_and 1 1 2 70 ex_mem = Ok (if decide (A ∩ C = ∅) then 0 else 1, m') /\
     writes_set ex_mem 1 [0xF0; 0; 0x3F] 70 (A ∩ C) m') /\
  (exists m', __bitmap_or 1 1 2 70 ex_mem = Ok (tt, m') /\ writes_set ex_mem 1 [0xF0; 0; 0x3F] 70 (A ∪ C) m') /\
  (exists m', __bitmap_xor 1 1 2 70 ex_mem = Ok (tt, m') /\
     writes_set ex_mem 1 [0xF0; 0; 0x3F] 70 ((A ∖ C) ∪ (C ∖ A)) m') /\
  (exists m', __bitmap_andnot 1 1 2 70 ex_mem = Ok (if decide (A ∖ C = ∅) then 0 else 1, m') /\
     writes_set ex_mem 1 [0xF0; 0; 0x3F] 70 (A ∖ C) m') /\
  (exists m', __bitmap_shift_right 1 1 33 70 ex_mem = Ok (tt, m') /\
     writes_set ex_mem 1 [0xF0; 0; 0x3F] 70 (filter (fun i => i + 33 ∈ A) (below 70)) m') /\
  (exists m', __bitmap_shift_left 1 1 33 70 ex_mem = Ok (tt, m') /\
     writes_set ex_mem 1 [0xF0; 0; 0x3F] 70 (filter (fun i => i - 33 ∈ A) (below 70)) m').
Proof.
  exact (bitmap_refines_sets ex_mem 1 1 2 [0xF0; 0; 0x3F] [0xF0; 0; 0x3F] [0x30; 0x80000000; 0x21] 70 33
    ex_holds1 ex_holds1 ex_holds2 ltac:(lia) ltac:(lia)).
Defined.
