(* ===== verification/KBitmapArea.v ===== *)
(** * lib/bitmap.c: areas and regions

    Setting and clearing runs of bits, searching for a clear area, and allocating
    regions of a power of two.  The store and the set view are those of [KBitmap]. *)

From S2P Require Import Prelude Ioctl KBits KBitmap.
Open Scope Z_scope.

(** ** Runs of bits *)

(** [while (len - bits >= 0)] of [bitmap_set] and [bitmap_clear]; [f] is what is
    done to a word under a mask. *)
Fixpoint run_loop (f : Z -> Z -> Z) (fuel : nat) (map p len bits mask : Z) : B (Z * Z * Z) :=
  match fuel with
  | O => die NoFuel
  | S fuel' =>
      if 0 <=? (len -i bits)%cint then
        w ← rd map p; wr map p (f w mask);;
        run_loop f fuel' map (p + 1) (len -i bits)%cint BITS_PER_LONG ULONG_MAX
      else mret (p, len, mask)
  end.
Definition run_bits (f : Z -> Z -> Z) (map start len : Z) : B unit :=
  let size := (start +u len)%cint in
  r ← run_loop f (Z.to_nat len + 2) map (BIT_WORD start) len (BITS_PER_LONG - start mod BITS_PER_LONG)
        (BITMAP_FIRST_WORD_MASK start);
  let '(p, len, mask) := r in
  if negb (len =? 0) then
    w ← rd map p; wr map p (f w (Z.land mask (BITMAP_LAST_WORD_MASK size)))
  else mret tt.
Definition bitmap_set (map start len : Z) : B unit := run_bits (fun w m => Z.lor w m) map start len.
Definition bitmap_clear (map start len : Z) : B unit := run_bits (fun w m => Z.land w (not32 m)) map start len.

(** [__ALIGN_MASK(x, mask)] *)
Definition __ALIGN_MASK (x mask : Z) : Z := Z.land (u32 (x + mask)) (not32 mask).

(** The jump to [again:] is a round of the loop. *)
Fixpoint zero_area_loop (fuel : nat) (map size start nr align_mask align_offset : Z) : B Z :=
  match fuel with
  | O => die NoFuel
  | S fuel' =>
      l ← obj map;
      index ← lift (find_next_zero_bit l size start);
      let index := (__ALIGN_MASK (u32 (index + align_offset)) align_mask -u align_offset)%cint in
      let end_ := (index +u nr)%cint in
      if size <? end_ then mret end_
      else
        l ← obj map;
        i ← lift (find_next_bit l end_ index);
        if i <? end_ then zero_area_loop fuel' map size (i +u 1)%cint nr align_mask align_offset
        else mret index
  end.
Definition bitmap_find_next_zero_area_off (map size start nr align_mask align_offset : Z) : B Z :=
  zero_area_loop (S (Z.to_nat size)) map size start nr align_mask align_offset.

(** ** Regions of a power of two *)

Inductive reg_op := REG_OP_ISFREE | REG_OP_ALLOC | REG_OP_RELEASE.

Definition __reg_op (bitmap pos order : Z) (op : reg_op) : B Z :=
  nbits_reg ← lift (shl32 1 order);
  let index := pos / BITS_PER_LONG in
  let offset := pos - index * BITS_PER_LONG in
  let nlongs_reg := BITS_TO_LONGS nbits_reg in
  let nbitsinlong := Z.min nbits_reg BITS_PER_LONG in
  mask ← lift (shlu 32 1 (nbitsinlong - 1));
  let mask := (mask +u (mask - 1))%cint in
  mask ← lift (shlu 32 mask offset);
  match op with
  | REG_OP_ISFREE =>
      r ← for_return (Z.to_nat nlongs_reg) 0 (fun i =>
        w ← rd bitmap (index + i); mret (if negb (Z.land w mask =? 0) then Some 0 else None));
      mret (default 1 r)
  | REG_OP_ALLOC =>
      for_up (Z.to_nat nlongs_reg) 0 tt (fun i _ =>
        w ← rd bitmap (index + i); wr bitmap (index + i) (Z.lor w mask));;
      mret 0
  | REG_OP_RELEASE =>
      for_up (Z.to_nat nlongs_reg) 0 tt (fun i _ =>
        w ← rd bitmap (index + i); wr bitmap (index + i) (Z.land w (not32 mask)));;
      mret 0
  end.

Fixpoint free_region_loop (fuel : nat) (bitmap bits order pos : Z) : B Z :=
  match fuel with
  | O => die NoFuel
  | S fuel' =>
      n ← lift (shlu 32 1 order);
      let end_ := (pos +u n)%cint in
      if end_ <=? bits then
        r ← __reg_op bitmap pos order REG_OP_ISFREE;
        if r =? 0 then free_region_loop fuel' bitmap bits order end_
        else __reg_op bitmap pos order REG_OP_ALLOC;; mret (i32 pos)
      else mret (- ENOMEM)
  end.
Definition bitmap_find_free_region (bitmap bits order : Z) : B Z :=
  free_region_loop (S (Z.to_nat bits)) bitmap bits order 0.
Definition bitmap_release_region (bitmap pos order : Z) : B unit :=
  __reg_op bitmap pos order REG_OP_RELEASE;; mret tt.
Definition EBUSY : Z := 16.
Definition bitmap_allocate_region (bitmap pos order : Z) : B Z :=
  r ← __reg_op bitmap pos order REG_OP_ISFREE;
  if r =? 0 then mret (- EBUSY) else __reg_op bitmap pos order REG_OP_ALLOC.


(** ** Updates of a bitmap *)

Lemma first_mask_range s : is_u 32 (BITMAP_FIRST_WORD_MASK s).
Proof. apply (wrapu_range 32). lia. Qed.
#[local] Hint Resolve first_mask_range : core.

(** The bits [s, s + len). *)
Definition span (s len : Z) : gset Z := list_to_set (seqZ s len).
Lemma elem_span s len i : i ∈ span s len <-> s <= i < s + len.
Proof. unfold span. by rewrite elem_of_list_to_set, elem_of_seqZ. Qed.

(** The object at [p] now holds the set [X]; nothing else changed, not even the
    bits from [n] on. *)
Definition updates (m : mem) (p : Z) (l : list Z) (n : Z) (X : gset Z) (m' : mem) : Prop :=
  exists l', m' = <[p := l']> m /\ bitmap l' n /\ length l' = length l /\ bits_of l' n = X /\
    forall i, n <= i < 32 * Z.of_nat (length l) -> tb l' i = tb l i.

(** Words rewritten under masks: [f] works bitwise as [c], and keeps what the mask
    leaves out. *)
Section masked.
Variables (f : Z -> Z -> Z) (c : bool -> bool -> bool).
Hypothesis f_bits : forall w k j, 0 <= j < 32 -> Z.testbit (f w k) j = c (Z.testbit w j) (Z.testbit k j).
Hypothesis f_range : forall w k, is_u 32 w -> is_u 32 k -> is_u 32 (f w k).
Hypothesis c_false : forall b, c b false = b.

Definition masked_words (mask : Z -> Z) (l : list Z) (k : Z) : Z := f (l !!! Z.to_nat k) (mask k).

(** The masks of the words [lo, hi) pick out the bits of [P], which are there. *)
Lemma masked_tb mask P l lo hi i :
  0 <= lo -> hi <= Z.of_nat (length l) ->
  (forall k j, lo <= k < hi -> 0 <= j < 32 -> Z.testbit (mask k) j = P (32 * k + j)) ->
  (forall i, P i = true -> 32 * lo <= i < 32 * hi) ->
  0 <= i < 32 * Z.of_nat (length l) ->
  tb (upd lo hi (masked_words mask l) l) i = c (tb l i) (P i).
Proof.
  intros Hlo Hhi Hm HP Hi. rewrite upd_tb by done. destruct (word_split i) as [Ei Hj].
  destruct (decide (lo <= i / 32 < hi)) as [Hin|Hout].
  - unfold masked_words. rewrite f_bits, Hm by lia. rewrite <- Ei. done.
  - destruct (P i) eqn:E; [|by rewrite c_false]. apply HP in E. lia.
Qed.

Lemma masked_updates mask P X m p l n lo hi :
  holds m p l n -> 0 <= lo -> hi <= Z.of_nat (length l) ->
  (forall k, lo <= k < hi -> is_u 32 (mask k)) ->
  (forall k j, lo <= k < hi -> 0 <= j < 32 -> Z.testbit (mask k) j = P (32 * k + j)) ->
  (forall i, P i = true -> 32 * lo <= i < 32 * hi /\ i < n) ->
  (forall i, i ∈ X <-> 0 <= i < n /\ c (tb l i) (P i) = true) ->
  updates m p l n X (<[p := upd lo hi (masked_words mask l) l]> m).
Proof.
  intros [Hp Hb] Hlo Hhi Hr Hm HP HX. eexists. split; [done|]. pose proof Hb as (_ & Hn & _).
  assert (forall i, P i = true -> 32 * lo <= i < 32 * hi) as HP' by (intros i Hi%HP; tauto).
  split; [|split; [apply upd_length|split]].
  - apply upd_bitmap; [done|]. intros k Hk. apply f_range; [|by apply Hr]. eapply word_range; [done|lia].
  - apply set_eq. intros i. rewrite elem_bits_of, HX. split; intros [Hi Ht]; (split; [done|]).
    + by rewrite (masked_tb mask P) in Ht by (done || lia).
    + by rewrite (masked_tb mask P) by (done || lia).
  - intros i Hi. rewrite (masked_tb mask P) by (done || lia).
    destruct (P i) eqn:E; [|by rewrite c_false]. apply HP in E. lia.
Qed.

(** *** Runs *)

Section run.
Variables (m : mem) (map : Z) (l : list Z) (n start len : Z).
Hypotheses (Hh : holds m map l n) (Hs : 0 <= start) (Hlen : 0 <= len < 2 ^ 31) (Hend : start + len <= n).
Let stop : Z := start + len.

Definition run_mask (k : Z) : Z :=
  Z.land (if decide (k = start / 32) then BITMAP_FIRST_WORD_MASK start else ULONG_MAX)
         (if decide (k = stop / 32) then BITMAP_LAST_WORD_MASK stop else ULONG_MAX).
Let run_obj (k : Z) : mem := <[map := upd (start / 32) k (masked_words run_mask l) l]> m.

Lemma ULONG_MAX_testbit j : 0 <= j < 32 -> Z.testbit ULONG_MAX j = true.
Proof. intros Hj. change ULONG_MAX with (Z.ones 32). by apply Z.ones_spec_low. Qed.

Lemma run_mask_testbit k j : start / 32 <= k -> 32 * k < stop -> 0 <= j < 32 ->
  Z.testbit (run_mask k) j = bool_decide (start <= 32 * k + j < stop).
Proof.
  intros Hk Hk' Hj. unfold run_mask. destruct (word_split start), (word_split stop).
  assert (k <= stop / 32) by (apply Z.div_le_lower_bound; lia).
  rewrite Z.land_spec. repeat case_decide; rewrite ?first_mask_testbit, ?last_mask_testbit, ?ULONG_MAX_testbit by lia;
    repeat case_bool_decide; cbn; try done; exfalso; lia.
Qed.

Lemma run_mask_range k : is_u 32 (run_mask k).
Proof. unfold run_mask. apply land_word; case_decide; auto; done. Qed.

(** Where the loop stands: [s] is the next bit to treat. *)
Definition at_bit (s : Z) : Prop := start <= s <= stop /\ (s = start \/ s mod 32 = 0 /\ start / 32 < s / 32).

Lemma at_bit_mask s : at_bit s -> s / 32 < stop / 32 -> BITMAP_FIRST_WORD_MASK s = run_mask (s / 32).
Proof.
  intros [Hs1 Hs2] Hlt. apply word_eq; [done|apply run_mask_range|]. intros j Hj.
  destruct (word_split s), (word_split start), (word_split stop).
  assert (start / 32 <= s / 32) by (apply Z.div_le_mono; lia).
  rewrite first_mask_testbit, run_mask_testbit by lia. apply bool_decide_ext. destruct Hs2 as [->|]; lia.
Qed.

(** Word [k] is rewritten next. *)
Lemma run_rd k : start / 32 <= k < Z.of_nat (length l) -> rd map k (run_obj k) = Ok (l !!! Z.to_nat k, run_obj k).
Proof.
  intros Hk. assert (0 <= start / 32) by (apply Z.div_pos; lia). destruct Hh. by apply rd_upd; [..|lia|lia].
Qed.
Lemma run_wr k v : start / 32 <= k < Z.of_nat (length l) -> v = f (l !!! Z.to_nat k) (run_mask k) ->
  wr map k v (run_obj k) = Ok (tt, run_obj (k + 1)).
Proof.
  intros Hk ->. assert (0 <= start / 32) by (apply Z.div_pos; lia). destruct Hh. by apply wr_upd_up; [|lia|lia|].
Qed.

Lemma run_loop_spec fuel s : at_bit s -> (Z.to_nat (stop - s) < fuel)%nat ->
  exists s', run_loop f fuel map (s / 32) (stop - s) (32 - s mod 32) (BITMAP_FIRST_WORD_MASK s) (run_obj (s / 32))
    = Ok ((s' / 32, stop - s', BITMAP_FIRST_WORD_MASK s'), run_obj (s' / 32)) /\
  at_bit s' /\ stop < 32 * (s' / 32) + 32.
Proof.
  revert s. induction fuel as [|fuel IH]; intros s Hat Hf; [lia|]. cbn [run_loop].
  destruct Hat as [Hs1 Hs2] eqn:Eat. clear Eat. pose proof Hh as [Hp Hb]. pose proof Hb as (_ & Hn & _).
  destruct (word_split s) as [Es Hsm]. rewrite i32_small by lia.
  destruct (Z.leb_spec 0 (stop - s - (32 - s mod 32))) as [Hle|Hgt].
  2: { exists s. split; [done|]. split; [done|lia]. }
  assert (start / 32 <= s / 32) by (apply Z.div_le_mono; lia). assert (0 <= start / 32) by (apply Z.div_pos; lia).
  assert (s / 32 < stop / 32) by (destruct (word_split stop); lia).
  rewrite (Mbind_run _ _ _ _ _ (run_rd (s / 32) ltac:(lia))).
  erewrite Mbind_run.
  2: { apply run_wr; [lia|]. by rewrite <- at_bit_mask by done. }
  set (s1 := 32 * (s / 32 + 1)).
  assert (s1 / 32 = s / 32 + 1) as E1 by (unfold s1; rewrite Z.mul_comm; apply Z.div_mul; lia).
  assert (s1 mod 32 = 0) as E2 by (unfold s1; rewrite Z.mul_comm; apply Z.mod_mul; lia).
  replace (stop - s - (32 - s mod 32)) with (stop - s1) by lia.
  assert (BITS_PER_LONG = 32 - s1 mod 32) as -> by (rewrite E2; done).
  assert (ULONG_MAX = BITMAP_FIRST_WORD_MASK s1) as ->.
  { apply word_eq; [done|done|]. intros j Hj.
    by rewrite ULONG_MAX_testbit, first_mask_testbit, bool_decide_eq_true_2 by lia. }
  rewrite <- E1. apply IH; [split; [lia|right; lia]|lia].
Qed.

Lemma run_bits_run : exists hi, run_bits f map start len m = Ok (tt, run_obj hi) /\
  start / 32 <= hi <= Z.of_nat (length l) /\ (start = stop \/ stop <= 32 * hi) /\ (hi = start / 32 \/ 32 * (hi - 1) < stop).
Proof.
  pose proof Hh as [Hp Hb]. pose proof Hb as (_ & Hn & Hbig).
  assert (0 <= start / 32) by (apply Z.div_pos; lia). destruct (word_split start).
  assert (m = run_obj (start / 32)) as Em by (symmetry; by apply upd_start).
  destruct (run_loop_spec (Z.to_nat len + 2) start) as (s & E & [Hs1 Hs2] & Hst); [split; [unfold stop; lia|by left]|lia|].
  rewrite <- Em in E. replace (stop - start) with len in E by lia. unfold run_bits, BIT_WORD, BITS_PER_LONG in *.
  rewrite (Mbind_run _ _ _ _ _ E). rewrite u32_small by lia. fold stop.
  assert (start / 32 <= s / 32) by (apply Z.div_le_mono; lia). destruct (word_split s), (word_split stop).
  destruct (Z.eqb_spec (stop - s) 0) as [Hz|Hz]; cbn [negb].
  - exists (s / 32). split; [done|]. lia.
  - assert (s / 32 = stop / 32) by lia.
    rewrite (Mbind_run _ _ _ _ _ (run_rd (s / 32) ltac:(lia))).
    exists (s / 32 + 1). split; [|lia]. apply run_wr; [lia|]. f_equal.
    apply word_eq; [auto|apply run_mask_range|].
    intros j Hj. rewrite Z.land_spec, first_mask_testbit, last_mask_testbit, run_mask_testbit by lia.
    repeat case_bool_decide; cbn; try done; exfalso; destruct Hs2 as [->|]; lia.
Qed.

Lemma run_bits_spec X :
  (forall i, i ∈ X <-> 0 <= i < n /\ c (tb l i) (bool_decide (i ∈ span start len)) = true) ->
  exists m', run_bits f map start len m = Ok (tt, m') /\ updates m map l n X m'.
Proof.
  intros HX. destruct run_bits_run as (hi & E & Hlo & Hhi & Hhi'). eexists. split; [exact E|].
  assert (0 <= start / 32) by (apply Z.div_pos; lia). destruct (word_split start).
  apply (masked_updates run_mask (fun i => bool_decide (i ∈ span start len))); try done; try lia.
  - intros k Hk. apply run_mask_range.
  - intros k j Hk Hj. rewrite run_mask_testbit by lia. apply bool_decide_ext. by rewrite elem_span.
  - intros i Hi%bool_decide_eq_true_1. rewrite elem_span in Hi. lia.
Qed.
End run.
End masked.

(** The two ways of rewriting a word: set the bits of the mask, clear them. *)
Abbreviation set_word := (fun w k => Z.lor w k).
Abbreviation clear_word := (fun w k => Z.land w (not32 k)).

Lemma set_word_bits w k j : 0 <= j < 32 -> Z.testbit (Z.lor w k) j = Z.testbit w j || Z.testbit k j.
Proof. intros _. apply Z.lor_spec. Qed.
Lemma clear_word_bits w k j : 0 <= j < 32 ->
  Z.testbit (Z.land w (not32 k)) j = Z.testbit w j && negb (Z.testbit k j).
Proof. intros Hj. by rewrite Z.land_spec, not32_testbit. Qed.

Lemma elem_set_bits l n S i : S ⊆ below n ->
  i ∈ bits_of l n ∪ S <-> 0 <= i < n /\ tb l i || bool_decide (i ∈ S) = true.
Proof.
  intros HS. rewrite elem_of_union, elem_bits_of, orb_true_iff, bool_decide_eq_true.
  specialize (HS i). rewrite elem_below in HS. tauto.
Qed.
Lemma elem_clear_bits l n S i :
  i ∈ bits_of l n ∖ S <-> 0 <= i < n /\ tb l i && negb (bool_decide (i ∈ S)) = true.
Proof.
  rewrite elem_of_difference, elem_bits_of, andb_true_iff, negb_true_iff, bool_decide_eq_false. tauto.
Qed.
Lemma span_below s len n : 0 <= s -> s + len <= n -> span s len ⊆ below n.
Proof. intros Hs Hn i. rewrite elem_span, elem_below. lia. Qed.

Lemma bitmap_set_spec m map l n start len :
  holds m map l n -> 0 <= start -> 0 <= len < 2 ^ 31 -> start + len <= n ->
  exists m', bitmap_set map start len m = Ok (tt, m') /\
    updates m map l n (bits_of l n ∪ span start len) m'.
Proof.
  intros Hh Hs Hl Hn. apply (run_bits_spec set_word orb set_word_bits); try done; [auto|by intros []|].
  intros i. by apply elem_set_bits, span_below.
Qed.
Lemma bitmap_clear_spec m map l n start len :
  holds m map l n -> 0 <= start -> 0 <= len < 2 ^ 31 -> start + len <= n ->
  exists m', bitmap_clear map start len m = Ok (tt, m') /\
    updates m map l n (bits_of l n ∖ span start len) m'.
Proof.
  intros Hh Hs Hl Hn. apply (run_bits_spec clear_word (fun a b => a && negb b) clear_word_bits);
    try done; [auto|by intros []|].
  intros i. apply elem_clear_bits.
Qed.

(** ** The first clear area *)

(** An area: it lies between [start] and [size], its first bit plus the offset is
    a multiple of [2 ^ k], and it is clear. *)
Definition clear_area (l : list Z) (size start nr k off a : Z) : Prop :=
  start <= a /\ a + nr <= size /\ (a + off) mod 2 ^ k = 0 /\ forall i, a <= i < a + nr -> tb l i = false.

Lemma align_up x k : 0 <= x -> 0 <= k < 32 -> x + (2 ^ k - 1) < 2 ^ 32 ->
  let y := __ALIGN_MASK x (2 ^ k - 1) in
  x <= y <= x + (2 ^ k - 1) /\ y mod 2 ^ k = 0 /\ forall z, x <= z -> z mod 2 ^ k = 0 -> y <= z.
Proof.
  intros Hx Hk Hb. pose proof (pow2_pos k ltac:(lia)). unfold __ALIGN_MASK. rewrite u32_small by lia.
  set (t := x + (2 ^ k - 1)).
  assert (Z.land t (not32 (2 ^ k - 1)) = 2 ^ k * (t / 2 ^ k)) as ->.
  { apply Z.bits_inj'. intros i Hi. rewrite (Z.mul_comm (2 ^ k)), <- Z.shiftl_mul_pow2 by lia.
    rewrite Z.land_spec, Z.shiftl_spec by lia. rewrite <- Z.shiftr_div_pow2 by lia.
    replace (2 ^ k - 1) with (Z.ones k) by (rewrite Z.ones_equiv; lia).
    destruct (decide (i < 32)).
    - rewrite not32_testbit by lia. destruct (decide (i < k)).
      + rewrite Z.ones_spec_low, (Z.testbit_neg_r _ (i - k)) by lia. apply andb_false_r.
      + rewrite Z.ones_spec_high, Z.shiftr_spec by lia. replace (i - k + k) with i by lia. apply andb_true_r.
    - rewrite (testbit_high 32 (not32 _)) by (lia || apply not32_range). rewrite andb_false_r, Z.shiftr_spec by lia.
      replace (i - k + k) with i by lia. symmetry. apply (testbit_high 32); [lia|unfold is_u; lia|lia]. }
  pose proof (Z.div_mod t (2 ^ k) ltac:(lia)) as Et. pose proof (Z.mod_pos_bound t (2 ^ k) ltac:(lia)).
  split; [lia|]. split; [by rewrite Z.mul_comm, Z.mod_mul by lia|].
  intros z Hz Hm. pose proof (Z.div_mod z (2 ^ k) ltac:(lia)) as Ez. rewrite Hm in Ez.
  assert (t / 2 ^ k < z / 2 ^ k + 1) by (apply Z.div_lt_upper_bound; lia). nia.
Qed.

Section area.
Variables (m : mem) (map : Z) (l : list Z) (size nr k off : Z).
Hypotheses (Hh : holds m map l size) (Hnr : 0 < nr) (Hk : 0 <= k < 32) (Hoff : 0 <= off)
  (Hbig : size + nr + off + 2 ^ k < 2 ^ 32).

Lemma zero_area_loop_spec fuel start s :
  start <= s -> 0 <= s -> (Z.to_nat (size - s) < fuel)%nat ->
  (forall a, clear_area l size start nr k off a -> s <= a) ->
  exists r, zero_area_loop fuel map size s nr (2 ^ k - 1) off m = Ok (r, m) /\
    (if decide (r <= size) then clear_area l size start nr k off r /\
       forall a, clear_area l size start nr k off a -> r <= a
     else forall a, ~ clear_area l size start nr k off a).
Proof.
  revert s. induction fuel as [|fuel IH]; intros s Hst Hs Hf Hinv; [lia|]. cbn [zero_area_loop].
  destruct Hh as [Hp Hb]. pose proof (pow2_pos k ltac:(lia)). pose proof Hb as (Hw & Hn & Hb32).
  rewrite (Mbind_run _ _ _ _ _ (obj_run m map l Hp)).
  destruct (find_next_zero_bit_spec l size s Hb Hs) as (x & -> & Hx1 & Hx2 & Hx3). rewrite Mbind_lift.
  rewrite (u32_small (x + off)) by lia.
  destruct (align_up (x + off) k) as (Hy1 & Hy2 & Hy3); [lia|done|lia|].
  set (y := __ALIGN_MASK (x + off) (2 ^ k - 1)) in *. cbv zeta. rewrite (u32_small (y - off)) by lia.
  rewrite (u32_small (y - off + nr)) by lia.
  assert (forall a, clear_area l size start nr k off a -> y - off <= a) as Ha.
  { intros a Hc. pose proof (Hinv a Hc). destruct Hc as (_ & He & Hm & Hz).
    assert (y <= a + off); [|lia]. apply Hy3; [|done].
    destruct (decide (x <= a)); [lia|]. exfalso. specialize (Hx2 a ltac:(lia)).
    rewrite Hz in Hx2 by lia. done. }
  destruct (Z.ltb_spec size (y - off + nr)).
  - eexists. split; [done|]. rewrite decide_False by lia. intros a Hc. pose proof (Ha a Hc).
    destruct Hc as (_ & He & _). lia.
  - rewrite (Mbind_run _ _ _ _ _ (obj_run m map l Hp)).
    destruct (find_next_bit_spec l (y - off + nr) (y - off)) as (i & -> & Hi1 & Hi2 & Hi3); [split_and!; done || lia|lia|].
    rewrite Mbind_lift. destruct (Z.ltb_spec i (y - off + nr)) as [Hlt|Hge].
    + rewrite u32_small by lia. apply IH; [lia|lia|lia|]. intros a Hc. pose proof (Ha a Hc).
      destruct Hc as (_ & _ & _ & Hz). destruct (decide (i < a)); [lia|]. exfalso.
      specialize (Hi3 Hlt). rewrite Hz in Hi3 by lia. done.
    + exists (y - off). split; [done|]. rewrite decide_True by lia. split; [|done].
      split; [lia|]. split; [lia|]. split; [by replace (y - off + off) with y by lia|]. intros j Hj. apply Hi2. lia.
Qed.

Lemma find_next_zero_area_spec start : 0 <= start ->
  exists r, bitmap_find_next_zero_area_off map size start nr (2 ^ k - 1) off m = Ok (r, m) /\
    (if decide (r <= size) then clear_area l size start nr k off r /\
       forall a, clear_area l size start nr k off a -> r <= a
     else forall a, ~ clear_area l size start nr k off a).
Proof. intros Hs. apply zero_area_loop_spec; [done|done|lia|]. by intros a (Ha & _). Qed.
End area.

(** ** Regions *)

Section region.
Variables (m : mem) (p : Z) (l : list Z) (n order pos : Z).
Hypotheses (Hh : holds m p l n) (Ho : 0 <= order < 31) (Hpos : 0 <= pos) (Hal : pos mod 2 ^ order = 0)
  (Hend : pos + 2 ^ order <= n).
Let index : Z := pos / 32.
Let offset : Z := pos mod 32.
Let words : Z := BITS_TO_LONGS (2 ^ order).
Let inlong : Z := Z.min (2 ^ order) 32.

(** A region is part of one word, or whole words. *)
Lemma region_shape :
  0 <= index /\ pos = 32 * index + offset /\ 0 < inlong <= 32 /\ 0 <= offset /\ offset + inlong <= 32 /\
  0 < words /\ (words = 1 /\ inlong = 2 ^ order \/ offset = 0 /\ inlong = 32 /\ 2 ^ order = 32 * words) /\
  index + words <= Z.of_nat (length l) /\ 2 ^ order < 2 ^ 31.
Proof.
  destruct Hh as [_ (_ & Hn & Hb)]. destruct (word_split pos) as [Ep Hm]. fold index offset in Ep, Hm.
  assert (0 <= index) by (apply Z.div_pos; lia). pose proof (pow2_pos order ltac:(lia)).
  assert (2 ^ order < 2 ^ 31) by (apply Z.pow_lt_mono_r; lia).
  unfold words, inlong, BITS_TO_LONGS. rewrite u32_small by lia. destruct (decide (order <= 5)) as [H5|H5].
  - assert (2 ^ order = 1 \/ 2 ^ order = 2 \/ 2 ^ order = 4 \/ 2 ^ order = 8 \/ 2 ^ order = 16 \/ 2 ^ order = 32) as Hin.
    { assert (order = 0 \/ order = 1 \/ order = 2 \/ order = 3 \/ order = 4 \/ order = 5)
        as [-> |[-> |[-> |[-> |[-> | ->]]]]] by lia; cbn; tauto. }
    assert ((2 ^ order + 31) / 32 = 1) as -> by (destruct Hin as [-> |[-> |[-> |[-> |[-> | ->]]]]]; done).
    unfold offset in *. destruct Hin as [E|[E|[E|[E|[E|E]]]]]; rewrite E in *; clear Hh; Z.to_euclidean_division_equations; lia.
  - assert (2 ^ order = 32 * 2 ^ (order - 5)) as E by (change 32 with (2 ^ 5); rewrite <- Z.pow_add_r by lia; f_equal; lia).
    pose proof (pow2_pos (order - 5) ltac:(lia)) as Hp. rewrite E in *. set (q := 2 ^ (order - 5)) in *.
    assert ((32 * q + 31) / 32 = q) as -> by (rewrite (Z.mul_comm 32), Z.div_add_l by lia; change (31 / 32) with 0; lia).
    assert (offset = 0).
    { pose proof (Z.div_mod pos (32 * q) ltac:(lia)) as Ed. unfold offset. rewrite Ed, Hal, Z.add_0_r.
      rewrite <- Z.mul_assoc, Z.mul_comm. apply Z.mod_mul. lia. }
    lia.
Qed.

Definition region_mask : Z := u32 (Z.shiftl (Z.ones inlong) offset).

Lemma region_mask_testbit k j : index <= k < index + words -> 0 <= j < 32 ->
  Z.testbit region_mask j = bool_decide (32 * k + j ∈ span pos (2 ^ order)).
Proof.
  intros Hk Hj. destruct region_shape as (? & Ep & ? & ? & ? & ? & Hs & _). unfold region_mask.
  rewrite u32_testbit, Z.shiftl_spec, Z.testbit_ones by lia.
  apply eq_true_iff_eq. rewrite andb_true_iff, Z.leb_le, Z.ltb_lt, bool_decide_eq_true, elem_span. lia.
Qed.

(** What [__reg_op] has computed when it reaches its [switch]. *)
Lemma reg_op_run op : __reg_op p pos order op m =
  match op with
  | REG_OP_ISFREE =>
      r ← for_return (Z.to_nat words) 0 (fun i =>
        w ← rd p (index + i); mret (if negb (Z.land w region_mask =? 0) then Some 0 else None));
      mret (default 1 r)
  | REG_OP_ALLOC =>
      for_up (Z.to_nat words) 0 tt (fun i _ => w ← rd p (index + i); wr p (index + i) (Z.lor w region_mask));; mret 0
  | REG_OP_RELEASE =>
      for_up (Z.to_nat words) 0 tt (fun i _ => w ← rd p (index + i); wr p (index + i) (Z.land w (not32 region_mask)));;
      mret 0
  end m.
Proof.
  destruct region_shape as (? & Ep & ? & ? & ? & ? & Hs & _ & H31). pose proof (pow2_pos order ltac:(lia)).
  unfold __reg_op. rewrite shl32_ok, Mbind_lift by lia. rewrite (Z.shiftl_1_l order), i32_small by lia.
  unfold BITS_PER_LONG. fold index words inlong. replace (pos - index * 32) with offset by lia. cbv zeta.
  assert (shlu 32 1 (inlong - 1) = Ok (2 ^ (inlong - 1))) as ->.
  { unfold shlu. rewrite (proj2 (Z.leb_le 0 _)), (proj2 (Z.ltb_lt _ 32)) by lia. cbn [andb]. rewrite Z.shiftl_1_l.
    rewrite wrapu_small; [done|]. split; [apply Z.pow_nonneg; lia|apply Z.pow_lt_mono_r; lia]. }
  rewrite Mbind_lift.
  assert (u32 (2 ^ (inlong - 1) + (2 ^ (inlong - 1) - 1)) = Z.ones inlong) as ->.
  { assert (2 ^ inlong = 2 * 2 ^ (inlong - 1)) as E by (rewrite <- Z.pow_succ_r by lia; f_equal; lia).
    assert (2 ^ inlong <= 2 ^ 32) by (apply Z.pow_le_mono_r; lia). pose proof (pow2_pos (inlong - 1) ltac:(lia)).
    rewrite Z.ones_equiv, u32_small; lia. }
  assert (shlu 32 (Z.ones inlong) offset = Ok region_mask) as ->; [|by rewrite Mbind_lift].
  unfold shlu. by rewrite (proj2 (Z.leb_le 0 _)), (proj2 (Z.ltb_lt _ 32)) by lia.
Qed.

Lemma word_outside_region w : is_u 32 w ->
  Z.land w region_mask = 0 <-> forall j, 0 <= j < 32 -> Z.testbit region_mask j = true -> Z.testbit w j = false.
Proof.
  intros Hw. rewrite word_zero_iff by (apply land_word; [done|apply (wrapu_range 32); lia]).
  split; intros Hj j Hb; specialize (Hj j Hb).
  - intros Ht. by rewrite Z.land_spec, Ht, andb_true_r in Hj.
  - rewrite Z.land_spec. destruct (Z.testbit region_mask j); [|apply andb_false_r]. by rewrite Hj.
Qed.

Definition region_free : Prop := forall i, pos <= i < pos + 2 ^ order -> tb l i = false.

Lemma reg_op_isfree : exists r, __reg_op p pos order REG_OP_ISFREE m = Ok (r, m) /\
  (r = 1 /\ region_free \/ r = 0 /\ ~ region_free).
Proof.
  rewrite reg_op_run. destruct region_shape as (? & Ep & ? & ? & ? & ? & Hs & Hlen & _). pose proof Hh as [Hp Hb].
  erewrite Mbind_run.
  2: { apply (for_return_spec _ _ _ _
         (fun i => if negb (Z.land (l !!! Z.to_nat (index + i)) region_mask =? 0) then Some 0 else None)).
       intros j Hj. by rewrite (Mbind_run _ _ _ _ _ (rd_run m p l (index + j) Hp ltac:(lia))). }
  rewrite Z2Nat.id by lia.
  assert (forall k, index <= k < index + words -> is_u 32 (l !!! Z.to_nat k)) as Hw
    by (intros; eapply word_range; [done|lia]).
  eexists. split; [done|]. destruct (list_find _ _) as [[k o]|] eqn:E.
  - apply list_find_Some in E as (E & [v ->] & _). rewrite list_lookup_fmap in E.
    destruct (seqZ 0 words !! k) as [kz|] eqn:Ek; [|done]. apply lookup_seqZ in Ek as [-> Hk]. cbn in E.
    destruct (Z.eqb_spec (Z.land (l !!! Z.to_nat (index + (0 + Z.of_nat k))) region_mask) 0) as [|Hz]; [done|].
    injection E as <-. right. split; [done|]. intros Hfree. apply Hz. apply word_outside_region; [apply Hw; lia|].
    intros j Hj Ht. rewrite (region_mask_testbit (index + (0 + Z.of_nat k))) in Ht by lia.
    apply bool_decide_eq_true_1, elem_span in Ht. rewrite <- tb_word by lia. by apply Hfree.
  - apply list_find_None in E. rewrite Forall_fmap, Forall_forall in E. left. split; [done|]. intros i Hi.
    destruct (word_split i). assert (index <= i / 32 < index + words) as Hk by lia.
    specialize (E (i / 32 - index)). cbn in E. replace (index + (i / 32 - index)) with (i / 32) in E by lia.
    destruct (Z.eqb_spec (Z.land (l !!! Z.to_nat (i / 32)) region_mask) 0) as [Hz|Hz].
    2: { exfalso. apply E; [apply elem_of_seqZ; lia|]. cbn. eauto. }
    unfold tb. rewrite word_outside_region in Hz by (by apply Hw). apply Hz; [lia|].
    rewrite (region_mask_testbit (i / 32)) by lia. apply bool_decide_eq_true_2, elem_span. lia.
Qed.

Section write.
Variables (f : Z -> Z -> Z) (c : bool -> bool -> bool).
Hypothesis f_bits : forall w k j, 0 <= j < 32 -> Z.testbit (f w k) j = c (Z.testbit w j) (Z.testbit k j).
Hypothesis f_range : forall w k, is_u 32 w -> is_u 32 k -> is_u 32 (f w k).
Hypothesis c_false : forall b, c b false = b.

Lemma region_loop X :
  (forall i, i ∈ X <-> 0 <= i < n /\ c (tb l i) (bool_decide (i ∈ span pos (2 ^ order))) = true) ->
  exists m', for_up (Z.to_nat words) 0 tt (fun i _ => w ← rd p (index + i); wr p (index + i) (f w region_mask)) m
    = Ok (tt, m') /\ updates m p l n X m'.
Proof.
  intros HX. destruct region_shape as (? & Ep & ? & ? & ? & ? & Hs & Hlen & _). pose proof Hh as [Hp Hb].
  set (F := masked_words f (fun _ => region_mask) l).
  destruct (for_up_inv (fun j (_ : unit) m' => m' = <[p := upd index (index + Z.of_nat j) F l]> m)
    (Z.to_nat words) 0 tt (fun i _ => w ← rd p (index + i); wr p (index + i) (f w region_mask)) m)
    as ([] & m' & E & ->).
  - rewrite Z.add_0_r. symmetry. by apply upd_start.
  - intros j [] m' Hj ->. exists tt, (<[p := upd index (index + Z.of_nat j + 1) F l]> m).
    split; [|by replace (index + Z.of_nat (S j)) with (index + Z.of_nat j + 1) by lia].
    rewrite Z.add_0_l.
    rewrite (Mbind_run _ _ _ _ _ (rd_upd m p l index (index + Z.of_nat j) F p l (index + Z.of_nat j) Hp Hp
      ltac:(lia) ltac:(lia))).
    by apply wr_upd_up; [|lia|lia|].
  - eexists. split; [exact E|]. rewrite Z2Nat.id by lia.
    apply (masked_updates f c f_bits f_range c_false (fun _ => region_mask)
      (fun i => bool_decide (i ∈ span pos (2 ^ order)))); try done; try lia.
    + intros _ _. apply (wrapu_range 32). lia.
    + intros k j Hk Hj. by apply region_mask_testbit.
    + intros i Hi%bool_decide_eq_true_1. rewrite elem_span in Hi. lia.
Qed.
End write.

Lemma reg_op_alloc : exists m', __reg_op p pos order REG_OP_ALLOC m = Ok (0, m') /\
  updates m p l n (bits_of l n ∪ span pos (2 ^ order)) m'.
Proof.
  rewrite reg_op_run. destruct (region_loop set_word orb set_word_bits) with (X := bits_of l n ∪ span pos (2 ^ order))
    as (m' & E & Hu); [auto|by intros []|intros i; by apply elem_set_bits, span_below|].
  exists m'. by rewrite (Mbind_run _ _ _ _ _ E).
Qed.
Lemma reg_op_release : exists m', __reg_op p pos order REG_OP_RELEASE m = Ok (0, m') /\
  updates m p l n (bits_of l n ∖ span pos (2 ^ order)) m'.
Proof.
  rewrite reg_op_run. destruct (region_loop clear_word (fun a b => a && negb b) clear_word_bits)
    with (X := bits_of l n ∖ span pos (2 ^ order))
    as (m' & E & Hu); [auto|by intros []|intros i; apply elem_clear_bits|].
  exists m'. by rewrite (Mbind_run _ _ _ _ _ E).
Qed.

Lemma release_region_spec : exists m', bitmap_release_region p pos order m = Ok (tt, m') /\
  updates m p l n (bits_of l n ∖ span pos (2 ^ order)) m'.
Proof.
  destruct reg_op_release as (m' & E & Hu). exists m'. unfold bitmap_release_region.
  by rewrite (Mbind_run _ _ _ _ _ E).
Qed.
Lemma region_free_disjoint : region_free <-> span pos (2 ^ order) ## bits_of l n.
Proof.
  rewrite elem_of_disjoint. split.
  - intros Hf i. rewrite elem_span, elem_bits_of. intros Hi [_ Ht]. by rewrite Hf in Ht.
  - intros Hd i Hi. destruct (tb l i) eqn:E; [|done]. exfalso. apply (Hd i); [by apply elem_span|].
    apply elem_bits_of. split; [lia|done].
Qed.
Lemma allocate_region_spec :
  if decide (span pos (2 ^ order) ## bits_of l n)
  then exists m', bitmap_allocate_region p pos order m = Ok (0, m') /\
    updates m p l n (bits_of l n ∪ span pos (2 ^ order)) m'
  else bitmap_allocate_region p pos order m = Ok (- EBUSY, m).
Proof.
  unfold bitmap_allocate_region. destruct reg_op_isfree as (r & E & Hr). rewrite region_free_disjoint in Hr.
  destruct (decide _) as [Hd|Hd]; destruct Hr as [[-> Hr]|[-> Hr]]; try tauto.
  - destruct reg_op_alloc as (m' & Ea & Hu). exists m'. by rewrite (Mbind_run _ _ _ _ _ E).
  - by rewrite (Mbind_run _ _ _ _ _ E).
Qed.
End region.

(** Scanning the regions of one order from the bottom. *)
Definition free_at (l : list Z) (n order a : Z) : Prop :=
  0 <= a /\ a mod 2 ^ order = 0 /\ a + 2 ^ order <= n /\ span a (2 ^ order) ## bits_of l n.

Lemma free_region_loop_spec m p l n order fuel pos :
  holds m p l n -> 0 <= order < 31 -> n < 2 ^ 31 -> 0 <= pos <= n ->
  pos mod 2 ^ order = 0 -> (Z.to_nat (n - pos) < fuel)%nat ->
  (forall a, free_at l n order a -> pos <= a) ->
  exists r m', free_region_loop fuel p n order pos m = Ok (r, m') /\
    ((free_at l n order r /\ (forall a, free_at l n order a -> r <= a) /\
      updates m p l n (bits_of l n ∪ span r (2 ^ order)) m') \/
     (r = - ENOMEM /\ m' = m /\ forall a, ~ free_at l n order a)).
Proof.
  revert pos. induction fuel as [|fuel IH]; intros pos Hh Ho Hbig Hpos Hal Hf Hinv; [lia|].
  cbn [free_region_loop]. pose proof (pow2_pos order ltac:(lia)).
  assert (2 ^ order < 2 ^ 31) by (apply Z.pow_lt_mono_r; lia).
  assert (shlu 32 1 order = Ok (2 ^ order)) as ->.
  { unfold shlu. rewrite (proj2 (Z.leb_le 0 _)), (proj2 (Z.ltb_lt _ 32)) by lia. cbn [andb].
    by rewrite Z.shiftl_1_l, u32_small by lia. }
  rewrite Mbind_lift, u32_small by lia. destruct (Z.leb_spec (pos + 2 ^ order) n) as [Hle|Hgt].
  2: { exists (- ENOMEM), m. split; [done|]. right. split_and!; [done..|]. intros a Ha.
       pose proof (Hinv a Ha). destruct Ha as (_ & _ & ? & _). lia. }
  destruct (reg_op_isfree m p l n order pos Hh Ho ltac:(lia) Hal Hle) as (r & E & Hr).
  rewrite (Mbind_run _ _ _ _ _ E). rewrite (region_free_disjoint l n order pos) in Hr by lia.
  destruct Hr as [[-> Hr]|[-> Hr]]; cbn [Z.eqb].
  - destruct (reg_op_alloc m p l n order pos Hh Ho ltac:(lia) Hal Hle) as (m' & Ea & Hu).
    rewrite (Mbind_run _ _ _ _ _ Ea). exists pos, m'. split; [unfold mret, M_ret; by rewrite i32_small by lia|]. left. split_and!; [split_and!; done || lia|done..].
  - apply IH; try done; [lia| |lia|].
    + rewrite <- Z.add_mod_idemp_l, Hal by lia. apply Z.mod_same. lia.
    + intros a Ha. pose proof (Hinv a Ha) as Hge. destruct Ha as (Ha0 & Ham & _ & Had).
      destruct (decide (a = pos)) as [->|Hne]; [tauto|].
      pose proof (Z.div_mod a (2 ^ order) ltac:(lia)) as Ea. pose proof (Z.div_mod pos (2 ^ order) ltac:(lia)) as Ep.
      rewrite Ham in Ea. rewrite Hal in Ep. rewrite Z.add_0_r in Ea, Ep.
      set (x := a / 2 ^ order) in *. set (y := pos / 2 ^ order) in *.
      assert (y < x) by (apply (Z.mul_lt_mono_pos_l (2 ^ order)); lia).
      assert (2 ^ order * (y + 1) <= 2 ^ order * x) by (apply Z.mul_le_mono_nonneg_l; lia). lia.
Qed.

Lemma find_free_region_spec m p l n order :
  holds m p l n -> 0 <= order < 31 -> n < 2 ^ 31 ->
  exists r m', bitmap_find_free_region p n order m = Ok (r, m') /\
    ((free_at l n order r /\ (forall a, free_at l n order a -> r <= a) /\
      updates m p l n (bits_of l n ∪ span r (2 ^ order)) m') \/
     (r = - ENOMEM /\ m' = m /\ forall a, ~ free_at l n order a)).
Proof.
  intros Hh Ho Hbig. pose proof Hh as [_ (_ & Hn & _)].
  pose proof (pow2_pos order ltac:(lia)).
  apply free_region_loop_spec; try done; [lia|lia|].
  by intros a (Ha & _).
Qed.

(** * Properties *)

(** C32: Runs and areas.  [bitmap_set] and [bitmap_clear] add and remove the bits
    [start, start + len) and change nothing else.  [bitmap_find_next_zero_area_off]
    always returns: the lowest clear area of [nr] bits from [start] on whose
    position plus the offset is a multiple of [2 ^ k], or, exactly when there is
    none, a number above [size]. *)
Theorem bitmap_areas_exact m map l n start len nr k off :
  holds m map l n -> 0 <= start -> 0 <= len < 2 ^ 31 -> start + len <= n ->
  0 < nr -> 0 <= k < 32 -> 0 <= off -> n + nr + off + 2 ^ k < 2 ^ 32 ->
  (exists m', bitmap_set map start len m = Ok (tt, m') /\
     updates m map l n (bits_of l n ∪ span start len) m') /\
  (exists m', bitmap_clear map start len m = Ok (tt, m') /\
     updates m map l n (bits_of l n ∖ span start len) m') /\
  (exists r, bitmap_find_next_zero_area_off map n start nr (2 ^ k - 1) off m = Ok (r, m) /\
     (if decide (r <= n) then clear_area l n start nr k off r /\
        forall a, clear_area l n start nr k off a -> r <= a
      else forall a, ~ clear_area l n start nr k off a)).
Proof.
  intros Hh Hs Hl Hn Hnr Hk Ho Hbig. split_and!.
  - by apply bitmap_set_spec.
  - by apply bitmap_clear_spec.
  - by apply find_next_zero_area_spec.
Qed.

(** C31: Regions.  [bitmap_find_free_region] always returns: it takes the lowest
    free aligned region of [2 ^ order] bits and returns its position, or returns
    [-ENOMEM] with the bitmap unchanged when there is none;
    [bitmap_allocate_region] takes the region at [pos] when it is free and returns
    [-EBUSY] with the bitmap unchanged otherwise; [bitmap_release_region] frees
    it.  No other bit changes. *)
Theorem bitmap_regions_exact m p l n order pos :
  holds m p l n -> n < 2 ^ 31 -> 0 <= order < 31 ->
  0 <= pos -> pos mod 2 ^ order = 0 -> pos + 2 ^ order <= n ->
  (exists r m', bitmap_find_free_region p n order m = Ok (r, m') /\
     ((free_at l n order r /\ (forall a, free_at l n order a -> r <= a) /\
       updates m p l n (bits_of l n ∪ span r (2 ^ order)) m') \/
      (r = - ENOMEM /\ m' = m /\ forall a, ~ free_at l n order a))) /\
  (if decide (span pos (2 ^ order) ## bits_of l n)
   then exists m', bitmap_allocate_region p pos order m = Ok (0, m') /\
     updates m p l n (bits_of l n ∪ span pos (2 ^ order)) m'
   else bitmap_allocate_region p pos order m = Ok (- EBUSY, m)) /\
  (exists m', bitmap_release_region p pos order m = Ok (tt, m') /\
     updates m p l n (bits_of l n ∖ span pos (2 ^ order)) m').
Proof.
  intros Hh Hn Ho Hp Ha He. split_and!.
  - by apply find_free_region_spec.
  - by apply allocate_region_spec.
  - by apply release_region_spec.
Qed.

(** * Concrete runs *)

Definition ex_area : mem := {[1 := [0x0F0F; 0xFFFFFFFF; 0]]}.
Lemma ex_area_holds : holds ex_area 1 [0x0F0F; 0xFFFFFFFF; 0] 90.
Proof. split; [vm_compute; reflexivity|]. split; [|cbn; lia]. repeat constructor; unfold is_u; lia. Qed.

Example ex_area_runs :
  bitmap_find_next_zero_area_off 1 90 0 4 7 4 ex_area = Ok (4, ex_area) /\
  bitmap_find_next_zero_area_off 1 90 0 17 0 0 ex_area = Ok (12, ex_area) /\
  bitmap_find_free_region 1 90 4 ex_area = Ok (16, {[1 := [0xFFFF0F0F; 0xFFFFFFFF; 0]]}) /\
  bitmap_allocate_region 1 32 5 ex_area = Ok (- 16, ex_area).
Proof. split_and!; vm_compute; reflexivity. Qed.

Lemma bitmap_areas_exact_witness :
  (exists m', bitmap_set 1 20 50 ex_area = Ok (tt, m') /\
     updates ex_area 1 [0x0F0F; 0xFFFFFFFF; 0] 90 (bits_of [0x0F0F; 0xFFFFFFFF; 0] 90 ∪ span 20 50) m') /\
  (exists m', bitmap_clear 1 20 50 ex_area = Ok (tt, m') /\
     updates ex_area 1 [0x0F0F; 0xFFFFFFFF; 0] 90 (bits_of [0x0F0F; 0xFFFFFFFF; 0] 90 ∖ span 20 50) m') /\
  (exists r, bitmap_find_next_zero_area_off 1 90 20 4 (2 ^ 3 - 1) 4 ex_area = Ok (r, ex_area) /\
     (if decide (r <= 90) then clear_area [0x0F0F; 0xFFFFFFFF; 0] 90 20 4 3 4 r /\
        forall a, clear_area [0x0F0F; 0xFFFFFFFF; 0] 90 20 4 3 4 a -> r <= a
      else forall a, ~ clear_area [0x0F0F; 0xFFFFFFFF; 0] 90 20 4 3 4 a)).
Proof.
  exact (bitmap_areas_exact ex_area 1 _ 90 20 50 4 3 4 ex_area_holds ltac:(lia) ltac:(lia) ltac:(lia) ltac:(lia)
    ltac:(lia) ltac:(lia) ltac:(lia)).
Defined.

Lemma bitmap_regions_exact_witness :
  let l := [0x0F0F; 0xFFFFFFFF; 0] in
  (exists r m', bitmap_find_free_region 1 90 4 ex_area = Ok (r, m') /\
     ((free_at l 90 4 r /\ (forall a, free_at l 90 4 a -> r <= a) /\
       updates ex_area 1 l 90 (bits_of l 90 ∪ span r (2 ^ 4)) m') \/
      (r = - ENOMEM /\ m' = ex_area /\ forall a, ~ free_at l 90 4 a))) /\
  (if decide (span 16 (2 ^ 4) ## bits_of l 90)
   then exists m', bitmap_allocate_region 1 16 4 ex_area = Ok (0, m') /\
     updates ex_area 1 l 90 (bits_of l 90 ∪ span 16 (2 ^ 4)) m'
   else bitmap_allocate_region 1 16 4 ex_area = Ok (- EBUSY, ex_area)) /\
  (exists m', bitmap_release_region 1 16 4 ex_area = Ok (tt, m') /\
     updates ex_area 1 l 90 (bits_of l 90 ∖ span 16 (2 ^ 4)) m').
Proof.
  exact (bitmap_regions_exact ex_area 1 _ 90 4 16 ex_area_holds ltac:(lia) ltac:(lia) ltac:(lia)
    eq_refl ltac:(lia)).
Defined.
