(* ===== verification/KBitmapMap.v ===== *)
(** * lib/bitmap.c: mappings between bitmaps

    The [n]-th set bit of a bitmap and its inverse, and the operations that map the
    bits of one bitmap by the positions of others.  The store and the set view are
    those of [KBitmap]. *)

From S2P Require Import Prelude Ioctl KBits KBitmap.
Open Scope Z_scope.

(** ** Ordinals and positions *)

Definition set_bit_at (bit p : Z) : B unit :=
  l ← obj p; l' ← lift (set_bit bit l); modify (<[p := l']>).

Definition bitmap_pos_to_ord (buf pos nbits : Z) : B Z :=
  if nbits <=? pos then mret (-1)
  else
    l ← obj buf; t ← lift (test_bit pos l);
    if t =? 0 then mret (-1) else __bitmap_weight buf pos.

Fixpoint ord_to_pos_loop (fuel : nat) (buf ord nbits pos : Z) : B Z :=
  match fuel with
  | O => die NoFuel
  | S fuel' =>
      if (pos <? nbits) && negb (ord =? 0) then
        l ← obj buf; pos ← lift (find_next_bit l nbits (pos +u 1)%cint);
        ord_to_pos_loop fuel' buf (ord -u 1)%cint nbits pos
      else mret pos
  end.
Definition bitmap_ord_to_pos (buf ord nbits : Z) : B Z :=
  l ← obj buf; pos ← lift (find_first_bit l nbits);
  ord_to_pos_loop (S (Z.to_nat nbits)) buf ord nbits pos.

(** [for_each_set_bit(bit, p, size) acc = f(bit, acc)] *)
Fixpoint set_bits_loop {A} (fuel : nat) (p size bit : Z) (acc : A) (f : Z -> A -> B A) : B A :=
  match fuel with
  | O => die NoFuel
  | S fuel' =>
      if bit <? size then
        acc ← f bit acc;
        l ← obj p; bit ← lift (find_next_bit l size (bit +u 1)%cint);
        set_bits_loop fuel' p size bit acc f
      else mret acc
  end.
Definition for_each_set_bit {A} (p size : Z) (acc : A) (f : Z -> A -> B A) : B A :=
  l ← obj p; bit ← lift (find_first_bit l size);
  set_bits_loop (S (Z.to_nat size)) p size bit acc f.

Definition bitmap_remap (dst src old new nbits : Z) : B unit :=
  if dst =? src then mret tt
  else
    bitmap_zero dst nbits;;
    w ← __bitmap_weight new nbits;
    for_each_set_bit src nbits tt (fun oldbit _ =>
      n ← bitmap_pos_to_ord old oldbit nbits;
      if (n <? 0) || (w =? 0) then set_bit_at oldbit dst
      else pos ← bitmap_ord_to_pos new (n mod w) nbits; set_bit_at pos dst).

Definition bitmap_bitremap (oldbit old new bits : Z) : B Z :=
  w ← __bitmap_weight new (u32 bits);
  n ← bitmap_pos_to_ord old (u32 oldbit) (u32 bits);
  if (n <? 0) || (w =? 0) then mret oldbit
  else pos ← bitmap_ord_to_pos new (u32 (Z.rem n w)) (u32 bits); mret (i32 pos).

Definition bitmap_onto (dst orig relmap bits : Z) : B unit :=
  if dst =? orig then mret tt
  else
    bitmap_zero dst bits;;
    for_each_set_bit relmap bits 0 (fun n m =>
      l ← obj orig; t ← lift (test_bit m l);
      (if negb (t =? 0) then set_bit_at n dst else mret tt);;
      mret (m +u 1)%cint);;
    mret tt.

Definition bitmap_fold (dst orig sz nbits : Z) : B unit :=
  if dst =? orig then mret tt
  else
    bitmap_zero dst nbits;;
    for_each_set_bit orig nbits tt (fun oldbit _ =>
      if sz =? 0 then die DivByZero else set_bit_at (oldbit mod sz) dst).


(** ** The rank of a bit *)

(** How many set bits lie below [x]. *)
Definition rank (l : list Z) (x : Z) : Z := Z.of_nat (length (positions l x)).
(** The [k]-th set bit, or [n]. *)
Definition nth_bit (l : list Z) (n k : Z) : Z := default n (positions l n !! Z.to_nat k).

Lemma filter_none l a k : (forall i, a <= i < a + k -> tb l i = false) ->
  filter (fun i => tb l i = true) (seqZ a k) = [].
Proof.
  intros Hf. apply elem_of_nil_inv. intros x. rewrite list_elem_of_filter, elem_of_seqZ. intros [Ht Hx].
  by rewrite Hf in Ht.
Qed.

(** The first set bit from [s] on comes after those below [s]. *)
Lemma first_in_nth l s n r : 0 <= s <= n -> first_in (tb l) s n r -> nth_bit l n (rank l s) = r.
Proof.
  intros Hs (Hr & Hlow & Hset). unfold nth_bit, rank. rewrite Nat2Z.id.
  replace n with (s + (n - s)) at 2 by lia. rewrite positions_split by lia.
  rewrite lookup_app_r by lia. rewrite Nat.sub_diag. replace (n - s) with ((r - s) + (n - r)) by lia.
  rewrite seqZ_app, filter_app by lia. rewrite filter_none by (intros; apply Hlow; lia). cbn [app].
  replace (s + (r - s)) with r by lia. destruct (decide (r < n)) as [Hlt|Hge].
  - rewrite seqZ_cons by lia. by rewrite filter_cons_True by auto.
  - rewrite filter_none by (intros; lia). cbn. lia.
Qed.

Lemma rank_succ l x : 0 <= x -> rank l (x + 1) = rank l x + (if tb l x then 1 else 0).
Proof.
  intros Hx. unfold rank. rewrite positions_split, length_app, Nat2Z.inj_add by lia. f_equal.
  rewrite seqZ_cons by lia. cbn [seqZ]. destruct (tb l x) eqn:E.
  - rewrite filter_cons_True by done. done.
  - rewrite filter_cons_False by (by rewrite E). done.
Qed.
Lemma rank_range l x : 0 <= rank l x <= Z.max 0 x.
Proof. unfold rank. pose proof (positions_length l x). lia. Qed.
Lemma rank_size l n : rank l n = Z.of_nat (size (bits_of l n)).
Proof. unfold rank. by rewrite size_bits_of. Qed.
Lemma rank_mono l x y : 0 <= x <= y -> rank l x <= rank l y.
Proof.
  intros Hx. unfold rank. replace y with (x + (y - x)) by lia. rewrite positions_split, length_app by lia. lia.
Qed.

(** [rank] and [nth_bit] are inverse to each other on the set bits. *)
Lemma nth_rank l n x : x ∈ bits_of l n -> nth_bit l n (rank l x) = x.
Proof.
  rewrite elem_bits_of. intros [Hx Ht]. apply first_in_nth; [lia|]. split; [lia|]. split; [intros; lia|done].
Qed.
Lemma nth_bit_spec l n k : 0 <= k < rank l n -> nth_bit l n k ∈ bits_of l n /\ rank l (nth_bit l n k) = k.
Proof.
  intros Hk. unfold rank in Hk. destruct (lookup_Z (positions l n) k Hk) as [x Hx].
  assert (nth_bit l n k = x) as -> by (unfold nth_bit; by rewrite Hx).
  pose proof (list_elem_of_lookup_2 _ _ _ Hx) as Hin. rewrite elem_positions in Hin.
  assert (x ∈ bits_of l n) as Hb by (by apply elem_bits_of). split; [done|].
  pose proof (nth_rank l n x Hb) as Hn. unfold nth_bit in Hn.
  assert (rank l x < rank l n) as Hlt.
  { pose proof (rank_mono l (x + 1) n ltac:(lia)) as Hm. rewrite rank_succ in Hm by lia.
    destruct Hin as [_ E]. rewrite E in Hm. lia. }
  destruct (lookup_Z (positions l n) (rank l x)) as [y Hy]; [pose proof (rank_range l x); unfold rank in *; lia|].
  rewrite Hy in Hn. cbn in Hn. subst y.
  pose proof (NoDup_lookup _ _ _ _ (positions_NoDup l n) Hx Hy). pose proof (rank_range l x). lia.
Qed.
Lemma nth_bit_out l n k : rank l n <= k -> nth_bit l n k = n.
Proof. intros Hk. unfold nth_bit, rank in *. by rewrite lookup_ge_None_2 by lia. Qed.

Section ordinals.
Variables (m : mem) (p : Z) (l : list Z) (n : Z).
Hypotheses (Hh : holds m p l n) (Hn31 : n < 2 ^ 31).

Lemma pos_to_ord_spec pos : 0 <= pos ->
  bitmap_pos_to_ord p pos n m = Ok (if decide (pos ∈ bits_of l n) then rank l pos else -1, m).
Proof.
  intros Hpos. destruct Hh as [Hp Hb]. pose proof Hb as (Hf & Hl & _). unfold bitmap_pos_to_ord.
  destruct (Z.leb_spec n pos).
  { rewrite decide_False by (rewrite elem_bits_of; lia). done. }
  rewrite (Mbind_run _ _ _ _ _ (obj_run m p l Hp)). rewrite (test_bit_spec l n) by (done || lia). rewrite Mbind_lift.
  destruct (tb l pos) eqn:E; cbn [Z.eqb].
  - rewrite decide_True by (by rewrite elem_bits_of). rewrite rank_size. apply bitmap_weight_spec; [|lia].
    split; [done|]. split; [done|lia].
  - rewrite decide_False by (rewrite elem_bits_of, E; naive_solver). done.
Qed.

(** One step of the searches: the set bit after the [k]-th. *)
Lemma next_bit_run k : 0 <= k < rank l n ->
  find_next_bit l n (u32 (nth_bit l n k + 1)) = Ok (nth_bit l n (k + 1)).
Proof.
  intros Hk. destruct Hh as [Hp Hb]. destruct (nth_bit_spec l n k Hk) as [Hin Hr]. rewrite elem_bits_of in Hin.
  set (x := nth_bit l n k) in *. rewrite u32_small by lia.
  destruct (find_next_bit_spec l n (x + 1) Hb) as (r & -> & Hf); [lia|]. f_equal.
  replace (Z.min (x + 1) n) with (x + 1) in Hf by lia. apply first_in_nth in Hf; [|lia].
  rewrite rank_succ, Hr in Hf by lia. destruct Hin as [_ E]. by rewrite E in Hf.
Qed.
Lemma first_bit_run : find_first_bit l n = Ok (nth_bit l n 0).
Proof.
  destruct Hh as [Hp Hb]. destruct (find_first_bit_spec l n Hb) as (r & -> & Hf). f_equal.
  pose proof Hb as (_ & Hn & _). symmetry. by apply (first_in_nth l 0 n r); [lia|].
Qed.

Lemma ord_to_pos_loop_spec fuel k ord : 0 <= k <= rank l n -> 0 <= ord < 2 ^ 32 ->
  (Z.to_nat (rank l n - k) < fuel)%nat ->
  ord_to_pos_loop fuel p ord n (nth_bit l n k) m = Ok (nth_bit l n (k + ord), m).
Proof.
  revert k ord. induction fuel as [|fuel IH]; intros k ord Hk Ho Hf; [lia|]. cbn [ord_to_pos_loop].
  destruct Hh as [Hp Hb]. destruct (decide (k = rank l n)) as [Ek|Ek].
  - rewrite !nth_bit_out by lia. by rewrite Z.ltb_irrefl.
  - destruct (nth_bit_spec l n k) as [Hin Hr]; [lia|]. rewrite elem_bits_of in Hin.
    rewrite (proj2 (Z.ltb_lt _ _)) by lia. destruct (Z.eqb_spec ord 0) as [->|Hz]; cbn [negb andb].
    { by rewrite Z.add_0_r. }
    rewrite (Mbind_run _ _ _ _ _ (obj_run m p l Hp)), next_bit_run, Mbind_lift, (u32_small (ord - 1)) by lia.
    rewrite IH by lia. by replace (k + 1 + (ord - 1)) with (k + ord) by lia.
Qed.

Lemma ord_to_pos_spec ord : 0 <= ord < 2 ^ 32 -> bitmap_ord_to_pos p ord n m = Ok (nth_bit l n ord, m).
Proof.
  intros Ho. destruct Hh as [Hp Hb]. unfold bitmap_ord_to_pos. rewrite (Mbind_run _ _ _ _ _ (obj_run m p l Hp)).
  rewrite first_bit_run, Mbind_lift. pose proof (rank_range l n). pose proof Hb as (_ & Hn & _).
  apply ord_to_pos_loop_spec; lia.
Qed.

(** [for_each_set_bit] visits the set bits in order; the body may write other
    objects. *)
Lemma for_each_inv {A} (I : nat -> A -> mem -> Prop) (f : Z -> A -> B A) acc :
  I 0%nat acc m ->
  (forall j a m', Z.of_nat j < rank l n -> I j a m' ->
     exists a' m'', f (nth_bit l n (Z.of_nat j)) a m' = Ok (a', m'') /\ m'' !! p = Some l /\ I (S j) a' m'') ->
  exists a m', for_each_set_bit p n acc f m = Ok (a, m') /\ I (Z.to_nat (rank l n)) a m'.
Proof.
  intros H0 Hs. destruct Hh as [Hp Hb]. pose proof (rank_range l n) as Hrange. pose proof Hb as (_ & Hn & _).
  assert (forall fuel j a m', (Z.to_nat (rank l n - Z.of_nat j) < fuel)%nat -> Z.of_nat j <= rank l n ->
    I j a m' -> exists a' m'', set_bits_loop fuel p n (nth_bit l n (Z.of_nat j)) a f m' = Ok (a', m'') /\
      I (Z.to_nat (rank l n)) a' m'') as Hloop.
  { induction fuel as [|fuel IH]; intros j a m' Hf Hj Hi; [lia|]. cbn [set_bits_loop].
    destruct (decide (Z.of_nat j = rank l n)) as [Ej|Ej].
    - rewrite nth_bit_out, Z.ltb_irrefl by lia. exists a, m'. split; [done|]. by rewrite <- Ej, Nat2Z.id.
    - destruct (nth_bit_spec l n (Z.of_nat j)) as [Hin _]; [lia|]. rewrite elem_bits_of in Hin.
      rewrite (proj2 (Z.ltb_lt _ _)) by lia. destruct (Hs j a m' ltac:(lia) Hi) as (a' & m'' & E & Hp' & Hi').
      rewrite (Mbind_run _ _ _ _ _ E), (Mbind_run _ _ _ _ _ (obj_run m'' p l Hp')), next_bit_run, Mbind_lift by lia.
      replace (Z.of_nat j + 1) with (Z.of_nat (S j)) by lia. apply IH; [lia|lia|done]. }
  unfold for_each_set_bit. rewrite (Mbind_run _ _ _ _ _ (obj_run m p l Hp)), first_bit_run, Mbind_lift.
  apply (Hloop _ 0%nat acc m); [lia|lia|done].
Qed.
End ordinals.

(** ** Bits written one by one *)

Section drawing.
Variables (m0 : mem) (dst : Z) (dl : list Z) (n : Z).
Hypotheses (Hd : holds m0 dst dl n) (Hn31 : n < 2 ^ 31).

Lemma writes_frame X m p : writes_set m0 dst dl n X m -> p <> dst -> m !! p = m0 !! p.
Proof. intros (dl' & -> & _) Hp. by rewrite lookup_insert_ne. Qed.
Lemma writes_holds X m p l : writes_set m0 dst dl n X m -> p <> dst -> holds m0 p l n -> holds m p l n.
Proof. intros Hw Hp [Hl Hb]. split; [|done]. by rewrite (writes_frame X m). Qed.

Lemma zero_draws : exists m, bitmap_zero dst n m0 = Ok (tt, m) /\ writes_set m0 dst dl n ∅ m.
Proof. by apply (bitmap_zero_spec m0 dst dst dst dl dl dl). Qed.

Lemma set_bit_draws X m b : writes_set m0 dst dl n X m -> 0 <= b < n ->
  exists m', set_bit_at b dst m = Ok (tt, m') /\ writes_set m0 dst dl n ({[b]} ∪ X) m'.
Proof.
  intros (l & -> & Hb & Hlen & HX & Hrest) Hbn. unfold set_bit_at.
  rewrite (Mbind_run _ _ _ _ _ (obj_run _ dst l (lookup_insert_eq _ _ _))).
  destruct (set_bit_spec l n b Hb Hbn) as (l' & -> & Hb' & Hlen' & Ht). rewrite Mbind_lift.
  eexists. split; [done|]. exists l'. rewrite insert_insert_eq. pose proof Hb as (_ & Hn & _).
  split_and!; [done|done|lia| |].
  - apply set_eq. intros i. rewrite elem_of_union, elem_of_singleton, <- HX, !elem_bits_of.
    split; intros Hi.
    + destruct Hi as [Hi Hi']. rewrite Ht in Hi' by lia. apply orb_true_iff in Hi' as [?|?%Z.eqb_eq]; auto.
    + assert (0 <= i < n) by (destruct Hi as [->|[Hi _]]; lia). split; [done|]. rewrite Ht, orb_true_iff, Z.eqb_eq by lia.
      tauto.
  - intros i Hi. destruct (bitmap_words l n Hb) as (_ & _ & _ & En & Hm & Enr).
    rewrite Ht by (rewrite Enr in Hi; case_decide; lia).
    rewrite (proj2 (Z.eqb_neq i b)), orb_false_r; [by apply Hrest|].
    rewrite Enr in Hi. case_decide; lia.
Qed.

(** The set bits of [p] visited one by one, each drawing one bit. *)
Lemma for_each_draws m p l (f : Z -> B unit) (g : Z -> Z) :
  holds m0 p l n -> p <> dst -> writes_set m0 dst dl n ∅ m ->
  (forall x X m', x ∈ bits_of l n -> writes_set m0 dst dl n X m' ->
     0 <= g x < n /\ f x m' = set_bit_at (g x) dst m') ->
  exists m', for_each_set_bit p n tt (fun x _ => f x) m = Ok (tt, m') /\
    writes_set m0 dst dl n (set_map g (bits_of l n)) m'.
Proof.
  intros Hp Hne Hz Hf. pose proof (writes_holds _ _ _ _ Hz Hne Hp) as Hpm.
  destruct (for_each_inv m p l n Hpm Hn31
    (fun j _ m' => writes_set m0 dst dl n (list_to_set (g <$> take j (positions l n))) m') (fun x _ => f x) tt)
    as ([] & m' & E & Hw); [done| |].
  - intros j [] m' Hj Hw. pose proof (nth_bit_spec l n (Z.of_nat j) ltac:(lia)) as [Hin _].
    destruct (Hf _ _ _ Hin Hw) as [Hg ->]. destruct (set_bit_draws _ _ _ Hw Hg) as (m'' & -> & Hw').
    exists tt, m''. split; [done|]. split; [by apply (writes_holds _ _ p l Hw' Hne Hp)|].
    destruct (lookup_Z (positions l n) (Z.of_nat j)) as [x Hx]; [unfold rank in Hj; lia|].
    unfold nth_bit in Hw'. rewrite Hx in Hw'. cbn in Hw'. rewrite Nat2Z.id in Hx.
    rewrite (take_S_r _ _ _ Hx), fmap_app, list_to_set_app_L. cbn. by rewrite union_empty_r_L, union_comm_L.
  - exists m'. split; [done|]. unfold rank in Hw. rewrite Nat2Z.id, firstn_all in Hw.
    replace (set_map g (bits_of l n)) with (list_to_set (g <$> positions l n) : gset Z); [done|].
    apply set_eq. intros i. unfold bits_of. rewrite elem_of_map, elem_of_list_to_set, list_elem_of_fmap.
    split; intros (x & Ei & Hx); exists x; (split; [done|]); [by apply elem_of_list_to_set|by apply elem_of_list_to_set in Hx].
Qed.
End drawing.

(** ** The mappings *)

(** The map given by the bitmaps [lo] and [ln]. *)
Definition remap_bit (lo ln : list Z) (n x : Z) : Z :=
  if decide (x ∈ bits_of lo n /\ rank ln n <> 0) then nth_bit ln n (rank lo x mod rank ln n) else x.

Lemma nth_bit_mod l n k : rank l n <> 0 -> 0 <= nth_bit l n (k mod rank l n) < n.
Proof.
  intros Hz. pose proof (rank_range l n). pose proof (Z.mod_pos_bound k (rank l n) ltac:(lia)) as Hk.
  destruct (nth_bit_spec l n _ Hk) as [Hin _]. rewrite elem_bits_of in Hin. tauto.
Qed.
Lemma remap_bit_range lo ln n x : 0 <= x < n -> 0 <= remap_bit lo ln n x < n.
Proof. intros Hx. unfold remap_bit. case_decide as Hd; [|done]. apply nth_bit_mod. tauto. Qed.

Section mappings.
Variables (m : mem) (dst : Z) (dl : list Z) (n : Z).
Hypotheses (Hd : holds m dst dl n) (Hn31 : n < 2 ^ 31).

Lemma bitmap_remap_spec src old new ls lo ln :
  holds m src ls n -> holds m old lo n -> holds m new ln n -> src <> dst -> old <> dst -> new <> dst ->
  exists m', bitmap_remap dst src old new n m = Ok (tt, m') /\
    writes_set m dst dl n (set_map (remap_bit lo ln n) (bits_of ls n)) m'.
Proof.
  intros Hs Ho Hw Es Eo En. unfold bitmap_remap. rewrite (proj2 (Z.eqb_neq dst src)) by auto.
  destruct (zero_draws m dst dl n Hd) as (m1 & E & Hz). rewrite (Mbind_run _ _ _ _ _ E).
  assert (forall X m', writes_set m dst dl n X m' -> __bitmap_weight new n m' = Ok (rank ln n, m')) as Hwt.
  { intros X m' Hx. rewrite rank_size. apply bitmap_weight_spec; [|done]. by apply (writes_holds m dst dl n X). }
  rewrite (Mbind_run _ _ _ _ _ (Hwt _ _ Hz)). apply for_each_draws; try done. intros x X m' Hx Hm'.
  pose proof Hx as Hx'. rewrite elem_bits_of in Hx'. split; [apply remap_bit_range; tauto|].
  rewrite (Mbind_run _ _ _ _ _ (pos_to_ord_spec m' old lo n (writes_holds m dst dl n X m' old lo Hm' Eo Ho) Hn31 x ltac:(lia))).
  unfold remap_bit. pose proof (rank_range lo x). pose proof (rank_range ln n).
  destruct (decide (x ∈ bits_of lo n)) as [Hin|Hin]; [|by rewrite decide_False by tauto].
  rewrite (proj2 (Z.ltb_ge _ 0)) by lia. cbn [orb].
  destruct (Z.eqb_spec (rank ln n) 0) as [E0|E0]; [by rewrite decide_False by tauto|].
  rewrite decide_True by tauto. pose proof (Z.mod_pos_bound (rank lo x) (rank ln n) ltac:(lia)).
  by rewrite (Mbind_run _ _ _ _ _ (ord_to_pos_spec m' new ln n (writes_holds m dst dl n X m' new ln Hm' En Hw) Hn31 (rank lo x mod rank ln n) ltac:(lia))).
Qed.

Lemma bitmap_bitremap_spec old new lo ln x :
  holds m old lo n -> holds m new ln n -> is_s 32 x ->
  bitmap_bitremap x old new n m = Ok (remap_bit lo ln n x, m).
Proof.
  intros Ho Hw Hx. pose proof Hd as [_ (_ & Hn & _)]. unfold is_s in Hx. unfold bitmap_bitremap.
  rewrite (u32_small n) by lia. rewrite (Mbind_run _ _ _ _ _ (bitmap_weight_spec m new ln n Hw Hn31)), <- rank_size.
  pose proof (u32_range x). rewrite (Mbind_run _ _ _ _ _ (pos_to_ord_spec m old lo n Ho Hn31 (u32 x) ltac:(lia))).
  assert (u32 x ∈ bits_of lo n <-> x ∈ bits_of lo n) as Hiff.
  { rewrite !elem_bits_of. destruct (decide (0 <= x)); [by rewrite u32_small by lia|].
    rewrite u32_neg by lia. lia. }
  unfold remap_bit. pose proof (rank_range ln n).
  destruct (decide (u32 x ∈ bits_of lo n)) as [Hin|Hin]; [|by rewrite decide_False by tauto].
  apply Hiff in Hin as Hin'. pose proof Hin' as Hx'. rewrite elem_bits_of in Hx'. rewrite (u32_small x) by lia.
  pose proof (rank_range lo x). rewrite (proj2 (Z.ltb_ge _ 0)) by lia. cbn [orb].
  destruct (Z.eqb_spec (rank ln n) 0) as [E0|E0]; [by rewrite decide_False by tauto|].
  rewrite decide_True by tauto. pose proof (Z.mod_pos_bound (rank lo x) (rank ln n) ltac:(lia)).
  rewrite Z.rem_mod_nonneg, (u32_small (_ mod _)) by lia.
  rewrite (Mbind_run _ _ _ _ _ (ord_to_pos_spec m new ln n Hw Hn31 (rank lo x mod rank ln n) ltac:(lia))).
  pose proof (nth_bit_mod ln n (rank lo x) E0). unfold mret, M_ret. by rewrite i32_small by lia.
Qed.

Lemma bitmap_fold_spec orig lo sz : holds m orig lo n -> orig <> dst -> 0 < sz ->
  exists m', bitmap_fold dst orig sz n m = Ok (tt, m') /\
    writes_set m dst dl n (set_map (fun x => x mod sz) (bits_of lo n)) m'.
Proof.
  intros Ho Eo Hsz. unfold bitmap_fold. rewrite (proj2 (Z.eqb_neq dst orig)) by auto.
  destruct (zero_draws m dst dl n Hd) as (m1 & E & Hz). rewrite (Mbind_run _ _ _ _ _ E).
  rewrite (proj2 (Z.eqb_neq sz 0)) by lia. apply for_each_draws; try done. intros x X m' Hx _. split; [|done].
  rewrite elem_bits_of in Hx. pose proof (Z.mod_pos_bound x sz Hsz). pose proof (Z.mod_le x sz ltac:(lia) Hsz). lia.
Qed.

(** The bits of [lr] whose rank is in [lo]. *)
Definition onto_bits (lo lr : list Z) : list Z -> list Z := filter (fun x => tb lo (rank lr x) = true).

Lemma bitmap_onto_spec orig relmap lo lr :
  holds m orig lo n -> holds m relmap lr n -> orig <> dst -> relmap <> dst ->
  exists m', bitmap_onto dst orig relmap n m = Ok (tt, m') /\
    writes_set m dst dl n (filter (fun x => rank lr x ∈ bits_of lo n) (bits_of lr n)) m'.
Proof.
  intros Ho Hr Eo Er. unfold bitmap_onto. rewrite (proj2 (Z.eqb_neq dst orig)) by auto.
  destruct (zero_draws m dst dl n Hd) as (m1 & E & Hz). rewrite (Mbind_run _ _ _ _ _ E).
  pose proof (rank_range lr n) as Hrk. pose proof Hd as [_ (_ & Hn & _)].
  match goal with |- context [for_each_set_bit relmap n 0 ?body] =>
    destruct (for_each_inv m1 relmap lr n (writes_holds _ _ _ _ _ _ _ _ Hz Er Hr) Hn31
      (fun j a m' => a = Z.of_nat j /\
        writes_set m dst dl n (list_to_set (onto_bits lo lr (take j (positions lr n)))) m') body 0)
      as (a & m' & E' & _ & Hw); [done| |] end.
  - intros j a m' Hj [-> Hw]. destruct (nth_bit_spec lr n (Z.of_nat j) ltac:(lia)) as [Hin Hx].
    destruct (lookup_Z (positions lr n) (Z.of_nat j)) as [x Hlx]; [unfold rank in Hj; lia|].
    assert (nth_bit lr n (Z.of_nat j) = x) as En by (unfold nth_bit; by rewrite Hlx). rewrite En in *.
    rewrite Nat2Z.id in Hlx. pose proof (writes_holds _ _ _ _ _ _ _ _ Hw Eo Ho) as [Mo Hbo].
    rewrite (Mbind_run _ _ _ _ _ (obj_run m' orig lo Mo)), (test_bit_spec lo n), Mbind_lift by (done || lia).
    pose proof Hin as Hin'. rewrite elem_bits_of in Hin'. rewrite u32_small by lia.
    rewrite (take_S_r _ _ _ Hlx). unfold onto_bits. rewrite filter_app, list_to_set_app_L.
    destruct (tb lo (Z.of_nat j)) eqn:Et; cbn [Z.eqb negb].
    + destruct (set_bit_draws m dst dl n _ _ x Hw) as (m'' & Es & Hw'); [lia|]. rewrite (Mbind_run _ _ _ _ _ Es).
      eexists _, m''. split; [done|]. split; [by apply (writes_holds _ _ _ _ _ _ _ _ Hw' Er Hr)|]. split; [lia|].
      rewrite filter_cons_True by (by rewrite Hx). cbn. by rewrite union_empty_r_L, union_comm_L.
    + rewrite Mbind_ret. eexists _, m'. split; [done|]. split; [by apply (writes_holds _ _ _ _ _ _ _ _ Hw Er Hr)|].
      split; [lia|]. rewrite filter_cons_False by (by rewrite Hx, Et). cbn. by rewrite union_empty_r_L.
  - rewrite (Mbind_run _ _ _ _ _ E'). exists m'. split; [done|]. unfold rank in Hw. rewrite Nat2Z.id, firstn_all in Hw.
    replace (filter (fun x => rank lr x ∈ bits_of lo n) (bits_of lr n))
      with (list_to_set (onto_bits lo lr (positions lr n)) : gset Z); [done|].
    apply set_eq. intros i. unfold onto_bits. rewrite elem_of_filter, elem_of_list_to_set, list_elem_of_filter, !elem_bits_of, elem_positions.
    pose proof (rank_range lr i). split; [intros [Ht Hi]|tauto]. split; [|done]. split; [|done].
    split; [lia|]. pose proof (rank_range lr i). lia.
Qed.
End mappings.

(** * Properties *)

(** The mappings.  [bitmap_remap] leaves in [dst] the image of [src] under the
    map that takes the [k]-th bit of [old] to the [k mod w]-th bit of [new], [w] the
    weight of [new], and every other bit to itself; [bitmap_bitremap] returns that
    image for one bit, any [int].  [bitmap_onto] leaves the bits of [relmap] whose
    rank is in [orig], [bitmap_fold] the bits of [orig] modulo [sz].  All return,
    and change no other object. *)
Theorem bitmap_maps_exact m dst a b d dl la lb ld n sz x :
  holds m dst dl n -> holds m a la n -> holds m b lb n -> holds m d ld n ->
  a <> dst -> b <> dst -> d <> dst -> n < 2 ^ 31 -> 0 < sz -> is_s 32 x ->
  (exists m', bitmap_remap dst a b d n m = Ok (tt, m') /\
     writes_set m dst dl n (set_map (remap_bit lb ld n) (bits_of la n)) m') /\
  bitmap_bitremap x b d n m = Ok (remap_bit lb ld n x, m) /\
  (exists m', bitmap_onto dst a b n m = Ok (tt, m') /\
     writes_set m dst dl n (filter (fun i => rank lb i ∈ bits_of la n) (bits_of lb n)) m') /\
  (exists m', bitmap_fold dst a sz n m = Ok (tt, m') /\
     writes_set m dst dl n (set_map (fun i => i mod sz) (bits_of la n)) m').
Proof.
  intros Hd Ha Hb Hc Ea Eb Ed Hn Hsz Hx. split_and!.
  - by apply bitmap_remap_spec.
  - by apply (bitmap_bitremap_spec m dst dl n Hd).
  - by apply bitmap_onto_spec.
  - by apply bitmap_fold_spec.
Qed.

(** Folding by the weight and then mapping onto: no bit of [orig] is lost, the
    [i]-th lands on the [i mod w]-th bit of [relmap]. *)
Theorem fold_onto_wraps m dst tmp orig relmap dl tl lo lr n :
  holds m dst dl n -> holds m tmp tl n -> holds m orig lo n -> holds m relmap lr n ->
  NoDup [dst; tmp; orig; relmap] -> n < 2 ^ 31 -> rank lr n <> 0 ->
  exists m1 m2 tl',
    bitmap_fold tmp orig (rank lr n) n m = Ok (tt, m1) /\ m1 = <[tmp := tl']> m /\
    bitmap_onto dst tmp relmap n m1 = Ok (tt, m2) /\
    writes_set m1 dst dl n (set_map (fun i => nth_bit lr n (i mod rank lr n)) (bits_of lo n)) m2.
Proof.
  intros Hd Ht Ho Hr Hnd Hn Hw. rewrite !NoDup_cons, !not_elem_of_cons in Hnd.
  destruct Hnd as ((E1 & E2 & E3 & _) & (E4 & E5 & _) & _). pose proof (rank_range lr n).
  destruct (bitmap_fold_spec m tmp tl n Ht Hn orig lo (rank lr n)) as (m1 & Ef & Hf); [done|by auto|lia|].
  pose proof (writes_holds m tmp tl n _ _ _ _ Hf E1 Hd) as Hd1.
  pose proof (writes_holds m tmp tl n _ _ _ _ Hf (not_eq_sym E5) Hr) as Hr1.
  pose proof Hf as (tl' & -> & Hb' & _ & Hx & _).
  destruct (bitmap_onto_spec (<[tmp := tl']> m) dst dl n Hd1 Hn tmp relmap tl' lr) as (m2 & Eo & Hm2);
    [by split; [apply lookup_insert_eq|]|done|by auto|by auto|].
  exists (<[tmp := tl']> m), m2, tl'. split; [exact Ef|]. split; [done|]. split; [exact Eo|].
  replace (set_map _ (bits_of lo n)) with (filter (fun i => rank lr i ∈ bits_of tl' n) (bits_of lr n)); [done|].
  apply set_eq. intros i. rewrite elem_of_filter, Hx, !elem_of_map. split.
  - intros [(j & Ej & Hj) Hi]. exists j. split; [|done]. rewrite <- Ej. symmetry. by apply nth_rank.
  - intros (j & -> & Hj). pose proof (Z.mod_pos_bound j (rank lr n) ltac:(lia)) as Hjm.
    destruct (nth_bit_spec lr n _ Hjm) as [Hin Hrk]. split; [|done]. exists j. by rewrite Hrk.
Qed.

(** * Concrete runs *)

(** The bitmap of [w] words with the bits [ps]. *)
Definition of_bits (w : nat) (ps : list Z) : list Z :=
  foldr (fun b l => match set_bit b l with Ok l' => l' | Fault _ => l end) (replicate w 0) ps.
Definition result (p : Z) (n : Z) (r : res (unit * mem)) : list Z :=
  match r with Ok (_, m) => positions (m !!! p) n | Fault _ => [] end.

(** The examples of the comments: [bitmap_remap], [bitmap_onto], and rows of the
    table for folding and mapping onto. *)
Example remap_example :
  let m := {[1 := of_bits 1 []; 2 := of_bits 1 [1; 5; 7]; 3 := of_bits 1 [4; 5; 6; 7];
             4 := of_bits 1 [12; 13; 14; 15]]} : mem in
  result 1 32 (bitmap_remap 1 2 3 4 32 m) = [1; 13; 15] /\ bitmap_bitremap 5 3 4 32 m = Ok (13, m).
Proof. split; vm_compute; reflexivity. Qed.
Example onto_example :
  let m := {[1 := of_bits 2 []; 2 := of_bits 2 [1; 3; 5; 7; 9; 11]; 3 := of_bits 2 (seqZ 30 10)]} : mem in
  result 1 64 (bitmap_onto 1 2 3 64 m) = [31; 33; 35; 37; 39].
Proof. vm_compute. reflexivity. Qed.
Example fold_onto_example (o := [0; 9; 18; 27]) :
  let m := {[1 := of_bits 3 []; 2 := of_bits 3 o; 3 := of_bits 3 [40; 41; 42; 43; 45; 48; 53; 61; 74; 95];
             4 := of_bits 3 []]} : mem in
  result 4 96 (bitmap_fold 4 2 10 96 m) = [0; 7; 8; 9] /\
  result 1 96 ((bitmap_fold 4 2 10 96;; bitmap_onto 1 4 3 96) m) = [40; 61; 74; 95].
Proof. split; vm_compute; reflexivity. Qed.

(** The loop that the comment in [bitmap_onto] calls equivalent takes its positions
    from [orig], not from [relmap]: its position for [m = 1] here is 32, outside
    the bitmap, where the code sets bit 5. *)
Theorem onto_comment_differs :
  let m := {[1 := of_bits 1 []; 2 := of_bits 1 [1]; 3 := of_bits 1 [4; 5]]} : mem in
  result 1 32 (bitmap_onto 1 2 3 32 m) = [5] /\ bitmap_ord_to_pos 2 1 32 m = Ok (32, m).
Proof. split; vm_compute; reflexivity. Qed.
(** The comment of [bitmap_pos_to_ord] counts position [nbits] among the valid
    ones; it is mapped to -1 even when the bit is set. *)
Theorem pos_to_ord_end :
  let m := {[1 := of_bits 1 [3; 8]]} : mem in
  bitmap_pos_to_ord 1 8 8 m = Ok (-1, m) /\ bitmap_pos_to_ord 1 8 9 m = Ok (1, m).
Proof. split; vm_compute; reflexivity. Qed.

Definition ex_maps : mem := {[1 := [7; 0]; 2 := [0x90; 1]; 3 := [0xF0; 3]; 4 := [0; 6]]}.

Lemma bitmap_maps_exact_witness :
  (exists m', bitmap_remap 1 2 3 4 40 ex_maps = Ok (tt, m') /\
     writes_set ex_maps 1 [7; 0] 40 (set_map (remap_bit [0xF0; 3] [0; 6] 40) (bits_of [0x90; 1] 40)) m') /\
  bitmap_bitremap (-5) 3 4 40 ex_maps = Ok (remap_bit [0xF0; 3] [0; 6] 40 (-5), ex_maps) /\
  (exists m', bitmap_onto 1 2 3 40 ex_maps = Ok (tt, m') /\
     writes_set ex_maps 1 [7; 0] 40
       (filter (fun i => rank [0xF0; 3] i ∈ bits_of [0x90; 1] 40) (bits_of [0xF0; 3] 40)) m') /\
  (exists m', bitmap_fold 1 2 6 40 ex_maps = Ok (tt, m') /\
     writes_set ex_maps 1 [7; 0] 40 (set_map (fun i => i mod 6) (bits_of [0x90; 1] 40)) m').
Proof.
  apply (bitmap_maps_exact ex_maps 1 2 3 4); try lia; try (by unfold is_s; lia);
    (split; [vm_compute; reflexivity|split; [repeat constructor; unfold is_u; lia|cbn; lia]]).
Defined.
