(* ===== verification/KGlob.v ===== *)
(** * lib/glob.c: shell patterns

    [glob_match] with its single level of backtracking, against a declarative
    reading of patterns.  Both strings are only read: a pointer is the list of the
    bytes from there to the end of the object, as in KString.  The loop carries
    fuel; quadratic fuel suffices. *)

From S2P Require Import Prelude KString.
Open Scope Z_scope.

(** ** The code *)

(** The [do] loop over the spans of a character class: [a] is the character read
    last and [class] what follows it.  [None] is [goto literal]. *)
Fixpoint class_loop (class : list Z) (a c : Z) (m : bool) {struct class} : res (option (bool * list Z)) :=
  if a =? 0 then Ok None
  else
    let close (b : Z) (class : list Z) :=      (* the end of the body and the [while] test *)
      let m := m || ((a <=? c) && (c <=? b)) in
      match class with
      | [] => Fault OutOfBounds
      | a' :: class' => if negb (a' =? 93) then class_loop class' a' c m else Ok (Some (m, class'))
      end in
    match class with
    | [] => Fault OutOfBounds
    | c0 :: rest =>
        if c0 =? 45 then
          match rest with
          | [] => Fault OutOfBounds
          | c1 :: rest' =>
              if negb (c1 =? 93) then if c1 =? 0 then Ok None else close c1 rest'
              else close a class
          end
        else close a class
    end.

(** The [for] loop; [back] is [back_pat] with [back_str]. *)
Fixpoint glob_loop (fuel : nat) (pat str : list Z) (back : option (list Z * list Z)) : res bool :=
  match fuel with
  | O => Fault NoFuel
  | S fuel' =>
      c ← rd str;
      d ← rd pat;
      let start := str in
      let str := tail str in
      let pat := tail pat in
      let backtrack :=
        match back with
        | None => Ok false
        | Some (back_pat, back_str) =>
            if c =? 0 then Ok false
            else let back_str := tail back_str in glob_loop fuel' back_pat back_str (Some (back_pat, back_str))
        end in
      let literal (d : Z) (pat : list Z) :=
        if c =? d then if d =? 0 then Ok true else glob_loop fuel' pat str back
        else backtrack in
      if d =? 63 then
        if c =? 0 then Ok false else glob_loop fuel' pat str back
      else if d =? 42 then
        p ← rd pat;
        if p =? 0 then Ok true else glob_loop fuel' pat start (Some (pat, start))
      else if d =? 91 then
        p ← rd pat;
        let inverted := p =? 33 in
        let class := if inverted then tail pat else pat in
        a ← rd class;
        r ← class_loop (tail class) a c false;
        match r with
        | None => literal d pat
        | Some (m, class) =>
            if eqb m inverted then backtrack else glob_loop fuel' class str back
        end
      else if d =? 92 then
        d ← rd pat;
        literal d (tail pat)
      else literal d pat
  end.
Definition glob_match (pat str : list Z) : res bool :=
  glob_loop ((length str + 1) * (length pat + 1)) pat str None.

(** * What a pattern means *)

(** The spans of a character class whose first character is [a], and the text after
    the closing bracket; [None] when there is no closing bracket. *)
Fixpoint class_spans (p : list Z) (a : Z) : option (list (Z * Z) * list Z) :=
  let close (b : Z) (p : list Z) :=
    match p with
    | [] => None
    | a' :: rest =>
        if decide (a' = 93) then Some ([(a, b)], rest)
        else r ← class_spans rest a'; Some ((a, b) :: r.1, r.2)
    end in
  match p with
  | [] => None
  | c :: rest =>
      if decide (c = 45) then
        match rest with
        | [] => None
        | b :: rest' => if decide (b = 93) then close a p else close b rest'
        end
      else close a p
  end.

(** The class that follows an opening bracket: complemented or not, spans, rest. *)
Definition class_of (p : list Z) : option (bool * list (Z * Z) * list Z) :=
  let neg := bool_decide (head p = Some 33) in
  match if neg then tail p else p with
  | [] => None
  | a :: q => r ← class_spans q a; Some (neg, r.1, r.2)
  end.

Definition in_spans (c : Z) (sp : list (Z * Z)) : bool :=
  existsb (fun ab => (ab.1 <=? c) && (c <=? ab.2)) sp.

(** [gmatch p t]: pattern [p] matches the whole of [t]. *)
Inductive gmatch : list Z -> list Z -> Prop :=
  | gm_end : gmatch [] []
  | gm_any p c s : gmatch p s -> gmatch (63 :: p) (c :: s)
  | gm_star_none p s : gmatch p s -> gmatch (42 :: p) s
  | gm_star_more p c s : gmatch (42 :: p) s -> gmatch (42 :: p) (c :: s)
  | gm_class p neg sp q c s :
      class_of p = Some (neg, sp, q) -> in_spans c sp <> neg -> gmatch q s -> gmatch (91 :: p) (c :: s)
  | gm_bracket p s : class_of p = None -> gmatch p s -> gmatch (91 :: p) (91 :: s)
  | gm_escape d p s : gmatch p s -> gmatch (92 :: d :: p) (d :: s)
  | gm_escape_end : gmatch [92] []
  | gm_literal d p s : d ∉ [63; 42; 91; 92] -> gmatch p s -> gmatch (d :: p) (d :: s).

(** No class of the pattern is complemented. *)
Definition no_neg (p : list Z) : Prop := forall q, ~ (91 :: 33 :: q) `suffix_of` p.

(** * Lemmas *)

(** ** Classes *)

(** The two ends of a span's handling, as functions of the recursive call. *)
Lemma class_loop_eq p a c m :
  class_loop p a c m =
  if a =? 0 then Ok None
  else
    let close b q :=
      match q with
      | [] => Fault OutOfBounds
      | a' :: q' =>
          if negb (a' =? 93) then class_loop q' a' c (m || ((a <=? c) && (c <=? b)))
          else Ok (Some (m || ((a <=? c) && (c <=? b)), q'))
      end in
    c0 ← rd p;
    if c0 =? 45 then
      c1 ← rd (tail p);
      if negb (c1 =? 93) then if c1 =? 0 then Ok None else close c1 (tail (tail p)) else close a p
    else close a p.
Proof. by destruct p as [|? [|? ?]]. Qed.

Lemma class_loop_spec p a c m r :
  text p -> a <> 0 ->
  class_loop (cstr p r) a c m =
  Ok (match class_spans p a with
      | Some (sp, rest) => Some (m || in_spans c sp, cstr rest r)
      | None => None
      end).
Proof.
  remember (length p) as n eqn:Hn. revert p Hn a m.
  induction (lt_wf n) as [n _ IH]. intros p -> a m Hp Ha.
  rewrite class_loop_eq, (proj2 (Z.eqb_neq a 0)) by done. cbn zeta.
  assert (forall b q, text q -> (length q <= length p)%nat ->
    match cstr q r with
    | [] => Fault OutOfBounds
    | a' :: q' =>
        if negb (a' =? 93) then class_loop q' a' c (m || ((a <=? c) && (c <=? b)))
        else Ok (Some (m || ((a <=? c) && (c <=? b)), q'))
    end =
    Ok (match match q with
              | [] => None
              | a' :: rest =>
                  if decide (a' = 93) then Some ([(a, b)], rest)
                  else r ← class_spans rest a'; Some ((a, b) :: r.1, r.2)
              end with
        | Some (sp, rest) => Some (m || in_spans c sp, cstr rest r)
        | None => None
        end)) as Hclose.
  { intros b [|a' q] Hq Hl; cbn [app]; [by destruct r|].
    apply Forall_cons in Hq as [Ha' Hq]. destruct (Z.eqb_spec a' 93), (decide (a' = 93)); try done; cbn [negb].
    - unfold in_spans. cbn. by rewrite orb_false_r.
    - cbn [length] in Hl. rewrite (IH (length q)) by (done || lia).
      destruct (class_spans q a') as [[sp rest]|]; cbn; [|done]. unfold in_spans. cbn. by rewrite orb_assoc. }
  destruct p as [|c0 p]; cbn [app rd mbind res_bind class_spans tail].
  { by destruct r. }
  change (c0 :: cstr p r) with (cstr (c0 :: p) r).
  apply Forall_cons in Hp as Hp'. destruct Hp' as [Hc0 Hp'].
  destruct (Z.eqb_spec c0 45), (decide (c0 = 45)); try done; [|by apply (Hclose a (c0 :: p))].
  destruct p as [|c1 p]; cbn [app rd mbind res_bind tail]; [done|].
  apply Forall_cons in Hp' as [Hc1 Hp'].
  destruct (Z.eqb_spec c1 93), (decide (c1 = 93)); try done; cbn [negb].
  - by apply (Hclose a (c0 :: c1 :: p)).
  - rewrite (proj2 (Z.eqb_neq c1 0)) by done. apply (Hclose c1 p); [done | cbn; lia].
Qed.

Lemma class_spans_inv p a sp rest :
  bytes p -> 0 < a -> class_spans p a = Some (sp, rest) ->
  rest `suffix_of` p /\ (length rest < length p)%nat /\ Forall (fun ab => 0 < ab.1) sp.
Proof.
  remember (length p) as n eqn:Hn. revert p Hn a sp.
  induction (lt_wf n) as [n _ IH]. intros p -> a sp Hp Ha.
  assert (forall b q, bytes q -> (length q <= length p)%nat -> q `suffix_of` p ->
    match q with
    | [] => None
    | a' :: rest =>
        if decide (a' = 93) then Some ([(a, b)], rest)
        else r ← class_spans rest a'; Some ((a, b) :: r.1, r.2)
    end = Some (sp, rest) ->
    rest `suffix_of` p /\ (length rest < length p)%nat /\ Forall (fun ab => 0 < ab.1) sp) as Hclose.
  { intros b [|a' q] Hq Hl Hs; [done|]. apply Forall_cons in Hq as [Ha' Hq]. cbn [length] in Hl.
    assert (q `suffix_of` p) by (etrans; [|exact Hs]; by apply suffix_cons_r).
    case_decide.
    - intros [= <- <-]. split; [done|]. split; [lia|]. by repeat constructor.
    - destruct (class_spans q a') as [[sp' rest']|] eqn:E; [|done]. cbn. intros [= <- <-].
      destruct (IH (length q) ltac:(lia) q eq_refl a' sp') as (Hs' & Hl' & Hf); [done|lia|done|].
      split; [by etrans|]. split; [lia|]. by constructor. }
  destruct p as [|c0 p]; cbn [class_spans]; [done|].
  apply Forall_cons in Hp as Hp'. destruct Hp' as [Hc0 Hp'].
  case_decide; [|by apply (Hclose a (c0 :: p))].
  destruct p as [|c1 p]; [done|]. apply Forall_cons in Hp' as [Hc1 Hp'].
  case_decide; [by apply (Hclose a (c0 :: c1 :: p))|]. apply (Hclose c1 p); [done | cbn; lia | by do 2 apply suffix_cons_r].
Qed.

Lemma class_of_inv p neg sp q :
  bytes p -> class_of p = Some (neg, sp, q) ->
  q `suffix_of` p /\ (length q < length p)%nat /\ Forall (fun ab => 0 < ab.1) sp /\ (neg = true -> head p = Some 33).
Proof.
  unfold class_of. intros Hp. case_bool_decide as Hh.
  - destruct p as [|x p]; [done|]. cbn [tail]. apply Forall_cons in Hp as [Hx Hp].
    destruct p as [|a p]; [done|]. apply Forall_cons in Hp as [Ha Hp].
    destruct (class_spans p a) as [[sp' q']|] eqn:E; [|done]. intros [= <- <- <-].
    apply class_spans_inv in E as (Hs & Hl & Hf); [|done|lia].
    split_and!; [by do 2 apply suffix_cons_r | cbn; lia | done | done].
  - destruct p as [|a p]; [done|]. apply Forall_cons in Hp as [Ha Hp].
    destruct (class_spans p a) as [[sp' q']|] eqn:E; [|done]. intros [= <- <- <-].
    apply class_spans_inv in E as (Hs & Hl & Hf); [|done|lia].
    split_and!; [by apply suffix_cons_r | cbn; lia | done | done].
Qed.

Lemma class_of_neg p neg sp q : class_of p = Some (neg, sp, q) -> (default 0 (head p) =? 33) = neg.
Proof.
  unfold class_of. intros E. transitivity (bool_decide (head p = Some 33)).
  - clear E. destruct p as [|x p]; [done|]. cbn [head default from_option]. unfold id.
    destruct (Z.eqb_spec x 33); case_bool_decide; congruence.
  - destruct (if bool_decide _ then _ else _) as [|a r]; [done|].
    destruct (class_spans r a) as [[]|]; [|done]. by injection E.
Qed.

(** Parsing a class in memory. *)
Lemma class_code p c r :
  text p ->
  let class := if default 0 (head p) =? 33 then tail (cstr p r) else cstr p r in
  exists a, rd class = Ok a /\
    class_loop (tail class) a c false =
    Ok (match class_of p with
        | Some (_, sp, q) => Some (in_spans c sp, cstr q r)
        | None => None
        end).
Proof.
  intros Hp class. assert (exists q, class = cstr q r /\ text q /\
    class_of p = match q with
                 | [] => None
                 | a :: q => r ← class_spans q a; Some (bool_decide (head p = Some 33), r.1, r.2)
                 end) as (q & -> & Hq & ->).
  { unfold class, class_of. destruct p as [|x p]; [by exists []|]. cbn [head default from_option app tail]. unfold id.
    destruct (Z.eqb_spec x 33) as [->|].
    - rewrite bool_decide_eq_true_2 by done. exists p. by apply Forall_cons in Hp as [_ ?].
    - rewrite bool_decide_eq_false_2 by congruence. by exists (x :: p). }
  destruct q as [|a q]; cbn [app rd tail]; [exists 0; by destruct r|].
  apply Forall_cons in Hq as [Ha Hq]. exists a. split; [done|]. rewrite class_loop_spec by done.
  by destruct (class_spans q a) as [[sp q']|].
Qed.

(** ** Matching *)

(** A pattern whose first item takes exactly one character, of the set [R]. *)
Definition one_char (p : list Z) (R : Z -> Prop) (q : list Z) : Prop :=
  forall s, gmatch p s <-> exists c s', s = c :: s' /\ R c /\ gmatch q s'.

Lemma one_any p : one_char (63 :: p) (fun _ => True) p.
Proof.
  intros s. split.
  - inversion 1; subst; [eauto|set_solver].
  - intros (c & s' & -> & _ & ?). by constructor.
Qed.

Lemma one_class p neg sp q :
  class_of p = Some (neg, sp, q) -> one_char (91 :: p) (fun c => in_spans c sp <> neg) q.
Proof.
  intros E s. split.
  - inversion 1; subst; [|congruence|set_solver]. simplify_eq. eauto.
  - intros (c & s' & -> & ? & ?). by eapply gm_class.
Qed.

Lemma one_bracket p : class_of p = None -> one_char (91 :: p) (fun c => c = 91) p.
Proof.
  intros E s. split.
  - inversion 1; subst; [congruence|eauto|set_solver].
  - intros (c & s' & -> & -> & ?). by apply gm_bracket.
Qed.

Lemma one_escape d p : one_char (92 :: d :: p) (fun c => c = d) p.
Proof.
  intros s. split.
  - inversion 1; subst; [eauto|set_solver].
  - intros (c & s' & -> & -> & ?). by constructor.
Qed.

Lemma one_literal d p : d ∉ [63; 42; 91; 92] -> one_char (d :: p) (fun c => c = d) p.
Proof.
  intros Hd s. split.
  - inversion 1; subst; try set_solver.
  - intros (c & s' & -> & -> & ?). by apply gm_literal.
Qed.

Lemma gmatch_nil s : gmatch [] s <-> s = [].
Proof. split; [by inversion 1 | intros ->; constructor]. Qed.

Lemma gmatch_escape_end s : gmatch [92] s <-> s = [].
Proof. split; [inversion 1; subst; [done|set_solver] | intros ->; constructor]. Qed.

Lemma gmatch_star p s : gmatch (42 :: p) s <-> exists k, (k <= length s)%nat /\ gmatch p (drop k s).
Proof.
  split.
  - remember (42 :: p) as q eqn:Hq. induction 1 as [| | ? s H| ? c s H IH | | | | |]; simplify_eq.
    + exists O. split; [lia|done].
    + destruct (IH eq_refl) as (k & ? & ?). exists (S k). cbn. split; [lia|done].
    + exfalso. match goal with Hn : 42 ∉ _ |- _ => apply Hn; set_solver end.
  - intros (k & Hk & H). revert s Hk H. induction k as [|k IH]; intros s Hk H.
    + by apply gm_star_none.
    + destruct s as [|c s]; [cbn in Hk; lia|]. apply gm_star_more, IH; [cbn in Hk; lia|done].
Qed.

(** ** Backtracking *)

(** The part of pattern [p] in front of its suffix [q] takes exactly [n] characters. *)
Definition takes (p q : list Z) (n : nat) : Prop :=
  forall s, gmatch p s -> (n <= length s)%nat /\ gmatch q (drop n s).

(** What the saved position still promises: a match further along the text. *)
Definition later (back : option (list Z * list Z)) : Prop :=
  match back with
  | None => False
  | Some (bp, bs) => exists k, (1 <= k <= length bs)%nat /\ gmatch bp (drop k bs)
  end.

(** The saved position belongs to the current one: [str] is where the fixed items
    between them have led. *)
Definition saved (back : option (list Z * list Z)) (pat str : list Z) : Prop :=
  match back with
  | None => True
  | Some (bp, bs) => exists n, (n <= length bs)%nat /\ str = drop n bs /\ takes bp pat n
  end.

Lemma takes_step p q n R q' : takes p q n -> one_char q R q' -> takes p q' (S n).
Proof.
  intros Ht Ho s Hs. apply Ht in Hs as [Hn Hs]. apply Ho in Hs as (c & s' & E & _ & Hs).
  assert (length (drop n s) = S (length s')) as Hl by by rewrite E. rewrite length_drop in Hl.
  split; [lia|]. replace (S n) with (n + 1)%nat by lia. by rewrite <- drop_drop, E.
Qed.

Lemma saved_step back pat R q c s : saved back pat (c :: s) -> one_char pat R q -> saved back q s.
Proof.
  destruct back as [[bp bs]|]; [|done]. intros (n & Hn & E & Ht) Ho. exists (S n).
  assert (length (drop n bs) = S (length s)) as Hl by by rewrite <- E. rewrite length_drop in Hl.
  split; [lia|]. split; [|by eapply takes_step].
  replace (S n) with (n + 1)%nat by lia. by rewrite <- drop_drop, <- E.
Qed.

(** At the end of the text there is nothing to go back for. *)
Lemma saved_end back pat : saved back pat [] -> ~ later back.
Proof.
  destruct back as [[bp bs]|]; [|by intros _ []]. intros (n & Hn & E & Ht) (k & Hk & Hm).
  apply Ht in Hm as [Hm _]. rewrite length_drop in Hm.
  apply (f_equal length) in E. rewrite length_drop in E. cbn in E. lia.
Qed.

(** A star makes the older saved position superfluous. *)
Lemma later_star back p str :
  saved back (42 :: p) str -> later back -> gmatch (42 :: p) str.
Proof.
  destruct back as [[bp bs]|]; [|by intros _ []]. intros (n & Hn & -> & Ht) (k & Hk & Hm).
  apply Ht in Hm as [Hm Hg]. rewrite length_drop in Hm. rewrite drop_drop, Nat.add_comm, <- drop_drop in Hg.
  apply gmatch_star in Hg as (j & Hj & Hg). rewrite drop_drop in Hg. rewrite !length_drop in Hj.
  apply gmatch_star. exists (k + j)%nat. rewrite length_drop. split; [lia|done].
Qed.

Lemma later_retry bp c bs :
  gmatch bp bs \/ later (Some (bp, bs)) <-> later (Some (bp, c :: bs)).
Proof.
  cbn. split.
  - intros [H|(k & Hk & H)]; [exists 1%nat | exists (S k)]; (split; [lia|done]).
  - intros (k & Hk & H). destruct k as [|[|k]]; [lia | by left |].
    right. exists (S k). split; [lia|done].
Qed.

Lemma saved_refl p s : saved (Some (p, s)) p s.
Proof. exists O. split; [lia|]. split; [done|]. intros t Ht. split; [lia|done]. Qed.

(** ** The loop *)

(** What a run must return for a match [P].  A fault is the read past the text
    that a complemented class allows. *)
Definition good (safe : bool) (P : Prop) (r : res bool) : Prop :=
  match r with
  | Ok b => b = true <-> P
  | Fault f => f = OutOfBounds /\ safe = false
  end.

Lemma good_iff safe P Q r : P <-> Q -> good safe P r -> good safe Q r.
Proof. unfold good. destruct r; [tauto|done]. Qed.

Section loop.
Context (safe : bool) (rp rt : list Z) (N : nat).

(** A pattern the run may stand at. *)
Definition pattern (p : list Z) : Prop :=
  bytes p /\ (length p < N)%nat /\ if safe then no_neg p else rt = [].

Record ready (L : nat) (pat str : list Z) (back : option (list Z * list Z)) : Prop := {
  r_pat : pattern pat;
  r_str : text str;
  r_len : (length str <= L)%nat;
  r_back : match back with
           | None => True
           | Some (bp, bs) => pattern bp /\ text bs /\ (length bs <= L)%nat
           end;
  r_saved : saved back pat str;
}.

Definition in_memory (back : option (list Z * list Z)) : option (list Z * list Z) :=
  match back with None => None | Some (bp, bs) => Some (cstr bp rp, cstr bs rt) end.

Definition runs (fuel : nat) : Prop := forall L pat str back,
  ready L pat str back -> (L * N + length pat + 2 <= fuel)%nat ->
  good safe (gmatch pat str \/ later back) (glob_loop fuel (cstr pat rp) (cstr str rt) (in_memory back)).

Lemma pattern_suffix p q : pattern p -> q `suffix_of` p -> pattern q.
Proof.
  intros (Hb & Hl & Hs) [k ->]. apply Forall_app in Hb as [_ Hb]. rewrite length_app in Hl.
  split; [done|]. split; [lia|]. destruct safe; [|done].
  intros r Hr. apply (Hs r). etrans; [exact Hr|]. by exists k.
Qed.

(** The next item accepts the character. *)
Lemma runs_consume fuel L pat q R c s back :
  runs fuel -> ready L pat (c :: s) back -> (L * N + length pat + 1 <= fuel)%nat ->
  one_char pat R q -> q `suffix_of` pat -> (length q < length pat)%nat -> R c ->
  good safe (gmatch pat (c :: s) \/ later back) (glob_loop fuel (cstr q rp) (cstr s rt) (in_memory back)).
Proof.
  intros IH [Hp Ht Hl Hb Hsv] Hf Ho Hsuf Hlen HR. apply Forall_cons in Ht as [Hc Ht]. cbn in Hl.
  eapply good_iff; [|apply (IH L q s back)]; [|split; try done|lia].
  - rewrite (Ho (c :: s)). split; (intros [H|H]; [left|by right]); [eauto|].
    by destruct H as (? & ? & [= <- <-] & _ & H).
  - by eapply pattern_suffix.
  - lia.
  - by eapply saved_step.
Qed.

(** It does not: back to the star, if there is one and there is text left. *)
Lemma runs_backtrack fuel L pat str back :
  runs fuel -> ready L pat str back -> (L * N + length pat + 1 <= fuel)%nat -> ~ gmatch pat str ->
  good safe (gmatch pat str \/ later back)
    (match in_memory back with
     | None => Ok false
     | Some (bp, bs) =>
         if default 0 (head str) =? 0 then Ok false else glob_loop fuel bp (tail bs) (Some (bp, tail bs))
     end).
Proof.
  intros IH [Hp Ht Hl Hb Hsv] Hf Hm.
  destruct str as [|c s].
  { pose proof (saved_end _ _ Hsv). destruct back as [[bp bs]|]; cbn; tauto || (split; [done|tauto]). }
  apply Forall_cons in Ht as [Hc Ht]. cbn [head default from_option]. unfold id.
  rewrite (proj2 (Z.eqb_neq c 0)) by done.
  destruct back as [[bp bs]|]; cbn [in_memory]; [|cbn; split; [done|tauto]].
  destruct Hsv as (n & Hn & E & Htk). destruct bs as [|b bs]; [by rewrite drop_nil in E|].
  destruct Hb as (Hbp & Hbt & Hbl). apply Forall_cons in Hbt as [_ Hbt]. cbn [app tail length] in *.
  eapply good_iff; [|apply (IH (length bs) bp bs (Some (bp, bs)))].
  - rewrite later_retry. split; [by right | by intros [|]].
  - split; try done. apply saved_refl.
  - destruct Hbp as (_ & Hbp & _). nia.
Qed.

(** The character is compared with the literal [d]. *)
Lemma runs_literal fuel L pat q d str back :
  runs fuel -> ready L pat str back -> (L * N + length pat + 1 <= fuel)%nat -> d <> 0 ->
  one_char pat (fun c => c = d) q -> q `suffix_of` pat -> (length q < length pat)%nat ->
  good safe (gmatch pat str \/ later back)
    (if default 0 (head str) =? d
     then if d =? 0 then Ok true else glob_loop fuel (cstr q rp) (tail (cstr str rt)) (in_memory back)
     else match in_memory back with
          | None => Ok false
          | Some (bp, bs) =>
              if default 0 (head str) =? 0 then Ok false else glob_loop fuel bp (tail bs) (Some (bp, tail bs))
          end).
Proof.
  intros IH Hr Hf Hd Ho Hsuf Hlen. rewrite (proj2 (Z.eqb_neq d 0)) by done.
  destruct (Z.eqb_spec (default 0 (head str)) d) as [E|E].
  - destruct str as [|c s]; cbn in E; [lia|]. cbn [app tail]. by eapply runs_consume.
  - apply (runs_backtrack _ L); [done..|]. intros H. apply Ho in H as (? & ? & -> & ? & _). done.
Qed.

(** The pattern has ended. *)
Lemma runs_end fuel L pat str back q :
  runs fuel -> ready L pat str back -> (L * N + length pat + 1 <= fuel)%nat ->
  (forall s, gmatch pat s <-> s = []) ->
  good safe (gmatch pat str \/ later back)
    (if default 0 (head str) =? 0
     then if 0 =? 0 then Ok true else glob_loop fuel q (tail (cstr str rt)) (in_memory back)
     else match in_memory back with
          | None => Ok false
          | Some (bp, bs) =>
              if default 0 (head str) =? 0 then Ok false else glob_loop fuel bp (tail bs) (Some (bp, tail bs))
          end).
Proof.
  intros IH Hr Hf Ho. destruct (Z.eqb_spec (default 0 (head str)) 0) as [E|E].
  - destruct str as [|c s]; cbn in E; [cbn; split; [by left; apply Ho | done]|].
    destruct Hr as [_ Ht _ _ _]. apply Forall_cons in Ht as [? _]. done.
  - pose proof (runs_backtrack fuel L pat str back IH Hr Hf) as H.
    rewrite (proj2 (Z.eqb_neq _ 0)) in H by done. apply H. intros Hg. apply Ho in Hg as ->. done.
Qed.

(** The character is compared with a class; past the end of the text only a
  complemented class accepts the terminator. *)
Lemma runs_class fuel L p neg sp q str back :
  runs fuel -> ready L (91 :: p) str back -> (L * N + length p + 2 <= fuel)%nat ->
  class_of p = Some (neg, sp, q) ->
  good safe (gmatch (91 :: p) str \/ later back)
    (if eqb (in_spans (default 0 (head str)) sp) neg
     then match in_memory back with
          | None => Ok false
          | Some (bp, bs) =>
              if default 0 (head str) =? 0 then Ok false else glob_loop fuel bp (tail bs) (Some (bp, tail bs))
          end
     else glob_loop fuel (cstr q rp) (tail (cstr str rt)) (in_memory back)).
Proof.
  intros IH Hr Hf E. pose proof (one_class _ _ _ _ E) as Ho. pose proof Hr as [Hp Ht _ _ _].
  assert (bytes p) as Hbp by (destruct Hp as [Hp _]; by apply Forall_cons in Hp as [_ ?]).
  apply class_of_inv in E as (Hsuf & Hlen & Hsp & Hneg); [|done].
  destruct (eqb _ _) eqn:Eb.
  - apply (runs_backtrack _ L); [done..|cbn; lia|]. apply eqb_prop in Eb. intros H.
    apply Ho in H as (c & s & -> & Hc & _). done.
  - apply eqb_false_iff in Eb. destruct str as [|c s]; cbn [app tail head default from_option] in *.
    + (* the terminator *)
      assert (in_spans 0 sp = false) as E0.
      { apply not_true_is_false. unfold in_spans. rewrite existsb_exists. intros ([a b] & Hin & H).
        apply list_elem_of_In in Hin. rewrite Forall_forall in Hsp. specialize (Hsp _ Hin). cbn in *. lia. }
      unfold id in *. rewrite E0 in Eb. destruct neg; [|done].
      destruct Hp as (_ & _ & Hs). destruct fuel as [|fuel]; [lia|].
      specialize (Hneg eq_refl). destruct p as [|x p]; [done|]. injection Hneg as ->.
      destruct safe; [by destruct (Hs p)|]. by rewrite Hs.
    + eapply (runs_consume fuel L (91 :: p) q _ c s back IH Hr); [cbn; lia|exact Ho| |cbn; lia|exact Eb].
      by apply suffix_cons_r.
Qed.

Lemma runs_all fuel : runs fuel.
Proof.
  induction fuel as [|fuel IH]; intros L pat str back Hr Hf; [lia|].
  assert (rd (cstr str rt) = Ok (default 0 (head str))) as Ec by by destruct str.
  cbn [glob_loop]. rewrite Ec. cbn [mbind res_bind].
  destruct pat as [|d p]; cbn [app rd mbind res_bind].
  { apply (runs_end fuel L [] str back rp IH Hr); [cbn in *; lia|apply gmatch_nil]. }
  cbn [length] in Hf. cbn [tail]. pose proof Hr as [Hp Ht Hl Hb Hsv].
  assert (bytes p /\ d <> 0) as [Hbp Hd].
  { destruct Hp as [Hp _]. apply Forall_cons in Hp as [? ?]. split; [done|lia]. }
  assert (p `suffix_of` d :: p) as Hps by by apply suffix_cons_r.
  assert (rd (cstr p rp) = Ok (default 0 (head p))) as Ep by by destruct p.
  destruct (Z.eqb_spec d 63) as [->|D1].
  { destruct str as [|c s]; cbn [head default from_option app tail].
    - cbn. split; [done|]. intros [H|H]; [apply one_any in H as (? & ? & ? & _); done|].
      by destruct (saved_end _ _ Hsv).
    - apply Forall_cons in Ht as [Hc _]. unfold id. rewrite (proj2 (Z.eqb_neq c 0)) by done.
      eapply runs_consume; [done..|cbn; lia|apply one_any|done|cbn; lia|done]. }
  destruct (Z.eqb_spec d 42) as [->|D2].
  { rewrite Ep. cbn [mbind res_bind].
    destruct p as [|p0 p']; cbn [head default from_option].
    - cbn. split; [|done]. intros _. left. apply gmatch_star. exists (length str).
      split; [done|]. rewrite drop_all. constructor.
    - set (p := p0 :: p') in *. apply Forall_cons in Hbp as Hp0. destruct Hp0 as [Hp0 _]. unfold id.
      rewrite (proj2 (Z.eqb_neq p0 0)) by lia.
      eapply good_iff; [|apply (IH L p str (Some (p, str))); [split; try done|lia]].
      + transitivity (gmatch (42 :: p) str).
        * rewrite gmatch_star. split.
          -- intros [H|(k & Hk & H)]; [by exists O; split; [lia|]|]. exists k. split; [lia|done].
          -- intros ([|k] & Hk & H); [by left|]. right. exists (S k). split; [lia|done].
        * split; [by left|]. intros [H|H]; [done|by eapply later_star].
      + by eapply pattern_suffix.
      + split; [by eapply pattern_suffix|]. done.
      + apply saved_refl. }
  destruct (Z.eqb_spec d 91) as [->|D3].
  { rewrite Ep. cbn [mbind res_bind].
    destruct (class_code p (default 0 (head str)) rp) as (a & Ea & El); [by apply bytes_text|].
    rewrite Ea. cbn [mbind res_bind]. rewrite El. cbn [mbind res_bind].
    destruct (class_of p) as [[[neg sp] q]|] eqn:E.
    - rewrite (class_of_neg _ _ _ _ E). apply (runs_class fuel L p); [done..|lia|done].
    - apply (runs_literal fuel L (91 :: p)); [done..|cbn; lia|done|by apply one_bracket|done|cbn; lia]. }
  destruct (Z.eqb_spec d 92) as [->|D4].
  { rewrite Ep. cbn [mbind res_bind]. destruct p as [|e p]; cbn [head default from_option app tail].
    - apply (runs_end fuel L [92] str back rp IH Hr); [cbn in *; lia|apply gmatch_escape_end].
    - apply Forall_cons in Hbp as [He _]. unfold id.
      apply (runs_literal fuel L (92 :: e :: p)); [done..|cbn in *; lia|lia|apply one_escape| |cbn; lia].
      by do 2 apply suffix_cons_r. }
  apply (runs_literal fuel L (d :: p)); [done..|cbn; lia|done|apply one_literal|done|cbn; lia].
  rewrite !not_elem_of_cons. split_and!; [done..|apply not_elem_of_nil].
Qed.
End loop.

(** * Main theorem *)

Lemma glob_match_good (safe : bool) p rp t rt :
  bytes p -> text t -> (if safe then no_neg p else rt = []) ->
  good safe (gmatch p t) (glob_match (cstr p rp) (cstr t rt)).
Proof.
  intros Hp Ht Hs. unfold glob_match.
  apply (good_iff safe (gmatch p t \/ later None)).
  { cbn. tauto. }
  apply (runs_all safe rp rt (S (length p)) _ (length t) p t None).
  - constructor; try done. unfold pattern. split_and!; [done|lia|done].
  - rewrite !length_app. cbn [length]. nia.
Qed.

(** C39: [glob_match] is pattern matching.  For a pattern without complemented
    classes it returns, whatever follows the two strings in memory, and it returns
    true exactly when the pattern matches the whole text: one saved position is
    enough for any number of stars, a bracket that is never closed is a literal, and
    a backslash quotes.  With complemented classes the code is wrong: [!a] also accepts
    the terminator, and the loop then reads past the end of the text.  When the object
    the text is in ends with its terminator, an answer is still right, but the code may
    not come to one, as on the empty text; when more bytes follow the terminator, the
    answer can be wrong: [!a] matches the empty text followed by another zero byte. *)
Theorem glob_match_exact p rp t rt :
  bytes p -> bytes t ->
  (no_neg p ->
   exists b, glob_match (cstr p rp) (cstr t rt) = Ok b /\ (b = true <-> gmatch p t)) /\
  (forall b, glob_match (cstr p rp) (cstr t []) = Ok b -> b = true <-> gmatch p t) /\
  glob_match [91; 33; 97; 93; 0] [0] = Fault OutOfBounds /\
  glob_match [91; 33; 97; 93; 0] [0; 0] = Ok true.
Proof.
  intros Hp Ht. apply bytes_text in Ht. split_and!; [|intros b E|reflexivity|reflexivity].
  - intros Hn. pose proof (glob_match_good true p rp t rt Hp Ht Hn) as H.
    destruct (glob_match _ _) as [b|f]; [by exists b | by destruct H].
  - pose proof (glob_match_good false p rp t [] Hp Ht eq_refl) as H. by rewrite E in H.
Qed.

Lemma glob_match_exact_witness :
  exists b, glob_match (cstr [42; 46; 91; 99; 104; 93] []) (cstr [97; 46; 98; 46; 99] [7]) = Ok b /\
    (b = true <-> gmatch [42; 46; 91; 99; 104; 93] [97; 46; 98; 46; 99]).
Proof.
  apply glob_match_exact; [repeat constructor; done..|].
  intros q [k E]. do 6 (destruct k as [|? k]; [discriminate E|]; injection E as <- E).
  by destruct k.
Defined.
