(* ===== verification/KList.v ===== *)
(** * include/linux/list.h: circular doubly linked lists

    The operations on [struct list_head], for a kernel without CONFIG_DEBUG_LIST.
    The store maps the address of every [list_head] to its two fields; an access to
    an address that is none faults.  [ring] is the well-formed list behind a head,
    and every operation takes rings to rings. *)

From S2P Require Import Prelude.
Open Scope Z_scope.

(** ** The store *)

Record heap := mkHeap { nexts : gmap Z Z; prevs : gmap Z Z }.

#[global] Instance heap_eq_dec : EqDecision heap.
Proof. solve_decision. Defined.

Abbreviation L := (M heap).

(** [p->next], [p->prev], [p->next = v], [p->prev = v]; NULL is 0. *)
Definition access (p : Z) (o : option Z) : res Z := need o (if p =? 0 then NullDeref else OutOfBounds).
Definition ld_next (p : Z) : L Z := h ← get; lift (access p (nexts h !! p)).
Definition ld_prev (p : Z) : L Z := h ← get; lift (access p (prevs h !! p)).
Definition st_next (p v : Z) : L unit :=
  _ ← ld_next p; modify (fun h => mkHeap (<[p := v]> (nexts h)) (prevs h)).
Definition st_prev (p v : Z) : L unit :=
  _ ← ld_prev p; modify (fun h => mkHeap (nexts h) (<[p := v]> (prevs h))).

(** ** The operations *)

Definition LIST_POISON1 : Z := 0x00100100.
Definition LIST_POISON2 : Z := 0x00200200.

Definition INIT_LIST_HEAD (list : Z) : L unit :=
  st_next list list;;
  st_prev list list.

Definition __list_add (new prev next : Z) : L unit :=
  st_prev next new;;
  st_next new next;;
  st_prev new prev;;
  st_next prev new.

Definition list_add (new head : Z) : L unit :=
  n ← ld_next head; __list_add new head n.

Definition list_add_tail (new head : Z) : L unit :=
  p ← ld_prev head; __list_add new p head.

Definition __list_del (prev next : Z) : L unit :=
  st_prev next prev;;
  st_next prev next.

Definition __list_del_entry (entry : Z) : L unit :=
  p ← ld_prev entry; n ← ld_next entry; __list_del p n.

Definition list_del (entry : Z) : L unit :=
  p ← ld_prev entry; n ← ld_next entry; __list_del p n;;
  st_next entry LIST_POISON1;;
  st_prev entry LIST_POISON2.

Definition list_replace (old new : Z) : L unit :=
  n ← ld_next old; st_next new n;;
  n ← ld_next new; st_prev n new;;
  p ← ld_prev old; st_prev new p;;
  p ← ld_prev new; st_next p new.

Definition list_replace_init (old new : Z) : L unit :=
  list_replace old new;;
  INIT_LIST_HEAD old.

Definition list_del_init (entry : Z) : L unit :=
  __list_del_entry entry;;
  INIT_LIST_HEAD entry.

Definition list_move (list head : Z) : L unit :=
  __list_del_entry list;;
  list_add list head.

Definition list_move_tail (list head : Z) : L unit :=
  __list_del_entry list;;
  list_add_tail list head.

Definition list_is_last (list head : Z) : L bool :=
  n ← ld_next list; mret (n =? head).

Definition list_empty (head : Z) : L bool :=
  n ← ld_next head; mret (n =? head).

Definition list_empty_careful (head : Z) : L bool :=
  next ← ld_next head;
  if next =? head then p ← ld_prev head; mret (next =? p) else mret false.

Definition list_rotate_left (head : Z) : L unit :=
  e ← list_empty head;
  if negb e : bool then first ← ld_next head; list_move_tail first head else mret tt.

Definition list_is_singular (head : Z) : L bool :=
  e ← list_empty head;
  if negb e : bool then n ← ld_next head; p ← ld_prev head; mret (n =? p) else mret false.

Definition __list_cut_position (list head entry : Z) : L unit :=
  new_first ← ld_next entry;
  n ← ld_next head; st_next list n;;
  n ← ld_next list; st_prev n list;;
  st_prev list entry;;
  st_next entry list;;
  st_next head new_first;;
  st_prev new_first head.

Definition list_cut_position (list head entry : Z) : L unit :=
  e ← list_empty head;
  if e : bool then mret tt
  else
    s ← list_is_singular head;
    n ← ld_next head;
    if s && (negb (n =? entry) && negb (head =? entry)) then mret tt
    else if entry =? head then INIT_LIST_HEAD list
    else __list_cut_position list head entry.

Definition __list_splice (list prev next : Z) : L unit :=
  first ← ld_next list;
  last ← ld_prev list;
  st_prev first prev;;
  st_next prev first;;
  st_next last next;;
  st_prev next last.

Definition list_splice (list head : Z) : L unit :=
  e ← list_empty list;
  if negb e : bool then n ← ld_next head; __list_splice list head n else mret tt.

Definition list_splice_tail (list head : Z) : L unit :=
  e ← list_empty list;
  if negb e : bool then p ← ld_prev head; __list_splice list p head else mret tt.

Definition list_splice_init (list head : Z) : L unit :=
  e ← list_empty list;
  if negb e : bool then n ← ld_next head; __list_splice list head n;; INIT_LIST_HEAD list else mret tt.

Definition list_splice_tail_init (list head : Z) : L unit :=
  e ← list_empty list;
  if negb e : bool then p ← ld_prev head; __list_splice list p head;; INIT_LIST_HEAD list else mret tt.

(** * Rings *)

(** [x] and [y] are neighbours. *)
Definition linked (h : heap) (x y : Z) : Prop := nexts h !! x = Some y /\ prevs h !! y = Some x.

(** From [x] through the nodes [l]. *)
Fixpoint path (h : heap) (x : Z) (l : list Z) : Prop :=
  match l with
  | [] => True
  | y :: l => linked h x y /\ path h y l
  end.

(** The list with head [head] and entries [l]. *)
Definition ring (h : heap) (head : Z) (l : list Z) : Prop := NoDup (head :: l) /\ path h head (l ++ [head]).

(** A [struct list_head] lives at the address. *)
Definition live (h : heap) (x : Z) : Prop := is_Some (nexts h !! x) /\ is_Some (prevs h !! x).

(** Nothing but the nodes [l] differs. *)
Definition untouched (l : list Z) (h h' : heap) : Prop :=
  forall x, x ∉ l -> nexts h' !! x = nexts h !! x /\ prevs h' !! x = prevs h !! x.

(** Make two nodes neighbours. *)
Definition join (x y : Z) (h : heap) : heap := mkHeap (<[x := y]> (nexts h)) (<[y := x]> (prevs h)).

(** The node a path from [x] through [l] ends at, and the nodes it leaves. *)
Definition lst (x : Z) (l : list Z) : Z := default x (last l).
Fixpoint left_nodes (x : Z) (l : list Z) : list Z :=
  match l with
  | [] => []
  | y :: l => x :: left_nodes y l
  end.

(** ** Paths *)

Lemma lst_cons x y l : lst x (y :: l) = lst y l.
Proof. unfold lst. rewrite last_cons. by destruct (last l). Qed.

Lemma lst_app x l1 l2 : lst x (l1 ++ l2) = lst (lst x l1) l2.
Proof.
  revert x. induction l1 as [|y l1 IH]; intros x; [done|]. cbn [app]. by rewrite !lst_cons.
Qed.

Lemma lst_in x l : lst x l ∈ x :: l.
Proof.
  revert x. induction l as [|y l IH]; intros x; [constructor|]. rewrite lst_cons. constructor. apply IH.
Qed.

Lemma left_nodes_last x l e : left_nodes x (l ++ [e]) = x :: l.
Proof. revert x. induction l as [|y l IH]; intros x; [done|]. cbn. by rewrite IH. Qed.

Lemma left_nodes_in x l z : z ∈ left_nodes x l -> z ∈ x :: l.
Proof.
  revert x. induction l as [|y l IH]; intros x; cbn; [by intros ?%elem_of_nil|].
  intros [->|H]%elem_of_cons; [constructor|]. constructor. by apply IH.
Qed.

Lemma lst_not_left x l : NoDup (x :: l) -> lst x l ∉ left_nodes x l.
Proof.
  revert x. induction l as [|y l IH]; intros x Hn; cbn; [apply not_elem_of_nil|].
  apply NoDup_cons in Hn as [Hx Hn]. rewrite lst_cons, not_elem_of_cons. split; [|by apply IH].
  intros E. apply Hx. rewrite <- E. apply lst_in.
Qed.

Lemma path_app h x l1 l2 : path h x (l1 ++ l2) <-> path h x l1 /\ path h (lst x l1) l2.
Proof.
  revert x. induction l1 as [|y l1 IH]; intros x; cbn; [tauto|]. rewrite IH, lst_cons. tauto.
Qed.

Lemma path_same h h' x l :
  (forall z, z ∈ left_nodes x l -> nexts h' !! z = nexts h !! z) ->
  (forall z, z ∈ l -> prevs h' !! z = prevs h !! z) ->
  path h x l -> path h' x l.
Proof.
  revert x. induction l as [|y l IH]; intros x Hn Hp; cbn; [done|]. unfold linked.
  rewrite (Hn x), (Hp y) by (cbn; left). intros [? ?]. split; [done|].
  apply IH; [intros z Hz; apply Hn | intros z Hz; apply Hp | done]; by right.
Qed.

Lemma path_join h x l a b : a ∉ left_nodes x l -> b ∉ l -> path h x l -> path (join a b h) x l.
Proof.
  intros Ha Hb. apply path_same; intros z Hz; cbn; apply lookup_insert_ne; congruence.
Qed.

Lemma linked_join h a b : linked (join a b h) a b.
Proof. split; cbn; apply lookup_insert_eq. Qed.

Lemma linked_join_ne h a b x y : a <> x -> b <> y -> linked h x y -> linked (join a b h) x y.
Proof. intros ? ? [? ?]. split; cbn; by rewrite lookup_insert_ne. Qed.

Lemma path_live h x l : path h x l ->
  (forall z, z ∈ left_nodes x l -> is_Some (nexts h !! z)) /\ (forall z, z ∈ l -> is_Some (prevs h !! z)).
Proof.
  revert x. induction l as [|y l IH]; intros x; cbn.
  - intros _. split; intros z Hz; by apply elem_of_nil in Hz.
  - intros [[Hn Hp] Hl]. apply IH in Hl as [IH1 IH2].
    split; intros z [->|Hz]%elem_of_cons; [by rewrite Hn | by apply IH1 | by rewrite Hp | by apply IH2].
Qed.

(** ** Rings *)

Lemma ring_live h head l x : ring h head l -> x ∈ head :: l -> live h x.
Proof.
  intros [_ Hp] Hx. apply path_live in Hp as [Hn Hp]. rewrite left_nodes_last in Hn.
  split; [by apply Hn|]. apply Hp. set_solver.
Qed.

Lemma join_live h a b x : live h x -> live (join a b h) x.
Proof.
  intros [Hn Hp]. split; cbn; rewrite lookup_insert_is_Some'; by right.
Qed.

(** A path around the gap between [l1] and [l2]. *)
Definition halves (h : heap) (head : Z) (l1 l2 : list Z) : Prop :=
  NoDup (head :: l1 ++ l2) /\ path h head l1 /\ path h (hd head l2) (tail (l2 ++ [head])).

Lemma ring_halves h head l1 l2 :
  ring h head (l1 ++ l2) <-> halves h head l1 l2 /\ linked h (lst head l1) (hd head l2).
Proof.
  unfold ring, halves. rewrite <- app_assoc, path_app. destruct l2; cbn; tauto.
Qed.

Lemma ring_pick h head l1 x l2 :
  ring h head (l1 ++ x :: l2) <->
  halves h head l1 l2 /\ (x ∉ head :: l1 ++ l2) /\ linked h (lst head l1) x /\ linked h x (hd head l2).
Proof.
  rewrite ring_halves. unfold halves. cbn [hd app tail].
  assert (NoDup (head :: l1 ++ x :: l2) <-> NoDup (head :: l1 ++ l2) /\ x ∉ head :: l1 ++ l2) as ->.
  { assert (head :: l1 ++ x :: l2 ≡ₚ x :: head :: l1 ++ l2) as -> by solve_Permutation.
    rewrite (NoDup_cons x). tauto. }
  destruct l2; cbn; tauto.
Qed.

(** Writing at the gap, or outside, keeps the two halves. *)
Lemma halves_join h head l1 l2 a b :
  a = lst head l1 \/ a ∉ head :: l1 ++ l2 -> b = hd head l2 \/ b ∉ head :: l1 ++ l2 ->
  halves h head l1 l2 -> halves (join a b h) head l1 l2.
Proof.
  intros Ha Hb (Hn & H1 & H2). split; [done|].
  pose proof (lst_in head l1) as Hp. pose proof Hn as Hn'.
  change (head :: l1 ++ l2) with ((head :: l1) ++ l2) in Hn'. apply NoDup_app in Hn' as (Hn1 & Hd & Hn2).
  split; apply path_join; try done.
  - destruct Ha as [->|Ha]; [by apply lst_not_left|]. intros H%left_nodes_in. set_solver.
  - destruct Hb as [->|Hb]; [|set_solver]. destruct l2 as [|n l2]; cbn.
    + by apply NoDup_cons in Hn1 as [? _].
    + intros H. apply (Hd n); set_solver.
  - assert (left_nodes (hd head l2) (tail (l2 ++ [head])) = l2) as -> by
      (destruct l2; cbn; [done | by rewrite left_nodes_last]).
    destruct Ha as [->|Ha]; [by apply Hd | set_solver].
  - destruct Hb as [->|Hb].
    + destruct l2 as [|n l2]; cbn; [apply not_elem_of_nil|].
      apply NoDup_cons in Hn2 as [? _]. rewrite elem_of_app. intros [?|Hx]; [done|].
      apply list_elem_of_singleton in Hx as ->. apply (Hd head); [left|left].
    + destruct l2; cbn; [apply not_elem_of_nil | set_solver].
Qed.

(** The other rings of the store are not affected. *)
Lemma untouched_ring nodes h h' head l :
  untouched nodes h h' -> (forall x, x ∈ head :: l -> x ∉ nodes) -> ring h head l -> ring h' head l.
Proof.
  intros Hu Hd [Hn Hp]. split; [done|]. eapply path_same; [| |exact Hp].
  - rewrite left_nodes_last. intros z Hz. apply Hu, Hd, Hz.
  - intros z Hz. apply Hu, Hd. set_solver.
Qed.

Lemma untouched_refl l h : untouched l h h.
Proof. by intros x _. Qed.

Lemma untouched_join l h h' a b : a ∈ l -> b ∈ l -> untouched l h h' -> untouched l h (join a b h').
Proof.
  intros Ha Hb Hu x Hx. cbn. rewrite !lookup_insert_ne by congruence. by apply Hu.
Qed.

Lemma untouched_trans l h1 h2 h3 : untouched l h1 h2 -> untouched l h2 h3 -> untouched l h1 h3.
Proof. intros H12 H23 x Hx. destruct (H12 x Hx) as [<- <-]. by apply H23. Qed.

Lemma untouched_weaken l l' h h' : l ⊆ l' -> untouched l h h' -> untouched l' h h'.
Proof. intros Hs Hu x Hx. apply Hu. set_solver. Qed.

(** ** Running the operations *)

Lemma ld_next_run p v h : nexts h !! p = Some v -> ld_next p h = Ok (v, h).
Proof. intros E. unfold ld_next. rewrite Mbind_get. unfold access. by rewrite E. Qed.
Lemma ld_prev_run p v h : prevs h !! p = Some v -> ld_prev p h = Ok (v, h).
Proof. intros E. unfold ld_prev. rewrite Mbind_get. unfold access. by rewrite E. Qed.
Lemma st_next_run p v h : is_Some (nexts h !! p) -> st_next p v h = Ok (tt, mkHeap (<[p := v]> (nexts h)) (prevs h)).
Proof. intros [w E]. unfold st_next. by rewrite (Mbind_run _ _ _ _ _ (ld_next_run p w h E)). Qed.
Lemma st_prev_run p v h : is_Some (prevs h !! p) -> st_prev p v h = Ok (tt, mkHeap (nexts h) (<[p := v]> (prevs h))).
Proof. intros [w E]. unfold st_prev. by rewrite (Mbind_run _ _ _ _ _ (ld_prev_run p w h E)). Qed.

(** Fields after some stores. *)
Ltac field :=
  cbn [nexts prevs join];
  repeat first [ rewrite lookup_insert_is_Some'; right | rewrite lookup_insert_eq | rewrite lookup_insert_ne by congruence ];
  eauto.
(** One access; its side condition is left when [field] does not find it. *)
Ltac hstep :=
  first [ erewrite Mbind_run; [|first [eapply ld_next_run | eapply ld_prev_run | eapply st_next_run | eapply st_prev_run]; solve [field]]
        | first [erewrite ld_next_run | erewrite ld_prev_run | rewrite st_next_run | rewrite st_prev_run]; [|solve [field]] ].

Lemma INIT_run x h : live h x -> INIT_LIST_HEAD x h = Ok (tt, join x x h).
Proof. intros [? ?]. unfold INIT_LIST_HEAD. by repeat hstep. Qed.

Lemma INIT_ring x h : ring (join x x h) x [].
Proof. split; [by apply NoDup_singleton|]. cbn. split; [apply linked_join | done]. Qed.

Lemma __list_add_run new p n h :
  live h new -> is_Some (nexts h !! p) -> is_Some (prevs h !! n) ->
  __list_add new p n h = Ok (tt, join p new (join new n h)).
Proof. intros [? ?] ? ?. unfold __list_add. by repeat hstep. Qed.

Lemma __list_del_run p n h :
  is_Some (nexts h !! p) -> is_Some (prevs h !! n) -> __list_del p n h = Ok (tt, join p n h).
Proof. intros ? ?. unfold __list_del. by repeat hstep. Qed.

Lemma __list_del_entry_run x p n h :
  linked h p x -> linked h x n -> is_Some (nexts h !! p) -> is_Some (prevs h !! n) ->
  __list_del_entry x h = Ok (tt, join p n h).
Proof. intros [? ?] [? ?] ? ?. unfold __list_del_entry. repeat hstep. by apply __list_del_run. Qed.

(** ** Adding and removing *)

Definition all_live (h : heap) (l : list Z) : Prop := forall x, x ∈ l -> live h x.

Lemma lst_side head (l1 l2 : list Z) : lst head l1 ∈ head :: l1 ++ l2.
Proof. pose proof (lst_in head l1). set_solver. Qed.
Lemma hd_side head (l1 l2 : list Z) : hd head l2 ∈ head :: l1 ++ l2.
Proof. destruct l2; cbn; set_solver. Qed.

Lemma halves_insert h head l1 l2 new :
  halves h head l1 l2 -> new ∉ head :: l1 ++ l2 ->
  ring (join (lst head l1) new (join new (hd head l2) h)) head (l1 ++ new :: l2).
Proof.
  intros Hh Hnew. pose proof (lst_side head l1 l2). pose proof (hd_side head l1 l2).
  rewrite ring_pick. split; [|split; [done|split; [apply linked_join|]]].
  - apply halves_join; [by left|by right|]. apply halves_join; [by right|by left|done].
  - apply linked_join_ne; [set_solver..|]. apply linked_join.
Qed.

Lemma __list_add_spec h head l1 l2 new p n :
  halves h head l1 l2 -> all_live h (new :: head :: l1 ++ l2) -> new ∉ head :: l1 ++ l2 ->
  p = lst head l1 -> n = hd head l2 ->
  exists h', __list_add new p n h = Ok (tt, h') /\ ring h' head (l1 ++ new :: l2) /\
    untouched (new :: head :: l1 ++ l2) h h'.
Proof.
  intros Hh Hl Hnew -> ->. eexists. split; [apply __list_add_run|split].
  - apply Hl. set_solver.
  - apply Hl. right. apply lst_side.
  - apply Hl. right. apply hd_side.
  - by apply halves_insert.
  - apply untouched_join; [right; apply lst_side | left |].
    apply untouched_join; [left | right; apply hd_side | apply untouched_refl].
Qed.

Lemma __list_del_entry_spec h head l1 x l2 :
  ring h head (l1 ++ x :: l2) ->
  let h' := join (lst head l1) (hd head l2) h in
  __list_del_entry x h = Ok (tt, h') /\ ring h' head (l1 ++ l2) /\ (x ∉ head :: l1 ++ l2) /\
  all_live h' (x :: head :: l1 ++ l2) /\ untouched (head :: l1 ++ l2) h h'.
Proof.
  intros Hr h'. pose proof (proj1 (ring_pick _ _ _ _ _) Hr) as (Hh & Hx & L1 & L2).
  assert (all_live h (x :: head :: l1 ++ l2)) as Hl by (intros z Hz; eapply ring_live; [done|set_solver]).
  split_and!.
  - apply __list_del_entry_run; [done..| |]; apply Hl; right; [apply lst_side | apply hd_side].
  - rewrite ring_halves. split; [|apply linked_join]. apply halves_join; [by left..|done].
  - done.
  - intros z Hz. apply join_live. by apply Hl.
  - apply untouched_join; [apply lst_side | apply hd_side | apply untouched_refl].
Qed.

Lemma ring_first h head l : ring h head l -> nexts h !! head = Some (hd head l).
Proof. intros [_ Hp]. by destruct l; cbn in Hp; destruct Hp as [[? ?] _]. Qed.

Lemma ring_last h head l : ring h head l -> prevs h !! head = Some (lst head l).
Proof. intros [_ Hp]. apply path_app in Hp as [_ [[_ Hp] _]]. done. Qed.

Lemma ring_nil_halves h head l : ring h head l -> halves h head [] l /\ halves h head l [].
Proof.
  intros Hr. split; [apply (ring_halves h head [] l) in Hr | rewrite <- (app_nil_r l) in Hr; apply ring_halves in Hr];
    tauto.
Qed.

Lemma list_add_spec h head l new :
  ring h head l -> live h new -> new ∉ head :: l ->
  exists h', list_add new head h = Ok (tt, h') /\ ring h' head (new :: l) /\ untouched (new :: head :: l) h h'.
Proof.
  intros Hr Hn Hnew. unfold list_add. erewrite Mbind_run; [|by eapply ld_next_run, ring_first].
  apply (__list_add_spec h head [] l new); try done; [by apply ring_nil_halves|].
  intros z [->|Hz]%elem_of_cons; [done|]. by eapply ring_live.
Qed.

Lemma list_add_tail_spec h head l new :
  ring h head l -> live h new -> new ∉ head :: l ->
  exists h', list_add_tail new head h = Ok (tt, h') /\ ring h' head (l ++ [new]) /\ untouched (new :: head :: l) h h'.
Proof.
  intros Hr Hn Hnew. unfold list_add_tail. erewrite Mbind_run; [|by eapply ld_prev_run, ring_last].
  destruct (__list_add_spec h head l [] new (lst head l) head) as (h' & E & Hr' & Hu); rewrite ?app_nil_r; try done.
  - by apply ring_nil_halves.
  - intros z [->|Hz]%elem_of_cons; [done|]. by eapply ring_live.
  - rewrite app_nil_r in Hu. by exists h'.
Qed.

(** Writing the fields of a node outside a ring. *)
Lemma ring_outside h h' x head l :
  untouched [x] h h' -> x ∉ head :: l -> ring h head l -> ring h' head l.
Proof. intros Hu Hx. apply (untouched_ring [x]); [done|]. intros y Hy ->%list_elem_of_singleton. done. Qed.

Lemma untouched_INIT x h : untouched [x] h (join x x h).
Proof. apply untouched_join; [left..|apply untouched_refl]. Qed.

Lemma list_del_spec h head l1 x l2 :
  ring h head (l1 ++ x :: l2) ->
  exists h', list_del x h = Ok (tt, h') /\ ring h' head (l1 ++ l2) /\
    nexts h' !! x = Some LIST_POISON1 /\ prevs h' !! x = Some LIST_POISON2 /\
    untouched (head :: l1 ++ x :: l2) h h'.
Proof.
  intros Hr. destruct (__list_del_entry_spec _ _ _ _ _ Hr) as (E & Hr' & Hx & Hl & Hu).
  set (h1 := join (lst head l1) (hd head l2) h) in *. destruct (Hl x ltac:(left)) as [Hn Hp].
  assert (list_del x h = (st_next x LIST_POISON1;; st_prev x LIST_POISON2) h1) as ->.
  { pose proof (proj1 (ring_pick _ _ _ _ _) Hr) as (_ & _ & [L1 L2] & [L3 L4]).
    assert (all_live h (x :: head :: l1 ++ l2)) as Hh by (intros z Hz; eapply ring_live; [done|set_solver]).
    unfold list_del. do 2 hstep. erewrite Mbind_run; [done|].
    apply __list_del_run; apply Hh; right; [apply lst_side | apply hd_side]. }
  clearbody h1. set (h2 := mkHeap (<[x:=LIST_POISON1]> (nexts h1)) (<[x:=LIST_POISON2]> (prevs h1))).
  assert (untouched [x] h1 h2) as Hu1.
  { intros z Hz. cbn. rewrite !lookup_insert_ne by set_solver. done. }
  exists h2. split_and!; [by repeat hstep | by eapply ring_outside | apply lookup_insert_eq.. |].
  eapply untouched_trans; eapply untouched_weaken; [|exact Hu| |exact Hu1]; set_solver.
Qed.

Lemma list_del_init_spec h head l1 x l2 :
  ring h head (l1 ++ x :: l2) ->
  exists h', list_del_init x h = Ok (tt, h') /\ ring h' head (l1 ++ l2) /\ ring h' x [] /\
    untouched (head :: l1 ++ x :: l2) h h'.
Proof.
  intros Hr. destruct (__list_del_entry_spec _ _ _ _ _ Hr) as (E & Hr' & Hx & Hl & Hu).
  unfold list_del_init. rewrite (Mbind_run _ _ _ _ _ E), INIT_run by (apply Hl; left).
  eexists. split; [done|]. split_and!; [|apply INIT_ring|].
  - eapply ring_outside; [apply untouched_INIT|done..].
  - eapply untouched_trans; eapply untouched_weaken; [|exact Hu| |apply untouched_INIT]; set_solver.
Qed.

Lemma list_move_spec h head l1 x l2 :
  ring h head (l1 ++ x :: l2) ->
  (exists h', list_move x head h = Ok (tt, h') /\ ring h' head (x :: l1 ++ l2) /\
    untouched (head :: l1 ++ x :: l2) h h') /\
  (exists h', list_move_tail x head h = Ok (tt, h') /\ ring h' head (l1 ++ l2 ++ [x]) /\
    untouched (head :: l1 ++ x :: l2) h h').
Proof.
  intros Hr. destruct (__list_del_entry_spec _ _ _ _ _ Hr) as (E & Hr' & Hx & Hl & Hu).
  unfold list_move, list_move_tail. rewrite !(Mbind_run _ _ _ _ _ E).
  destruct (list_add_spec _ _ _ x Hr') as (h1 & E1 & Hr1 & Hu1); [apply Hl; left|done|].
  destruct (list_add_tail_spec _ _ _ x Hr') as (h2 & E2 & Hr2 & Hu2); [apply Hl; left|done|].
  rewrite <- app_assoc in Hr2.
  split; [exists h1 | exists h2]; (split; [done|split; [done|]]);
    (eapply untouched_trans; (eapply untouched_weaken; [|first [exact Hu | exact Hu1 | exact Hu2]]; set_solver)).
Qed.

(** Moving to another list. *)
Lemma list_move_other_spec h head l1 x l2 other m :
  ring h head (l1 ++ x :: l2) -> ring h other m -> (forall z, z ∈ other :: m -> z ∉ head :: l1 ++ x :: l2) ->
  exists h', list_move x other h = Ok (tt, h') /\ ring h' head (l1 ++ l2) /\ ring h' other (x :: m).
Proof.
  intros Hr Hm Hd. destruct (__list_del_entry_spec _ _ _ _ _ Hr) as (E & Hr' & Hx & Hl & Hu).
  unfold list_move. rewrite (Mbind_run _ _ _ _ _ E).
  assert (ring (join (lst head l1) (hd head l2) h) other m) as Hm'
    by (eapply untouched_ring; [exact Hu| |done]; set_solver).
  destruct (list_add_spec _ _ _ x Hm') as (h1 & E1 & Hr1 & Hu1); [apply Hl; left|set_solver|].
  exists h1. split; [done|]. split; [|done]. eapply untouched_ring; [exact Hu1| |done]. set_solver.
Qed.

Lemma list_rotate_left_spec h head l :
  ring h head l ->
  exists h', list_rotate_left head h = Ok (tt, h') /\ ring h' head (tail l ++ take 1 l) /\
    untouched (head :: l) h h'.
Proof.
  intros Hr. unfold list_rotate_left, list_empty. rewrite Mbind_assoc.
  rewrite (Mbind_run _ _ _ _ _ (ld_next_run _ _ _ (ring_first _ _ _ Hr))), Mbind_ret.
  destruct l as [|x l]; cbn [hd].
  - rewrite Z.eqb_refl. exists h. split; [done|]. split; [done|apply untouched_refl].
  - assert (x <> head) as Hx by (destruct Hr as [Hn _]; apply NoDup_cons in Hn as [? _]; set_solver).
    rewrite (proj2 (Z.eqb_neq _ _)) by done. cbn [negb].
    rewrite (Mbind_run _ _ _ _ _ (ld_next_run _ _ _ (ring_first _ _ _ Hr))). cbn [hd tail take].
    by destruct (list_move_spec h head [] x l Hr) as [_ H].
Qed.

(** ** Replacing, joining and cutting *)

(** A path whose ends are rewired keeps its inside. *)
Lemma path_inside h x l a b :
  NoDup (x :: l) -> a = lst x l \/ a ∉ x :: l -> b = x \/ b ∉ x :: l -> path h x l -> path (join a b h) x l.
Proof.
  intros Hn Ha Hb. apply path_join.
  - destruct Ha as [->|Ha]; [by apply lst_not_left|]. by intros H%left_nodes_in.
  - apply NoDup_cons in Hn as [Hx _]. destruct Hb as [->|Hb]; [done|]. set_solver.
Qed.

Lemma ring_cons h head x l : ring h head (x :: l) <->
  NoDup (head :: x :: l) /\ linked h head x /\ path h x l /\ linked h (lst x l) head.
Proof. unfold ring. cbn [app path]. rewrite path_app. cbn. tauto. Qed.

Lemma list_replace_spec h old l new :
  ring h old l -> live h new -> new ∉ old :: l ->
  exists h', list_replace old new h = Ok (tt, h') /\ ring h' new l /\ live h' old /\ untouched (new :: old :: l) h h'.
Proof.
  intros Hr Hn Hnew. pose proof (fun x => ring_live _ _ _ x Hr) as Hl. destruct Hn as [Hnn Hnp].
  destruct (Hl old ltac:(left)) as [Hon Hop]. unfold list_replace.
  erewrite Mbind_run; [|by eapply ld_next_run, ring_first]. hstep.
  destruct l as [|y l]; cbn [hd].
  - assert (new <> old) as Hne by set_solver. repeat hstep. eexists. split; [done|]. split_and!.
    + split; [apply NoDup_singleton|]. split; [|done]. split; field.
    + split; field.
    + intros z [Hz1 [Hz2 _]%not_elem_of_cons]%not_elem_of_cons. split; field.
  - destruct (Hl y ltac:(right; left)) as [Hyn Hyp].
    apply ring_cons in Hr as (Hd & L1 & Hp & L2). set (p := lst y l) in *.
    pose proof (proj1 (NoDup_cons _ _) Hd) as [[Hoy _]%not_elem_of_cons _].
    pose proof Hnew as [Hno [Hny _]%not_elem_of_cons]%not_elem_of_cons.
    assert (p ∈ y :: l) as Hpl by apply lst_in. destruct (Hl p ltac:(by right)) as [Hpn Hpp].
    pose proof L2 as [L2n L2p]. repeat hstep.
    exists (join p new (join new y h)). apply NoDup_cons in Hd as [Hold Hd]. split_and!.
    + done.
    + apply ring_cons. split_and!; [|apply linked_join_ne, linked_join; set_solver| |apply linked_join].
      * apply NoDup_cons. split; [set_solver|done].
      * apply path_inside; [done|by left|right; set_solver|]. apply path_inside; [done|right; set_solver|by left|done].
    + by do 2 apply join_live.
    + apply untouched_join; [set_solver|set_solver|]. apply untouched_join; [set_solver..|apply untouched_refl].
Qed.

Lemma list_replace_init_spec h old l new :
  ring h old l -> live h new -> new ∉ old :: l ->
  exists h', list_replace_init old new h = Ok (tt, h') /\ ring h' new l /\ ring h' old [] /\
    untouched (new :: old :: l) h h'.
Proof.
  intros Hr Hn Hnew. destruct (list_replace_spec _ _ _ _ Hr Hn Hnew) as (h' & E & Hr' & Hl & Hu).
  unfold list_replace_init. rewrite (Mbind_run _ _ _ _ _ E), INIT_run by done.
  eexists. split; [done|]. split_and!; [|apply INIT_ring|].
  - eapply ring_outside; [apply untouched_INIT| |done]. destruct Hr as [Hd%NoDup_cons _]. set_solver.
  - eapply untouched_trans; eapply untouched_weaken; [|exact Hu| |apply untouched_INIT]; set_solver.
Qed.

(** The entries [a :: m] of another ring in the gap between [l1] and [l2]. *)
Lemma halves_splice h head l1 l2 a m :
  halves h head l1 l2 -> path h a m -> NoDup (a :: m) -> (forall z, z ∈ a :: m -> z ∉ head :: l1 ++ l2) ->
  ring (join (lst a m) (hd head l2) (join (lst head l1) a h)) head (l1 ++ (a :: m) ++ l2).
Proof.
  intros Hh Hp Hd Hdis. pose proof (lst_side head l1 l2) as Hs1. pose proof (hd_side head l1 l2) as Hs2.
  pose proof (lst_in a m) as Hs3.
  assert (NoDup (head :: l1 ++ (a :: m) ++ l2)) as Hall.
  { assert (head :: l1 ++ (a :: m) ++ l2 ≡ₚ (a :: m) ++ (head :: l1 ++ l2)) as -> by solve_Permutation.
    apply NoDup_app. split; [done|]. split; [done|]. apply Hh. }
  assert (halves (join (lst a m) (hd head l2) (join (lst head l1) a h)) head l1 l2) as (_ & H1 & H2).
  { apply halves_join; [right; by apply Hdis|by left|]. apply halves_join; [by left|right; apply Hdis; left|done]. }
  apply ring_halves. unfold halves. cbn [hd app tail]. split_and!; [done|done| |].
  - rewrite <- app_assoc, path_app. split.
    + apply path_inside; [done|by left|right; intros H; by apply (Hdis _ H)|].
      apply path_inside; [done|right; intros H; by apply (Hdis _ H)|by left|done].
    + assert (path (join (lst a m) (hd head l2) (join (lst head l1) a h)) (lst a m) [hd head l2]) as H0
        by (cbn; split; [apply linked_join|done]).
      destruct l2 as [|n l2]; cbn in *; [done|]. tauto.
  - apply linked_join_ne; [| |apply linked_join]; intros E.
    + rewrite E in Hs3. by apply (Hdis _ Hs3).
    + rewrite E in Hs2. apply (Hdis a); [left|done].
Qed.

Lemma __list_splice_spec h list a m head l1 l2 p n :
  ring h list (a :: m) -> ring h head (l1 ++ l2) -> (forall z, z ∈ list :: a :: m -> z ∉ head :: l1 ++ l2) ->
  p = lst head l1 -> n = hd head l2 ->
  exists h', __list_splice list p n h = Ok (tt, h') /\ ring h' head (l1 ++ (a :: m) ++ l2) /\ live h' list /\
    untouched ((a :: m) ++ head :: l1 ++ l2) h h'.
Proof.
  intros Hr Hh Hdis -> ->. pose proof (fun x => ring_live _ _ _ x Hr) as Hl1. pose proof (fun x => ring_live _ _ _ x Hh) as Hl2.
  pose proof (lst_side head l1 l2) as Hs1. pose proof (hd_side head l1 l2) as Hs2. pose proof (lst_in a m) as Hs3.
  destruct (Hl1 a ltac:(right; left)) as [Han Hap]. destruct (Hl1 (lst a m) ltac:(by right)) as [Hln Hlp].
  destruct (Hl2 _ Hs1) as [Hpn Hpp]. destruct (Hl2 _ Hs2) as [Hnn Hnp].
  pose proof (ring_first _ _ _ Hr) as F. pose proof (ring_last _ _ _ Hr) as La. rewrite lst_cons in La. cbn [hd] in F.
  unfold __list_splice. repeat hstep. exists (join (lst a m) (hd head l2) (join (lst head l1) a h)). split_and!.
  - done.
  - apply ring_cons in Hr as (Hd & _ & Hp & _). apply ring_halves in Hh as [Hh _]. apply NoDup_cons in Hd as [_ Hd].
    apply halves_splice; [done..|]. intros z Hz. apply Hdis. by right.
  - apply join_live, join_live, Hl1. left.
  - apply untouched_join; [set_solver..|]. apply untouched_join; [set_solver..|apply untouched_refl].
Qed.

Lemma list_empty_run h head l : ring h head l -> list_empty head h = Ok (bool_decide (l = []), h).
Proof.
  intros Hr. unfold list_empty. rewrite (Mbind_run _ _ _ _ _ (ld_next_run _ _ _ (ring_first _ _ _ Hr))).
  unfold mret, M_ret. do 2 f_equal. destruct l as [|x l]; cbn [hd]; [by rewrite Z.eqb_refl|].
  rewrite bool_decide_eq_false_2 by done. apply Z.eqb_neq. intros ->.
  destruct Hr as [Hd _]. apply NoDup_cons in Hd as [Hx _]. apply Hx. left.
Qed.

(** [m] runs from [h] without a fault, writes only to [nodes] and leaves [Q]. *)
Definition yields (m : L unit) (h : heap) (nodes : list Z) (Q : heap -> Prop) : Prop :=
  exists h', m h = Ok (tt, h') /\ Q h' /\ untouched nodes h h'.

Lemma yields_weaken m h nodes nodes' (Q Q' : heap -> Prop) :
  nodes ⊆ nodes' -> (forall h', Q h' -> Q' h') -> yields m h nodes Q -> yields m h nodes' Q'.
Proof. intros Hs HQ (h' & E & H & Hu). exists h'. split; [done|]. split; [by apply HQ|by eapply untouched_weaken]. Qed.

(** Both places a list is spliced in, with and without initialising the old head. *)
Lemma splice_spec h list m head l1 l2 p n :
  ring h list m -> ring h head (l1 ++ l2) -> (forall z, z ∈ list :: m -> z ∉ head :: l1 ++ l2) ->
  p = lst head l1 -> n = hd head l2 ->
  yields (e ← list_empty list; if negb e then __list_splice list p n else mret tt) h
    (list :: m ++ head :: l1 ++ l2) (fun h' => ring h' head (l1 ++ m ++ l2)) /\
  yields (e ← list_empty list; if negb e then __list_splice list p n;; INIT_LIST_HEAD list else mret tt) h
    (list :: m ++ head :: l1 ++ l2) (fun h' => ring h' head (l1 ++ m ++ l2) /\ ring h' list []).
Proof.
  intros Hr Hh Hdis Hp Hn. unfold yields. rewrite !(Mbind_run _ _ _ _ _ (list_empty_run _ _ _ Hr)).
  destruct m as [|a m].
  { split; exists h; (split; [done|]); split; try done; apply untouched_refl. }
  rewrite bool_decide_eq_false_2 by done. cbn [negb].
  destruct (__list_splice_spec h list a m head l1 l2 p n) as (h' & E & Hr' & Hl & Hu); [done..|].
  assert (list ∉ head :: l1 ++ (a :: m) ++ l2) as Hout.
  { destruct Hr as [[Hx _]%NoDup_cons _]. specialize (Hdis list ltac:(left)). set_solver. }
  split.
  - exists h'. split; [done|]. split; [done|]. eapply untouched_weaken; [|exact Hu]. set_solver.
  - rewrite (Mbind_run _ _ _ _ _ E), INIT_run by done. eexists. split; [done|]. split; [split|].
    + eapply ring_outside; [apply untouched_INIT|done..].
    + apply INIT_ring.
    + eapply untouched_trans; eapply untouched_weaken; [|exact Hu| |apply untouched_INIT]; set_solver.
Qed.

Lemma list_splice_spec h list m head l :
  ring h list m -> ring h head l -> (forall z, z ∈ list :: m -> z ∉ head :: l) ->
  yields (list_splice list head) h (list :: m ++ head :: l) (fun h' => ring h' head (m ++ l)) /\
  yields (list_splice_init list head) h (list :: m ++ head :: l) (fun h' => ring h' head (m ++ l) /\ ring h' list []) /\
  yields (list_splice_tail list head) h (list :: m ++ head :: l) (fun h' => ring h' head (l ++ m)) /\
  yields (list_splice_tail_init list head) h (list :: m ++ head :: l)
    (fun h' => ring h' head (l ++ m) /\ ring h' list []).
Proof.
  intros Hr Hh Hdis.
  destruct (splice_spec h list m head [] l head (hd head l)) as [S1 S2]; [done..|].
  destruct (splice_spec h list m head l [] (lst head l) head) as [S3 S4]; rewrite ?app_nil_r; [done..|].
  rewrite !app_nil_r in S3, S4. unfold yields in *.
  rewrite (Mbind_run _ _ _ _ _ (list_empty_run _ _ _ Hr)) in S1. rewrite (Mbind_run _ _ _ _ _ (list_empty_run _ _ _ Hr)) in S2.
  rewrite (Mbind_run _ _ _ _ _ (list_empty_run _ _ _ Hr)) in S3. rewrite (Mbind_run _ _ _ _ _ (list_empty_run _ _ _ Hr)) in S4.
  unfold list_splice, list_splice_init, list_splice_tail, list_splice_tail_init.
  rewrite !(Mbind_run _ _ _ _ _ (list_empty_run _ _ _ Hr)). destruct (negb _); [|done].
  rewrite !(Mbind_run _ _ _ _ _ (ld_next_run _ _ _ (ring_first _ _ _ Hh))).
  by rewrite !(Mbind_run _ _ _ _ _ (ld_prev_run _ _ _ (ring_last _ _ _ Hh))).
Qed.

Lemma list_is_singular_run h head l :
  ring h head l -> list_is_singular head h = Ok (bool_decide (length l = 1%nat), h).
Proof.
  intros Hr. unfold list_is_singular. rewrite (Mbind_run _ _ _ _ _ (list_empty_run _ _ _ Hr)).
  destruct l as [|x l]; [done|]. rewrite bool_decide_eq_false_2 by done. cbn [negb].
  rewrite (Mbind_run _ _ _ _ _ (ld_next_run _ _ _ (ring_first _ _ _ Hr))).
  rewrite (Mbind_run _ _ _ _ _ (ld_prev_run _ _ _ (ring_last _ _ _ Hr))). cbn [hd]. rewrite lst_cons.
  unfold mret, M_ret. do 2 f_equal. destruct l as [|y l]; [by rewrite Z.eqb_refl|].
  rewrite bool_decide_eq_false_2 by done. apply Z.eqb_neq. rewrite lst_cons. intros E.
  destruct Hr as [[_ [Hx _]%NoDup_cons]%NoDup_cons _]. apply Hx. rewrite E. apply lst_in.
Qed.

(** Cutting behind a proper entry. *)
Lemma __list_cut_position_spec h list head y l1 l2 :
  ring h head ((y :: l1) ++ l2) -> live h list -> list ∉ head :: (y :: l1) ++ l2 ->
  yields (__list_cut_position list head (lst y l1)) h (list :: head :: (y :: l1) ++ l2)
    (fun h' => ring h' list (y :: l1) /\ ring h' head l2).
Proof.
  intros Hr Hl Hnew. pose proof (fun x => ring_live _ _ _ x Hr) as Hlv.
  pose proof (lst_in y l1) as He. set (e := lst y l1) in *. pose proof (hd_side head (y :: l1) l2) as Hf.
  assert (is_Some (nexts h !! list) /\ is_Some (prevs h !! list)) as [? ?] by done.
  assert (live h e) as [? ?] by (apply Hlv; set_solver). assert (live h y) as [? ?] by (apply Hlv; set_solver).
  assert (live h head) as [? ?] by (apply Hlv; set_solver). assert (live h (hd head l2)) as [? ?] by (apply Hlv; set_solver).
  pose proof (ring_first _ _ _ Hr) as F. cbn [hd app] in F.
  pose proof Hr as Hr'. apply ring_halves in Hr' as [Hh [Lk _]]. rewrite lst_cons in Lk. fold e in Lk.
  destruct Hh as (Hd & [Ly Hp1] & Hp2).
  pose proof Hd as [Hx [Hd1 [Hx2 Hd2]]%NoDup_app]%NoDup_cons.
  assert (forall z, z ∈ y :: l1 -> z ∉ head :: [] ++ l2) as Hdis.
  { intros z Hz [->|Hz2]%elem_of_cons; [|by apply (Hx2 z)]. apply Hx, elem_of_app. by left. }
  apply not_elem_of_cons in Hnew as Hnew'. destruct Hnew' as [Hlh [Hll Hl2]%not_elem_of_app].
  assert (hd head l2 ∈ head :: [] ++ l2) as Hnf by (destruct l2; cbn; [left|right; left]).
  assert (list ∉ head :: [] ++ l2) as Hln by (apply not_elem_of_cons; split; [done|exact Hl2]).
  assert (y ∈ y :: l1) as Hy by left.
  assert (head <> list /\ y <> list /\ e <> list /\ list <> hd head l2 /\ e <> head /\ y <> hd head l2) as (? & ? & ? & ? & ? & ?).
  { split_and!; intros E; [by rewrite E in Hlh | by rewrite <- E in Hll | by rewrite <- E in Hll | by rewrite <- E in Hnf | |].
    - apply (Hdis e He). rewrite E. left.
    - apply (Hdis y Hy). by rewrite E. }
  assert (head ∉ y :: l1) as Hhl by (intros Hz; apply (Hdis _ Hz); left).
  assert (hd head l2 ∉ y :: l1) as Hfl by (intros Hz; by apply (Hdis _ Hz)).
  exists (join head (hd head l2) (join e list (join list y h))). split_and!.
  - unfold __list_cut_position. by repeat hstep.
  - apply ring_cons. split_and!.
    + apply NoDup_cons. by split.
    + apply linked_join_ne; [done..|]. apply linked_join_ne; [done..|]. apply linked_join.
    + apply path_inside; [done|by right|by right|]. apply path_inside; [done|by left|by right|].
      apply path_inside; [done|by right|by left|done].
    + apply linked_join_ne; [by apply not_eq_sym..|]. apply linked_join.
  - assert (halves h head [] l2) as Hh2.
    { split; [|done]. apply NoDup_cons. split; [|done]. intros Hz. apply Hx, elem_of_app. by right. }
    apply (ring_halves _ head [] l2). split; [|apply linked_join].
    apply halves_join; [by left|by left|]. apply halves_join; [right; by apply Hdis|by right|].
    apply halves_join; [by right|right; by apply Hdis|done].
  - assert (forall z, z ∈ y :: l1 -> z ∈ list :: head :: (y :: l1) ++ l2) as Hin
      by (intros z Hz; do 2 right; apply elem_of_app; by left).
    apply untouched_join; [right; left|by right|]. apply untouched_join; [by apply Hin|left|].
    apply untouched_join; [left|by apply Hin|apply untouched_refl].
Qed.

Lemma list_cut_position_spec h list head l1 l2 :
  ring h head (l1 ++ l2) -> l1 ++ l2 <> [] -> live h list -> list ∉ head :: l1 ++ l2 ->
  yields (list_cut_position list head (lst head l1)) h (list :: head :: l1 ++ l2)
    (fun h' => ring h' list l1 /\ ring h' head l2).
Proof.
  intros Hr Hne Hl Hnew. unfold yields, list_cut_position.
  rewrite (Mbind_run _ _ _ _ _ (list_empty_run _ _ _ Hr)), bool_decide_eq_false_2 by done.
  rewrite (Mbind_run _ _ _ _ _ (list_is_singular_run _ _ _ Hr)).
  rewrite (Mbind_run _ _ _ _ _ (ld_next_run _ _ _ (ring_first _ _ _ Hr))).
  destruct l1 as [|y l1].
  - unfold lst. cbn [last default from_option]. unfold id. rewrite Z.eqb_refl, !andb_false_r, INIT_run by done.
    eexists. split; [done|]. split; [split; [apply INIT_ring|]|].
    + eapply ring_outside; [apply untouched_INIT|done..].
    + eapply untouched_weaken; [|apply untouched_INIT]. set_solver.
  - rewrite lst_cons. pose proof (lst_in y l1) as He.
    assert (lst y l1 <> head) as Hneq.
    { intros E. destruct Hr as [[Hx _]%NoDup_cons _]. apply Hx. rewrite <- E. set_solver. }
    rewrite (proj2 (Z.eqb_neq (lst y l1) head)) by done.
    assert (bool_decide (length ((y :: l1) ++ l2) = 1%nat) &&
      (negb (hd head ((y :: l1) ++ l2) =? lst y l1) && negb (head =? lst y l1)) = false) as ->.
    { case_bool_decide as Hlen; [|done]. destruct l1; [|cbn in Hlen; lia]. cbn. by rewrite Z.eqb_refl. }
    by apply __list_cut_position_spec.
Qed.

Lemma tests_run h head l1 x l2 :
  ring h head (l1 ++ x :: l2) ->
  list_is_last x head h = Ok (bool_decide (l2 = []), h) /\
  list_empty_careful head h = Ok (false, h) /\ linked h x (hd head l2).
Proof.
  intros Hr. pose proof (ring_first _ _ _ Hr) as F. pose proof Hr as (Hh & Hx & _ & [Ln Lp])%ring_pick.
  split_and!; [| |done].
  - unfold list_is_last. rewrite (Mbind_run _ _ _ _ _ (ld_next_run _ _ _ Ln)). unfold mret, M_ret. do 2 f_equal.
    destruct l2 as [|y l2]; cbn; [by rewrite Z.eqb_refl|]. apply Z.eqb_neq. intros ->.
    destruct Hh as [[Hy _]%NoDup_cons _]. apply Hy. set_solver.
  - unfold list_empty_careful. rewrite (Mbind_run _ _ _ _ _ (ld_next_run _ _ _ F)).
    destruct (Z.eqb_spec (hd head (l1 ++ x :: l2)) head) as [E|]; [|done].
    exfalso. destruct Hr as [[Hy _]%NoDup_cons _]. apply Hy. rewrite <- E at 1. destruct l1; cbn; left.
Qed.

Lemma list_empty_careful_nil h head : ring h head [] -> list_empty_careful head h = Ok (true, h).
Proof.
  intros Hr. unfold list_empty_careful.
  rewrite (Mbind_run _ _ _ _ _ (ld_next_run _ _ _ (ring_first _ _ _ Hr))). cbn [hd]. rewrite Z.eqb_refl.
  rewrite (Mbind_run _ _ _ _ _ (ld_prev_run _ _ _ (ring_last _ _ _ Hr))). unfold lst. cbn. by rewrite Z.eqb_refl.
Qed.

(** * Main theorems *)

(** C38: the list operations keep lists well formed.  On a list with entries
    [l1 ++ x :: l2] behind [head], and a node [new] that is not in it, every
    operation runs without a fault, leaves a circular doubly linked list with exactly
    the entries its name promises, in that order, and writes to no node but those of
    the list and [new].  A deleted entry is poisoned, or an empty list of its own. *)
Theorem list_operations h head l1 x l2 new :
  ring h head (l1 ++ x :: l2) -> live h new -> new ∉ head :: l1 ++ x :: l2 ->
  let nodes := head :: l1 ++ x :: l2 in
  yields (list_add new head) h (new :: nodes) (fun h' => ring h' head (new :: l1 ++ x :: l2)) /\
  yields (list_add_tail new head) h (new :: nodes) (fun h' => ring h' head (l1 ++ x :: l2 ++ [new])) /\
  yields (list_del x) h nodes (fun h' => ring h' head (l1 ++ l2) /\
    nexts h' !! x = Some LIST_POISON1 /\ prevs h' !! x = Some LIST_POISON2) /\
  yields (list_del_init x) h nodes (fun h' => ring h' head (l1 ++ l2) /\ ring h' x []) /\
  yields (list_move x head) h nodes (fun h' => ring h' head (x :: l1 ++ l2)) /\
  yields (list_move_tail x head) h nodes (fun h' => ring h' head (l1 ++ l2 ++ [x])) /\
  yields (list_rotate_left head) h nodes
    (fun h' => ring h' head (tail (l1 ++ x :: l2) ++ take 1 (l1 ++ x :: l2))) /\
  yields (list_replace head new) h (new :: nodes) (fun h' => ring h' new (l1 ++ x :: l2)) /\
  yields (list_replace_init head new) h (new :: nodes) (fun h' => ring h' new (l1 ++ x :: l2) /\ ring h' head []) /\
  list_empty head h = Ok (false, h) /\ list_empty_careful head h = Ok (false, h) /\
  list_is_last x head h = Ok (bool_decide (l2 = []), h) /\
  list_is_singular head h = Ok (bool_decide (l1 ++ l2 = []), h).
Proof.
  intros Hr Hl Hnew nodes. unfold yields. split_and!.
  - destruct (list_add_spec _ _ _ _ Hr Hl Hnew) as (h' & ? & ? & ?). eauto.
  - destruct (list_add_tail_spec _ _ _ _ Hr Hl Hnew) as (h' & ? & Hr' & ?).
    rewrite <- app_assoc in Hr'. eauto.
  - destruct (list_del_spec _ _ _ _ _ Hr) as (h' & ? & ? & ? & ? & ?). eauto 6.
  - destruct (list_del_init_spec _ _ _ _ _ Hr) as (h' & ? & ? & ? & ?). eauto 6.
  - by destruct (list_move_spec _ _ _ _ _ Hr) as [? _].
  - by destruct (list_move_spec _ _ _ _ _ Hr) as [_ ?].
  - by apply list_rotate_left_spec.
  - destruct (list_replace_spec _ _ _ _ Hr Hl Hnew) as (h' & ? & ? & ? & ?). eauto.
  - destruct (list_replace_init_spec _ _ _ _ Hr Hl Hnew) as (h' & ? & ? & ? & ?). eauto 6.
  - rewrite (list_empty_run _ _ _ Hr), bool_decide_eq_false_2; [done|]. by destruct l1.
  - apply (tests_run _ _ _ _ _ Hr).
  - apply (tests_run _ _ _ _ _ Hr).
  - rewrite (list_is_singular_run _ _ _ Hr). do 2 f_equal. apply bool_decide_ext.
    rewrite length_app. cbn [length]. split; [|intros E; apply app_eq_nil in E as [-> ->]; done].
    intros E. rewrite (nil_length_inv l1), (nil_length_inv l2) by lia. done.
Qed.

(** A store with two lists and a loose node. *)
Definition sample : heap :=
  mkHeap (list_to_map [(100, 11); (11, 12); (12, 13); (13, 100); (200, 21); (21, 200); (300, 300)])
         (list_to_map [(100, 13); (11, 100); (12, 11); (13, 12); (200, 21); (21, 200); (300, 300)]).
(** The entries found by following [next], as far as [n] nodes. *)
Fixpoint walk (n : nat) (h : heap) (x head : Z) : list Z :=
  match n, nexts h !! x with
  | S n, Some y => if decide (y = head) then [] else y :: walk n h y head
  | _, _ => []
  end.

Lemma sample_rings : ring sample 100 [11; 12; 13] /\ ring sample 200 [21] /\ live sample 300.
Proof. split_and!; [split; [apply NoDup_ListNoDup; repeat constructor; cbn; lia|cbn; unfold linked; tauto]..|]; split; by eexists. Qed.

Lemma list_operations_witness : exists h', list_del_init 12 sample = Ok (tt, h') /\ ring h' 100 [11; 13].
Proof.
  destruct (list_operations sample 100 [11] 12 [13] 300) as (_ & _ & _ & H & _).
  - apply sample_rings.
  - apply sample_rings.
  - cbn. rewrite !not_elem_of_cons. split_and!; [lia..|apply not_elem_of_nil].
  - destruct H as (h' & E & [Hr _] & _). by exists h'.
Defined.

(** moving entries between two lists.  With disjoint lists [m] behind [list] and
    [l1 ++ l2] behind [head]: the four splices put all of [m] before or after the
    entries of [head], and the init variants leave an empty list behind; cutting at an
    entry moves it and everything before it to the other head; [list_move] takes one
    entry along.  No other node of the store is written. *)
Theorem list_two_lists h list m head l1 l2 new :
  ring h list m -> ring h head (l1 ++ l2) -> (forall z, z ∈ list :: m -> z ∉ head :: l1 ++ l2) ->
  let nodes := list :: m ++ head :: l1 ++ l2 in
  yields (list_splice list head) h nodes (fun h' => ring h' head (m ++ l1 ++ l2)) /\
  yields (list_splice_init list head) h nodes (fun h' => ring h' head (m ++ l1 ++ l2) /\ ring h' list []) /\
  yields (list_splice_tail list head) h nodes (fun h' => ring h' head ((l1 ++ l2) ++ m)) /\
  yields (list_splice_tail_init list head) h nodes (fun h' => ring h' head ((l1 ++ l2) ++ m) /\ ring h' list []) /\
  (l1 ++ l2 <> [] -> live h new -> new ∉ head :: l1 ++ l2 ->
   yields (list_cut_position new head (lst head l1)) h (new :: head :: l1 ++ l2)
     (fun h' => ring h' new l1 /\ ring h' head l2)) /\
  (forall x m1 m2, m = m1 ++ x :: m2 ->
   exists h', list_move x head h = Ok (tt, h') /\ ring h' list (m1 ++ m2) /\ ring h' head (x :: l1 ++ l2)).
Proof.
  intros Hr Hh Hdis nodes. pose proof (list_splice_spec _ _ _ _ _ Hr Hh Hdis) as (S1 & S2 & S3 & S4).
  split_and!; try done.
  - intros Hne Hl Hnew. by apply list_cut_position_spec.
  - intros x m1 m2 ->. apply list_move_other_spec; [done..|]. intros z Hz Hz'. by apply (Hdis z).
Qed.

Lemma list_two_lists_witness :
  exists h', list_splice_init 200 100 sample = Ok (tt, h') /\ ring h' 100 [21; 11; 12; 13] /\
    walk 9 h' 100 100 = [21; 11; 12; 13].
Proof.
  destruct (list_two_lists sample 200 [21] 100 [11] [12; 13] 300) as (_ & (h' & E & [Hr _] & _) & _).
  - apply sample_rings.
  - apply sample_rings.
  - cbn. intros z Hz. rewrite !elem_of_cons, elem_of_nil in *. lia.
  - exists h'. split; [exact E|]. split; [exact Hr|]. vm_compute in E. injection E as <-. reflexivity.
Defined.
