(* ===== verification/KListSort.v ===== *)
(** * lib/list_sort.c: merge sort of a linked list

    [list_sort] on the store of KList: nodes are relinked, nothing is copied.
    [cmp] is a function of the two nodes, since sorting does not change what it
    reads (the [priv] argument is part of it); so the calls that
    [merge_and_restore_back_links] makes only to give the caller a chance to
    reschedule change nothing and are left out, with the counter that paces them.
    The loops carry fuel, and the number of nodes in the store is enough. *)

From stdpp Require Import sorting.
From S2P Require Import Prelude KSort KList.
Open Scope Z_scope.

Section code.
  Variable cmp : Z -> Z -> Z.

(** [tail->next], where [tail] is a node or the local [head] whose [next] is [hn]. *)
Definition put_tail (tail : option Z) (v hn : Z) : L Z :=
  match tail with None => mret v | Some t => st_next t v;; mret hn end.
Definition get_tail (tail : option Z) (hn : Z) : L Z :=
  match tail with None => mret hn | Some t => ld_next t end.

Fixpoint merge_loop (fuel : nat) (tail : option Z) (hn a b : Z) : L Z :=
  match fuel with
  | O => die NoFuel
  | S fuel' =>
      if negb (a =? 0) && negb (b =? 0) then
        if cmp a b <=? 0 then
          hn ← put_tail tail a hn;
          a ← ld_next a;
          t ← get_tail tail hn;
          merge_loop fuel' (Some t) hn a b
        else
          hn ← put_tail tail b hn;
          b ← ld_next b;
          t ← get_tail tail hn;
          merge_loop fuel' (Some t) hn a b
      else put_tail tail (if negb (a =? 0) then a else b) hn
  end.
Definition merge (a b : Z) : L Z :=
  n ← gets (fun h => size (nexts h)); merge_loop (S n) None 0 a b.

(** The [do] loop that sets the back links, and the closing of the ring. *)
Fixpoint back_links (fuel : nat) (tail head : Z) : L unit :=
  match fuel with
  | O => die NoFuel
  | S fuel' =>
      n ← ld_next tail; st_prev n tail;;
      tail ← ld_next tail;
      n ← ld_next tail;
      if negb (n =? 0) then back_links fuel' tail head
      else
        st_next tail head;;
        st_prev head tail
  end.

Fixpoint restore_loop (fuel : nat) (tail head a b : Z) : L unit :=
  match fuel with
  | O => die NoFuel
  | S fuel' =>
      if negb (a =? 0) && negb (b =? 0) then
        if cmp a b <=? 0 then
          st_next tail a;;
          st_prev a tail;;
          a ← ld_next a;
          tail ← ld_next tail;
          restore_loop fuel' tail head a b
        else
          st_next tail b;;
          st_prev b tail;;
          b ← ld_next b;
          tail ← ld_next tail;
          restore_loop fuel' tail head a b
      else
        st_next tail (if negb (a =? 0) then a else b);;
        n ← gets (fun h => size (nexts h));
        back_links (S n) tail head
  end.
Definition merge_and_restore_back_links (head a b : Z) : L unit :=
  n ← gets (fun h => size (nexts h)); restore_loop (S n) head head a b.

Definition MAX_LIST_LENGTH_BITS : Z := 20.
Definition ARRAY_SIZE (l : list Z) : Z := Z.of_nat (length l).

(** The [for] loop that merges [cur] with the full levels from [lev] up. *)
Fixpoint merge_levels (fuel : nat) (part : list Z) (lev cur : Z) : L (list Z * Z * Z) :=
  match fuel with
  | O => die NoFuel
  | S fuel' =>
      p ← lift (aread part lev);
      if negb (p =? 0) then
        cur ← merge p cur;
        part ← lift (awrite part lev 0);
        merge_levels fuel' part (lev +i 1)%cint cur
      else mret (part, lev, cur)
  end.

(** The [while] loop over the nodes. *)
Fixpoint distribute (fuel : nat) (part : list Z) (max_lev list : Z) : L (Datatypes.list Z * Z) :=
  match fuel with
  | O => die NoFuel
  | S fuel' =>
      if negb (list =? 0) then
        let cur := list in
        list ← ld_next list;
        st_next cur 0;;
        '(part, lev, cur) ← merge_levels (S (length part)) part 0 cur;
        let '(lev, max_lev) :=
          if max_lev <? lev then
            let lev := if ARRAY_SIZE part - 1 <=? lev then (lev -i 1)%cint else lev in (lev, lev)
          else (lev, max_lev) in
        part ← lift (awrite part lev cur);
        distribute fuel' part max_lev list
      else mret (part, max_lev)
  end.

(** The [for] loop that merges the levels below [max_lev]; [n] of them are left. *)
Fixpoint collect (n : nat) (part : list Z) (lev list : Z) : L Z :=
  match n with
  | O => mret list
  | S n' =>
      p ← lift (aread part lev);
      list ← (if negb (p =? 0) then merge p list else mret list);
      collect n' part (lev +i 1)%cint list
  end.

Definition list_sort (head : Z) : L unit :=
  e ← list_empty head;
  if e : bool then mret tt
  else
    let part := replicate (Z.to_nat (MAX_LIST_LENGTH_BITS + 1)) 0 in
    last ← ld_prev head;
    st_next last 0;;
    list ← ld_next head;
    n ← gets (fun h => size (nexts h));
    '(part, max_lev) ← distribute (S n) part 0 list;
    list ← collect (Z.to_nat max_lev) part 0 0;
    p ← lift (aread part max_lev);
    merge_and_restore_back_links head p list.
End code.

(** Sorting by address, on a list of four nodes. *)
Example list_sort_runs :
  match list_sort Z.sub 100
    (mkHeap (list_to_map [(100, 13); (13, 11); (11, 14); (14, 12); (12, 100)])
            (list_to_map [(100, 12); (12, 14); (14, 11); (11, 13); (13, 100)])) with
  | Ok (_, h) => walk 9 h 100 100
  | Fault _ => []
  end = [11; 12; 13; 14].
Proof. vm_compute. reflexivity. Qed.

(** * Stable sorting of lists *)

Section stable.
  Context (cmp : Z -> Z -> Z) `{!Comparator cmp}.

Abbreviation R := (le_cmp cmp).
#[export] Instance R_dec x y : Decision (R x y).
Proof. unfold le_cmp. apply _. Defined.
Abbreviation merge_list := (list_merge R).

(** A rearrangement that keeps the order of equivalent elements. *)
Definition stable (l l' : list Z) : Prop :=
  l' ≡ₚ l /\ forall z, filter (fun y => cmp z y = 0) l' = filter (fun y => cmp z y = 0) l.

#[export] Instance stable_refl : Reflexive stable.
Proof. by intros l. Qed.
#[export] Instance stable_trans : Transitive stable.
Proof. intros l1 l2 l3 [P1 F1] [P2 F2]. split; [by rewrite P2|]. intros z. by rewrite F2. Qed.
#[export] Instance stable_app : Proper (stable ==> stable ==> stable) (@app Z).
Proof.
  intros l1 l1' [P1 F1] l2 l2' [P2 F2]. split; [by rewrite P1, P2|]. intros z. by rewrite !filter_app, F1, F2.
Qed.

#[export] Instance R_total : Total R.
Proof. intros x y. by apply le_cmp_total. Qed.
#[export] Instance R_trans : Transitive R.
Proof. intros x y z. by apply le_cmp_trans. Qed.

Lemma merge_sorted l1 l2 : Sorted R l1 -> Sorted R l2 -> Sorted R (merge_list l1 l2).
Proof. apply Sorted_list_merge. apply _. Qed.

(** What is behind the head of a sorted list is not smaller. *)
Lemma sorted_ge x l y : Sorted R (x :: l) -> y ∈ x :: l -> cmp x y <= 0.
Proof.
  intros Hs [->|Hy]%elem_of_cons; [exact (le_cmp_refl cmp x)|].
  apply Sorted_StronglySorted in Hs; [|apply R_trans]. apply StronglySorted_inv in Hs as [_ Hf].
  rewrite Forall_forall in Hf. by apply Hf.
Qed.

Lemma merge_stable l1 l2 : Sorted R l1 -> Sorted R l2 -> stable (l1 ++ l2) (merge_list l1 l2).
Proof.
  intros H1 H2. split; [apply merge_Permutation|]. intros z. revert l2 H2.
  induction l1 as [|x l1 IH1]; intros l2 H2; [by rewrite list_merge_nil_l|].
  induction l2 as [|y l2 IH2]; [by rewrite list_merge_nil_r, app_nil_r|].
  rewrite list_merge_cons. case_decide as Hc.
  - cbn [app]. rewrite !filter_cons. rewrite (IH1 (proj1 (Sorted_inv H1)) _ H2). done.
  - rewrite filter_cons, (IH2 (proj1 (Sorted_inv H2))), !filter_app, (filter_cons _ y).
    case_decide as Hy; [|done].
    assert (filter (fun y => cmp z y = 0) (x :: l1) = []) as ->; [|done].
    apply elem_of_nil_inv. intros w [Hw Hin]%list_elem_of_filter.
    pose proof (cmp_sym z w) as Sw. apply Hc, (cmp_trans x w y); [by eapply sorted_ge|].
    apply (cmp_trans w z y); lia.
Qed.

(** ** The levels *)

(** The entries of the levels, highest level first: the order they came in. *)
Definition entries (ls : list (list Z)) : list Z := concat (reverse ls).

Lemma entries_cons q ls : entries (q :: ls) = entries ls ++ q.
Proof. unfold entries. rewrite reverse_cons, concat_app. cbn. by rewrite app_nil_r. Qed.
Lemma entries_nils n ls : entries (replicate n [] ++ ls) = entries ls.
Proof. induction n as [|n IH]; [done|]. cbn [replicate app]. by rewrite entries_cons, IH, app_nil_r. Qed.
Lemma entries_perm ls : entries ls ≡ₚ concat ls.
Proof.
  induction ls as [|q ls IH]; [done|]. rewrite entries_cons, IH. cbn. apply Permutation_app_comm.
Qed.
End stable.

(** * Chains *)

(** A list without back links that ends with NULL. *)
Fixpoint chain (h : heap) (a : Z) (l : list Z) : Prop :=
  match l with
  | [] => a = 0
  | x :: l => a = x /\ x <> 0 /\ exists y, nexts h !! x = Some y /\ chain h y l
  end.

(** Only the nodes [ln] get another [next], only [lp] another [prev]. *)
Record evolves (ln lp : list Z) (h h' : heap) : Prop := {
  ev_next : forall x, x ∉ ln -> nexts h' !! x = nexts h !! x;
  ev_prev : forall x, x ∉ lp -> prevs h' !! x = prevs h !! x;
  ev_nlive : forall x, is_Some (nexts h !! x) -> is_Some (nexts h' !! x);
  ev_plive : forall x, is_Some (prevs h !! x) -> is_Some (prevs h' !! x);
}.

Lemma evolves_refl ln lp h : evolves ln lp h h.
Proof. by split. Qed.

Lemma evolves_trans ln lp h1 h2 h3 : evolves ln lp h1 h2 -> evolves ln lp h2 h3 -> evolves ln lp h1 h3.
Proof.
  intros [N1 P1 A1 B1] [N2 P2 A2 B2]. split; intros x Hx; [by rewrite N2, N1 | by rewrite P2, P1 | auto..].
Qed.

Lemma evolves_weaken ln lp ln' lp' h h' : ln ⊆ ln' -> lp ⊆ lp' -> evolves ln lp h h' -> evolves ln' lp' h h'.
Proof.
  intros Hn Hp [N P A B]. split; [intros x Hx; apply N; by intros ?%Hn | intros x Hx; apply P; by intros ?%Hp | done..].
Qed.

Lemma evolves_next x v ln lp h : x ∈ ln -> evolves ln lp h (mkHeap (<[x := v]> (nexts h)) (prevs h)).
Proof.
  intros Hx. split; cbn; intros y Hy; [apply lookup_insert_ne; congruence | done | | done].
  rewrite lookup_insert_is_Some'. by right.
Qed.

Lemma evolves_prev x v ln lp h : x ∈ lp -> evolves ln lp h (mkHeap (nexts h) (<[x := v]> (prevs h))).
Proof.
  intros Hx. split; cbn; intros y Hy; [done | apply lookup_insert_ne; congruence | done |].
  rewrite lookup_insert_is_Some'. by right.
Qed.

Lemma evolves_join x y ln lp h : x ∈ ln -> y ∈ lp -> evolves ln lp h (join x y h).
Proof.
  intros Hx Hy. split; cbn; intros z Hz; [apply lookup_insert_ne; congruence..| |];
    rewrite lookup_insert_is_Some'; by right.
Qed.

Lemma chain_evolves ln lp h h' a l :
  evolves ln lp h h' -> (forall x, x ∈ l -> x ∉ ln) -> chain h a l -> chain h' a l.
Proof.
  intros Hev. revert a. induction l as [|x l IH]; intros a Hd; cbn; [done|].
  intros (-> & Hx & y & Hy & Hc). split; [done|]. split; [done|]. exists y.
  split; [by rewrite (ev_next _ _ _ _ Hev) by (apply Hd; left)|].
  apply IH; [|done]. intros z Hz. apply Hd. by right.
Qed.

Lemma chain_live h a l x : chain h a l -> x ∈ l -> is_Some (nexts h !! x).
Proof.
  revert a. induction l as [|z l IH]; intros a; cbn; [by intros _ ?%elem_of_nil|].
  intros (-> & _ & y & Hy & Hc) [->|Hx]%elem_of_cons; [by rewrite Hy|]. by eapply IH.
Qed.

Lemma chain_null h a l : chain h a l -> a = 0 <-> l = [].
Proof. destruct l; cbn; [done|]. intros (-> & ? & _). split; done. Qed.

(** A list without repetition fits in the store. *)
Lemma nodes_bound {A} (m : gmap Z A) (l : list Z) : NoDup l -> (forall x, x ∈ l -> is_Some (m !! x)) -> (length l <= size m)%nat.
Proof.
  intros Hn Hl. rewrite <- (size_list_to_set (C := gset Z) l Hn), <- size_dom.
  apply subseteq_size. intros x Hx. apply elem_of_list_to_set in Hx. by apply elem_of_dom, Hl.
Qed.

(** * Merging chains *)

Section merging.
  Context (cmp : Z -> Z -> Z).

Abbreviation merge_list := (list_merge (le_cmp cmp)).
Definition tail_node (tail : option Z) : list Z := match tail with None => [] | Some t => [t] end.

(** What [tail->next] is. *)
Definition next_is (tail : option Z) (hn : Z) (h : heap) (r : Z) : Prop :=
  match tail with None => hn = r | Some t => nexts h !! t = Some r end.

Lemma put_tail_run tail v hn h :
  (forall t, tail = Some t -> is_Some (nexts h !! t)) ->
  exists hn' h', put_tail tail v hn h = Ok (hn', h') /\ next_is tail hn' h' v /\ (tail <> None -> hn' = hn) /\
    evolves (tail_node tail) [] h h'.
Proof.
  intros Ht. destruct tail as [t|]; cbn.
  - rewrite (Mbind_run _ _ _ _ _ (st_next_run t v h (Ht t eq_refl))). do 2 eexists. split; [done|].
    split; [apply lookup_insert_eq|]. split; [done|]. apply evolves_next. left.
  - exists v, h. split; [done|]. split; [done|]. split; [done|apply evolves_refl].
Qed.

Lemma get_tail_run tail hn h r : next_is tail hn h r -> get_tail tail hn h = Ok (r, h).
Proof. destruct tail; cbn; [apply ld_next_run | by intros ->]. Qed.

(** What merging must do from [tail]: put [m] behind it, and write to no other node. *)
Definition puts (tail : option Z) (hn : Z) (m : list Z) (c : L Z) (h : heap) : Prop :=
  exists r hn' h', c h = Ok (hn', h') /\ next_is tail hn' h' r /\ (tail <> None -> hn' = hn) /\
    chain h' r m /\ evolves (tail_node tail ++ m) [] h h'.

(** Taking the head [x] of one of the two chains; [m] is what the rest will put. *)
Lemma merge_take tail hn h x y m (k : Z -> Z -> Z -> L Z) :
  (forall t, tail = Some t -> is_Some (nexts h !! t) /\ t ∉ x :: m) ->
  nexts h !! x = Some y -> x <> 0 ->
  (forall hn h1, evolves (tail_node tail) [] h h1 -> puts (Some x) hn m (k x hn y) h1) ->
  puts tail hn (x :: m) (hn ← put_tail tail x hn; x' ← ld_next x; t ← get_tail tail hn; k t hn x') h.
Proof.
  intros Ht Hy Hx0 IH. destruct (put_tail_run tail x hn h) as (hn1 & h1 & E1 & Hs & Hk & Hev).
  { intros t E. by apply Ht. }
  assert (nexts h1 !! x = Some y) as Hy1.
  { rewrite (ev_next _ _ _ _ Hev); [done|]. destruct tail as [t|]; cbn; [|apply not_elem_of_nil].
    destruct (Ht t eq_refl) as [_ Hn]. rewrite not_elem_of_cons in *. split; [intros ->; naive_solver|apply not_elem_of_nil]. }
  destruct (IH hn1 h1 Hev) as (r & hn' & h' & E & Hr & Hh & Hc & Hev'). rewrite Hh in E by done.
  exists x, hn1, h'. split_and!.
  - rewrite (Mbind_run _ _ _ _ _ E1), (Mbind_run _ _ _ _ _ (ld_next_run _ _ _ Hy1)).
    by rewrite (Mbind_run _ _ _ _ _ (get_tail_run _ _ _ _ Hs)).
  - destruct tail as [t|]; cbn in *; [|done]. rewrite (ev_next _ _ _ _ Hev'); [done|]. by apply (Ht t).
  - done.
  - cbn. split; [done|]. split; [done|]. by exists r.
  - eapply evolves_trans; eapply evolves_weaken; [| |exact Hev| | |exact Hev']; set_solver.
Qed.

Lemma merge_loop_spec fuel tail hn a b la lb h :
  chain h a la -> chain h b lb -> NoDup (la ++ lb) ->
  (forall t, tail = Some t -> is_Some (nexts h !! t) /\ t ∉ la ++ lb) ->
  (length (la ++ lb) < fuel)%nat ->
  puts tail hn (merge_list la lb) (merge_loop cmp fuel tail hn a b) h.
Proof.
  revert tail hn a b la lb h. induction fuel as [|fuel IH]; intros tail hn a b la lb h Ha Hb Hn Ht Hf; [lia|].
  assert (la = [] \/ lb = [] -> puts tail hn (la ++ lb) (put_tail tail (if negb (a =? 0) then a else b) hn) h) as Hend.
  { intros Hemp. destruct (put_tail_run tail (if negb (a =? 0) then a else b) hn h) as (hn1 & h1 & E1 & Hs & Hk & Hev).
    { intros t E. by apply Ht. }
    exists (if negb (a =? 0) then a else b), hn1, h1. split_and!; try done.
    - eapply chain_evolves; [exact Hev| |].
      + intros x Hx. destruct tail as [t|]; cbn; [|apply not_elem_of_nil]. destruct (Ht t eq_refl) as [_ Hnt].
        rewrite not_elem_of_cons. split; [by intros ->|apply not_elem_of_nil].
      + destruct la as [|x la]; [cbn in Ha; by subst a|]. destruct Hemp as [| ->]; [done|].
        rewrite app_nil_r. destruct Ha as (-> & Hx & Ha). rewrite (proj2 (Z.eqb_neq x 0)) by done. done.
    - eapply evolves_weaken; [| |exact Hev]; set_solver. }
  destruct la as [|x la]; [rewrite list_merge_nil_l; cbn in Ha; subst a; by apply Hend; left|].
  destruct lb as [|y lb].
  { rewrite list_merge_nil_r. cbn in Hb. subst b. cbn [merge_loop]. rewrite andb_false_r.
    rewrite app_nil_r in Hend. apply Hend. by right. }
  clear Hend. destruct Ha as (-> & Hx & x' & Hx' & Ha), Hb as (-> & Hy & y' & Hy' & Hb).
  rewrite list_merge_cons. cbn [merge_loop]. rewrite (proj2 (Z.eqb_neq x 0)), (proj2 (Z.eqb_neq y 0)) by done. cbn [negb andb].
  assert (forall z, z ∈ merge_list la (y :: lb) <-> z ∈ la ++ y :: lb) as M1 by (intros z; by rewrite merge_Permutation).
  assert (forall z, z ∈ merge_list (x :: la) lb <-> z ∈ (x :: la) ++ lb) as M2 by (intros z; by rewrite merge_Permutation).
  assert (forall h1, evolves (tail_node tail) [] h h1 ->
    chain h1 x' la /\ chain h1 y' lb /\ nexts h1 !! x = Some x' /\ nexts h1 !! y = Some y') as Hkeep.
  { intros h1 Hev. assert (forall z, z ∈ (x :: la) ++ y :: lb -> z ∉ tail_node tail) as Hz.
    { intros z Hz. destruct tail as [t|]; cbn; [|apply not_elem_of_nil]. destruct (Ht t eq_refl) as [_ Hnt].
      rewrite not_elem_of_cons. split; [by intros ->|apply not_elem_of_nil]. }
    split_and!; [eapply chain_evolves; [exact Hev| |done]; intros z ?; apply Hz; set_solver..| |];
      (rewrite (ev_next _ _ _ _ Hev); [done|]; apply Hz; set_solver). }
  pose proof Hn as (Hn1 & Hnd & Hn2)%NoDup_app. apply NoDup_cons in Hn1 as [Hxl Hn1]. apply NoDup_cons in Hn2 as [Hyl Hn2].
  unfold le_cmp at 1. destruct (Z.leb_spec (cmp x y) 0); case_decide; try lia.
  - apply merge_take with (y := x') (k := fun t hn a => merge_loop cmp fuel (Some t) hn a y); [|done..|].
    + intros t E. destruct (Ht t E) as [? Hnt]. split; [done|]. rewrite not_elem_of_cons, M1. set_solver.
    + intros hn1 h1 Hev. apply Hkeep in Hev as (C1 & C2 & K1 & K2). apply IH; [done| | | |cbn in *; lia].
      * cbn. eauto.
      * by apply NoDup_cons in Hn as [_ ?].
      * intros t [= <-]. split; [by rewrite K1|]. by apply NoDup_cons in Hn as [? _].
  - apply merge_take with (y := y') (k := fun t hn b => merge_loop cmp fuel (Some t) hn x b); [|done..|].
    + intros t E. destruct (Ht t E) as [? Hnt]. split; [done|]. rewrite not_elem_of_cons, M2. set_solver.
    + intros hn1 h1 Hev. apply Hkeep in Hev as (C1 & C2 & K1 & K2).
      assert (y ∉ (x :: la) ++ lb) as Hy2.
      { intros [Hy2|?]%elem_of_app; [|done]. apply (Hnd y Hy2). left. }
      apply IH; [|done| | |rewrite length_app in *; cbn in *; lia].
      * cbn. eauto.
      * assert ((x :: la) ++ y :: lb ≡ₚ y :: (x :: la) ++ lb) as HP by solve_Permutation.
        rewrite HP in Hn. by apply NoDup_cons in Hn as [_ ?].
      * intros t [= <-]. split; [by rewrite K2|done].
Qed.

Lemma merge_spec a b la lb h :
  chain h a la -> chain h b lb -> NoDup (la ++ lb) ->
  exists r h', merge cmp a b h = Ok (r, h') /\ chain h' r (merge_list la lb) /\ evolves (la ++ lb) [] h h'.
Proof.
  intros Ha Hb Hn. unfold merge. rewrite Mbind_gets.
  destruct (merge_loop_spec (S (size (nexts h))) None 0 a b la lb h) as (r & hn & h' & E & Hr & _ & Hc & Hev); [done..| |].
  - apply Nat.lt_succ_r, nodes_bound; [done|]. intros x [Hx|Hx]%elem_of_app; [exact (chain_live _ _ _ _ Ha Hx) | exact (chain_live _ _ _ _ Hb Hx)].
  - cbn in Hr. subst hn. exists r, h'. split; [done|]. split; [done|].
    eapply evolves_weaken; [| |exact Hev]; [|done]. cbn. by rewrite merge_Permutation.
Qed.

(** ** Back links *)

(** Make [m] the rest of the ring behind [t]. *)
Definition relinks (t head : Z) (m : list Z) (c : L unit) (h : heap) : Prop :=
  exists h', c h = Ok (tt, h') /\ path h' t (m ++ [head]) /\ evolves (t :: m) (m ++ [head]) h h'.

Lemma relinks_cons t head x m c h h1 :
  relinks x head m c h1 -> linked h1 t x -> evolves [t] [x] h h1 -> t ∉ x :: m -> x ∉ m ++ [head] ->
  exists h', c h1 = Ok (tt, h') /\ path h' t ((x :: m) ++ [head]) /\ evolves (t :: x :: m) ((x :: m) ++ [head]) h h'.
Proof.
  intros (h' & E & Hp & Hev) [Ln Lp] Hev1 Ht Hx. exists h'. split; [done|]. split.
  - cbn. split; [|done]. split; [by rewrite (ev_next _ _ _ _ Hev) | by rewrite (ev_prev _ _ _ _ Hev)].
  - eapply evolves_trans; eapply evolves_weaken; [| |exact Hev1| | |exact Hev]; set_solver.
Qed.

Lemma back_links_spec fuel t head r l h :
  nexts h !! t = Some r -> chain h r l -> l <> [] -> NoDup (t :: l) -> head ∉ l ->
  (forall x, x ∈ l ++ [head] -> is_Some (prevs h !! x)) -> is_Some (nexts h !! t) ->
  (length l <= fuel)%nat -> relinks t head l (back_links fuel t head) h.
Proof.
  revert t r l h. induction fuel as [|fuel IH]; intros t r l h Hr Hc Hne Hn Hh Hp Hl Hf; [destruct l; [done|cbn in Hf; lia]|].
  destruct l as [|x l]; [done|]. destruct Hc as (-> & Hx0 & y & Hy & Hc). cbn [back_links].
  unfold relinks. rewrite (Mbind_run _ _ _ _ _ (ld_next_run _ _ _ Hr)).
  rewrite (Mbind_run _ _ _ _ _ (st_prev_run x t h ltac:(apply Hp; left))).
  set (h1 := mkHeap (nexts h) (<[x := t]> (prevs h))).
  rewrite (Mbind_run _ _ _ _ _ (ld_next_run t x h1 Hr)), (Mbind_run _ _ _ _ _ (ld_next_run x y h1 Hy)).
  apply NoDup_cons in Hn as [Ht Hn]. pose proof Hn as [Hxl _]%NoDup_cons. apply not_elem_of_cons in Hh as [Hhx Hhl].
  assert (evolves [t] [x] h h1) as Hev by (apply evolves_prev; left).
  assert (chain h1 y l) as Hc1 by (eapply (chain_evolves [] [x]); [apply evolves_prev; left| |done]; set_solver).
  assert (linked h1 t x) as Hlk by (split; [done|apply lookup_insert_eq]).
  assert (x ∉ l ++ [head]) as Hxh by (rewrite elem_of_app, list_elem_of_singleton; naive_solver).
  destruct (Z.eqb_spec y 0) as [Hy0|Hy0]; cbn [negb]; apply (relinks_cons t head x); try done.
  - apply (chain_null _ _ _ Hc1) in Hy0 as ->. cbn [app] in *. exists (join x head h1).
    assert (is_Some (nexts h1 !! x)) by (cbn; by rewrite Hy).
    assert (is_Some (prevs h1 !! head)) by (apply (ev_plive _ _ _ _ Hev), Hp; set_solver).
    split; [clearbody h1; by repeat hstep|]. split; [split; [apply linked_join|done]|].
    apply evolves_join; left.
  - apply (IH x y); [done|done| |done|done| |exists y; exact Hy|cbn in Hf; lia].
    + intros ->. apply Hy0. by apply (chain_null _ _ _ Hc1).
    + intros z Hz. apply (ev_plive _ _ _ _ Hev), Hp. set_solver.
Qed.

Lemma restore_take t head x x' m h (k : Z -> Z -> L unit) :
  is_Some (nexts h !! t) -> is_Some (prevs h !! x) -> nexts h !! x = Some x' -> t ∉ x :: m -> x ∉ m ++ [head] ->
  (forall h1, evolves [t] [x] h h1 -> relinks x head m (k x x') h1) ->
  relinks t head (x :: m) (st_next t x;; st_prev x t;; x' ← ld_next x; t ← ld_next t; k t x') h.
Proof.
  intros Ht Hx Hx' Htm Hxm IH. unfold relinks.
  assert (t <> x) as Htx by (rewrite not_elem_of_cons in Htm; tauto).
  assert (evolves [t] [x] h (join t x h)) as Hev.
  { apply evolves_join; left. }
  do 2 hstep. change (mkHeap _ _) with (join t x h). do 2 hstep.
  apply (relinks_cons t head x m _ h (join t x h)); [by apply IH|apply linked_join|done..].
Qed.

Lemma restore_loop_spec fuel t head a b la lb h :
  chain h a la -> chain h b lb -> la ++ lb <> [] -> NoDup (t :: la ++ lb) -> head ∉ la ++ lb ->
  (forall x, x ∈ (la ++ lb) ++ [head] -> is_Some (prevs h !! x)) -> is_Some (nexts h !! t) ->
  (length (la ++ lb) < fuel)%nat ->
  relinks t head (merge_list la lb) (restore_loop cmp fuel t head a b) h.
Proof.
  revert t a b la lb h. induction fuel as [|fuel IH]; intros t a b la lb h Ha Hb Hne Hn Hh Hp Hl Hf; [lia|].
  cbn [restore_loop].
  assert (la = [] \/ lb = [] -> relinks t head (la ++ lb)
    (st_next t (if negb (a =? 0) then a else b);; n ← gets (fun h => size (nexts h)); back_links (S n) t head) h) as Hend.
  { intros Hemp. set (r := if negb (a =? 0) then a else b). unfold relinks.
    rewrite (Mbind_run _ _ _ _ _ (st_next_run t r h Hl)), Mbind_gets.
    set (h1 := mkHeap (<[t := r]> (nexts h)) (prevs h)).
    assert (evolves [t] [] h h1) as Hev by (apply evolves_next; left).
    apply NoDup_cons in Hn as Hn'. destruct Hn' as [Ht Hn'].
    assert (chain h1 r (la ++ lb)) as Hc.
    { eapply chain_evolves; [exact Hev|intros x Hx ->%list_elem_of_singleton; done|]. unfold r.
      destruct la as [|x la]; [cbn in Ha; by subst a|]. destruct Hemp as [| ->]; [done|].
      rewrite app_nil_r. destruct Ha as (-> & Hx & Ha). rewrite (proj2 (Z.eqb_neq x 0)) by done. done. }
    destruct (back_links_spec (S (size (nexts h1))) t head r (la ++ lb) h1) as (h' & E & Hpa & Hev'); try done.
    - apply lookup_insert_eq.
    - cbn. rewrite lookup_insert_is_Some'. by left.
    - apply Nat.le_le_succ_r, nodes_bound; [done|]. intros x Hx. by eapply chain_live.
    - exists h'. split; [done|]. split; [done|].
      eapply evolves_trans; eapply evolves_weaken; [| |exact Hev| | |exact Hev']; set_solver. }
  destruct la as [|x la]; [rewrite list_merge_nil_l; cbn in Ha; subst a; by apply Hend; left|].
  destruct lb as [|y lb].
  { rewrite list_merge_nil_r. cbn in Hb. subst b. rewrite andb_false_r. rewrite app_nil_r in Hend. apply Hend. by right. }
  clear Hend. destruct Ha as (-> & Hx & x' & Hx' & Ha), Hb as (-> & Hy & y' & Hy' & Hb).
  rewrite list_merge_cons. rewrite (proj2 (Z.eqb_neq x 0)), (proj2 (Z.eqb_neq y 0)) by done. cbn [negb andb].
  assert (forall z, z ∈ merge_list la (y :: lb) <-> z ∈ la ++ y :: lb) as M1 by (intros z; by rewrite merge_Permutation).
  assert (forall z, z ∈ merge_list (x :: la) lb <-> z ∈ (x :: la) ++ lb) as M2 by (intros z; by rewrite merge_Permutation).
  apply NoDup_cons in Hn as [Htn Hn].
  assert (forall w h1, evolves [t] [w] h h1 ->
    chain h1 x' la /\ chain h1 y' lb /\ nexts h1 !! x = Some x' /\ nexts h1 !! y = Some y') as Hkeep.
  { intros w h1 Hev. assert (forall z, z ∈ (x :: la) ++ y :: lb -> z ∉ [t]) as Hz
      by (intros z Hz ->%list_elem_of_singleton; done).
    split_and!; [eapply chain_evolves; [exact Hev| |done]; intros z ?; apply Hz; set_solver..| |];
      (rewrite (ev_next _ _ _ _ Hev); [done|]; apply Hz; set_solver). }
  assert (x ∉ la ++ y :: lb) as Hxn by (by apply NoDup_cons in Hn as [? _]).
  assert ((x :: la) ++ y :: lb ≡ₚ y :: (x :: la) ++ lb) as HP by solve_Permutation.
  assert (y ∉ (x :: la) ++ lb) as Hyn by (rewrite HP in Hn; by apply NoDup_cons in Hn as [? _]).
  assert (forall z w, z ∈ (x :: la) ++ y :: lb -> (w ∈ [head] -> w <> z)) as Hzh
    by (intros z w Hz ->%list_elem_of_singleton ->; done).
  unfold le_cmp at 1. destruct (Z.leb_spec (cmp x y) 0); case_decide; try lia.
  - apply (restore_take t head x x' _ h (fun t a => restore_loop cmp fuel t head a y)); [done| |done| | |].
    + apply Hp. left.
    + rewrite not_elem_of_cons, M1. by apply not_elem_of_cons in Htn.
    + rewrite elem_of_app, M1. intros [?|Hxh]; [done|]. by eapply (Hzh x x); [left| |].
    + intros h1 Hev. destruct (Hkeep _ _ Hev) as (C1 & C2 & K1 & K2).
      apply IH; [done|cbn; eauto|by destruct la|done|set_solver| |by rewrite K1|cbn in *; lia].
      intros z Hz. apply (ev_plive _ _ _ _ Hev), Hp. by right.
  - apply (restore_take t head y y' _ h (fun t b => restore_loop cmp fuel t head x b)); [done| |done| | |].
    + apply Hp. set_solver.
    + rewrite not_elem_of_cons, M2. set_solver.
    + rewrite elem_of_app, M2. intros [?|Hxh]; [done|]. by eapply (Hzh y y); [set_solver| |].
    + intros h1 Hev. destruct (Hkeep _ _ Hev) as (C1 & C2 & K1 & K2).
      apply IH; [cbn; eauto|done|done| |set_solver| |by rewrite K2|rewrite length_app in *; cbn in *; lia].
      * rewrite HP in Hn. done.
      * intros z Hz. apply (ev_plive _ _ _ _ Hev), Hp. set_solver.
Qed.
End merging.

(** * Sorting *)

Section sorting.
  Context (cmp : Z -> Z -> Z) `{!Comparator cmp}.

Abbreviation R := (le_cmp cmp).
Abbreviation merge_list := (list_merge (le_cmp cmp)).

Lemma aread_middle {A} (l1 : list A) x l2 : aread (l1 ++ x :: l2) (Z.of_nat (length l1)) = Ok x.
Proof. apply aread_lookup; [lia|]. rewrite Nat2Z.id. apply list_lookup_middle. done. Qed.

Lemma awrite_middle {A} (l1 : list A) x y l2 :
  awrite (l1 ++ x :: l2) (Z.of_nat (length l1)) y = Ok (l1 ++ y :: l2).
Proof.
  rewrite awrite_in by (rewrite length_app; cbn [length]; lia). f_equal.
  rewrite Nat2Z.id. by rewrite insert_app_r_alt, Nat.sub_diag by done.
Qed.

Lemma chains_evolve ln lp h h' part ls :
  evolves ln lp h h' -> (forall x, x ∈ concat ls -> x ∉ ln) -> Forall2 (chain h) part ls -> Forall2 (chain h') part ls.
Proof.
  intros Hev Hd H. induction H as [|p q part ls Hc H IH]; constructor.
  - eapply chain_evolves; [exact Hev| |done]. intros x Hx. apply Hd. cbn. apply elem_of_app. by left.
  - apply IH. intros x Hx. apply Hd. cbn. apply elem_of_app. by right.
Qed.

Lemma merge_levels_spec fuel k part ls cur c h :
  Forall2 (chain h) part ls -> chain h cur c -> NoDup (concat ls ++ c) ->
  Forall (Sorted R) ls -> Sorted R c -> [] ∈ ls -> (length ls <= fuel)%nat -> (k + length ls <= 100)%nat ->
  exists j cur' c' h',
    merge_levels cmp fuel (replicate k 0 ++ part) (Z.of_nat k) cur h =
      Ok ((replicate (k + j) 0 ++ drop j part, Z.of_nat (k + j), cur'), h') /\
    ls !! j = Some [] /\ Forall2 (chain h') (drop j part) (drop j ls) /\ chain h' cur' c' /\ Sorted R c' /\
    stable cmp (entries ls ++ c) (entries (drop j ls) ++ c') /\ evolves (concat ls ++ c) [] h h'.
Proof.
  intros H. revert fuel k cur c. revert h H. revert part. induction ls as [|q ls IH];
    intros part h H fuel k cur c Hcur Hn Hs Hsc Hin Hf Hk; [by apply elem_of_nil in Hin|].
  apply Forall2_cons_inv_r in H as (p & part' & Hp & H & ->). destruct fuel as [|fuel]; [cbn in Hf; lia|].
  cbn [merge_levels]. 
  assert (Z.of_nat k = Z.of_nat (length (replicate k 0))) as Ek by (by rewrite length_replicate).
  rewrite Ek, aread_middle, Mbind_lift.
  destruct (Z.eqb_spec p 0) as [Hp0|Hp0]; cbn [negb].
  - apply (chain_null _ _ _ Hp) in Hp0 as Hq. subst q p. exists O, cur, c, h. rewrite Nat.add_0_r. cbn [drop].
    split; [by rewrite length_replicate|]. split_and!; try done. by constructor.
  - assert (q <> []) as Hq by (intros ->; by apply Hp0, (chain_null _ _ _ Hp)).
    assert (q ++ concat ls ++ c ≡ₚ concat ls ++ q ++ c) as HP by solve_Permutation.
    cbn [concat] in Hn. rewrite <- app_assoc, HP in Hn. apply NoDup_app in Hn as (Hn1 & Hd & Hn2).
    apply Forall_cons in Hs as [Hsq Hs].
    destruct (merge_spec cmp p cur q c h) as (r & h1 & E & Hc & Hev); [done..|].
    rewrite (Mbind_run _ _ _ _ _ E). rewrite awrite_middle, Mbind_lift.
    rewrite i32_small by (rewrite length_replicate; cbn in Hk; lia).
    destruct (IH part' h1 ltac:(eapply chains_evolve; [exact Hev|exact Hd|exact H]) fuel (S k) r (merge_list q c))
      as (j & cur' & c' & h' & E' & Hj & Hch & Hcc & Hsc' & Hst & Hev'); try done.
    + rewrite merge_Permutation. apply NoDup_app. done.
    + by apply merge_sorted.
    + apply elem_of_cons in Hin as [Hin|Hin]; [by subst q|done].
    + cbn in Hf. lia.
    + cbn in Hk. lia.
    + exists (S j), cur', c', h'. rewrite Nat.add_succ_r. cbn [drop lookup list_lookup].
      assert (replicate k 0 ++ 0 :: part' = replicate (S k) 0 ++ part') as -> by (by rewrite replicate_S_end, <- app_assoc).
      replace (Z.of_nat (length (replicate k 0)) + 1) with (Z.of_nat (S k)) by (rewrite length_replicate; lia).
      split; [exact E'|]. split_and!; try done.
      * rewrite entries_cons, <- app_assoc. transitivity (entries ls ++ merge_list q c); [|done].
        apply stable_app; [done|]. by apply merge_stable.
      * cbn [concat]. eapply evolves_trans; eapply evolves_weaken; [| |exact Hev| | |exact Hev']; try done.
        -- set_solver.
        -- rewrite merge_Permutation. set_solver.
Qed.

(** The state of the levels: [ls] are the entries at each, none above [mx]. *)
Record levels (h : heap) (part : list Z) (ls : list (list Z)) (mx : nat) : Prop := {
  lv_chain : Forall2 (chain h) part ls;
  lv_length : length ls = 21%nat;
  lv_sorted : Forall (Sorted R) ls;
  lv_max : (mx <= 19)%nat;
  lv_above : forall i, (mx < i < 21)%nat -> ls !! i = Some [];
}.

(** Where [distribute] puts the merged chain after the loop has stopped at [j]. *)
Definition place (mx j : nat) : nat * nat :=
  if (mx <? j)%nat then let j := if (20 <=? j)%nat then (j - 1)%nat else j in (j, j) else (j, mx).

Lemma place_spec mx j ls c :
  length ls = 21%nat -> (mx <= 19)%nat -> (forall i, (mx < i < 21)%nat -> ls !! i = Some []) -> ls !! j = Some [] ->
  let ls' := replicate j [] ++ drop j ls in
  let '(lv, mx') := place mx j in
  (lv <= 19)%nat /\ (mx' <= 19)%nat /\ entries (<[lv := c]> ls') = entries (drop j ls) ++ c /\
  (forall i, (mx' < i < 21)%nat -> <[lv := c]> ls' !! i = Some []).
Proof.
  intros Hl Hmx Hab Hj. cbn zeta. pose proof (lookup_lt_Some _ _ _ Hj) as Hjl.
  assert (forall i, (mx < i < 21)%nat -> (replicate j [] ++ drop j ls) !! i = Some []) as Hab'.
  { intros i Hi. destruct (decide (i < j)%nat).
    - rewrite lookup_app_l by (by rewrite length_replicate). by apply lookup_replicate.
    - rewrite lookup_app_r by (rewrite length_replicate; lia). rewrite length_replicate, lookup_drop.
      replace (j + (i - j))%nat with i by lia. by apply Hab. }
  assert (entries (<[j := c]> (replicate j [] ++ drop j ls)) = entries (drop j ls) ++ c) as Hsame.
  { rewrite (drop_S _ _ _ Hj). rewrite insert_app_r_alt by (by rewrite length_replicate).
    rewrite length_replicate, Nat.sub_diag. change (<[0%nat := c]> ([] :: drop (S j) ls)) with (c :: drop (S j) ls).
    by rewrite entries_nils, (entries_cons c), (entries_cons []), app_nil_r. }
  unfold place. destruct (Nat.ltb_spec mx j); [destruct (Nat.leb_spec 20 j)|].
  - assert (j = 20%nat) as -> by lia. cbn [Nat.sub]. split_and!; [lia..| |].
    + replace (replicate 20 [] ++ drop 20 ls) with (replicate 19 [] ++ [] :: drop 20 ls) by done.
      rewrite insert_app_r_alt by (by rewrite length_replicate). rewrite length_replicate, Nat.sub_diag.
      change (<[0%nat := c]> ([] :: drop 20 ls)) with (c :: drop 20 ls). by rewrite entries_nils, entries_cons.
    + intros i Hi. rewrite list_lookup_insert_ne by lia. apply Hab'. lia.
  - split_and!; [lia..|done|]. intros i Hi. rewrite list_lookup_insert_ne by lia. apply Hab'. lia.
  - split_and!; [lia..|done|]. intros i Hi. rewrite list_lookup_insert_ne by lia. by apply Hab'.
Qed.

Lemma place_code mx j part :
  length part = 21%nat -> (j < 21)%nat ->
  (if Z.of_nat mx <? Z.of_nat j then
     let lev := if ARRAY_SIZE part - 1 <=? Z.of_nat j then (Z.of_nat j -i 1)%cint else Z.of_nat j in (lev, lev)
   else (Z.of_nat j, Z.of_nat mx)) = (Z.of_nat (place mx j).1, Z.of_nat (place mx j).2).
Proof.
  intros Hl Hj. unfold ARRAY_SIZE, place. rewrite Hl.
  destruct (Z.ltb_spec (Z.of_nat mx) (Z.of_nat j)), (Nat.ltb_spec mx j); try lia; [|done].
  destruct (Z.leb_spec (Z.of_nat 21 - 1) (Z.of_nat j)), (Nat.leb_spec 20 j); try lia; [|done].
  cbn zeta. rewrite i32_small by lia. replace (Z.of_nat j - 1) with (Z.of_nat (j - 1)) by lia. done.
Qed.

Lemma chains_nils h part n : Forall2 (chain h) part (replicate n []) <-> part = replicate n 0.
Proof.
  revert part. induction n as [|n IH]; intros part; cbn; [split; [by intros ->%Forall2_nil_inv_r | by intros ->]|].
  split.
  - intros (p & part' & Hp & H & ->)%Forall2_cons_inv_r. apply IH in H as ->. cbn in Hp. by subst p.
  - intros ->. constructor; [done|]. by apply IH.
Qed.

Lemma distribute_spec fuel part mx list ls rl h l0 :
  levels h part ls mx -> chain h list rl -> NoDup (concat ls ++ rl) -> stable cmp l0 (entries ls) ->
  (length rl < fuel)%nat ->
  exists part' mx' ls' h',
    distribute cmp fuel part (Z.of_nat mx) list h = Ok ((part', Z.of_nat mx'), h') /\
    levels h' part' ls' mx' /\ stable cmp (l0 ++ rl) (entries ls') /\ evolves (concat ls ++ rl) [] h h'.
Proof.
  revert part mx list ls rl h l0. induction fuel as [|fuel IH]; intros part mx list ls rl h l0 Hlv Hc Hn Hst Hf; [lia|].
  cbn [distribute]. destruct rl as [|x rl].
  { cbn in Hc. subst list. exists part, mx, ls, h. rewrite !app_nil_r. by split_and!; try apply evolves_refl. }
  destruct Hc as (-> & Hx & y & Hy & Hc). rewrite (proj2 (Z.eqb_neq x 0)) by done. cbn [negb].
  rewrite (Mbind_run _ _ _ _ _ (ld_next_run _ _ _ Hy)).
  rewrite (Mbind_run _ _ _ _ _ (st_next_run x 0 h ltac:(by exists y))).
  set (h1 := mkHeap (<[x := 0]> (nexts h)) (prevs h)).
  destruct Hlv as [Hch Hlen Hsr Hmx Hab].
  assert (concat ls ++ x :: rl ≡ₚ x :: (concat ls ++ rl)) as HP by solve_Permutation.
  pose proof Hn as Hn'. rewrite HP in Hn'. apply NoDup_cons in Hn' as [Hxn Hn'].
  assert (evolves [x] [] h h1) as Hev by (apply evolves_next; left).
  assert (length part = 21%nat) as Hpl by (by rewrite (Forall2_length _ _ _ Hch)).
  assert (chain h1 y rl) as Hc1 by (eapply chain_evolves; [exact Hev| |done]; intros z Hz ->%list_elem_of_singleton; set_solver).
  destruct (merge_levels_spec (S (length part)) 0 part ls x [x] h1)
    as (j & cur & c & h2 & E & Hj & Hch2 & Hcc & Hsc & Hst2 & Hev2); try done.
  - eapply chains_evolve; [exact Hev| |done]. intros z Hz ->%list_elem_of_singleton. set_solver.
  - cbn. split; [done|]. split; [done|]. exists 0. split; [apply lookup_insert_eq|done].
  - assert (concat ls ++ [x] ≡ₚ x :: concat ls) as -> by solve_Permutation.
    apply NoDup_cons. split; [set_solver|]. by apply NoDup_app in Hn' as [? _].
  - by repeat constructor.
  - apply list_elem_of_lookup. exists 20%nat. apply Hab. lia.
  - lia.
  - lia.
  - pose proof (lookup_lt_Some _ _ _ Hj) as Hjl. cbn [replicate app Nat.add] in E.
    change (Z.of_nat 0) with 0 in E. rewrite (Mbind_run _ _ _ _ _ E). cbv beta iota.
    set (part2 := replicate j 0 ++ drop j part) in *. set (ls2 := replicate j [] ++ drop j ls).
    assert (length part2 = 21%nat) as Hpl2.
    { unfold part2. rewrite length_app, length_replicate, length_drop. lia. }
    assert (Forall2 (chain h2) part2 ls2) as Hch2' by (apply Forall2_app; [by apply chains_nils|done]).
    rewrite place_code by (done || lia).
    pose proof (place_spec mx j ls c Hlen Hmx Hab Hj) as Hpl3. cbn zeta in Hpl3. fold ls2 in Hpl3.
    destruct (place mx j) as [lv mx'] eqn:Epl. cbn [fst snd]. destruct Hpl3 as (Hlv & Hmx' & He & Hab').
    rewrite awrite_in, Mbind_lift, Nat2Z.id by lia.
    assert (concat (<[lv := c]> ls2) ≡ₚ concat ls ++ [x]) as HPn.
    { rewrite <- entries_perm, He, (proj1 Hst2). by rewrite entries_perm. }
    assert (evolves (concat ls ++ x :: rl) [] h h2) as Hev12.
    { eapply evolves_trans; eapply evolves_weaken; [| |exact Hev| | |exact Hev2]; set_solver. }
    assert (NoDup (concat (<[lv:=c]> ls2) ++ rl)) as Hnd.
    { rewrite HPn, <- app_assoc. exact Hn. }
    destruct (IH (<[lv := cur]> part2) mx' y (<[lv := c]> ls2) rl h2 (l0 ++ [x]))
      as (part' & mx'' & ls' & h' & E' & Hl' & Hst' & Hev'); try done.
    + split; [by apply Forall2_insert| |apply Forall_insert; [|done]|done|done].
      * rewrite length_insert. unfold ls2. rewrite length_app, length_replicate, length_drop. lia.
      * apply Forall_app. split; [apply Forall_replicate; constructor | by apply Forall_drop].
    + eapply chain_evolves; [exact Hev2| |done]. intros z Hz [Hz'|Hz']%elem_of_app.
      * apply NoDup_app in Hn' as (_ & Hd & _). by apply (Hd z).
      * apply list_elem_of_singleton in Hz' as ->. set_solver.
    + rewrite He. transitivity (entries ls ++ [x]); [|done]. by apply stable_app.
    + cbn in Hf. lia.
    + exists part', mx'', ls', h'. split; [exact E'|]. split; [done|]. split; [by rewrite <- app_assoc in Hst'|].
      eapply evolves_trans; [exact Hev12|]. eapply evolves_weaken; [| |exact Hev']; [|done]. rewrite HPn. set_solver.
Qed.

Lemma collect_spec n lev part list ls c h :
  Forall2 (chain h) (drop lev part) (drop lev ls) -> chain h list c -> NoDup (concat (drop lev ls) ++ c) ->
  Forall (Sorted R) ls -> Sorted R c -> (lev + n < length ls)%nat -> length part = length ls -> (length ls <= 100)%nat ->
  exists r c' h',
    collect cmp n part (Z.of_nat lev) list h = Ok (r, h') /\ chain h' r c' /\ Sorted R c' /\
    stable cmp (entries (drop lev ls) ++ c) (entries (drop (lev + n) ls) ++ c') /\
    Forall2 (chain h') (drop (lev + n) part) (drop (lev + n) ls) /\ evolves (concat (drop lev ls) ++ c) [] h h'.
Proof.
  revert lev list c h. induction n as [|n IH]; intros lev list c h Hch Hc Hn Hs Hsc Hl Hpl Hb.
  { exists list, c, h. rewrite Nat.add_0_r. by split_and!; try apply evolves_refl. }
  destruct (lookup_lt_is_Some_2 ls lev ltac:(lia)) as [q Hq].
  destruct (lookup_lt_is_Some_2 part lev ltac:(lia)) as [p Hp].
  rewrite (drop_S _ _ _ Hq), (drop_S _ _ _ Hp) in *. apply Forall2_cons_1 in Hch as [Hcq Hch].
  cbn [collect]. rewrite (aread_lookup part (Z.of_nat lev) p), Mbind_lift by (rewrite ?Nat2Z.id; done || lia).
  rewrite i32_small by lia. replace (Z.of_nat lev + 1) with (Z.of_nat (S lev)) by lia.
  assert (q ++ concat (drop (S lev) ls) ++ c ≡ₚ concat (drop (S lev) ls) ++ q ++ c) as HP by solve_Permutation.
  cbn [concat] in Hn. rewrite <- app_assoc, HP in Hn. pose proof Hn as (Hn1 & Hd & Hn2)%NoDup_app.
  assert (Sorted R q) as Hsq by (rewrite Forall_forall in Hs; apply Hs; by eapply list_elem_of_lookup_2).
  rewrite <- Nat.add_succ_comm in *. rewrite entries_cons, <- app_assoc.
  assert (exists r h1, (if negb (p =? 0) then merge cmp p list else mret list) h = Ok (r, h1) /\
    chain h1 r (merge_list q c) /\ evolves (q ++ c) [] h h1) as (r & h1 & E & Hr & Hev).
  { destruct (Z.eqb_spec p 0) as [Hp0|Hp0]; cbn [negb].
    - apply (chain_null _ _ _ Hcq) in Hp0 as ->. exists list, h. rewrite list_merge_nil_l.
      split; [done|]. split; [done|apply evolves_refl].
    - by apply merge_spec. }
  rewrite (Mbind_run _ _ _ _ _ E).
  destruct (IH (S lev) r (merge_list q c) h1) as (r' & c' & h' & E' & Hr' & Hs' & Hst & Hch' & Hev'); try done.
  - eapply chains_evolve; [exact Hev| |done]. exact Hd.
  - by rewrite merge_Permutation.
  - by apply merge_sorted.
  - exists r', c', h'. split_and!; try done.
    + transitivity (entries (drop (S lev) ls) ++ merge_list q c); [|done].
      apply stable_app; [done|]. by apply merge_stable.
    + eapply evolves_trans; eapply evolves_weaken; [| |exact Hev| | |exact Hev']; try done.
      * cbn. set_solver.
      * rewrite merge_Permutation. cbn. set_solver.
Qed.

(** Cutting the ring open behind its last entry. *)
Lemma path_chain h x l e :
  path h x (l ++ [e]) -> NoDup (x :: l) -> 0 ∉ l ->
  let h1 := mkHeap (<[lst x l := 0]> (nexts h)) (prevs h) in
  exists y, nexts h1 !! x = Some y /\ chain h1 y l.
Proof.
  cbn zeta. revert x. induction l as [|y l IH]; intros x Hp Hn H0.
  - exists 0. split; [apply lookup_insert_eq|done].
  - apply NoDup_cons in Hn as [Hx Hn]. destruct Hp as [[Hxy _] Hp]. rewrite lst_cons.
    apply not_elem_of_cons in H0 as [Hy0 H0]. exists y. split.
    + cbn. rewrite lookup_insert_ne; [done|]. intros E. apply Hx. rewrite <- E. apply lst_in.
    + cbn. split; [done|]. split; [done|]. by apply IH.
Qed.

Lemma entries_empty ls : Forall (fun q => q = []) ls -> entries ls = [].
Proof. induction 1 as [|q ls -> _ IH]; [done|]. by rewrite entries_cons, IH. Qed.

Lemma levels_top h part ls mx :
  levels h part ls mx -> exists q, ls !! mx = Some q /\ entries (drop mx ls) = q.
Proof.
  intros [_ Hl _ Hm Hab]. destruct (lookup_lt_is_Some_2 ls mx ltac:(lia)) as [q Hq]. exists q. split; [done|].
  rewrite (drop_S _ _ _ Hq), entries_cons, entries_empty; [done|]. apply Forall_forall. intros r Hr.
  apply list_elem_of_lookup in Hr as [i Hi]. rewrite lookup_drop in Hi. pose proof (lookup_lt_Some _ _ _ Hi).
  rewrite Hab in Hi by lia. congruence.
Qed.

Lemma levels_init h : levels h (replicate 21 0) (replicate 21 []) 0.
Proof.
  split; [by apply chains_nils|done|apply Forall_replicate; constructor|lia|].
  intros i Hi. apply lookup_replicate. split; [done|lia].
Qed.

Lemma list_sort_spec h head l :
  ring h head l -> l <> [] -> 0 ∉ l ->
  exists h' l', list_sort cmp head h = Ok (tt, h') /\ ring h' head l' /\ Sorted R l' /\ stable cmp l l' /\
    untouched (head :: l) h h'.
Proof.
  intros Hr Hne H0. pose proof Hr as [Hn Hp]. apply NoDup_cons in Hn as Hn'. destruct Hn' as [Hh Hnl].
  pose proof (fun x => ring_live _ _ _ x Hr) as Hlv.
  unfold list_sort. rewrite (Mbind_run _ _ _ _ _ (list_empty_run _ _ _ Hr)), bool_decide_eq_false_2 by done.
  rewrite (Mbind_run _ _ _ _ _ (ld_prev_run _ _ _ (ring_last _ _ _ Hr))).
  destruct (Hlv _ (lst_in head l)) as [Hln _]. rewrite (Mbind_run _ _ _ _ _ (st_next_run _ 0 _ Hln)).
  destruct (path_chain h head l head Hp Hn H0) as (y & Hy & Hc). set (h1 := mkHeap _ (prevs h)) in *.
  assert (lst head l ∈ l) as Hla by (destruct l; [done|rewrite lst_cons; apply lst_in]).
  assert (evolves (head :: l) (l ++ [head]) h h1) as Hev1 by (apply evolves_next; by right).
  rewrite (Mbind_run _ _ _ _ _ (ld_next_run _ _ _ Hy)), Mbind_gets.
  change (Z.to_nat (MAX_LIST_LENGTH_BITS + 1)) with 21%nat.
  destruct (distribute_spec (S (size (nexts h1))) (replicate 21 0) 0 y (replicate 21 []) l h1 [])
    as (part & mx & ls & h2 & E2 & Hl2 & Hst2 & Hev2); try done.
  { apply levels_init. }
  { apply Nat.lt_succ_r, nodes_bound; [done|]. intros x Hx. by eapply chain_live. }
  cbn [app] in Hst2. change (concat (replicate 21 [])) with (@nil Z) in Hev2. cbn [app] in Hev2.
  change (Z.of_nat 0) with 0 in E2. rewrite (Mbind_run _ _ _ _ _ E2). cbv beta iota. rewrite Nat2Z.id.
  destruct (levels_top _ _ _ _ Hl2) as (q & Hq & He). destruct Hl2 as [Hch Hlen Hsr Hmx _].
  assert (length part = 21%nat) as Hpl by (by rewrite (Forall2_length _ _ _ Hch)).
  assert (concat ls ≡ₚ l) as HPl by (by rewrite <- entries_perm, (proj1 Hst2)).
  destruct (collect_spec mx 0 part 0 ls [] h2) as (r & c & h3 & E3 & Hcr & Hsc & Hst3 & Hch3 & Hev3); try done.
  { rewrite drop_0, app_nil_r. by rewrite HPl. }
  { lia. }
  { lia. }
  { lia. }
  cbn [Nat.add] in *. rewrite drop_0, app_nil_r in *. rewrite He in Hst3.
  change (Z.of_nat 0) with 0 in E3. rewrite (Mbind_run _ _ _ _ _ E3).
  destruct (lookup_lt_is_Some_2 part mx ltac:(lia)) as [p Hpp].
  rewrite (aread_lookup part (Z.of_nat mx) p), Mbind_lift by (rewrite ?Nat2Z.id; done || lia).
  rewrite (drop_S _ _ _ Hq), (drop_S _ _ _ Hpp) in Hch3. apply Forall2_cons_1 in Hch3 as [Hcp _].
  assert (stable cmp l (q ++ c)) as Hst by (by etrans).
  assert (q ++ c ≡ₚ l) as HPq by apply Hst.
  assert (evolves (head :: l) (l ++ [head]) h h3) as Hev.
  { eapply evolves_trans; [exact Hev1|]. eapply evolves_trans; eapply evolves_weaken; [| |exact Hev2| | |exact Hev3];
      rewrite ?HPl; clear; set_solver. }
  destruct (restore_loop_spec cmp (S (size (nexts h3))) head head p r q c h3) as (h4 & E4 & Hp4 & Hev4); try done.
  { intros E. rewrite E in HPq. by apply Permutation_nil_l in HPq. }
  { by rewrite HPq. }
  { by rewrite HPq. }
  { intros x Hx. apply (ev_plive _ _ _ _ Hev). apply Hlv. rewrite HPq in Hx. clear -Hx. set_solver. }
  { apply (ev_nlive _ _ _ _ Hev). apply Hlv. left. }
  { apply Nat.lt_succ_r, nodes_bound; [by rewrite HPq|].
    intros x [Hx|Hx]%elem_of_app; [exact (chain_live _ _ _ _ Hcp Hx) | exact (chain_live _ _ _ _ Hcr Hx)]. }
  assert (Sorted R q) as Hsq by (rewrite Forall_forall in Hsr; apply Hsr; by eapply list_elem_of_lookup_2).
  assert (merge_list q c ≡ₚ l) as HPm by (by rewrite merge_Permutation).
  exists h4, (merge_list q c). split_and!.
  - unfold merge_and_restore_back_links. by rewrite Mbind_gets.
  - split; [by rewrite HPm|done].
  - by apply merge_sorted.
  - etrans; [exact Hst|]. by apply merge_stable.
  - apply (evolves_weaken _ _ (head :: l) (l ++ [head])) in Hev4; [|intros z; by rewrite HPm..].
    pose proof (evolves_trans _ _ _ _ _ Hev Hev4) as [N P _ _].
    intros x Hx. split; [by apply N|apply P]. clear -Hx. set_solver.
Qed.
End sorting.

(** * Main theorem *)

(** C37: [list_sort] sorts.  On a well-formed list of any length, with a comparison
    function that orders its nodes, it runs without a fault, never indexing past its
    21 levels, and leaves a well-formed list: the same nodes, relinked in both
    directions, in ascending order, with equivalent nodes in the order they had.
    It writes to no node but those of the list. *)
Theorem list_sort_sorts cmp `{!Comparator cmp} h head l :
  ring h head l -> 0 ∉ l ->
  exists h' l',
    list_sort cmp head h = Ok (tt, h') /\ ring h' head l' /\ l' ≡ₚ l /\ StronglySorted (fun x y => cmp x y <= 0) l' /\
    (forall z, filter (fun y => cmp z y = 0) l' = filter (fun y => cmp z y = 0) l) /\
    untouched (head :: l) h h'.
Proof.
  intros Hr H0. destruct l as [|x l].
  - exists h, []. unfold list_sort. rewrite (Mbind_run _ _ _ _ _ (list_empty_run _ _ _ Hr)).
    split_and!; done || constructor || apply untouched_refl.
  - destruct (list_sort_spec cmp h head (x :: l) Hr) as (h' & l' & E & Hr' & Hs & [HP Hf] & Hu); [done..|].
    exists h', l'. split_and!; try done. apply Sorted_StronglySorted in Hs; [done|by apply R_trans].
Qed.

#[local] Instance sub_comparator : Comparator (fun x y => Z.modulo x 10 - Z.modulo y 10).
Proof. split; intros; lia. Qed.

(** By the last digit: 11 and 21 are equivalent and keep their order. *)
Lemma list_sort_sorts_witness :
  exists h', list_sort (fun x y => Z.modulo x 10 - Z.modulo y 10) 100
    (mkHeap (list_to_map [(100, 13); (13, 21); (21, 11); (11, 100)])
            (list_to_map [(100, 11); (11, 21); (21, 13); (13, 100)])) = Ok (tt, h') /\
    walk 9 h' 100 100 = [21; 11; 13].
Proof.
  destruct (list_sort_sorts (fun x y => Z.modulo x 10 - Z.modulo y 10)
    (mkHeap (list_to_map [(100, 13); (13, 21); (21, 11); (11, 100)])
            (list_to_map [(100, 11); (11, 21); (21, 13); (13, 100)])) 100 [13; 21; 11]) as (h' & l' & E & _).
  - split; [apply NoDup_ListNoDup; repeat constructor; cbn; lia|cbn; unfold linked; tauto].
  - rewrite !not_elem_of_cons. split_and!; [lia..|apply not_elem_of_nil].
  - exists h'. split; [exact E|]. vm_compute in E. injection E as <-. reflexivity.
Defined.
