(* ===== verification/KHeap.v ===== *)
(** * A program logic for code on linked nodes

    Code that reads and writes the fields of nodes runs on a store that maps an address
    and a field to a machine word.  This file gives the store's operations a separation
    logic in Iris: [a ↦[γ, f] v] owns the field [f] of the object at [a], [wp m Φ] says
    that [m] returns, without a fault, with a result that satisfies [Φ].  [wp_sound]
    turns a proof in the logic into a statement about the store. *)

From iris.proofmode Require Export proofmode.
From iris.base_logic.lib Require Export ghost_map.
From S2P Require Export Prelude.
Open Scope Z_scope.

(** ** The store *)

Section store.
Context {F : Type} `{Countable F}.

Definition access_fault (a : Z) : fault := if a =? 0 then NullDeref else OutOfBounds.
(** [a->f] and [a->f = v]; NULL is 0. *)
Definition ld (a : Z) (f : F) : M (gmap (Z * F) Z) Z := s ← get; lift (need (s !! (a, f)) (access_fault a)).
Definition st (a : Z) (f : F) (v : Z) : M (gmap (Z * F) Z) unit :=
  _ ← ld a f; modify (<[(a, f) := v]>).

Lemma ld_run a (f : F) v s : s !! (a, f) = Some v -> ld a f s = Ok (v, s).
Proof. intros E. unfold ld. by rw Mbind_get E. Qed.
Lemma st_run a (f : F) v w s : s !! (a, f) = Some v -> st a f w s = Ok (tt, <[(a, f) := w]> s).
Proof. intros E. unfold st. by rw (Mbind_run _ _ _ _ _ (ld_run _ _ _ _ E)). Qed.

(** Loops over nodes run at most once for each cell. *)
Definition size_of (s : gmap (Z * F) Z) : nat := S (size s).
End store.

(** ** Weakest preconditions *)

Notation "a ↦[ γ , f ] v" := (ghost_map_elem γ (a, f) (DfracOwn 1) v)
  (at level 20, γ at level 50, f at level 50, format "a  ↦[ γ ,  f ]  v") : bi_scope.

Section wp.
Context {F : Type} `{Countable F} {Σ : gFunctors} `{!ghost_mapG Σ (Z * F) Z} (γ : gname).
Implicit Types s : gmap (Z * F) Z.

Definition wp {A} (m : M (gmap (Z * F) Z) A) (Φ : A -> iProp Σ) : iProp Σ :=
  ∀ s, ghost_map_auth γ 1 s ==∗ ∃ a s', ⌜m s = Ok (a, s') /\ dom s' = dom s⌝ ∗ ghost_map_auth γ 1 s' ∗ Φ a.

Lemma wp_ret {A} (a : A) Φ : Φ a -∗ wp (mret a) Φ.
Proof. iIntros "HΦ" (s) "Hs !>". iExists a, s. by iFrame. Qed.

Lemma wp_bind {A B} (m : M _ A) (k : A -> M _ B) Φ : wp m (fun a => wp (k a) Φ) -∗ wp (m ≫= k) Φ.
Proof.
  iIntros "Hm" (s) "Hs". iMod ("Hm" with "Hs") as (a s') "([%E %D] & Hs & Hk)".
  iMod ("Hk" with "Hs") as (b s'') "([%E' %D'] & Hs & HΦ)". iModIntro. iExists b, s''. iFrame.
  iPureIntro. rw Mbind_unfold E D' D. by split.
Qed.

Lemma wp_wand {A} (m : M _ A) Φ Ψ : wp m Φ -∗ (∀ a, Φ a -∗ Ψ a) -∗ wp m Ψ.
Proof.
  iIntros "Hm H" (s) "Hs". iMod ("Hm" with "Hs") as (a s') "(%E & Hs & Ha)".
  iModIntro. iExists a, s'. iFrame. iSplit; [done|]. by iApply "H".
Qed.

Lemma wp_ld a (f : F) v Φ : a ↦[γ, f] v -∗ (a ↦[γ, f] v -∗ Φ v) -∗ wp (ld a f) Φ.
Proof.
  iIntros "Ha HΦ" (s) "Hs". iDestruct (ghost_map_lookup with "Hs Ha") as %E.
  iModIntro. iExists v, s. iFrame. iSplit; [|by iApply "HΦ"].
  iPureIntro. unfold ld. rw Mbind_get E. done.
Qed.

Lemma wp_st a (f : F) v w Φ : a ↦[γ, f] v -∗ (a ↦[γ, f] w -∗ Φ tt) -∗ wp (st a f w) Φ.
Proof.
  iIntros "Ha HΦ" (s) "Hs". iDestruct (ghost_map_lookup with "Hs Ha") as %E.
  iMod (ghost_map_update w with "Hs Ha") as "[Hs Ha]". iModIntro. iExists tt, (<[(a, f) := w]> s).
  iFrame. iSplit; [|by iApply "HΦ"]. iPureIntro. unfold st, ld.
  rw (Mbind_run _ _ _ v s); [|by rw Mbind_get E]. split; [done|].
  rw dom_insert_lookup_L //.
Qed.

(** [P] bounds the fuel: it holds of every store that agrees with what is owned. *)
Lemma wp_fuel n Φ (R : iProp Σ) :
  (∀ s, ghost_map_auth γ 1 s -∗ R -∗ ⌜(n <= size s)%nat⌝) -∗ R -∗
  (∀ k, ⌜(n < k)%nat⌝ -∗ R -∗ Φ k) -∗ wp (gets size_of) Φ.
Proof.
  iIntros "Hn HR HΦ" (s) "Hs". iAssert ⌜(n <= size s)%nat⌝%I as %Hn.
  { iApply ("Hn" with "Hs HR"). }
  iModIntro. iExists (size_of s), s. iFrame. iSplit; [done|]. iApply ("HΦ" with "[%] HR"). unfold size_of. lia.
Qed.

(** Distinct addresses that are owned. *)
Lemma field_ne a b (f : F) v w : a ↦[γ, f] v -∗ b ↦[γ, f] w -∗ ⌜a <> b⌝.
Proof. iIntros "Ha Hb". iDestruct (ghost_map_elem_ne with "Ha Hb") as %E. iPureIntro. congruence. Qed.

Definition owned (l : list Z) (f : F) : iProp Σ := [∗ list] a ∈ l, ∃ v, a ↦[γ, f] v.

Lemma owned_nodup l f : owned l f -∗ ⌜NoDup l⌝.
Proof.
  iIntros "Hl". iInduction l as [|a l IH]; [iPureIntro; constructor|].
  iDestruct "Hl" as "[(%v & Ha) Hl]". iDestruct ("IH" with "Hl") as %Hd.
  destruct (decide (a ∈ l)) as [Hin|]; [|iPureIntro; by constructor].
  apply list_elem_of_lookup in Hin as [i Hi]. iDestruct (big_sepL_lookup with "Hl") as "(%w & Ha')"; [done|].
  by iDestruct (field_ne with "Ha Ha'") as %?.
Qed.

Lemma owned_size s l f : ghost_map_auth γ 1 s -∗ owned l f -∗ ⌜(length l <= size s)%nat⌝.
Proof.
  iIntros "Hs Hl". iDestruct (owned_nodup with "Hl") as %Hd.
  iAssert ⌜forall a, a ∈ l -> (a, f) ∈ dom s⌝%I as %Hin.
  { iIntros (a [i Hi]%list_elem_of_lookup). iDestruct (big_sepL_lookup with "Hl") as "(%w & Ha)"; [done|].
    iDestruct (ghost_map_lookup with "Hs Ha") as %E. iPureIntro. by apply elem_of_dom. }
  iPureIntro. rw -size_dom -(length_fmap (fun a => (a, f)) l).
  rw -(size_list_to_set (C := gset (Z * F))).
  - apply subseteq_size. intros x. rw elem_of_list_to_set list_elem_of_fmap. intros (a & -> & ?). by apply Hin.
  - apply NoDup_fmap_2; [|done]. by intros ? ? [= ->].
Qed.
End wp.

(** ** Soundness *)

(** A proof that owns the cells [h] of the store: the code returns, and the store
    afterwards satisfies whatever the postcondition tells of it beside the cells that
    were not owned. *)
Lemma wp_sound {F : Type} `{Countable F} {A} (m : M (gmap (Z * F) Z) A) (s h : gmap (Z * F) Z)
    (φ : A -> gmap (Z * F) Z -> Prop) :
  h ⊆ s ->
  (forall (Σ : gFunctors) (HΣ : ghost_mapG Σ (Z * F) Z) (γ : gname), (([∗ map] k ↦ v ∈ h, k ↪[γ] v) : iProp Σ) ⊢
    wp γ m (fun a => ∀ s', ghost_map_auth γ 1 s' -∗ ([∗ map] k ↦ v ∈ (s ∖ h), k ↪[γ] v) -∗ ⌜φ a s'⌝)) ->
  exists a s', m s = Ok (a, s') /\ dom s' = dom s /\ φ a s'.
Proof.
  intros Hh Hm. set (Σ := #[ghost_mapΣ (Z * F) Z]).
  apply (pure_soundness (PROP := iPropI Σ)). apply uPred.bupd_soundness; [apply _|].
  iMod (ghost_map_alloc s) as (γ) "[Hs Hc]".
  rw -{2}(map_difference_union h s) //. iDestruct (big_sepM_union with "Hc") as "[Hh Hf]".
  { by apply map_disjoint_difference_r1. }
  iMod (Hm Σ _ γ with "Hh Hs") as (a s') "([%E %D] & Hs & Hφ)". iDestruct ("Hφ" with "Hs Hf") as %Hφ.
  iPureIntro. by exists a, s'.
Qed.

(** ** Tactics *)

#[global] Arguments ld : simpl never.
#[global] Arguments st : simpl never.
#[global] Arguments wp : simpl never.
#[global] Arguments M_bind : simpl never.
#[global] Arguments M_ret : simpl never.
#[global] Arguments size_of : simpl never.
#[global] Arguments gets : simpl never.

Ltac wp_binds := cbv beta zeta;
  repeat lazymatch goal with |- environments.envs_entails _ (wp _ (mbind _ _) _) => iApply wp_bind; cbv beta zeta end.
Ltac wp_ret := wp_binds; iApply wp_ret; cbv beta zeta iota.
(** Read or write a field that is owned. *)
Ltac wp_ld := wp_binds;
  lazymatch goal with
  | |- environments.envs_entails _ (wp ?γ (ld ?a ?f) _) =>
      iSelect (ghost_map_elem γ (a, f) (DfracOwn 1) _)
        ltac:(fun H => iApply (wp_ld with [spec_patterns.SIdent H nil]); iIntros [intro_patterns.IIdent H]); cbv beta zeta iota
  end.
Ltac wp_st := wp_binds;
  lazymatch goal with
  | |- environments.envs_entails _ (wp ?γ (st ?a ?f _) _) =>
      iSelect (ghost_map_elem γ (a, f) (DfracOwn 1) _)
        ltac:(fun H => iApply (wp_st with [spec_patterns.SIdent H nil]); iIntros [intro_patterns.IIdent H]); cbv beta zeta iota
  end.
