(* ===== verification/KRbtree.v ===== *)
(** * lib/rbtree.c: red-black trees

    The fields of the nodes, the operations both halves of the file share and, for the
    proofs, the trees a store holds.  The two halves of [__rb_insert] and of
    [____rb_erase_color] are mirror images; the definitions take the side [d] of the
    half.  The colour is kept in the lowest bit of the parent pointer, as in the code.
    KRbInsert.v, KRbErase.v and KRbWalk.v hold insertion, removal and iteration. *)

From S2P Require Export KHeap.
Open Scope Z_scope.

(** ** The fields *)

(** [rb_left] or [rb_right]. *)
Inductive side := Left | Right.
Definition opp (d : side) : side := match d with Left => Right | Right => Left end.
(** Of [struct rb_node], of [struct rb_root], and of the timer queues built on them. *)
Inductive field := Parent_color | Child (d : side) | Rb_node | Expires | Next.

#[global] Instance side_eq_dec : EqDecision side.
Proof. solve_decision. Defined.
#[global] Instance field_eq_dec : EqDecision field.
Proof. solve_decision. Defined.
#[global] Instance field_countable : Countable field.
Proof.
  refine (inj_countable'
    (fun f => match f with Parent_color => 0 | Child Left => 1 | Child Right => 2 | Rb_node => 3 | Expires => 4 | Next => 5 end)
    (fun n => if n =? 0 then Parent_color else if n =? 1 then Child Left else if n =? 2 then Child Right
              else if n =? 3 then Rb_node else if n =? 4 then Expires else Next) _).
  by intros [|[]| | |].
Defined.

Abbreviation nodes := (gmap (Z * field) Z).
Abbreviation T := (M nodes).

(** ** The operations of rbtree_augmented.h *)

Definition RB_RED : Z := 0.
Definition RB_BLACK : Z := 1.
Definition __rb_parent (pc : Z) : Z := Z.land pc (u32 (Z.lnot 3)).
Definition __rb_color (pc : Z) : Z := Z.land pc 1.
Definition __rb_is_black (pc : Z) : bool := negb (__rb_color pc =? 0).
Definition __rb_is_red (pc : Z) : bool := __rb_color pc =? 0.
Definition rb_parent (r : Z) : T Z := pc ← ld r Parent_color; mret (__rb_parent pc).
Definition rb_color (rb : Z) : T Z := pc ← ld rb Parent_color; mret (__rb_color pc).
Definition rb_is_red (rb : Z) : T bool := pc ← ld rb Parent_color; mret (__rb_is_red pc).
Definition rb_is_black (rb : Z) : T bool := pc ← ld rb Parent_color; mret (__rb_is_black pc).
Definition rb_set_parent (rb p : Z) : T unit := c ← rb_color rb; st rb Parent_color (Z.lor c p).
Definition rb_set_parent_color (rb p color : Z) : T unit := st rb Parent_color (Z.lor p color).

Definition __rb_change_child (old new parent root : Z) : T unit :=
  if negb (parent =? 0) then
    l ← ld parent (Child Left);
    if l =? old then st parent (Child Left) new else st parent (Child Right) new
  else st root Rb_node new.

(** ** rbtree.c *)

Definition rb_set_black (rb : Z) : T unit := pc ← ld rb Parent_color; st rb Parent_color (Z.lor pc RB_BLACK).
Definition rb_red_parent (red : Z) : T Z := ld red Parent_color.

Definition __rb_rotate_set_parents (old new root color : Z) : T unit :=
  parent ← rb_parent old;
  pc ← ld old Parent_color;
  st new Parent_color pc;;
  rb_set_parent_color old new color;;
  __rb_change_child old new parent root.

(** Callbacks that do nothing. *)
Definition dummy_propagate (node stop : Z) : T unit := mret tt.
Definition dummy_copy (old new : Z) : T unit := mret tt.
Definition dummy_rotate (old new : Z) : T unit := mret tt.

(** ** rbtree.h *)

Definition RB_EMPTY_NODE (node : Z) : T bool := pc ← ld node Parent_color; mret (pc =? node).
Definition RB_CLEAR_NODE (node : Z) : T unit := st node Parent_color node.

(** [rb_link] points to a field. *)
Definition rb_link_node (node parent : Z) (rb_link : Z * field) : T unit :=
  st node Parent_color parent;;
  st node (Child Right) 0;;
  st node (Child Left) 0;;
  st rb_link.1 rb_link.2 node.

(** ** Trees *)

Inductive colour := Red | Black.
Inductive tree := E | N (c : colour) (l : tree) (a : Z) (r : tree).

#[global] Instance colour_eq_dec : EqDecision colour.
Proof. solve_decision. Defined.
#[global] Instance tree_eq_dec : EqDecision tree.
Proof. solve_decision. Defined.

Definition code (c : colour) : Z := match c with Red => RB_RED | Black => RB_BLACK end.
Definition top (t : tree) : Z := match t with E => 0 | N _ _ a _ => a end.
Fixpoint inorder (t : tree) : list Z :=
  match t with E => [] | N _ l a r => inorder l ++ a :: inorder r end.

(** The address of a node, or NULL; the word that packs a parent and a colour. *)
Definition aligned (a : Z) : Prop := 0 <= a < 2 ^ 32 /\ Z.land a 3 = 0.
Definition valid (a : Z) : Prop := aligned a /\ a <> 0.
Definition pack (p : Z) (c : colour) : Z := Z.lor p (code c).

(** The store holds the tree [t] under the parent [p]. *)
Fixpoint linked (s : nodes) (p : Z) (t : tree) : Prop :=
  match t with
  | E => True
  | N c l a r =>
      valid a /\ s !! (a, Parent_color) = Some (pack p c) /\
      s !! (a, Child Left) = Some (top l) /\ s !! (a, Child Right) = Some (top r) /\
      linked s a l /\ linked s a r
  end.
(** [root] is the root of the tree [t], whose nodes are all different. *)
Definition holds (s : nodes) (root : Z) (t : tree) : Prop :=
  s !! (root, Rb_node) = Some (top t) /\ linked s 0 t /\ NoDup (inorder t).

(** The red-black rules: [rb c n t] for a tree whose root has the colour [c], leaves
    being black, no red node of which has a red child and with [n] black nodes on every
    path. *)
Inductive rb : colour -> nat -> tree -> Prop :=
  | rb_leaf : rb Black 0 E
  | rb_red n l a r : rb Black n l -> rb Black n r -> rb Red n (N Red l a r)
  | rb_black c c' n l a r : rb c n l -> rb c' n r -> rb Black (S n) (N Black l a r).
(** A whole tree: its root is black. *)
Definition red_black (t : tree) : Prop := exists n, rb Black n t.

(** ** Contexts *)

(** A node seen from its child on side [d]: the node and the other child. *)
Inductive frame := Frame (d : side) (c : colour) (a : Z) (o : tree).
(** The node [a] with the child [x] on side [d] and [y] on the other. *)
Definition mk (d : side) (c : colour) (x : tree) (a : Z) (y : tree) : tree :=
  match d with Left => N c x a y | Right => N c y a x end.
Fixpoint plug (k : list frame) (t : tree) : tree :=
  match k with [] => t | Frame d c a o :: k => plug k (mk d c t a o) end.
Definition par (k : list frame) : Z := match k with [] => 0 | Frame _ _ a _ :: _ => a end.

(** A tree of colour [c] and black height [n] may stand in the hole. *)
Inductive fits : list frame -> colour -> nat -> Prop :=
  | fits_top n : fits [] Black n
  | fits_red k n d a o : fits k Red n -> rb Black n o -> fits (Frame d Red a o :: k) Black n
  | fits_black k c c' n d a o : fits k Black (S n) -> rb c' n o -> fits (Frame d Black a o :: k) c n.

Definition is_red (t : tree) : bool := match t with N Red _ _ _ => true | _ => false end.
Definition blacken (t : tree) : tree := match t with E => E | N _ l a r => N Black l a r end.

Lemma rb_not_red n t : rb Black n t -> is_red t = false.
Proof. by inversion 1. Qed.
Lemma blacken_black n t : rb Black n t -> blacken t = t.
Proof. by inversion 1. Qed.
Lemma rb_red_inv n t : rb Red n t -> exists l a r, t = N Red l a r /\ rb Black n l /\ rb Black n r.
Proof. inversion 1; subst. by eexists _, _, _. Qed.
Lemma rb_black_inv n t : rb Black (S n) t -> exists c c' l a r, t = N Black l a r /\ rb c n l /\ rb c' n r.
Proof. inversion 1; subst. by eexists _, _, _, _, _. Qed.
(** Paths are at most twice as long as the black nodes on them allow. *)
Fixpoint height (t : tree) : nat := match t with E => 0 | N _ l _ r => S (height l `max` height r) end.
Lemma height_size t : (height t <= length (inorder t))%nat.
Proof. induction t as [|c l IHl a r IHr]; [done|]. cbn. rw length_app. cbn. lia. Qed.
Lemma rb_balanced c n t : rb c n t ->
  (height t <= 2 * n + (if c is Red then 1 else 0))%nat /\ (2 ^ n <= length (inorder t) + 1)%nat.
Proof.
  induction 1 as [|n l a r _ [Hl Hl'] _ [Hr Hr']|c c' n l a r _ [Hl Hl'] _ [Hr Hr']]; cbn -[Nat.pow Nat.mul].
  - done.
  - rw length_app. cbn -[Nat.pow Nat.mul]. lia.
  - rw length_app Nat.pow_succ_r'. cbn -[Nat.pow Nat.mul]. destruct c, c'; lia.
Qed.
Lemma height_log t : red_black t -> (height t <= 2 * Nat.log2 (length (inorder t) + 1))%nat.
Proof.
  intros [n Hr]. apply rb_balanced in Hr as [Hh Hs]. pose proof (Nat.log2_le_mono _ _ Hs) as Hl.
  rw Nat.log2_pow2 in Hl; lia.
Qed.
Lemma opp_opp d : opp (opp d) = d.
Proof. by destruct d. Qed.

Lemma mk_side d c l a r : exists x y, N c l a r = mk d c x a y.
Proof. destruct d; by eexists _, _. Qed.
Lemma top_mk d c x a y : top (mk d c x a y) = a.
Proof. by destruct d. Qed.

Lemma plug_app k k' t : plug (k ++ k') t = plug k' (plug k t).
Proof. revert t. induction k as [|[] k IH]; intros t; [done|apply IH]. Qed.

(** The nodes to the left and to the right of a hole. *)
Fixpoint before (k : list frame) : list Z :=
  match k with
  | [] => []
  | Frame Left _ _ _ :: k => before k
  | Frame Right _ a o :: k => before k ++ inorder o ++ [a]
  end.
Fixpoint after (k : list frame) : list Z :=
  match k with
  | [] => []
  | Frame Left _ a o :: k => a :: inorder o ++ after k
  | Frame Right _ _ _ :: k => after k
  end.
Lemma inorder_plug k t : inorder (plug k t) = before k ++ inorder t ++ after k.
Proof.
  revert t. induction k as [|[[] c a o] k IH]; intros t; cbn; [by rw app_nil_r|..]; rw IH; cbn;
    by repeat (rw -!app_assoc; cbn).
Qed.

Lemma before_app k k' : before (k ++ k') = before k' ++ before k.
Proof. induction k as [|[[] c a o] k IH]; cbn; rw ?IH ?app_nil_r //. by rw -!app_assoc. Qed.
Lemma after_app k k' : after (k ++ k') = after k ++ after k'.
Proof. induction k as [|[[] c a o] k IH]; cbn; rw ?IH //. by rw -!app_assoc. Qed.

(** The place of a node in the tree. *)
Lemma locate t a b e : inorder t = b ++ a :: e -> exists k c l r,
  t = plug k (N c l a r) /\ b = before k ++ inorder l /\ e = inorder r ++ after k.
Proof.
  enough (forall k0, inorder t = b ++ a :: e -> exists k c l r, plug k0 t = plug k (N c l a r) /\
    before k0 ++ b = before k ++ inorder l /\ e ++ after k0 = inorder r ++ after k) as H.
  { intros Hi. destruct (H [] Hi) as (k & c & l & r & Et & Eb & Ee). cbn in *. rw app_nil_r in Ee. by exists k, c, l, r. }
  revert b e. induction t as [|c l IHl x r IHr]; intros b e k0 Hi; [by destruct b|]. cbn in Hi.
  apply app_eq_inv in Hi as [(k1 & El & Er)|(k1 & Eb & Er)].
  - destruct k1 as [|y k1]; cbn in Er; [|].
    + injection Er as -> ->. rw app_nil_r in El. subst b. by exists k0, c, l, r.
    + injection Er as -> ->. destruct (IHl b k1 (Frame Left c x r :: k0) El) as (k & c' & l' & r' & Et & Eb & Ee).
      exists k, c', l', r'. cbn in *. split_and!; [done..|]. by rw -Ee -app_assoc.
  - destruct k1 as [|y k1]; cbn in Er.
    + injection Er as -> <-. rw app_nil_r in Eb. subst b. by exists k0, c, l, r.
    + injection Er as -> Er. subst b. destruct (IHr k1 e (Frame Right c y l :: k0) Er) as (k & c' & l' & r' & Et & Eb & Ee).
      exists k, c', l', r'. cbn in *. split_and!; [done| |done]. by rw -Eb -!app_assoc.
Qed.

Lemma plug_inorder k t t' : inorder t = inorder t' -> inorder (plug k t) = inorder (plug k t').
Proof. revert t t'. induction k as [|[[] c a o] k IH]; intros t t' E; [done|..]; apply IH; cbn; by rw E. Qed.

Lemma rb_mk_red n d x a y : rb Black n x -> rb Black n y -> rb Red n (mk d Red x a y).
Proof. destruct d; by constructor. Qed.
Lemma rb_mk_black c c' n d x a y : rb c n x -> rb c' n y -> rb Black (S n) (mk d Black x a y).
Proof. destruct d; by econstructor. Qed.

Lemma rb_mk_inv d c c0 n x a y : rb c0 n (mk d c x a y) -> c0 = c /\
  match c with
  | Red => rb Black n x /\ rb Black n y
  | Black => exists m c' c'', n = S m /\ rb c' m x /\ rb c'' m y
  end.
Proof. destruct d; inversion 1; subst; naive_solver. Qed.

Lemma rb_red_side d n t : rb Red n t -> exists x a y, t = mk d Red x a y /\ rb Black n x /\ rb Black n y.
Proof.
  intros Ht. pose proof (rb_red_inv _ _ Ht) as (l & a & r & -> & _). destruct (mk_side d Red l a r) as (x & y & E).
  rw E in Ht |- *. apply rb_mk_inv in Ht as [_ Ht]. by exists x, a, y.
Qed.
Lemma rb_black_side d n t : rb Black (S n) t ->
  exists c c' x a y, t = mk d Black x a y /\ rb c n x /\ rb c' n y.
Proof.
  intros Ht. pose proof (rb_black_inv _ _ Ht) as (_ & _ & l & a & r & -> & _). destruct (mk_side d Black l a r) as (x & y & E).
  rw E in Ht |- *. apply rb_mk_inv in Ht as (_ & m & c & c' & [= <-] & Hx & Hy). by exists c, c', x, a, y.
Qed.
Lemma is_red_mk d x a y : is_red (mk d Red x a y) = true.
Proof. by destruct d. Qed.

Create HintDb rbtree.
#[export] Hint Resolve rb_mk_red rb_mk_black rb_leaf : rbtree.

Lemma fits_weaken k c n : fits k c n -> fits k Black n.
Proof. destruct 1; by econstructor. Qed.

Lemma rb_plug k c n t : rb c n t -> fits k c n -> red_black (plug k t).
Proof.
  revert c n t. induction k as [|[d c' a o] k IH]; intros c n t Ht Hk; inversion Hk; subst; [by eexists|..].
  - eapply IH; [|done]. by apply rb_mk_red.
  - eapply IH; [|done]. by eapply rb_mk_black.
Qed.

Lemma unplug k c n t : rb c n (plug k t) -> c = Black -> exists c' n', rb c' n' t /\ fits k c' n'.
Proof.
  intros Hr ->. revert t Hr. induction k as [|[d c' a o] k IH]; intros t Hr.
  { eexists _, _. split; [done|]. constructor. }
  apply IH in Hr as (c0 & m & Hr & Hf). apply rb_mk_inv in Hr as [-> Hr]. destruct c'.
  - destruct Hr as [Ht Ho]. eexists _, _. split; [done|]. by constructor.
  - destruct Hr as (m' & c1 & c2 & -> & Ht & Ho). eexists _, _. split; [done|]. by econstructor.
Qed.

(** The same nodes in the same order. *)
Ltac inorder_eq := repeat match goal with d : side |- _ => destruct d end; cbn; repeat (rw -!app_assoc; cbn); done.

(** ** Packed parents *)

Lemma land_1 p : Z.land p 3 = 0 -> Z.land p 1 = 0.
Proof. intros Hp. change 1 with (Z.land 3 1). by rw Z.land_assoc Hp. Qed.

Lemma color_pack p c : aligned p -> __rb_color (pack p c) = code c.
Proof.
  intros [_ Hp]. unfold __rb_color, pack. rw Z.land_lor_distr_l land_1 //. by destruct c.
Qed.

Lemma parent_pack p c : aligned p -> __rb_parent (pack p c) = p.
Proof.
  intros [Hr Hp]. unfold __rb_parent, pack. rw Z.land_lor_distr_l.
  assert (Z.land (code c) (u32 (Z.lnot 3)) = 0) as -> by (by destruct c). rw Z.lor_0_r.
  change (u32 (Z.lnot 3)) with (Z.ldiff (Z.ones 32) 3). apply Z.bits_inj'. intros i Hi.
  rw Z.land_spec Z.ldiff_spec. assert (Z.testbit (Z.land p 3) i = false) as H3 by (by rw Hp Z.bits_0).
  rw Z.land_spec in H3. destruct (Z.testbit p i) eqn:Hb; [|done]. cbn in *. rw H3.
  rw Z.testbit_ones_nonneg; [|lia..]. destruct (Z.ltb_spec i 32); [done|].
  rw Z.bits_above_log2 in Hb; [done|lia|]. destruct (decide (p = 0)) as [->|]; [cbn; lia|].
  enough (Z.log2 p < 32) by lia. apply Z.log2_lt_pow2; lia.
Qed.

Lemma black_pack p c : aligned p -> __rb_is_black (pack p c) = (if c is Black then true else false).
Proof. intros Hp. unfold __rb_is_black. rw color_pack //. by destruct c. Qed.
Lemma red_pack p c : aligned p -> __rb_is_red (pack p c) = (if c is Red then true else false).
Proof. intros Hp. unfold __rb_is_red. rw color_pack //. by destruct c. Qed.
Lemma pack_red p : pack p Red = p.
Proof. apply Z.lor_0_r. Qed.
Lemma pack_black p c : Z.lor (pack p c) RB_BLACK = pack p Black.
Proof. unfold pack. rw -Z.lor_assoc. by destruct c. Qed.
Lemma pack_code p c : Z.lor (code c) p = pack p c.
Proof. apply Z.lor_comm. Qed.

(** ** Ownership of trees *)

Section trees.
Context {Σ : gFunctors} `{!ghost_mapG Σ (Z * field) Z} (γ : gname).
Local Notation "a ↦[ f ] v" := (a ↦[γ, f] v)%I (at level 20, f at level 50, format "a  ↦[ f ]  v") : bi_scope.

Fixpoint in_store (p : Z) (t : tree) : iProp Σ :=
  match t with
  | E => emp
  | N c l a r =>
      ⌜valid a⌝ ∗ a ↦[Parent_color] pack p c ∗ a ↦[Child Left] top l ∗ a ↦[Child Right] top r ∗
      in_store a l ∗ in_store a r
  end.

(** All of a tree but what stands in a hole, where the pointer is [v]. *)
Fixpoint hole (root : Z) (k : list frame) (v : Z) : iProp Σ :=
  match k with
  | [] => root ↦[Rb_node] v
  | Frame d c a o :: k =>
      ⌜valid a⌝ ∗ a ↦[Parent_color] pack (par k) c ∗ a ↦[Child d] v ∗ a ↦[Child (opp d)] top o ∗
      in_store a o ∗ hole root k a
  end.

Lemma in_store_mk d p c x a y : in_store p (mk d c x a y) ⊣⊢
  ⌜valid a⌝ ∗ a ↦[Parent_color] pack p c ∗ a ↦[Child d] top x ∗ a ↦[Child (opp d)] top y ∗ in_store a x ∗ in_store a y.
Proof. destruct d; [done|]. iSplit; iIntros "(%Hv & $ & $ & $ & $ & $)"; done. Qed.

(** A context and the tree in its hole. *)
Lemma hole_plug root k t : hole root k (top t) -∗ in_store (par k) t -∗
  root ↦[Rb_node] top (plug k t) ∗ in_store 0 (plug k t).
Proof.
  iIntros "Hk Ht". iInduction k as [|[d c a o] k IH] forall (t); [iFrame|].
  iDestruct "Hk" as "(%Hv & Hpc & Hd & Ho & Hto & Hk)". iApply ("IH" $! (mk d c t a o) with "[Hk]"); [by rw top_mk|].
  iApply in_store_mk. by iFrame.
Qed.

Lemma plug_hole root k t : root ↦[Rb_node] top (plug k t) -∗ in_store 0 (plug k t) -∗
  hole root k (top t) ∗ in_store (par k) t.
Proof.
  iIntros "Hr Ht". iInduction k as [|[d c a o] k IH] forall (t); [iFrame|].
  iDestruct ("IH" $! (mk d c t a o) with "Hr Ht") as "[Hk Ht]". rw top_mk.
  iDestruct (in_store_mk with "Ht") as "(%Hv & ? & ? & ? & ? & $)". by iFrame.
Qed.

Lemma hole_aligned root k v : hole root k v -∗ ⌜aligned (par k)⌝.
Proof. destruct k as [|[]]; iIntros "H"; [done|]. by iDestruct "H" as "([% _] & _)". Qed.

(** The nodes [l], in this order, make up a tree again. *)
Definition settled (root : Z) (l : list Z) : iProp Σ :=
  ∃ t, ⌜inorder t = l /\ red_black t⌝ ∗ root ↦[Rb_node] top t ∗ in_store 0 t.

Lemma settled_plug root k c n t l : before k ++ inorder t ++ after k = l -> rb c n t -> fits k c n ->
  hole root k (top t) -∗ in_store (par k) t -∗ settled root l.
Proof.
  iIntros (<- Hr Hf) "Hk Ht". iDestruct (hole_plug with "Hk Ht") as "[Hr Ht]". iExists (plug k t). iFrame.
  iPureIntro. split; [apply inorder_plug|by eapply rb_plug].
Qed.

(** A node that is owned is not the root of a tree that is owned too. *)
Lemma top_ne p t a pc : a <> 0 -> in_store p t -∗ a ↦[Parent_color] pc -∗ ⌜top t <> a⌝.
Proof.
  iIntros (Ha) "Ht Ha". destruct t; [by iPureIntro; intros <-|]. iDestruct "Ht" as "(_ & Ht & _)".
  iApply (field_ne with "Ht Ha").
Qed.

(** *** The helper functions *)

(** [if (tmp) rb_set_parent_color(tmp, p, RB_BLACK);] *)
Lemma wp_blacken p q t Φ : in_store q t -∗ (in_store p (blacken t) -∗ Φ tt) -∗
  wp γ (if negb (top t =? 0) then rb_set_parent_color (top t) p RB_BLACK else mret tt) Φ.
Proof.
  iIntros "Ht HΦ". destruct t as [|c l a r]; cbn; [by wp_ret; iApply "HΦ"|].
  iDestruct "Ht" as "(%Hv & Hpc & Ht)". rw (proj2 (Z.eqb_neq a 0) (proj2 Hv)). cbn.
  unfold rb_set_parent_color. wp_st. iApply "HΦ". by iFrame.
Qed.

Lemma wp_set_parent p q t Φ : aligned q -> in_store q t -∗ (in_store p t -∗ Φ tt) -∗
  wp γ (if negb (top t =? 0) then rb_set_parent (top t) p else mret tt) Φ.
Proof.
  iIntros (Hq) "Ht HΦ". destruct t as [|c l a r]; cbn; [by wp_ret; iApply "HΦ"|].
  iDestruct "Ht" as "(%Hv & Hpc & Ht)". rw (proj2 (Z.eqb_neq a 0) (proj2 Hv)). cbn.
  unfold rb_set_parent, rb_color. wp_ld. wp_ret. rw color_pack // pack_code. wp_st. iApply "HΦ". by iFrame.
Qed.

Lemma wp_change_child root k old new pc Φ : old <> 0 ->
  hole root k old -∗ old ↦[Parent_color] pc -∗ (hole root k new -∗ old ↦[Parent_color] pc -∗ Φ tt) -∗
  wp γ (__rb_change_child old new (par k) root) Φ.
Proof.
  iIntros (Hold) "Hk Hold HΦ". unfold __rb_change_child. destruct k as [|[d c a o] k]; cbn.
  { wp_st. by iApply ("HΦ" with "[$]"). }
  iDestruct "Hk" as "(%Hv & Hpc & Hd & Ho & Hto & Hk)". rw (proj2 (Z.eqb_neq a 0) (proj2 Hv)). cbn.
  iDestruct (top_ne with "Hto Hold") as %Hne; [done|].
  destruct d; cbn; wp_ld; [rw Z.eqb_refl|rw (proj2 (Z.eqb_neq _ _) Hne)]; wp_st; iApply ("HΦ" with "[-Hold] Hold"); by iFrame.
Qed.

Lemma wp_rotate_set_parents root k old new c c' x Φ : old <> 0 ->
  hole root k old -∗ old ↦[Parent_color] pack (par k) c -∗ new ↦[Parent_color] x -∗
  (hole root k new -∗ old ↦[Parent_color] pack new c' -∗ new ↦[Parent_color] pack (par k) c -∗ Φ tt) -∗
  wp γ (__rb_rotate_set_parents old new root (code c')) Φ.
Proof.
  iIntros (Hold) "Hk Hold Hnew HΦ". iDestruct (hole_aligned with "Hk") as %Hp.
  unfold __rb_rotate_set_parents, rb_parent, rb_set_parent_color. wp_ld. wp_ret. rw parent_pack //.
  wp_ld. wp_st. wp_st. iApply (wp_change_child with "Hk Hold"); [done|]. iIntros "Hk Hold". iApply ("HΦ" with "Hk Hold Hnew").
Qed.

(** [tmp && rb_is_red(tmp)] and [!tmp || rb_is_black(tmp)]. *)
Lemma wp_is_red q t Φ : aligned q -> in_store q t -∗ (in_store q t -∗ Φ (is_red t)) -∗
  wp γ (if negb (top t =? 0) then rb_is_red (top t) else mret false) Φ.
Proof.
  iIntros (Hq) "Ht HΦ". destruct t as [|c l a r]; cbn; [by wp_ret; iApply "HΦ"|].
  iDestruct "Ht" as "(%Hv & Hpc & Ht)". rw (proj2 (Z.eqb_neq a 0) (proj2 Hv)). cbn. unfold rb_is_red.
  wp_ld. wp_ret. rw red_pack //. destruct c; iApply "HΦ"; by iFrame.
Qed.
Lemma wp_is_black q t Φ : aligned q -> in_store q t -∗ (in_store q t -∗ Φ (negb (is_red t))) -∗
  wp γ (if top t =? 0 then mret true else rb_is_black (top t)) Φ.
Proof.
  iIntros (Hq) "Ht HΦ". destruct t as [|c l a r]; cbn; [by wp_ret; iApply "HΦ"|].
  iDestruct "Ht" as "(%Hv & Hpc & Ht)". rw (proj2 (Z.eqb_neq a 0) (proj2 Hv)). cbn. unfold rb_is_black.
  wp_ld. wp_ret. rw black_pack //. destruct c; iApply "HΦ"; by iFrame.
Qed.

(** Which half of a loop runs. *)
Lemma wp_side {X} (g : Z) (d : side) (p u : Z) (f : side -> Z -> T X) (Φ : X -> iProp Σ) : p <> u ->
  g ↦[Child d] p -∗ g ↦[Child (opp d)] u -∗
  (g ↦[Child d] p -∗ g ↦[Child (opp d)] u -∗ wp γ (f d u) Φ) -∗
  wp γ (tmp ← ld g (Child Right); if negb (p =? tmp) then f Left tmp else tmp ← ld g (Child Left); f Right tmp) Φ.
Proof.
  iIntros (Hne) "Hp Hu HΦ". destruct d; cbn; wp_ld.
  - rw (proj2 (Z.eqb_neq _ _) Hne). cbn. iApply ("HΦ" with "Hp Hu").
  - rw Z.eqb_refl. cbn. wp_ld. iApply ("HΦ" with "Hp Hu").
Qed.

(** Fuel: the nodes above a hole. *)
Lemma hole_owned root k v : hole root k v -∗ owned γ ((fun '(Frame _ _ a _) => a) <$> k) Parent_color.
Proof.
  iIntros "Hk". iInduction k as [|[d c a o] k IH] forall (v); [by iApply big_sepL_nil|].
  iDestruct "Hk" as "(_ & Hpc & _ & _ & _ & Hk)". unfold owned. cbn. iSplitL "Hpc"; [by iExists _|]. by iApply "IH".
Qed.

Lemma wp_hole_fuel root k v Φ : hole root k v -∗ (∀ n, ⌜(length k < n)%nat⌝ -∗ hole root k v -∗ Φ n) -∗ wp γ (gets size_of) Φ.
Proof.
  iIntros "Hk HΦ". iApply (wp_fuel γ (length k) Φ (hole root k v) with "[] Hk HΦ").
  iIntros (s) "Hs Hk". iDestruct (hole_owned with "Hk") as "Hk".
  iDestruct (owned_size with "Hs Hk") as %Hl. iPureIntro. by rw length_fmap in Hl.
Qed.
End trees.

(** ** From the store to ownership and back *)

(** The cells of a tree. *)
Fixpoint heap_of (p : Z) (t : tree) : nodes :=
  match t with
  | E => ∅
  | N c l a r =>
      {[(a, Parent_color) := pack p c]} ∪ ({[(a, Child Left) := top l]} ∪ ({[(a, Child Right) := top r]} ∪
        (heap_of a l ∪ heap_of a r)))
  end.
Definition node_field (f : field) : bool := match f with Parent_color | Child _ => true | _ => false end.
Definition tree_cell (root : Z) (l : list Z) (k : Z * field) : Prop :=
  k = (root, Rb_node) \/ k.1 ∈ l /\ node_field k.2 = true.

Lemma heap_of_dom p t k : k ∈ dom (heap_of p t) -> k.1 ∈ inorder t /\ node_field k.2 = true.
Proof.
  revert p. induction t as [|c l IHl a r IHr]; intros p; cbn; [set_solver|].
  rw !dom_union_L !dom_singleton_L. rw !elem_of_union !elem_of_singleton.
  intros [->|[->|[->|[H|H]]]]; cbn; [set_solver..| |].
  - apply IHl in H. set_solver.
  - apply IHr in H. set_solver.
Qed.

Lemma heap_of_dom_2 p t k : k.1 ∈ inorder t -> node_field k.2 = true -> k ∈ dom (heap_of p t).
Proof.
  revert p. destruct k as [x f]. induction t as [|c l IHl a r IHr]; intros p; cbn; [by intros ?%elem_of_nil|].
  rw !dom_union_L !dom_singleton_L !elem_of_union !elem_of_singleton. intros [Hx|[->|Hx]%elem_of_cons]%elem_of_app Hf.
  - right. right. right. left. by apply IHl.
  - destruct f as [|[]| | |]; auto; done.
  - right. right. right. right. by apply IHr.
Qed.

Lemma heap_of_sub s p t : linked s p t -> heap_of p t ⊆ s.
Proof.
  revert p. induction t as [|c l IHl a r IHr]; intros p; cbn; [intros _; apply map_empty_subseteq|].
  intros (_ & Hp & Hl & Hr & Hsl & Hsr).
  repeat apply map_union_least; try (by apply map_singleton_subseteq_l); [by apply IHl|by apply IHr].
Qed.

Lemma tree_cells_disjoint (h1 h2 : nodes) : (forall k, k ∈ dom h1 -> k ∈ dom h2 -> False) -> h1 ##ₘ h2.
Proof. intros Hd. apply map_disjoint_dom. set_solver. Qed.

Section sound.
Context {Σ : gFunctors} `{!ghost_mapG Σ (Z * field) Z} (γ : gname).

Lemma in_store_heap s p t : NoDup (inorder t) -> linked s p t ->
  ([∗ map] k ↦ v ∈ heap_of p t, k ↪[γ] v) -∗ in_store γ p t.
Proof.
  revert p. induction t as [|c l IHl a r IHr]; intros p Hd; cbn; [by iIntros "_ _"|].
  intros (Hv & _ & _ & _ & Hsl & Hsr). cbn in Hd. apply NoDup_app in Hd as (Hdl & Hx & Hd).
  apply NoDup_cons in Hd as [Ha Hdr]. assert (a ∉ inorder l) as Hal by (intros Hin; apply (Hx a Hin); left).
  assert (forall k, k.1 = a -> (k ∈ dom (heap_of a l) -> False) /\ (k ∈ dom (heap_of a r) -> False)) as Hk.
  { intros k <-. split; intros [Hin _]%heap_of_dom; done. }
  rw !big_sepM_union; [rw !big_sepM_singleton|apply tree_cells_disjoint..].
  - iIntros "($ & $ & $ & Hl & Hr)". iSplit; [done|]. iSplitL "Hl"; [by iApply IHl|by iApply IHr].
  - intros k [Hl _]%heap_of_dom [Hr _]%heap_of_dom. apply (Hx _ Hl). by right.
  - intros k. rw dom_union_L dom_singleton_L elem_of_union elem_of_singleton. intros ->. naive_solver.
  - intros k. rw !dom_union_L !dom_singleton_L !elem_of_union !elem_of_singleton. intros ->. naive_solver.
  - intros k. rw !dom_union_L !dom_singleton_L !elem_of_union !elem_of_singleton. intros ->. naive_solver.
Qed.

Lemma in_store_linked s p t : ghost_map_auth γ 1 s -∗ in_store γ p t -∗ ⌜linked s p t⌝.
Proof.
  iIntros "Hs Ht". iInduction t as [|c l IHl a r IHr] forall (p); cbn; [done|].
  iDestruct "Ht" as "(%Hv & H1 & H2 & H3 & Hl & Hr)".
  iDestruct (ghost_map_lookup with "Hs H1") as %->. iDestruct (ghost_map_lookup with "Hs H2") as %->.
  iDestruct (ghost_map_lookup with "Hs H3") as %->.
  iDestruct ("IHl" with "Hs Hl") as %?. iDestruct ("IHr" with "Hs Hr") as %?. done.
Qed.

Lemma in_store_valid p t a : a ∈ inorder t -> in_store γ p t -∗ ⌜valid a⌝.
Proof.
  iIntros (Ha) "Ht". iInduction t as [|c l IHl x r IHr] forall (p Ha); cbn in *; [by apply elem_of_nil in Ha|].
  iDestruct "Ht" as "(%Hv & _ & _ & _ & Hl & Hr)". apply elem_of_app in Ha as [Ha|[->|Ha]%elem_of_cons]; [|done|].
  - by iApply ("IHl" with "[//] Hl").
  - by iApply ("IHr" with "[//] Hr").
Qed.

Lemma in_store_owned p t : in_store γ p t -∗ owned γ (inorder t) Parent_color.
Proof.
  iIntros "Ht". iInduction t as [|c l IHl a r IHr] forall (p); unfold owned; cbn; [done|].
  iDestruct "Ht" as "(_ & H1 & _ & _ & Hl & Hr)". iApply big_sepL_app.
  iDestruct ("IHl" with "Hl") as "$". iApply big_sepL_cons. iDestruct ("IHr" with "Hr") as "$". by iExists (pack p c).
Qed.

Lemma in_store_holds s root t :
  ghost_map_auth γ 1 s -∗ root ↦[γ, Rb_node] top t -∗ in_store γ 0 t -∗ ⌜holds s root t⌝.
Proof.
  iIntros "Hs Hr Ht". iDestruct (ghost_map_lookup with "Hs Hr") as %?.
  iDestruct (in_store_linked with "Hs Ht") as %?. iDestruct (in_store_owned with "Ht") as "Ht".
  iDestruct (owned_nodup with "Ht") as %?. done.
Qed.
End sound.

Lemma wp_tree_fuel {Σ : gFunctors} `{!ghost_mapG Σ (Z * field) Z} (γ : gname) q t (Φ : nat -> iProp Σ) :
  in_store γ q t -∗ (∀ n, ⌜(length (inorder t) < n)%nat⌝ -∗ in_store γ q t -∗ Φ n) -∗ wp γ (gets size_of) Φ.
Proof.
  iIntros "Ht HΦ". iApply (wp_fuel γ (length (inorder t)) Φ (in_store γ q t) with "[] Ht HΦ").
  iIntros (s) "Hs Ht". iDestruct (in_store_owned with "Ht") as "Ht". iApply (owned_size with "Hs Ht").
Qed.

(** Code proved to turn the tree [t] and the cells [x] into a tree [t'] and cells [x']
    does so on every store that holds them, and changes nothing else. *)
Lemma tree_sound {A} (m : T A) (s : nodes) (root : Z) (t : tree) (x : nodes) (φ : A -> tree -> nodes -> Prop) :
  holds s root t -> x ⊆ s -> (forall k, tree_cell root (inorder t) k -> k ∉ dom x) ->
  (forall (Σ : gFunctors) (HΣ : ghost_mapG Σ (Z * field) Z) (γ : gname),
    root ↦[γ, Rb_node] top t -∗ in_store γ 0 t -∗ ([∗ map] k ↦ v ∈ x, k ↪[γ] v) -∗
    wp γ m (fun a => ∃ t' x', ⌜φ a t' x'⌝ ∗ root ↦[γ, Rb_node] top t' ∗ in_store γ 0 t' ∗ [∗ map] k ↦ v ∈ x', k ↪[γ] v)) ->
  exists a s' t' x', m s = Ok (a, s') /\ dom s' = dom s /\ φ a t' x' /\ holds s' root t' /\ x' ⊆ s' /\
    forall k, ~ tree_cell root (inorder t) k -> k ∉ dom x -> s' !! k = s !! k.
Proof.
  intros (Hroot & Hs & Hd) Hx Hdis Hm.
  set (h := {[(root, Rb_node) := top t]} ∪ (heap_of 0 t ∪ x)).
  assert (heap_of 0 t ##ₘ x) as D1.
  { apply tree_cells_disjoint. intros k Hk Hk'. apply heap_of_dom in Hk. apply (Hdis k); [by right|done]. }
  assert ({[(root, Rb_node) := top t]} ##ₘ heap_of 0 t ∪ x) as D2.
  { apply tree_cells_disjoint. intros k. rw dom_singleton_L dom_union_L elem_of_singleton elem_of_union. intros -> [Hk|Hk].
    - by apply heap_of_dom in Hk as [_ ?].
    - by apply (Hdis (root, Rb_node)); [left|]. }
  edestruct (wp_sound m s h (fun a s' => exists t' x', φ a t' x' /\ holds s' root t' /\ x' ⊆ s' /\
      forall k, k ∉ dom h -> k ∈ dom s -> s' !! k = s !! k)) as (a & s' & E & D & t' & x' & Hφ & Hh & Hx' & Hf).
  { repeat apply map_union_least; [by apply map_singleton_subseteq_l|by apply heap_of_sub|done]. }
  { intros Σ HΣ γ. unfold h. rw !big_sepM_union // big_sepM_singleton. iIntros "(Hr & Ht & Hx)".
    iDestruct (in_store_heap γ s with "Ht") as "Ht"; [done..|].
    iApply (wp_wand with "[-]"); [iApply (Hm Σ HΣ γ with "Hr Ht Hx")|].
    iIntros (a) "(%t' & %x' & %Hφ & Hr & Ht & Hx)". iIntros (s') "Hs Hf". iExists t', x'. iSplit; [done|].
    iDestruct (in_store_holds with "Hs Hr Ht") as %Hh. iDestruct (ghost_map_lookup_big with "Hs Hx") as %Hx'.
    iDestruct (ghost_map_lookup_big with "Hs Hf") as %Hf. iPureIntro. split; [done|]. split; [done|].
    intros k Hk [v Hv]%elem_of_dom. rw Hv. eapply lookup_weaken; [|exact Hf].
    apply lookup_difference_Some. split; [done|]. by apply not_elem_of_dom. }
  exists a, s', t', x'. split_and!; try done. intros k Hk Hk'.
  destruct (decide (k ∈ dom s)) as [Hin|Hout].
  - apply Hf; [|done]. unfold h. rw !dom_union_L dom_singleton_L !elem_of_union elem_of_singleton.
    intros [->|[Hin'|]]; [by apply Hk; left| |done]. apply Hk. right. by apply heap_of_dom in Hin'.
  - assert (k ∉ dom s') as Hout' by (by rw D). apply not_elem_of_dom in Hout, Hout'. congruence.
Qed.

(** Code that leaves the tree and the cells [x] as they are leaves the whole store as it is. *)
Lemma read_sound_with {A} (m : T A) (s : nodes) (root : Z) (t : tree) (x : nodes) (φ : A -> Prop) :
  holds s root t -> x ⊆ s -> (forall k, tree_cell root (inorder t) k -> k ∉ dom x) ->
  (forall (Σ : gFunctors) (HΣ : ghost_mapG Σ (Z * field) Z) (γ : gname),
    root ↦[γ, Rb_node] top t -∗ in_store γ 0 t -∗ ([∗ map] k ↦ v ∈ x, k ↪[γ] v) -∗
    wp γ m (fun a => ⌜φ a⌝ ∗ root ↦[γ, Rb_node] top t ∗ in_store γ 0 t ∗ [∗ map] k ↦ v ∈ x, k ↪[γ] v)) ->
  exists a, m s = Ok (a, s) /\ φ a.
Proof.
  intros Hs Hx Hdis Hm.
  edestruct (tree_sound m s root t x (fun a t' x' => φ a /\ t' = t /\ x' = x) Hs Hx Hdis)
    as (a & s' & t' & x' & E & D & (Hφ & -> & ->) & Hs' & Hx' & Hu).
  - intros Σ HΣ γ. iIntros "Hr Ht Hx". iApply (wp_wand with "[-]"); [iApply (Hm Σ HΣ γ with "Hr Ht Hx")|].
    iIntros (a) "(%Hφ & Hr & Ht & Hx)". iExists t, x. by iFrame.
  - exists a. split; [|done]. rw E. do 2 f_equal. apply map_eq. intros k.
    destruct Hs as (Hr & Hs & _), Hs' as (Hr' & Hs' & _). apply heap_of_sub in Hs, Hs'.
    destruct (decide (k = (root, Rb_node))) as [->|Hk]; [by rw Hr Hr'|].
    destruct (x !! k) as [v|] eqn:Ex; [by rw (lookup_weaken _ _ _ _ Ex Hx) (lookup_weaken _ _ _ _ Ex Hx')|].
    destruct (heap_of 0 t !! k) as [v|] eqn:Et; [by rw (lookup_weaken _ _ _ _ Et Hs) (lookup_weaken _ _ _ _ Et Hs')|].
    apply Hu; [|by apply not_elem_of_dom]. intros [?|[Hc1 Hc2]]; [done|].
    by apply not_elem_of_dom in Et; apply Et, heap_of_dom_2.
Qed.

Lemma read_sound {A} (m : T A) (s : nodes) (root : Z) (t : tree) (φ : A -> Prop) : holds s root t ->
  (forall (Σ : gFunctors) (HΣ : ghost_mapG Σ (Z * field) Z) (γ : gname),
    root ↦[γ, Rb_node] top t -∗ in_store γ 0 t -∗
    wp γ m (fun a => ⌜φ a⌝ ∗ root ↦[γ, Rb_node] top t ∗ in_store γ 0 t)) ->
  exists a, m s = Ok (a, s) /\ φ a.
Proof.
  intros Hs Hm. apply (read_sound_with m s root t ∅ φ Hs); [apply map_empty_subseteq|set_solver|].
  intros Σ HΣ γ. iIntros "Hr Ht _". iApply (wp_wand with "[-]"); [iApply (Hm Σ HΣ γ with "Hr Ht")|].
  iIntros (a) "($ & $ & $)". by rw big_sepM_empty.
Qed.

(** The cells of a node that is in no tree. *)
Definition node_cells (n pc l r : Z) : nodes :=
  {[(n, Parent_color) := pc]} ∪ ({[(n, Child Left) := l]} ∪ {[(n, Child Right) := r]}).
Lemma node_cells_dom n pc l r k : k ∈ dom (node_cells n pc l r) -> k.1 = n /\ node_field k.2 = true.
Proof.
  unfold node_cells. rw !dom_union_L !dom_singleton_L !elem_of_union !elem_of_singleton.
  by intros [->|[->| ->]].
Qed.
Lemma node_cells_own {Σ : gFunctors} `{!ghost_mapG Σ (Z * field) Z} (γ : gname) n pc l r :
  (([∗ map] k ↦ v ∈ node_cells n pc l r, k ↪[γ] v) : iProp Σ) ⊣⊢
  n ↦[γ, Parent_color] pc ∗ n ↦[γ, Child Left] l ∗ n ↦[γ, Child Right] r.
Proof.
  unfold node_cells. rw !big_sepM_union; [by rw !big_sepM_singleton|apply tree_cells_disjoint..];
    intros k; rw ?dom_union_L !dom_singleton_L ?elem_of_union !elem_of_singleton; naive_solver.
Qed.
