(* ===== verification/KRbInsert.v ===== *)
(** * lib/rbtree.c: insertion

    [__rb_insert] and what is built on it, and the proof that linking a node and
    calling [rb_insert_color] inserts the node and restores the red-black rules. *)

From S2P Require Import KRbtree.
Open Scope Z_scope.

Section augmented.
Context (augment_rotate : Z -> Z -> T unit).

(** One pass of the loop of [__rb_insert] under a red parent: [d] is the side of
    [parent] under [gparent]; what is returned is whether to go on, with which node and
    parent. *)
Definition insert_side (root : Z) (d : side) (node parent gparent tmp : Z) : T (option (Z * Z)) :=
  red ← (if negb (tmp =? 0) then rb_is_red tmp else mret false);
  if red : bool then
    rb_set_parent_color tmp gparent RB_BLACK;;
    rb_set_parent_color parent gparent RB_BLACK;;
    let node := gparent in
    parent ← rb_parent node;
    rb_set_parent_color node parent RB_RED;;
    mret (Some (node, parent))
  else
    tmp ← ld parent (Child (opp d));
    '(parent, tmp) ←
      (if node =? tmp then
         tmp ← ld node (Child d);
         st parent (Child (opp d)) tmp;;
         st node (Child d) parent;;
         (if negb (tmp =? 0) then rb_set_parent_color tmp parent RB_BLACK else mret tt);;
         rb_set_parent_color parent node RB_RED;;
         augment_rotate parent node;;
         tmp ← ld node (Child (opp d));
         mret (node, tmp)
       else mret (parent, tmp));
    st gparent (Child d) tmp;;
    st parent (Child (opp d)) gparent;;
    (if negb (tmp =? 0) then rb_set_parent_color tmp gparent RB_BLACK else mret tt);;
    __rb_rotate_set_parents gparent parent root RB_RED;;
    augment_rotate gparent parent;;
    mret None.

Fixpoint insert_loop (root : Z) (fuel : nat) (node parent : Z) : T unit :=
  match fuel with
  | O => die NoFuel
  | S fuel' =>
      if parent =? 0 then rb_set_parent_color node 0 RB_BLACK
      else
        black ← rb_is_black parent;
        if black : bool then mret tt
        else
          gparent ← rb_red_parent parent;
          r ← (tmp ← ld gparent (Child Right);
               if negb (parent =? tmp) then insert_side root Left node parent gparent tmp
               else tmp ← ld gparent (Child Left); insert_side root Right node parent gparent tmp);
          match r with
          | Some (node, parent) => insert_loop root fuel' node parent
          | None => mret tt
          end
  end.
Definition __rb_insert (node root : Z) : T unit :=
  parent ← rb_red_parent node;
  n ← gets size_of;
  insert_loop root n node parent.
Definition __rb_insert_augmented (node root : Z) : T unit := __rb_insert node root.
End augmented.

(** Without augmentation. *)
Definition rb_insert_color (node root : Z) : T unit := __rb_insert dummy_rotate node root.

(** ** The loop *)

(** Where a node is linked: the root's field or a field of the node above. *)
Definition link (root : Z) (k : list frame) : Z * field :=
  match k with [] => (root, Rb_node) | Frame d _ a _ :: _ => (a, Child d) end.

Section proofs.
Context {Σ : gFunctors} `{!ghost_mapG Σ (Z * field) Z} (γ : gname) (root : Z).
Local Notation "a ↦[ f ] v" := (a ↦[γ, f] v)%I (at level 20, f at level 50, format "a  ↦[ f ]  v") : bi_scope.

(** Cases 2 and 3: the uncle is black. *)
Lemma wp_insert_rotate d2 d p o g o2 k x a y m :
  rb Black m o2 -> rb Black m o -> rb Black m x -> rb Black m y -> fits k Black (S m) ->
  hole γ root (Frame d Red p o :: Frame d2 Black g o2 :: k) a -∗ in_store γ p (mk d2 Red x a y) -∗
  wp γ (insert_side dummy_rotate root d2 a p g (top o2))
    (fun r => ⌜r = None⌝ ∗ settled γ root (inorder (plug (Frame d Red p o :: Frame d2 Black g o2 :: k) (mk d2 Red x a y)))).
Proof.
  cbn [hole par]. iIntros (Ho2 Ho Hx Hy Hf) "(%Hp & Hp & Hpd & Hpo & Ho & %Hg & Hg & Hgd & Hgo & Ho2 & Hk) Ht".
  iDestruct (in_store_mk with "Ht") as "(%Ha & Ha & Hax & Hay & Hx & Hy)". unfold insert_side, dummy_rotate.
  wp_binds. iApply (wp_is_red with "Ho2"); [apply Hg|]. iIntros "Ho2". rw (rb_not_red _ _ Ho2). cbn.
  assert (d = d2 \/ d = opp d2) as [->| ->] by (destruct d, d2; auto).
  - wp_ld. iDestruct (top_ne with "Ho Ha") as %Hne; [apply Ha|]. rw (proj2 (Z.eqb_neq a (top o))) //.
    wp_ret. wp_st. wp_st. wp_binds. iApply (wp_blacken with "Ho"). iIntros "Ho". wp_binds.
    iApply (wp_rotate_set_parents γ root k g p Black Red with "Hk Hg Hp"); [apply Hg|]. iIntros "Hk Hg Hp".
    wp_ret. wp_ret. iSplit; [done|].
    iApply (settled_plug γ root k Black (S m) (mk d2 Black (mk d2 Red x a y) p (mk d2 Red o g o2)) with "[Hk]");
      [rw -inorder_plug; apply plug_inorder; inorder_eq|eauto with rbtree|done|by rw top_mk|].
    rw (blacken_black m o) // !in_store_mk !top_mk. by iFrame.
  - rw opp_opp. wp_ld. rw Z.eqb_refl. wp_ld. wp_st. wp_st. wp_binds. iApply (wp_blacken with "Hx"). iIntros "Hx".
    unfold rb_set_parent_color. wp_st. wp_ret. wp_ld. wp_ret. wp_st. wp_st. wp_binds.
    iApply (wp_blacken with "Hy"). iIntros "Hy". wp_binds.
    iApply (wp_rotate_set_parents γ root k g a Black Red with "Hk Hg Ha"); [apply Hg|]. iIntros "Hk Hg Ha".
    wp_ret. wp_ret. iSplit; [done|].
    iApply (settled_plug γ root k Black (S m) (mk d2 Black (mk d2 Red o p x) a (mk d2 Red y g o2)) with "[Hk]");
      [rw -inorder_plug; apply plug_inorder; inorder_eq|eauto with rbtree|done|by rw top_mk|].
    rw (blacken_black m x) // (blacken_black m y) // !in_store_mk !top_mk. by iFrame.
Qed.

(** Case 1: the uncle is red, and the violation moves up to the grandparent. *)
Lemma wp_insert_flip d2 d p o g o2 k x a y m Φ :
  rb Red m o2 -> rb Black m o -> rb Black m x -> rb Black m y ->
  hole γ root (Frame d Red p o :: Frame d2 Black g o2 :: k) a -∗ in_store γ p (mk d2 Red x a y) -∗
  (∀ r' l', ⌜inorder (mk d2 Red l' g r') = inorder (mk d2 Black (mk d Red (mk d2 Red x a y) p o) g o2) /\
      rb Black (S m) l' /\ rb Black (S m) r'⌝ -∗
    hole γ root k g -∗ in_store γ (par k) (mk d2 Red l' g r') -∗ Φ (Some (g, par k))) -∗
  wp γ (insert_side dummy_rotate root d2 a p g (top o2)) Φ.
Proof.
  cbn [hole par]. iIntros (Ho2 Ho Hx Hy) "(%Hp & Hp & Hpd & Hpo & Ho & %Hg & Hg & Hgd & Hgo & Ho2 & Hk) Ht HΦ".
  unfold insert_side, rb_set_parent_color, rb_parent. iDestruct (hole_aligned with "Hk") as %Hpar.
  apply rb_red_inv in Ho2 as (l2 & u & r2 & -> & Hl2 & Hr2).
  wp_binds. iApply (wp_is_red with "Ho2"); [apply Hg|]. iIntros "(%Hu & Hu & Hul & Hur & Hl2 & Hr2)". cbn.
  wp_st. wp_st. wp_ld. wp_ret. rw parent_pack //. wp_st. wp_ret.
  iApply ("HΦ" $! (N Black l2 u r2) (mk d Black (mk d2 Red x a y) p o) with "[%] Hk");
    [split_and!; [inorder_eq|eauto with rbtree|by econstructor]|].
  rw !in_store_mk !top_mk. iFrame. iFrame. done.
Qed.

(** The loop: a red node may stand under a red parent. *)
Lemma wp_insert_loop n k m t : rb Red m t -> fits k Black m -> (length k < n)%nat ->
  hole γ root k (top t) -∗ in_store γ (par k) t -∗
  wp γ (insert_loop dummy_rotate root n (top t) (par k)) (fun _ => settled γ root (inorder (plug k t))).
Proof.
  revert k m t. induction n as [|n IH]; intros k m t Ht Hf Hn; [lia|]. iIntros "Hk Ht".
  pose proof (rb_red_inv _ _ Ht) as (l & a & r & -> & Hl & Hr). cbn [top].
  destruct k as [|[d1 c1 p o] k]; cbn [insert_loop par hole].
  - iDestruct "Ht" as "(%Ha & Ha & Hal & Har & Hl & Hr)". unfold rb_set_parent_color. cbn.
    wp_st. iApply (settled_plug γ root [] Black (S m) (N Black l a r) with "[Hk]"); [by rw -inorder_plug|by econstructor|constructor|done|by iFrame].
  - iDestruct "Hk" as "(%Hp & Hp & Hk)". rw (proj2 (Z.eqb_neq p 0) (proj2 Hp)).
    iAssert ⌜aligned (par k)⌝%I as %Hpar. { iDestruct "Hk" as "(_ & _ & _ & Hk)". by iApply hole_aligned. }
    unfold rb_is_black, rb_red_parent. wp_ld. wp_ret. rw black_pack //. destruct c1; cbn iota beta.
    2: { wp_ret. iApply (settled_plug γ root (Frame d1 Black p o :: k) Red m (N Red l a r) with "[-Ht]");
      [by rw -inorder_plug|done|by inversion Hf; econstructor|by iFrame|done]. }
    inversion Hf as [|? ? ? ? ? Hf1 Ho|]; subst. inversion Hf1 as [| |k2 ? c2 ? d2 g o2 Hf2 Ho2]; subst.
    wp_ld. cbn [par hole]. rw (pack_red g). iDestruct "Hk" as "(Hpd & Hpo & Ho & %Hg & Hg & Hgd & Hgo & Ho2 & Hk)".
    iDestruct (top_ne with "Ho2 Hp") as %Hne; [apply Hp|]. iApply wp_bind. cbn [par].
    iApply (wp_side γ g d2 p (top o2) (fun d tmp => insert_side dummy_rotate root d a p g tmp) with "Hgd Hgo"); [done|].
    iIntros "Hgd Hgo". destruct (mk_side d2 Red l a r) as (x & y & E). rw E in Ht |- *.
    apply rb_mk_inv in Ht as (_ & Hx & Hy). destruct c2.
    + iApply (wp_insert_flip d2 d1 p o g o2 k2 with "[-Ht] Ht"); [done..|cbn [hole par]; rw pack_red; by iFrame "∗%"|].
      iIntros (r' l') "(%Hi & %Hl' & %Hr') Hk Ht".
      iPoseProof (IH k2 (S m) (mk d2 Red l' g r') with "[Hk] Ht") as "H"; [by apply rb_mk_red|done|cbn in Hn; lia|by rw top_mk|].
      rw top_mk. iApply (wp_wand with "H"). cbn [plug]. rw (plug_inorder k2 _ _ Hi). by iIntros (_) "H".
    + iApply (wp_wand with "[-]"); [iApply (wp_insert_rotate d2 d1 p o g o2 k2 with "[-Ht] Ht"); [done..|cbn [hole par]; rw pack_red; by iFrame "∗%"]|].
      iIntros (?) "[-> H]". by wp_ret.
Qed.

(** Linking a node and the call: [x] are the node's old fields. *)
Lemma wp_insert k n : red_black (plug k E) -> valid n ->
  root ↦[Rb_node] top (plug k E) -∗ in_store γ 0 (plug k E) -∗
  (∃ v, n ↦[Parent_color] v) -∗ (∃ v, n ↦[Child Left] v) -∗ (∃ v, n ↦[Child Right] v) -∗
  wp γ (rb_link_node n (par k) (link root k)) (fun _ =>
    wp γ (rb_insert_color n root) (fun _ => settled γ root (before k ++ n :: after k))).
Proof.
  iIntros ([M Hr] Hn) "Hr Ht (%v1 & Hp) (%v2 & Hl) (%v3 & Hr')".
  apply unplug in Hr as (c & m & He & Hf); [|done]. inversion He; subst.
  iDestruct (plug_hole with "Hr Ht") as "[Hk _]". iDestruct (hole_aligned with "Hk") as %Hpar.
  unfold rb_link_node, rb_insert_color, __rb_insert, rb_red_parent. wp_st. wp_st. wp_st.
  iAssert (wp γ (st (link root k).1 (link root k).2 n) (fun _ => hole γ root k n)) with "[Hk]" as "Hlink".
  { destruct k as [|[d c a o] k]; cbn; [by wp_st|]. iDestruct "Hk" as "(? & ? & Hd & ?)". wp_st. iFrame. }
  wp_binds. iApply (wp_wand with "Hlink"). iIntros (_) "Hk". wp_ld. wp_binds.
  iApply (wp_hole_fuel with "Hk"). iIntros (f Hlen) "Hk". 
  change (n :: after k) with (inorder (N Red E n E) ++ after k). rw -inorder_plug.
  iApply (wp_insert_loop f k 0 (N Red E n E) with "Hk [-]"); [by repeat constructor|done..|].
  cbn. rw pack_red. by iFrame.
Qed.
End proofs.

(** * Properties *)

(** C23: Insertion into a red-black tree.  [k] is any place of the tree that has no node
    and [n] a node outside it: [rb_link_node] with that place and [rb_insert_color]
    return, without a fault and within their fuel, and leave a tree with [n] between the
    nodes that were before and after the place, the others in their order, which obeys
    the red-black rules again; parents, children and colours are linked, the root's field
    is the tree's root, and no cell of the store outside the tree has changed. *)
Theorem rb_insert_exact s root k n :
  holds s root (plug k E) -> red_black (plug k E) ->
  valid n -> n ∉ inorder (plug k E) -> (forall f, node_field f = true -> is_Some (s !! (n, f))) ->
  exists s' t,
    (rb_link_node n (par k) (link root k);; rb_insert_color n root) s = Ok (tt, s') /\
    holds s' root t /\ red_black t /\ inorder t = before k ++ n :: after k /\
    dom s' = dom s /\ forall c, ~ tree_cell root (inorder t) c -> s' !! c = s !! c.
Proof.
  intros Hs Hr Hn Hout Hf.
  destruct (Hf Parent_color) as [pc E1]; [done|]. destruct (Hf (Child Left)) as [l E2]; [done|].
  destruct (Hf (Child Right)) as [r E3]; [done|].
  edestruct (tree_sound (rb_link_node n (par k) (link root k);; rb_insert_color n root) s root (plug k E)
    (node_cells n pc l r) (fun _ t x => inorder t = before k ++ n :: after k /\ red_black t /\ x = ∅))
    as ([] & s' & t & x & E & D & (Hi & Hr' & ->) & Hh & _ & Hu); [done|..].
  - repeat apply map_union_least; by apply map_singleton_subseteq_l.
  - intros c Hc Hc'. apply node_cells_dom in Hc' as [<- Hc']. destruct Hc as [->|[? _]]; done.
  - intros Σ HΣ γ. iIntros "Hr Ht Hx". iDestruct (node_cells_own with "Hx") as "(Hp & Hl & Hr')".
    iApply wp_bind. iApply (wp_wand with "[-]"); [iApply (wp_insert with "Hr Ht [Hp] [Hl] [Hr']"); [done..|by iExists _|by iExists _|by iExists _]|].
    iIntros (_) "H". iApply (wp_wand with "H"). iIntros (_) "(%t & [%Hi %Hr'] & Hr & Ht)". iExists t, ∅. iFrame. by rw big_sepM_empty.
  - exists s', t. split_and!; try done. intros c Hc. rw Hi in Hc. apply Hu.
    + rw inorder_plug. intros [->|[Hin Hc']]; apply Hc; [by left|right]. split; [|done].
      rw !elem_of_app in Hin |- *. cbn in *. set_solver.
    + intros [Hc1 Hc2]%node_cells_dom. apply Hc. right. split; [|done]. rw !elem_of_app. set_solver.
Qed.

(** A root at 4096 with a red right child at 8192: a node at 12288 under that child makes
    the tree turn left. *)
Definition chain : nodes := list_to_map
  [((256, Rb_node), 4096);
   ((4096, Parent_color), 1); ((4096, Child Left), 0); ((4096, Child Right), 8192);
   ((8192, Parent_color), 4096); ((8192, Child Left), 0); ((8192, Child Right), 0);
   ((12288, Parent_color), 7); ((12288, Child Left), 7); ((12288, Child Right), 7)].

Lemma rb_insert_exact_witness :
  exists s' t, (rb_link_node 12288 8192 (8192, Child Right);; rb_insert_color 12288 256) chain = Ok (tt, s') /\
    holds s' 256 t /\ red_black t /\ inorder t = [4096; 8192; 12288] /\ s' !! (256, Rb_node) = Some 8192.
Proof.
  destruct (rb_insert_exact chain 256 [Frame Right Red 8192 E; Frame Right Black 4096 E] 12288) as (s' & t & R & Hh & Hr & Hi & _).
  - split; [done|]. split; [|by repeat (constructor; [set_solver|]); constructor].
    cbn. unfold valid, aligned. split_and!; done || lia.
  - by exists 1%nat; repeat econstructor.
  - split; [split; done|lia].
  - cbn. set_solver.
  - by intros [| [] | | |]; try discriminate; eexists.
  - exists s', t. split_and!; try done. injection R as <-. by vm_compute.
Defined.
