(* ===== verification/KRbErase.v ===== *)
(** * lib/rbtree.c and rbtree_augmented.h: removal

    [__rb_erase_augmented], [____rb_erase_color] and what is built on them, and the proof
    that [rb_erase] removes the node and restores the red-black rules. *)

From S2P Require Import KRbtree.
Open Scope Z_scope.

Section augmented.
Context (augment_copy augment_propagate augment_rotate : Z -> Z -> T unit).

(** Case 1 of the loop of [____rb_erase_color]; [d] is the side of the node that lacks a
    black one.  What is returned is the sibling to go on with. *)
Definition erase_red_sibling (root : Z) (d : side) (parent sibling : Z) : T Z :=
  red ← rb_is_red sibling;
  if red : bool then
    tmp1 ← ld sibling (Child d);
    st parent (Child (opp d)) tmp1;;
    st sibling (Child d) parent;;
    rb_set_parent_color tmp1 parent RB_BLACK;;
    __rb_rotate_set_parents parent sibling root RB_RED;;
    augment_rotate parent sibling;;
    mret tmp1
  else mret sibling.

(** Case 4. *)
Definition erase_rotate (root : Z) (d : side) (parent tmp1 sibling : Z) : T unit :=
  tmp2 ← ld sibling (Child d);
  st parent (Child (opp d)) tmp2;;
  st sibling (Child d) parent;;
  rb_set_parent_color tmp1 sibling RB_BLACK;;
  (if negb (tmp2 =? 0) then rb_set_parent tmp2 parent else mret tt);;
  __rb_rotate_set_parents parent sibling root RB_BLACK;;
  augment_rotate parent sibling.

(** Cases 2 to 4; whether to go on at [parent]. *)
Definition erase_black_sibling (root : Z) (d : side) (parent sibling : Z) : T bool :=
  tmp1 ← ld sibling (Child (opp d));
  black1 ← (if tmp1 =? 0 then mret true else rb_is_black tmp1);
  if black1 : bool then
    tmp2 ← ld sibling (Child d);
    black2 ← (if tmp2 =? 0 then mret true else rb_is_black tmp2);
    if black2 : bool then
      rb_set_parent_color sibling parent RB_RED;;
      red ← rb_is_red parent;
      if red : bool then rb_set_black parent;; mret false else mret true
    else
      tmp1 ← ld tmp2 (Child (opp d));
      st sibling (Child d) tmp1;;
      st tmp2 (Child (opp d)) sibling;;
      st parent (Child (opp d)) tmp2;;
      (if negb (tmp1 =? 0) then rb_set_parent_color tmp1 sibling RB_BLACK else mret tt);;
      augment_rotate sibling tmp2;;
      erase_rotate root d parent sibling tmp2;;
      mret false
  else
    erase_rotate root d parent tmp1 sibling;;
    mret false.

Definition erase_side (root : Z) (d : side) (parent sibling : Z) : T bool :=
  sibling ← erase_red_sibling root d parent sibling;
  erase_black_sibling root d parent sibling.

Fixpoint erase_color_loop (root : Z) (fuel : nat) (node parent : Z) : T unit :=
  match fuel with
  | O => die NoFuel
  | S fuel' =>
      up ← (sibling ← ld parent (Child Right);
            if negb (node =? sibling) then erase_side root Left parent sibling
            else sibling ← ld parent (Child Left); erase_side root Right parent sibling);
      if up : bool then
        let node := parent in
        parent ← rb_parent node;
        if negb (parent =? 0) then erase_color_loop root fuel' node parent else mret tt
      else mret tt
  end.
Definition ____rb_erase_color (parent root : Z) : T unit :=
  n ← gets size_of;
  erase_color_loop root n 0 parent.
Definition __rb_erase_color (parent root : Z) : T unit := ____rb_erase_color parent root.

(** [do { parent = successor; successor = tmp; tmp = tmp->rb_left; } while (tmp);] *)
Fixpoint successor_loop (fuel : nat) (successor tmp : Z) : T (Z * Z) :=
  match fuel with
  | O => die NoFuel
  | S fuel' =>
      let parent := successor in
      let successor := tmp in
      tmp ← ld tmp (Child Left);
      if negb (tmp =? 0) then successor_loop fuel' successor tmp else mret (parent, successor)
  end.

(** The end of cases 2 and 3: the successor takes the place of [node]. *)
Definition erase_move (node root parent successor child2 : Z) : T (Z * Z) :=
  tmp ← ld node (Child Left);
  st successor (Child Left) tmp;;
  rb_set_parent tmp successor;;
  pc ← ld node Parent_color;
  let tmp := __rb_parent pc in
  __rb_change_child node successor tmp root;;
  if negb (child2 =? 0) then
    st successor Parent_color pc;;
    rb_set_parent_color child2 parent RB_BLACK;;
    mret (0, successor)
  else
    pc2 ← ld successor Parent_color;
    st successor Parent_color pc;;
    mret (if __rb_is_black pc2 then parent else 0, successor).

Definition __rb_erase_augmented (node root : Z) : T Z :=
  child ← ld node (Child Right);
  tmp ← ld node (Child Left);
  '(rebalance, tmp) ←
    (if tmp =? 0 then
       pc ← ld node Parent_color;
       let parent := __rb_parent pc in
       __rb_change_child node child parent root;;
       if negb (child =? 0) then st child Parent_color pc;; mret (0, parent)
       else mret (if __rb_is_black pc then parent else 0, parent)
     else if child =? 0 then
       pc ← ld node Parent_color;
       st tmp Parent_color pc;;
       let parent := __rb_parent pc in
       __rb_change_child node tmp parent root;;
       mret (0, parent)
     else
       let successor := child in
       tmp ← ld child (Child Left);
       if tmp =? 0 then
         let parent := successor in
         child2 ← ld successor (Child Right);
         augment_copy node successor;;
         erase_move node root parent successor child2
       else
         n ← gets size_of;
         '(parent, successor) ← successor_loop n successor tmp;
         child2 ← ld successor (Child Right);
         st parent (Child Left) child2;;
         st successor (Child Right) child;;
         rb_set_parent child successor;;
         augment_copy node successor;;
         augment_propagate parent successor;;
         erase_move node root parent successor child2);
  augment_propagate tmp 0;;
  mret rebalance.

Definition rb_erase_augmented (node root : Z) : T unit :=
  rebalance ← __rb_erase_augmented node root;
  if negb (rebalance =? 0) then __rb_erase_color rebalance root else mret tt.
End augmented.

(** Without augmentation. *)
Definition rb_erase (node root : Z) : T unit :=
  rebalance ← __rb_erase_augmented dummy_copy dummy_propagate node root;
  if negb (rebalance =? 0) then ____rb_erase_color dummy_rotate rebalance root else mret tt.

(** ** Recolouring and rotating *)

Section proofs.
Context {Σ : gFunctors} `{!ghost_mapG Σ (Z * field) Z} (γ : gname) (root : Z).
Local Notation "a ↦[ f ] v" := (a ↦[γ, f] v)%I (at level 20, f at level 50, format "a  ↦[ f ]  v") : bi_scope.

(** Case 4: [t] lacks a black node, [s] is the sibling, [y] its child on the other side;
    [y]'s parent and colour and [p]'s pointer to the sibling may be anything. *)
Lemma wp_erase_rotate d k p c t v s w x q y u b e Φ : valid p -> valid s -> valid y -> aligned q ->
  hole γ root k p -∗ p ↦[Parent_color] pack (par k) c -∗ p ↦[Child d] top t -∗ p ↦[Child (opp d)] v -∗ in_store γ p t -∗
  s ↦[Parent_color] w -∗ s ↦[Child d] top x -∗ s ↦[Child (opp d)] y -∗ in_store γ q x -∗
  y ↦[Parent_color] u -∗ y ↦[Child d] top b -∗ y ↦[Child (opp d)] top e -∗ in_store γ y b -∗ in_store γ y e -∗
  (hole γ root k s -∗ in_store γ (par k) (mk d c (mk d Black t p x) s (mk d Black b y e)) -∗ Φ tt) -∗
  wp γ (erase_rotate dummy_rotate root d p y s) Φ.
Proof.
  iIntros (Hp Hs Hy Hq) "Hk Hp Hpd Hpo Ht Hs Hsd Hso Hx Hy Hyd Hyo Hb He HΦ".
  unfold erase_rotate, rb_set_parent_color, dummy_rotate. wp_ld. wp_st. wp_st. wp_st. wp_binds.
  iApply (wp_set_parent with "Hx"); [done|]. iIntros "Hx". wp_binds.
  iApply (wp_rotate_set_parents γ root k p s c Black with "Hk Hp Hs"); [apply Hp|]. iIntros "Hk Hp Hs".
  wp_ret. iApply ("HΦ" with "Hk"). rw !in_store_mk !top_mk. by iFrame.
Qed.

(** Case 1: a red sibling is rotated away. *)
Lemma wp_erase_red_sibling d k c p sib v m Φ : fits (Frame d c p sib :: k) Black (S m) ->
  hole γ root (Frame d c p sib :: k) v -∗
  (∀ c' sib' k', ⌜rb Black (S m) sib' /\ fits (Frame d c' p sib' :: k') Black (S m) /\
      (c' = Black -> k' = k /\ c = Black) /\
      forall t, inorder (plug (Frame d c' p sib' :: k') t) = inorder (plug (Frame d c p sib :: k) t)⌝ -∗
    hole γ root (Frame d c' p sib' :: k') v -∗ Φ (top sib')) -∗
  wp γ (erase_red_sibling dummy_rotate root d p (top sib)) Φ.
Proof.
  cbn [hole]. iIntros (Hf) "(%Hp & Hp & Hpd & Hpo & Hsib & Hk) HΦ". unfold erase_red_sibling, rb_is_red, dummy_rotate.
  assert (exists cs, rb cs (S m) sib /\ (cs = Red -> c = Black)) as (cs & Hr & Hc).
  { inversion Hf; subst; [by exists Black|by eexists]. }
  destruct cs.
  - rw (Hc eq_refl) in Hf |- *. apply rb_red_inv in Hr as (l & s & r & -> & Hl & Hr).
    destruct (mk_side d Red l s r) as (x & y & E). rw E.
    assert (rb Red (S m) (mk d Red x s y)) as (_ & Hx & Hy)%rb_mk_inv by (rw -E; by constructor).
    rw top_mk. iDestruct (in_store_mk with "Hsib") as "(%Hs & Hs & Hsd & Hso & Hx & Hy)".
    wp_ld. wp_ret. rw red_pack; [|apply Hp]. wp_ld. wp_st. wp_st.
    pose proof (rb_black_inv _ _ Hx) as (c1 & c2 & xl & xa & xr & -> & _ & _). cbn [top].
    iDestruct "Hx" as "(%Hxa & Hxa & Hx)". unfold rb_set_parent_color. wp_st. wp_binds.
    iApply (wp_rotate_set_parents γ root k p s Black Red with "Hk Hp Hs"); [apply Hp|]. iIntros "Hk Hp Hs".
    wp_ret. wp_ret. iApply ("HΦ" $! Red (N Black xl xa xr) (Frame d Black s y :: k) with "[%]").
    { split_and!; [done|inversion Hf; subst; by econstructor; [econstructor|]|done|].
      intros t. cbn [plug]. apply plug_inorder. inorder_eq. }
    cbn [hole par]. by iFrame "∗%".
  - pose proof (rb_black_inv _ _ Hr) as (c1 & c2 & l & s & r & -> & _ & _). cbn [top].
    iDestruct "Hsib" as "(%Hs & Hs & Hsib)". wp_ld. wp_ret. rw red_pack; [|apply Hp]. wp_ret.
    iApply ("HΦ" $! c (N Black l s r) k with "[%]"); [split_and!; try done|by iFrame "∗%"].
Qed.

Lemma fits_frame d c p o k n u s w : fits (Frame d c p o :: k) Black n -> rb Black n u -> rb Black n w ->
  exists n', rb c n' (mk d c u s w) /\ fits k c n'.
Proof. inversion 1; subst; intros Hu Hw; eauto using rb_mk_red, rb_mk_black. Qed.

(** Cases 2 to 4: the sibling is black. *)
Lemma wp_erase_black_sibling d k c p sib t m Φ :
  rb Black (S m) sib -> rb Black m t -> fits (Frame d c p sib :: k) Black (S m) ->
  hole γ root (Frame d c p sib :: k) (top t) -∗ in_store γ p t -∗
  ((∀ sib', ⌜c = Black /\ inorder sib' = inorder sib /\ rb Red m sib'⌝ -∗
      hole γ root k p -∗ in_store γ (par k) (mk d Black t p sib') -∗ Φ true) ∧
   (settled γ root (inorder (plug (Frame d c p sib :: k) t)) -∗ Φ false)) -∗
  wp γ (erase_black_sibling dummy_rotate root d p (top sib)) Φ.
Proof.
  cbn [hole plug]. iIntros (Hsib Ht Hf) "(%Hp & Hp & Hpd & Hpo & Hsib & Hk) Ht HΦ".
  unfold erase_black_sibling. iDestruct (hole_aligned with "Hk") as %Hpar.
  apply (rb_black_side d) in Hsib as (cx & cy & x & s & y & -> & Hx & Hy). rw top_mk.
  iDestruct (in_store_mk with "Hsib") as "(%Hs & Hs & Hsd & Hso & Hx & Hy)".
  wp_ld. wp_binds. iApply (wp_is_black with "Hy"); [apply Hs|]. iIntros "Hy". destruct cy.
  - apply (rb_red_side d) in Hy as (b & ya & e & -> & Hb & He). rw is_red_mk top_mk. cbn [negb].
    iDestruct (in_store_mk with "Hy") as "(%Hya & Hya & Hyd & Hyo & Hb & He)". wp_binds. iDestruct "HΦ" as "[_ HΦ]".
    iApply (wp_erase_rotate d k p c t s s _ x s ya with "Hk Hp Hpd Hpo Ht Hs Hsd Hso Hx Hya Hyd Hyo Hb He");
      [done..|apply Hs|]. iIntros "Hk Ht". wp_ret. iApply "HΦ".
    destruct (fits_frame d c p _ k (S m) (mk d Black t p x) s (mk d Black b ya e) Hf) as (n & Hr & Hf'); [by eapply rb_mk_black..|].
    iApply (settled_plug γ root k c n with "[Hk] Ht"); [|done..|by rw top_mk]. rw -inorder_plug. apply plug_inorder. inorder_eq.
  - rw (rb_not_red _ _ Hy). cbn [negb]. wp_ld. wp_binds. iApply (wp_is_black with "Hx"); [apply Hs|]. iIntros "Hx". destruct cx.
    + apply (rb_red_side d) in Hx as (x1 & xa & x2 & -> & Hx1 & Hx2). rw is_red_mk top_mk. cbn [negb].
      iDestruct (in_store_mk with "Hx") as "(%Hxa & Hxa & Hxd & Hxo & Hx1 & Hx2)". unfold dummy_rotate.
      wp_ld. wp_st. wp_st. wp_st. wp_binds. iApply (wp_blacken with "Hx2"). iIntros "Hx2". rw (blacken_black m x2) //.
      wp_ret. iDestruct "HΦ" as "[_ HΦ]". wp_binds.
      iApply (wp_erase_rotate d k p c t xa xa _ x1 xa s with "Hk Hp Hpd Hpo Ht Hxa Hxd Hxo Hx1 Hs Hsd Hso Hx2 Hy");
        [done..|apply Hxa|]. iIntros "Hk Ht". wp_ret. iApply "HΦ".
      destruct (fits_frame d c p _ k (S m) (mk d Black t p x1) xa (mk d Black x2 s y) Hf) as (n & Hr & Hf'); [by eapply rb_mk_black..|].
      iApply (settled_plug γ root k c n with "[Hk] Ht"); [|done..|by rw top_mk]. rw -inorder_plug. apply plug_inorder. inorder_eq.
    + rw (rb_not_red _ _ Hx). cbn [negb]. unfold rb_set_parent_color, rb_is_red, rb_set_black.
      wp_st. wp_ld. wp_ret. rw red_pack //. destruct c; cbn iota.
      * wp_ld. wp_st. wp_ret. rw pack_black. iDestruct "HΦ" as "[_ HΦ]". iApply "HΦ".
        inversion Hf; subst. iApply (settled_plug γ root k Black (S m) (mk d Black t p (mk d Red x s y)) with "[Hk]");
          [rw -inorder_plug; apply plug_inorder; inorder_eq|eauto with rbtree|by eapply fits_weaken|by rw top_mk|].
        rw !in_store_mk !top_mk. by iFrame.
      * wp_ret. iDestruct "HΦ" as "[HΦ _]".
        iApply ("HΦ" $! (mk d Red x s y) with "[%] Hk"); [split_and!; [done|inorder_eq|eauto with rbtree]|].
        rw !in_store_mk !top_mk. by iFrame.
Qed.

(** The loop: the tree [t] in the hole lacks a black node. *)
Lemma wp_erase_color_loop n k t m : rb Black m t -> fits k Black (S m) -> k <> [] -> (length k <= n)%nat ->
  hole γ root k (top t) -∗ in_store γ (par k) t -∗
  wp γ (erase_color_loop dummy_rotate root n (top t) (par k)) (fun _ => settled γ root (inorder (plug k t))).
Proof.
  revert k t m. induction n as [|n IH]; intros [|[d c p sib] k] t m Ht Hf Hk Hn; try done; [cbn in Hn; lia|].
  iIntros "Hk Ht". cbn [erase_color_loop]. iApply wp_bind. cbn [par].
  iAssert ⌜top t <> top sib⌝%I as %Hne.
  { cbn [hole]. iDestruct "Hk" as "(_ & _ & _ & _ & Hsib & _)".
    assert (exists cs, rb cs (S m) sib) as [cs Hs] by (inversion Hf; subst; by eexists).
    destruct sib as [|? ? s ?]; [inversion Hs|]. iDestruct "Hsib" as "(%Hs' & Hs & _)".
    iApply (top_ne with "Ht Hs"). apply Hs'. }
  iDestruct "Hk" as "(%Hp & Hp & Hpd & Hpo & Hk)".
  iApply (wp_side γ p d (top t) (top sib) (fun d tmp => erase_side dummy_rotate root d p tmp) with "Hpd Hpo"); [done|].
  iIntros "Hpd Hpo". iAssert (hole γ root (Frame d c p sib :: k) (top t)) with "[Hp Hpd Hpo Hk]" as "Hk"; [by iFrame|].
  unfold erase_side. wp_binds. iApply (wp_erase_red_sibling with "Hk"); [done|].
  iIntros (c' sib' k') "(%Hsib & %Hf' & %Hk' & %Hi) Hk". rw -Hi.
  iApply (wp_erase_black_sibling with "Hk Ht"); [done..|]. iSplit; [|by iIntros "H"; wp_ret].
  iIntros (sib0) "(%Hc & %Hi0 & %Hr0) Hk Ht". destruct (Hk' Hc) as [-> _]. subst c'.
  iDestruct (hole_aligned with "Hk") as %Hpar. iDestruct (in_store_mk with "Ht") as "(%Hp' & Hp & Ht)".
  unfold rb_parent. wp_ld. wp_ret. rw parent_pack //.
  iAssert (in_store γ (par k) (mk d Black t p sib0)) with "[Hp Ht]" as "Ht"; [iApply in_store_mk; by iFrame|].
  assert (rb Black (S m) (mk d Black t p sib0)) as Hr by eauto with rbtree.
  assert (inorder (plug k (mk d Black t p sib0)) = inorder (plug (Frame d Black p sib' :: k) t)) as Ei.
  { cbn [plug]. apply plug_inorder. destruct d; cbn; by rw Hi0. }
  rw -Ei. destruct (decide (k = [])) as [->|Hne'].
  - cbn. wp_ret. iApply (settled_plug γ root [] Black (S m) with "[Hk] Ht"); [by rw -inorder_plug|done|constructor|by rw top_mk].
  - iAssert ⌜par k <> 0⌝%I as %Hz. { destruct k as [|[]]; [done|]. iDestruct "Hk" as "([_ %] & _)". done. }
    rw (proj2 (Z.eqb_neq _ _) Hz). cbn [negb].
    iPoseProof (IH k (mk d Black t p sib0) (S m) with "[Hk] Ht") as "H"; [done|by inversion Hf'|done|cbn in Hn; lia|by rw top_mk|].
    by rw top_mk.
Qed.

(** ** Taking the node out *)

(** A part of the context further up. *)
Lemma hole_focus ks k v : hole γ root (ks ++ k) v -∗
  ∃ u, hole γ root k u ∗ ∀ k', ⌜par k' = par k⌝ -∗ hole γ root k' u -∗ hole γ root (ks ++ k') v.
Proof.
  iIntros "Hk". iInduction ks as [|[d c a o] ks IH] forall (v); [iExists v; iFrame; by iIntros|].
  iDestruct "Hk" as "(%Ha & Hp & Hd & Ho & Hto & Hk)". iDestruct ("IH" with "Hk") as (u) "[Hk Hf]".
  iExists u. iFrame "Hk". iIntros (k' Hpar) "Hk". cbn [app hole]. iFrame "Hd Ho Hto". iSplit; [done|].
  assert (par (ks ++ k') = par (ks ++ k)) as -> by (by destruct ks as [|[]]). iFrame "Hp". by iApply "Hf".
Qed.

Lemma fits_app ks k c n : fits (ks ++ k) c n ->
  exists c' n', fits k c' n' /\ forall k', fits k' c' n' -> fits (ks ++ k') c n.
Proof.
  revert c n. induction ks as [|[d c0 a o] ks IH]; intros c n Hf; [by eexists _, _|].
  inversion Hf as [|? ? ? ? ? Hf' Ho|? ? ? ? ? ? ? Hf' Ho]; subst.
  - apply IH in Hf' as (c' & n' & Hk & Hk'). exists c', n'. split; [done|]. intros k' H'. constructor; auto.
  - apply IH in Hf' as (c1 & n' & Hk & Hk'). exists c1, n'. split; [done|]. intros k' H'. econstructor; eauto.
Qed.

(** The leftmost node of a tree under [p], and its parent. *)
Fixpoint leftmost (p : Z) (t : tree) : Z * Z :=
  match t with E => (p, 0) | N _ E a _ => (p, a) | N _ l a _ => leftmost a l end.

Lemma wp_successor_loop n p q t : t <> E -> (length (inorder t) < n)%nat -> in_store γ q t -∗
  wp γ (successor_loop n p (top t)) (fun r => ⌜r = leftmost p t⌝ ∗ in_store γ q t).
Proof.
  iIntros (Ht Hn) "Ht". iInduction n as [|n IH] forall (p q t Ht Hn); [lia|]. destruct t as [|c l a r]; [done|].
  cbn [successor_loop top]. iDestruct "Ht" as "(%Ha & Hp & Hal & Har & Hl & Hr)". wp_ld.
  destruct l as [|cl ll la lr].
  - cbn. wp_ret. iSplit; [done|]. by iFrame.
  - iAssert ⌜la <> 0⌝%I as %Hla. { iDestruct "Hl" as "([_ %] & _)". done. }
    cbn [top]. rw (proj2 (Z.eqb_neq _ _) Hla). cbn [negb].
    iPoseProof ("IH" $! a a (N cl ll la lr) with "[%//] [%] Hl") as "H".
    { cbn [inorder] in *. rw !length_app in Hn |- *. cbn in *. lia. }
    cbn [top]. iApply (wp_wand with "H"). iIntros (x) "[-> Hl]". iSplit; [done|]. cbn [in_store]. by iFrame.
Qed.

Lemma leftmost_split p t : t <> E -> exists ks c a r, t = plug ks (N c E a r) /\ before ks = [] /\
  leftmost p t = (match ks with [] => p | Frame _ _ b _ :: _ => b end, a) /\
  match ks with [] => True | Frame d _ _ _ :: _ => d = Left end.
Proof.
  revert p. induction t as [|c l IH a r _]; intros p Ht; [done|]. destruct l as [|cl ll la lr].
  - by exists [], c, a, r.
  - destruct (IH a) as (ks & c' & a' & r' & E & Hb & Hl & Hd); [done|].
    exists (ks ++ [Frame Left c a r]), c', a', r'. rw plug_app -E. split; [done|].
    assert (forall ks, before (ks ++ [Frame Left c a r]) = before ks) as ->.
    { clear. induction ks as [|[[] ? ? ?] ks IH]; cbn; by rw ?IH. }
    split; [done|]. cbn [leftmost] in *. rw Hl. by destruct ks as [|[]].
Qed.

(** [rb_set_parent] of a node that is there. *)
Lemma wp_set_parent_node p q t Φ : t <> E -> aligned q -> in_store γ q t -∗ (in_store γ p t -∗ Φ tt) -∗
  wp γ (rb_set_parent (top t) p) Φ.
Proof.
  iIntros (Ht Hq) "Ht HΦ". destruct t as [|c l a r]; [done|]. iDestruct "Ht" as "(%Ha & Hp & Ht)".
  unfold rb_set_parent, rb_color. cbn [top]. wp_ld. wp_ret. rw color_pack // pack_code. wp_st. iApply "HΦ". by iFrame.
Qed.

(** The successor [s] takes [a]'s place; [rs] is the child it leaves behind under [pz]. *)
Lemma wp_erase_move k a c l s ps cs v q rs pz Φ : valid a -> aligned ps -> l <> E ->
  hole γ root k a -∗ a ↦[Parent_color] pack (par k) c -∗ a ↦[Child Left] top l -∗ in_store γ a l -∗
  s ↦[Parent_color] pack ps cs -∗ s ↦[Child Left] v -∗ in_store γ q rs -∗
  (hole γ root k s -∗ s ↦[Parent_color] pack (par k) c -∗ s ↦[Child Left] top l -∗ in_store γ s l -∗
    in_store γ pz (blacken rs) -∗ a ↦[Parent_color] pack (par k) c -∗ a ↦[Child Left] top l -∗
    Φ (match rs with E => if cs is Black then pz else 0 | _ => 0 end, s)) -∗
  wp γ (erase_move a root pz s (top rs)) Φ.
Proof.
  iIntros (Ha Hps Hl) "Hk Ha Hal Hl Hs Hsl Hrs HΦ". unfold erase_move. iDestruct (hole_aligned with "Hk") as %Hpar.
  wp_ld. wp_st. wp_binds. iApply (wp_set_parent_node s a l with "Hl"); [done|apply Ha|]. iIntros "Hl".
  wp_ld. wp_binds. rw parent_pack //. iApply (wp_change_child with "Hk Ha"); [apply Ha|]. iIntros "Hk Ha".
  destruct rs as [|cr r1 x r2]; cbn [top].
  - cbn. wp_ld. wp_st. wp_ret. rw black_pack //. by destruct cs; iApply ("HΦ" with "Hk Hs Hsl Hl Hrs Ha Hal").
  - iDestruct "Hrs" as "(%Hx & Hx & Hrs)". rw (proj2 (Z.eqb_neq x 0) (proj2 Hx)). cbn [negb].
    unfold rb_set_parent_color. wp_st. wp_st. wp_ret. iApply ("HΦ" with "Hk Hs Hsl Hl [Hx Hrs] Ha Hal"). cbn. by iFrame.
Qed.

(** What [__rb_erase_augmented] returns: nothing is left to do, or the parent of the place
    that lacks a black node. *)
Definition erased (l : list Z) (r : Z) : iProp Σ :=
  (⌜r = 0⌝ ∗ settled γ root l) ∨
  (∃ k, ⌜r = par k /\ k <> [] /\ fits k Black 1 /\ before k ++ after k = l⌝ ∗ hole γ root k 0).

Lemma erased_child k c m s rs l : rb c m (N c E s rs) -> fits k c m -> before k ++ inorder rs ++ after k = l ->
  hole γ root k (top rs) -∗ in_store γ (par k) (blacken rs) -∗
  erased l (match rs with E => if c is Black then par k else 0 | _ => 0 end).
Proof.
  iIntros (Hr Hf <-) "Hk Hrs". destruct rs as [|cr r1 x r2].
  - inversion Hr as [|? ? ? ? He _|? ? ? ? ? ? He _]; inversion He; subst.
    + iLeft. iSplit; [done|]. iApply (settled_plug γ root k Black 0 E with "Hk Hrs"); [done|constructor|by eapply fits_weaken].
    + destruct k as [|F k].
      * iLeft. iSplit; [done|]. iApply (settled_plug γ root [] Black 0 E with "Hk Hrs"); [done|constructor..].
      * iRight. iExists (F :: k). by iFrame.
  - iLeft. iSplit; [done|]. assert (c = Black /\ m = 1%nat /\ rb Black 1 (N Black r1 x r2)) as (-> & -> & Hr').
    { inversion Hr as [|? ? ? ? He Hx|? ? ? ? ? ? He Hx]; inversion He; subst; inversion Hx; subst.
      split_and!; [done..|by econstructor]. }
    by iApply (settled_plug γ root k Black 1 (N Black r1 x r2) with "Hk Hrs").
Qed.

Lemma fits_addr d c a b o k c' n : fits (Frame d c a o :: k) c' n -> fits (Frame d c b o :: k) c' n.
Proof. inversion 1; subst; by econstructor. Qed.

(** The cells of the node taken out. *)
Definition raw (a : Z) : iProp Σ :=
  (∃ v, a ↦[Parent_color] v) ∗ (∃ v, a ↦[Child Left] v) ∗ (∃ v, a ↦[Child Right] v).

(** Case 2: the right child has no left child. *)
Lemma wp_erase_next k c l a cr y rr m : l <> E -> rb cr m (N cr E y rr) -> fits (Frame Right c a l :: k) cr m ->
  hole γ root k a -∗ in_store γ (par k) (N c l a (N cr E y rr)) -∗
  wp γ (erase_move a root y y (top rr))
    (fun r => erased (before k ++ inorder l ++ (y :: inorder rr) ++ after k) r.1 ∗ raw a).
Proof.
  iIntros (Hl Hr Hf) "Hk (%Ha & Ha & Hal & Har & Hl & %Hy & Hy & Hyl & Hyr & _ & Hrr)".
  iApply (wp_erase_move k a c l y a cr _ y rr y with "Hk Ha Hal Hl Hy Hyl Hrr"); [done|apply Ha|done|].
  iIntros "Hk Hy Hyl Hl Hrr Ha Hal". iSplitR "Ha Hal Har"; [|by iSplitL "Ha"; [iExists _|iSplitL "Hal"; iExists _]].
  cbn [fst]. iApply (erased_child (Frame Right c y l :: k) cr m y rr with "[-Hrr] Hrr");
    [done|by eapply fits_addr|cbn; by rw -!app_assoc|]. by iFrame.
Qed.

(** Case 3: [r]'s leftmost node [s] is further down, with [ks] above it. *)
Lemma wp_erase_leftmost k c l a cr y rr ks cs s rs m b : l <> E ->
  match ks with [] => True | Frame d _ _ _ :: _ => d = Left end -> before ks = [] ->
  let K := ks ++ Frame Left cr y rr :: Frame Right c a l :: k in
  rb cs m (N cs E s rs) -> fits K cs m ->
  b = (match ks with [] => y | Frame _ _ b _ :: _ => b end) ->
  hole γ root K s -∗ in_store γ (par K) (N cs E s rs) -∗
  wp γ (child2 ← ld s (Child Right); st b (Child Left) child2;; st s (Child Right) y;; rb_set_parent y s;;
        dummy_copy a s;; dummy_propagate b s;; erase_move a root b s child2)
    (fun r => erased (before k ++ inorder l ++ inorder (N cr (plug ks (N cs E s rs)) y rr) ++ after k) r.1 ∗ raw a).
Proof.
  iIntros (Hl Hside Hbef K Hr Hf Hb) "Hk (%Hs & Hs & Hsl & Hsr & _ & Hrs)". unfold dummy_copy, dummy_propagate.
  iDestruct (hole_aligned with "Hk") as %HparK. assert (par K = b) as Eb by (subst b; by destruct ks as [|[]]). wp_ld.
  iAssert (wp γ (st b (Child Left) (top rs)) (fun _ => hole γ root K (top rs))) with "[Hk]" as "Hst".
  { rw -Eb. unfold K. destruct ks as [|[d c1 b1 o1] ks]; cbn [app hole par]; [|cbn in Hside; subst d];
      iDestruct "Hk" as "(% & ? & Hd & ?)"; wp_st; by iFrame. }
  wp_binds. iApply (wp_wand with "Hst"). iIntros (_) "Hk". wp_st.
  iDestruct (hole_focus ks with "Hk") as (u) "[(%Hy & Hy & Hyl & Hyr & Hrr & %Ha & Ha & Har & Hal & Hl & Hk) Hf]".
  unfold rb_set_parent at 1, rb_color at 1. cbn [par opp].
  wp_ld. wp_ret. rw color_pack; [|apply Ha]. wp_st. wp_ret. wp_ret. wp_binds.
  iApply (wp_erase_move k a c l s (par K) cs _ s rs b with "Hk Ha Hal Hl Hs Hsl Hrs"); [done| |done|].
  { exact HparK. }
  iIntros "Hk Hs Hsl Hl Hrs Ha Hal". iSplitR "Ha Hal Har"; [|by iSplitL "Ha"; [iExists _|iSplitL "Hal"; iExists _]].
  set (K' := ks ++ Frame Left cr y rr :: Frame Right c s l :: k).
  assert (fits K' cs m) as Hf'.
  { unfold K in Hf. apply fits_app in Hf as (c' & n' & Hk & Hf'). apply Hf'. inversion Hk; subst.
    - constructor; [by eapply fits_addr|done].
    - econstructor; [by eapply fits_addr|done]. }
  assert (par K' = b) as Eb' by (subst b; by destruct ks as [|[]]). rw -Eb'. cbn [fst].
  iApply (erased_child K' cs m s rs with "[-Hrs] Hrs"); [done|done| |].
  { unfold K'. rw before_app after_app Hbef. cbn. rw inorder_plug Hbef. cbn. repeat (rw -!app_assoc; cbn). done. }
  iApply ("Hf" $! (Frame Left cr y rr :: Frame Right c s l :: k) with "[//]"). cbn [hole par opp]. rw pack_code. by iFrame "∗%".
Qed.

(** Both children are there. *)
Lemma wp_erase_two k c l a cr rl y rr Φ : l <> E -> red_black (plug k (N c l a (N cr rl y rr))) ->
  hole γ root k a -∗ in_store γ (par k) (N c l a (N cr rl y rr)) -∗
  (∀ r, erased (before k ++ inorder l ++ inorder (N cr rl y rr) ++ after k) r.1 -∗ raw a -∗ Φ r) -∗
  wp γ (tmp ← ld y (Child Left);
        if tmp =? 0 then
          child2 ← ld y (Child Right); dummy_copy a y;; erase_move a root y y child2
        else
          n ← gets size_of;
          '(parent, successor) ← successor_loop n y tmp;
          child2 ← ld successor (Child Right);
          st parent (Child Left) child2;;
          st successor (Child Right) y;;
          rb_set_parent y successor;;
          dummy_copy a successor;;
          dummy_propagate parent successor;;
          erase_move a root parent successor child2) Φ.
Proof.
  iIntros (Hl [M Hrb]) "Hk (%Ha & Ha & Hal & Har & Hl & %Hy & Hy & Hyl & Hyr & Hrl & Hrr) HΦ". wp_ld.
  destruct (decide (rl = E)) as [->|Hrl].
  - cbn [top]. rw Z.eqb_refl. wp_ld. wp_ret.
    apply (unplug (Frame Right c a l :: k) Black M (N cr E y rr)) in Hrb as (c' & m & Hr & Hf); [|done].
    assert (c' = cr) as -> by (by inversion Hr).
    iApply (wp_wand with "[-HΦ]"); [iApply (wp_erase_next k c l a cr y rr m with "Hk"); [done..|]|].
    { cbn [in_store]. by iFrame "∗%". }
    iIntros (r) "[He Hraw]". iApply ("HΦ" with "He Hraw").
  - iAssert ⌜top rl <> 0⌝%I as %Hz. { destruct rl; [done|]. iDestruct "Hrl" as "([_ %] & _)". done. }
    rw (proj2 (Z.eqb_neq _ _) Hz). wp_binds.
    iApply (wp_tree_fuel with "Hrl").
    iIntros (n Hn) "Hrl". wp_binds. iApply (wp_wand with "[Hrl]"); [by iApply (wp_successor_loop n y y rl with "Hrl")|].
    iIntros (x) "[-> Hrl]". destruct (leftmost_split y rl Hrl) as (ks & cs & s & rs & -> & Hb & -> & Hd).
    set (k2 := Frame Left cr y rr :: Frame Right c a l :: k).
    assert (rb Black M (plug (ks ++ k2) (N cs E s rs))) as (c' & m & Hr & Hf)%unplug; [by rw plug_app| |done].
    assert (c' = cs) as -> by (by inversion Hr).
    iAssert (hole γ root (ks ++ k2) s ∗ in_store γ (par (ks ++ k2)) (N cs E s rs))%I with "[-HΦ]" as "[Hk Ht]".
    { iDestruct (hole_plug γ root k2 with "[-Hrl] Hrl") as "[Hr Ht]"; [by iFrame "∗%"|].
      rw -(plug_app ks k2). iApply (plug_hole with "Hr Ht"). }
    iApply (wp_wand with "[-HΦ]").
    { by iApply (wp_erase_leftmost k c l a cr y rr ks cs s rs m _ with "Hk Ht"). }
    iIntros (r) "[He Hraw]". iApply ("HΦ" with "He Hraw").
Qed.

(** One child or none: [x] takes the place of the node. *)
Lemma one_child c l a r m : rb c m (N c l a r) -> l = E \/ r = E ->
  let x := if decide (l = E) then r else l in
  rb c m (N c E a x) /\ inorder x = inorder l ++ inorder r /\
  match x with E => True | N _ x1 b x2 => blacken x = N c x1 b x2 end.
Proof.
  intros Hr Hlr x. assert (rb c m (N c E a x)) as Hx.
  { unfold x. case_decide as Hl; [by subst l|]. destruct Hlr as [?| ->]; [done|].
    inversion Hr as [|? ? ? ? Hl' He|? ? ? ? ? ? Hl' He]; subst; by econstructor. }
  split; [done|]. split.
  - unfold x. case_decide; subst; [done|]. destruct Hlr as [?| ->]; [done|]. cbn. by rw app_nil_r.
  - destruct x as [|cx x1 b x2]; [done|]. inversion Hx as [|? ? ? ? He Hb|? ? ? ? ? ? He Hb]; subst; [|done].
    inversion He; subst. inversion Hb.
Qed.

Lemma wp_erase_augmented k c l a r : red_black (plug k (N c l a r)) ->
  root ↦[Rb_node] top (plug k (N c l a r)) -∗ in_store γ 0 (plug k (N c l a r)) -∗
  wp γ (__rb_erase_augmented dummy_copy dummy_propagate a root)
    (fun x => erased (before k ++ inorder l ++ inorder r ++ after k) x ∗ raw a).
Proof.
  iIntros (Hrb) "Hr Ht". iDestruct (plug_hole with "Hr Ht") as "[Hk Ht]". iDestruct (hole_aligned with "Hk") as %Hpar.
  destruct (decide (l <> E /\ r <> E)) as [[Hl Hr]|Hlr].
  - destruct r as [|cr rl y rr]; [done|]. iDestruct "Ht" as "(%Ha & Ha & Hal & Har & Hl & Hr)".
    iAssert ⌜top l <> 0⌝%I as %Hz. { destruct l; [done|]. iDestruct "Hl" as "([_ %] & _)". done. }
    iAssert ⌜y <> 0⌝%I as %Hy. { iDestruct "Hr" as "([_ %] & _)". done. }
    unfold __rb_erase_augmented. wp_ld. wp_ld. cbn [top]. rw (proj2 (Z.eqb_neq _ _) Hz) (proj2 (Z.eqb_neq _ _) Hy).
    iApply wp_bind. iApply (wp_erase_two k c l a cr rl y rr with "Hk [-]"); [done..|by iFrame "∗%"|].
    iIntros ([rebalance tmp]) "He Ha". unfold dummy_propagate. wp_ret. wp_ret. iFrame.
  - assert (l = E \/ r = E) as Hlr'. { destruct (decide (l = E)); [by left|]. right. destruct (decide (r = E)); [done|]. tauto. }
    destruct Hrb as [M Hrb]. apply unplug in Hrb as (c' & m & Hn & Hf); [|done].
    assert (c' = c) as -> by (by inversion Hn).
    destruct (one_child c l a r m Hn Hlr') as (Hx & Hi & Hb).
    iDestruct "Ht" as "(%Ha & Ha & Hal & Har & Hl & Hr)".
    unfold __rb_erase_augmented, dummy_propagate. wp_ld. wp_ld. destruct (decide (l = E)) as [->|Hl].
    + cbn [top]. rw Z.eqb_refl. wp_ld. rw parent_pack //. wp_binds.
      iApply (wp_change_child with "Hk Ha"); [apply Ha|]. iIntros "Hk Ha".
      iPoseProof (erased_child k c m a r (before k ++ inorder E ++ inorder r ++ after k) with "Hk") as "He"; [done..|].
      destruct r as [|cr r1 y r2]; cbn [top].
      * rw Z.eqb_refl. cbn [negb]. wp_ret. wp_ret. wp_ret. rw black_pack //.
        iSplitL "He"; [destruct c; by iApply "He"|]. iSplitL "Ha"; [by iExists _|]. iSplitL "Hal"; by iExists _.
      * iDestruct "Hr" as "(%Hy & Hy & Hr)". rw (proj2 (Z.eqb_neq _ _) (proj2 Hy)). cbn [negb]. wp_st. wp_ret. wp_ret. wp_ret.
        iSplitL "He Hy Hr"; [iApply "He"; rw Hb; by iFrame|]. iSplitL "Ha"; [by iExists _|]. iSplitL "Hal"; by iExists _.
    + destruct Hlr' as [?| ->]; [done|]. destruct l as [|cl l1 x l2]; [done|]. cbn [top].
      iDestruct "Hl" as "(%Hxv & Hxc & Hl)". rw (proj2 (Z.eqb_neq _ _) (proj2 Hxv)). rw Z.eqb_refl.
      wp_ld. wp_st. rw parent_pack //. wp_binds. iApply (wp_change_child with "Hk Ha"); [apply Ha|]. iIntros "Hk Ha".
      iPoseProof (erased_child k c m a (N cl l1 x l2) (before k ++ inorder (N cl l1 x l2) ++ inorder E ++ after k) with "Hk") as "He"; [done..|].
      wp_ret. wp_ret. wp_ret.
      iSplitL "He Hxc Hl"; [iApply "He"; rw Hb; by iFrame|]. iSplitL "Ha"; [by iExists _|]. iSplitL "Hal"; by iExists _.
Qed.

Lemma wp_rb_erase k c l a r : red_black (plug k (N c l a r)) ->
  root ↦[Rb_node] top (plug k (N c l a r)) -∗ in_store γ 0 (plug k (N c l a r)) -∗
  wp γ (rb_erase a root) (fun _ => settled γ root (before k ++ inorder l ++ inorder r ++ after k) ∗ raw a).
Proof.
  iIntros (Hrb) "Hr Ht". unfold rb_erase. wp_binds. iApply (wp_wand with "[-]"); [by iApply (wp_erase_augmented with "Hr Ht")|].
  iIntros (x) "[[[-> Hs]|(%k' & (-> & %Hne & %Hf & <-) & Hk)] Ha]".
  - cbn. wp_ret. iFrame.
  - iAssert ⌜par k' <> 0⌝%I as %Hz. { destruct k' as [|[]]; [done|]. iDestruct "Hk" as "([_ %] & _)". done. }
    rw (proj2 (Z.eqb_neq _ _) Hz). cbn [negb]. unfold ____rb_erase_color. wp_binds.
    iApply (wp_hole_fuel with "Hk"). iIntros (n Hn) "Hk".
    iApply (wp_wand with "[Hk]"); [iApply (wp_erase_color_loop n k' E 0 with "Hk"); [constructor|done..|lia|done]|].
    iIntros (_) "H". iFrame. by rw inorder_plug.
Qed.
End proofs.

(** * Properties *)

(** C22: Removal from a red-black tree: [rb_erase] of any node [a] returns, without a fault
    and within its fuel, and leaves a tree of the other nodes in their order, which obeys
    the red-black rules again; parents, children and colours are linked, the root's field
    is the tree's root, and no cell of the store outside the tree has changed. *)
Theorem rb_erase_exact s root t a b e :
  holds s root t -> red_black t -> inorder t = b ++ a :: e ->
  exists s' t', rb_erase a root s = Ok (tt, s') /\
    holds s' root t' /\ red_black t' /\ inorder t' = b ++ e /\
    dom s' = dom s /\ forall c, ~ tree_cell root (inorder t) c -> s' !! c = s !! c.
Proof.
  intros Hs Hr Hi. apply locate in Hi as (k & c & l & r & -> & -> & ->).
  edestruct (tree_sound (rb_erase a root) s root (plug k (N c l a r)) ∅
    (fun _ t x => inorder t = before k ++ inorder l ++ inorder r ++ after k /\ red_black t /\ x = ∅))
    as ([] & s' & t & x & E & D & (Hi & Hr' & ->) & Hh & _ & Hu); [done|apply map_empty_subseteq|set_solver|..].
  - intros Σ HΣ γ. iIntros "Hr Ht _". iApply (wp_wand with "[-]"); [by iApply (wp_rb_erase with "Hr Ht")|].
    iIntros (_) "[(%t & [%Hi %Hr'] & Hr & Ht) _]". iExists t, ∅. iFrame. by rw big_sepM_empty.
  - exists s', t. split_and!; try done; [by rw -app_assoc|]. intros c' Hc. apply Hu; [done|set_solver].
Qed.

(** Three black nodes: removing the left one takes a colour flip up to the root. *)
Definition three : nodes := list_to_map
  [((256, Rb_node), 8192);
   ((8192, Parent_color), 1); ((8192, Child Left), 4096); ((8192, Child Right), 12288);
   ((4096, Parent_color), 8193); ((4096, Child Left), 0); ((4096, Child Right), 0);
   ((12288, Parent_color), 8193); ((12288, Child Left), 0); ((12288, Child Right), 0)].

Lemma rb_erase_exact_witness :
  exists s' t', rb_erase 4096 256 three = Ok (tt, s') /\ holds s' 256 t' /\ red_black t' /\
    inorder t' = [8192; 12288] /\ s' !! (12288, Parent_color) = Some 8192.
Proof.
  destruct (rb_erase_exact three 256 (N Black (N Black E 4096 E) 8192 (N Black E 12288 E)) 4096 [] [8192; 12288])
    as (s' & t & R & Hh & Hr & Hi & _).
  - split; [done|]. split; [|by repeat (constructor; [set_solver|]); constructor].
    cbn. unfold valid, aligned. split_and!; done || lia.
  - by exists 2%nat; repeat econstructor.
  - done.
  - exists s', t. split_and!; try done. injection R as <-. by vm_compute.
Defined.
