(* ===== verification/KRbWalk.v ===== *)
(** * lib/rbtree.c: walking a tree and replacing a node

    The iteration in order and in postorder, and [rb_replace_node].  [rb_first] and
    [rb_last], and [rb_next] and [rb_prev], are mirror images; the loops take the side. *)

From S2P Require Import KRbtree.
Open Scope Z_scope.

(** [while (n->rb_left) n = n->rb_left; return n;] and the mirror image. *)
Fixpoint down_loop (fuel : nat) (d : side) (n : Z) : T Z :=
  match fuel with
  | O => die NoFuel
  | S fuel' =>
      c ← ld n (Child d);
      if negb (c =? 0) then down_loop fuel' d c else mret n
  end.

(** [rb_first] for the left, [rb_last] for the right. *)
Definition rb_end (d : side) (root : Z) : T Z :=
  n ← ld root Rb_node;
  if n =? 0 then mret 0 else fuel ← gets size_of; down_loop fuel d n.
Definition rb_first (root : Z) : T Z := rb_end Left root.
Definition rb_last (root : Z) : T Z := rb_end Right root.

(** [while ((parent = rb_parent(node)) && node == parent->rb_right) node = parent;
    return parent;] and the mirror image. *)
Fixpoint up_loop (fuel : nat) (d : side) (node : Z) : T Z :=
  match fuel with
  | O => die NoFuel
  | S fuel' =>
      parent ← rb_parent node;
      if negb (parent =? 0) then
        c ← ld parent (Child d);
        if node =? c then up_loop fuel' d parent else mret parent
      else mret parent
  end.

(** [rb_next] to the right, [rb_prev] to the left. *)
Definition rb_step (d : side) (node : Z) : T Z :=
  empty ← RB_EMPTY_NODE node;
  if empty : bool then mret 0
  else
    c ← ld node (Child d);
    fuel ← gets size_of;
    if negb (c =? 0) then down_loop fuel (opp d) c else up_loop fuel d node.
Definition rb_next (node : Z) : T Z := rb_step Right node.
Definition rb_prev (node : Z) : T Z := rb_step Left node.

Definition rb_replace_node (victim new root : Z) : T unit :=
  parent ← rb_parent victim;
  __rb_change_child victim new parent root;;
  l ← ld victim (Child Left);
  (if negb (l =? 0) then rb_set_parent l new else mret tt);;
  r ← ld victim (Child Right);
  (if negb (r =? 0) then rb_set_parent r new else mret tt);;
  pc ← ld victim Parent_color; st new Parent_color pc;;
  r ← ld victim (Child Right); st new (Child Right) r;;
  l ← ld victim (Child Left); st new (Child Left) l.

Fixpoint rb_left_deepest_node (fuel : nat) (node : Z) : T Z :=
  match fuel with
  | O => die NoFuel
  | S fuel' =>
      l ← ld node (Child Left);
      if negb (l =? 0) then rb_left_deepest_node fuel' l
      else
        r ← ld node (Child Right);
        if negb (r =? 0) then rb_left_deepest_node fuel' r else mret node
  end.

Definition rb_next_postorder (node : Z) : T Z :=
  if node =? 0 then mret 0
  else
    parent ← rb_parent node;
    right ←
      (if negb (parent =? 0) then
         l ← ld parent (Child Left);
         if node =? l then ld parent (Child Right) else mret 0
       else mret 0);
    if negb (right =? 0) then fuel ← gets size_of; rb_left_deepest_node fuel right else mret parent.

Definition rb_first_postorder (root : Z) : T Z :=
  n ← ld root Rb_node;
  if n =? 0 then mret 0 else fuel ← gets size_of; rb_left_deepest_node fuel n.

(** ** Orders *)

(** The first node from a side, NULL when there is none. *)
Definition end_of (d : side) (l : list Z) : Z := match d with Left => hd 0 l | Right => List.last l 0 end.
(** The nodes beside a hole. *)
Definition beside (d : side) (k : list frame) : list Z := match d with Left => before k | Right => after k end.

Fixpoint postorder (t : tree) : list Z :=
  match t with E => [] | N _ l a r => postorder l ++ postorder r ++ [a] end.
Fixpoint post_after (k : list frame) : list Z :=
  match k with
  | [] => []
  | Frame Left _ a o :: k => postorder o ++ a :: post_after k
  | Frame Right _ a _ :: k => a :: post_after k
  end.

Lemma last_app_ne (l l' : list Z) x : List.last (l ++ x :: l') 0 = List.last (x :: l') 0.
Proof.
  induction l as [|y l IH]; [done|]. cbn [app]. rw -IH. cbn. by destruct (l ++ x :: l') eqn:E; [destruct l|].
Qed.

Lemma end_of_mk d c x a y : end_of d (inorder (mk d c x a y)) = if decide (x = E) then a else end_of d (inorder x).
Proof.
  case_decide as Hx.
  - subst x. destruct d; cbn; [done|]. by rw last_app_ne.
  - assert (inorder x <> []) as Hne by (destruct x; [done|]; cbn; by destruct (inorder x1)).
    destruct d; cbn.
    + by destruct (inorder x).
    + destruct (inorder x) as [|b l]; [done|]. rw last_app_ne. change (a :: b :: l) with ([a] ++ b :: l). by rw last_app_ne.
Qed.

Lemma end_of_frame d d' c p o k : end_of (opp d) (beside d (Frame d' c p o :: k)) =
  if decide (d' = d) then end_of (opp d) (beside d k) else p.
Proof.
  case_decide; subst; [by destruct d|]. destruct d, d'; try done. cbn. by rw app_assoc last_app_ne.
Qed.

(** ** The walks *)

Section proofs.
Context {Σ : gFunctors} `{!ghost_mapG Σ (Z * field) Z} (γ : gname) (root : Z).
Local Notation "a ↦[ f ] v" := (a ↦[γ, f] v)%I (at level 20, f at level 50, format "a  ↦[ f ]  v") : bi_scope.

Lemma top_zero q t : t <> E -> in_store γ q t -∗ ⌜(top t =? 0) = false⌝.
Proof. destruct t as [|c l a r]; [done|]. iIntros (_) "([_ %Ha] & _)". iPureIntro. by apply Z.eqb_neq. Qed.

Lemma hole_zero k v : hole γ root k v -∗ ⌜k <> [] -> (par k =? 0) = false⌝.
Proof.
  destruct k as [|[d c a o] k]; [by iIntros "_"|]. iIntros "([_ %Ha] & _)". iPureIntro. intros _. by apply Z.eqb_neq.
Qed.

Lemma wp_down_loop n d q t : t <> E -> (length (inorder t) < n)%nat -> in_store γ q t -∗
  wp γ (down_loop n d (top t)) (fun r => ⌜r = end_of d (inorder t)⌝ ∗ in_store γ q t).
Proof.
  iIntros (Ht Hn) "Ht". iInduction n as [|n IH] forall (q t Ht Hn); [lia|]. destruct t as [|c l a r]; [done|].
  destruct (mk_side d c l a r) as (x & y & Exy). rw Exy. rw Exy in Hn. cbn [down_loop]. rw top_mk end_of_mk.
  iDestruct (in_store_mk with "Ht") as "(%Ha & Ha & Hx & Hy & Htx & Hty)". wp_ld. case_decide as Hx.
  - subst x. cbn. wp_ret. iSplit; [done|]. iApply in_store_mk. by iFrame "∗%".
  - iDestruct (top_zero with "Htx") as %->; [done|]. cbn [negb].
    iPoseProof ("IH" with "[//] [%] Htx") as "H". { destruct d; cbn in Hn; rw length_app in Hn; cbn in Hn; lia. }
    iApply (wp_wand with "H"). iIntros (v) "[$ Htx]". iApply in_store_mk. by iFrame "∗%".
Qed.

Lemma wp_up_loop n d k a c : a <> 0 -> (length k < n)%nat ->
  hole γ root k a -∗ a ↦[Parent_color] pack (par k) c -∗
  wp γ (up_loop n d a) (fun r => ⌜r = end_of (opp d) (beside d k)⌝ ∗ hole γ root k a ∗ a ↦[Parent_color] pack (par k) c).
Proof.
  iIntros (Ha Hn) "Hk Ha". iInduction n as [|n IH] forall (k a c Ha Hn); [lia|]. cbn [up_loop].
  iDestruct (hole_aligned with "Hk") as %Hpar. iDestruct (hole_zero with "Hk") as %Hz.
  unfold rb_parent at 1. wp_ld. wp_ret. rw parent_pack //. destruct k as [|[d' c' p o] k].
  - cbn. wp_ret. iFrame. by destruct d.
  - rw Hz //. cbn [negb]. rw end_of_frame. iDestruct "Hk" as "(%Hp & Hp & Hpd & Hpo & Ho & Hk)". cbn [par].
    case_decide as Hd.
    + subst d'. wp_ld. rw Z.eqb_refl. iPoseProof ("IH" with "[%] [%] Hk Hp") as "H"; [apply Hp|cbn in Hn; lia|].
      iApply (wp_wand with "H"). iIntros (r) "($ & Hk & Hp)". by iFrame "∗%".
    + assert (d = opp d') as -> by (by destruct d, d'). wp_ld. iDestruct (top_ne with "Ho Ha") as %Hne; [done|].
      rw (proj2 (Z.eqb_neq a _)); [|done]. wp_ret. iSplit; [done|]. by iFrame "∗%".
Qed.

(** The parent is another node. *)
Lemma parent_ne k v a x : a <> 0 -> hole γ root k v -∗ a ↦[Parent_color] x -∗ ⌜par k <> a⌝.
Proof.
  iIntros (Ha) "Hk Ha". destruct k as [|[d c p o] k]; cbn; [by iPureIntro|]. iDestruct "Hk" as "(_ & Hp & _)".
  iApply (field_ne with "Hp Ha").
Qed.

Lemma wp_rb_step d k c x a y :
  hole γ root k a -∗ in_store γ (par k) (mk d c x a y) -∗
  wp γ (rb_step d a) (fun r => ⌜r = end_of (opp d) (match d with Left => before k ++ inorder x | Right => inorder x ++ after k end)⌝ ∗
    hole γ root k a ∗ in_store γ (par k) (mk d c x a y)).
Proof.
  iIntros "Hk Ht". iDestruct (in_store_mk with "Ht") as "(%Ha & Ha & Hax & Hay & Hx & Hy)".
  iDestruct (hole_aligned with "Hk") as %Hpar. iDestruct (parent_ne with "Hk Ha") as %Hne; [apply Ha|].
  unfold rb_step, RB_EMPTY_NODE. wp_ld. wp_ret.
  assert (pack (par k) c <> a) as Hp.
  { intros Hp. apply Hne. rw -(parent_pack (par k) c) // Hp -{1}(pack_red a). apply parent_pack, Ha. }
  rw (proj2 (Z.eqb_neq _ _) Hp). wp_ld. destruct (decide (x = E)) as [->|Hx].
  - wp_binds. iApply (wp_hole_fuel with "Hk"). iIntros (n Hn) "Hk". cbn [top negb]. rw Z.eqb_refl. cbn [negb].
    iApply (wp_wand with "[Hk Ha]"); [iApply (wp_up_loop n d k a c with "Hk Ha"); [apply Ha|done]|].
    iIntros (r) "(-> & Hk & Ha)". iSplit; [iPureIntro; destruct d; cbn; by rw ?app_nil_r|]. iFrame.
    iApply in_store_mk. by iFrame "∗%".
  - wp_binds. iApply (wp_tree_fuel with "Hx"). iIntros (n Hn) "Hx". iDestruct (top_zero with "Hx") as %->; [done|]. cbn [negb].
    iApply (wp_wand with "[Hx]"); [by iApply (wp_down_loop n (opp d) a x with "Hx")|]. iIntros (r) "[-> Hx]". iSplit.
    + iPureIntro. assert (inorder x <> []) as Hi by (destruct x; [done|]; cbn; by destruct (inorder x1)).
      destruct d; cbn; [|by destruct (inorder x)]. destruct (inorder x); [done|]. by rw last_app_ne.
    + iFrame. iApply in_store_mk. by iFrame "∗%".
Qed.

Lemma wp_rb_end d t : root ↦[Rb_node] top t -∗ in_store γ 0 t -∗
  wp γ (rb_end d root) (fun r => ⌜r = end_of d (inorder t)⌝ ∗ root ↦[Rb_node] top t ∗ in_store γ 0 t).
Proof.
  iIntros "Hr Ht". unfold rb_end. wp_ld. destruct (decide (t = E)) as [->|Ht].
  - cbn. wp_ret. iFrame. by destruct d.
  - iDestruct (top_zero with "Ht") as %->; [done|]. wp_binds. iApply (wp_tree_fuel with "Ht"). iIntros (n Hn) "Ht".
    iApply (wp_wand with "[Ht]"); [by iApply (wp_down_loop n d 0 t with "Ht")|]. iIntros (r) "[-> Ht]". by iFrame.
Qed.

Lemma postorder_last t : t <> E -> exists l, postorder t = l ++ [top t].
Proof. destruct t as [|c l a r]; [done|]. intros _. exists (postorder l ++ postorder r). cbn. by rw app_assoc. Qed.

Lemma hd_app (l l' : list Z) : l <> [] -> hd 0 (l ++ l') = hd 0 l.
Proof. by destruct l. Qed.

Lemma postorder_ne t : t <> E -> postorder t <> [].
Proof. intros Ht. destruct (postorder_last t Ht) as [l ->]. by destruct l. Qed.

Lemma wp_left_deepest n q t : t <> E -> (length (inorder t) < n)%nat -> in_store γ q t -∗
  wp γ (rb_left_deepest_node n (top t)) (fun r => ⌜r = hd 0 (postorder t)⌝ ∗ in_store γ q t).
Proof.
  iIntros (Ht Hn) "Ht". iInduction n as [|n IH] forall (q t Ht Hn); [lia|]. destruct t as [|c l a r]; [done|].
  cbn [rb_left_deepest_node top postorder]. iDestruct "Ht" as "(%Ha & Ha & Hal & Har & Hl & Hr)".
  cbn [inorder] in Hn. rw length_app in Hn. cbn in Hn. wp_ld. destruct (decide (l = E)) as [->|Hl].
  - cbn [top]. rw Z.eqb_refl. cbn [negb]. wp_ld. destruct (decide (r = E)) as [->|Hr].
    + cbn. wp_ret. iSplit; [done|]. by iFrame.
    + iDestruct (top_zero with "Hr") as %->; [done|]. cbn [negb postorder app]. rw hd_app; [|by apply postorder_ne].
      iPoseProof ("IH" with "[//] [%] Hr") as "H"; [lia|]. iApply (wp_wand with "H"). iIntros (v) "[$ Hr]".
      cbn [in_store]. by iFrame.
  - iDestruct (top_zero with "Hl") as %->; [done|]. cbn [negb]. rw hd_app; [|by apply postorder_ne].
    iPoseProof ("IH" with "[//] [%] Hl") as "H"; [lia|]. iApply (wp_wand with "H"). iIntros (v) "[$ Hl]".
    cbn [in_store]. by iFrame.
Qed.

Lemma wp_next_postorder k c l a r :
  hole γ root k a -∗ in_store γ (par k) (N c l a r) -∗
  wp γ (rb_next_postorder a) (fun v => ⌜v = hd 0 (post_after k)⌝ ∗ hole γ root k a ∗ in_store γ (par k) (N c l a r)).
Proof.
  iIntros "Hk (%Ha & Ha & Ht)". iDestruct (hole_aligned with "Hk") as %Hpar. iDestruct (hole_zero with "Hk") as %Hz.
  unfold rb_next_postorder, rb_parent. rw (proj2 (Z.eqb_neq a 0) (proj2 Ha)). wp_ld. wp_ret. rw parent_pack //.
  destruct k as [|[d c' p o] k].
  - cbn. wp_ret. wp_ret. by iFrame "∗%".
  - rw Hz //. cbn [negb]. iDestruct "Hk" as "(%Hp & Hp & Hpd & Hpo & Ho & Hk)". cbn [par]. destruct d; cbn [opp post_after].
    + wp_ld. rw Z.eqb_refl. wp_ld. destruct (decide (o = E)) as [->|Ho].
      * cbn [top]. rw Z.eqb_refl. cbn [negb]. wp_ret. iSplit; [done|]. by iFrame "∗%".
      * iDestruct (top_zero with "Ho") as %->; [done|]. cbn [negb]. wp_binds. iApply (wp_tree_fuel with "Ho"). iIntros (n Hn) "Ho".
        iApply (wp_wand with "[Ho]"); [by iApply (wp_left_deepest n p o with "Ho")|]. iIntros (v) "[-> Ho]".
        iSplit; [iPureIntro; rw hd_app //; by apply postorder_ne|]. by iFrame "∗%".
    + wp_ld. iDestruct (top_ne with "Ho Ha") as %Hne; [apply Ha|]. rw (proj2 (Z.eqb_neq a _)); [|done]. wp_ret.
      cbn. wp_ret. iSplit; [done|]. by iFrame "∗%".
Qed.

Lemma wp_first_postorder t : root ↦[Rb_node] top t -∗ in_store γ 0 t -∗
  wp γ (rb_first_postorder root) (fun r => ⌜r = hd 0 (postorder t)⌝ ∗ root ↦[Rb_node] top t ∗ in_store γ 0 t).
Proof.
  iIntros "Hr Ht". unfold rb_first_postorder. wp_ld. destruct (decide (t = E)) as [->|Ht].
  - cbn. wp_ret. by iFrame.
  - iDestruct (top_zero with "Ht") as %->; [done|]. wp_binds. iApply (wp_tree_fuel with "Ht"). iIntros (n Hn) "Ht".
    iApply (wp_wand with "[Ht]"); [by iApply (wp_left_deepest n 0 t with "Ht")|]. iIntros (r) "[-> Ht]". by iFrame.
Qed.

Lemma wp_replace_node k c l a r new :
  valid new -> hole γ root k a -∗ in_store γ (par k) (N c l a r) -∗
  (∃ v, new ↦[Parent_color] v) -∗ (∃ v, new ↦[Child Left] v) -∗ (∃ v, new ↦[Child Right] v) -∗
  wp γ (rb_replace_node a new root) (fun _ => hole γ root k new ∗ in_store γ (par k) (N c l new r) ∗
    a ↦[Parent_color] pack (par k) c ∗ a ↦[Child Left] top l ∗ a ↦[Child Right] top r).
Proof.
  iIntros (Hnew) "Hk (%Ha & Ha & Hal & Har & Hl & Hr) (%v1 & Hn) (%v2 & Hnl) (%v3 & Hnr)".
  iDestruct (hole_aligned with "Hk") as %Hpar. unfold rb_replace_node, rb_parent. wp_ld. wp_ret. rw parent_pack //.
  wp_binds. iApply (wp_change_child with "Hk Ha"); [apply Ha|]. iIntros "Hk Ha".
  wp_ld. wp_binds. iApply (wp_set_parent with "Hl"); [apply Ha|]. iIntros "Hl".
  wp_ld. wp_binds. iApply (wp_set_parent with "Hr"); [apply Ha|]. iIntros "Hr".
  wp_ld. wp_st. wp_ld. wp_st. wp_ld. wp_st. cbn [in_store]. by iFrame.
Qed.
End proofs.

(** * Properties *)

(** The node [a] at the hole of [k]. *)
Lemma step_sound s root k c l a r : holds s root (plug k (N c l a r)) ->
  rb_next a s = Ok (hd 0 (inorder r ++ after k), s) /\
  rb_prev a s = Ok (List.last (before k ++ inorder l) 0, s) /\
  rb_next_postorder a s = Ok (hd 0 (post_after k), s).
Proof.
  intros Hs.
  assert (forall (f : T Z) v,
    (forall (Σ : gFunctors) (HΣ : ghost_mapG Σ (Z * field) Z) (γ : gname),
      hole γ root k a -∗ in_store γ (par k) (N c l a r) -∗
      wp γ f (fun x => ⌜x = v⌝ ∗ hole γ root k a ∗ in_store γ (par k) (N c l a r))) -> f s = Ok (v, s)) as H.
  { intros f v Hf. destruct (read_sound f s root _ (fun x => x = v) Hs) as (x & E & ->); [|done]. intros Σ HΣ γ.
    iIntros "Hr Ht". iDestruct (plug_hole with "Hr Ht") as "[Hk Ht]". iApply (wp_wand with "[Hk Ht]"); [iApply (Hf with "Hk Ht")|].
    iIntros (x) "($ & Hk & Ht)". iApply (hole_plug γ root k (N c l a r) with "Hk Ht"). }
  split_and!; apply H; intros Σ HΣ γ; iIntros "Hk Ht".
  - iApply (wp_rb_step γ root Right k c r a l with "Hk Ht").
  - iApply (wp_rb_step γ root Left k c l a r with "Hk Ht").
  - iApply (wp_next_postorder with "Hk Ht").
Qed.

Lemma postorder_plug k t : exists b, postorder (plug k t) = b ++ postorder t ++ post_after k.
Proof.
  revert t. induction k as [|[[] c a o] k IH]; intros t; cbn; [exists []; by rw app_nil_r|..].
  - destruct (IH (N c t a o)) as [b ->]. exists b. cbn. by rw -!app_assoc.
  - destruct (IH (N c o a t)) as [b ->]. exists (b ++ postorder o). cbn. by rw -!app_assoc.
Qed.

Lemma postorder_inorder t : postorder t ≡ₚ inorder t.
Proof.
  induction t as [|c l IHl a r IHr]; [done|]. cbn. rw IHl IHr. by rw (Permutation_app_comm (inorder r)).
Qed.

Lemma nodup_split (a : Z) b e b' e' : NoDup (b ++ a :: e) -> b ++ a :: e = b' ++ a :: e' -> e = e'.
Proof.
  revert b'. induction b as [|x b IH]; intros [|x' b'] Hd E; cbn in *; injection E; intros; subst; try done.
  - exfalso. apply NoDup_cons in Hd as [Hd _]. apply Hd. rw elem_of_app. right. by left.
  - exfalso. apply NoDup_cons in Hd as [Hd _]. apply Hd. rw elem_of_app. right. by left.
  - eapply IH; [|done]. by apply NoDup_cons in Hd as [_ Hd].
Qed.

Lemma locate_postorder t a b e : NoDup (inorder t) -> postorder t = b ++ a :: e ->
  exists k c l r, t = plug k (N c l a r) /\ e = post_after k.
Proof.
  intros Hd E. assert (a ∈ inorder t) as Ha by (rw -postorder_inorder E elem_of_app; right; by left).
  apply list_elem_of_split in Ha as (b1 & e1 & Hi). destruct (locate t a b1 e1 Hi) as (k & c & l & r & -> & _).
  exists k, c, l, r. split; [done|]. destruct (postorder_plug k (N c l a r)) as [b2 E2]. cbn in E2.
  apply (nodup_split a b e (b2 ++ postorder l ++ postorder r)).
  - by rw -E postorder_inorder.
  - rw -E E2. by repeat (rw -!app_assoc; cbn).
Qed.

(** C24: Walking a tree: [rb_first] and [rb_last] return the ends of the tree's order,
    [rb_next] and [rb_prev] of a node the nodes beside it in that order, [NULL] at the
    ends; [rb_first_postorder] and [rb_next_postorder] run through the nodes in
    postorder, children before their parents.  None of them faults, runs out of fuel or
    changes the store, whatever the colours are. *)
Theorem rb_iteration s root t : holds s root t ->
  rb_first root s = Ok (hd 0 (inorder t), s) /\
  rb_last root s = Ok (List.last (inorder t) 0, s) /\
  (forall b a e, inorder t = b ++ a :: e ->
    rb_next a s = Ok (hd 0 e, s) /\ rb_prev a s = Ok (List.last b 0, s)) /\
  rb_first_postorder root s = Ok (hd 0 (postorder t), s) /\
  (forall b a e, postorder t = b ++ a :: e -> rb_next_postorder a s = Ok (hd 0 e, s)).
Proof.
  intros Hs.
  assert (forall d, rb_end d root s = Ok (end_of d (inorder t), s)) as Hend.
  { intros d. destruct (read_sound (rb_end d root) s root t (fun x => x = end_of d (inorder t)) Hs) as (x & E & ->); [|done].
    intros Σ HΣ γ. apply wp_rb_end. }
  split_and!; [apply (Hend Left)|apply (Hend Right)|..].
  - intros b a e Hi. apply locate in Hi as (k & c & l & r & -> & -> & ->). destruct (step_sound s root k c l a r Hs) as (? & ? & _). done.
  - destruct (read_sound (rb_first_postorder root) s root t (fun x => x = hd 0 (postorder t)) Hs) as (x & E & ->); [|done].
    intros Σ HΣ γ. apply wp_first_postorder.
  - intros b a e Hi. apply locate_postorder in Hi as (k & c & l & r & -> & ->); [|by destruct Hs as (_ & _ & ?)].
    by destruct (step_sound s root k c l a r Hs) as (_ & _ & ?).
Qed.

(** 4096 and 12288 below 8192. *)
Definition small : nodes := list_to_map
  [((256, Rb_node), 8192);
   ((8192, Parent_color), 1); ((8192, Child Left), 4096); ((8192, Child Right), 12288);
   ((4096, Parent_color), 8192); ((4096, Child Left), 0); ((4096, Child Right), 0);
   ((12288, Parent_color), 8192); ((12288, Child Left), 0); ((12288, Child Right), 0);
   ((16384, Parent_color), 7); ((16384, Child Left), 7); ((16384, Child Right), 7)].
Definition small_tree : tree := N Black (N Red E 4096 E) 8192 (N Red E 12288 E).

Lemma small_holds : holds small 256 small_tree.
Proof.
  split; [done|]. split; [|by repeat (constructor; [set_solver|]); constructor].
  cbn. unfold valid, aligned. split_and!; done || lia.
Qed.

Lemma rb_iteration_witness :
  rb_first 256 small = Ok (4096, small) /\ rb_next 4096 small = Ok (8192, small) /\
  rb_next 12288 small = Ok (0, small) /\ rb_next_postorder 4096 small = Ok (12288, small).
Proof.
  destruct (rb_iteration small 256 small_tree small_holds) as (H1 & _ & H2 & _ & H3). split_and!.
  - exact H1.
  - apply (H2 [] 4096 [8192; 12288]). done.
  - apply (H2 [4096; 8192] 12288 []). done.
  - apply (H3 [] 4096 [12288; 8192]). done.
Defined.

(** [rb_replace_node] puts [new] in the place of the node [a]: the tree has the same
    shape and colours with [new] for [a], it is linked, the red-black rules hold as
    before, and no cell of the store outside the tree and [new] has changed. *)
Theorem rb_replace_exact s root k c l a r new :
  holds s root (plug k (N c l a r)) -> valid new -> new ∉ inorder (plug k (N c l a r)) ->
  (forall f, node_field f = true -> is_Some (s !! (new, f))) ->
  exists s', rb_replace_node a new root s = Ok (tt, s') /\
    holds s' root (plug k (N c l new r)) /\
    (red_black (plug k (N c l a r)) -> red_black (plug k (N c l new r))) /\ dom s' = dom s /\
    forall x, ~ tree_cell root (inorder (plug k (N c l a r))) x -> ~ (x.1 = new /\ node_field x.2 = true) -> s' !! x = s !! x.
Proof.
  intros Hs Hn Hout Hf.
  destruct (Hf Parent_color) as [v1 E1]; [done|]. destruct (Hf (Child Left)) as [v2 E2]; [done|].
  destruct (Hf (Child Right)) as [v3 E3]; [done|].
  edestruct (tree_sound (rb_replace_node a new root) s root _ (node_cells new v1 v2 v3)
    (fun _ t x => t = plug k (N c l new r) /\ x = ∅) Hs) as ([] & s' & t & x & E & D & (-> & ->) & Hh & _ & Hu).
  - repeat apply map_union_least; by apply map_singleton_subseteq_l.
  - intros y Hy Hy'. apply node_cells_dom in Hy' as [<- Hy']. destruct Hy as [->|[? _]]; done.
  - intros Σ HΣ γ. iIntros "Hr Ht Hx". iDestruct (node_cells_own with "Hx") as "(Hp & Hl & Hr')".
    iDestruct (plug_hole with "Hr Ht") as "[Hk Ht]".
    iApply (wp_wand with "[-]"); [iApply (wp_replace_node with "Hk Ht [Hp] [Hl] [Hr']"); [done|by iExists _..]|].
    iIntros (_) "(Hk & Ht & _)". iDestruct (hole_plug γ root k (N c l new r) with "Hk Ht") as "[Hr Ht]".
    iExists _, ∅. iFrame. by rw big_sepM_empty.
  - exists s'. split_and!; try done.
    + intros [n Hr]. apply unplug in Hr as (c' & m & Hr & Hk); [|done]. eapply rb_plug; [|done].
      inversion Hr; subst; by econstructor.
    + intros y Hy Hy'. apply Hu; [done|]. intros Hin. apply Hy'. by apply node_cells_dom in Hin.
Qed.

(** 16384 for 4096. *)
Lemma rb_replace_exact_witness :
  exists s', rb_replace_node 4096 16384 256 small = Ok (tt, s') /\
    holds s' 256 (N Black (N Red E 16384 E) 8192 (N Red E 12288 E)).
Proof.
  destruct (rb_replace_exact small 256 [Frame Left Black 8192 (N Red E 12288 E)] Red E 4096 E 16384) as (s' & R & Hh & _).
  - apply small_holds.
  - split; [split; done|lia].
  - cbn. set_solver.
  - by intros [| [] | | |]; try discriminate; eexists.
  - exists s'. split; [exact R|exact Hh].
Defined.
