(* ===== verification/KTimerqueue.v ===== *)
(** * lib/timerqueue.c: queues of timers

    A red-black tree of timers ordered by their time, with the earliest one cached in the
    head.  A [struct rb_node] is the first member of a timer and a [struct rb_root] that
    of the head, so the addresses are the same.  The queue is specified as a list. *)

From stdpp Require Import sorting.
From S2P Require Import KRbtree KRbInsert KRbErase KRbWalk.
Open Scope Z_scope.

(** [while ( *p ) ...]; [p] points to a field; what is returned is [p] and [parent]. *)
Fixpoint add_loop (fuel : nat) (node : Z) (p : Z * field) (parent : Z) : T ((Z * field) * Z) :=
  match fuel with
  | O => die NoFuel
  | S fuel' =>
      v ← ld p.1 p.2;
      if negb (v =? 0) then
        let parent := v in
        e ← ld node Expires;
        e' ← ld parent Expires;
        v ← ld p.1 p.2;
        if e <? e' then add_loop fuel' node (v, Child Left) parent
        else add_loop fuel' node (v, Child Right) parent
      else mret (p, parent)
  end.

Definition timerqueue_add (head node : Z) : T unit :=
  _ ← RB_EMPTY_NODE node;   (* WARN_ON_ONCE *)
  fuel ← gets size_of;
  '(p, parent) ← add_loop fuel node (head, Rb_node) 0;
  rb_link_node node parent p;;
  rb_insert_color node head;;
  next ← ld head Next;
  first ← (if next =? 0 then mret true else
             e ← ld node Expires; next ← ld head Next; e' ← ld next Expires; mret (e <? e'));
  if first : bool then st head Next node else mret tt.

Definition timerqueue_del (head node : Z) : T unit :=
  _ ← RB_EMPTY_NODE node;   (* WARN_ON_ONCE *)
  next ← ld head Next;
  (if next =? node then
     rbn ← rb_next node;
     st head Next (if negb (rbn =? 0) then rbn else 0)
   else mret tt);;
  rb_erase node head;;
  RB_CLEAR_NODE node.

Definition timerqueue_iterate_next (node : Z) : T Z :=
  if node =? 0 then mret 0
  else next ← rb_next node; if next =? 0 then mret 0 else mret next.

Definition timerqueue_getnext (head : Z) : T Z := ld head Next.
Definition timerqueue_init (node : Z) : T unit := RB_CLEAR_NODE node.
Definition timerqueue_init_head (head : Z) : T unit := st head Rb_node 0;; st head Next 0.

(** ** The specification *)

Section queue.
Context (τ : Z -> Z).   (* the time of a timer *)

(** A queue is the list of its timers, by time; a timer goes behind those of its time. *)
Fixpoint enqueue (n : Z) (l : list Z) : list Z :=
  match l with
  | [] => [n]
  | a :: l' => if τ n <? τ a then n :: l else a :: enqueue n l'
  end.
Definition dequeue (n : Z) (l : list Z) : list Z := filter (fun a => a <> n) l.
Definition by_time (a b : Z) : Prop := τ a <= τ b.

(** The store holds the queue [l] under [head]. *)
Definition queue (s : nodes) (head : Z) (l : list Z) : Prop :=
  (exists t, holds s head t /\ red_black t /\ inorder t = l) /\ StronglySorted by_time l /\
  s !! (head, Next) = Some (hd 0 l) /\ forall a, a ∈ l -> s !! (a, Expires) = Some (τ a).

Lemma enqueue_split n b e : (forall a, a ∈ b -> τ a <= τ n) -> (forall a, a ∈ e -> τ n < τ a) ->
  enqueue n (b ++ e) = b ++ n :: e.
Proof.
  intros Hb He. induction b as [|x b IH]; cbn.
  - destruct e as [|y e]; [done|]. cbn. by rw (proj2 (Z.ltb_lt _ _) (He y ltac:(left))).
  - rw (proj2 (Z.ltb_ge _ _) (Hb x ltac:(left))). rw IH //. intros a Ha. apply Hb. by right.
Qed.

Lemma enqueue_perm n l : enqueue n l ≡ₚ n :: l.
Proof.
  induction l as [|a l IH]; [done|]. cbn. destruct (τ n <? τ a); [done|]. rw IH. by constructor.
Qed.

Lemma enqueue_sorted n l : StronglySorted by_time l -> StronglySorted by_time (enqueue n l).
Proof.
  induction 1 as [|a l Hl IH Ha]; cbn; [by repeat constructor|]. rw Forall_forall in Ha.
  destruct (Z.ltb_spec (τ n) (τ a)) as [Hlt|Hge].
  - constructor; [by constructor; [|apply Forall_forall]|]. constructor; [unfold by_time; lia|].
    apply Forall_forall. intros x Hx. specialize (Ha x Hx). unfold by_time in *. lia.
  - constructor; [done|]. apply Forall_forall. intros x. rw enqueue_perm elem_of_cons. intros [->|Hx]; [done|by apply Ha].
Qed.

Lemma dequeue_notin n l : n ∉ l -> dequeue n l = l.
Proof.
  unfold dequeue. induction l as [|a l IH]; [done|]. intros Hn. rw not_elem_of_cons in Hn.
  rw filter_cons_True; [|naive_solver]. by rw IH; [|tauto].
Qed.

Lemma dequeue_split n b e : NoDup (b ++ n :: e) -> dequeue n (b ++ n :: e) = b ++ e.
Proof.
  intros Hd. apply NoDup_app in Hd as (_ & Hbe & [Hn _]%NoDup_cons).
  assert (n ∉ b) as Hb by (intros Hin; apply (Hbe n Hin); left).
  rw -{2}(dequeue_notin n b Hb) -{2}(dequeue_notin n e Hn). unfold dequeue.
  rw filter_app filter_cons_False //. by intros [].
Qed.

Lemma sorted_without n b e : StronglySorted by_time (b ++ n :: e) -> StronglySorted by_time (b ++ e).
Proof.
  rw !StronglySorted_app StronglySorted_cons. intros (Hbe & Hb & _ & He). split_and!; try done.
  intros x y Hx Hy. apply Hbe; [done|by right].
Qed.

(** ** The cells beside the tree *)

Definition timer_cells (head next : Z) (l : list Z) : nodes :=
  {[(head, Next) := next]} ∪ list_to_map ((fun a => ((a, Expires), τ a)) <$> l).

Lemma timer_cells_sub s head next l : s !! (head, Next) = Some next -> (forall a, a ∈ l -> s !! (a, Expires) = Some (τ a)) ->
  timer_cells head next l ⊆ s.
Proof.
  intros Hn Ha. apply map_union_least; [by apply map_singleton_subseteq_l|]. apply map_subseteq_spec.
  intros k v Hk%elem_of_list_to_map_2. apply list_elem_of_fmap in Hk as (a & [= -> ->] & Hin). by apply Ha.
Qed.

Lemma timer_cells_lookup s head next l : NoDup l -> timer_cells head next l ⊆ s ->
  s !! (head, Next) = Some next /\ forall a, a ∈ l -> s !! (a, Expires) = Some (τ a).
Proof.
  intros Hd Hs. split.
  - eapply lookup_weaken; [|exact Hs]. unfold timer_cells. by rw lookup_union_l' ?lookup_singleton_eq.
  - intros a Ha. eapply lookup_weaken; [|exact Hs]. unfold timer_cells.
    rw lookup_union_r; [|by rw lookup_singleton_ne]. apply elem_of_list_to_map_1.
    + rw -list_fmap_compose. by apply NoDup_fmap_2; [intros ? ? [= ->]|].
    + apply list_elem_of_fmap. by exists a.
Qed.

Lemma timer_cells_dom head next l k : k ∈ dom (timer_cells head next l) -> k = (head, Next) \/ k.1 ∈ l /\ k.2 = Expires.
Proof.
  unfold timer_cells. rw dom_union_L dom_singleton_L elem_of_union elem_of_singleton dom_list_to_map_L.
  intros [->|Hk]; [by left|right]. rw elem_of_list_to_set -list_fmap_compose in Hk.
  apply list_elem_of_fmap in Hk as (a & -> & Ha). done.
Qed.

(** They are no cells of the tree. *)
Lemma timer_cells_tree head next l l' k : tree_cell head l' k -> k ∉ dom (timer_cells head next l).
Proof. intros [->|[_ Hk]] [E|[_ Hin]]%timer_cells_dom; [done..|by rw E in Hk|by rw Hin in Hk]. Qed.
Lemma timer_cells_node head next l n pc x y : timer_cells head next l ##ₘ node_cells n pc x y.
Proof.
  apply tree_cells_disjoint. intros k [->|[_ Hk]]%timer_cells_dom [_ Hk']%node_cells_dom; [done|]. by rw Hk in Hk'.
Qed.

(** ** The operations *)

Section proofs.
Context {Σ : gFunctors} `{!ghost_mapG Σ (Z * field) Z} (γ : gname) (head : Z).
Local Notation "a ↦[ f ] v" := (a ↦[γ, f] v)%I (at level 20, f at level 50, format "a  ↦[ f ]  v") : bi_scope.

Definition times (l : list Z) : iProp Σ := [∗ list] a ∈ l, a ↦[Expires] τ a.

Lemma timer_cells_own next l : NoDup l -> ([∗ map] k ↦ v ∈ timer_cells head next l, k ↪[γ] v) ⊣⊢ head ↦[Next] next ∗ times l.
Proof.
  intros Hd. unfold timer_cells, times. rw big_sepM_union.
  - rw big_sepM_singleton big_sepM_list_to_map; [by rw big_sepL_fmap|].
    rw -list_fmap_compose. by apply NoDup_fmap_2; [intros ? ? [= ->]|].
  - apply tree_cells_disjoint. intros k. rw dom_singleton_L elem_of_singleton dom_list_to_map_L elem_of_list_to_set -list_fmap_compose.
    intros -> (a & E & _)%list_elem_of_fmap. done.
Qed.

Lemma times_perm l l' : l ≡ₚ l' -> times l ⊣⊢ times l'.
Proof. intros E. unfold times. by rw E. Qed.

Lemma times_acc l a : a ∈ l -> times l -∗ a ↦[Expires] τ a ∗ (a ↦[Expires] τ a -∗ times l).
Proof. intros [i Hi]%list_elem_of_lookup. iIntros "Hl". by iApply (big_sepL_lookup_acc with "Hl"). Qed.

Lemma wp_expires l a Φ : a ∈ l -> times l -∗ (times l -∗ Φ (τ a)) -∗ wp γ (ld a Expires) Φ.
Proof.
  iIntros (Ha) "Hl HΦ". iDestruct (times_acc l a Ha with "Hl") as "[Ha Hl]". wp_ld. iApply "HΦ". by iApply "Hl".
Qed.

Lemma wp_ld_link k v Φ : hole γ head k v -∗ (hole γ head k v -∗ Φ v) -∗ wp γ (ld (link head k).1 (link head k).2) Φ.
Proof.
  iIntros "Hk HΦ". destruct k as [|[d c a o] k]; cbn [link fst snd hole]; [wp_ld; by iApply "HΦ"|].
  iDestruct "Hk" as "(% & ? & Hd & ?)". wp_ld. iApply "HΦ". by iFrame.
Qed.

(** The search: what is left of the hole is not later than [x], what is right of it is. *)
Definition place (x : Z) (k : list frame) : Prop :=
  (forall a, a ∈ before k -> τ a <= τ x) /\ (forall a, a ∈ after k -> τ x < τ a).

Lemma place_left x k c l a r : place x k -> StronglySorted by_time (before k ++ inorder (N c l a r) ++ after k) ->
  τ x < τ a -> place x (Frame Left c a r :: k).
Proof.
  intros [Hb Ha] Hs Hlt. split; [done|]. cbn. intros y [->|[Hy|Hy]%elem_of_app]%elem_of_cons; [done| |by apply Ha].
  enough (by_time a y) by (unfold by_time in *; lia). cbn in Hs.
  eapply (StronglySorted_app_1_elem_of by_time (before k ++ inorder l ++ [a]) (inorder r ++ after k)).
  - by repeat (rw -!app_assoc; cbn); repeat (rw -!app_assoc in Hs; cbn in Hs).
  - rw !elem_of_app. right. right. left.
  - rw elem_of_app. by left.
Qed.

Lemma place_right x k c l a r : place x k -> StronglySorted by_time (before k ++ inorder (N c l a r) ++ after k) ->
  τ a <= τ x -> place x (Frame Right c a l :: k).
Proof.
  intros [Hb Ha] Hs Hle. split; [|done]. cbn. intros y [Hy|[Hy|Hy%list_elem_of_singleton]%elem_of_app]%elem_of_app; [by apply Hb| |by subst].
  enough (by_time y a) by (unfold by_time in *; lia). cbn in Hs.
  eapply (StronglySorted_app_1_elem_of by_time (before k ++ inorder l) (a :: inorder r ++ after k)).
  - by repeat (rw -!app_assoc; cbn); repeat (rw -!app_assoc in Hs; cbn in Hs).
  - rw elem_of_app. by right.
  - left.
Qed.

Lemma wp_add_loop n k t x l : (height t < n)%nat -> x ∈ l -> (forall a, a ∈ inorder t -> a ∈ l) ->
  place x k -> StronglySorted by_time (before k ++ inorder t ++ after k) ->
  hole γ head k (top t) -∗ in_store γ (par k) t -∗ times l -∗
  wp γ (add_loop n x (link head k) (par k)) (fun r => ∃ k', ⌜r = (link head k', par k') /\ place x k' /\ plug k' E = plug k t⌝ ∗
    hole γ head k' 0 ∗ times l).
Proof.
  iIntros (Hn Hx Hl Hp Hs) "Hk Ht Hτ". iInduction n as [|n IH] forall (k t Hn Hl Hp Hs); [lia|]. cbn [add_loop]. wp_binds.
  iApply (wp_ld_link with "Hk"). iIntros "Hk". destruct t as [|c tl a tr]; cbn [top].
  - cbn. wp_ret. iExists k. by iFrame.
  - iDestruct "Ht" as "(%Ha & Ha & Hal & Har & Htl & Htr)". rw (proj2 (Z.eqb_neq _ _) (proj2 Ha)). cbn [negb].
    wp_binds. iApply (wp_expires with "Hτ"); [done|]. iIntros "Hτ". wp_binds.
    assert (a ∈ l) as Hal by (apply Hl; cbn; rw elem_of_app; right; left).
    iApply (wp_expires with "Hτ"); [done|]. iIntros "Hτ". wp_binds. iApply (wp_ld_link with "Hk"). iIntros "Hk".
    cbn [height] in Hn. destruct (Z.ltb_spec (τ x) (τ a)) as [Hlt|Hge].
    + iApply ("IH" $! (Frame Left c a tr :: k) tl with "[%] [%] [%] [%] [-Htl Hτ] Htl Hτ"); [lia| | | |by iFrame].
      * intros y Hy. apply Hl. cbn. rw elem_of_app. by left.
      * by eapply place_left.
      * cbn in *. by repeat (rw -!app_assoc in Hs; cbn in Hs).
    + iApply ("IH" $! (Frame Right c a tl :: k) tr with "[%] [%] [%] [%] [-Htr Hτ] Htr Hτ"); [lia| | | |by iFrame].
      * intros y Hy. apply Hl. cbn. rw elem_of_app. right. by right.
      * by eapply place_right.
      * cbn in *. by repeat (rw -!app_assoc in Hs |- *; cbn in Hs |- *).
Qed.

Lemma wp_timerqueue_add n l : valid n -> n ∉ l -> StronglySorted by_time l ->
  settled γ head l -∗ head ↦[Next] hd 0 l -∗ times (n :: l) -∗
  (∃ v, n ↦[Parent_color] v) -∗ (∃ v, n ↦[Child Left] v) -∗ (∃ v, n ↦[Child Right] v) -∗
  wp γ (timerqueue_add head n) (fun _ => settled γ head (enqueue n l) ∗ head ↦[Next] hd 0 (enqueue n l) ∗ times (n :: l)).
Proof.
  iIntros (Hn Hout Hs) "(%t & [<- %Hr] & Hr & Ht) Hnext Hτ (%v & Hp) Hnl Hnr". unfold timerqueue_add, RB_EMPTY_NODE.
  iAssert ⌜forall a, a ∈ inorder t -> valid a⌝%I as %Hv.
  { iIntros (a Ha). by iApply (in_store_valid with "Ht"). }
  wp_ld. wp_ret. wp_binds. iApply (wp_tree_fuel with "Ht"). iIntros (f Hf) "Ht". wp_binds.
  iApply (wp_wand with "[Hr Ht Hτ]").
  { iApply (wp_add_loop f [] t n (n :: inorder t) with "Hr Ht Hτ"); [pose proof (height_size t); lia|left|by right|split; intros a []%elem_of_nil|].
    cbn. by rw app_nil_r. }
  iIntros (x) "(%k & (-> & [%Hb %Ha] & %Ek) & Hk & Hτ)". cbn [plug] in Ek.
  assert (enqueue n (inorder t) = before k ++ n :: after k) as Eq.
  { rw -Ek inorder_plug. by apply enqueue_split. }
  rw -Ek in Hr. iDestruct (hole_plug γ head k E with "Hk []") as "[Hr Ht]"; [done|].
  wp_binds. iApply (wp_wand with "[Hr Ht Hp Hnl Hnr]").
  { iApply (wp_insert γ head k n Hr Hn with "Hr Ht [Hp] Hnl Hnr"). by iExists v. }
  iIntros (_) "H". wp_binds. iApply (wp_wand with "H"). iIntros (_) "Hset". rw -Eq. wp_ld.
  destruct (inorder t) as [|a l] eqn:Et; cbn [hd enqueue].
  - cbn. wp_ret. wp_st. iFrame.
  - rw (proj2 (Z.eqb_neq a 0) (proj2 (Hv a ltac:(left)))). wp_binds.
    iApply (wp_expires with "Hτ"); [left|]. iIntros "Hτ". wp_ld. cbn [hd]. wp_binds.
    iApply (wp_expires with "Hτ"); [right; left|]. iIntros "Hτ". wp_ret.
    destruct (τ n <? τ a); [wp_st|wp_ret]; iFrame.
Qed.

Lemma wp_timerqueue_del n b e : NoDup (b ++ n :: e) ->
  settled γ head (b ++ n :: e) -∗ head ↦[Next] hd 0 (b ++ n :: e) -∗
  wp γ (timerqueue_del head n) (fun _ => settled γ head (b ++ e) ∗ head ↦[Next] hd 0 (b ++ e) ∗
    n ↦[Parent_color] n ∗ (∃ v, n ↦[Child Left] v) ∗ (∃ v, n ↦[Child Right] v)).
Proof.
  iIntros (Hd) "(%t & [%Hi %Hr] & Hr & Ht) Hnext". apply locate in Hi as (k & c & l & r & -> & -> & ->).
  iDestruct (plug_hole with "Hr Ht") as "[Hk Ht]". unfold timerqueue_del, RB_EMPTY_NODE at 1.
  iDestruct "Ht" as "(%Hn & Hn & Ht)". wp_ld. wp_ret. wp_ld.
  iAssert (in_store γ (par k) (N c l n r)) with "[Hn Ht]" as "Ht"; [by iFrame|].
  iAssert (wp γ (if hd 0 ((before k ++ inorder l) ++ n :: inorder r ++ after k) =? n then
      rbn ← rb_next n; st head Next (if negb (rbn =? 0) then rbn else 0) else mret tt)
    (fun _ => (hole γ head k n ∗ in_store γ (par k) (N c l n r)) ∗ head ↦[Next] hd 0 ((before k ++ inorder l) ++ inorder r ++ after k))%I)
    with "[-]" as "H".
  { destruct (before k ++ inorder l) as [|x b] eqn:Eb; cbn [app hd].
    - rw Z.eqb_refl. wp_binds. iApply (wp_wand with "[Hk Ht]"); [by iApply (wp_rb_step γ head Right k c r n l with "Hk Ht")|].
      iIntros (v) "(-> & Hk & Ht)". cbn [opp end_of]. wp_st. iFrame. by destruct (Z.eqb_spec (hd 0 (inorder r ++ after k)) 0) as [->|].
    - cbn in Hd. apply NoDup_cons in Hd as [Hd _]. rw (proj2 (Z.eqb_neq x n)).
      + wp_ret. iFrame.
      + intros ->. apply Hd. rw elem_of_app. right. left. }
  wp_binds. iApply (wp_wand with "H"). iIntros (_) "[[Hk Ht] Hnext]". wp_binds.
  iDestruct (hole_plug γ head k (N c l n r) with "Hk Ht") as "[Hr Ht]".
  iApply (wp_wand with "[Hr Ht]"); [by iApply (wp_rb_erase with "Hr Ht")|].
  iIntros (_) "(Hs & (%v & Hn) & Hl & Hr)". unfold RB_CLEAR_NODE. wp_st. rw -app_assoc. iFrame.
Qed.
End proofs.

(** ** Refinement *)

(** A run that ends in the queue [l'] and leaves other objects alone. *)
Definition becomes (s s' : nodes) (head n : Z) (l l' : list Z) : Prop :=
  queue s' head l' /\ dom s' = dom s /\
  (forall k, k.1 <> head -> k.1 ∉ n :: l -> s' !! k = s !! k) /\ (forall a, s' !! (a, Expires) = s !! (a, Expires)).

Lemma add_refines s head n l : queue s head l -> valid n -> n ∉ l ->
  (forall f, node_field f = true -> is_Some (s !! (n, f))) -> s !! (n, Expires) = Some (τ n) ->
  exists s', timerqueue_add head n s = Ok (tt, s') /\ becomes s s' head n l (enqueue n l).
Proof.
  intros ((t & Hh & Hr & Ht) & Hs & Hnext & He) Hn Hout Hf Hen.
  destruct (Hf Parent_color) as [v1 E1]; [done|]. destruct (Hf (Child Left)) as [v2 E2]; [done|].
  destruct (Hf (Child Right)) as [v3 E3]; [done|].
  assert (NoDup (n :: l)) as Hd. { constructor; [done|]. rw -Ht. by destruct Hh as (_ & _ & ?). }
  assert (forall a, a ∈ n :: l -> s !! (a, Expires) = Some (τ a)) as He'.
  { intros a [->|Ha]%elem_of_cons; [done|by apply He]. }
  edestruct (tree_sound (timerqueue_add head n) s head t (timer_cells head (hd 0 l) (n :: l) ∪ node_cells n v1 v2 v3)
    (fun _ t' x => (inorder t' = enqueue n l /\ red_black t') /\ x = timer_cells head (hd 0 (enqueue n l)) (n :: l)) Hh)
    as ([] & s' & t' & x & E & D & ([Hi' Hr'] & ->) & Hh' & Hx & Hu).
  - apply map_union_least; [by apply timer_cells_sub|]. repeat apply map_union_least; by apply map_singleton_subseteq_l.
  - intros k Hk. rw dom_union_L not_elem_of_union. split; [by eapply timer_cells_tree|].
    intros [<- Hk']%node_cells_dom. rw Ht in Hk. by destruct Hk as [->|[? _]].
  - intros Σ HΣ γ. rw big_sepM_union; [|by apply timer_cells_node]. rw node_cells_own timer_cells_own //.
    iIntros "Hr Ht [[Hnext Hτ] (Hp & Hl & Hr')]". iApply (wp_wand with "[-]").
    { iApply (wp_timerqueue_add γ head n l Hn Hout Hs with "[Hr Ht] Hnext Hτ [Hp] [Hl] [Hr']"); [|by iExists _..].
      iExists t. by iFrame. }
    iIntros (_) "((%t' & %Ht' & Hr & Ht) & Hnext & Hτ)". iExists t', _. iFrame. iSplit; [done|]. iApply timer_cells_own; [done|iFrame].
  - exists s'. split; [done|]. destruct (timer_cells_lookup s' _ _ _ Hd Hx) as [Hn' He2]. split_and!; try done.
    + split; [by exists t'|]. split; [by apply enqueue_sorted|]. split; [done|]. intros a. rw enqueue_perm. apply He2.
    + intros k Hk Hk'. apply Hu.
      * intros [->|[Hin _]]; [done|]. apply Hk'. right. by rw -Ht.
      * rw dom_union_L not_elem_of_union. split; [by intros [->|[? _]]%timer_cells_dom|].
        intros [En _]%node_cells_dom. apply Hk'. rw En. left.
    + intros a. destruct (decide (a ∈ n :: l)) as [Ha|Ha]; [by rw He2 ?He'|]. apply Hu.
      * by intros [?|[_ ?]].
      * rw dom_union_L not_elem_of_union. split; [by intros [?|[? _]]%timer_cells_dom|by intros [_ ?]%node_cells_dom].
Qed.

Lemma del_refines s head n l : queue s head l -> n ∈ l ->
  exists s', timerqueue_del head n s = Ok (tt, s') /\ becomes s s' head n l (dequeue n l) /\ s' !! (n, Parent_color) = Some n.
Proof.
  intros ((t & Hh & Hr & Ht) & Hs & Hnext & He) Hin.
  assert (NoDup l) as Hd by (rw -Ht; by destruct Hh as (_ & _ & ?)).
  apply list_elem_of_split in Hin as (b & e & El). rw El in Hd.
  assert (dequeue n l = b ++ e) as -> by (rw El; by apply dequeue_split).
  edestruct (tree_sound (timerqueue_del head n) s head t (timer_cells head (hd 0 l) l)
    (fun _ t' x => (inorder t' = b ++ e /\ red_black t') /\ exists v w, x = timer_cells head (hd 0 (b ++ e)) l ∪ node_cells n n v w) Hh)
    as ([] & s' & t' & x & E & D & ([Hi' Hr'] & v & w & ->) & Hh' & Hx & Hu).
  - by apply timer_cells_sub.
  - intros k Hk. by eapply timer_cells_tree.
  - intros Σ HΣ γ. rw timer_cells_own; [|by rw El]. iIntros "Hr Ht [Hnext Hτ]". iApply (wp_wand with "[-Hτ]").
    { rw El. iApply (wp_timerqueue_del γ head n b e Hd with "[Hr Ht] Hnext"). iExists t. iFrame. by rw -El. }
    iIntros (_) "((%t' & %Ht' & Hr & Ht) & Hnext & Hn & (%v & Hl) & (%w & Hr'))". iExists t', _. iFrame.
    iSplit; [by iPureIntro; split; [|exists v, w]|]. rw big_sepM_union; [|by apply timer_cells_node].
    rw node_cells_own timer_cells_own; [|by rw El]. iFrame.
  - exists s'. split; [done|]. rw -El in Hd.
    assert (timer_cells head (hd 0 (b ++ e)) l ⊆ s') as Hx1 by (etrans; [apply map_union_subseteq_l|exact Hx]).
    assert (node_cells n n v w ⊆ s') as Hx2 by (etrans; [apply map_union_subseteq_r, timer_cells_node|exact Hx]).
    destruct (timer_cells_lookup s' _ _ _ Hd Hx1) as [Hn' He2]. split; [split_and!; try done|].
    + split; [by exists t'|]. split; [rw El in Hs; by eapply sorted_without|]. split; [done|].
      intros a Ha. apply He2. rw El. rw !elem_of_app in Ha |- *. destruct Ha; [by left|]. right. by right.
    + intros k Hk Hk'. apply Hu; [|by intros [->|[? _]]%timer_cells_dom; [|apply Hk'; right]].
      intros [->|[Hin _]]; [done|]. apply Hk'. right. by rw -Ht.
    + intros a. destruct (decide (a ∈ l)) as [Ha|Ha]; [by rw He2 ?He|].
      apply Hu; [by intros [?|[_ ?]]|by intros [?|[? _]]%timer_cells_dom].
    + eapply lookup_weaken; [|exact Hx2]. unfold node_cells. by rw lookup_union_l' ?lookup_singleton_eq.
Qed.

Lemma linked_valid s p t a : linked s p t -> a ∈ inorder t -> valid a.
Proof.
  revert p. induction t as [|c l IHl x r IHr]; intros p; cbn; [by intros _ ?%elem_of_nil|].
  intros (Hx & _ & _ & _ & Hl & Hr) [Ha|[->|Ha]%elem_of_cons]%elem_of_app; eauto.
Qed.

Lemma queue_reads s head l : queue s head l -> timerqueue_getnext head s = Ok (hd 0 l, s) /\
  forall b n e, l = b ++ n :: e -> timerqueue_iterate_next n s = Ok (hd 0 e, s).
Proof.
  intros ((t & Hh & _ & Ht) & _ & Hnext & _). split.
  { by apply ld_run. }
  intros b n e El. rw El in Ht. apply locate in Ht as (k & c & l1 & r & -> & -> & ->).
  destruct (step_sound s head k c l1 n r Hh) as (E & _). unfold timerqueue_iterate_next.
  assert (n <> 0) as Hn.
  { destruct Hh as (_ & Hl & _). apply (linked_valid s 0 _ n Hl). rw inorder_plug. cbn. rw !elem_of_app. right. left. right. left. }
  rw (proj2 (Z.eqb_neq n 0) Hn) (Mbind_run _ _ _ _ _ E). by destruct (Z.eqb_spec (hd 0 (inorder r ++ after k)) 0) as [->|].
Qed.

Lemma search_sound s head n l fuel : queue s head l -> n ∉ l -> s !! (n, Expires) = Some (τ n) ->
  (2 * Nat.log2 (length l + 1) < fuel)%nat ->
  exists k, add_loop fuel n (head, Rb_node) 0 s = Ok ((link head k, par k), s) /\
    (exists t, holds s head t /\ t = plug k E) /\ enqueue n l = before k ++ n :: after k.
Proof.
  intros ((t & Hh & Hr & Ht) & Hs & Hnext & He) Hout Hen Hfuel.
  assert (NoDup (n :: l)) as Hd. { constructor; [done|]. rw -Ht. by destruct Hh as (_ & _ & ?). }
  edestruct (read_sound_with (add_loop fuel n (head, Rb_node) 0) s head t (timer_cells head (hd 0 l) (n :: l))
    (fun r => exists k, r = (link head k, par k) /\ place n k /\ plug k E = t) Hh) as (r & E & k & -> & [Hb Ha] & Ek).
  - apply timer_cells_sub; [done|]. intros a [->|Ha]%elem_of_cons; [done|by apply He].
  - intros k Hk. by eapply timer_cells_tree.
  - intros Σ HΣ γ. iIntros "Hr Ht Hx". iDestruct (timer_cells_own γ head _ _ Hd with "Hx") as "[Hnext Hτ]".
    iApply (wp_wand with "[Hr Ht Hτ]").
    { iApply (wp_add_loop γ head fuel [] t n (n :: l) with "Hr Ht Hτ").
      - pose proof (height_log t Hr) as Hl. rw Ht in Hl. eapply Nat.le_lt_trans; [exact Hl|exact Hfuel].
      - left.
      - rw Ht. by right.
      - split; intros a []%elem_of_nil.
      - cbn. by rw app_nil_r Ht. }
    iIntros (r) "(%k & (-> & %Hp & %Ek) & Hk & Hτ)". iDestruct (hole_plug γ head k E with "Hk []") as "[Hr Ht]"; [done|].
    rw Ek. iFrame. iSplit; [by iPureIntro; exists k|]. iApply timer_cells_own; [done|iFrame].
  - exists k. split; [done|]. split; [by exists t|]. rw -Ht -Ek inorder_plug. by apply enqueue_split.
Qed.
End queue.

(** * Properties *)

(** C21: Timer queues refine sorted lists, for every assignment [τ] of times.  From a
    store that holds the queue [l]: [timerqueue_add] of a timer that is not queued returns
    with the queue in which it stands behind the timers of its time and before the later
    ones; [timerqueue_del] of a queued timer returns with the others in their order and
    the timer marked as not queued; [timerqueue_getnext] is the earliest timer or [NULL];
    [timerqueue_iterate_next] is the next one in the list.  The queue the first two leave
    is a red-black tree again with the earliest timer in the head, and other objects and
    all times are as before. *)
Theorem timerqueue_refines τ s head l : queue τ s head l ->
  (forall n, valid n -> n ∉ l -> (forall f, node_field f = true -> is_Some (s !! (n, f))) ->
     s !! (n, Expires) = Some (τ n) ->
     exists s', timerqueue_add head n s = Ok (tt, s') /\ becomes τ s s' head n l (enqueue τ n l)) /\
  (forall n, n ∈ l ->
     exists s', timerqueue_del head n s = Ok (tt, s') /\ becomes τ s s' head n l (dequeue n l) /\
       s' !! (n, Parent_color) = Some n) /\
  timerqueue_getnext head s = Ok (hd 0 l, s) /\
  (forall b n e, l = b ++ n :: e -> timerqueue_iterate_next n s = Ok (hd 0 e, s)).
Proof.
  intros Hq. destruct (queue_reads τ s head l Hq) as [Hg Hi].
  split_and!; [|by intros n Hn; apply (del_refines τ)|done|done].
  intros n Hn Hout Hf He. by apply add_refines.
Qed.

(** Two timers for time 50 at 4096 and 70 at 8192; 12288, for time 50, is added. *)
Definition timers : nodes := list_to_map
  [((256, Rb_node), 4096); ((256, Next), 4096);
   ((4096, Parent_color), 1); ((4096, Child Left), 0); ((4096, Child Right), 8192); ((4096, Expires), 50);
   ((8192, Parent_color), 4096); ((8192, Child Left), 0); ((8192, Child Right), 0); ((8192, Expires), 70);
   ((12288, Parent_color), 12288); ((12288, Child Left), 0); ((12288, Child Right), 0); ((12288, Expires), 50)].
Definition time_of (a : Z) : Z := if a =? 8192 then 70 else 50.

Lemma timers_queue : queue time_of timers 256 [4096; 8192].
Proof.
  split; [|split_and!].
  - exists (N Black E 4096 (N Red E 8192 E)). split; [|split; [by exists 1%nat; repeat econstructor|done]].
    split; [done|]. split; [|by repeat (constructor; [set_solver|]); constructor].
    cbn. unfold valid, aligned. split_and!; done || lia.
  - repeat constructor; unfold by_time; by vm_compute.
  - done.
  - intros a [->|[->|[]%elem_of_nil]%elem_of_cons]%elem_of_cons; done.
Qed.

Lemma timerqueue_refines_witness :
  (exists s', timerqueue_add 256 12288 timers = Ok (tt, s') /\ queue time_of s' 256 [4096; 12288; 8192]) /\
  (exists s', timerqueue_del 256 4096 timers = Ok (tt, s') /\ queue time_of s' 256 [8192]) /\
  timerqueue_iterate_next 4096 timers = Ok (8192, timers).
Proof.
  destruct (timerqueue_refines time_of timers 256 [4096; 8192] timers_queue) as (Hadd & Hdel & _ & Hit).
  split_and!.
    + assert (exists s', timerqueue_add 256 12288 timers = Ok (tt, s') /\ becomes time_of timers s' 256 12288 [4096; 8192]
        (enqueue time_of 12288 [4096; 8192])) as (s' & R & Hb & _).
      { apply (Hadd 12288).
        - split; [split; [lia|done]|done].
        - by intros [? | [? | []%elem_of_nil]%elem_of_cons]%elem_of_cons.
        - intros [| [] | | |]; try discriminate; intros _; eexists; by vm_compute.
        - by vm_compute. }
      exists s'. split; [exact R|]. change [4096; 12288; 8192] with (enqueue time_of 12288 [4096; 8192]). exact Hb.
    + assert (4096 ∈ [4096; 8192]) as Hin by left. destruct (Hdel 4096 Hin) as (s' & R & (Hb & _) & _).
      exists s'. split; [exact R|]. change [8192] with (dequeue 4096 [4096; 8192]). exact Hb.
    + by apply (Hit [] 4096 [8192]).
Defined.

(** A queue that has been set up is empty. *)
Theorem timerqueue_starts τ s head : is_Some (s !! (head, Rb_node)) -> is_Some (s !! (head, Next)) ->
  exists s', timerqueue_init_head head s = Ok (tt, s') /\ queue τ s' head [].
Proof.
  intros [v Hv] [w Hw]. exists (<[(head, Next) := 0]> (<[(head, Rb_node) := 0]> s)). split.
  - unfold timerqueue_init_head. rw (Mbind_run _ _ _ _ _ (st_run _ _ _ 0 _ Hv)). apply (st_run _ _ w). by rw lookup_insert_ne.
  - split; [|split_and!; [constructor|by rw lookup_insert_eq|by intros a []%elem_of_nil]].
    exists E. split; [|split; [by exists 0%nat; constructor|done]]. split; [|split; [done|constructor]].
    by rw lookup_insert_ne // lookup_insert_eq.
Qed.

(** C25: The search of [timerqueue_add] is logarithmic: with [l] timers queued the loop ends
    within [2 * log2 (l + 1) + 1] passes, at a free field of the tree and its node, without
    changing anything, and the place is that of the new timer in the sorted list. *)
Theorem timerqueue_search τ s head n l fuel : queue τ s head l -> n ∉ l -> s !! (n, Expires) = Some (τ n) ->
  (2 * Nat.log2 (length l + 1) < fuel)%nat ->
  exists k, add_loop fuel n (head, Rb_node) 0 s = Ok ((link head k, par k), s) /\
    (exists t, holds s head t /\ t = plug k E) /\ enqueue τ n l = before k ++ n :: after k.
Proof. apply search_sound. Qed.

(** Three passes for two timers. *)
Lemma timerqueue_search_witness : exists k, add_loop 3 12288 (256, Rb_node) 0 timers = Ok ((link 256 k, par k), timers) /\
  before k ++ 12288 :: after k = [4096; 12288; 8192].
Proof.
  destruct (timerqueue_search time_of timers 256 12288 [4096; 8192] 3) as (k & R & _ & Hk); [apply timers_queue|set_solver|done|by cbn; lia|].
  exists k. split; [exact R|]. symmetry. exact Hk.
Defined.
