(* ===== verification/KFifo.v ===== *)
(** * lib/kfifo.c and include/linux/kfifo.h: ring buffers

    The structure with its two free-running indices, the copies in one or two pieces
    around the end of the buffer, the operations on plain fifos (of bytes or elements),
    with those that copy from and to user space, and the refinement of a bounded queue.
    Fifos of records and the scatter lists for DMA are not modelled.  The write barriers
    between a copy and the update of an index have no effect in a sequential run. *)

From S2P Require Import Prelude Ioctl KString KMath.
Open Scope Z_scope.

(** [data] is [NULL] or the object the fifo's buffer is, with its real size. *)
Record __kfifo := MkKfifo {
  in_ : Z;
  out : Z;
  mask : Z;
  esize : Z;
  data : option (list Z);
}.
Definition set_in (v : Z) (k : __kfifo) := MkKfifo v (out k) (mask k) (esize k) (data k).
Definition set_out (v : Z) (k : __kfifo) := MkKfifo (in_ k) v (mask k) (esize k) (data k).
Definition set_data (v : option (list Z)) (k : __kfifo) := MkKfifo (in_ k) (out k) (mask k) (esize k) v.

(** What the macros read off the type of their argument: [sizeof( *fifo->type)],
    [sizeof( *fifo->rectype)] and [__is_kfifo_ptr]. *)
Record kfifo_type := MkType {
  sizeof_type : Z;
  recsize : Z;
  is_kfifo_ptr : bool;
}.

(** ** Powers of two (include/linux/log2.h) *)

Definition fls_long (l : Z) : Z := fls l.   (* sizeof(l) == 4 *)
Definition __roundup_pow_of_two (n : Z) : res Z := shlu 32 1 (fls_long (n -u 1)%cint).
Definition __rounddown_pow_of_two (n : Z) : res Z := shlu 32 1 (fls_long n -u 1)%cint.

(** ** Unsigned division *)
Definition divu (a b : Z) : res Z := if b =? 0 then Fault DivByZero else Ok (a / b).
Definition DIV_ROUND_UP (n d : Z) : res Z := divu (n +u d -u 1)%cint d.

(** ** Memory *)

(** [memcpy(data + off, src, n)] and [memcpy(dst + i, data + off, n)]. *)
Definition copy_to (d : option (list Z)) (off : Z) (src : list Z) (n : Z) : res (option (list Z)) :=
  match d with
  | None => if n =? 0 then Ok None else Fault NullDeref
  | Some d => d ← memcpy_at (Z.to_nat n) d off src; Ok (Some d)
  end.
Definition copy_of (d : option (list Z)) (off : Z) (dst : list Z) (i n : Z) : res (list Z) :=
  match d with
  | None => if n =? 0 then Ok dst else Fault NullDeref
  | Some d => memcpy_at (Z.to_nat n) dst i (drop (Z.to_nat off) d)
  end.
(** The [n] bytes at [data + off], which a copy to user space reads. *)
Definition bytes_of (d : option (list Z)) (off n : Z) : res (list Z) :=
  copy_of d off (replicate (Z.to_nat n) 0) 0 n.

(** User memory: the check of a range, and the copies, which return the number of bytes
    they did not copy.  [__copy_from_user] also returns what the [n] bytes of its
    destination hold afterwards. *)
Class UserAccess (U : Type) := {
  access_ok : Z -> Z -> bool;
  user_byte : U -> Z -> Z;
  __copy_from_user : U -> Z -> Z -> Z * list Z;
  __copy_to_user : U -> Z -> list Z -> Z * U;
  from_user_left u a n : 0 <= n -> 0 <= fst (__copy_from_user u a n) <= n;
  from_user_length u a n : 0 <= n -> length (snd (__copy_from_user u a n)) = Z.to_nat n;
  from_user_copied u a n i : 0 <= i < n - fst (__copy_from_user u a n) ->
    snd (__copy_from_user u a n) !! Z.to_nat i = Some (user_byte u (a + i));
  to_user_left u a l : 0 <= fst (__copy_to_user u a l) <= Z.of_nat (length l);
  to_user_copied u a l i : 0 <= i < Z.of_nat (length l) - fst (__copy_to_user u a l) ->
    l !! Z.to_nat i = Some (user_byte (snd (__copy_to_user u a l)) (a + i));
  to_user_frame u a l b : b < a \/ a + Z.of_nat (length l) <= b ->
    user_byte (snd (__copy_to_user u a l)) b = user_byte u b;
}.

Section fifo.
Context {U : Type} `{!UserAccess U}.
Local Open Scope cint_scope.

(** [copy_from_user(data + off, from, n)]; a range that is refused leaves zeros. *)
Definition copy_from_user (u : U) (d : option (list Z)) (off from n : Z) : res (Z * option (list Z)) :=
  let '(rest, l) :=
    if access_ok from n then __copy_from_user u from n
    else (n, replicate (Z.to_nat n) 0) in
  d ← copy_to d off l n;
  Ok (rest, d).
Definition copy_to_user (u : U) (to : Z) (d : option (list Z)) (off n : Z) : res (Z * U) :=
  l ← bytes_of d off n;
  Ok (if access_ok to n then __copy_to_user u to l else (n, u)).

(** ** Allocation *)

Definition kfifo_unused (k : __kfifo) : Z := (mask k +u 1) -u (in_ k -u out k).

Definition __kfifo_alloc (kmalloc : Z -> option (list Z)) (size esize : Z) : res (Z * __kfifo) :=
  size ← __roundup_pow_of_two size;
  if size <? 2 then Ok (- EINVAL, MkKfifo 0 0 0 esize None)
  else
    let data := kmalloc (size *u esize) in
    match data with
    | None => Ok (- ENOMEM, MkKfifo 0 0 0 esize None)
    | Some _ => Ok (0, MkKfifo 0 0 (size -u 1) esize data)
    end.

Definition __kfifo_free (k : __kfifo) : __kfifo := MkKfifo 0 0 0 0 None.

Definition __kfifo_init (buffer : option (list Z)) (size esize : Z) : res (Z * __kfifo) :=
  size ← divu size esize;
  size ← __roundup_pow_of_two size;
  if size <? 2 then Ok (- EINVAL, MkKfifo 0 0 0 esize buffer)
  else Ok (0, MkKfifo 0 0 (size -u 1) esize buffer).

(** [INIT_KFIFO], where [buf] is the fifo's own array of [array_size] elements. *)
Definition INIT_KFIFO (t : kfifo_type) (array_size : Z) (buf : list Z) : __kfifo :=
  MkKfifo 0 0 (if is_kfifo_ptr t then 0 else array_size -u 1) (sizeof_type t)
    (if is_kfifo_ptr t then None else Some buf).

Definition kfifo_alloc (t : kfifo_type) (kmalloc : Z -> option (list Z)) (size : Z) (k : __kfifo)
    : res (Z * __kfifo) :=
  if is_kfifo_ptr t then __kfifo_alloc kmalloc size (sizeof_type t) else Ok (- EINVAL, k).
Definition kfifo_free (t : kfifo_type) (k : __kfifo) : __kfifo :=
  if is_kfifo_ptr t then __kfifo_free k else k.
Definition kfifo_init (t : kfifo_type) (buffer : option (list Z)) (size : Z) (k : __kfifo)
    : res (Z * __kfifo) :=
  if is_kfifo_ptr t then __kfifo_init buffer size (sizeof_type t) else Ok (- EINVAL, k).

(** ** The indices *)

Definition kfifo_initialized (k : __kfifo) : bool := negb (mask k =? 0).
Definition kfifo_size (k : __kfifo) : Z := mask k +u 1.
Definition kfifo_reset (k : __kfifo) : __kfifo := set_in 0 (set_out 0 k).
Definition kfifo_reset_out (k : __kfifo) : __kfifo := set_out (in_ k) k.
Definition kfifo_len (k : __kfifo) : Z := in_ k -u out k.
Definition kfifo_is_empty (k : __kfifo) : bool := in_ k =? out k.
Definition kfifo_is_full (k : __kfifo) : bool := mask k <? kfifo_len k.

(** ** Copies around the end of the buffer *)

(** What the copy functions begin with: [off] in bytes, [len] in bytes and the length
    of the piece before the end of the buffer. *)
Definition span (k : __kfifo) (len off : Z) : Z * Z * Z :=
  let size := mask k +u 1 in
  let off := Z.land off (mask k) in
  let '(off, size, len) :=
    if negb (esize k =? 1) then (off *u esize k, size *u esize k, len *u esize k)
    else (off, size, len) in
  (off, len, Z.min len (size -u off)).

Definition kfifo_copy_in (k : __kfifo) (src : list Z) (len off : Z) : res __kfifo :=
  let '(off, len, l) := span k len off in
  d ← copy_to (data k) off src l;
  d ← copy_to d 0 (drop (Z.to_nat l) src) (len -u l);
  Ok (set_data d k).

Definition kfifo_copy_out (k : __kfifo) (dst : list Z) (len off : Z) : res (list Z) :=
  let '(off, len, l) := span k len off in
  dst ← copy_of (data k) off dst 0 l;
  copy_of (data k) 0 dst l (len -u l).

(** Returns the number of elements that were not copied, and [*copied]. *)
Definition kfifo_copy_from_user (u : U) (k : __kfifo) (from len off : Z) : res (Z * Z * __kfifo) :=
  let '(off, len, l) := span k len off in
  '(ret, d) ← copy_from_user u (data k) off from l;
  '(ret, d) ← (
    if negb (ret =? 0) then
      ret ← DIV_ROUND_UP (ret +u len -u l) (esize k);
      Ok (ret, d)
    else
      '(ret, d) ← copy_from_user u d 0 (from +u l) (len -u l);
      if negb (ret =? 0) then
        ret ← DIV_ROUND_UP ret (esize k);
        Ok (ret, d)
      else Ok (ret, d));
  Ok (ret, len -u (ret *u esize k), set_data d k).

Definition kfifo_copy_to_user (u : U) (k : __kfifo) (to len off : Z) : res (Z * Z * U) :=
  let '(off, len, l) := span k len off in
  '(ret, u) ← copy_to_user u to (data k) off l;
  '(ret, u) ← (
    if negb (ret =? 0) then
      ret ← DIV_ROUND_UP (ret +u len -u l) (esize k);
      Ok (ret, u)
    else
      '(ret, u) ← copy_to_user u (to +u l) (data k) 0 (len -u l);
      if negb (ret =? 0) then
        ret ← DIV_ROUND_UP ret (esize k);
        Ok (ret, u)
      else Ok (ret, u));
  Ok (ret, len -u (ret *u esize k), u).

(** ** Plain fifos *)

Definition __kfifo_in (k : __kfifo) (buf : list Z) (len : Z) : res (Z * __kfifo) :=
  let l := kfifo_unused k in
  let len := if l <? len then l else len in
  k ← kfifo_copy_in k buf len (in_ k);
  Ok (len, set_in (in_ k +u len) k).

Definition __kfifo_out_peek (k : __kfifo) (buf : list Z) (len : Z) : res (Z * list Z) :=
  let l := in_ k -u out k in
  let len := if l <? len then l else len in
  buf ← kfifo_copy_out k buf len (out k);
  Ok (len, buf).

Definition __kfifo_out (k : __kfifo) (buf : list Z) (len : Z) : res (Z * list Z * __kfifo) :=
  '(len, buf) ← __kfifo_out_peek k buf len;
  Ok (len, buf, set_out (out k +u len) k).

(** Returns the error and [*copied]. *)
Definition __kfifo_from_user (u : U) (k : __kfifo) (from len : Z) : res (Z * Z * __kfifo) :=
  len ← (if negb (esize k =? 1) then divu len (esize k) else Ok len);
  let l := kfifo_unused k in
  let len := if l <? len then l else len in
  '(ret, copied, k) ← kfifo_copy_from_user u k from len (in_ k);
  let '(len, err) := if negb (ret =? 0) then (len -u ret, - EFAULT) else (len, 0) in
  Ok (err, copied, set_in (in_ k +u len) k).

Definition __kfifo_to_user (u : U) (k : __kfifo) (to len : Z) : res (Z * Z * U * __kfifo) :=
  len ← (if negb (esize k =? 1) then divu len (esize k) else Ok len);
  let l := in_ k -u out k in
  let len := if l <? len then l else len in
  '(ret, copied, u) ← kfifo_copy_to_user u k to len (out k);
  let '(len, err) := if negb (ret =? 0) then (len -u ret, - EFAULT) else (len, 0) in
  Ok (err, copied, u, set_out (out k +u len) k).

End fifo.

(** ** Single elements *)

(** [((type * )data)[i & mask] = val] and its value; [sz] is [sizeof(type)] and an element
    is the list of its bytes. *)
Definition put_elem (sz : Z) (k : __kfifo) (i : Z) (val : list Z) : res __kfifo :=
  d ← copy_to (data k) (Z.land i (mask k) * sz) val sz;
  Ok (set_data d k).
Definition get_elem (sz : Z) (k : __kfifo) (i : Z) : res (list Z) :=
  bytes_of (data k) (Z.land i (mask k) * sz) sz.

(** The macros [kfifo_put], [kfifo_peek], [kfifo_get] and [kfifo_skip] for fifos without
    records. *)
Definition kfifo_put_elem (sz : Z) (k : __kfifo) (val : list Z) : res (Z * __kfifo) :=
  if negb (kfifo_is_full k) then
    k ← put_elem sz k (in_ k) val;
    Ok (1, set_in (in_ k +u 1)%cint k)
  else Ok (0, k).
Definition kfifo_peek_elem (sz : Z) (k : __kfifo) : res (Z * list Z) :=
  if negb (kfifo_is_empty k) then v ← get_elem sz k (out k); Ok (1, v) else Ok (0, []).
Definition kfifo_get_elem (sz : Z) (k : __kfifo) : res (Z * list Z * __kfifo) :=
  if negb (kfifo_is_empty k) then
    v ← get_elem sz k (out k);
    Ok (1, v, set_out (out k +u 1)%cint k)
  else Ok (0, [], k).
Definition kfifo_skip_elem (k : __kfifo) : __kfifo := set_out (out k +u 1)%cint k.

(** * The ring *)

(** Position [x] of the ring of [S] bytes, for [x < 2 * S]. *)
Definition slot (S x : nat) : nat := if decide (x < S)%nat then x else (x - S)%nat.
(** The [n] bytes from position [p] on. *)
Definition ring (d : list Z) (S p n : nat) : list Z :=
  (fun i => d !!! slot S (p + i)) <$> seq 0 n.
(** What the two copies into the ring leave. *)
Definition ring_put (d : list Z) (S p : nat) (b : list Z) : list Z :=
  let l := (length b `min` (S - p))%nat in
  let d := take p d ++ take l b ++ drop (p + l) d in
  drop l b ++ drop (length b - l) d.

Ltac slot := unfold slot in *; repeat case_decide; lia.

Lemma slot_lt S x : (x < 2 * S)%nat -> (slot S x < S)%nat.
Proof. slot. Qed.
Lemma slot_slot S p x y : (p < S)%nat -> (x + y < S + S)%nat -> (p + x + y < 2 * S)%nat ->
  (p + x < 2 * S)%nat -> slot S (slot S (p + x) + y) = slot S (p + x + y).
Proof. slot. Qed.

Lemma length_ring d S p n : length (ring d S p n) = n.
Proof. unfold ring. by rewrite length_fmap, length_seq. Qed.

Lemma ring_lookup d S p n i : (i < n)%nat -> ring d S p n !! i = Some (d !!! slot S (p + i)).
Proof. intros Hi. unfold ring. by rewrite list_lookup_fmap, lookup_seq_lt. Qed.

Lemma ring_app d S p n m : (p < S)%nat -> (n + m <= S)%nat ->
  ring d S p (n + m) = ring d S p n ++ ring d S (slot S (p + n)) m.
Proof.
  intros Hp Hn. unfold ring. rewrite seq_app, fmap_app. f_equal. cbn [Nat.add].
  replace (seq n m) with (Nat.add n <$> seq 0 m) by (by rewrite fmap_add_seq, Nat.add_0_r).
  rewrite <- list_fmap_compose. apply list_fmap_ext. intros i x Hx.
  apply lookup_seq in Hx as [-> Hx]. cbn [compose]. f_equal. slot.
Qed.

Lemma ring_take d S p n m : (m <= n)%nat -> take m (ring d S p n) = ring d S p m.
Proof. intros. unfold ring. by rewrite <- fmap_take, take_seq, Nat.min_l by done. Qed.

Lemma ring_drop d S p n m : (p < S)%nat -> (m <= n)%nat -> (n <= S)%nat ->
  drop m (ring d S p n) = ring d S (slot S (p + m)) (n - m).
Proof.
  intros Hp Hm Hn. replace n with (m + (n - m))%nat at 1 by lia. rewrite ring_app by lia.
  by rewrite drop_app_length' by (by rewrite length_ring).
Qed.

Lemma ring_ext d d' S p n :
  (forall i, (i < n)%nat -> d !!! slot S (p + i) = d' !!! slot S (p + i)) -> ring d S p n = ring d' S p n.
Proof.
  intros H. unfold ring. apply list_fmap_ext. intros i x Hx. apply lookup_seq in Hx as [-> Hx].
  by apply H.
Qed.

(** The two pieces a copy out of the ring reads. *)
Lemma ring_pieces d S p n : (p < S)%nat -> (n <= S)%nat -> (S <= length d)%nat ->
  ring d S p n = take (n `min` (S - p)) (drop p d) ++ take (n - n `min` (S - p)) d.
Proof.
  intros Hp Hn Hd. apply list_eq_same_length with n;
    [rewrite length_app, !length_take, length_drop; lia | by rewrite length_ring |].
  intros i x y Hi. rewrite ring_lookup by done. intros [= <-].
  destruct (decide (i < n `min` (S - p))%nat) as [Hl|Hl].
  - rewrite lookup_app_l by (rewrite length_take, length_drop; lia).
    rewrite lookup_take_lt, lookup_drop by lia. intros Hy. unfold slot. rewrite decide_True by lia.
    by apply list_lookup_total_correct.
  - rewrite lookup_app_r by (rewrite length_take, length_drop; lia).
    rewrite length_take, length_drop, lookup_take_lt by lia. intros Hy. apply list_lookup_total_correct.
    rewrite <- Hy. f_equal. slot.
Qed.

Lemma length_ring_put d S p b : (p < S)%nat -> (length b <= S)%nat -> (S <= length d)%nat ->
  length (ring_put d S p b) = length d.
Proof.
  intros. unfold ring_put. rewrite !length_app, !length_drop, !length_app, length_take, length_take, length_drop. lia.
Qed.

(** Where the bytes of [b] went, and that nothing else of the ring changed. *)
Lemma ring_put_lookup d S p b i : (p < S)%nat -> (length b <= S)%nat -> (S <= length d)%nat -> (i < S)%nat ->
  ring_put d S p b !! slot S (p + i) =
  if decide (i < length b)%nat then b !! i else d !! slot S (p + i).
Proof.
  intros Hp Hb Hd Hi. unfold ring_put. set (l := (length b `min` (S - p))%nat).
  set (j := slot S (p + i)). assert (Hj : j = slot S (p + i)) by done. clearbody j.
  destruct (decide (j < length b - l)%nat) as [H1|H1].
  { rewrite lookup_app_l, lookup_drop by (rewrite length_drop; lia).
    rewrite decide_True by slot. f_equal. slot. }
  rewrite lookup_app_r, length_drop, lookup_drop by (rewrite length_drop; lia).
  replace (length b - l + (j - (length b - l)))%nat with j by lia.
  destruct (decide (j < p)%nat) as [H2|H2].
  { rewrite lookup_app_l, lookup_take_lt by (rewrite ?length_take; lia). rewrite decide_False by slot. done. }
  rewrite lookup_app_r, length_take, Nat.min_l by (rewrite ?length_take; lia).
  destruct (decide (j < p + l)%nat) as [H3|H3].
  { rewrite lookup_app_l, lookup_take_lt by (rewrite ?length_take; lia). rewrite decide_True by slot. f_equal. slot. }
  rewrite lookup_app_r, length_take, lookup_drop by (rewrite ?length_take; lia).
  rewrite decide_False by slot. f_equal. lia.
Qed.

(** Putting [b] behind [n] bytes appends it to them. *)
Lemma ring_put_append d S p n b : (p < S)%nat -> (n + length b <= S)%nat -> (S <= length d)%nat ->
  ring (ring_put d S (slot S (p + n)) b) S p (n + length b) = ring d S p n ++ b.
Proof.
  intros Hp Hn Hd. rewrite ring_app by done.
  assert (Hq : (slot S (p + n) < S)%nat) by slot. f_equal.
  - apply ring_ext. intros i Hi. rewrite !list_lookup_total_alt. f_equal.
    assert (exists j, (length b <= j < S)%nat /\ slot S (p + i) = slot S (slot S (p + n) + j)) as (j & Hj & ->).
    { exists (S - n + i)%nat. split; [lia | slot]. }
    rewrite ring_put_lookup, decide_False by lia. done.
  - apply list_eq_same_length with (length b); [done | by rewrite length_ring |].
    intros i x y Hi. rewrite ring_lookup by done. intros [= <-] Hy. apply list_lookup_total_correct.
    rewrite ring_put_lookup, decide_True by lia. done.
Qed.

(** * Well-formed fifos and what they hold *)

(** The number of bytes of the ring, and the position of an index in it. *)
Definition cap (k : __kfifo) : nat := Z.to_nat ((mask k + 1) * esize k).
Definition start (k : __kfifo) (x : Z) : nat := Z.to_nat (Z.land x (mask k) * esize k).
(** The bytes in the fifo, oldest first. *)
Definition contents (k : __kfifo) : list Z :=
  match data k with
  | Some d => ring d (cap k) (start k (out k)) (Z.to_nat (kfifo_len k * esize k))
  | None => []
  end.

(** The size is a power of two, the indices are [unsigned int]s at most the size apart,
    and the buffer, no larger than half the address space, is there. *)
Record wf (k : __kfifo) : Prop := {
  wf_size : exists e, 0 <= e /\ mask k + 1 = 2 ^ e;
  wf_in : is_u 32 (in_ k);
  wf_out : is_u 32 (out k);
  wf_len : kfifo_len k <= mask k + 1;
  wf_esize : 1 <= esize k;
  wf_cap : (mask k + 1) * esize k <= 2147483648;
  wf_data : exists d, data k = Some d /\ (cap k <= length d)%nat;
}.

(** The part of [wf] that no operation changes. *)
Definition same_shape (k k' : __kfifo) : Prop :=
  mask k' = mask k /\ esize k' = esize k /\
  exists d d', data k = Some d /\ data k' = Some d' /\ length d' = length d.

(** Differences of indices that wrap. *)
Lemma u32_sub_l a b m : u32 (u32 (a + m) - b) = u32 (u32 (a - b) + m).
Proof. unfold wrapu. rewrite Zminus_mod_idemp_l, Zplus_mod_idemp_l. f_equal. lia. Qed.
Lemma u32_sub_r a b m : u32 (a - u32 (b + m)) = u32 (u32 (a - b) - m).
Proof. unfold wrapu. rewrite Zminus_mod_idemp_r, Zminus_mod_idemp_l. f_equal. lia. Qed.

Section wf_facts.
Context (k : __kfifo) (W : wf k).
Local Open Scope cint_scope.

Lemma wf_mask : 0 <= mask k <= 2147483647.
Proof.
  destruct (wf_size k W) as (e & He & E). pose proof (pow2_pos e He). pose proof (wf_esize k W).
  pose proof (wf_cap k W). nia.
Qed.

Lemma wf_index x : 0 <= Z.land x (mask k) < mask k + 1 /\ Z.land x (mask k) = x mod (mask k + 1).
Proof.
  destruct (wf_size k W) as (e & He & E).
  replace (mask k) with (Z.ones e) by (rewrite Z.ones_equiv; lia).
  rewrite Z.land_ones by done. rewrite Z.ones_equiv.
  replace (Z.pred (2 ^ e) + 1) with (2 ^ e) by lia. split; [|done]. apply Z.mod_pos_bound, pow2_pos. done.
Qed.

Lemma wf_wrap x : u32 x mod (mask k + 1) = x mod (mask k + 1).
Proof.
  destruct (wf_size k W) as (e & He & E). pose proof wf_mask. rewrite E. unfold wrapu.
  assert (e <= 31) by (destruct (decide (e <= 31)); [done|]; pose proof (Z.pow_le_mono_r 2 32 e ltac:(lia) ltac:(lia)); lia).
  apply Z.mod_mod_divide.
  exists (2 ^ (32 - e)). rewrite <- Z.pow_add_r by lia. f_equal. lia.
Qed.

Lemma esize_small : 1 <= esize k <= 2147483648.
Proof. pose proof (wf_esize k W). pose proof (wf_cap k W). pose proof wf_mask. nia. Qed.

Lemma len_range : 0 <= kfifo_len k <= mask k + 1.
Proof. split; [apply u32_range | apply (wf_len k W)]. Qed.

Lemma unused_spec : kfifo_unused k = mask k + 1 - kfifo_len k /\ 0 <= kfifo_unused k <= mask k + 1.
Proof.
  pose proof len_range. pose proof wf_mask. unfold kfifo_unused. fold (kfifo_len k). wrap_small. lia.
Qed.

Lemma scale_le a b : a <= b -> a * esize k <= b * esize k.
Proof. intros. pose proof (wf_esize k W). nia. Qed.

Lemma start_lt x : (start k x < cap k)%nat.
Proof.
  unfold start, cap. pose proof (wf_index x) as [? _]. pose proof (wf_esize k W). apply Z2Nat.inj_lt; nia.
Qed.

Lemma span_spec n x : 0 <= n <= mask k + 1 ->
  span k n x = (Z.of_nat (start k x), n * esize k,
                Z.of_nat (Z.to_nat (n * esize k) `min` (cap k - start k x))%nat).
Proof.
  intros Hn. pose proof (start_lt x) as Hs. pose proof (wf_index x) as [Hi _]. pose proof wf_mask.
  pose proof esize_small. pose proof (wf_cap k W) as Hc. pose proof (scale_le n _ (proj2 Hn)).
  pose proof (scale_le (Z.land x (mask k)) (mask k + 1) ltac:(lia)).
  unfold span, start, cap in *. wrap_small. destruct (Z.eqb_spec (esize k) 1) as [E|E]; cbn [negb].
  - rewrite E, !Z.mul_1_r in *. wrap_small. f_equal; [f_equal|]; lia.
  - assert (0 <= Z.land x (mask k) * esize k) by nia. assert (0 <= n * esize k) by nia.
    wrap_small. f_equal; [f_equal|]; lia.
Qed.

Lemma start_add x n : is_u 32 x -> 0 <= n <= mask k + 1 ->
  slot (cap k) (start k x + Z.to_nat (n * esize k)) = start k (x +u n).
Proof.
  intros Hx Hn. unfold start, cap. pose proof wf_mask. pose proof (wf_esize k W).
  pose proof (wf_index x) as [Hi Ei]. pose proof (wf_index (x +u n)) as [Hj Ej].
  rewrite wf_wrap in Ej. set (a := Z.land x (mask k)) in *. set (b := Z.land (x +u n) (mask k)) in *.
  assert (b = a + n \/ b = a + n - (mask k + 1)) as Hb.
  { rewrite Ej, Ei. set (s := mask k + 1) in *. rewrite <- Z.add_mod_idemp_l by lia.
    rewrite Ei in Hi. set (r := x mod s) in *. destruct (decide (r + n < s)); [left; by apply Z.mod_small; lia|].
    right. destruct (decide (r + n - s < s)).
    - replace (r + n) with (r + n - s + 1 * s) at 1 by lia. rewrite Z.mod_add, Z.mod_small by lia. done.
    - lia. }
  unfold slot. destruct Hb as [Hb|Hb]; case_decide as D; rewrite <- ?Z2Nat.inj_add in * by nia;
    rewrite <- ?Z2Nat.inj_lt in D by nia; rewrite Hb.
  - f_equal. lia.
  - exfalso. apply D. nia.
  - exfalso. nia.
  - rewrite <- Z2Nat.inj_sub by nia. f_equal. lia.
Qed.

Lemma in_out : in_ k = out k +u kfifo_len k.
Proof.
  pose proof (wf_in k W). pose proof (wf_out k W). unfold kfifo_len, is_u in *.
  unfold wrapu. rewrite Zplus_mod_idemp_r. replace (out k + (in_ k - out k)) with (in_ k) by lia.
  symmetry. apply Z.mod_small. lia.
Qed.

Lemma start_in : start k (in_ k) = slot (cap k) (start k (out k) + length (contents k)).
Proof.
  destruct (wf_data k W) as (d & E & _). unfold contents. rewrite E, length_ring.
  rewrite start_add by (apply W || apply len_range). by rewrite <- in_out.
Qed.

Lemma length_contents : length (contents k) = Z.to_nat (kfifo_len k * esize k).
Proof. destruct (wf_data k W) as (d & E & _). unfold contents. by rewrite E, length_ring. Qed.

Lemma cap_room : cap k = (length (contents k) + Z.to_nat (kfifo_unused k * esize k))%nat.
Proof.
  rewrite length_contents. pose proof unused_spec as [-> ?]. pose proof len_range. pose proof (wf_esize k W).
  unfold cap. rewrite <- Z2Nat.inj_add by nia. f_equal. lia.
Qed.

Lemma same_shape_refl : same_shape k k.
Proof. destruct (wf_data k W) as (d & E & _). split_and!; try done. by exists d, d. Qed.

End wf_facts.

(** ** The copies *)

Lemma copies_in d S p b m : (p < S)%nat -> (m <= S)%nat -> (S <= length d)%nat -> (m <= length b)%nat ->
  (d ← copy_to (Some d) (Z.of_nat p) b (Z.of_nat (m `min` (S - p)));
   copy_to d 0 (drop (m `min` (S - p)) b) (Z.of_nat (m - m `min` (S - p)))) =
  Ok (Some (ring_put d S p (take m b))).
Proof.
  intros Hp Hm Hd Hb. unfold ring_put. rewrite length_take, (Nat.min_l m (length b)) by lia.
  set (l := (m `min` (S - p))%nat). cbn [copy_to mbind res_bind]. rewrite memcpy_at_spec by lia.
  cbn [copy_to mbind res_bind]. rewrite memcpy_at_spec;
    [| lia | rewrite length_drop; lia | rewrite !length_app, !length_take, length_drop; lia].
  cbn [mbind res_bind take]. rewrite !Nat2Z.id, Nat.add_0_l, take_take, Nat.min_l by lia.
  change (Z.to_nat 0) with 0%nat. rewrite take_0. cbn [app]. rewrite take_drop_commute.
  by replace (l + (m - l))%nat with m by lia.
Qed.

Lemma copies_out d S p dst m : (p < S)%nat -> (m <= S)%nat -> (S <= length d)%nat -> (m <= length dst)%nat ->
  (dst ← copy_of (Some d) (Z.of_nat p) dst 0 (Z.of_nat (m `min` (S - p)));
   copy_of (Some d) 0 dst (Z.of_nat (m `min` (S - p))) (Z.of_nat (m - m `min` (S - p)))) =
  Ok (ring d S p m ++ drop m dst).
Proof.
  intros Hp Hm Hd Hb. rewrite ring_pieces by lia. set (l := (m `min` (S - p))%nat).
  cbn [copy_of]. rewrite memcpy_at_spec by (rewrite ?length_drop; lia). cbn [mbind res_bind].
  rewrite memcpy_at_spec;
    [| lia | rewrite length_drop; lia | rewrite !length_app, !length_take, !length_drop; lia].
  cbn [take app]. rewrite !Nat2Z.id, Nat.add_0_l. change (Z.to_nat 0) with 0%nat. rewrite drop_0.
  rewrite take_0. cbn [app]. f_equal. rewrite take_app_length' by (rewrite length_take, length_drop; lia).
  rewrite <- app_assoc. do 2 f_equal. rewrite drop_app_ge by (rewrite length_take, length_drop; lia).
  rewrite length_take, length_drop, drop_drop. f_equal. lia.
Qed.

Section operations.
Context (k : __kfifo) (W : wf k).
Local Open Scope cint_scope.

Lemma copy_in_spec d src n x : data k = Some d -> 0 <= n <= mask k + 1 ->
  n * esize k <= Z.of_nat (length src) ->
  kfifo_copy_in k src n x =
  Ok (set_data (Some (ring_put d (cap k) (start k x) (take (Z.to_nat (n * esize k)) src))) k).
Proof.
  intros E Hn Hl. pose proof (scale_le k W _ _ (proj1 Hn)). pose proof (scale_le k W _ _ (proj2 Hn)).
  destruct (wf_data k W) as (d' & E' & Hd). rewrite E in E'. injection E' as <-.
  pose proof (wf_cap k W). assert (Z.of_nat (cap k) = (mask k + 1) * esize k) as Ec by (unfold cap; lia).
  unfold kfifo_copy_in. rewrite span_spec, E by done.
  rewrite u32_small by lia. rewrite Nat2Z.id.
  replace (n * esize k - Z.of_nat (Z.to_nat (n * esize k) `min` (cap k - start k x)))
    with (Z.of_nat (Z.to_nat (n * esize k) - Z.to_nat (n * esize k) `min` (cap k - start k x))) by lia.
  pose proof (copies_in d (cap k) (start k x) src (Z.to_nat (n * esize k)) (start_lt k W x)
    ltac:(lia) Hd ltac:(lia)) as C.
  apply bind_ok in C as (d1 & C1 & C2). rewrite C1. cbn [mbind res_bind]. by rewrite C2.
Qed.

Lemma copy_out_spec d dst n x : data k = Some d -> 0 <= n <= mask k + 1 ->
  n * esize k <= Z.of_nat (length dst) ->
  kfifo_copy_out k dst n x =
  Ok (ring d (cap k) (start k x) (Z.to_nat (n * esize k)) ++ drop (Z.to_nat (n * esize k)) dst).
Proof.
  intros E Hn Hl. pose proof (scale_le k W _ _ (proj1 Hn)). pose proof (scale_le k W _ _ (proj2 Hn)).
  destruct (wf_data k W) as (d' & E' & Hd). rewrite E in E'. injection E' as <-.
  pose proof (wf_cap k W). assert (Z.of_nat (cap k) = (mask k + 1) * esize k) as Ec by (unfold cap; lia).
  unfold kfifo_copy_out. rewrite span_spec, E by done. rewrite u32_small by lia.
  replace (n * esize k - Z.of_nat (Z.to_nat (n * esize k) `min` (cap k - start k x)))
    with (Z.of_nat (Z.to_nat (n * esize k) - Z.to_nat (n * esize k) `min` (cap k - start k x))) by lia.
  apply copies_out; [by apply start_lt | lia | done | lia].
Qed.

(** The front of the fifo, where [__kfifo_out] reads. *)
Lemma front d n : data k = Some d -> 0 <= n <= kfifo_len k ->
  ring d (cap k) (start k (out k)) (Z.to_nat (n * esize k)) = take (Z.to_nat (n * esize k)) (contents k).
Proof.
  intros E Hn. unfold contents. rewrite E, ring_take; [done|]. pose proof (scale_le k W n (kfifo_len k)). lia.
Qed.

(** Writing [b ++ g] behind the contents and publishing the [m] elements [b]. *)
Lemma publish d b g m : data k = Some d -> 0 <= m -> Z.of_nat (length b) = m * esize k ->
  Z.of_nat (length (b ++ g)) <= kfifo_unused k * esize k ->
  let k' := set_in (in_ k +u m) (set_data (Some (ring_put d (cap k) (start k (in_ k)) (b ++ g))) k) in
  wf k' /\ contents k' = contents k ++ b /\ kfifo_len k' = kfifo_len k + m /\ same_shape k k'.
Proof.
  intros E Hm Hb Hg. cbn zeta. set (k' := set_in _ _).
  pose proof (cap_room k W) as Hc. pose proof (unused_spec k W) as [Eu Hu]. pose proof (len_range k W).
  pose proof (wf_mask k W). pose proof (wf_esize k W). rewrite length_app in Hg.
  assert (m <= kfifo_unused k) as Hmu by nia.
  destruct (wf_data k W) as (d' & E' & Hd). rewrite E in E'. injection E' as <-.
  assert (kfifo_len k' = kfifo_len k + m) as El.
  { unfold kfifo_len, k' in *. cbn [in_ out set_in set_data]. rewrite u32_sub_l. wrap_small. done. }
  assert (length (ring_put d (cap k) (start k (in_ k)) (b ++ g)) = length d) as Ed.
  { apply length_ring_put; [by apply start_lt | rewrite length_app; nia | done]. }
  split_and!; [| | done |].
  - destruct W. constructor; try done; cbn [in_ out mask esize data set_in set_data] in *.
    + apply wrapu_range. lia.
    + rewrite El. change (mask k') with (mask k). lia.
    + eexists. split; [done|]. change (cap k') with (cap k). lia.
  - unfold contents at 1. rewrite El. cbn [data k' set_in set_data]. change (cap k') with (cap k).
    change (start k' (out k')) with (start k (out k)). change (esize k') with (esize k).
    rewrite <- (ring_take _ _ _ (length (contents k) + length (b ++ g))); cycle 1.
    { rewrite length_contents, length_app by done. rewrite Z.mul_add_distr_r, <- Hb. nia. }
    rewrite (start_in k W), ring_put_append; [| by apply start_lt | rewrite length_app; lia | done].
    replace (ring d (cap k) (start k (out k)) (length (contents k))) with (contents k); cycle 1.
    { unfold contents at 1. rewrite E. f_equal. symmetry. by apply length_contents. }
    rewrite app_assoc. apply take_app_length'. rewrite length_app, length_contents by done. nia.
  - split_and!; try done. by exists d, (ring_put d (cap k) (start k (in_ k)) (b ++ g)).
Qed.

(** Giving [m] elements back. *)
Lemma consume m : 0 <= m <= kfifo_len k ->
  let k' := set_out (out k +u m) k in
  wf k' /\ contents k' = drop (Z.to_nat (m * esize k)) (contents k) /\ kfifo_len k' = kfifo_len k - m /\
  same_shape k k'.
Proof.
  intros Hm. cbn zeta. set (k' := set_out _ _). pose proof (len_range k W) as Hl. pose proof (wf_mask k W).
  pose proof (scale_le k W m _ (proj2 Hm)). pose proof (scale_le k W _ _ (proj1 Hm)).
  pose proof (scale_le k W _ _ (proj2 Hl)).
  destruct (wf_data k W) as (d & E & Hd).
  assert (kfifo_len k' = kfifo_len k - m) as El.
  { unfold kfifo_len, k' in *. cbn [in_ out set_out]. rewrite u32_sub_r. wrap_small. done. }
  split_and!; [| | done |].
  - destruct W. constructor; try done; cbn [in_ out mask esize data set_out] in *; [apply wrapu_range; lia|].
    rewrite El. change (mask k') with (mask k). lia.
  - unfold contents. cbn [data k' set_out]. rewrite E, El. change (cap k') with (cap k).
    change (esize k') with (esize k). rewrite ring_drop; [| by apply start_lt | lia | unfold cap; lia].
    change (start k' (out k')) with (start k (out k +u m)).
    rewrite <- start_add by (apply W || lia). f_equal. rewrite Z.mul_sub_distr_r. lia.
  - split_and!; try done. by exists d, d.
Qed.

(** ** Plain operations *)

Lemma min_ltb (a b : Z) : (if a <? b then a else b) = Z.min b a.
Proof. destruct (Z.ltb_spec a b); lia. Qed.

Lemma in_spec buf len : 0 <= len -> Z.min len (kfifo_unused k) * esize k <= Z.of_nat (length buf) ->
  let n := Z.min len (kfifo_unused k) in
  exists k', __kfifo_in k buf len = Ok (n, k') /\ wf k' /\
    contents k' = contents k ++ take (Z.to_nat (n * esize k)) buf /\ kfifo_len k' = kfifo_len k + n /\
    same_shape k k'.
Proof.
  intros Hlen Hb. cbn zeta. set (n := Z.min len _) in *. pose proof (unused_spec k W) as [_ Hu].
  destruct (wf_data k W) as (d & E & Hd). unfold __kfifo_in. rewrite min_ltb. fold n.
  pose proof (scale_le k W _ _ (proj1 (conj (Z.le_min_r len (kfifo_unused k)) I))) as Hs. fold n in Hs.
  pose proof (scale_le k W 0 n ltac:(lia)).
  rewrite (copy_in_spec d) by (done || lia). cbn [mbind res_bind].
  destruct (publish d (take (Z.to_nat (n * esize k)) buf) [] n) as (W' & C & L & S);
    [done | lia | rewrite length_take; lia | rewrite app_nil_r, length_take; lia |].
  rewrite app_nil_r in *. eexists. by split_and!.
Qed.

Lemma out_peek_spec dst len : 0 <= len -> Z.min len (kfifo_len k) * esize k <= Z.of_nat (length dst) ->
  let n := Z.min len (kfifo_len k) in
  __kfifo_out_peek k dst len =
  Ok (n, take (Z.to_nat (n * esize k)) (contents k) ++ drop (Z.to_nat (n * esize k)) dst).
Proof.
  intros Hlen Hb. cbn zeta. pose proof (len_range k W).
  destruct (wf_data k W) as (d & E & Hd). unfold __kfifo_out_peek. fold (kfifo_len k). rewrite min_ltb.
  set (n := Z.min len _) in *. rewrite (copy_out_spec d) by (done || lia). cbn [mbind res_bind].
  by rewrite front by (done || lia).
Qed.

Lemma out_spec dst len : 0 <= len -> Z.min len (kfifo_len k) * esize k <= Z.of_nat (length dst) ->
  let n := Z.min len (kfifo_len k) in
  exists k', __kfifo_out k dst len =
    Ok (n, take (Z.to_nat (n * esize k)) (contents k) ++ drop (Z.to_nat (n * esize k)) dst, k') /\
    wf k' /\ contents k' = drop (Z.to_nat (n * esize k)) (contents k) /\ kfifo_len k' = kfifo_len k - n /\
    same_shape k k'.
Proof.
  intros Hlen Hb. cbn zeta. unfold __kfifo_out. rewrite out_peek_spec by done. cbn [mbind res_bind].
  pose proof (len_range k W). eexists. split; [done|]. apply consume. lia.
Qed.

(** ** Single elements *)

Lemma full_spec : kfifo_is_full k = (kfifo_unused k =? 0).
Proof.
  pose proof (unused_spec k W) as [-> _]. pose proof (len_range k W). unfold kfifo_is_full.
  destruct (Z.ltb_spec (mask k) (kfifo_len k)), (Z.eqb_spec (mask k + 1 - kfifo_len k) 0); lia.
Qed.

Lemma empty_spec : kfifo_is_empty k = (kfifo_len k =? 0).
Proof.
  unfold kfifo_is_empty. destruct (Z.eqb_spec (kfifo_len k) 0) as [E|E].
  - pose proof (in_out k W) as Hi. rewrite E, Z.add_0_r, u32_small in Hi by apply W. by apply Z.eqb_eq.
  - apply Z.eqb_neq. intros Hi. apply E. unfold kfifo_len. by rewrite Hi, Z.sub_diag.
Qed.

Lemma put_spec val : Z.of_nat (length val) = esize k ->
  exists k', kfifo_put_elem (esize k) k val = Ok (if kfifo_unused k =? 0 then 0 else 1, k') /\ wf k' /\
    contents k' = contents k ++ (if kfifo_unused k =? 0 then [] else val) /\ same_shape k k'.
Proof.
  intros Hv. unfold kfifo_put_elem. rewrite full_spec. pose proof (unused_spec k W) as [_ Hu].
  destruct (wf_data k W) as (d & E & Hd).
  destruct (Z.eqb_spec (kfifo_unused k) 0) as [E0|E0]; cbn [negb].
  { exists k. rewrite app_nil_r. split_and!; try done. by apply same_shape_refl. }
  pose proof (wf_index k W (in_ k)) as [Hi _]. pose proof (wf_esize k W).
  assert (Z.land (in_ k) (mask k) * esize k + esize k <= Z.of_nat (length d)) as Hfit.
  { unfold cap in Hd. nia. }
  unfold put_elem, copy_to. rewrite E, memcpy_at_spec by nia. cbn [mbind res_bind].
  destruct (publish d val [] 1) as (W' & C & L & S); [done | lia | lia | rewrite app_nil_r; nia |].
  eexists. split; [do 2 f_equal; reflexivity|].
  match type of W' with wf ?a => match goal with |- wf ?b /\ _ => replace b with a; [by split_and! |] end end.
  unfold set_in, set_data. cbn [out mask esize data in_]. f_equal. f_equal. rewrite app_nil_r.
  unfold ring_put. fold (start k (in_ k)). pose proof (start_lt k W (in_ k)).
  assert (length val <= cap k - start k (in_ k))%nat by (unfold cap, start; nia).
  rewrite Nat.min_l, drop_ge, Nat.sub_diag, drop_0 by lia. cbn [app]. do 2 f_equal; [|f_equal; lia].
  rewrite !take_ge by lia. done.
Qed.

Lemma get_elem_spec : kfifo_len k <> 0 ->
  get_elem (esize k) k (out k) = Ok (take (Z.to_nat (esize k)) (contents k)).
Proof.
  intros H0. pose proof (len_range k W) as Hl. destruct (wf_data k W) as (d & E & Hd).
  pose proof (wf_index k W (out k)) as [Hi _]. pose proof (wf_esize k W).
  assert (Z.land (out k) (mask k) * esize k + esize k <= Z.of_nat (cap k)) as Hfit by (unfold cap; nia).
  unfold get_elem, bytes_of, copy_of. rewrite E.
  rewrite memcpy_at_spec by (rewrite ?length_replicate, ?length_drop; lia).
  change (Z.to_nat 0) with 0%nat. rewrite take_0, Nat.add_0_l, drop_replicate, Nat.sub_diag, app_nil_r.
  f_equal. cbn [app]. pose proof (front d 1 E ltac:(lia)) as F. rewrite Z.mul_1_l in F. rewrite <- F. pose proof (start_lt k W (out k)).
  assert (Z.to_nat (esize k) <= cap k - start k (out k))%nat by (unfold start; lia).
  rewrite ring_pieces by lia. rewrite Nat.min_l, Nat.sub_diag, take_0, app_nil_r by lia. done.
Qed.

Lemma peek_spec : kfifo_peek_elem (esize k) k =
  Ok (if kfifo_len k =? 0 then 0 else 1, take (Z.to_nat (esize k)) (contents k)).
Proof.
  unfold kfifo_peek_elem. rewrite empty_spec. destruct (Z.eqb_spec (kfifo_len k) 0) as [E|E]; cbn [negb].
  - replace (contents k) with (@nil Z); [by rewrite take_nil|]. symmetry. apply nil_length_inv.
    by rewrite length_contents, E.
  - by rewrite get_elem_spec.
Qed.

Lemma get_spec : exists k', kfifo_get_elem (esize k) k =
    Ok (if kfifo_len k =? 0 then 0 else 1, take (Z.to_nat (esize k)) (contents k), k') /\ wf k' /\
  contents k' = drop (Z.to_nat (esize k)) (contents k) /\ same_shape k k'.
Proof.
  unfold kfifo_get_elem. rewrite empty_spec. destruct (Z.eqb_spec (kfifo_len k) 0) as [E|E]; cbn [negb].
  - assert (contents k = []) as Ec by (apply nil_length_inv; by rewrite length_contents, E).
    rewrite Ec, take_nil, drop_nil. exists k. split_and!; try done. by apply same_shape_refl.
  - rewrite get_elem_spec by done. cbn [mbind res_bind]. pose proof (len_range k W).
    destruct (consume 1) as (W' & C & _ & S); [lia|]. rewrite Z.mul_1_l in C. eexists. by split_and!.
Qed.

End operations.

(** ** User space *)

(** The [n] bytes at user address [a]. *)
Definition user_bytes {U} `{!UserAccess U} (u : U) (a : Z) (n : nat) : list Z :=
  (fun i => user_byte u (a + Z.of_nat i)) <$> seq 0 n.
(** Every copy from, and to, the [n] bytes at [a] is complete. *)
Definition readable {U} `{!UserAccess U} (u : U) (a n : Z) : Prop := forall b m,
  a <= b -> 0 <= m -> b + m <= a + n -> access_ok b m = true /\ fst (__copy_from_user u b m) = 0.
Definition writable {U} `{!UserAccess U} (a n : Z) : Prop := forall (u : U) b l,
  a <= b -> b + Z.of_nat (length l) <= a + n ->
  access_ok b (Z.of_nat (length l)) = true /\ fst (__copy_to_user u b l) = 0.

(** Rounding up to whole elements: [r] bytes of [n] elements are missing. *)
Lemma round_up_spec r n e : 0 <= r <= n * e -> 1 <= e -> n * e + e <= 4294967296 -> 0 <= n ->
  exists q, DIV_ROUND_UP r e = Ok q /\ 0 <= q <= n /\ r <= q * e /\ (r = 0 <-> q = 0).
Proof.
  intros Hr He Hb Hn. unfold DIV_ROUND_UP, divu. rewrite (proj2 (Z.eqb_neq e 0)) by lia.
  exists ((r + e - 1) / e). assert (u32 (u32 (r + e) - 1) = r + e - 1) as ->.
  { destruct (decide (r + e = 4294967296)) as [->|Hne]; [done|]. wrap_small. done. }
  split; [done|]. pose proof (Z.div_mod (r + e - 1) e ltac:(lia)). pose proof (Z.mod_pos_bound (r + e - 1) e ltac:(lia)).
  set (q := (r + e - 1) / e) in *. split; [|split]; nia.
Qed.

Section user.
Context {U : Type} `{!UserAccess U}.
Local Open Scope cint_scope.

Lemma length_user_bytes (u : U) a n : length (user_bytes u a n) = n.
Proof. unfold user_bytes. by rewrite length_fmap, length_seq. Qed.

Lemma user_bytes_lookup (u : U) a n i : (i < n)%nat -> user_bytes u a n !! i = Some (user_byte u (a + Z.of_nat i)).
Proof. intros Hi. unfold user_bytes. by rewrite list_lookup_fmap, lookup_seq_lt. Qed.

Lemma user_bytes_app (u : U) a n m :
  user_bytes u a (n + m) = user_bytes u a n ++ user_bytes u (a + Z.of_nat n) m.
Proof.
  unfold user_bytes. rewrite seq_app, fmap_app. f_equal. cbn [Nat.add].
  replace (seq n m) with (Nat.add n <$> seq 0 m) by (by rewrite fmap_add_seq, Nat.add_0_r).
  rewrite <- list_fmap_compose. apply list_fmap_ext. intros i x _. cbn [compose]. f_equal. lia.
Qed.

Lemma user_bytes_take (u : U) a n m : (m <= n)%nat -> take m (user_bytes u a n) = user_bytes u a m.
Proof. intros. unfold user_bytes. by rewrite <- fmap_take, take_seq, Nat.min_l by done. Qed.

Lemma user_bytes_eq (u : U) a l : (forall i, (i < length l)%nat -> l !! i = Some (user_byte u (a + Z.of_nat i))) ->
  user_bytes u a (length l) = l.
Proof.
  intros H. apply list_eq_same_length with (length l); [done | apply length_user_bytes |].
  intros i x y Hi. rewrite user_bytes_lookup, H by done. congruence.
Qed.

Lemma user_bytes_ext (u u' : U) a n :
  (forall i, (i < n)%nat -> user_byte u (a + Z.of_nat i) = user_byte u' (a + Z.of_nat i)) ->
  user_bytes u a n = user_bytes u' a n.
Proof.
  intros H. apply list_fmap_ext. intros i x Hx. apply lookup_seq in Hx as [-> Hx]. by apply H.
Qed.

(** One copy: what arrived, and how much of it. *)
Lemma copy_from_user_spec (u : U) d off from (n : nat) : 0 <= off -> off + Z.of_nat n <= Z.of_nat (length d) ->
  exists (rest : nat) l,
    copy_from_user u (Some d) off from (Z.of_nat n) =
      Ok (Z.of_nat rest, Some (take (Z.to_nat off) d ++ l ++ drop (Z.to_nat off + n) d)) /\
    (rest <= n)%nat /\ length l = n /\ take (n - rest) l = user_bytes u from (n - rest) /\
    (forall a c, readable u a c -> a <= from -> from + Z.of_nat n <= a + c -> rest = 0%nat).
Proof.
  intros Hoff Hn. unfold copy_from_user.
  destruct (access_ok from (Z.of_nat n)) eqn:Ea.
  - pose proof (from_user_left u from (Z.of_nat n) ltac:(lia)) as Hr.
    pose proof (from_user_length u from (Z.of_nat n) ltac:(lia)) as Hl.
    pose proof (from_user_copied u from (Z.of_nat n)) as Hc.
    destruct (__copy_from_user u from (Z.of_nat n)) as [r l] eqn:E. cbn [fst snd] in *.
    exists (Z.to_nat r), l. cbn [copy_to]. rewrite memcpy_at_spec by lia. cbn [mbind res_bind].
    split_and!; try lia.
    + rewrite !Nat2Z.id, (take_ge l) by lia. rewrite Z2Nat.id by lia. done.
    + assert (length (take (n - Z.to_nat r) l) = (n - Z.to_nat r)%nat) as El by (rewrite length_take; lia).
      rewrite <- El at 2. symmetry. apply user_bytes_eq. intros i Hi. rewrite El in Hi.
      rewrite lookup_take_lt by done. rewrite <- Hc by lia. f_equal. lia.
    + intros a c Hrd Ha Hac. specialize (Hrd from (Z.of_nat n) Ha ltac:(lia) Hac) as [_ H0].
      rewrite E in H0. cbn in H0. lia.
  - exists n, (replicate n 0). cbn [copy_to]. rewrite !Nat2Z.id.
    rewrite memcpy_at_spec by (rewrite ?length_replicate; lia). cbn [mbind res_bind].
    rewrite (take_ge (replicate n 0)) by (by rewrite length_replicate). rewrite Nat.sub_diag, length_replicate.
    split_and!; try done. intros a c Hrd Ha Hac. specialize (Hrd from (Z.of_nat n) Ha ltac:(lia) Hac) as [H0 _].
    congruence.
Qed.

Lemma bytes_of_spec d off n : 0 <= off -> off + Z.of_nat n <= Z.of_nat (length d) ->
  bytes_of (Some d) off (Z.of_nat n) = Ok (take n (drop (Z.to_nat off) d)).
Proof.
  intros Ho Hn. unfold bytes_of, copy_of. rewrite !Nat2Z.id.
  rewrite memcpy_at_spec by (rewrite ?length_replicate, ?length_drop; lia).
  change (Z.to_nat 0) with 0%nat. by rewrite take_0, Nat.add_0_l, drop_replicate, Nat.sub_diag, app_nil_r.
Qed.

Lemma copy_to_user_spec (u : U) d off to (n : nat) : 0 <= off -> off + Z.of_nat n <= Z.of_nat (length d) ->
  exists (rest : nat) u',
    copy_to_user u to (Some d) off (Z.of_nat n) = Ok (Z.of_nat rest, u') /\ (rest <= n)%nat /\
    user_bytes u' to (n - rest) = take (n - rest) (drop (Z.to_nat off) d) /\
    (forall b, b < to \/ to + Z.of_nat n <= b -> user_byte u' b = user_byte u b) /\
    (forall a c, writable (U := U) a c -> a <= to -> to + Z.of_nat n <= a + c -> rest = 0%nat).
Proof.
  intros Hoff Hn. unfold copy_to_user. rewrite bytes_of_spec by done. cbn [mbind res_bind].
  set (l := take n _). assert (length l = n) as El by (unfold l; rewrite length_take, length_drop; lia).
  destruct (access_ok to (Z.of_nat n)) eqn:Ea.
  - pose proof (to_user_left u to l) as Hr. pose proof (to_user_copied u to l) as Hc.
    pose proof (to_user_frame u to l) as Hf. rewrite El in *.
    destruct (__copy_to_user u to l) as [r u'] eqn:E. cbn [fst snd] in *.
    exists (Z.to_nat r), u'. split_and!; try lia; try done.
    + by rewrite Z2Nat.id by lia.
    + replace (take (n - Z.to_nat r) (drop (Z.to_nat off) d)) with (take (n - Z.to_nat r) l)
        by (unfold l; rewrite take_take; f_equal; lia).
      assert (length (take (n - Z.to_nat r) l) = (n - Z.to_nat r)%nat) as Et by (rewrite length_take; lia).
      rewrite <- Et at 1. apply user_bytes_eq. intros i Hi. rewrite Et in Hi.
      rewrite lookup_take_lt by done. rewrite <- Hc by lia. f_equal. lia.
    + intros a c Hw Ha Hac. specialize (Hw u to l Ha ltac:(lia)) as [_ H0]. rewrite E in H0. cbn in H0. lia.
  - exists n, u. rewrite Nat.sub_diag. split_and!; try done.
    intros a c Hw Ha Hac. specialize (Hw u to l Ha ltac:(lia)) as [H0 _]. rewrite El in H0. congruence.
Qed.

End user.

(** The copies in one and in two pieces, as puts into the ring. *)
Lemma ring_put_one d S p b : (length b <= S - p)%nat ->
  ring_put d S p b = take p d ++ b ++ drop (p + length b) d.
Proof. intros. unfold ring_put. by rewrite Nat.min_l, firstn_all, drop_all, Nat.sub_diag, drop_0 by lia. Qed.

Lemma ring_put_two d S p b c : length b = ((length b + length c) `min` (S - p))%nat ->
  ring_put d S p (b ++ c) = c ++ drop (length c) (take p d ++ b ++ drop (p + length b) d).
Proof.
  intros H. unfold ring_put. rewrite length_app, <- H. rewrite take_app_length, drop_app_length.
  by replace (length b + length c - length b)%nat with (length c) by lia.
Qed.

Section user_fifo.
Context {U : Type} `{!UserAccess U}.
Context (k : __kfifo) (W : wf k).
Local Open Scope cint_scope.

(** What the prologue of the copies establishes. *)
Lemma span_facts d n x : data k = Some d -> 0 <= n <= mask k + 1 ->
  let N := Z.to_nat (n * esize k) in let l := (N `min` (cap k - start k x))%nat in
  span k n x = (Z.of_nat (start k x), Z.of_nat N, Z.of_nat l) /\ Z.of_nat N = n * esize k /\
  Z.of_nat N <= 2147483648 /\ (start k x + l <= length d)%nat /\ (N - l <= length d)%nat /\
  n * esize k + esize k <= 4294967296 /\ (start k x < cap k)%nat /\ (N <= cap k <= length d)%nat.
Proof.
  intros E Hn. cbn zeta. pose proof (span_spec k W n x Hn) as ->. pose proof (start_lt k W x).
  destruct (wf_data k W) as (d' & E' & Hd). rewrite E in E'. injection E' as <-.
  pose proof (wf_cap k W). pose proof (esize_small k W).
  pose proof (scale_le k W _ _ (proj1 Hn)). pose proof (scale_le k W _ _ (proj2 Hn)).
  assert (Z.of_nat (cap k) = (mask k + 1) * esize k) by (unfold cap; lia).
  split_and!; try lia. by rewrite Z2Nat.id by lia.
Qed.

(** The number of elements a copy with [r] bytes missing did not finish. *)
Lemma missing (r N l n : Z) : 0 <= r <= l -> l <= N -> N <= 2147483648 -> 0 <= n -> 1 <= esize k ->
  N = n * esize k -> n * esize k + esize k <= 4294967296 ->
  exists m, DIV_ROUND_UP (r +u N -u l) (esize k) = Ok (n - m) /\ 0 <= m <= n /\ m * esize k <= l - r /\
    (r +u N -u l = 0 <-> m = n).
Proof.
  intros Hr Hl HN Hn He EN Hb.
  assert (r +u N -u l = r + N - l) as E.
  { unfold wrapu at 1 2. rewrite Zminus_mod_idemp_l. apply Z.mod_small. lia. }
  destruct (round_up_spec (r + N - l) n (esize k)) as (q & Eq & Hq & Hrq & Hz); [lia.. |].
  exists (n - q). rewrite E. split_and!; [by rewrite Z.sub_sub_distr, Z.sub_diag, Eq | lia | lia | nia | lia].
Qed.

Lemma fifo_from_user_spec (u : U) d from n x : data k = Some d -> 0 <= n <= mask k + 1 ->
  0 <= from -> from + n * esize k < 4294967296 ->
  exists m g, kfifo_copy_from_user u k from n x =
      Ok (n - m, m * esize k,
          set_data (Some (ring_put d (cap k) (start k x) (user_bytes u from (Z.to_nat (m * esize k)) ++ g))) k) /\
    0 <= m <= n /\ m * esize k + Z.of_nat (length g) <= n * esize k /\
    (readable u from (n * esize k) -> m = n).
Proof.
  intros E Hn Hf Hfn. pose proof (span_facts d n x E Hn) as (Es & EN & HN & H1 & H2 & Hb & Hp & Hc).
  set (N := Z.to_nat _) in *. set (l := (N `min` _)%nat) in *. pose proof (esize_small k W) as He.
  pose proof (scale_le k W _ _ (proj1 Hn)).
  unfold kfifo_copy_from_user. rewrite Es, E.
  destruct (copy_from_user_spec u d (Z.of_nat (start k x)) from l) as (r & b & Ec & Hr & Hbl & Hg & Hall); [lia..|].
  rewrite Ec. cbn [mbind res_bind]. rewrite Nat2Z.id in *.
  assert (forall m, 0 <= m <= n -> Z.of_nat N -u ((n - m) *u esize k) = m * esize k) as Hcop.
  { intros m Hm. pose proof (scale_le k W 0 (n - m)). pose proof (scale_le k W (n - m) n).
    rewrite (u32_small (_ * _)), u32_small; lia. }
  destruct (Z.eqb_spec (Z.of_nat r) 0) as [Hr0|Hr0]; cbn [negb].
  - assert (r = 0%nat) as -> by lia. rewrite Nat.sub_0_r, <- Hbl, firstn_all in Hg.
    rewrite u32_small by lia. rewrite u32_small by lia.
    replace (Z.of_nat N - Z.of_nat l) with (Z.of_nat (N - l)) by lia.
    destruct (copy_from_user_spec u (take (start k x) d ++ b ++ drop (start k x + l) d) 0 (from + Z.of_nat l) (N - l))
      as (r2 & c & Ec2 & Hr2 & Hcl & Hg2 & Hall2); [lia | rewrite !length_app, length_take, length_drop; lia |].
    rewrite Ec2. cbn [mbind res_bind]. change (Z.to_nat 0) with 0%nat. rewrite take_0, Nat.add_0_l. cbn [app].
    pose proof (ring_put_two d (cap k) (start k x) b c ltac:(lia)) as Er.
    rewrite Hbl, Hcl in Er. rewrite <- Er.
    destruct (round_up_spec (Z.of_nat r2) n (esize k)) as (q & Eq & Hq & Hrq & Hz); [lia.. |].
    assert (exists m g, b ++ c = user_bytes u from (Z.to_nat (m * esize k)) ++ g /\ m = n - q /\
              m * esize k + Z.of_nat (length g) <= n * esize k) as (m & g & Ebc & -> & Hgl).
    { exists (n - q), (drop (Z.to_nat ((n - q) * esize k)) (b ++ c)). split; [|split; [done|]].
      - rewrite <- (take_drop (Z.to_nat ((n - q) * esize k)) (b ++ c)) at 1. f_equal.
        assert (Z.to_nat ((n - q) * esize k) <= l + (N - l - r2))%nat by lia.
        rewrite <- (user_bytes_take u from (l + (N - l - r2))) by done.
        rewrite user_bytes_app, <- Hg2. rewrite Hbl in Hg. rewrite <- Hg.
        rewrite !take_app, take_take. do 2 f_equal. lia.
      - pose proof (scale_le k W (n - q) n). pose proof (scale_le k W 0 (n - q)). rewrite length_drop, length_app. lia. }
    exists (n - q), g. rewrite Ebc. split; [|split_and!; try lia].
    + destruct (Z.eqb_spec (Z.of_nat r2) 0) as [Hz2|Hz2]; cbn [negb].
      * replace (Z.of_nat r2) with (n - (n - q)) by lia. cbn [mbind res_bind]. rewrite Hcop by lia. done.
      * rewrite Eq. cbn [mbind res_bind]. replace q with (n - (n - q)) at 1 2 by lia. rewrite Hcop by lia. done.
    + intros Hrd. assert (r2 = 0%nat) as -> by (eapply Hall2; [done|lia..]). lia.
  - destruct (missing (Z.of_nat r) (Z.of_nat N) (Z.of_nat l) n) as (m & Em & Hm & Hmr & Hmz); [lia.. |].
    rewrite Em. cbn [mbind res_bind]. rewrite Hcop by lia.
    exists m, (drop (Z.to_nat (m * esize k)) b).
    assert (user_bytes u from (Z.to_nat (m * esize k)) ++ drop (Z.to_nat (m * esize k)) b = b) as ->.
    { rewrite <- (take_drop (Z.to_nat (m * esize k)) b) at 2. f_equal.
      rewrite <- (user_bytes_take u from (l - r)) by lia. rewrite <- Hg, take_take. f_equal. lia. }
    rewrite ring_put_one by lia. rewrite Hbl. split_and!; [done | lia | lia | |].
    { pose proof (scale_le k W m n). pose proof (scale_le k W 0 m). rewrite length_drop. lia. }
    intros Hrd. assert (r = 0%nat) as -> by (eapply Hall; [done|lia..]). lia.
Qed.

(** [take m] of what the two pieces of a copy out read. *)
Lemma fifo_to_user_spec (u : U) d to n x : data k = Some d -> 0 <= n <= mask k + 1 ->
  0 <= to -> to + n * esize k < 4294967296 ->
  exists m u', kfifo_copy_to_user u k to n x = Ok (n - m, m * esize k, u') /\ 0 <= m <= n /\
    user_bytes u' to (Z.to_nat (m * esize k)) = ring d (cap k) (start k x) (Z.to_nat (m * esize k)) /\
    (forall b, b < to \/ to + n * esize k <= b -> user_byte u' b = user_byte u b) /\
    (writable (U := U) to (n * esize k) -> m = n).
Proof.
  intros E Hn Hf Hfn. pose proof (span_facts d n x E Hn) as (Es & EN & HN & H1 & H2 & Hb & Hp & Hc).
  set (N := Z.to_nat _) in *. set (l := (N `min` _)%nat) in *. pose proof (esize_small k W) as He.
  pose proof (scale_le k W _ _ (proj1 Hn)).
  unfold kfifo_copy_to_user. rewrite Es, E.
  destruct (copy_to_user_spec u d (Z.of_nat (start k x)) to l) as (r & u1 & Ec & Hr & Hg & Hfr & Hall); [lia..|].
  rewrite Ec. cbn [mbind res_bind]. rewrite Nat2Z.id in *.
  assert (forall m, 0 <= m <= n -> Z.of_nat N -u ((n - m) *u esize k) = m * esize k) as Hcop.
  { intros m Hm. pose proof (scale_le k W 0 (n - m)). pose proof (scale_le k W (n - m) n).
    rewrite (u32_small (_ * _)), u32_small; lia. }
  assert (forall j, (j <= l)%nat -> ring d (cap k) (start k x) j = take j (drop (start k x) d)) as Hone.
  { intros j Hj. rewrite ring_pieces, Nat.min_l, Nat.sub_diag, take_0, app_nil_r by lia. done. }
  destruct (Z.eqb_spec (Z.of_nat r) 0) as [Hr0|Hr0]; cbn [negb].
  - assert (r = 0%nat) as -> by lia. rewrite Nat.sub_0_r in Hg.
    rewrite u32_small by lia. rewrite u32_small by lia.
    replace (Z.of_nat N - Z.of_nat l) with (Z.of_nat (N - l)) by lia.
    destruct (copy_to_user_spec u1 d 0 (to + Z.of_nat l) (N - l)) as (r2 & u2 & Ec2 & Hr2 & Hg2 & Hfr2 & Hall2); [lia..|].
    rewrite Ec2. cbn [mbind res_bind]. change (Z.to_nat 0) with 0%nat in Hg2. rewrite drop_0 in Hg2.
    destruct (round_up_spec (Z.of_nat r2) n (esize k)) as (q & Eq & Hq & Hrq & Hz); [lia.. |].
    exists (n - q), u2. split; [|split_and!; try lia].
    + destruct (Z.eqb_spec (Z.of_nat r2) 0) as [Hz2|Hz2]; cbn [negb].
      * replace (Z.of_nat r2) with (n - (n - q)) by lia. cbn [mbind res_bind]. rewrite Hcop by lia. done.
      * rewrite Eq. cbn [mbind res_bind]. replace q with (n - (n - q)) at 1 2 by lia. rewrite Hcop by lia. done.
    + pose proof (scale_le k W (n - q) n). pose proof (scale_le k W 0 (n - q)).
      set (j := Z.to_nat _). assert (j <= l + (N - l - r2))%nat by lia.
      rewrite <- (user_bytes_take u2 to (l + (N - l - r2))) by done.
      rewrite <- (ring_take _ _ _ (l + (N - l - r2))) by done. f_equal.
      rewrite user_bytes_app, Hg2, (user_bytes_ext u2 u1), Hg by (intros i Hi; apply Hfr2; lia).
      destruct (decide (N - l = 0)%nat) as [Hz0|Hz0].
      * rewrite Hz0, take_0, app_nil_r, Nat.add_0_r, Hone by lia. done.
      * rewrite ring_pieces by lia. f_equal; f_equal; lia.
    + intros b Hb'. rewrite Hfr2 by lia. apply Hfr. lia.
    + intros Hrd. assert (r2 = 0%nat) as -> by (eapply Hall2; [done|lia..]). lia.
  - destruct (missing (Z.of_nat r) (Z.of_nat N) (Z.of_nat l) n) as (m & Em & Hm & Hmr & Hmz); [lia.. |].
    pose proof (scale_le k W 0 m). rewrite Em. cbn [mbind res_bind]. rewrite Hcop by lia.
    exists m, u1. split_and!; [done | lia | lia | | intros b Hb'; apply Hfr; lia |].
    + rewrite Hone by lia. rewrite <- (user_bytes_take u1 to (l - r)) by lia. rewrite Hg, take_take. f_equal. lia.
    + intros Hrd. assert (r = 0%nat) as -> by (eapply Hall; [done|lia..]). lia.
Qed.

(** Both directions of a length in bytes that is made one in elements. *)
Lemma elements len : (if negb (esize k =? 1) then divu len (esize k) else Ok len) = Ok (len / esize k).
Proof.
  pose proof (wf_esize k W). unfold divu. destruct (Z.eqb_spec (esize k) 1) as [->|E1]; cbn [negb].
  - by rewrite Z.div_1_r.
  - by rewrite (proj2 (Z.eqb_neq (esize k) 0)) by lia.
Qed.

Lemma from_user_spec (u : U) from len : 0 <= len -> 0 <= from -> from + len < 4294967296 ->
  let n := Z.min (len / esize k) (kfifo_unused k) in
  exists m k', __kfifo_from_user u k from len = Ok (if m =? n then 0 else - EFAULT, m * esize k, k') /\
    0 <= m <= n /\ wf k' /\ contents k' = contents k ++ user_bytes u from (Z.to_nat (m * esize k)) /\
    (readable u from (n * esize k) -> m = n) /\ same_shape k k'.
Proof.
  intros Hlen Hf Hfl. cbn zeta. pose proof (unused_spec k W) as [_ Hu]. pose proof (wf_esize k W).
  destruct (wf_data k W) as (d & E & Hd). unfold __kfifo_from_user. rewrite elements. cbn [mbind res_bind].
  rewrite min_ltb. pose proof (Z.div_pos len (esize k) Hlen ltac:(lia)).
  pose proof (Z.mul_div_le len (esize k) ltac:(lia)). set (n := Z.min _ _) in *.
  pose proof (scale_le k W n (len / esize k) ltac:(lia)). pose proof (scale_le k W n (kfifo_unused k) ltac:(lia)).
  destruct (fifo_from_user_spec u d from n (in_ k)) as (m & g & Ec & Hm & Hg & Hall); [done | lia.. |].
  rewrite Ec. cbn [mbind res_bind]. pose proof (scale_le k W 0 m ltac:(lia)).
  destruct (publish k W d (user_bytes u from (Z.to_nat (m * esize k))) g m) as (W' & C & _ & S);
    [done | lia | rewrite length_user_bytes; lia | rewrite length_app, length_user_bytes; lia |].
  pose proof (wf_mask k W).
  eexists m, _. split; [|split_and!; try done; lia].
  destruct (Z.eqb_spec (n - m) 0), (Z.eqb_spec m n); cbn [negb]; try lia; cbn [mbind res_bind].
  - by replace n with m by lia.
  - rewrite (u32_small (n - (n - m))) by lia. by replace (n - (n - m)) with m by lia.
Qed.

Lemma to_user_spec (u : U) to len : 0 <= len -> 0 <= to -> to + len < 4294967296 ->
  let n := Z.min (len / esize k) (kfifo_len k) in
  exists m u' k', __kfifo_to_user u k to len = Ok (if m =? n then 0 else - EFAULT, m * esize k, u', k') /\
    0 <= m <= n /\ wf k' /\
    contents k = user_bytes u' to (Z.to_nat (m * esize k)) ++ contents k' /\
    (forall b, b < to \/ to + n * esize k <= b -> user_byte u' b = user_byte u b) /\
    (writable (U := U) to (n * esize k) -> m = n) /\ same_shape k k'.
Proof.
  intros Hlen Hf Hfl. cbn zeta. pose proof (len_range k W) as Hu. pose proof (wf_esize k W).
  destruct (wf_data k W) as (d & E & Hd). unfold __kfifo_to_user. rewrite elements. cbn [mbind res_bind].
  fold (kfifo_len k). rewrite min_ltb. pose proof (Z.div_pos len (esize k) Hlen ltac:(lia)).
  pose proof (Z.mul_div_le len (esize k) ltac:(lia)). set (n := Z.min _ _) in *.
  pose proof (scale_le k W n (len / esize k) ltac:(lia)).
  destruct (fifo_to_user_spec u d to n (out k)) as (m & u' & Ec & Hm & Hg & Hfr & Hall); [done | lia.. |].
  rewrite Ec. cbn [mbind res_bind].
  destruct (consume k W m ltac:(lia)) as (W' & C & _ & S). pose proof (wf_mask k W).
  eexists m, u', _. split; [|split_and!; try done].
  - destruct (Z.eqb_spec (n - m) 0), (Z.eqb_spec m n); cbn [negb]; try lia; cbn [mbind res_bind].
    + by replace n with m by lia.
    + rewrite (u32_small (n - (n - m))) by lia. by replace (n - (n - m)) with m by lia.
  - lia.
  - lia.
  - rewrite C, Hg, (front k W) by (done || lia). by rewrite take_drop.
Qed.

End user_fifo.

(** * The abstract queue *)

(** A queue of at most [q_size] elements of [q_esize] bytes, as the list of its bytes. *)
Record queue := MkQueue { q_size : Z; q_esize : Z; q_bytes : list Z }.
Definition q_count (q : queue) : Z := Z.of_nat (length (q_bytes q)) / q_esize q.
Definition q_put (b : list Z) (q : queue) : queue := MkQueue (q_size q) (q_esize q) (q_bytes q ++ b).
Definition q_keep (b : list Z) (q : queue) : queue := MkQueue (q_size q) (q_esize q) b.

Definition represents (k : __kfifo) (q : queue) : Prop :=
  wf k /\ q_size q = mask k + 1 /\ q_esize q = esize k /\ q_bytes q = contents k.

(** The operations, with their arguments. *)
Inductive op :=
  | Fifo_in (buf : list Z) (len : Z)
  | Fifo_out (buf : list Z) (len : Z)
  | Fifo_out_peek (buf : list Z) (len : Z)
  | Fifo_put (val : list Z)
  | Fifo_get
  | Fifo_peek
  | Fifo_skip
  | Fifo_reset
  | Fifo_reset_out
  | Fifo_len
  | Fifo_is_empty
  | Fifo_is_full
  | Fifo_from_user (from len : Z)
  | Fifo_to_user (to len : Z).

(** A return value, [*copied], and the caller's buffer or value afterwards. *)
Definition result : Type := Z * Z * list Z.
Definition truth (b : bool) : Z := if b then 1 else 0.

Section refinement.
Context {U : Type} `{!UserAccess U}.

Definition run_op (o : op) (u : U) (k : __kfifo) : res (result * U * __kfifo) :=
  match o with
  | Fifo_in buf len => '(n, k) ← __kfifo_in k buf len; Ok ((n, 0, []), u, k)
  | Fifo_out buf len => '(n, buf, k) ← __kfifo_out k buf len; Ok ((n, 0, buf), u, k)
  | Fifo_out_peek buf len => '(n, buf) ← __kfifo_out_peek k buf len; Ok ((n, 0, buf), u, k)
  | Fifo_put val => '(n, k) ← kfifo_put_elem (esize k) k val; Ok ((n, 0, []), u, k)
  | Fifo_get => '(n, v, k) ← kfifo_get_elem (esize k) k; Ok ((n, 0, v), u, k)
  | Fifo_peek => '(n, v) ← kfifo_peek_elem (esize k) k; Ok ((n, 0, v), u, k)
  | Fifo_skip => Ok ((0, 0, []), u, kfifo_skip_elem k)
  | Fifo_reset => Ok ((0, 0, []), u, kfifo_reset k)
  | Fifo_reset_out => Ok ((0, 0, []), u, kfifo_reset_out k)
  | Fifo_len => Ok ((kfifo_len k, 0, []), u, k)
  | Fifo_is_empty => Ok ((truth (kfifo_is_empty k), 0, []), u, k)
  | Fifo_is_full => Ok ((truth (kfifo_is_full k), 0, []), u, k)
  | Fifo_from_user from len => '(e, c, k) ← __kfifo_from_user u k from len; Ok ((e, c, []), u, k)
  | Fifo_to_user to len => '(e, c, u, k) ← __kfifo_to_user u k to len; Ok ((e, c, []), u, k)
  end.
Fixpoint run_ops (os : list op) (u : U) (k : __kfifo) : res (list result * U * __kfifo) :=
  match os with
  | [] => Ok ([], u, k)
  | o :: os =>
      '(r, u, k) ← run_op o u k;
      '(rs, u, k) ← run_ops os u k;
      Ok (r :: rs, u, k)
  end.

(** What a caller may ask: buffers that hold what can be moved, an element of the right
    size, nothing skipped in an empty queue, a user range inside the address space. *)
Definition may (o : op) (q : queue) : Prop :=
  match o with
  | Fifo_in buf len => 0 <= len /\ Z.min len (q_size q - q_count q) * q_esize q <= Z.of_nat (length buf)
  | Fifo_out buf len | Fifo_out_peek buf len => 0 <= len /\ Z.min len (q_count q) * q_esize q <= Z.of_nat (length buf)
  | Fifo_put val => Z.of_nat (length val) = q_esize q
  | Fifo_skip => q_count q <> 0
  | Fifo_from_user a len | Fifo_to_user a len => 0 <= len /\ 0 <= a /\ a + len < 4294967296
  | _ => True
  end.

(** What the operations promise.  A copy from or to user space moves [m] of the [n]
    elements it could, all of them when the range is accessible. *)
Inductive promises : op -> U -> queue -> result -> U -> queue -> Prop :=
  | P_in buf len u q n : n = Z.min len (q_size q - q_count q) ->
      promises (Fifo_in buf len) u q (n, 0, []) u (q_put (take (Z.to_nat (n * q_esize q)) buf) q)
  | P_out buf len u q n j : n = Z.min len (q_count q) -> j = Z.to_nat (n * q_esize q) ->
      promises (Fifo_out buf len) u q (n, 0, take j (q_bytes q) ++ drop j buf) u (q_keep (drop j (q_bytes q)) q)
  | P_out_peek buf len u q n j : n = Z.min len (q_count q) -> j = Z.to_nat (n * q_esize q) ->
      promises (Fifo_out_peek buf len) u q (n, 0, take j (q_bytes q) ++ drop j buf) u q
  | P_put val u q : q_count q < q_size q -> promises (Fifo_put val) u q (1, 0, []) u (q_put val q)
  | P_put_full val u q : q_count q = q_size q -> promises (Fifo_put val) u q (0, 0, []) u q
  | P_get u q j : q_count q <> 0 -> j = Z.to_nat (q_esize q) ->
      promises Fifo_get u q (1, 0, take j (q_bytes q)) u (q_keep (drop j (q_bytes q)) q)
  | P_get_empty u q : q_bytes q = [] -> promises Fifo_get u q (0, 0, []) u q
  | P_peek u q : q_count q <> 0 -> promises Fifo_peek u q (1, 0, take (Z.to_nat (q_esize q)) (q_bytes q)) u q
  | P_peek_empty u q : q_bytes q = [] -> promises Fifo_peek u q (0, 0, []) u q
  | P_skip u q : promises Fifo_skip u q (0, 0, []) u (q_keep (drop (Z.to_nat (q_esize q)) (q_bytes q)) q)
  | P_reset o u q : o = Fifo_reset \/ o = Fifo_reset_out -> promises o u q (0, 0, []) u (q_keep [] q)
  | P_len u q : promises Fifo_len u q (q_count q, 0, []) u q
  | P_is_empty u q : promises Fifo_is_empty u q (truth (bool_decide (q_bytes q = [])), 0, []) u q
  | P_is_full u q : promises Fifo_is_full u q (truth (q_count q =? q_size q), 0, []) u q
  | P_from_user from len u q n m : n = Z.min (len / q_esize q) (q_size q - q_count q) -> 0 <= m <= n ->
      (readable u from (n * q_esize q) -> m = n) ->
      promises (Fifo_from_user from len) u q (if m =? n then 0 else - EFAULT, m * q_esize q, [])
        u (q_put (user_bytes u from (Z.to_nat (m * q_esize q))) q)
  | P_to_user to len u u' q n m b : n = Z.min (len / q_esize q) (q_count q) -> 0 <= m <= n ->
      (writable (U := U) to (n * q_esize q) -> m = n) ->
      q_bytes q = user_bytes u' to (Z.to_nat (m * q_esize q)) ++ b ->
      (forall a, a < to \/ to + n * q_esize q <= a -> user_byte u' a = user_byte u a) ->
      promises (Fifo_to_user to len) u q (if m =? n then 0 else - EFAULT, m * q_esize q, []) u' (q_keep b q).

Inductive promises_all : list op -> U -> queue -> list result -> U -> queue -> Prop :=
  | PA_nil u q : promises_all [] u q [] u q
  | PA_cons o os u q r u1 q1 rs u2 q2 : promises o u q r u1 q1 -> promises_all os u1 q1 rs u2 q2 ->
      promises_all (o :: os) u q (r :: rs) u2 q2.
(** Every operation is allowed where it comes, whatever the ones before gave. *)
Fixpoint may_all (os : list op) (u : U) (q : queue) : Prop :=
  match os with
  | [] => True
  | o :: os => may o q /\ forall r u' q', promises o u q r u' q' -> may_all os u' q'
  end.

Lemma represents_count k q : represents k q -> q_count q = kfifo_len k.
Proof.
  intros (W & _ & Ee & Eb). pose proof (wf_esize k W). pose proof (len_range k W).
  unfold q_count. rewrite Eb, Ee, (length_contents k W), Z2Nat.id by nia. apply Z.div_mul. lia.
Qed.

Lemma represents_room k q : represents k q -> q_size q - q_count q = kfifo_unused k.
Proof.
  intros R. rewrite (represents_count k q R). destruct R as (W & -> & _). by destruct (unused_spec k W) as [-> _].
Qed.

Lemma represents_empty k q : represents k q -> kfifo_len k = 0 <-> q_bytes q = [].
Proof.
  intros (W & _ & _ & ->). pose proof (wf_esize k W). pose proof (len_range k W). rewrite <- length_zero_iff_nil.
  rewrite (length_contents k W). split; [intros ->; done|nia].
Qed.

Lemma represents_step k k' q b : represents k q -> wf k' -> same_shape k k' -> contents k' = b ->
  represents k' (q_keep b q).
Proof. intros (_ & Es & Ee & _) W' (Em & Ez & _) <-. split_and!; [done|cbn; congruence|cbn; congruence|done]. Qed.

Lemma represents_put k k' q b : represents k q -> wf k' -> same_shape k k' -> contents k' = contents k ++ b ->
  represents k' (q_put b q).
Proof.
  intros R W' S C. unfold q_put. destruct R as (W & Es & Ee & Eb). rewrite Eb.
  by apply (represents_step k k' q); [split_and!| | |].
Qed.

(** Fifos that were emptied. *)
Lemma reset_spec k v : wf k -> is_u 32 v -> let k' := set_in v (set_out v k) in
  wf k' /\ contents k' = [] /\ same_shape k k'.
Proof.
  intros W Hv. pose proof (wf_mask k W). assert (kfifo_len (set_in v (set_out v k)) = 0) as E0.
  { unfold kfifo_len. cbn [in_ out set_in set_out]. by rewrite Z.sub_diag. }
  cbn zeta. split; [|split; [|exact (same_shape_refl k W)]].
  - destruct W. split; try done. rewrite E0. cbn. lia.
  - unfold contents. rewrite E0. by destruct (data _).
Qed.

Lemma op_refines o u k q : represents k q -> may o q ->
  exists r u' k' q', run_op o u k = Ok (r, u', k') /\ promises o u q r u' q' /\ represents k' q'.
Proof.
  intros R Hm. pose proof (represents_count k q R) as Hc. pose proof (represents_room k q R) as Hr.
  pose proof (represents_empty k q R) as He. pose proof R as (W & Es & Ee & Eb). pose proof (len_range k W) as Hl.
  destruct o; cbn [may] in Hm; cbn [run_op]; rewrite ?Hr, ?Hc, ?Ee in Hm.
  - destruct (in_spec k W buf len) as (k' & -> & W' & C & _ & S); [lia..|]. cbn [mbind res_bind].
    eexists _, u, k', _. split; [done|]. split; [by rewrite <- Hr; apply P_in|]. rewrite Hr, Ee. by eapply represents_put.
  - destruct (out_spec k W buf len) as (k' & -> & W' & C & _ & S); [lia..|]. cbn [mbind res_bind].
    eexists _, u, k', _. split; [done|]. split; [by rewrite <- Hc, <- Ee, <- Eb; apply P_out|].
    rewrite Hc, Ee, Eb. by eapply represents_step.
  - rewrite (out_peek_spec k W buf len) by lia. cbn [mbind res_bind].
    eexists _, u, k, q. split; [done|]. split; [by rewrite <- Hc, <- Ee, <- Eb; apply P_out_peek|done].
  - destruct (put_spec k W val) as (k' & -> & W' & C & S); [done|]. cbn [mbind res_bind].
    destruct (Z.eqb_spec (kfifo_unused k) 0).
    + rewrite app_nil_r in C. eexists _, u, k', q. split; [done|]. split; [by apply P_put_full; lia|].
      destruct S as (Em & Ez & _). split_and!; [done|congruence|congruence|congruence].
    + pose proof (unused_spec k W). eexists _, u, k', _. split; [done|]. split; [by apply P_put; lia|].
      by eapply represents_put.
  - destruct (get_spec k W) as (k' & -> & W' & C & S). cbn [mbind res_bind]. destruct (Z.eqb_spec (kfifo_len k) 0) as [E0|E0].
    + assert (contents k = []) as En by (rewrite <- Eb; tauto). rewrite En, take_nil in *. rewrite drop_nil in C.
      eexists _, u, k', q. split; [done|]. split; [apply P_get_empty; congruence|].
      destruct S as (Em & Ez & _). split_and!; [done|congruence|congruence|congruence].
    + eexists _, u, k', _. split; [done|]. split; [by rewrite <- Ee, <- Eb; apply P_get; [lia|]|].
      rewrite Ee, Eb. by eapply represents_step.
  - rewrite (peek_spec k W). cbn [mbind res_bind]. eexists _, u, k, q. split; [done|]. split; [|done].
    destruct (Z.eqb_spec (kfifo_len k) 0) as [E0|E0].
    + assert (contents k = []) as -> by (rewrite <- Eb; tauto). rewrite take_nil. apply P_peek_empty. tauto.
    + rewrite <- Ee, <- Eb. apply P_peek. lia.
  - destruct (consume k W 1) as (W' & C & _ & S); [lia|]. rewrite Z.mul_1_l in C.
    eexists _, u, _, _. split; [done|]. split; [apply P_skip|]. rewrite Ee, Eb. by eapply represents_step.
  - destruct (reset_spec k 0 W) as (W' & C & S); [done|]. eexists _, u, _, _. split; [done|].
    split; [apply P_reset; by left|]. by eapply represents_step.
  - destruct (reset_spec k (in_ k) W) as (W' & C & S); [apply W|]. eexists _, u, _, _. split; [done|].
    split; [apply P_reset; by right|]. by eapply represents_step.
  - eexists _, u, k, q. split; [done|]. split; [|done]. rewrite <- Hc. apply P_len.
  - eexists _, u, k, q. split; [done|]. split; [|done]. rewrite (empty_spec k W).
    replace (kfifo_len k =? 0) with (bool_decide (q_bytes q = [])); [apply P_is_empty|].
    apply eq_true_iff_eq. rewrite bool_decide_eq_true, Z.eqb_eq. by rewrite He.
  - eexists _, u, k, q. split; [done|]. split; [|done]. rewrite (full_spec k W).
    replace (kfifo_unused k =? 0) with (q_count q =? q_size q); [apply P_is_full|].
    apply eq_true_iff_eq. rewrite !Z.eqb_eq. lia.
  - destruct (from_user_spec k W u from len) as (m & k' & -> & Hmn & W' & C & Hrd & S); [lia..|]. cbn [mbind res_bind].
    eexists _, u, k', _. split; [done|]. rewrite <- Ee in *. rewrite <- Hr in *. split; [by apply P_from_user|].
    by eapply represents_put.
  - destruct (to_user_spec k W u to len) as (m & u' & k' & -> & Hmn & W' & C & Hfr & Hwr & S); [lia..|]. cbn [mbind res_bind].
    eexists _, u', k', _. split; [done|]. rewrite <- Ee, <- Hc, <- Eb in *. split; [by eapply P_to_user|].
    by eapply represents_step.
Qed.

Lemma promises_shape o u q r u' q' : promises o u q r u' q' -> q_size q' = q_size q /\ q_esize q' = q_esize q.
Proof. by destruct 1. Qed.

(** Operations that may be asked of any queue of a size may be asked one after the other. *)
Lemma may_all_any os u q :
  Forall (fun o => forall q', q_size q' = q_size q -> q_esize q' = q_esize q -> may o q') os -> may_all os u q.
Proof.
  revert u q. induction os as [|o os IH]; intros u q Hos; [done|]. apply Forall_cons in Hos as [Ho Hos].
  split; [by apply Ho|]. intros r u' q' [Es Ee]%promises_shape. apply IH. by rewrite Es, Ee.
Qed.

End refinement.

(** ** Set-up *)

Lemma roundup_pow2 e : 0 <= e <= 31 -> __roundup_pow_of_two (2 ^ e) = Ok (2 ^ e).
Proof.
  intros He. assert (e ∈ seqZ 0 32) as Hin by (apply elem_of_seqZ; lia).
  assert (Forall (fun e => __roundup_pow_of_two (2 ^ e) = Ok (2 ^ e)) (seqZ 0 32)) as Hall.
  { repeat (apply Forall_cons; split; [by vm_compute|]). apply Forall_nil. done. }
  rewrite Forall_forall in Hall. by apply Hall.
Qed.

Lemma empty_represents d e es : 0 <= e -> 1 <= es -> 2 ^ e * es <= 2147483648 ->
  2 ^ e * es <= Z.of_nat (length d) ->
  represents (MkKfifo 0 0 (2 ^ e -u 1)%cint es (Some d)) (MkQueue (2 ^ e) es []).
Proof.
  intros He Hs Hc Hd. pose proof (pow2_pos e He). assert (2 ^ e <= 2147483648) by nia.
  rewrite u32_small by lia. split_and!; [|cbn; lia|done|done].
  split; cbn [in_ out mask esize data]; try done.
  - exists e. split; [done|lia].
  - change (kfifo_len _) with 0. lia.
  - by rewrite Z.sub_add.
  - exists d. split; [done|]. unfold cap. cbn [mask esize]. rewrite Z.sub_add. lia.
Qed.

(** * Properties *)

(** C26: A fifo refines a bounded queue.  A fifo over an array or a buffer of [2 ^ e]
    elements, of at most 2^31 bytes, starts as the empty queue of that size.  From then
    on, for every sequence of operations a caller may ask (elements of any size put in
    and taken out singly or in numbers, looked at, skipped, cleared and counted, copied
    from and to user space; with buffers that are long enough, nothing skipped in an
    empty fifo and user ranges inside the address space), nothing faults or leaves the
    buffer, every operation returns and moves what the queue promises, and the fifo
    represents the queue at the end: first in, first out, no more than the size, whatever
    the two free-running indices are and wherever they wrap.  An access fault in user
    space is answered with -EFAULT after some whole elements, which are counted and
    moved; without a fault all are. *)
Theorem kfifo_refines_queue {U} `{!UserAccess U} d e esize os u :
  0 < e <= 31 -> 1 <= esize -> 2 ^ e * esize <= 2147483648 -> 2 ^ e * esize <= Z.of_nat (length d) ->
  __kfifo_init (Some d) (2 ^ e * esize) esize =
    Ok (0, INIT_KFIFO (MkType esize 0 false) (2 ^ e) d) /\
  __kfifo_alloc (fun n => if n =? 2 ^ e * esize then Some d else None) (2 ^ e) esize =
    Ok (0, INIT_KFIFO (MkType esize 0 false) (2 ^ e) d) /\
  (may_all os u (MkQueue (2 ^ e) esize []) ->
   exists rs u' k' q', run_ops os u (INIT_KFIFO (MkType esize 0 false) (2 ^ e) d) = Ok (rs, u', k') /\
     promises_all os u (MkQueue (2 ^ e) esize []) rs u' q' /\ represents k' q') /\
  (forall k q, represents k q -> may_all os u q ->
   exists rs u' k' q', run_ops os u k = Ok (rs, u', k') /\ promises_all os u q rs u' q' /\ represents k' q').
Proof.
  intros He Hs Hc Hd. pose proof (pow2_pos e ltac:(lia)).
  assert (2 <= 2 ^ e) by (pose proof (Z.pow_le_mono_r 2 1 e ltac:(lia) ltac:(lia)); lia).
  assert (forall k q, represents k q -> may_all os u q ->
    exists rs u' k' q', run_ops os u k = Ok (rs, u', k') /\ promises_all os u q rs u' q' /\ represents k' q') as Hrun.
  { revert u. clear. induction os as [|o os IH]; intros u k q R Hm.
    { exists [], u, k, q. split; [done|]. split; [constructor|done]. }
    destruct Hm as [Ho Hm]. destruct (op_refines o u k q R Ho) as (r & u1 & k1 & q1 & E & P & R1).
    destruct (IH u1 k1 q1 R1 (Hm _ _ _ P)) as (rs & u2 & k2 & q2 & E2 & P2 & R2).
    exists (r :: rs), u2, k2, q2. cbn [run_ops]. rewrite E. cbn [mbind res_bind]. rewrite E2.
    split; [done|]. split; [by econstructor|done]. }
  unfold __kfifo_init, __kfifo_alloc, divu, INIT_KFIFO. cbn [is_kfifo_ptr sizeof_type].
  rewrite (proj2 (Z.eqb_neq esize 0)), Z.div_mul by lia. cbn [mbind res_bind].
  rewrite roundup_pow2 by lia. cbn [mbind res_bind]. rewrite (proj2 (Z.ltb_ge _ _)) by lia.
  rewrite (u32_small (2 ^ e * esize)), Z.eqb_refl by nia.
  split_and!; [done|done| |done]. apply Hrun, empty_represents; lia.
Qed.

(** [kfifo_init] rounds the size up although the buffer is the caller's: six bytes make
    a fifo of eight, and the seventh byte put in is written behind the buffer. *)
Theorem kfifo_init_overruns : exists k,
  __kfifo_init (Some (replicate 6 0)) 6 1 = Ok (0, k) /\ kfifo_size k = 8 /\
  __kfifo_in k (replicate 7 1) 7 = Fault OutOfBounds.
Proof. eexists. split; [vm_compute; reflexivity|]. split; vm_compute; reflexivity. Qed.

(** [kfifo_alloc] does not check the product of the size and the element size: 2^30
    elements of four bytes make it allocate nothing, and the first element that is put
    in is written behind what was allocated. *)
Theorem kfifo_alloc_overflows kmalloc : kmalloc 0 = Some [] -> exists k,
  __kfifo_alloc kmalloc (2 ^ 30) 4 = Ok (0, k) /\ kfifo_size k = 2 ^ 30 /\
  kfifo_put_elem 4 k [1; 2; 3; 4] = Fault OutOfBounds.
Proof.
  intros E. unfold __kfifo_alloc. rewrite (roundup_pow2 30) by lia. cbn [mbind res_bind].
  change (u32 (2 ^ 30 * 4)) with 0. rewrite E. eexists. split; [reflexivity|]. split; vm_compute; reflexivity.
Qed.

(** * Concrete runs *)

(** User memory from address 0 on; what is behind it cannot be accessed. *)
Definition fits (u : list Z) (a n : Z) : nat := Z.to_nat (Z.min n (Z.of_nat (length u) - a)).
Definition plain_from (u : list Z) (a n : Z) : Z * list Z :=
  if a <? 0 then (n, replicate (Z.to_nat n) 0)
  else
    let m := fits u a n in
    (n - Z.of_nat m, take m (drop (Z.to_nat a) u) ++ replicate (Z.to_nat n - m) 0).
Definition plain_to (u : list Z) (a : Z) (l : list Z) : Z * list Z :=
  if (a <? 0) || (Z.of_nat (length u) <? a) then (Z.of_nat (length l), u)
  else
    let m := fits u a (Z.of_nat (length l)) in
    (Z.of_nat (length l) - Z.of_nat m, take (Z.to_nat a) u ++ take m l ++ drop (Z.to_nat a + m) u).
Definition plain_byte (u : list Z) (a : Z) : Z := if a <? 0 then 0 else default 0 (u !! Z.to_nat a).

#[export] Program Instance plain_user : UserAccess (list Z) := {
  access_ok a n := a + n <=? 3221225472;
  user_byte := plain_byte;
  __copy_from_user := plain_from;
  __copy_to_user := plain_to;
}.
Next Obligation. intros u a n Hn. unfold plain_from, fits. destruct (Z.ltb_spec a 0); cbn [fst]; lia. Qed.
Next Obligation.
  intros u a n Hn. unfold plain_from, fits. destruct (Z.ltb_spec a 0); cbn [snd]; [apply length_replicate|].
  rewrite length_app, length_take, length_drop, length_replicate. lia.
Qed.
Next Obligation.
  intros u a n i. unfold plain_from, plain_byte, fits. destruct (Z.ltb_spec a 0); cbn [fst snd]; [lia|]. intros Hi.
  rewrite (proj2 (Z.ltb_ge _ _)) by lia.
  rewrite lookup_app_l, lookup_take_lt, lookup_drop by (rewrite ?length_take, ?length_drop; lia).
  rewrite <- Z2Nat.inj_add by lia. destruct (u !! _) eqn:E; [done|]. apply lookup_ge_None in E. lia.
Qed.
Next Obligation. intros u a l. unfold plain_to, fits. destruct (_ || _) eqn:E; cbn [fst]; lia. Qed.
Next Obligation.
  intros u a l i. unfold plain_to, plain_byte, fits.
  destruct (Z.ltb_spec a 0), (Z.ltb_spec (Z.of_nat (length u)) a); cbn [orb fst snd]; try lia. intros Hi.
  rewrite (proj2 (Z.ltb_ge _ _)) by lia.
  rewrite lookup_app_r, lookup_app_l, lookup_take_lt by (rewrite ?length_take; lia).
  rewrite length_take. replace (_ - _)%nat with (Z.to_nat i) by lia.
  destruct (l !! Z.to_nat i) eqn:E; [done|]. apply lookup_ge_None in E. lia.
Qed.
Next Obligation.
  intros u a l b Hb. unfold plain_to, plain_byte, fits.
  destruct (Z.ltb_spec a 0), (Z.ltb_spec (Z.of_nat (length u)) a); cbn [orb snd]; try done.
  destruct (Z.ltb_spec b 0); [done|]. f_equal. destruct Hb as [Hb|Hb].
  - by rewrite lookup_app_l, lookup_take_lt by (rewrite ?length_take; lia).
  - rewrite lookup_app_r, lookup_app_r, lookup_drop by (rewrite ?length_take; lia). rewrite !length_take.
    f_equal. lia.
Qed.

Definition ex_ops : list op :=
  [Fifo_in [1; 2; 3] 3; Fifo_get; Fifo_from_user 3 4; Fifo_out [0; 0; 0] 2; Fifo_put [9]; Fifo_len].

(** A fifo of four bytes: three in, one out, some from user memory that ends behind the
    first of them, two out, one more in. *)
Lemma kfifo_refines_queue_witness : exists rs u' k' q',
  run_ops ex_ops [5; 6; 7; 8] (INIT_KFIFO (MkType 1 0 false) (2 ^ 2) [0; 0; 0; 0]) = Ok (rs, u', k') /\
  promises_all ex_ops [5; 6; 7; 8] (MkQueue (2 ^ 2) 1 []) rs u' q' /\ represents k' q'.
Proof.
  refine (proj1 (proj2 (proj2 (kfifo_refines_queue [0; 0; 0; 0] 2 1 ex_ops [5; 6; 7; 8] _ _ _ _))) _); [lia..|cbn; lia|].
  apply may_all_any. unfold ex_ops.
  repeat (apply Forall_cons; split; [intros q' Es Ee; cbn in *; lia|]). by apply Forall_nil.
Defined.

Example ex_ops_run :
  run_ops ex_ops [5; 6; 7; 8] (INIT_KFIFO (MkType 1 0 false) (2 ^ 2) [0; 0; 0; 0]) =
    Ok ([(3, 0, []); (1, 0, [1]); (- EFAULT, 1, []); (2, 0, [2; 3; 0]); (1, 0, []); (2, 0, [])],
        [5; 6; 7; 8], MkKfifo 5 3 3 1 (Some [9; 2; 3; 8])).
Proof. vm_compute. reflexivity. Qed.
