(* ===== verification/KCmdline.v ===== *)
(** * lib/cmdline.c: option strings, and the simple_strto functions of lib/vsprintf.c

    Integers, integer lists, memory sizes and option names from a command line.  A
    string is the list of the bytes from the pointer on, as in KString; a pointer that
    a function moves is returned as the string that is left, or as an offset where the
    code compares it.  [int], [long] and pointers have 32 bits. *)

From S2P Require Import Prelude KString KMath Kstrtox.
Open Scope Z_scope.

(** ** lib/vsprintf.c *)

(** The result and the offset of [*endp]. *)
Definition simple_strtoull (cp : list Z) (base : Z) : res (Z * Z) :=
  '(off, base) ← _parse_integer_fixup_radix cp base;
  '(rv, result) ← _parse_integer (drop (Z.to_nat off) cp) base;
  Ok (result, off + Z.land rv (u32 (Z.lnot KSTRTOX_OVERFLOW))).

Definition simple_strtoul (cp : list Z) (base : Z) : res (Z * Z) :=
  '(v, endp) ← simple_strtoull cp base; Ok (u32 v, endp).

Definition simple_strtol (cp : list Z) (base : Z) : res (Z * Z) :=
  c ← rd cp;
  if c =? 45 then '(v, endp) ← simple_strtoul (tail cp) base; Ok (i32 (u32 (- v)), 1 + endp)
  else '(v, endp) ← simple_strtoul cp base; Ok (i32 v, endp).

Definition simple_strtoll (cp : list Z) (base : Z) : res (Z * Z) :=
  c ← rd cp;
  if c =? 45 then '(v, endp) ← simple_strtoull (tail cp) base; Ok (i64 (u64 (- v)), 1 + endp)
  else '(v, endp) ← simple_strtoull cp base; Ok (i64 v, endp).

(** ** lib/cmdline.c *)

(** The return value, what is stored to [*pint] if anything, and the new [*str]. *)
Definition get_option (str : option (list Z)) : res (Z * option Z * option (list Z)) :=
  match str with
  | None => Ok (0, None, None)
  | Some cur =>
      c ← rd cur;
      if c =? 0 then Ok (0, None, Some cur)
      else
        '(v, e) ← simple_strtol cur 0;
        let str := drop (Z.to_nat e) cur in
        if e =? 0 then Ok (0, Some v, Some str)
        else
          c ← rd str;
          if c =? 44 then Ok (2, Some v, Some (tail str))
          else if c =? 45 then Ok (3, Some v, Some str)
          else Ok (1, Some v, Some str)
  end.

(** [for (x = *pint; x < upper_range; x++) *pint++ = x], [n] times, from [ints[i]]. *)
Fixpoint range_loop (n : nat) (x : Z) (ints : list Z) (i : Z) : res (list Z) :=
  match n with
  | O => Ok ints
  | S n' => ints ← awrite ints i x; range_loop n' (x + 1) ints (i + 1)
  end.

(** [pint] is [ints + i]. *)
Definition get_range (str ints : list Z) (i : Z) : res (Z * list Z * list Z) :=
  let str := tail str in
  '(upper_range, _) ← simple_strtol str 0;
  x ← aread ints i;
  let inc_counter := (upper_range -i x)%cint in
  ints ← range_loop (Z.to_nat (upper_range - x)) x ints i;
  Ok (inc_counter, str, ints).

Fixpoint get_options_loop (fuel : nat) (str : option (list Z)) (nints : Z) (ints : list Z) (i : Z)
    : res (option (list Z) * list Z * Z) :=
  match fuel with
  | O => Fault NoFuel
  | S fuel' =>
      if i <? nints then
        '(res, w, str) ← get_option str;
        ints ← (match w with Some v => awrite ints i v | None => Ok ints end);
        if res =? 0 then Ok (str, ints, i)
        else if res =? 3 then
          s ← need str NullDeref;
          '(range_nums, s, ints) ← get_range s ints i;
          if range_nums <? 0 then Ok (Some s, ints, i)
          else get_options_loop fuel' (Some s) nints ints (i +i (range_nums -i 1) +i 1)%cint
        else
          let i := (i +i 1)%cint in
          if res =? 1 then Ok (str, ints, i) else get_options_loop fuel' str nints ints i
      else Ok (str, ints, i)
  end.
Definition get_options (str : option (list Z)) (nints : Z) (ints : list Z) : res (option (list Z) * list Z) :=
  '(str, ints, i) ← get_options_loop (S (length (default [] str))) str nints ints 1;
  ints ← awrite ints 0 (i -i 1)%cint;
  Ok (str, ints).

(** How many of the [ret <<= 10] a suffix falls through. *)
Definition suffix_shifts (c : Z) : nat :=
  if (c =? 69) || (c =? 101) then 6
  else if (c =? 80) || (c =? 112) then 5
  else if (c =? 84) || (c =? 116) then 4
  else if (c =? 71) || (c =? 103) then 3
  else if (c =? 77) || (c =? 109) then 2
  else if (c =? 75) || (c =? 107) then 1
  else 0.
(** The number and the offset stored through [retptr]. *)
Definition memparse (ptr : list Z) : res (Z * Z) :=
  '(ret, endptr) ← simple_strtoull ptr 0;
  c ← rd (drop (Z.to_nat endptr) ptr);
  let ret := Nat.iter (suffix_shifts c) (fun ret => u64 (Z.shiftl ret 10)) ret in
  Ok (ret, if (suffix_shifts c =? 0)%nat then endptr else endptr + 1).

(** The inner [while]: to the next comma or the end. *)
Fixpoint skip_item (str : list Z) : res (list Z) :=
  match str with
  | [] => Fault OutOfBounds
  | c :: str' => if negb (c =? 0) && negb (c =? 44) then skip_item str' else Ok str
  end.
Fixpoint parse_option_loop (fuel : nat) (str opt : list Z) : res bool :=
  match fuel with
  | O => Fault NoFuel
  | S fuel' =>
      c ← rd str;
      if negb (c =? 0) then
        n ← strlen opt;
        d ← strncmp str opt n;
        let str := if d =? 0 then drop (Z.to_nat n) str else str in
        hit ← (if d =? 0 then c ← rd str; Ok ((c =? 0) || (c =? 44)) else Ok false);
        if hit : bool then Ok true
        else
          str ← skip_item str;
          c ← rd str;
          parse_option_loop fuel' (if c =? 44 then tail str else str) opt
      else Ok false
  end.
Definition parse_option_str (str opt : list Z) : res bool := parse_option_loop (S (length str)) str opt.

(** "2,5-7,1" and "3K". *)
Example get_options_runs :
  get_options (Some [50; 44; 53; 45; 55; 44; 49; 0]) 8 (replicate 8 99) = Ok (Some [0], [5; 2; 5; 6; 7; 1; 99; 99]).
Proof. reflexivity. Qed.
Example memparse_runs : memparse [51; 75; 0] = Ok (3072, 2).
Proof. reflexivity. Qed.

(** * What a text means *)

(** The digits of the number a text starts with, in the radix it announces. *)
Definition digits_of (base : Z) (t : list Z) : list Z :=
  numeral (radix base t) (drop (skip (radix base t) t) t).
Definition number (base : Z) (t : list Z) : Z := value (radix base t) (digits_of base t).
(** How much of the text the number takes. *)
Definition number_length (base : Z) (t : list Z) : nat := skip (radix base t) t + length (digits_of base t).

(** Printed numbers, and lists of them. *)
Definition print (v : Z) : list Z := if v <? 0 then 45 :: render false 10 (- v) else render false 10 v.
Fixpoint print_list (vs : list Z) : list Z :=
  match vs with
  | [] => []
  | [v] => print v
  | v :: vs => print v ++ 44 :: print_list vs
  end.

(** Items separated by commas. *)
Fixpoint join_items (items : list (list Z)) : list Z :=
  match items with
  | [] => []
  | [x] => x
  | x :: xs => x ++ 44 :: join_items xs
  end.

(** * Lemmas *)

(** ** Numbers *)

Lemma loop_result base t r acc res rv ov out :
  bytes t -> 0 <= acc -> res = u64 acc ->
  _parse_integer_loop (cstr t r) base res rv ov = Ok out -> out.1.1 = u64 (horner base acc (numeral base t)).
Proof.
  revert acc res rv ov. induction t as [|c t IH]; intros acc res rv ov Ht Ha Hr; cbn [app _parse_integer_loop].
  { by intros [= <-]. }
  apply Forall_cons in Ht as [Hc Ht]. rewrite (proj2 (Z.eqb_neq c 0)) by lia. cbn [numeral].
  destruct (is_digit base c) eqn:Ed.
  - unfold is_digit in Ed. destruct (digit c) as [v|] eqn:Ev; [|done]. pose proof (digit_range c v ltac:(lia) Ev).
    apply Z.ltb_lt in Ed. rewrite (proj2 (Z.leb_gt base v)) by lia.
    intros (ov' & _ & E)%bind_ok. rewrite horner_cons, Ev. cbn [default]. unfold id.
    apply (IH (acc * base + v)) in E; [done|done|nia|]. subst res. unfold wrapu.
    by rewrite Zplus_mod, Zmult_mod_idemp_l, <- Zplus_mod.
  - destruct (is_digit_break _ _ Ed) as [->|(v & -> & Hv)]; [by intros [= <-]|].
    rewrite (proj2 (Z.leb_le base v)) by lia. by intros [= <-].
Qed.

Lemma overflow_mask rv (b : bool) :
  0 <= rv < 2 ^ 31 -> Z.land (if b then Z.lor rv KSTRTOX_OVERFLOW else rv) (u32 (Z.lnot KSTRTOX_OVERFLOW)) = rv.
Proof.
  intros Hr. change (u32 (Z.lnot KSTRTOX_OVERFLOW)) with (Z.ones 31).
  destruct b; [rewrite Z.land_lor_distr_l|]; rewrite (Z.land_ones rv), Z.mod_small by lia; [|done].
  change (Z.land KSTRTOX_OVERFLOW (Z.ones 31)) with 0. apply Z.lor_0_r.
Qed.

Lemma numeral_length base t : (length (numeral base t) <= length t)%nat.
Proof. rewrite numeral_prefix, length_take. lia. Qed.

Lemma number_length_le base t : (number_length base t <= length t)%nat.
Proof.
  unfold number_length, digits_of. pose proof (numeral_length (radix base t) (drop (skip (radix base t) t) t)) as H.
  rewrite length_drop in H. pose proof (skip_length (radix base t) t). lia.
Qed.

Lemma simple_strtoull_spec base t r :
  base = 0 \/ 1 <= base <= 16 -> bytes t -> Z.of_nat (length t) < 2 ^ 31 ->
  simple_strtoull (cstr t r) base = Ok (u64 (number base t), Z.of_nat (number_length base t)).
Proof.
  intros Hb Ht Hl. unfold simple_strtoull, number_length, number, digits_of.
  rewrite fixup_spec by (by apply bytes_text). cbn [mbind res_bind]. rewrite Nat2Z.id.
  pose proof (radix_range base t Hb). set (b := radix base t) in *. pose proof (skip_length b t).
  rewrite drop_cstr by done. set (u := drop (skip b t) t).
  assert (bytes u) as Hu by (by apply Forall_drop).
  assert (length u <= length t)%nat by (unfold u; rewrite length_drop; lia).
  unfold _parse_integer.
  destruct (_parse_integer_loop_spec b u r 0 0 0) as (v & E & _); try done; try lia.
  change (2 ^ 64 <=? 0) with false in E. rewrite E. cbn [mbind res_bind].
  pose proof (loop_result b u r 0 0 0 false _ Hu ltac:(lia) eq_refl E) as Hv. cbn [fst] in Hv. subst v.
  pose proof (numeral_length b u). do 2 f_equal. rewrite overflow_mask by lia. lia.
Qed.

(** ** Printed numbers *)

Lemma render_head n upper v acc :
  0 < v < 10 ^ Z.of_nat n -> exists c ds, render_loop n upper 10 v acc = c :: ds /\ c <> 48.
Proof.
  revert v acc. induction n as [|n IH]; intros v acc Hv; [cbn in Hv; lia|]. cbn [render_loop].
  rewrite Nat2Z.inj_succ, Z.pow_succ_r in Hv by lia.
  destruct (Z.eqb_spec (v / 10) 0) as [E|E].
  - apply Z.div_small_iff in E; [|lia]. do 2 eexists. split; [done|]. unfold digit_char.
    rewrite Z.mod_small by lia. destruct (Z.ltb_spec v 10); lia.
  - apply IH. pose proof (Z.div_pos v 10 ltac:(lia) ltac:(lia)).
    pose proof (Z.div_lt_upper_bound v 10 _ ltac:(lia) (proj2 Hv)). lia.
Qed.

Lemma render_decimal v :
  0 <= v < 2 ^ 64 ->
  let ds := render false 10 v in
  ds <> [] /\ (length ds <= 64)%nat /\ Forall (fun c => is_digit 10 c = true /\ 48 <= c < 103) ds /\ value 10 ds = v /\
  (v = 0 -> ds = [48]) /\ (v <> 0 -> head ds <> Some 48).
Proof.
  intros Hv ds. destruct (render_spec false 10 v) as (Hne & Hl & Hd & Hval); [lia|done|].
  split_and!; try done; [by intros ->|]. intros Hv0.
  destruct (render_head 64 false v []) as (c & l & E & Hc); [|unfold ds, render; rewrite E; cbn; congruence].
  assert (2 ^ 64 <= 10 ^ Z.of_nat 64) by (vm_compute; done). lia.
Qed.

(** A character that cannot continue a number. *)
Definition breaks (rest : list Z) : Prop := rest = [] \/ head rest = Some 44 \/ head rest = Some 45.

Lemma breaks_numeral base rest : breaks rest -> numeral base rest = [].
Proof. intros [->|[H|H]]; [done|..]; (destruct rest as [|c rest]; [done|]; injection H as ->; done). Qed.

Lemma decimal_number v rest :
  0 <= v < 2 ^ 64 -> breaks rest ->
  number 0 (render false 10 v ++ rest) = v /\
  number_length 0 (render false 10 v ++ rest) = length (render false 10 v).
Proof.
  intros Hv Hr. destruct (render_decimal v Hv) as (Hne & _ & Hd & Hval & H0 & Hn0). set (ds := render false 10 v) in *.
  unfold number, number_length, digits_of. destruct (decide (v = 0)) as [->|Hnz].
  - rewrite (H0 eq_refl). assert (radix 0 ([48] ++ rest) = 8) as ->.
    { unfold radix. cbn [Z.eqb]. rewrite bool_decide_eq_true_2 by done.
      destruct Hr as [->|[H|H]]; [done|..]; (destruct rest as [|c rest]; [done|]; injection H as ->; done). }
    change (skip 8 ([48] ++ rest)) with O. change (drop 0 ([48] ++ rest)) with (48 :: rest). cbn [numeral].
    change (is_digit 8 48) with true. cbn iota. by rewrite !breaks_numeral by done.
  - assert (radix 0 (ds ++ rest) = 10) as ->.
    { unfold radix. cbn [Z.eqb]. rewrite bool_decide_eq_false_2; [done|]. destruct ds; [done|]. by apply Hn0. }
    change (skip 10 (ds ++ rest)) with O. rewrite drop_0. rewrite numeral_app by (done || by apply breaks_numeral).
    by rewrite Hval.
Qed.

Lemma print_bytes v : -2147483648 <= v < 2147483648 ->
  bytes (print v) /\ (0 < length (print v) <= 65)%nat.
Proof.
  intros Hv.
  assert (forall v, 0 <= v < 2 ^ 64 -> bytes (render false 10 v) /\ (0 < length (render false 10 v) <= 64)%nat) as H.
  { intros w Hw. destruct (render_decimal w Hw) as (Hne & Hl & Hd & _). split.
    - eapply Forall_impl; [exact Hd|]. cbv beta. lia.
    - destruct (render false 10 w); [done|cbn [length] in *; lia]. }
  unfold print. destruct (Z.ltb_spec v 0); [destruct (H (- v)) | destruct (H v)]; try lia.
  - split; [constructor; [lia|done] | cbn [length]; lia].
  - split; [done|lia].
Qed.

(** The number at the front of a list. *)
Lemma simple_strtol_print v rest r :
  -2147483648 <= v < 2147483648 -> breaks rest -> bytes rest -> Z.of_nat (length rest) < 2 ^ 30 ->
  simple_strtol (cstr (print v ++ rest) r) 0 = Ok (v, Z.of_nat (length (print v))).
Proof.
  intros Hv Hr Hb Hl. destruct (print_bytes v Hv) as [Hpb Hpl]. unfold print in *.
  destruct (Z.ltb_spec v 0).
  - cbn [app]. unfold simple_strtol. cbn [rd mbind res_bind]. change (45 =? 45) with true. cbn [tail].
    apply Forall_cons in Hpb as [_ Hpb]. cbn [length] in Hpl. unfold simple_strtoul.
    rewrite simple_strtoull_spec; [|by left|by apply Forall_app|rewrite length_app; lia].
    destruct (decimal_number (- v) rest ltac:(lia) Hr) as [-> ->]. cbn [mbind res_bind].
    rewrite (wrapu_small 64) by (unfold is_u; lia). rewrite (u32_small (- v)) by lia. do 2 f_equal; [|cbn [length]; lia].
    unfold wraps, wrapu. rewrite Z.opp_involutive, Zplus_mod_idemp_l. rewrite Z.mod_small by lia. lia.
  - unfold simple_strtol. destruct (render_decimal v ltac:(lia)) as (Hne & _ & Hd & _).
    assert (exists c ds, render false 10 v = c :: ds /\ c <> 45) as (c & ds & E & Hc).
    { destruct (render false 10 v) as [|c ds]; [done|]. exists c, ds. split; [done|].
      apply Forall_cons in Hd as [[_ Hc] _]. lia. }
    assert (rd (cstr (render false 10 v ++ rest) r) = Ok c) as -> by (by rewrite E). cbn [mbind res_bind].
    rewrite (proj2 (Z.eqb_neq c 45)) by done. unfold simple_strtoul.
    rewrite simple_strtoull_spec; [|by left|by apply Forall_app|rewrite length_app; lia].
    destruct (decimal_number v rest ltac:(lia) Hr) as [-> ->]. cbn [mbind res_bind].
    rewrite (wrapu_small 64) by (unfold is_u; lia). rewrite (u32_small v), i32_small by lia. done.
Qed.

(** ** Option lists *)

Lemma print_head v : -2147483648 <= v < 2147483648 -> exists c l, print v = c :: l /\ c <> 0.
Proof.
  intros Hv. destruct (print_bytes v Hv) as [Hb Hl]. destruct (print v) as [|c l]; [cbn in Hl; lia|].
  exists c, l. split; [done|]. apply Forall_cons in Hb as [? _]. lia.
Qed.

Lemma get_option_print v rest r :
  -2147483648 <= v < 2147483648 -> breaks rest -> bytes rest -> Z.of_nat (length rest) < 2 ^ 30 ->
  get_option (Some (cstr (print v ++ rest) r)) =
  Ok (match rest with
      | [] => (1, Some v, Some (cstr rest r))
      | c :: q => if c =? 44 then (2, Some v, Some (cstr q r)) else (3, Some v, Some (cstr rest r))
      end).
Proof.
  intros Hv Hr Hb Hl. unfold get_option. destruct (print_head v Hv) as (c & l & E & Hc).
  assert (rd (cstr (print v ++ rest) r) = Ok c) as -> by (by rewrite E). cbn [mbind res_bind].
  rewrite (proj2 (Z.eqb_neq c 0)) by done. rewrite simple_strtol_print by done. cbn [mbind res_bind].
  destruct (print_bytes v Hv) as [_ Hp].
  rewrite (proj2 (Z.eqb_neq (Z.of_nat (length (print v))) 0)) by lia. rewrite Nat2Z.id.
  assert (drop (length (print v)) (cstr (print v ++ rest) r) = cstr rest r) as -> by (by rewrite <- app_assoc, drop_app_length).
  destruct Hr as [->|[H|H]]; [done|..]; (destruct rest as [|d rest]; [done|]; injection H as ->; done).
Qed.

(** Storing entry [i] of an array. *)
Lemma store_front (ints : list Z) i v :
  0 <= i < Z.of_nat (length ints) ->
  awrite ints i v = Ok (take (Z.to_nat i) ints ++ v :: drop (Z.to_nat (i + 1)) ints).
Proof.
  intros Hi. rewrite awrite_in by done. f_equal. rewrite insert_take_drop by lia.
  do 3 f_equal. lia.
Qed.

Lemma take_stored (ints : list Z) i v rest :
  0 <= i < Z.of_nat (length ints) ->
  take (Z.to_nat (i + 1)) (take (Z.to_nat i) ints ++ v :: rest) = take (Z.to_nat i) ints ++ [v].
Proof.
  intros Hi. rewrite take_app_ge by (rewrite length_take; lia). rewrite length_take, Nat.min_l by lia.
  replace (Z.to_nat (i + 1) - Z.to_nat i)%nat with 1%nat by lia. done.
Qed.

Lemma drop_stored (ints : list Z) i n v :
  0 <= i < Z.of_nat (length ints) ->
  drop (Z.to_nat (i + 1) + n) (take (Z.to_nat i) ints ++ v :: drop (Z.to_nat (i + 1)) ints) =
  drop (Z.to_nat (i + 1) + n) ints.
Proof.
  intros Hi. rewrite drop_app_ge by (rewrite length_take; lia). rewrite length_take, Nat.min_l by lia.
  replace (Z.to_nat (i + 1) + n - Z.to_nat i)%nat with (S n) by lia. cbn [drop]. by rewrite drop_drop.
Qed.

Lemma length_stored (ints : list Z) i v :
  0 <= i < Z.of_nat (length ints) ->
  length (take (Z.to_nat i) ints ++ v :: drop (Z.to_nat (i + 1)) ints) = length ints.
Proof. intros Hi. rewrite length_app, length_take. cbn [length]. rewrite length_drop. lia. Qed.

Definition int32 (v : Z) : Prop := -2147483648 <= v < 2147483648.

Lemma print_list_cons v w vs : print_list (v :: w :: vs) = print v ++ 44 :: print_list (w :: vs).
Proof. done. Qed.

Lemma print_list_bytes vs : Forall int32 vs -> bytes (print_list vs).
Proof.
  induction 1 as [|v vs Hv Hvs IH]; [constructor|]. destruct vs as [|w vs]; [by apply print_bytes|].
  rewrite print_list_cons. apply Forall_app. split; [by apply print_bytes|]. constructor; [lia|done].
Qed.

Lemma get_options_loop_list fuel vs r nints ints i :
  Forall int32 vs -> Z.of_nat (length (print_list vs)) < 2 ^ 30 ->
  1 <= i <= nints -> nints <= Z.of_nat (length ints) -> nints < 2 ^ 31 ->
  (length (print_list vs) < fuel)%nat ->
  let n := Nat.min (length vs) (Z.to_nat (nints - i)) in
  get_options_loop fuel (Some (cstr (print_list vs) r)) nints ints i =
  Ok (Some (cstr (print_list (drop n vs)) r), take (Z.to_nat i) ints ++ take n vs ++ drop (Z.to_nat i + n) ints,
      i + Z.of_nat n).
Proof.
  revert fuel ints i. induction vs as [|v vs IH]; intros fuel ints i Hvs Hlen Hi Hn Hb Hf n; (destruct fuel as [|fuel]; [lia|]);
    cbn [get_options_loop].
  - subst n. cbn [length Nat.min take drop app]. rewrite Nat.add_0_r, take_drop, Z.add_0_r.
    by destruct (i <? nints).
  - destruct (Z.ltb_spec i nints) as [Hlt|Hge].
    2:{ assert (n = O) as -> by (unfold n; lia). cbn [take drop app]. by rewrite Nat.add_0_r, take_drop, Z.add_0_r. }
    apply Forall_cons in Hvs as [Hv Hvs]. destruct (print_bytes v Hv) as [_ Hp].
    destruct vs as [|w vs].
    + assert (n = 1%nat) as -> by (unfold n; cbn [length]; lia). cbn [print_list] in *.
      rewrite <- (app_nil_r (print v)), get_option_print by (done || by left). cbn [mbind res_bind].
      rewrite store_front by lia. cbn [mbind res_bind Z.eqb Pos.eqb]. rewrite i32_small by lia. cbn [drop take app print_list].
      by replace (Z.to_nat (i + 1)) with (Z.to_nat i + 1)%nat by lia.
    + rewrite print_list_cons in *. rewrite length_app in Hlen, Hf. cbn [length] in Hlen, Hf.
      rewrite get_option_print; [|done|by right; left| |cbn [length]; lia].
      2:{ constructor; [lia|]. by apply print_list_bytes. }
      change (44 =? 44) with true. cbn [mbind res_bind]. rewrite store_front by lia. cbn [mbind res_bind Z.eqb Pos.eqb].
      rewrite i32_small by lia.
      rewrite (IH fuel); [|done|lia|lia|by rewrite length_stored by lia|done|lia].
      set (m := Nat.min (length (w :: vs)) (Z.to_nat (nints - (i + 1)))).
      assert (n = S m) as -> by (unfold n, m; cbn [length]; lia).
      rewrite take_stored, drop_stored by lia. cbn [take drop]. rewrite <- app_assoc. cbn [app].
      replace (Z.to_nat (i + 1) + m)%nat with (Z.to_nat i + S m)%nat by lia.
      by replace (i + 1 + Z.of_nat m) with (i + Z.of_nat (S m)) by lia.
Qed.

Lemma range_loop_spec n x ints i :
  0 <= i -> i + Z.of_nat n <= Z.of_nat (length ints) ->
  range_loop n x ints i = Ok (take (Z.to_nat i) ints ++ seqZ x (Z.of_nat n) ++ drop (Z.to_nat i + n) ints).
Proof.
  revert x ints i. induction n as [|n IH]; intros x ints i Hi Hl; cbn [range_loop].
  - change (seqZ x (Z.of_nat 0)) with (@nil Z). rewrite Nat.add_0_r. cbn [app]. by rewrite take_drop.
  - rewrite store_front by lia. cbn [mbind res_bind]. rewrite IH by (rewrite ?length_stored; lia).
    rewrite take_stored, drop_stored by lia. rewrite (seqZ_cons x (Z.of_nat (S n))) by lia.
    rewrite <- app_assoc. cbn [app].
    replace (Z.pred (Z.of_nat (S n))) with (Z.of_nat n) by lia. replace (Z.succ x) with (x + 1) by lia.
    by replace (Z.to_nat (i + 1) + n)%nat with (Z.to_nat i + S n)%nat by lia.
Qed.

Lemma range_loop_oob n x ints i :
  0 <= i <= Z.of_nat (length ints) -> Z.of_nat (length ints) < i + Z.of_nat n ->
  range_loop n x ints i = Fault OutOfBounds.
Proof.
  revert x ints i. induction n as [|n IH]; intros x ints i Hi Hl; cbn [range_loop]; [lia|].
  destruct (decide (i < Z.of_nat (length ints))).
  - rewrite store_front by lia. cbn [mbind res_bind]. apply IH; rewrite length_stored; lia.
  - by rewrite awrite_oob by lia.
Qed.

(** Expanding a range from entry 1 on. *)
Lemma get_range_print lo hi r x0 tl :
  int32 lo -> int32 hi -> lo < hi -> hi - lo < 2 ^ 31 ->
  get_range (45 :: cstr (print hi) r) (x0 :: lo :: tl) 1 =
  if Z.of_nat (length tl) + 2 <=? hi - lo then Fault OutOfBounds
  else Ok (hi - lo, cstr (print hi) r, x0 :: seqZ lo (hi - lo) ++ drop (Z.to_nat (hi - lo)) (lo :: tl)).
Proof.
  intros Hlo Hhi Hlt Hd. unfold get_range. cbn [tail].
  pose proof (simple_strtol_print hi [] r Hhi) as Es. rewrite app_nil_r in Es.
  rewrite Es; [|by left|constructor|done]. cbn [mbind res_bind].
  change (aread (x0 :: lo :: tl) 1) with (Ok lo : res Z). cbn [mbind res_bind]. rewrite i32_small by lia.
  destruct (Z.leb_spec (Z.of_nat (length tl) + 2) (hi - lo)).
  - by rewrite range_loop_oob by (cbn [length]; lia).
  - rewrite range_loop_spec, Z2Nat.id by (cbn [length]; lia). done.
Qed.

(** The upper end is parsed as the next number, when there is room for it. *)
Lemma get_options_upper fuel hi r nints ints i :
  int32 hi -> 1 <= i -> Z.of_nat (length ints) = nints -> nints < 2 ^ 31 ->
  get_options_loop (S fuel) (Some (cstr (print hi) r)) nints ints i =
  if i <? nints then Ok (Some (0 :: r), take (Z.to_nat i) ints ++ hi :: drop (Z.to_nat (i + 1)) ints, i + 1)
  else Ok (Some (cstr (print hi) r), ints, i).
Proof.
  intros Hhi Hi Hl Hn. cbn [get_options_loop]. destruct (Z.ltb_spec i nints); [|done].
  pose proof (get_option_print hi [] r Hhi ltac:(by left) ltac:(constructor) ltac:(done)) as Eg. rewrite app_nil_r in Eg.
  rewrite Eg. cbn [mbind res_bind app]. rewrite store_front by lia. cbn [mbind res_bind Z.eqb Pos.eqb].
  by rewrite i32_small by lia.
Qed.

Lemma get_options_range lo hi r nints ints :
  int32 lo -> int32 hi -> lo < hi -> hi - lo < 2 ^ 31 -> Z.of_nat (length ints) = nints -> 2 <= nints < 2 ^ 31 ->
  let k := Z.min (hi - lo + 1) (nints - 1) in
  get_options (Some (cstr (print lo ++ 45 :: print hi) r)) nints ints =
  if nints <=? hi - lo then Fault OutOfBounds
  else Ok (Some (if k =? hi - lo + 1 then 0 :: r else cstr (print hi) r),
           k :: seqZ lo k ++ drop (Z.to_nat (k + 1)) ints).
Proof.
  intros Hlo Hhi Hlt Hd Hl Hn k. unfold get_options.
  destruct (print_bytes lo Hlo) as [_ Hp1]. destruct (print_bytes hi Hhi) as [Hb2 Hp2].
  set (fuel := length (default [] (Some (cstr (print lo ++ 45 :: print hi) r)))).
  assert (exists f, fuel = S f) as [f ->].
  { exists (Nat.pred fuel). unfold fuel. cbn [default]. unfold id. rewrite !length_app. cbn [length]. lia. }
  destruct ints as [|x0 [|y tl]]; [cbn in Hl; lia..|]. cbn [length] in Hl.
  remember (S f) as g eqn:Hg. cbn [get_options_loop]. rewrite (proj2 (Z.ltb_lt 1 nints)) by lia.
  rewrite get_option_print; [|done|by right; right|by constructor; [lia|]|cbn [length]; lia].
  change (45 =? 44) with false. cbn [mbind res_bind].
  assert (awrite (x0 :: y :: tl) 1 lo = Ok (x0 :: lo :: tl)) as -> by (rewrite awrite_in by (cbn [length]; lia); done).
  cbn [mbind res_bind Z.eqb Pos.eqb need app]. rewrite get_range_print by done.
  replace (Z.of_nat (length tl) + 2) with nints by lia.
  destruct (Z.leb_spec nints (hi - lo)) as [Hbig|Hfit]; [done|]. cbn [mbind res_bind].
  rewrite (proj2 (Z.ltb_ge (hi - lo) 0)), (i32_small (hi - lo - 1)), (i32_small (1 + (hi - lo - 1))), i32_small by lia.
  replace (1 + (hi - lo - 1) + 1) with (hi - lo + 1) by lia.
  assert (exists m, Z.to_nat (hi - lo) = S m) as [m Hm] by (exists (Nat.pred (Z.to_nat (hi - lo))); lia).
  rewrite Hm. cbn [drop]. subst g.
  rewrite get_options_upper; [|done|lia|cbn [length]; rewrite length_app, length_seqZ, length_drop; lia|lia].
  destruct (Z.ltb_spec (hi - lo + 1) nints) as [Hroom|Hfull]; cbn [mbind res_bind].
  - assert (k = hi - lo + 1) as -> by lia. rewrite Z.eqb_refl.
    rewrite i32_small, awrite_in by (try rewrite length_app; cbn [length]; lia || (rewrite length_take; cbn [length]; lia)).
    cbn [mbind res_bind]. do 2 f_equal. replace (Z.to_nat (hi - lo + 1)) with (S (S m)) by lia.
    replace (Z.to_nat (hi - lo + 1 + 1)) with (S (S (S m))) by lia.
    change (Z.to_nat 0) with O. cbn [take app insert list_insert drop]. f_equal; [lia|].
    replace (seqZ lo (hi - lo + 1)) with (seqZ lo (hi - lo) ++ [hi]).
    2:{ rewrite (seqZ_app lo (hi - lo) 1) by lia. do 2 f_equal. replace (lo + (hi - lo)) with hi by lia. done. }
    rewrite take_app_length', drop_app_ge by (rewrite length_seqZ; lia). rewrite length_seqZ, drop_drop, <- app_assoc. cbn [app].
    do 4 f_equal. lia.
  - assert (k = hi - lo) as -> by lia. rewrite (proj2 (Z.eqb_neq (hi - lo) (hi - lo + 1))) by lia.
    rewrite i32_small, awrite_in by (cbn [length]; lia). cbn [mbind res_bind].
    change (Z.to_nat 0) with O. cbn [insert list_insert]. replace (Z.to_nat (hi - lo + 1)) with (S (S m)) by lia. cbn [drop].
    do 3 f_equal. lia.
Qed.

(** ** Suffixes and names *)

(** How many powers of 1024 a suffix stands for. *)
Definition size_prefix (c : Z) : nat :=
  match list_find (fun u => u = toupper c) [75; 77; 71; 84; 80; 69] with
  | Some (i, _) => S i
  | None => 0
  end.

Lemma suffix_shifts_spec c : 0 <= c < 256 -> suffix_shifts c = size_prefix c.
Proof.
  intros Hc. apply Nat.eqb_eq.
  apply (forallb_below 256 (fun c => (suffix_shifts c =? size_prefix c)%nat) c); [vm_compute; reflexivity|done].
Qed.

Lemma iter_shift n v : Nat.iter n (fun ret => u64 (Z.shiftl ret 10)) (u64 v) = u64 (v * 1024 ^ Z.of_nat n).
Proof.
  induction n as [|n IH]; [by rewrite Z.pow_0_r, Z.mul_1_r|].
  rewrite Nat.iter_succ, IH, Z.shiftl_mul_pow2 by lia. unfold wrapu. rewrite Zmult_mod_idemp_l. f_equal.
  rewrite Nat2Z.inj_succ, Z.pow_succ_r by lia. lia.
Qed.

(** [memparse] reads a number in the radix it announces and multiplies it by the size
    its suffix names, modulo [2 ^ 64]; the pointer is behind the suffix. *)
Theorem memparse_value t r :
  bytes t -> Z.of_nat (length t) < 2 ^ 31 ->
  let n := number_length 0 t in
  let s := size_prefix (default 0 (t !! n)) in
  memparse (cstr t r) = Ok (u64 (number 0 t * 1024 ^ Z.of_nat s), Z.of_nat n + (if (s =? 0)%nat then 0 else 1)).
Proof.
  intros Ht Hl n s. unfold memparse. rewrite simple_strtoull_spec by (done || by left). cbn [mbind res_bind].
  fold n. pose proof (number_length_le 0 t) as Hn. fold n in Hn. rewrite Nat2Z.id, drop_cstr by done.
  rewrite rd_head. cbn [mbind res_bind]. rewrite head_lookup, lookup_drop, Nat.add_0_r.
  assert (0 <= default 0 (t !! n) < 256) as Hc.
  { destruct (t !! n) as [c|] eqn:E; cbn; [|unfold id; lia]. unfold id.
    unfold bytes in Ht. rewrite Forall_forall in Ht. specialize (Ht c (list_elem_of_lookup_2 _ _ _ E)). cbv beta in Ht. lia. }
  rewrite suffix_shifts_spec by done. fold s. rewrite iter_shift. do 2 f_equal. destruct (s =? 0)%nat; lia.
Qed.

Definition no_comma (t : list Z) : Prop := Forall (fun c => c <> 44) t.

Lemma skip_item_spec a rest r :
  no_comma a -> bytes a -> rest = [] \/ head rest = Some 44 -> skip_item (cstr (a ++ rest) r) = Ok (cstr rest r).
Proof.
  intros Ha Hb Hr. induction Ha as [|c a H1 _ IH]; cbn [app skip_item].
  - destruct Hr as [->|H]; [done|]. destruct rest as [|c rest]; [done|]. by injection H as ->.
  - apply Forall_cons in Hb as [Hc Hb]. rewrite (proj2 (Z.eqb_neq c 0)), (proj2 (Z.eqb_neq c 44)) by (done || lia).
    by apply IH.
Qed.

(** A name without a comma at the front of an item list is at the front of its first item. *)
Lemma name_prefix opt x rest :
  no_comma opt -> rest = [] \/ head rest = Some 44 ->
  opt = take (length opt) (x ++ rest) -> exists x2, x = opt ++ x2.
Proof.
  intros Ho Hr E. destruct (decide (length opt <= length x)%nat) as [Hl|Hl].
  - exists (drop (length opt) x). rewrite E at 1. rewrite take_app_le by done. by rewrite take_drop.
  - exfalso. destruct Hr as [->|H].
    + rewrite app_nil_r in E. apply (f_equal length) in E. rewrite length_take in E. lia.
    + destruct rest as [|c rest]; [done|]. injection H as ->.
      assert (opt !! length x = Some 44) as Hx.
      { rewrite E, lookup_take_lt by lia. by apply list_lookup_middle. }
      unfold no_comma in Ho. rewrite Forall_forall in Ho. by apply (Ho 44 (list_elem_of_lookup_2 _ _ _ Hx)).
Qed.

(** One item of the list. *)
Lemma parse_option_step fuel x rest r opt r' :
  x ++ rest <> [] -> no_comma x -> no_comma opt -> bytes (x ++ rest) -> bytes opt ->
  rest = [] \/ head rest = Some 44 ->
  parse_option_loop (S fuel) (cstr (x ++ rest) r) (cstr opt r') =
  if decide (x = opt) then Ok true else parse_option_loop fuel (if decide (rest = []) then 0 :: r else cstr (tail rest) r) (cstr opt r').
Proof.
  intros Hne Hx Ho Hb Hob Hr. cbn [parse_option_loop].
  assert (exists c l, x ++ rest = c :: l) as (c & l & E) by (destruct (x ++ rest); [done|eauto]).
  assert (c <> 0) as Hc by (rewrite E in Hb; apply Forall_cons in Hb as [? _]; lia).
  assert (rd (cstr (x ++ rest) r) = Ok c) as -> by (by rewrite E). cbn [mbind res_bind].
  rewrite (proj2 (Z.eqb_neq c 0)) by done. cbn [negb]. rewrite strlen_cstr by (by apply bytes_text).
  cbn [mbind res_bind]. rewrite strncmp_cstr by (done || lia). cbn [mbind res_bind]. rewrite Nat2Z.id, firstn_all.
  pose proof (lexcmp_eq (take (length opt) (x ++ rest)) opt) as Hlex.
  set (d := lexcmp _ _) in *. clearbody d.
  assert (rd (cstr rest r) = Ok (if decide (rest = []) then 0 else 44)) as Hrd.
  { destruct Hr as [->|H]; [done|]. destruct rest as [|c' rest]; [done|]. by injection H as ->. }
  assert (forall a, no_comma a -> bytes a ->
    (str ← skip_item (cstr (a ++ rest) r); c0 ← rd str;
     parse_option_loop fuel (if c0 =? 44 then tail str else str) (cstr opt r')) =
    parse_option_loop fuel (if decide (rest = []) then 0 :: r else cstr (tail rest) r) (cstr opt r')) as Hskip.
  { intros a Ha Hba. rewrite skip_item_spec by done. cbn [mbind res_bind]. rewrite Hrd. cbn [mbind res_bind].
    destruct rest as [|c' rest]; [done|]. by rewrite decide_False. }
  apply Forall_app in Hb as [Hbx _]. destruct (Z.eqb_spec d 0) as [Hd|Hd].
  - apply Hlex in Hd. destruct (name_prefix opt x rest) as [x2 ->]; [done..|]. rewrite <- !app_assoc, drop_app_length.
    apply Forall_app in Hx as [_ Hx2]. apply Forall_app in Hbx as [_ Hb2].
    destruct x2 as [|c2 x2].
    + rewrite (decide_True (P := opt ++ [] = opt)) by apply app_nil_r. cbn [app]. rewrite Hrd. cbn [mbind res_bind].
      by destruct (decide (rest = [])).
    + cbn [app rd mbind res_bind]. rewrite decide_False.
      2:{ intros E2. apply (f_equal length) in E2. rewrite length_app in E2. cbn in E2. lia. }
      apply Forall_cons in Hx2 as Hx2'. destruct Hx2' as [Hc2 _]. apply Forall_cons in Hb2 as Hb2'. destruct Hb2' as [Hc3 _].
      rewrite (proj2 (Z.eqb_neq c2 0)), (proj2 (Z.eqb_neq c2 44)) by (done || lia). cbn [orb].
      pose proof (Hskip (c2 :: x2) Hx2 Hb2) as Hs. rewrite <- app_assoc in Hs. exact Hs.
  - cbn [mbind res_bind]. rewrite decide_False; [by apply Hskip|]. intros ->. apply Hd, Hlex. by rewrite take_app_length.
Qed.

Lemma parse_option_items fuel items r opt r' :
  Forall (fun x => no_comma x /\ bytes x) items -> no_comma opt -> bytes opt -> opt <> [] ->
  (length (join_items items) < fuel)%nat ->
  parse_option_loop fuel (cstr (join_items items) r) (cstr opt r') = Ok (bool_decide (opt ∈ items)).
Proof.
  intros Hi Ho Hob Hne. revert fuel. induction items as [|x items IH]; intros fuel Hf; (destruct fuel as [|fuel]; [lia|]).
  { rewrite bool_decide_eq_false_2 by apply not_elem_of_nil. done. }
  apply Forall_cons in Hi as [[Hx Hbx] Hi].
  destruct items as [|y items].
  - cbn [join_items] in *. destruct x as [|c x].
    { cbn. rewrite bool_decide_eq_false_2; [done|]. by intros ->%list_elem_of_singleton. }
    rewrite <- (app_nil_r (c :: x)), parse_option_step; rewrite ?app_nil_r; try done; [|by left].
    destruct (decide (c :: x = opt)) as [->|Hn].
    + by rewrite bool_decide_eq_true_2 by (by apply list_elem_of_singleton).
    + rewrite decide_True by done. rewrite bool_decide_eq_false_2 by (by intros ->%list_elem_of_singleton).
      destruct fuel; [cbn in Hf; lia|done].
  - change (join_items (x :: y :: items)) with (x ++ 44 :: join_items (y :: items)) in *.
    assert (bytes (join_items (y :: items))) as Hb.
    { clear -Hi. revert y Hi. induction items as [|z items IH]; intros y [[_ Hy] Hi]%Forall_cons; [done|].
      change (join_items (y :: z :: items)) with (y ++ 44 :: join_items (z :: items)).
      apply Forall_app. split; [done|]. constructor; [lia|]. by apply IH. }
    rewrite length_app in Hf. cbn [length] in Hf.
    rewrite parse_option_step; [|by destruct x|done|done| |done|by right].
    2:{ apply Forall_app. split; [done|]. constructor; [lia|done]. }
    destruct (decide (x = opt)) as [->|Hn]; [by rewrite bool_decide_eq_true_2 by left|].
    rewrite decide_False by done. cbn [tail]. rewrite IH by (done || lia). f_equal. apply bool_decide_ext.
    rewrite (elem_of_cons (y :: items)). naive_solver.
Qed.

(** An option is found exactly when it is one of the comma-separated items. *)
Theorem parse_option_str_spec items r opt r' :
  Forall (fun x => no_comma x /\ bytes x) items -> no_comma opt -> bytes opt -> opt <> [] ->
  parse_option_str (cstr (join_items items) r) (cstr opt r') = Ok (bool_decide (opt ∈ items)).
Proof. intros. apply parse_option_items; [done..|]. rewrite length_app. cbn [length]. lia. Qed.

(** * Main theorem *)

(** [get_options] reads lists and ranges.  A comma-separated list of decimal
    integers comes out in the array, in order, as many as fit, with their number in
    front and the rest of the text returned.  A range "lo-hi" is expanded to all its
    integers when they fit; but [get_range] is not told the size of the array: when
    the range has more numbers than the array has entries it writes past the end. *)
Theorem get_options_exact vs lo hi r nints ints :
  Forall int32 vs -> Z.of_nat (length (print_list vs)) < 2 ^ 30 -> Z.of_nat (length ints) = nints -> 2 <= nints < 2 ^ 31 ->
  int32 lo -> int32 hi -> lo < hi -> hi - lo < 2 ^ 31 ->
  (let n := Nat.min (length vs) (Z.to_nat (nints - 1)) in
   get_options (Some (cstr (print_list vs) r)) nints ints =
   Ok (Some (cstr (print_list (drop n vs)) r), Z.of_nat n :: take n vs ++ drop (S n) ints)) /\
  (let k := Z.min (hi - lo + 1) (nints - 1) in
   hi - lo < nints ->
   get_options (Some (cstr (print lo ++ 45 :: print hi) r)) nints ints =
   Ok (Some (if k =? hi - lo + 1 then 0 :: r else cstr (print hi) r),
       k :: seqZ lo k ++ drop (Z.to_nat (k + 1)) ints)) /\
  (nints <= hi - lo ->
   get_options (Some (cstr (print lo ++ 45 :: print hi) r)) nints ints = Fault OutOfBounds).
Proof.
  intros Hvs Hlen Hl Hn Hlo Hhi Hlt Hd. split; [|split].
  - intros n. unfold get_options. rewrite get_options_loop_list; [|done|done|lia|lia|lia|].
    2:{ cbn. rewrite length_app. cbn. lia. }
    fold n. cbn [mbind res_bind]. destruct ints as [|x ints]; [cbn in Hl; lia|].
    change (Z.to_nat 1) with 1%nat. cbn [take app]. rewrite i32_small by lia.
    rewrite awrite_in by (cbn [length]; lia). cbn [mbind res_bind]. change (Z.to_nat 0) with O. cbn [insert list_insert].
    by replace (1 + Z.of_nat n - 1) with (Z.of_nat n) by lia.
  - intros k Hfit. rewrite get_options_range by done. by rewrite (proj2 (Z.leb_gt _ _)) by lia.
  - intros Hbig. rewrite get_options_range by done. by rewrite (proj2 (Z.leb_le _ _)) by lia.
Qed.

(** "7,-3" fits in four entries; "1-9" does not. *)
Lemma get_options_exact_witness :
  get_options (Some [55; 44; 45; 51; 0]) 4 [0; 0; 0; 0] = Ok (Some [0], [2; 7; -3; 0]) /\
  get_options (Some [49; 45; 57; 0]) 4 [0; 0; 0; 0] = Fault OutOfBounds.
Proof.
  destruct (get_options_exact [7; -3] 1 9 [] 4 [0; 0; 0; 0]) as (H1 & _ & H3).
  - repeat constructor; done.
  - vm_compute. reflexivity.
  - reflexivity.
  - lia.
  - split; done.
  - split; done.
  - lia.
  - lia.
  - split; [exact H1|]. apply H3. lia.
Defined.
